(* ===== verification/_CoqProject ===== *)
-Q . S2P
Prelude.v
Time.v
Codec.v
IpAddr.v
Scope.v
Types.v
Store.v
StoreFacts.v
Effects.v
Trace.v
Ops.v
Linear.v
Rar.v
Consent.v
Jws.v
Keys.v
Float64.v
Credentials.v
Config.v
ClientAuthn.v
Registration.v
Cimd.v
Issue.v
Device.v
Redirect.v
Authorize.v
Par.v
Metadata.v
Form.v
Grants.v
TokenExchange.v
Endpoints.v
Http.v
Surface.v
Routing.v
RateLimit.v
Server.v
Exposure.v
Once.v
Delivery.v
Containment.v
Sql.v
Postgres.v
SqlFacts.v
PgRep.v
PgRefines.v
PgRaces.v
PgFinal.v
PgOnce.v
Mtls.v
ResourceMeta.v
Delegate.v
Harness.v
Samples.v
Checks.v
Checks2.v
HarnessFacts.v
Conformance.v
Accepts.v
Rejects.v
Signers.v
SignerSuite.v
SignerFacts.v
SignerBundled.v
SignerFaults.v
Shapes.v
