(* ===== verification/Prelude.v ===== *)
(** * oauth-as: an OAuth 2.1 authorization server, verified

    The program is the Rust crate [oauth-as] ([src/crates/oauth-as/src]), an authorization
    server as a library: a host wires an [AuthorizationServer] to a store, a clock, a
    signer, a rate limiter and an event sink, and calls its handlers; and the crate
    [oauth-as-postgres], the store a host deploys.  The model is of the crates with all
    their features on.

    ** The parts and their files

    - [Prelude] (this file): [result] and the question-mark notation, the helpers of
      Rust's [Option], [str] and slices on lists of bytes, the tactic [bools], and the hint
      database [oauth].
    - [Time]: [SystemTime] and [Duration] as nanosecond counts with the bounds of the
      platform types; [saturating_deadline] and [unix_seconds] of server.rs.
    - [Codec]: hex.rs, pkce.rs, resource-indicator and redirect-URI syntax, percent encoding
      (authorization.rs), loopback redirect matching, user codes (device.rs, server.rs) and
      replay keys (server.rs).
    - [Scope]: scope.rs.  [Types]: the records and enums of grant.rs, error.rs, token.rs,
      client.rs, authorization.rs, device.rs, consent.rs, par.rs, events.rs, jwt.rs,
      mtls.rs, with derived equality as [EqDecision] instances.
    - [Store]: store.rs.  [StoreOp] is the [Storage] trait, one constructor per method, and
      [MemoryStorage.step] the in-memory implementation, one definition per method over
      the record [MemoryInner] of tables and revocation barriers.  [StoreFacts] has the
      invariant [store_wf], kept by every operation, and the theorems about the store.
    - [Effects]: the handlers are [async fn]s, here values of [prog A], one node per call of
      the store, the clock, the random source, the limiter, the sink, the signer, and per
      piece of verification work a refusal throws away.  [run] executes one handler;
      [run_pool] interleaves any number, one node at a time, in the order of a schedule.
      Storage calls may fail before or after they take effect ([Fault]).
    - [Trace]: [exec p tr a], the executions of a handler under arbitrary answers, and their
      inversion ([exec_inv]).  A theorem about [exec] holds in every interleaving
      ([run_exec], [run_pool_exec]).
    - [Ops]: the operations of the store by the table they touch, and the tactic that walks a
      handler down to its calls.
    - [Linear]: the class [Linear], a thing that exists once (in the store or in the hands
      of one request), and [at_most_one]: if every program of a pool [owns] what it hands
      out, at most one of them hands it out.  Instances: an authorization code, a device
      grant, a pushed request, a replay identifier.
    - [IpAddr]: the address parsers and printers of the standard library that cimd.rs uses.
      [Float64]: the [f64] arithmetic of the dates of a request object.
    - [Rar]: rar.rs.  [Consent]: consent.rs.  [Jws]: jwt.rs (algorithms, keys, compact form,
      HMAC).  [Credentials]: client.rs secrets, client_assertion.rs, mtls.rs, dpop.rs.
      [Keys]: what jwt.rs publishes about signing keys, their rotation, the bundled P-256
      signer.  [Mtls]: building the certificate registrations of mtls.rs.
    - [Config]: [ServerConfig], [AuthorizationServer], verifier lookup, resource indicators
      and scope resolution of server.rs.
    - [ClientAuthn]: [authenticate_client] and [verify_dpop].  [Issue]: [issue], its two
      commit paths and the idempotent refresh retry.  [Device]: the device grant.
      [Redirect]: reading a request from pairs and writing a redirect (authorization.rs).
      [Authorize]: the authorization endpoint.  [Grants]: the token endpoint.
      [Endpoints]: introspection, revocation, consent, [register_client].
    - [Registration]: registration.rs.  [Cimd]: cimd.rs.  [Par]: par.rs.  [TokenExchange]:
      token_exchange.rs.  [Metadata]: metadata.rs and [AuthorizationServer::metadata].
      [ResourceMeta]: resource_metadata.rs.
      [RateLimit]: rate_limit.rs, with a limiter that keeps the whole log as its
      specification.
    - The HTTP surface, http.rs: [Form] (forms, escapes, headers and client credentials),
      [Http] (responses, bodies, routes, [ServiceBuilder::build] and the endpoints a client
      calls), [Surface] (registration, the authorization endpoint, the verification page,
      [dispatch] and [handle]), [Routing] (the published URLs reach their handlers, what
      every response carries) and [Exposure] (every execution of [handle] is a [session] of
      calls of the server).
    - [Server]: the endpoints as one server answering [Request]s; what each request may ask
      of the store, and the theorems about concurrent requests.  [Once]: what is good for
      one answer; [Delivery]: the same for whole HTTP requests.
    - [Containment]: what a replayed code, a reused refresh token and a revocation leave.
    - The PostgreSQL store, oauth-as-postgres.  [Sql]: the database, from its documentation
      and the crate's migrations: tables and their constraints, one form per statement the
      crate sends (which rows it reads from its snapshot, which it locks and reads again,
      what it writes), transactions, advisory locks and failures.  [Postgres]: store.rs,
      each method as its statements in order; time.rs, error.rs and naive.rs.  [SqlFacts]
      and [PgRep]: statements run alone, and when the rows represent a [MemoryInner].
      [PgRefines]: each method against [MemoryStorage].  [PgRaces]: connections stepping
      in any order, and rely-guarantee reasoning about them.  [PgFinal] and [PgOnce]: the
      two guarantees that depend on locks.
    - [Delegate]: the forwarders of delegate.rs, and the counting store its tests build.
    - The storage conformance suite, storage_conformance.rs: what a host runs against its own
      store.  [Harness]: the checks as programs, the report, the gate the racers meet at, a
      race joined on one task or handed to a runtime.  [Samples]: the fixtures.  [Checks] and
      [Checks2]: every check, the list of their names, the suite.  [HarnessFacts] and
      [Conformance]: what holds whatever the store; [Accepts]: the in-memory store passes;
      [Rejects]: a planted fault for every name.
    - Signers: [Signers] is backends/rsa.rs and backends/ed25519.rs; [SignerSuite] is
      signer_conformance.rs, what a host runs against a signer and verifier of its own, and
      [SignerFacts], [SignerBundled] and [SignerFaults] what a clean report means, what the
      bundled signers guarantee, and what the suite rejects.
    - [Shapes]: the validators of the crate oauth-as-conformance, the JSON the server's
      replies serialize to, and the verdicts.

    A handler keeps its name, its order of calls, its early returns and its answers; a
    function whose source is long is cut at its own sections ([check_code], [redeem_code],
    [contain_replay] are consecutive parts of [authorization_code_token]).  Fields carry a
    prefix of their record ([rt_family_id] is [RefreshTokenRecord::family_id]).

    ** What the theorems show

    - One use: over every interleaving of requests, wherever storage fails, a code, a device
      grant, a request URI, a DPoP proof and a client assertion are each good for one answer
      ([Once]), and a code and a device grant for one HTTP response with tokens ([Delivery]).
    - Finality: what a revocation covers never comes back while its window stands, in the
      store ([StoreFacts]) and for the server with requests in flight ([Server]).
    - Soundness of each endpoint: what must have been checked, and recorded, before a
      client is authenticated, a request validated, a code or token handed out, or a token
      described, a registration managed or a token exchanged ([ClientAuthn], [Authorize],
      [Issue], [Grants], [Endpoints], [Par], [Registration], [TokenExchange], [Cimd]), as
      facts about every execution.
    - The surface: an HTTP request does nothing but call the server with its own credentials,
      acts for a user only on that user's authority, and is answered with a reply of the
      server ([Exposure]); routes, headers and bounds ([Routing]); the metadata says what
      the handlers do ([Metadata]).
    - The limiter decides as the log of its window does, and failures cannot lock a client
      out ([RateLimit]).
    - Effect: with a storage that answers, replay of a code kills the grant, and so does
      reuse of a spent refresh token where the server rotates without a retry window; a
      revocation does what it acknowledges, or tells the host that the cascade failed, and
      reaches only the caller's own tokens ([Containment]); an issuance is all or nothing
      ([Issue]); a sweep and a client's deletion remove exactly what they should
      ([StoreFacts]).
    - No widening: scopes, resources and authorization details only narrow along a grant,
      and a consent record only widens ([Config], [Rar], [Grants], [Consent]).
    - The PostgreSQL store is the in-memory store, call by call ([PgRefines]), a failed call
      changes nothing, and under every interleaving of statements at READ COMMITTED no
      write survives a revocation that covers it ([PgFinal]) and one caller redeems what is
      good once ([PgOnce]); the read-then-write methods of naive.rs do not have the latter.
    - The conformance suite ends, and reports only names it publishes ([Conformance]); its
      races overlap or say that they did not ([HarnessFacts]); the in-memory store passes it
      however it is scheduled ([Accepts]), and for every check there is
      a store wrong in one method, a store that suspends or a runtime that keeps the
      racers apart that it catches ([Rejects]).
    - The signer suite reports nothing exactly when its contract is met ([SignerFacts]);
      bundled signers sign, in one width, what bundled verifiers accept exactly when the
      library takes the published key ([SignerBundled]).
    - The replies pass the black-box validators ([Shapes]).
    - Keys: a rotated key goes on verifying what it signed ([Keys]); a registration names
      exactly the certificates it was built from ([Mtls]).
    - Formats: round trips, injectivity and exact acceptance of the parsers ([Scope],
      [Codec], [Jws], [Redirect]), and the bounds of deadlines ([Time]).

    ** Parameters, bounds and fuel

    Code outside the repository enters as classes: [Crypto] (SHA-256 and base64url, with
    [CryptoLaws] where a theorem needs their documented behaviour), [Serde] (JSON
    reading), [Backends] (the bundled signature verifiers and claim serialization),
    [HttpLib] and [HttpSerde] (header maps, standard base64, JSON bodies), [Base64] (the
    padded alphabet of a PEM body), [P256Lib] with [P256Laws], [RsaLib] with
    [RsaLaws] and [Ed25519Lib] with [Ed25519Laws] (the signature libraries), [ShapeLib] (URL
    parsing and the JWT library of the validators), [RecordJson] (records inside a reply), [HashOrder] (the
    iteration order of a hash map) and [Debug] (the derived text of a value in a violation).  What a host supplies to the HTTP service, the subject,
    approval and token hooks, is a function of the request it is given.  The environment [Env] answers the
    clock, randomness, limiter and signer calls, arbitrarily unless a theorem says
    otherwise.  Two loops carry fuel: [SATURATING_FUEL] is 65 halvings, after which every
    [Duration] is below a second ([saturating_deadline_bounds] uses it), and
    [USER_CODE_DRAWS] allows one 64-byte draw per symbol, which is enough whenever each draw
    has a usable byte ([random_user_code_produces]); the source draws on without a bound.
    The loops of the PostgreSQL sweep carry the fuel [turns], one turn more than the rows
    of a table can fill batches ([turns_enough]); under interleaving they may run any number
    of turns.  A conformance race on one task carries the number of rounds the racers are
    polled ([Cooperative]): [suite_ends] has a number that is enough for any store whose
    calls end, and the in-memory one needs [FUEL].  Every other loop of the source is
    structural here.

    [Accepts] and [Rejects] run the suite with the concrete parameters of the other
    witnesses: padding for the digest ([plain_crypto]), the one text the fixtures parse
    ([fixture_serde]) and key order for the maps ([listing_order]).

    The database is trusted to do what [Sql] says PostgreSQL documents; [PgJson], [Jsonb]
    and [PgRecords] are serde and the jsonb type, with [PgLaws] the round trip of a record
    through a column, [PgOrder] the order rows come in, the collation and the lock hash.

    ** Not modelled

    The tower and axum adapters of http.rs, the examples, benchmarks and fuzz targets, the
    setup of the PostgreSQL store (connecting, migrating, truncating), and the tests, those
    of oauth-as-conformance that drive a server included.  [Debug] redaction and the serialization of the stored
    records are not modelled; timing is not, except as the work a refusal performs
    ([DoWork]); a waker is what brings the next poll.  In the handlers the limiter is an
    environment that answers each check; [RateLimit] is the one the crate ships.  The
    conformance suite is run on the in-memory store and on stores that deviate from it; the
    PostgreSQL store is related to the in-memory one directly ([PgRefines]). *)
From Stdlib Require Export Ascii String ZArith Lia DecimalString DecimalNat.
From stdpp Require Export base gmap strings list option fin_maps.

(** ** Notations of the development *)
Declare Scope oauth_scope.
Delimit Scope oauth_scope with oauth.

(** Rust's [==] and [!=] on types with a derived [PartialEq]. *)
Notation "x == y" := (bool_decide (x = y)) (at level 70, no associativity) : oauth_scope.
Notation "x != y" := (negb (bool_decide (x = y))) (at level 70, no associativity) : oauth_scope.
#[global] Open Scope oauth_scope.

(** ** [Result] *)
Inductive result (A E : Type) : Type :=
| Ok (a : A)
| Err (e : E).
Arguments Ok {A E} a.
Arguments Err {A E} e.

#[global] Instance result_eq_dec `{EqDecision A, EqDecision E} : EqDecision (result A E).
Proof. solve_decision. Defined.

Definition is_ok {A E} (r : result A E) : bool :=
  match r with Ok _ => true | Err _ => false end.

Definition map_err {A E F} (f : E -> F) (r : result A E) : result A F :=
  match r with Ok a => Ok a | Err e => Err (f e) end.

Definition and_then {A B E} (r : result A E) (f : A -> result B E) : result B E :=
  match r with Ok a => f a | Err e => Err e end.

Definition ok_or {A E} (o : option A) (e : E) : result A E :=
  match o with Some a => Ok a | None => Err e end.

(** The [?] operator inside a function that returns a [Result] without effects. *)
Notation "'let?' x ':=' r 'in' k" :=
  (and_then r (fun x => k)) (at level 10, x name, r at level 100, k at level 200).

Lemma and_then_ok {A B E} (r : result A E) (f : A -> result B E) b :
  and_then r f = Ok b <-> exists a, r = Ok a /\ f a = Ok b.
Proof. destruct r; naive_solver. Qed.

Lemma and_then_err {A B E} (r : result A E) (f : A -> result B E) e :
  and_then r f = Err e <-> r = Err e \/ exists a, r = Ok a /\ f a = Err e.
Proof. destruct r; naive_solver. Qed.

Lemma map_err_ok {A E F} (f : E -> F) (r : result A E) a : map_err f r = Ok a <-> r = Ok a.
Proof. destruct r; naive_solver. Qed.

Lemma map_err_err {A E F} (f : E -> F) (r : result A E) e :
  map_err f r = Err e <-> exists e0, r = Err e0 /\ e = f e0.
Proof. destruct r; naive_solver. Qed.

Lemma ok_or_ok {A E} (o : option A) (e : E) a : ok_or o e = Ok a <-> o = Some a.
Proof. destruct o; naive_solver. Qed.

(** ** [Option] helpers of the Rust standard library *)
Definition is_some {A} (o : option A) : bool := match o with Some _ => true | None => false end.
Definition is_none {A} (o : option A) : bool := negb (is_some o).
Definition is_some_and {A} (o : option A) (p : A -> bool) : bool :=
  match o with Some a => p a | None => false end.
(** [b.then(|| x)] *)
Definition then_some {A} (b : bool) (a : A) : option A := if b then Some a else None.
(** [a.or(b)] and [a.or_else(|| b)] *)
Definition option_or {A} (a b : option A) : option A :=
  match a with Some x => Some x | None => b end.
(** [o.unwrap_or(d)] *)
Definition unwrap_or {A} (o : option A) (d : A) : A := match o with Some a => a | None => d end.

Lemma is_some_true {A} (o : option A) : is_some o = true <-> is_Some o.
Proof. destruct o; naive_solver. Qed.
Lemma is_some_and_true {A} (o : option A) p :
  is_some_and o p = true <-> exists a, o = Some a /\ p a = true.
Proof. destruct o; naive_solver. Qed.

(** ** Bytes and strings

    A Rust [&str] or [&[u8]] is a [string]: the sequence of its bytes. *)
Definition bytes (s : string) : list ascii := list_ascii_of_string s.
Definition of_bytes (l : list ascii) : string := string_of_list_ascii l.
Definition u8 (c : ascii) : N := N_of_ascii c.
Definition str_len (s : string) : nat := String.length s.
Definition str_is_empty (s : string) : bool := match s with EmptyString => true | _ => false end.
Definition str_forall (p : ascii -> bool) (s : string) : bool := forallb p (bytes s).
Definition contains_char (c : ascii) (s : string) : bool := existsb (Ascii.eqb c) (bytes s).

Definition in_range (lo hi : N) (c : ascii) : bool := (lo <=? u8 c)%N && (u8 c <=? hi)%N.
Definition is_ascii_digit (c : ascii) : bool := in_range 48 57 c.
Definition is_ascii_alphabetic (c : ascii) : bool := in_range 65 90 c || in_range 97 122 c.
Definition is_ascii_alphanumeric (c : ascii) : bool := is_ascii_alphabetic c || is_ascii_digit c.

(** [s.split(c)]: always at least one piece. *)
Fixpoint split_on (c : ascii) (s : string) : list string :=
  match s with
  | EmptyString => [EmptyString]
  | String x s' =>
      if Ascii.eqb x c then EmptyString :: split_on c s'
      else match split_on c s' with
           | w :: ws => String x w :: ws
           | [] => [String x EmptyString]
           end
  end.

(** [s.split(c).filter(|t| !t.is_empty())] *)
Definition split_nonempty (c : ascii) (s : string) : list string :=
  List.filter (fun t => negb (str_is_empty t)) (split_on c s).

(** [s.strip_prefix(p)] *)
Fixpoint strip_prefix (p s : string) : option string :=
  match p with
  | EmptyString => Some s
  | String a p' =>
      match s with
      | String b s' => if Ascii.eqb a b then strip_prefix p' s' else None
      | EmptyString => None
      end
  end.

(** [s.find(c)]: the index of the first occurrence. *)
Fixpoint find_char (c : ascii) (s : string) : option nat :=
  match s with
  | EmptyString => None
  | String x s' => if Ascii.eqb x c then Some 0 else S <$> find_char c s'
  end.

Fixpoint take_str (n : nat) (s : string) : string :=
  match n, s with
  | S n', String c s' => String c (take_str n' s')
  | _, _ => EmptyString
  end.

Fixpoint drop_str (n : nat) (s : string) : string :=
  match n, s with
  | S n', String _ s' => drop_str n' s'
  | _, _ => s
  end.

(** [s.trim_end_matches(c)] *)
Fixpoint trim_end_matches (c : ascii) (s : string) : string :=
  match s with
  | EmptyString => EmptyString
  | String x s' =>
      match trim_end_matches c s' with
      | EmptyString => if Ascii.eqb x c then EmptyString else String x EmptyString
      | t => String x t
      end
  end.

(** [usize] and [u64] [Display]: decimal, no leading zeros. *)
Definition nat_display (n : nat) : string := NilZero.string_of_uint (Nat.to_uint n).

Lemma bytes_of_bytes l : bytes (of_bytes l) = l.
Proof. apply list_ascii_of_string_of_list_ascii. Qed.
Lemma of_bytes_bytes s : of_bytes (bytes s) = s.
Proof. apply string_of_list_ascii_of_string. Qed.
Lemma bytes_inj s t : bytes s = bytes t -> s = t.
Proof. intros H. by rewrite <- (of_bytes_bytes s), H, of_bytes_bytes. Qed.
Lemma bytes_app s t : bytes (s +:+ t) = bytes s ++ bytes t.
Proof. induction s; csimpl; [done | by f_equal]. Qed.
Lemma bytes_length s : List.length (bytes s) = str_len s.
Proof. induction s; csimpl; [done | by f_equal]. Qed.
Lemma str_len_app s t : str_len (s +:+ t) = (str_len s + str_len t)%nat.
Proof. by rewrite <- !bytes_length, bytes_app, length_app. Qed.
Lemma str_is_empty_true s : str_is_empty s = true <-> s = EmptyString.
Proof. destruct s; naive_solver. Qed.
Lemma str_app_cons c s t : String c s +:+ t = String c (s +:+ t).
Proof. done. Qed.
Lemma str_app_nil_l s : EmptyString +:+ s = s.
Proof. done. Qed.
Lemma str_app_nil_r s : s +:+ EmptyString = s.
Proof. induction s as [|c s IH]; [done|]. by rewrite str_app_cons, IH. Qed.
Lemma str_app_assoc s t u : (s +:+ t) +:+ u = s +:+ (t +:+ u).
Proof. induction s as [|c s IH]; [done|]. by rewrite !str_app_cons, IH. Qed.
Lemma str_app_inj_l s t1 t2 : s +:+ t1 = s +:+ t2 -> t1 = t2.
Proof. induction s as [|c s IH]; [done|]. rewrite !str_app_cons. intros [= H]. auto. Qed.
Lemma strip_prefix_app p s : strip_prefix p (p +:+ s) = Some s.
Proof. induction p as [|c p IH]; [done|]. rewrite str_app_cons. cbn. by rewrite Ascii.eqb_refl. Qed.
Lemma str_forall_cons p c s : str_forall p (String c s) = p c && str_forall p s.
Proof. done. Qed.
Lemma str_forall_app p s t : str_forall p (s +:+ t) = str_forall p s && str_forall p t.
Proof. unfold str_forall. by rewrite bytes_app, forallb_app. Qed.
Lemma str_forall_elem p s : str_forall p s = true <-> forall c, c ∈ bytes s -> p c = true.
Proof. unfold str_forall. rewrite forallb_forall. setoid_rewrite list_elem_of_In. done. Qed.
Lemma u8_lt c : (u8 c < 256)%N.
Proof. apply N_ascii_bounded. Qed.
Lemma u8_inj a b : u8 a = u8 b -> a = b.
Proof. unfold u8. intros H. by rewrite <- (ascii_N_embedding a), H, ascii_N_embedding. Qed.

(** ** Automation

    The database [oauth] holds the lemmas that close the common side goals; the
    tactics below do the case analysis that follows the shape of the code. *)
Create HintDb oauth.
#[export] Hint Resolve u8_lt Z.le_refl : oauth.

(** Boolean tests of the source as propositions, in the hypotheses and the goal. *)
Ltac bools :=
  repeat match goal with
  | H : _ && _ = true |- _ => apply andb_true_iff in H; destruct H
  | H : _ || _ = true |- _ => apply orb_true_iff in H; destruct H
  | H : _ || _ = false |- _ => apply orb_false_iff in H; destruct H
  | H : negb _ = true |- _ => apply negb_true_iff in H
  | H : negb _ = false |- _ => apply negb_false_iff in H
  | H : bool_decide _ = true |- _ => apply bool_decide_eq_true in H
  | H : bool_decide _ = false |- _ => apply bool_decide_eq_false in H
  | H : is_some _ = true |- _ => apply is_some_true in H
  | H : (_ <=? _)%Z = true |- _ => apply Z.leb_le in H
  | H : (_ <=? _)%Z = false |- _ => apply Z.leb_gt in H
  | H : (_ <? _)%Z = true |- _ => apply Z.ltb_lt in H
  | H : (_ <? _)%Z = false |- _ => apply Z.ltb_ge in H
  | H : (_ >=? _)%Z = true |- _ => rewrite Z.geb_leb in H
  | H : (_ >=? _)%Z = false |- _ => rewrite Z.geb_leb in H
  | H : (_ >? _)%Z = true |- _ => rewrite Z.gtb_ltb in H
  | H : (_ >? _)%Z = false |- _ => rewrite Z.gtb_ltb in H
  end.

(** Split every [match] of a hypothesis or of the goal and clean up. *)
Ltac branches := repeat (case_match; simplify_eq/=); try done.
