(* ===== verification/Time.v ===== *)
(** * Instants and durations

    [std::time::SystemTime] and [std::time::Duration] at the width the Unix
    target gives them, and the two helpers of [server.rs] that do arithmetic on
    them: [saturating_deadline] and [unix_seconds]. *)
From S2P Require Import Prelude.
Local Open Scope Z_scope.

(** A [SystemTime] is the signed number of nanoseconds since the Unix epoch: an
    [i64] of seconds and a nanosecond part.  A [Duration] is a [u64] of seconds
    and a nanosecond part. *)
Abbreviation SystemTime := Z (only parsing).
Abbreviation Duration := Z (only parsing).

Definition NANOS : Z := 1000000000.
Definition TIME_MIN : SystemTime := - (2 ^ 63) * NANOS.
Definition TIME_MAX : SystemTime := 2 ^ 63 * NANOS - 1.
Definition DURATION_MAX : Duration := 2 ^ 64 * NANOS - 1.

Definition valid_time (t : SystemTime) : Prop := TIME_MIN <= t <= TIME_MAX.
Definition valid_duration (d : Duration) : Prop := 0 <= d <= DURATION_MAX.

Definition UNIX_EPOCH : SystemTime := 0.
Definition from_secs (s : Z) : Duration := s * NANOS.
Definition as_secs (d : Duration) : Z := d / NANOS.

(** [SystemTime::checked_add] *)
Definition checked_add (t : SystemTime) (d : Duration) : option SystemTime :=
  if t + d <=? TIME_MAX then Some (t + d) else None.

(** [Duration::saturating_add] *)
Definition duration_saturating_add (a b : Duration) : Duration := Z.min (a + b) DURATION_MAX.

(** [u64::saturating_add], [u64::saturating_sub] *)
Definition U64_MAX : Z := 2 ^ 64 - 1.
Definition u64_saturating_add (a b : Z) : Z := Z.min (a + b) U64_MAX.
Definition u64_saturating_sub (a b : Z) : Z := Z.max (a - b) 0.

(** [later.duration_since(earlier).ok()] *)
Definition duration_since (later earlier : SystemTime) : option Duration :=
  if earlier <=? later then Some (later - earlier) else None.

(** The body of the loop of [saturating_deadline], run until the span is at most
    one second or the fuel is spent; the remaining span is returned with the
    accumulated instant. *)
Fixpoint saturating_loop (fuel : nat) (out : SystemTime) (span : Duration)
  : SystemTime * Duration :=
  match fuel with
  | O => (out, span)
  | S fuel' =>
      if span >? from_secs 1 then
        let span := span / 2 in
        let out := match checked_add out span with Some next => next | None => out end in
        saturating_loop fuel' out span
      else (out, span)
  end.

(** Sixty-five halvings bring every [Duration] below one second. *)
Definition SATURATING_FUEL : nat := 65.

Definition saturating_deadline (base : SystemTime) (span : Duration) : SystemTime :=
  match checked_add base span with
  | Some exact => exact
  | None => fst (saturating_loop SATURATING_FUEL base span)
  end.

Definition unix_seconds (t : SystemTime) : option Z :=
  as_secs <$> duration_since t UNIX_EPOCH.

(** ** Facts *)
Lemma NANOS_pos : 0 < NANOS.
Proof. done. Qed.

Lemma checked_add_Some t d t' : checked_add t d = Some t' <-> t' = t + d /\ t + d <= TIME_MAX.
Proof. unfold checked_add. destruct (Z.leb_spec (t + d) TIME_MAX); naive_solver lia. Qed.

Lemma checked_add_None t d : checked_add t d = None <-> TIME_MAX < t + d.
Proof. unfold checked_add. destruct (Z.leb_spec (t + d) TIME_MAX); naive_solver lia. Qed.

Lemma duration_since_Some later earlier d :
  duration_since later earlier = Some d <-> d = later - earlier /\ earlier <= later.
Proof. unfold duration_since. destruct (Z.leb_spec earlier later); naive_solver lia. Qed.

Lemma saturating_loop_exit fuel : forall out span,
  0 <= span < 2 ^ Z.of_nat fuel * (NANOS + 1) ->
  snd (saturating_loop fuel out span) <= NANOS.
Proof.
  induction fuel as [|fuel IH]; intros out span Hspan; cbn [saturating_loop].
  - cbn [snd]. change (2 ^ Z.of_nat 0) with 1 in Hspan. lia.
  - unfold from_secs. rewrite Z.mul_1_l.
    destruct (Z.gtb_spec span NANOS) as [Hgt|Hle]; [|done].
    apply IH. rewrite Nat2Z.inj_succ, Z.pow_succ_r in Hspan by lia.
    split; [apply Z.div_pos; lia | apply Z.div_lt_upper_bound; lia].
Qed.

(** What an iteration keeps: the instant only grows, stays below the ceiling, and
    the gap to the ceiling is at most the remaining span plus one nanosecond per
    halving done. *)
Lemma saturating_loop_bounds fuel : forall out span (gap : Z),
  0 <= span -> out <= TIME_MAX -> TIME_MAX - out <= span + gap -> 0 <= gap ->
  let r := saturating_loop fuel out span in
  out <= fst r <= TIME_MAX /\ 0 <= snd r /\
  TIME_MAX - fst r <= snd r + gap + Z.of_nat fuel.
Proof.
  induction fuel as [|fuel IH]; intros out span gap Hspan Hmax Hgap Hg; cbn [saturating_loop].
  - cbn. lia.
  - destruct (span >? from_secs 1) eqn:Hgt; [|cbn; lia].
    assert (Hhalf : 0 <= span / 2 /\ span - 1 <= 2 * (span / 2) <= span).
    { pose proof (Z.div_mod span 2). pose proof (Z.mod_pos_bound span 2). lia. }
    destruct (checked_add out (span / 2)) as [next|] eqn:Hadd.
    + apply checked_add_Some in Hadd as [-> Hle].
      destruct (IH (out + span / 2) (span / 2) (gap + 1)) as (H1 & H2 & H3); lia.
    + apply checked_add_None in Hadd.
      destruct (IH out (span / 2) gap) as (H1 & H2 & H3); lia.
Qed.

(** [saturating_deadline] never overflows and never panics: for every
    instant and every duration it returns a representable instant no earlier than
    its base; it is exactly [base + span] whenever that is representable, and
    otherwise it lies within one second and 65 nanoseconds of the last instant the
    platform can represent. *)
Theorem saturating_deadline_bounds (base : SystemTime) (span : Duration) :
  valid_time base -> valid_duration span ->
  let d := saturating_deadline base span in
  valid_time d /\ base <= d /\
  (base + span <= TIME_MAX -> d = base + span) /\
  (TIME_MAX < base + span -> TIME_MAX - d <= NANOS + 65).
Proof.
  unfold valid_time, valid_duration, saturating_deadline. intros Hb Hs.
  destruct (checked_add base span) as [exact|] eqn:Hadd.
  - apply checked_add_Some in Hadd. cbn. lia.
  - apply checked_add_None in Hadd.
    destruct (saturating_loop_bounds SATURATING_FUEL base span 0) as (H1 & H2 & H3); [lia..|].
    pose proof (saturating_loop_exit SATURATING_FUEL base span) as Hx.
    change (Z.of_nat SATURATING_FUEL) with 65 in *.
    assert (DURATION_MAX < 2 ^ 65 * (NANOS + 1)) by done. cbn zeta. lia.
Qed.

(** The deadline at a span no clock can reach: [u64::MAX] seconds from the epoch. *)
Lemma saturating_deadline_bounds_witness :
  valid_time (saturating_deadline UNIX_EPOCH DURATION_MAX) /\
  saturating_deadline UNIX_EPOCH (from_secs 60) = from_secs 60.
Proof.
  split.
  - apply (saturating_deadline_bounds UNIX_EPOCH DURATION_MAX); unfold valid_time, valid_duration; done.
  - apply (saturating_deadline_bounds UNIX_EPOCH (from_secs 60)); unfold valid_time, valid_duration; done.
Defined.
