(* ===== verification/Codec.v ===== *)
(** * Text primitives

    The byte-level routines every other part of the crate goes through:
    [hex.rs], [pkce.rs], the constant-time comparison of [client.rs], the URI
    checks and the percent-encoding of [authorization.rs], the user-code
    functions of [device.rs] and [server.rs], and [replay_key] of [server.rs]. *)
From S2P Require Import Prelude.

(** The [sha2] and [base64] crates.  [sha256] is [Sha256::digest];
    [b64url_encode] and [b64url_decode] are [URL_SAFE_NO_PAD]. *)
Class Crypto := {
  sha256 : string -> string;
  b64url_encode : string -> string;
  b64url_decode : string -> option string;
}.

(** Documented behaviour of the two crates: a SHA-256 digest has 32 bytes, decoding
    undoes encoding, and the URL-safe alphabet has no full stop. *)
Class CryptoLaws (C : Crypto) : Prop := {
  sha256_length : forall s, str_len (sha256 s) = 32%nat;
  b64url_roundtrip : forall s, b64url_decode (b64url_encode s) = Some s;
  b64url_no_dot : forall s, contains_char "." (b64url_encode s) = false;
}.

(** ** hex.rs *)
Module Hex.

Definition HEX_DIGITS : list ascii := bytes "0123456789abcdef".

Definition digit (n : N) : ascii := nth (N.to_nat n) HEX_DIGITS "0"%char.

Fixpoint encode (s : string) : string :=
  match s with
  | EmptyString => EmptyString
  | String b s' =>
      String (digit (N.shiftr (u8 b) 4)) (String (digit (N.land (u8 b) 15)) (encode s'))
  end.

(** The reader a resource server or a test uses on such a string. *)
Definition undigit (c : ascii) : option N :=
  if in_range 48 57 c then Some (u8 c - 48)%N
  else if in_range 97 102 c then Some (u8 c - 87)%N
  else None.

Fixpoint decode (s : string) : option string :=
  match s with
  | EmptyString => Some EmptyString
  | String hi (String lo s') =>
      match undigit hi, undigit lo, decode s' with
      | Some h, Some l, Some t => Some (String (ascii_of_N (16 * h + l)) t)
      | _, _, _ => None
      end
  | _ => None
  end.

Definition is_hex_char (c : ascii) : bool := is_some (undigit c).

Lemma digit_undigit (b : ascii) :
  undigit (digit (N.shiftr (u8 b) 4)) = Some (N.shiftr (u8 b) 4) /\
  undigit (digit (N.land (u8 b) 15)) = Some (N.land (u8 b) 15) /\
  ascii_of_N (16 * N.shiftr (u8 b) 4 + N.land (u8 b) 15) = b.
Proof. destruct b as [[] [] [] [] [] [] [] []]; done. Qed.

Lemma decode_encode s : decode (encode s) = Some s.
Proof.
  induction s as [|b s IH]; [done|]. cbn [encode decode].
  destruct (digit_undigit b) as (-> & -> & Hb). rewrite IH, Hb. done.
Qed.

Lemma encode_length s : str_len (encode s) = (2 * str_len s)%nat.
Proof. unfold str_len. induction s as [|b s IH]; cbn; [done|]. rewrite IH. lia. Qed.

Lemma encode_chars s : str_forall is_hex_char (encode s) = true.
Proof.
  induction s as [|b s IH]; [done|]. cbn [encode]. rewrite !str_forall_cons, IH.
  unfold is_hex_char. by destruct (digit_undigit b) as (-> & -> & _).
Qed.

Lemma encode_inj s t : encode s = encode t -> s = t.
Proof. intros H. apply (f_equal decode) in H. rewrite !decode_encode in H. congruence. Qed.

End Hex.

(** A concrete instance of the parameters, for evaluating the development on
    inputs: hexadecimal as the text encoding and padding to 32 bytes as the digest. *)
Definition pad32 (s : string) : string :=
  take_str 32 (s +:+ of_bytes (replicate 32 zero)).
Definition plain_crypto : Crypto := {|
  sha256 := pad32; b64url_encode := Hex.encode; b64url_decode := Hex.decode |}.

Lemma take_str_length n s : (n <= str_len s)%nat -> str_len (take_str n s) = n.
Proof.
  unfold str_len. revert s. induction n as [|n IH]; intros s Hn; [done|].
  destruct s as [|c s]; cbn [String.length take_str] in *; [lia|]. rewrite IH; lia.
Qed.

#[export] Instance plain_crypto_laws : CryptoLaws plain_crypto.
Proof.
  split; cbn [sha256 b64url_encode b64url_decode plain_crypto].
  - intros s. unfold pad32. apply take_str_length. rewrite str_len_app.
    change (str_len (of_bytes (replicate 32 zero))) with 32%nat. lia.
  - apply Hex.decode_encode.
  - intros s. pose proof (Hex.encode_chars s) as Hc. unfold contains_char.
    destruct (existsb _ _) eqn:He; [|done].
    apply existsb_exists in He as (c & Hin & <-%Ascii.eqb_eq).
    rewrite str_forall_elem in Hc. apply list_elem_of_In, Hc in Hin. done.
Defined.

(** ** Constant-time comparison

    The loop [acc |= x ^ y] shared by [pkce.rs], [client.rs] and [jwt.rs]. *)
Fixpoint xor_acc (acc : N) (a b : list ascii) : N :=
  match a, b with
  | x :: a', y :: b' => xor_acc (N.lor acc (N.lxor (u8 x) (u8 y))) a' b'
  | _, _ => acc
  end.

Lemma xor_acc_zero a : forall acc b, List.length a = List.length b ->
  (xor_acc acc a b = 0%N <-> acc = 0%N /\ a = b).
Proof.
  induction a as [|x a IH]; intros acc [|y b] Hl; cbn in *; try done; [naive_solver|].
  rewrite IH by lia. rewrite N.lor_eq_0_iff, N.lxor_eq_0_iff. split.
  - intros [[-> Hxy] ->]. apply u8_inj in Hxy as ->. done.
  - intros [-> [= -> ->]]. done.
Qed.

(** ** pkce.rs *)
Module Pkce.
Section pkce.
Context `{Crypto}.

Definition code_challenge_s256 (verifier : string) : string := b64url_encode (sha256 verifier).

Definition verify_s256 (verifier challenge : string) : bool :=
  let computed := code_challenge_s256 verifier in
  if negb (Nat.eqb (str_len computed) (str_len challenge)) then false
  else (xor_acc 0 (bytes computed) (bytes challenge) =? 0)%N.

Definition verifier_char (b : ascii) : bool :=
  is_ascii_alphanumeric b ||
  match b with "-" | "." | "_" | "~" => true | _ => false end%char.

Definition verifier_is_valid (verifier : string) : bool :=
  (Nat.leb 43 (str_len verifier) && Nat.leb (str_len verifier) 128) &&
  str_forall verifier_char verifier.

Lemma verify_s256_iff verifier challenge :
  verify_s256 verifier challenge = true <-> code_challenge_s256 verifier = challenge.
Proof.
  unfold verify_s256. destruct (Nat.eqb_spec (str_len (code_challenge_s256 verifier)) (str_len challenge)) as [Hl|Hl]; cbn.
  - rewrite N.eqb_eq, xor_acc_zero by (by rewrite !bytes_length).
    split; [intros [_ Hb]; by apply bytes_inj | by intros <-].
  - split; [done | intros <-; done].
Qed.
End pkce.
End Pkce.

(** ** authorization.rs: URIs and the redirect encoder *)
Module Uri.

Definition scheme_char (b : ascii) : bool :=
  is_ascii_alphanumeric b || match b with "+" | "-" | "." => true | _ => false end%char.

Definition uri_char (b : ascii) : bool := negb (Ascii.eqb b "#") && in_range 33 126 b.

Definition is_valid_resource_indicator (value : string) : bool :=
  match find_char ":" value with
  | Some 0%nat | None => false
  | Some colon =>
      match bytes value with
      | [] => false
      | b0 :: rest =>
          if negb (is_ascii_alphabetic b0) then false
          else if negb (forallb scheme_char (firstn (colon - 1) rest)) then false
          else str_forall uri_char value
      end
  end.

Definition query_separator (uri : string) : ascii :=
  if contains_char "?" uri then "&"%char else "?"%char.

Definition HEX : list ascii := bytes "0123456789ABCDEF".
Definition hex_upper (n : N) : ascii := nth (N.to_nat n) HEX "0"%char.

Definition unreserved (b : ascii) : bool := Pkce.verifier_char b.

(** [percent_encode_into], returning what it appends. *)
Fixpoint percent_encode (value : string) : string :=
  match value with
  | EmptyString => EmptyString
  | String b rest =>
      if unreserved b then String b (percent_encode rest)
      else String "%" (String (hex_upper (N.shiftr (u8 b) 4))
             (String (hex_upper (N.land (u8 b) 15)) (percent_encode rest)))
  end.

(** [append_param]: the text appended and the separator for the next one. *)
Definition append_param (out : string) (sep : ascii) (name value : string) : string * ascii :=
  (out +:+ String sep (name +:+ String "=" (percent_encode value)), "&"%char).

(** The decoding of RFC 3986 section 2.1, as the party reading the redirect does it. *)
Definition unhex (c : ascii) : option N :=
  if in_range 48 57 c then Some (u8 c - 48)%N
  else if in_range 65 70 c then Some (u8 c - 55)%N
  else None.

Fixpoint percent_decode (s : string) : option string :=
  match s with
  | EmptyString => Some EmptyString
  | String "%" (String hi (String lo rest)) =>
      match unhex hi, unhex lo, percent_decode rest with
      | Some h, Some l, Some t => Some (String (ascii_of_N (16 * h + l)) t)
      | _, _, _ => None
      end
  | String "%" _ => None
  | String c rest => String c <$> percent_decode rest
  end.

Lemma hex_upper_unhex (b : ascii) :
  unhex (hex_upper (N.shiftr (u8 b) 4)) = Some (N.shiftr (u8 b) 4) /\
  unhex (hex_upper (N.land (u8 b) 15)) = Some (N.land (u8 b) 15) /\
  ascii_of_N (16 * N.shiftr (u8 b) 4 + N.land (u8 b) 15) = b.
Proof. destruct b as [[] [] [] [] [] [] [] []]; done. Qed.

Lemma unreserved_not_percent b : unreserved b = true -> b <> "%"%char.
Proof. intros H ->. done. Qed.

Lemma percent_decode_plain b rest : b <> "%"%char ->
  percent_decode (String b rest) = String b <$> percent_decode rest.
Proof. destruct b as [[] [] [] [] [] [] [] []]; done. Qed.

Lemma percent_decode_encode value : percent_decode (percent_encode value) = Some value.
Proof.
  induction value as [|b rest IH]; [done|]. cbn [percent_encode].
  destruct (unreserved b) eqn:Hu.
  - rewrite percent_decode_plain, IH by (by apply unreserved_not_percent). done.
  - cbn [percent_decode]. destruct (hex_upper_unhex b) as (-> & -> & Hb). by rewrite IH, Hb.
Qed.

(** What may appear in an encoded value: nothing that ends a parameter. *)
Definition query_safe (b : ascii) : bool := unreserved b || Ascii.eqb b "%".

Lemma percent_encode_safe value : str_forall query_safe (percent_encode value) = true.
Proof.
  induction value as [|b rest IH]; [done|]. cbn [percent_encode].
  destruct (unreserved b) eqn:Hu; rewrite !str_forall_cons, IH, ?andb_true_r.
  - unfold query_safe. by rewrite Hu.
  - destruct b as [[] [] [] [] [] [] [] []]; done.
Qed.

End Uri.

(** ** server.rs: loopback redirect URIs *)
Module Loopback.

Fixpoint digits_value (acc : Z) (l : list ascii) : Z :=
  match l with
  | [] => acc
  | c :: l' => digits_value (10 * acc + (Z.of_N (u8 c) - 48)) l'
  end.

(** [str::parse::<u16>()] on a string of ASCII digits. *)
Definition parse_u16 (digits : string) : option Z :=
  if str_is_empty digits then None
  else let v := digits_value 0 (bytes digits) in
       if (v <=? 65535)%Z then Some v else None.

(** [s.bytes().take_while(u8::is_ascii_digit).count()] *)
Fixpoint count_digits (s : string) : nat :=
  match s with
  | String c s' => if is_ascii_digit c then S (count_digits s') else 0
  | EmptyString => 0
  end.

Definition suffix_ok (suffix : string) : bool :=
  match suffix with
  | EmptyString => true
  | String c _ => Ascii.eqb c "/" || Ascii.eqb c "?"
  end && negb (contains_char "#" suffix).

(** What follows the host: a non-zero [u16] port, then a path or a query. *)
Definition port_and_suffix (host rest : string) : option (string * string) :=
  let digits := count_digits rest in
  match parse_u16 (take_str digits rest) with
  | None => None
  | Some port =>
      if (port =? 0)%Z then None
      else let suffix := drop_str digits rest in
           if suffix_ok suffix then Some (host, suffix) else None
  end.

Definition parts (uri : string) : option (string * string) :=
  match strip_prefix "http://127.0.0.1:" uri with
  | Some rest => port_and_suffix "127.0.0.1" rest
  | None =>
      match strip_prefix "http://[::1]:" uri with
      | Some rest => port_and_suffix "[::1]" rest
      | None => None
      end
  end.

Definition loopback_redirect_matches (registered requested : string) : bool :=
  match parts registered, parts requested with
  | Some a, Some b => a == b
  | _, _ => false
  end.

Lemma strip_prefix_Some p s rest : strip_prefix p s = Some rest -> s = p +:+ rest.
Proof.
  revert s. induction p as [|a p IH]; intros s; cbn [strip_prefix]; [by intros [= ->]|].
  destruct s as [|b s]; [done|]. destruct (Ascii.eqb_spec a b) as [->|]; [|done].
  intros ->%IH. done.
Qed.

Lemma take_drop_str n s : take_str n s +:+ drop_str n s = s.
Proof. revert s. induction n as [|n IH]; intros [|c s]; try done.
  cbn [take_str drop_str]. by rewrite str_app_cons, IH. Qed.

Lemma take_count_digits s : str_forall is_ascii_digit (take_str (count_digits s) s) = true.
Proof.
  induction s as [|c s IH]; [done|]. cbn [count_digits].
  destruct (is_ascii_digit c) eqn:Hc; [|done]. cbn [take_str]. by rewrite str_forall_cons, Hc.
Qed.

(** A loopback URI: the scheme and host, a decimal port in 1..65535, a suffix. *)
Definition loopback_uri (host port suffix : string) : string :=
  "http://" +:+ host +:+ ":" +:+ port +:+ suffix.

Definition is_port (port : string) : Prop :=
  str_forall is_ascii_digit port = true /\
  exists v, parse_u16 port = Some v /\ (0 < v <= 65535)%Z.

Lemma digits_value_nonneg l : forall acc, (0 <= acc)%Z -> forallb is_ascii_digit l = true ->
  (0 <= digits_value acc l)%Z.
Proof.
  induction l as [|c l IH]; intros acc Hacc Hl; [done|]. cbn in *.
  apply andb_true_iff in Hl as [Hc Hl]. apply IH; [|done].
  unfold is_ascii_digit, in_range in Hc. apply andb_true_iff in Hc as [Hc _].
  apply N.leb_le in Hc. lia.
Qed.

Lemma port_and_suffix_Some host rest h suffix :
  port_and_suffix host rest = Some (h, suffix) ->
  h = host /\ exists port, is_port port /\ rest = port +:+ suffix /\ suffix_ok suffix = true.
Proof.
  unfold port_and_suffix. destruct (parse_u16 _) as [v|] eqn:Hv; [|done].
  destruct (Z.eqb_spec v 0) as [|Hnz]; [done|].
  destruct (suffix_ok _) eqn:Hs; [|done]. intros [= <- <-]. split; [done|].
  exists (take_str (count_digits rest) rest). split; [|by rewrite take_drop_str].
  split; [apply take_count_digits|]. exists v. split; [done|].
  pose proof (take_count_digits rest) as Hd. unfold parse_u16 in Hv.
  destruct (str_is_empty _); [done|].
  pose proof (digits_value_nonneg _ 0 ltac:(done) Hd).
  destruct (Z.leb_spec (digits_value 0 (bytes (take_str (count_digits rest) rest))) 65535); [|done].
  simplify_eq. lia.
Qed.

Lemma parts_Some uri h suffix : parts uri = Some (h, suffix) ->
  (h = "127.0.0.1" \/ h = "[::1]") /\
  exists port, is_port port /\ uri = loopback_uri h port suffix /\ suffix_ok suffix = true.
Proof.
  unfold parts. intros H. destruct (strip_prefix "http://127.0.0.1:" uri) as [rest|] eqn:Hp.
  - apply strip_prefix_Some in Hp as ->.
    apply port_and_suffix_Some in H as (-> & port & ? & -> & ?). eauto 10.
  - destruct (strip_prefix "http://[::1]:" uri) as [rest|] eqn:Hq; [|done].
    apply strip_prefix_Some in Hq as ->.
    apply port_and_suffix_Some in H as (-> & port & ? & -> & ?). eauto 10.
Qed.

(** A redirect URI admitted by the loopback exception differs from a
    registered one in its port and in nothing else: both are [http] URIs of the
    same loopback literal with the same path and query and no fragment, and both
    ports are decimal numbers between 1 and 65535. *)
Theorem loopback_differs_only_in_port registered requested :
  loopback_redirect_matches registered requested = true ->
  exists host p1 p2 suffix,
    (host = "127.0.0.1" \/ host = "[::1]") /\ is_port p1 /\ is_port p2 /\
    registered = loopback_uri host p1 suffix /\ requested = loopback_uri host p2 suffix /\
    contains_char "#" suffix = false.
Proof.
  unfold loopback_redirect_matches.
  destruct (parts registered) as [[h1 s1]|] eqn:H1; [|done].
  destruct (parts requested) as [[h2 s2]|] eqn:H2; [|done].
  rewrite bool_decide_eq_true. intros [= <- <-].
  apply parts_Some in H1 as (Hh & p1 & ? & -> & Hs). apply parts_Some in H2 as (_ & p2 & ? & -> & _).
  exists h1, p1, p2, s1. unfold suffix_ok in Hs. apply andb_true_iff in Hs as [_ Hs].
  apply negb_true_iff in Hs. done.
Qed.

Lemma loopback_differs_only_in_port_witness :
  exists host p1 p2 suffix,
    (host = "127.0.0.1" \/ host = "[::1]") /\ is_port p1 /\ is_port p2 /\
    "http://127.0.0.1:8080/cb" = loopback_uri host p1 suffix /\
    "http://127.0.0.1:49152/cb" = loopback_uri host p2 suffix /\
    contains_char "#" suffix = false.
Proof. apply loopback_differs_only_in_port. vm_compute. reflexivity. Defined.

End Loopback.

(** ** device.rs and server.rs: user codes *)
Module UserCode.

(** [str::chars] of a UTF-8 string, each character as its bytes: a new character
    starts at every byte that is not a continuation byte. *)
Definition is_continuation (b : ascii) : bool := in_range 128 191 b.
Definition starts_continuation (w : string) : bool :=
  match w with String b _ => is_continuation b | EmptyString => false end.

Fixpoint chars (s : string) : list string :=
  match s with
  | EmptyString => []
  | String b s' =>
      match chars s' with
      | w :: ws => if starts_continuation w then String b w :: ws
                   else String b EmptyString :: w :: ws
      | [] => [String b EmptyString]
      end
  end.

(** [char::is_whitespace]: the Unicode [White_Space] characters, in UTF-8. *)
Definition is_whitespace (c : string) : bool :=
  match map u8 (bytes c) with
  | [b] => ((9 <=? b) && (b <=? 13))%N || (b =? 32)%N
  | [194; b] => (b =? 133)%N || (b =? 160)%N
  | [225; 154; 128] => true
  | [226; 128; b] => ((128 <=? b) && (b <=? 138))%N || (b =? 168)%N || (b =? 169)%N || (b =? 175)%N
  | [226; 129; 159] => true
  | [227; 128; 128] => true
  | _ => false
  end%N.

Definition upper_byte (b : ascii) : ascii :=
  if in_range 97 122 b then ascii_of_N (u8 b - 32) else b.
(** [char::to_ascii_uppercase] *)
Definition to_ascii_uppercase (c : string) : string :=
  match c with String b EmptyString => String (upper_byte b) EmptyString | _ => c end.

Definition keeps (c : string) : bool := negb (is_whitespace c) && negb (String.eqb c "-").

Definition str_concat (l : list string) : string := foldr String.append EmptyString l.

Definition normalize_user_code (entered : string) : string :=
  str_concat (map to_ascii_uppercase (List.filter keeps (chars entered))).

Definition USER_CODE_ALPHABET : list ascii := bytes "BCDFGHJKLMNPQRSTVWXZ".
Definition USER_CODE_REJECT_AT : N := 240.
Definition MIN_USER_CODE_LENGTH : nat := 8.

Definition user_code_symbol (byte : ascii) : option ascii :=
  if (u8 byte <? USER_CODE_REJECT_AT)%N
  then USER_CODE_ALPHABET !! N.to_nat (u8 byte mod 20)
  else None.

(** The inner loop of [random_user_code]: push the accepted symbols of one
    64-byte draw onto [out] until it has [len] characters. *)
Fixpoint absorb (len : nat) (out : string) (buf : list ascii) : string :=
  match buf with
  | [] => out
  | byte :: buf' =>
      if Nat.eqb (str_len out) len then out
      else match user_code_symbol byte with
           | Some symbol => absorb len (out +:+ String symbol EmptyString) buf'
           | None => absorb len out buf'
           end
  end.

Definition display_user_code (raw : string) : string :=
  if Nat.leb 4 (str_len raw) && Nat.eqb (Nat.modulo (str_len raw) 2) 0 then
    let mid := Nat.div (str_len raw) 2 in
    take_str mid raw +:+ "-" +:+ drop_str mid raw
  else raw.

(** *** Facts *)
Definition symbol_ok (c : ascii) : bool := bool_decide (c ∈ USER_CODE_ALPHABET).

Lemma user_code_symbol_ok byte symbol :
  user_code_symbol byte = Some symbol -> symbol_ok symbol = true.
Proof.
  unfold user_code_symbol, symbol_ok. case_match; [|done]. intros Hl.
  apply bool_decide_eq_true. by eapply list_elem_of_lookup_2.
Qed.

Lemma absorb_spec len buf : forall out, (str_len out <= len)%nat ->
  str_forall symbol_ok out = true ->
  (str_len out <= str_len (absorb len out buf) <= len)%nat /\
  str_forall symbol_ok (absorb len out buf) = true.
Proof.
  induction buf as [|byte buf IH]; intros out Hlen Hok; cbn [absorb]; [done|].
  destruct (Nat.eqb_spec (str_len out) len); [done|].
  destruct (user_code_symbol byte) as [c|] eqn:Hc; [|by apply IH].
  apply user_code_symbol_ok in Hc.
  destruct (IH (out +:+ String c EmptyString)) as [H1 H2].
  - rewrite str_len_app. cbn. lia.
  - by rewrite str_forall_app, Hok, str_forall_cons, Hc.
  - rewrite str_len_app in H1. cbn in H1. split; [lia | done].
Qed.

(** A draw with a usable byte makes progress. *)
Lemma absorb_grows len buf : forall out, (str_len out < len)%nat -> str_forall symbol_ok out = true ->
  Exists (fun b => is_Some (user_code_symbol b)) buf -> (str_len out < str_len (absorb len out buf))%nat.
Proof.
  induction buf as [|byte buf IH]; intros out Hlen Hok Hex; [by inversion Hex|]. cbn [absorb].
  destruct (Nat.eqb_spec (str_len out) len); [lia|].
  destruct (user_code_symbol byte) as [c|] eqn:Hc.
  - destruct (absorb_spec len buf (out +:+ String c EmptyString)) as [Hl _].
    + rewrite str_len_app. cbn. lia.
    + rewrite str_forall_app, Hok, str_forall_cons. by rewrite (user_code_symbol_ok _ _ Hc).
    + rewrite str_len_app in Hl. cbn in Hl. lia.
  - apply IH; [done..|]. inversion Hex as [? ? [? Hs]|]; [congruence|done].
Qed.

Lemma symbol_plain c : symbol_ok c = true ->
  is_continuation c = false /\ keeps (String c EmptyString) = true /\ upper_byte c = c.
Proof.
  unfold symbol_ok. rewrite bool_decide_eq_true. cbn.
  rewrite !elem_of_cons, elem_of_nil. intros Hin. destruct_or! Hin; subst; done.
Qed.

Lemma chars_plain_cons c s : is_continuation c = false ->
  chars (String c s) = match chars s with
                       | w :: ws => if starts_continuation w then String c w :: ws
                                    else String c EmptyString :: w :: ws
                       | [] => [String c EmptyString] end.
Proof. done. Qed.

Lemma chars_symbols s : str_forall symbol_ok s = true ->
  chars s = map (fun c => String c EmptyString) (bytes s).
Proof.
  induction s as [|c s IH]; [done|]. rewrite str_forall_cons. intros [Hc Hs]%andb_true_iff.
  cbn [chars]. rewrite IH by done. destruct s as [|d s]; [done|]. cbn.
  rewrite str_forall_cons in Hs. apply andb_true_iff in Hs as [Hd _].
  by destruct (symbol_plain d Hd) as (-> & _ & _).
Qed.

Lemma normalize_chars l rest : forallb symbol_ok l = true ->
  str_concat (map to_ascii_uppercase
    (List.filter keeps (map (fun c => String c EmptyString) l ++ rest)))
  = of_bytes l +:+ str_concat (map to_ascii_uppercase (List.filter keeps rest)).
Proof.
  induction l as [|c l IH]; [done|]. cbn [forallb]. intros [Hc Hl]%andb_true_iff.
  destruct (symbol_plain c Hc) as (_ & Hk & Hu). cbn [map app List.filter]. rewrite Hk.
  cbn [map to_ascii_uppercase str_concat foldr]. rewrite Hu.
  change (of_bytes (c :: l)) with (String c (of_bytes l)).
  rewrite !str_app_cons, str_app_nil_l. f_equal. by apply IH.
Qed.

Lemma normalize_symbols s : str_forall symbol_ok s = true -> normalize_user_code s = s.
Proof.
  intros H. unfold normalize_user_code. rewrite chars_symbols by done.
  pose proof (normalize_chars (bytes s) [] H) as Hn. rewrite app_nil_r in Hn.
  rewrite Hn, of_bytes_bytes. apply str_app_nil_r.
Qed.

Lemma chars_hyphen s t : str_forall symbol_ok s = true -> str_forall symbol_ok t = true ->
  chars (s +:+ "-" +:+ t) = map (fun c => String c EmptyString) (bytes s) ++
                            "-" :: map (fun c => String c EmptyString) (bytes t).
Proof.
  intros Hs Ht. induction s as [|c s IH].
  - rewrite str_app_nil_l. cbn [bytes list_ascii_of_string map app].
    change ("-" +:+ t) with (String "-" t). cbn [chars]. rewrite chars_symbols by done.
    destruct t as [|d t]; [done|]. rewrite str_forall_cons in Ht. apply andb_true_iff in Ht as [Hd _].
    cbn. by destruct (symbol_plain d Hd) as (-> & _ & _).
  - rewrite str_forall_cons in Hs. apply andb_true_iff in Hs as [Hc Hs].
    rewrite str_app_cons. cbn [chars]. rewrite IH by done. destruct s as [|d s]; [done|].
    rewrite str_forall_cons in Hs. apply andb_true_iff in Hs as [Hd _]. cbn.
    by destruct (symbol_plain d Hd) as (-> & _ & _).
Qed.

(** Entering a displayed user code, with or without its hyphen, looks up the
    code that was generated: for every raw code over the crate's alphabet, the
    normal form of its display form is the raw code, which is its own normal
    form. *)
Theorem display_normalizes_to_raw raw : str_forall symbol_ok raw = true ->
  normalize_user_code (display_user_code raw) = raw /\ normalize_user_code raw = raw.
Proof.
  intros H. split; [|by apply normalize_symbols].
  unfold display_user_code. destruct (_ && _) eqn:Hcut; [|by apply normalize_symbols].
  set (mid := Nat.div (str_len raw) 2).
  rewrite <- (Loopback.take_drop_str mid raw), str_forall_app in H. apply andb_true_iff in H as [H1 H2].
  unfold normalize_user_code. rewrite chars_hyphen, normalize_chars by done.
  change (List.filter keeps ("-" :: ?l)) with (List.filter keeps l).
  pose proof (normalize_chars (bytes (drop_str mid raw)) [] H2) as Hn. rewrite app_nil_r in Hn.
  rewrite Hn, !of_bytes_bytes. cbn [List.filter map str_concat foldr].
  rewrite str_app_nil_r. apply Loopback.take_drop_str.
Qed.

Lemma display_normalizes_to_raw_witness :
  normalize_user_code (display_user_code "WDJBMJHT") = "WDJBMJHT" /\
  normalize_user_code "wdjb mjht" = "WDJBMJHT".
Proof. split; [apply display_normalizes_to_raw; vm_compute; reflexivity | vm_compute; reflexivity]. Defined.

Definition all_bytes : list ascii := map (fun n => ascii_of_N (N.of_nat n)) (seq 0 256).

(** The user-code generator is unbiased: every one of the twenty symbols is
    produced by exactly twelve of the 256 byte values, and exactly the sixteen
    values from 240 up are rejected. *)
Theorem user_code_symbols_uniform :
  (forall symbol, symbol ∈ USER_CODE_ALPHABET ->
     List.length (List.filter (fun b => user_code_symbol b == Some symbol) all_bytes) = 12%nat) /\
  List.length (List.filter (fun b => user_code_symbol b == None) all_bytes) = 16%nat /\
  NoDup USER_CODE_ALPHABET.
Proof.
  repeat split.
  - assert (Forall (fun symbol => List.length (List.filter (fun b => user_code_symbol b == Some symbol) all_bytes) = 12%nat) USER_CODE_ALPHABET) as HF.
    { repeat constructor. }
    by apply Forall_forall.
  - apply (bool_decide_unpack _). vm_compute. done.
Qed.

End UserCode.

(** ** server.rs: replay identifiers *)
Module Replay.

Definition replay_key (kind owner jti : string) : string :=
  kind +:+ ":" +:+ nat_display (str_len owner) +:+ ":" +:+ owner +:+ jti.

Lemma uint_no_colon u : contains_char ":" (NilEmpty.string_of_uint u) = false.
Proof. induction u; cbn; auto. Qed.

Lemma nat_display_no_colon n : contains_char ":" (nat_display n) = false.
Proof. unfold nat_display, NilZero.string_of_uint. destruct (Nat.to_uint n); try apply uint_no_colon. done. Qed.

Lemma nat_display_inj n m : nat_display n = nat_display m -> n = m.
Proof.
  unfold nat_display. intros H.
  assert (forall k, NilZero.uint_of_string (NilZero.string_of_uint (Nat.to_uint k)) = Some (Nat.to_uint k)) as Hk.
  { intros k. apply NilZero.usu. intros E. pose proof (f_equal Nat.of_uint E) as Hk.
    rewrite DecimalNat.Unsigned.of_to in Hk. cbn in Hk. subst k. discriminate E. }
  apply (f_equal NilZero.uint_of_string) in H. rewrite !Hk in H.
  apply DecimalNat.Unsigned.to_uint_inj. congruence.
Qed.

(** Two texts with a first colon split in one way only. *)
Lemma colon_split a1 a2 b1 b2 :
  contains_char ":" a1 = false -> contains_char ":" a2 = false ->
  a1 +:+ ":" +:+ b1 = a2 +:+ ":" +:+ b2 -> a1 = a2 /\ b1 = b2.
Proof.
  revert a2. induction a1 as [|c a1 IH]; intros [|d a2]; rewrite ?str_app_nil_l, ?str_app_cons.
  - intros _ _ [= H]. done.
  - intros _ H2 [= <- _]. done.
  - intros H1 _ [= -> _]. done.
  - unfold contains_char in *. cbn [bytes list_ascii_of_string existsb].
    intros [_ H1]%orb_false_iff [_ H2]%orb_false_iff [= <- H].
    destruct (IH a2 H1 H2 H) as [-> ->]. done.
Qed.

Lemma app_same_length s1 s2 t1 t2 :
  str_len s1 = str_len s2 -> s1 +:+ t1 = s2 +:+ t2 -> s1 = s2 /\ t1 = t2.
Proof.
  revert s2. induction s1 as [|c s1 IH]; intros [|d s2]; cbn; try done.
  intros [= Hl]. rewrite !str_app_cons. intros [= <- H]. destruct (IH s2 Hl H) as [-> ->]. done.
Qed.

(** Replay identifiers cannot collide: for kinds that contain no colon (the
    crate uses [ca] and [dpop]), two keys are equal only if the kind, the owner
    and the [jti] are, whatever bytes the attacker puts in owner and [jti]. *)
Theorem replay_key_injective kind1 kind2 owner1 owner2 jti1 jti2 :
  contains_char ":" kind1 = false -> contains_char ":" kind2 = false ->
  replay_key kind1 owner1 jti1 = replay_key kind2 owner2 jti2 ->
  kind1 = kind2 /\ owner1 = owner2 /\ jti1 = jti2.
Proof.
  intros Hk1 Hk2 H. unfold replay_key in H.
  apply colon_split in H as [-> H]; [|done..].
  apply colon_split in H as [Hl H]; [|apply nat_display_no_colon..].
  apply nat_display_inj in Hl. by apply app_same_length in H as [-> ->].
Qed.

Lemma replay_key_injective_witness :
  ("ca" = "ca" /\ "client" = "client" /\ "1" = "1")%string.
Proof.
  apply (replay_key_injective "ca" "ca" "client" "client" "1" "1"); reflexivity.
Defined.

End Replay.
