(* ===== verification/IpAddr.v ===== *)
(** * Internet addresses

    [std::net::Ipv4Addr] and [Ipv6Addr]: reading an address from text, the octets and
    segments of an address and its canonical text.  The readers follow the standard
    library's parser: an octet is at most three decimal digits with no leading zero, a
    segment at most four hexadecimal digits, [::] stands for at least one group of zeros,
    and the last two groups may be written as an IPv4 address. *)
From S2P Require Import Prelude.
Local Open Scope Z_scope.
(** [lia] with division and remainder by constants. *)
Local Ltac Zify.zify_post_hook ::= Z.to_euclidean_division_equations.

Record Ipv4Addr : Type := ipv4 { oct0 : Z; oct1 : Z; oct2 : Z; oct3 : Z }.

Definition u8_range (n : Z) : Prop := 0 <= n < 256.
Definition ipv4_wf (a : Ipv4Addr) : Prop :=
  u8_range (oct0 a) /\ u8_range (oct1 a) /\ u8_range (oct2 a) /\ u8_range (oct3 a).

(** ** Numbers *)

(** [char::to_digit] *)
Definition to_digit (radix : Z) (c : ascii) : option Z :=
  let b := Z.of_N (u8 c) in
  let value := if (48 <=? b) && (b <=? 57) then b - 48
               else if (97 <=? b) && (b <=? 122) then b - 87
               else if (65 <=? b) && (b <=? 90) then b - 55 else radix in
  if value <? radix then Some value else None.

(** The digits of a number below [bound], at most [max] of them: its value, how many
    there were, and the rest. *)
Fixpoint read_digits (radix bound : Z) (max count : nat) (acc : Z) (s : string) : option (Z * nat * string) :=
  match s with
  | EmptyString => Some (acc, count, s)
  | String c rest =>
      match to_digit radix c with
      | None => Some (acc, count, s)
      | Some d =>
          if acc * radix + d >=? bound then None
          else if Nat.ltb max (S count) then None
          else read_digits radix bound max (S count) (acc * radix + d) rest
      end
  end.

Definition starts_zero (s : string) : bool := match s with String c _ => Ascii.eqb c "0" | _ => false end.

Definition read_number (radix bound : Z) (max : nat) (allow_zero_prefix : bool) (s : string)
  : option (Z * string) :=
  match read_digits radix bound max 0 0 s with
  | None => None
  | Some (n, count, rest) =>
      if Nat.eqb count 0 then None
      else if negb allow_zero_prefix && starts_zero s && Nat.ltb 1 count then None
      else Some (n, rest)
  end.

Definition read_char (c : ascii) (s : string) : option string :=
  match s with
  | String x rest => if Ascii.eqb x c then Some rest else None
  | EmptyString => None
  end.

(** ** IPv4 *)
Definition read_octet (s : string) : option (Z * string) := read_number 10 256 3 false s.

Definition read_ipv4 (s : string) : option (Ipv4Addr * string) :=
  '(a, s) ← read_octet s; s ← read_char "." s;
  '(b, s) ← read_octet s; s ← read_char "." s;
  '(c, s) ← read_octet s; s ← read_char "." s;
  '(d, s) ← read_octet s;
  Some (ipv4 a b c d, s).

(** [str::parse::<Ipv4Addr>] *)
Definition parse_ipv4 (s : string) : option Ipv4Addr :=
  if Nat.ltb 15 (str_len s) then None
  else match read_ipv4 s with
       | Some (a, EmptyString) => Some a
       | _ => None
       end.

Definition digit_char (d : Z) : ascii := ascii_of_N (Z.to_N (48 + d)).

(** [u8]'s [Display] *)
Definition octet_display (n : Z) : string :=
  if n <? 10 then String (digit_char n) EmptyString
  else if n <? 100 then String (digit_char (n / 10)) (String (digit_char (n mod 10)) EmptyString)
  else String (digit_char (n / 100)) (String (digit_char (n / 10 mod 10)) (String (digit_char (n mod 10)) EmptyString)).

(** [Ipv4Addr]'s [Display] *)
Definition ipv4_display (a : Ipv4Addr) : string :=
  octet_display (oct0 a) +:+ "." +:+ octet_display (oct1 a) +:+ "." +:+
  octet_display (oct2 a) +:+ "." +:+ octet_display (oct3 a).

(** ** IPv6 *)

(** [read_separator(':', i, ...)]: the separator comes before every group but the first. *)
Definition read_sep (i : nat) (s : string) : option string :=
  match i with O => Some s | S _ => read_char ":" s end.

(** Up to [limit] groups from the one numbered [i] on: the groups, whether the last two
    were an IPv4 address, and the rest. *)
Fixpoint read_groups (limit i : nat) (s : string) : list Z * bool * string :=
  match limit with
  | O => ([], false, s)
  | S more =>
      let v4 := if Nat.ltb 0 more then s' ← read_sep i s; read_ipv4 s' else None in
      match v4 with
      | Some (a, rest) => ([oct0 a * 256 + oct1 a; oct2 a * 256 + oct3 a], true, rest)
      | None =>
          match (s' ← read_sep i s; read_number 16 65536 4 true s') with
          | None => ([], false, s)
          | Some (g, rest) =>
              let '(gs, v, s'') := read_groups more (S i) rest in (g :: gs, v, s'')
          end
      end
  end.

Definition read_ipv6 (s : string) : option (list Z * string) :=
  let '(head, head_v4, s) := read_groups 8 0 s in
  if Nat.eqb (List.length head) 8 then Some (head, s)
  else if head_v4 then None
  else
    s ← read_char ":" s; s ← read_char ":" s;
    let '(tail, _, s) := read_groups (8 - (List.length head + 1)) 0 s in
    Some (head ++ repeat 0 (8 - List.length head - List.length tail) ++ tail, s).

(** [str::parse::<Ipv6Addr>] and its eight segments *)
Definition parse_ipv6 (s : string) : option (list Z) :=
  match read_ipv6 s with
  | Some (segments, EmptyString) => Some segments
  | _ => None
  end.

(** ** The canonical text of an IPv4 address *)
Lemma digit_char_u8 d : 0 <= d < 10 -> Z.of_N (u8 (digit_char d)) = 48 + d.
Proof.
  intros Hd. unfold digit_char, u8. rewrite N_ascii_embedding; [lia|].
  apply N2Z.inj_lt. rewrite Z2N.id; lia.
Qed.

Lemma to_digit_char d : 0 <= d < 10 -> to_digit 10 (digit_char d) = Some d.
Proof.
  intros Hd. unfold to_digit. rewrite digit_char_u8 by done.
  replace (48 <=? 48 + d) with true by lia. replace (48 + d <=? 57) with true by lia. cbn [andb].
  replace (48 + d - 48) with d by lia. by replace (d <? 10) with true by lia.
Qed.

Lemma to_digit_Some c d : to_digit 10 c = Some d -> 0 <= d < 10 /\ c = digit_char d.
Proof.
  unfold to_digit. pose proof (N2Z.is_nonneg (u8 c)).
  destruct ((48 <=? _) && _) eqn:Hd.
  - case_match; [|done]. intros [= <-]. split; [lia|].
    apply u8_inj, N2Z.inj. rewrite digit_char_u8 by lia. lia.
  - intros Hv. exfalso. revert Hv. repeat case_match; intros [= <-]; lia.
Qed.

Lemma digit_char_zero d : 0 <= d < 10 -> Ascii.eqb (digit_char d) "0" = bool_decide (d = 0).
Proof.
  intros Hd. destruct (Ascii.eqb_spec (digit_char d) "0") as [He|Hn]; symmetry.
  - apply bool_decide_eq_true. apply (f_equal u8), (f_equal Z.of_N) in He. rewrite digit_char_u8 in He by done.
    cbn in He. lia.
  - apply bool_decide_eq_false. intros ->. by apply Hn.
Qed.

(** Nothing of a number is left. *)
Definition no_digit (s : string) : Prop :=
  match s with String c _ => to_digit 10 c = None | EmptyString => True end.

Lemma read_digits_stop count acc s : no_digit s -> read_digits 10 256 3 count acc s = Some (acc, count, s).
Proof. destruct s as [|c s]; cbn; [done|]. by intros ->. Qed.

Lemma read_digits_step count acc d s : 0 <= d < 10 ->
  read_digits 10 256 3 count acc (String (digit_char d) s) =
  if acc * 10 + d >=? 256 then None
  else if Nat.ltb 3 (S count) then None else read_digits 10 256 3 (S count) (acc * 10 + d) s.
Proof. intros Hd. cbn [read_digits]. by rewrite to_digit_char. Qed.

Lemma octet_digits n : u8_range n -> 100 <= n ->
  0 <= n / 100 < 10 /\ 0 <= n / 10 mod 10 < 10 /\ 0 <= n mod 10 < 10 /\
  n / 100 * 10 + n / 10 mod 10 = n / 10 /\ n / 10 * 10 + n mod 10 = n /\ 1 <= n / 100 /\ n / 10 < 256.
Proof.
  unfold u8_range. intros Hn Hb. repeat split; lia.
Qed.

Ltac digit_step := rewrite read_digits_step by lia; replace (_ >=? 256) with false by lia; cbn [Nat.ltb Nat.leb].

Lemma read_octet_display n rest : u8_range n -> no_digit rest ->
  read_octet (octet_display n +:+ rest) = Some (n, rest).
Proof.
  intros Hn Hr. pose proof (octet_digits n Hn) as H3. unfold u8_range in Hn.
  unfold read_octet, read_number, octet_display.
  destruct (n <? 10) eqn:H1; [|destruct (n <? 100) eqn:H2]; rewrite ?str_app_cons, str_app_nil_l; cbn [starts_zero].
  - digit_step. rewrite read_digits_stop by done. cbn [Nat.eqb Nat.ltb Nat.leb]. rewrite andb_false_r.
    repeat f_equal; lia.
  - do 2 digit_step. rewrite read_digits_stop by done. rewrite digit_char_zero by lia.
    rewrite bool_decide_eq_false_2 by lia. cbn. repeat f_equal; lia.
  - destruct H3 as (? & ? & ? & ? & ? & ? & ?); [lia|].
    do 3 digit_step. rewrite read_digits_stop by done. rewrite digit_char_zero by lia.
    rewrite bool_decide_eq_false_2 by lia. cbn. repeat f_equal; lia.
Qed.

(** One digit more, or the end of the number. *)
Lemma read_digits_inv count acc s n k rest :
  read_digits 10 256 3 count acc s = Some (n, k, rest) ->
  (no_digit s /\ n = acc /\ k = count /\ rest = s) \/
  exists d s', 0 <= d < 10 /\ s = String (digit_char d) s' /\ acc * 10 + d < 256 /\ (S count <= 3)%nat /\
    read_digits 10 256 3 (S count) (acc * 10 + d) s' = Some (n, k, rest).
Proof.
  destruct s as [|c s]; cbn [read_digits]; [intros [= <- <- <-]; by left|].
  destruct (to_digit 10 c) as [d|] eqn:Hd; [|intros [= <- <- <-]; by left].
  apply to_digit_Some in Hd as [Hd ->]. case_match; [done|]. destruct (Nat.ltb_spec 3 (S count)); [done|].
  intros Hr. right. exists d, s. split_and!; (done || lia).
Qed.

Lemma two_digits d0 d1 : 0 <= d0 < 10 -> 0 <= d1 < 10 ->
  (d0 * 10 + d1) / 10 = d0 /\ (d0 * 10 + d1) mod 10 = d1.
Proof. intros. lia. Qed.

Lemma read_octet_Some s n rest : read_octet s = Some (n, rest) ->
  u8_range n /\ s = octet_display n +:+ rest /\ no_digit rest.
Proof.
  unfold read_octet, read_number, u8_range. destruct (read_digits 10 256 3 0 0 s) as [[[v k] r]|] eqn:Hr; [|done].
  destruct (Nat.eqb k 0) eqn:Hk; [done|]. destruct (_ && _) eqn:Hz; [done|]. intros [= -> ->].
  apply read_digits_inv in Hr as [(_ & _ & -> & _)|(d0 & s1 & H0 & -> & _ & _ & Hr)]; [done|].
  cbn [starts_zero negb andb] in Hz. rewrite digit_char_zero in Hz by done.
  apply read_digits_inv in Hr as [(Hn & -> & -> & ->)|(d1 & s2 & H1 & -> & _ & _ & Hr)].
  { split; [lia|]. split; [|done]. unfold octet_display. replace (0 * 10 + d0 <? 10) with true by lia.
    rewrite str_app_cons, str_app_nil_l. repeat f_equal; lia. }
  assert (Hge : (1 < k)%nat).
  { apply read_digits_inv in Hr as [(_ & _ & -> & _)|(d2 & s3 & _ & _ & _ & _ & Hr)]; [lia|].
    apply read_digits_inv in Hr as [(_ & _ & -> & _)|(d3 & s4 & _ & _ & _ & Hle & _)]; lia. }
  assert (d0 <> 0).
  { intros ->. apply andb_false_iff in Hz as [Hz|Hz]; [done|]. apply Nat.ltb_ge in Hz. lia. }
  replace (0 * 10 + d0) with d0 in Hr by lia.
  destruct (two_digits d0 d1 H0 H1) as [Hd0 Hd1].
  apply read_digits_inv in Hr as [(Hn & -> & -> & ->)|(d2 & s3 & H2 & -> & Hlt & _ & Hr)].
  { split; [lia|]. split; [|done]. unfold octet_display.
    replace (d0 * 10 + d1 <? 10) with false by lia. replace (d0 * 10 + d1 <? 100) with true by lia.
    by rewrite Hd0, Hd1, !str_app_cons, str_app_nil_l. }
  apply read_digits_inv in Hr as [(Hn & -> & -> & ->)|(d3 & s4 & _ & _ & _ & Hle & _)]; [|lia].
  split; [lia|]. split; [|done]. unfold octet_display.
  set (n := (d0 * 10 + d1) * 10 + d2).
  assert (Hq : n / 10 = d0 * 10 + d1 /\ n mod 10 = d2 /\ n / 100 = d0).
  { subst n. split_and!; lia. }
  destruct Hq as (Hq & Hm & Hc). replace (n <? 10) with false by lia. replace (n <? 100) with false by lia.
  by rewrite Hc, Hq, Hm, Hd1, !str_app_cons, str_app_nil_l.
Qed.

Lemma read_char_Some c s rest : read_char c s = Some rest -> s = String c rest.
Proof. destruct s as [|x s]; cbn; [done|]. destruct (Ascii.eqb_spec x c); naive_solver. Qed.

(** Reading the canonical text of an address gives the address, and an address is read
    from no other text. *)
Lemma parse_ipv4_display a : ipv4_wf a -> parse_ipv4 (ipv4_display a) = Some a.
Proof.
  intros (H0 & H1 & H2 & H3). destruct a as [a b c d]. cbn [oct0 oct1 oct2 oct3] in *.
  unfold parse_ipv4. replace (Nat.ltb 15 _) with false.
  - unfold ipv4_display, read_ipv4; cbn [oct0 oct1 oct2 oct3].
    rewrite !str_app_cons, !str_app_nil_l.
    do 3 (rewrite read_octet_display; [|done|reflexivity]; cbn -[octet_display read_octet String.append]). rewrite <- (str_app_nil_r (octet_display d)).
    by rewrite read_octet_display.
  - symmetry. apply Nat.ltb_ge. unfold ipv4_display. rewrite !str_len_app. cbn [oct0 oct1 oct2 oct3].
    assert (Hl : forall n, (str_len (octet_display n) <= 3)%nat) by (intros n; unfold octet_display; repeat case_match; cbn; lia).
    pose proof (Hl a). pose proof (Hl b). pose proof (Hl c). pose proof (Hl d). cbn. lia.
Qed.

Lemma read_ipv4_Some s a rest : read_ipv4 s = Some (a, rest) -> ipv4_wf a /\ s = ipv4_display a +:+ rest.
Proof.
  unfold read_ipv4. intros Hr.
  repeat match goal with
  | H : (_ ≫= _) = Some _ |- _ => apply bind_Some in H as ([? ?] & ?%read_octet_Some & H)
  | H : (_ ≫= _) = Some _ |- _ => apply bind_Some in H as (? & ->%read_char_Some & H)
  end.
  destruct_and!. simplify_eq. split; [done|]. unfold ipv4_display; cbn [oct0 oct1 oct2 oct3].
  rewrite !str_app_assoc. done.
Qed.

Lemma parse_ipv4_Some s a : parse_ipv4 s = Some a -> ipv4_wf a /\ s = ipv4_display a.
Proof.
  unfold parse_ipv4. case_match; [done|]. destruct (read_ipv4 s) as [[a' []]|] eqn:Hr; try done.
  intros [= ->]. apply read_ipv4_Some in Hr as [Hwf ->]. by rewrite str_app_nil_r.
Qed.

(** ** The segments of an IPv6 address *)
Definition u16_range (n : Z) : Prop := 0 <= n < 65536.

Lemma to_digit_nonneg radix c d : to_digit radix c = Some d -> 0 <= radix -> 0 <= d.
Proof.
  unfold to_digit. pose proof (N2Z.is_nonneg (u8 c)). repeat case_match; intros [= <-] ?; lia.
Qed.

Lemma read_digits_range radix bound max s : 0 <= radix -> forall count acc n k rest, 0 <= acc < bound ->
  read_digits radix bound max count acc s = Some (n, k, rest) -> 0 <= n < bound.
Proof.
  intros Hr. induction s as [|c s IH]; cbn; intros count acc n k rest Ha; [by intros [= <- <- <-]|].
  destruct (to_digit radix c) as [d|] eqn:Hd; [|by intros [= <- <- <-]]. apply to_digit_nonneg in Hd; [|done].
  destruct (_ >=? bound) eqn:Hb; [done|]. case_match; [done|]. apply IH. nia.
Qed.

Lemma read_segment_range s g rest : read_number 16 65536 4 true s = Some (g, rest) -> u16_range g.
Proof.
  unfold read_number. destruct (read_digits _ _ _ _ _ _) as [[[n k] r]|] eqn:Hr; [|done].
  repeat case_match; try done. intros [= <- <-]. eapply read_digits_range; [|done..]; lia.
Qed.

Lemma read_groups_ok limit : forall i s gs v rest, read_groups limit i s = (gs, v, rest) ->
  (List.length gs <= limit)%nat /\ Forall u16_range gs.
Proof.
  induction limit as [|more IH]; intros i s gs v rest; cbn [read_groups]; [intros [= <- <- <-]; auto|].
  assert (Hgroup : match (s' ← read_sep i s; read_number 16 65536 4 true s') with
                   | None => ([], false, s)
                   | Some (g, rest) => let '(gs, v, s'') := read_groups more (S i) rest in (g :: gs, v, s'')
                   end = (gs, v, rest) -> (List.length gs <= S more)%nat /\ Forall u16_range gs).
  { destruct (_ ≫= _) as [[g r]|] eqn:Hg; [|intros [= <- <- <-]; cbn; split; [lia|done]].
    apply bind_Some in Hg as (s' & _ & Hg%read_segment_range).
    destruct (read_groups more (S i) r) as [[gs' v'] s''] eqn:Hr. intros [= <- <- <-].
    apply IH in Hr as [? ?]. cbn. split; [lia|by constructor]. }
  destruct (Nat.ltb_spec 0 more) as [Hm|Hm]; [|done].
  destruct (s' ← read_sep i s; read_ipv4 s') as [[a r]|] eqn:Ha; [|done]. intros [= <- <- <-].
  apply bind_Some in Ha as (s' & _ & [(H0 & H1 & H2 & H3) _]%read_ipv4_Some). unfold u8_range in *. cbn.
  split; [lia|]. repeat constructor; unfold u16_range; lia.
Qed.

Lemma parse_ipv6_Some s segments : parse_ipv6 s = Some segments ->
  List.length segments = 8%nat /\ Forall u16_range segments.
Proof.
  unfold parse_ipv6, read_ipv6. destruct (read_groups 8 0 s) as [[head v] r] eqn:Hh.
  apply read_groups_ok in Hh as [Hl Hf]. destruct (Nat.eqb_spec (List.length head) 8) as [He|He].
  { destruct r; [|done]. intros [= <-]. done. }
  destruct v; [done|]. destruct (read_char ":" r) as [r1|]; cbn [mbind option_bind]; [|done].
  destruct (read_char ":" r1) as [r2|]; cbn [mbind option_bind]; [|done].
  destruct (read_groups _ 0 r2) as [[tail v'] r3] eqn:Ht. apply read_groups_ok in Ht as [Hl' Hf'].
  destruct r3; [|done]. intros [= <-]. rewrite !length_app, repeat_length. split; [lia|].
  rewrite !Forall_app. split_and!; [done| |done]. apply Forall_forall. intros x Hx%list_elem_of_In%repeat_spec. subst.
  unfold u16_range. lia.
Qed.
