(* ===== verification/Scope.v ===== *)
(** * Scope sets (scope.rs)

    A [ScopeSet] is a vector of tokens kept sorted and without duplicates; the
    file shows that every constructor establishes that, that the merge walk of
    [is_subset] decides set inclusion, and that printing and parsing are inverse. *)
From Stdlib Require Import Sorted.
From S2P Require Import Prelude.

(** ** The order on strings: [Ord] of [String], byte by byte *)
Definition str_lt (s t : string) : Prop := String.compare s t = Lt.

Lemma str_compare_spec s t :
  match String.compare s t with Lt => str_lt s t | Eq => s = t | Gt => str_lt t s end.
Proof.
  destruct (String.compare s t) eqn:H; [by apply String.compare_eq_iff | done |].
  unfold str_lt. by rewrite String.compare_antisym, H.
Qed.

Lemma ascii_compare_trans a b c : Ascii.compare a b = Lt -> Ascii.compare b c = Lt -> Ascii.compare a c = Lt.
Proof. unfold Ascii.compare. rewrite !N.compare_lt_iff. lia. Qed.
Lemma ascii_compare_eq a b : Ascii.compare a b = Eq -> a = b.
Proof. unfold Ascii.compare. rewrite N.compare_eq_iff. apply u8_inj. Qed.
Lemma ascii_compare_refl a : Ascii.compare a a = Eq.
Proof. unfold Ascii.compare. apply N.compare_refl. Qed.

#[global] Instance str_lt_trans : Transitive str_lt.
Proof.
  unfold str_lt. intros x. induction x as [|a x IH]; intros [|b y] [|c z]; cbn; try done.
  destruct (Ascii.compare a b) eqn:Hab; try done; destruct (Ascii.compare b c) eqn:Hbc; try done.
  - apply ascii_compare_eq in Hab as <-. rewrite Hbc. apply IH.
  - apply ascii_compare_eq in Hab as <-. by rewrite Hbc.
  - apply ascii_compare_eq in Hbc as <-. by rewrite Hab.
  - by rewrite (ascii_compare_trans a b c).
Qed.
#[global] Instance str_lt_irrefl : Irreflexive str_lt.
Proof. intros x. unfold complement, str_lt. induction x; cbn; [done|]. by rewrite ascii_compare_refl. Qed.

(** ** Tokens *)
Definition scope_char_ok (b : ascii) : bool :=
  (u8 b =? 33)%N || in_range 35 91 b || in_range 93 126 b.

Inductive InvalidScopeToken : Type := InvalidScope_ (token : string).
#[global] Instance InvalidScopeToken_eq_dec : EqDecision InvalidScopeToken.
Proof. solve_decision. Defined.

(** [Scope::new] *)
Definition scope_new (token : string) : result string InvalidScopeToken :=
  if str_is_empty token || negb (str_forall scope_char_ok token) then Err (InvalidScope_ token)
  else Ok token.

Definition token_ok (t : string) : Prop := scope_new t = Ok t.

(** ** Sets *)
Abbreviation ScopeSet := (list string) (only parsing).

Module ScopeSet.

Definition empty : ScopeSet := [].

(** [sort_unstable]; the order is total on tokens, so every sorting algorithm
    gives this list. *)
Fixpoint insert_sorted (t : string) (l : list string) : list string :=
  match l with
  | [] => [t]
  | u :: l' => match String.compare t u with
               | Gt => u :: insert_sorted t l'
               | _ => t :: l
               end
  end.
Definition sort_unstable (l : list string) : list string := foldr insert_sorted [] l.

(** [dedup]: drop every element equal to the one before it. *)
Fixpoint dedup (l : list string) : list string :=
  match l with
  | [] => []
  | t :: l' => match l' with
               | [] => [t]
               | u :: _ => if t == u then dedup l' else t :: dedup l'
               end
  end.

Definition sorted (tokens : list string) : ScopeSet := dedup (sort_unstable tokens).

(** The loop shared by [parse] and [from_tokens]: validate each token, stop at
    the first that is not one. *)
Fixpoint validate_all (tokens : list string) : result (list string) InvalidScopeToken :=
  match tokens with
  | [] => Ok []
  | t :: ts => let? t' := scope_new t in let? ts' := validate_all ts in Ok (t' :: ts')
  end.

Definition from_tokens (tokens : list string) : result ScopeSet InvalidScopeToken :=
  let? out := validate_all tokens in Ok (sorted out).

Definition parse (s : string) : result ScopeSet InvalidScopeToken :=
  let? tokens := validate_all (split_nonempty " " s) in Ok (sorted tokens).

(** The inner loop of [is_subset]: advance [theirs] past [mine], or fail. *)
Fixpoint seek (mine : string) (theirs : list string) : option (list string) :=
  match theirs with
  | [] => None
  | other :: rest =>
      match String.compare other mine with
      | Lt => seek mine rest
      | Eq => Some rest
      | Gt => None
      end
  end.

Fixpoint is_subset (self other : ScopeSet) : bool :=
  match self with
  | [] => true
  | mine :: self' =>
      match seek mine other with
      | Some theirs => is_subset self' theirs
      | None => false
      end
  end.

Definition is_empty (self : ScopeSet) : bool := match self with [] => true | _ => false end.
Definition len (self : ScopeSet) : nat := List.length self.
Definition contains (self : ScopeSet) (token : string) : bool := existsb (fun s => s == token) self.

(** [Display], which [Serialize] writes and [Deserialize] parses. *)
Fixpoint display (self : ScopeSet) : string :=
  match self with
  | [] => EmptyString
  | [t] => t
  | t :: self' => t +:+ " " +:+ display self'
  end.

(** ** The invariant *)
Definition wf (s : ScopeSet) : Prop := StronglySorted str_lt s /\ Forall token_ok s.

(** *** Sorting *)
Definition str_le (s t : string) : Prop := s = t \/ str_lt s t.

Lemma str_le_trans x y z : str_le x y -> str_le y z -> str_le x z.
Proof. unfold str_le. intros [->|?] [->|?]; auto. right. by etrans. Qed.

Lemma insert_sorted_elem t l x : x ∈ insert_sorted t l <-> x = t \/ x ∈ l.
Proof.
  induction l as [|u l IH]; cbn; [set_solver|].
  destruct (String.compare t u); set_solver.
Qed.

Lemma insert_sorted_sorted t l : StronglySorted str_le l -> StronglySorted str_le (insert_sorted t l).
Proof.
  induction 1 as [|u l Hl IH Hu]; cbn; [repeat constructor|].
  pose proof (str_compare_spec t u) as Hc. destruct (String.compare t u).
  - subst. constructor; [by constructor|]. constructor; [by left|done].
  - constructor; [by constructor|]. constructor; [by right|].
    eapply Forall_impl; [exact Hu|]. intros v Hv. eapply str_le_trans; [by right|done].
  - constructor; [done|]. apply Forall_forall. intros v [->|Hv]%insert_sorted_elem.
    + by right.
    + by eapply Forall_forall in Hu.
Qed.

Lemma sort_unstable_elem l x : x ∈ sort_unstable l <-> x ∈ l.
Proof. induction l; cbn; [done|]. rewrite insert_sorted_elem. set_solver. Qed.

Lemma sort_unstable_sorted l : StronglySorted str_le (sort_unstable l).
Proof. induction l; cbn; [constructor|]. by apply insert_sorted_sorted. Qed.

Lemma dedup_cons2 t u l :
  dedup (t :: u :: l) = if t == u then dedup (u :: l) else t :: dedup (u :: l).
Proof. done. Qed.

Lemma dedup_elem l x : x ∈ dedup l <-> x ∈ l.
Proof.
  induction l as [|t [|u l] IH]; [done..|]. rewrite dedup_cons2.
  case_bool_decide; subst; set_solver.
Qed.

Lemma dedup_sorted l : StronglySorted str_le l -> StronglySorted str_lt (dedup l).
Proof.
  induction l as [|t [|u l] IH]; intros Hs; [constructor|repeat constructor|].
  inversion_clear Hs as [|? ? Hl Ht]. rewrite dedup_cons2. case_bool_decide as Hne; [by apply IH|].
  constructor; [by apply IH|]. apply Forall_forall. intros v. rewrite dedup_elem. intros Hv.
  inversion Ht as [|? ? Htu Htl]; subst. destruct Htu as [|Htu]; [done|].
  apply elem_of_cons in Hv as [->|Hv]; [done|].
  inversion_clear Hl as [|? ? _ Hu]. eapply Forall_forall in Hu; [|exact Hv].
  destruct Hu as [->|]; [done | by etrans].
Qed.

Lemma sorted_elem l x : x ∈ sorted l <-> x ∈ l.
Proof. unfold sorted. by rewrite dedup_elem, sort_unstable_elem. Qed.

Lemma sorted_sorted l : StronglySorted str_lt (sorted l).
Proof. apply dedup_sorted, sort_unstable_sorted. Qed.

(** Two strictly sorted lists with the same elements are the same list. *)
Lemma sorted_unique l1 l2 : StronglySorted str_lt l1 -> StronglySorted str_lt l2 ->
  (forall x, x ∈ l1 <-> x ∈ l2) -> l1 = l2.
Proof.
  intros H1. revert l2. induction H1 as [|a l1 H1 IH Ha]; intros l2 H2 Heq.
  - destruct l2 as [|b l2]; [done|]. set_solver.
  - destruct H2 as [|b l2 H2 Hb]; [set_solver|].
    rewrite Forall_forall in Ha, Hb.
    assert (a = b) as <-.
    { assert (a ∈ b :: l2) as Hab by set_solver. assert (b ∈ a :: l1) as Hba by set_solver.
      apply elem_of_cons in Hab as [|Hab]; [done|]. apply elem_of_cons in Hba as [|Hba]; [done|].
      exfalso. apply (irreflexivity str_lt a). etrans; [apply Ha | apply Hb]; done. }
    f_equal. apply IH; [done|]. intros x.
    assert (a ∉ l1) by (intros ?; by apply (irreflexivity str_lt a), Ha).
    assert (a ∉ l2) by (intros ?; by apply (irreflexivity str_lt a), Hb).
    set_solver.
Qed.

(** *** Validation *)
Lemma scope_new_ok t t' : scope_new t = Ok t' -> t' = t /\ token_ok t.
Proof. unfold token_ok, scope_new. case_match; [done|]. by intros [= ->]. Qed.

Lemma validate_all_ok ts ts' : validate_all ts = Ok ts' -> ts' = ts /\ Forall token_ok ts.
Proof.
  revert ts'. induction ts as [|t ts IH]; cbn; [by intros ? [= <-]|]. intros ts' H.
  apply and_then_ok in H as (t' & [-> Ht]%scope_new_ok & H).
  apply and_then_ok in H as (ts'' & Hts & [= <-]).
  destruct (IH _ Hts) as [-> ?]. split; [done|by constructor].
Qed.

Lemma validate_all_Forall ts : Forall token_ok ts -> validate_all ts = Ok ts.
Proof. induction 1 as [|t ts Ht _ IH]; cbn; [done|]. by rewrite Ht, IH. Qed.

Lemma sorted_wf ts : Forall token_ok ts -> wf (sorted ts).
Proof.
  intros H. split; [apply sorted_sorted|]. rewrite Forall_forall in *.
  intros x. rewrite sorted_elem. auto.
Qed.

Lemma from_tokens_ok ts s : from_tokens ts = Ok s -> wf s /\ forall x, x ∈ s <-> x ∈ ts.
Proof.
  unfold from_tokens. intros (ts' & [-> Hts]%validate_all_ok & [= <-])%and_then_ok.
  split; [by apply sorted_wf | apply sorted_elem].
Qed.

Lemma from_tokens_Forall ts : Forall token_ok ts -> from_tokens ts = Ok (sorted ts).
Proof. intros H. unfold from_tokens. by rewrite validate_all_Forall. Qed.

Lemma parse_ok_wf s r : parse s = Ok r -> wf r.
Proof.
  unfold parse. intros (ts & [-> Hts]%validate_all_ok & [= <-])%and_then_ok. by apply sorted_wf.
Qed.

(** Every constructor establishes the invariant of [ScopeSet]: a parsed set
    is strictly sorted, holds only well-formed tokens, and holds exactly the
    non-empty space-separated pieces of the input; a string with a malformed
    piece is refused. *)
Theorem parse_spec s :
  match parse s with
  | Ok r => wf r /\ forall t, t ∈ r <-> t ∈ split_nonempty " " s
  | Err (InvalidScope_ bad) => bad ∈ split_nonempty " " s /\ ~ token_ok bad
  end.
Proof.
  destruct (parse s) as [r|[bad]] eqn:H.
  - split; [by eapply parse_ok_wf|]. unfold parse in H.
    apply and_then_ok in H as (ts & [-> _]%validate_all_ok & [= <-]). apply sorted_elem.
  - unfold parse in H. generalize dependent (split_nonempty " " s). clear s.
    induction l as [|t ts IH]; cbn; [done|]. unfold and_then in *.
    destruct (scope_new t) as [t'|[b]] eqn:Ht.
    + destruct (validate_all ts) as [ts'|[b]]; [done|]. intros [= ->].
      destruct IH as [? ?]; [done|]. set_solver.
    + intros [= ->]. unfold scope_new in Ht. case_match eqn:Hc; [|done]. simplify_eq.
      split; [set_solver|]. unfold token_ok, scope_new. by rewrite Hc.
Qed.

(** *** [is_subset] *)
Lemma seek_spec mine theirs : StronglySorted str_lt theirs ->
  match seek mine theirs with
  | Some rest => StronglySorted str_lt rest /\ mine ∈ theirs /\ Forall (str_lt mine) rest /\
                 (forall x, str_lt mine x -> (x ∈ theirs <-> x ∈ rest))
  | None => mine ∉ theirs
  end.
Proof.
  induction 1 as [|o rest Hr IH Ho]; cbn; [set_solver|].
  pose proof (str_compare_spec o mine) as Hc. destruct (String.compare o mine).
  - subst. do 2 (split; [by set_solver|]). split; [done|]. intros x Hx. rewrite elem_of_cons.
    split; [|auto]. intros [->|?]; [by destruct (str_lt_irrefl _ Hx)|done].
  - destruct (seek mine rest) as [r|].
    + destruct IH as (? & ? & ? & Hx). do 3 (split; [by set_solver|]).
      intros x Hlt. rewrite <- (Hx x Hlt), elem_of_cons. split; [|auto].
      intros [->|?]; [|done]. destruct (str_lt_irrefl mine). by etrans.
    + intros [->|?]%elem_of_cons; [|done]. by destruct (str_lt_irrefl _ Hc).
  - intros [->|Hm]%elem_of_cons; [by destruct (str_lt_irrefl _ Hc)|].
    rewrite Forall_forall in Ho. destruct (str_lt_irrefl mine). etrans; [exact Hc|by apply Ho].
Qed.

(** A [true] answer is inclusion, sorted or not. *)
Lemma seek_sound mine theirs rest : seek mine theirs = Some rest ->
  mine ∈ theirs /\ (forall x, x ∈ rest -> x ∈ theirs).
Proof.
  induction theirs as [|o theirs IH]; cbn; [done|].
  pose proof (str_compare_spec o mine) as Hc. destruct (String.compare o mine); [|naive_solver set_solver|done].
  intros [= <-]. subst. set_solver.
Qed.
Lemma is_subset_sound self : forall other, is_subset self other = true -> forall x, x ∈ self -> x ∈ other.
Proof.
  induction self as [|m self IH]; intros other Hs x Hx; [set_solver|]. cbn in Hs.
  destruct (seek m other) as [rest|] eqn:Hk; [|done]. apply seek_sound in Hk as [Hm Hr].
  apply elem_of_cons in Hx as [->|Hx]; [done|]. eauto.
Qed.

Lemma is_subset_sorted self other :
  StronglySorted str_lt self -> StronglySorted str_lt other ->
  is_subset self other = true <-> forall x, x ∈ self -> x ∈ other.
Proof.
  intros Hs. revert other. induction Hs as [|m self Hs IH Hm]; intros other Ho; cbn; [set_solver|].
  rewrite Forall_forall in Hm. pose proof (seek_spec m other Ho) as Hk.
  destruct (seek m other) as [rest|].
  - destruct Hk as (Hr & Hmo & _ & Hx). rewrite IH by done. split.
    + intros H x [->|Hin]%elem_of_cons; [done|]. apply Hx; auto.
    + intros H x Hin. apply Hx; [by apply Hm|]. apply H. set_solver.
  - split; [done|]. intros H. exfalso. apply Hk, H. set_solver.
Qed.

(** The merge walk of [is_subset] decides inclusion: on well-formed sets it
    answers [true] exactly when every token of the first is a token of the second. *)
Theorem is_subset_correct self other : wf self -> wf other ->
  is_subset self other = true <-> forall t, contains self t = true -> contains other t = true.
Proof.
  intros [Hs _] [Ho _]. rewrite is_subset_sorted by done. unfold contains.
  setoid_rewrite existsb_exists. setoid_rewrite bool_decide_eq_true. setoid_rewrite list_elem_of_In.
  naive_solver.
Qed.

Lemma is_subset_correct_witness :
  is_subset ["openid"; "profile"] ["email"; "openid"; "profile"] = true <->
  forall t, contains ["openid"; "profile"] t = true -> contains ["email"; "openid"; "profile"] t = true.
Proof.
  apply is_subset_correct; split; repeat constructor.
Defined.

(** *** Printing and parsing *)
Lemma split_on_app_space c s t : contains_char c s = false ->
  split_on c (s +:+ String c t) = s :: split_on c t.
Proof.
  induction s as [|x s IH].
  - intros _. rewrite str_app_nil_l. cbn [split_on]. by rewrite Ascii.eqb_refl.
  - unfold contains_char in *. cbn [bytes list_ascii_of_string existsb]. intros [Hx Hs]%orb_false_iff.
    rewrite str_app_cons. cbn [split_on]. rewrite Ascii.eqb_sym, Hx, IH by done. done.
Qed.

Lemma split_on_none c s : contains_char c s = false -> split_on c s = [s].
Proof.
  induction s as [|x s IH]; [done|]. unfold contains_char in *.
  cbn [bytes list_ascii_of_string existsb]. intros [Hx Hs]%orb_false_iff.
  cbn [split_on]. by rewrite Ascii.eqb_sym, Hx, IH.
Qed.

Lemma token_ok_facts t : token_ok t -> str_is_empty t = false /\ contains_char " " t = false.
Proof.
  unfold token_ok, scope_new. intros H. case_match eqn:Hc; [done|]. apply orb_false_iff in Hc as [He Hf].
  split; [done|]. apply negb_false_iff in Hf. unfold contains_char.
  destruct (existsb (Ascii.eqb " ") (bytes t)) eqn:Hx; [|done].
  apply existsb_exists in Hx as (c & Hin & <-%Ascii.eqb_eq).
  rewrite str_forall_elem in Hf. apply list_elem_of_In, Hf in Hin. done.
Qed.

Lemma display_cons2 t u s : display (t :: u :: s) = t +:+ String " " (display (u :: s)).
Proof. done. Qed.

Lemma display_split s : Forall token_ok s -> split_nonempty " " (display s) = s.
Proof.
  induction 1 as [|t s Ht Hs IH]; [done|]. apply token_ok_facts in Ht as [He Hc].
  unfold split_nonempty in *. destruct s as [|u s].
  - cbn [display]. rewrite split_on_none by done. cbn. by rewrite He.
  - rewrite display_cons2, split_on_app_space by done.
    cbn [List.filter]. rewrite He. cbn [negb]. by rewrite IH.
Qed.

(** Printing a well-formed scope set and parsing it back gives the same set,
    so a stored record decodes to what was stored. *)
Theorem display_parse_roundtrip s : wf s -> parse (display s) = Ok s.
Proof.
  intros [Hs Ht]. unfold parse. rewrite display_split, validate_all_Forall by done. cbn. f_equal.
  apply sorted_unique; [apply sorted_sorted | done | apply sorted_elem].
Qed.

Lemma display_parse_roundtrip_witness :
  parse (display ["a:read"; "openid"]) = Ok ["a:read"; "openid"].
Proof. apply display_parse_roundtrip. split; repeat constructor. Defined.

End ScopeSet.
