(* ===== verification/Types.v ===== *)
(** * The data of the protocol

    The structs and enums of [grant.rs], [error.rs], [client.rs], [jwt.rs] (keys),
    [client_assertion.rs], [mtls.rs], [rar.rs], [consent.rs], [token.rs],
    [authorization.rs], [device.rs], [par.rs] and [events.rs], in the build with
    every feature on, with the small total functions those files define on them.
    A field keeps its source name behind a prefix for its struct. *)
From S2P Require Import Prelude Time Codec Scope.

(** ** serde_json values *)
Inductive Number : Type :=
| PosInt (n : Z)
| NegInt (n : Z)
| Float (bits : Z).
#[global] Instance Number_eq_dec : EqDecision Number.
Proof. solve_decision. Defined.

Inductive Value : Type :=
| VNull
| VBool (b : bool)
| VNumber (n : Number)
| VString (s : string)
| VArray (items : list Value)
| VObject (members : list (string * Value)).

#[global] Instance Value_eq_dec : EqDecision Value.
Proof.
  refine (fix go x y : Decision (x = y) :=
    match x, y with
    | VNull, VNull => left eq_refl
    | VBool a, VBool b => cast_if (decide (a = b))
    | VNumber a, VNumber b => cast_if (decide (a = b))
    | VString a, VString b => cast_if (decide (a = b))
    | VArray a, VArray b => cast_if (@list_eq_dec _ go a b)
    | VObject a, VObject b => cast_if (@list_eq_dec _ (@prod_eq_dec _ _ _ go) a b)
    | _, _ => right _
    end); abstract congruence.
Defined.

(** [serde_json::Map::get], [Value::as_str], [Value::as_u64] *)
Fixpoint map_get (name : string) (m : list (string * Value)) : option Value :=
  match m with
  | [] => None
  | (k, v) :: m' => if k == name then Some v else map_get name m'
  end.
Definition as_str (v : Value) : option string :=
  match v with VString s => Some s | _ => None end.
Definition as_u64 (v : Value) : option Z :=
  match v with VNumber (PosInt n) => Some n | _ => None end.

(** ** grant.rs *)
Inductive GrantType : Type :=
| AuthorizationCode | RefreshToken | ClientCredentials | DeviceCode | TokenExchange.
#[global] Instance GrantType_eq_dec : EqDecision GrantType.
Proof. solve_decision. Defined.

Definition DEVICE_CODE_GRANT_URN : string := "urn:ietf:params:oauth:grant-type:device_code".
Definition TOKEN_EXCHANGE_GRANT_URN : string := "urn:ietf:params:oauth:grant-type:token-exchange".

Definition grant_parse (s : string) : option GrantType :=
  if s == "authorization_code" then Some AuthorizationCode
  else if s == "refresh_token" then Some RefreshToken
  else if s == "client_credentials" then Some ClientCredentials
  else if s == DEVICE_CODE_GRANT_URN then Some DeviceCode
  else if s == TOKEN_EXCHANGE_GRANT_URN then Some TokenExchange
  else None.

Definition grant_as_str (g : GrantType) : string :=
  match g with
  | AuthorizationCode => "authorization_code"
  | RefreshToken => "refresh_token"
  | ClientCredentials => "client_credentials"
  | DeviceCode => DEVICE_CODE_GRANT_URN
  | TokenExchange => TOKEN_EXCHANGE_GRANT_URN
  end.

(** The grant-type parser accepts exactly the registered spellings: a string
    parses to a grant if and only if it is that grant's wire name. *)
Theorem grant_parse_exact s g : grant_parse s = Some g <-> s = grant_as_str g.
Proof.
  split.
  - unfold grant_parse. repeat case_bool_decide; intros [= <-]; done.
  - intros ->. by destruct g.
Qed.

(** ** error.rs *)
Inductive ErrorCode : Type :=
| InvalidRequest | InvalidClient | InvalidGrant | UnauthorizedClient | UnsupportedGrantType
| InvalidScope | AccessDenied | UnsupportedResponseType | ServerError | TemporarilyUnavailable
| AuthorizationPending | SlowDown | ExpiredToken | InvalidAuthorizationDetails | InvalidTarget
| InsufficientUserAuthentication | InvalidDpopProof | InvalidRequestUri
| InvalidRequestObject | RequestNotSupported.
#[global] Instance ErrorCode_eq_dec : EqDecision ErrorCode.
Proof. solve_decision. Defined.

Definition error_as_str (e : ErrorCode) : string :=
  match e with
  | InvalidRequest => "invalid_request"
  | InvalidClient => "invalid_client"
  | InvalidGrant => "invalid_grant"
  | UnauthorizedClient => "unauthorized_client"
  | UnsupportedGrantType => "unsupported_grant_type"
  | InvalidScope => "invalid_scope"
  | AccessDenied => "access_denied"
  | UnsupportedResponseType => "unsupported_response_type"
  | ServerError => "server_error"
  | TemporarilyUnavailable => "temporarily_unavailable"
  | AuthorizationPending => "authorization_pending"
  | SlowDown => "slow_down"
  | ExpiredToken => "expired_token"
  | InvalidAuthorizationDetails => "invalid_authorization_details"
  | InvalidTarget => "invalid_target"
  | InsufficientUserAuthentication => "insufficient_user_authentication"
  | InvalidDpopProof => "invalid_dpop_proof"
  | InvalidRequestUri => "invalid_request_uri"
  | InvalidRequestObject => "invalid_request_object"
  | RequestNotSupported => "request_not_supported"
  end.

Definition error_http_status (e : ErrorCode) : Z :=
  match e with
  | InvalidClient => 401
  | ServerError => 500
  | TemporarilyUnavailable => 503
  | _ => 400
  end.

Record ErrorResponse : Type := {
  error : ErrorCode;
  error_description : option string;
  error_uri : option string;
}.
#[global] Instance ErrorResponse_eq_dec : EqDecision ErrorResponse.
Proof. solve_decision. Defined.

Definition error_new (e : ErrorCode) : ErrorResponse :=
  {| error := e; error_description := None; error_uri := None |}.
Definition with_description (r : ErrorResponse) (d : string) : ErrorResponse :=
  {| error := error r; error_description := Some d; error_uri := error_uri r |}.

(** ** jwt.rs: algorithms and keys *)
Inductive EcCurve : Type := P256.
Inductive OkpCurve : Type := Ed25519.
#[global] Instance EcCurve_eq_dec : EqDecision EcCurve. Proof. solve_decision. Defined.
#[global] Instance OkpCurve_eq_dec : EqDecision OkpCurve. Proof. solve_decision. Defined.

Inductive KeyKind : Type := KEc (c : EcCurve) | KRsa | KOkp (c : OkpCurve).
#[global] Instance KeyKind_eq_dec : EqDecision KeyKind. Proof. solve_decision. Defined.

Inductive JwsAlg : Type := Es256 | Rs256 | EdDsa | Ps256.
#[global] Instance JwsAlg_eq_dec : EqDecision JwsAlg. Proof. solve_decision. Defined.

Inductive Jwk : Type :=
| JwkEc (crv : EcCurve) (x y : string) (kid : option string)
| JwkRsa (n e : string) (kid : option string)
| JwkOkp (crv : OkpCurve) (x : string) (kid : option string).
#[global] Instance Jwk_eq_dec : EqDecision Jwk. Proof. solve_decision. Defined.

Inductive Audience : Type := AudOne (a : string) | AudMany (l : list string).
#[global] Instance Audience_eq_dec : EqDecision Audience. Proof. solve_decision. Defined.

(** ** client_assertion.rs: keys and failures *)
Inductive AssertionKeys : Type :=
| AKClientSecret (secret : string)
| AKPublicKeys (alg : JwsAlg) (keys : list Jwk).
#[global] Instance AssertionKeys_eq_dec : EqDecision AssertionKeys. Proof. solve_decision. Defined.

Inductive AssertionFailure : Type :=
| AFMalformed | AFAlgorithmMismatch | AFBadSignature | AFWrongPrincipal | AFWrongAudience
| AFExpired | AFNotYetValid | AFMissingJti | AFReplayed | AFReplayCheckUnavailable.
#[global] Instance AssertionFailure_eq_dec : EqDecision AssertionFailure. Proof. solve_decision. Defined.

(** ** mtls.rs: certificates and registrations.  A [CertificateThumbprint] is its
    32 bytes. *)
Abbreviation CertificateThumbprint := string (only parsing).

Inductive ExpectedSubject : Type :=
| SubjectDn (v : string) | SanDns (v : string) | SanUri (v : string)
| SanIp (v : string) | SanEmail (v : string).
#[global] Instance ExpectedSubject_eq_dec : EqDecision ExpectedSubject. Proof. solve_decision. Defined.

Inductive MtlsClientRegistration : Type :=
| TlsClientAuth (expected : ExpectedSubject)
| SelfSignedTlsClientAuth (registered : list CertificateThumbprint).
#[global] Instance MtlsClientRegistration_eq_dec : EqDecision MtlsClientRegistration.
Proof. solve_decision. Defined.

Record ClientCertificate : Type := {
  cert_thumbprint : CertificateThumbprint;
  cert_subject_dn : option string;
  cert_san_dns : list string;
  cert_san_uri : list string;
  cert_san_ip : list string;
  cert_san_email : list string;
}.

(** ** client.rs *)
Abbreviation ClientId := string (only parsing).

Record SecretHash : Type := { sh_scheme : string; sh_encoded : string }.
#[global] Instance SecretHash_eq_dec : EqDecision SecretHash. Proof. solve_decision. Defined.

Inductive ClientAuth : Type :=
| Public
| ConfidentialSecret (secret : string)
| ConfidentialSecretHash (hash : SecretHash)
| ConfidentialAssertion (keys : AssertionKeys)
| Mtls (registration : MtlsClientRegistration).
#[global] Instance ClientAuth_eq_dec : EqDecision ClientAuth. Proof. solve_decision. Defined.

Record DynamicRegistration : Type := {
  dr_registration_access_token_hash : SecretHash;
  dr_client_id_issued_at : option Z;
  dr_client_secret_expires_at : option Z;
  dr_token_endpoint_auth_method : string;
}.
#[global] Instance DynamicRegistration_eq_dec : EqDecision DynamicRegistration.
Proof. solve_decision. Defined.

Record Client : Type := {
  c_client_id : ClientId;
  c_auth : ClientAuth;
  c_grant_types : list GrantType;
  c_redirect_uris : list string;
  c_allowed_scopes : ScopeSet;
  c_default_scopes : ScopeSet;
  c_name : option string;
  c_registration : option DynamicRegistration;
}.
#[global] Instance Client_eq_dec : EqDecision Client. Proof. solve_decision. Defined.

Definition allows_grant (c : Client) (g : GrantType) : bool := existsb (fun x => x == g) (c_grant_types c).
Definition is_confidential (a : ClientAuth) : bool := match a with Public => false | _ => true end.
Definition is_public (a : ClientAuth) : bool := match a with Public => true | _ => false end.

(** ** rar.rs *)
Record AuthorizationDetail : Type := {
  ad_type : string;
  ad_locations : list string;
  ad_actions : list string;
  ad_datatypes : list string;
  ad_identifier : option string;
  ad_privileges : list string;
  ad_other : list (string * Value);
}.
#[global] Instance AuthorizationDetail_eq_dec : EqDecision AuthorizationDetail.
Proof. solve_decision. Defined.
Abbreviation AuthorizationDetails := (list AuthorizationDetail) (only parsing).

(** ** token_exchange.rs *)
Inductive ActClaim : Type :=
  mkActClaim (sub : string) (client_id : option string) (act : option ActClaim).
#[global] Instance ActClaim_eq_dec : EqDecision ActClaim.
Proof.
  refine (fix go x y : Decision (x = y) :=
    match x, y with
    | mkActClaim s1 c1 a1, mkActClaim s2 c2 a2 =>
        cast_if_and3 (decide (s1 = s2)) (decide (c1 = c2))
          (match a1, a2 return Decision (a1 = a2) with
           | None, None => left eq_refl
           | Some b1, Some b2 => cast_if (go b1 b2)
           | _, _ => right _
           end)
    end); abstract congruence.
Defined.

(** ** consent.rs *)
Record Authentication : Type := { auth_time : SystemTime; acr : option string }.
#[global] Instance Authentication_eq_dec : EqDecision Authentication. Proof. solve_decision. Defined.

Record ConsentRecord : Type := {
  cr_consent_id : string;
  cr_client_id : ClientId;
  cr_subject : string;
  cr_scope : ScopeSet;
  cr_resource : list string;
  cr_granted_at : SystemTime;
  cr_authentication : option Authentication;
}.
#[global] Instance ConsentRecord_eq_dec : EqDecision ConsentRecord. Proof. solve_decision. Defined.

Record AuthenticationRequirement : Type := {
  acr_values : list string;
  max_age : option Duration;
}.
#[global] Instance AuthenticationRequirement_eq_dec : EqDecision AuthenticationRequirement.
Proof. solve_decision. Defined.

(** ** token.rs *)
Inductive TokenType : Type := Bearer | Dpop.
#[global] Instance TokenType_eq_dec : EqDecision TokenType. Proof. solve_decision. Defined.

Record TokenResponse : Type := {
  tr_access_token : string;
  tr_token_type : TokenType;
  tr_expires_in : Z;
  tr_refresh_token : option string;
  tr_scope : option string;
  tr_authorization_details : AuthorizationDetails;
}.
#[global] Instance TokenResponse_eq_dec : EqDecision TokenResponse. Proof. solve_decision. Defined.

Record Confirmation : Type := {
  cnf_jkt : option string;
  cnf_x5t_s256 : option CertificateThumbprint;
}.
#[global] Instance Confirmation_eq_dec : EqDecision Confirmation. Proof. solve_decision. Defined.
Definition cnf_is_empty (c : Confirmation) : bool :=
  if is_some (cnf_jkt c) then false else if is_some (cnf_x5t_s256 c) then false else true.

Inductive TokenTypeHint : Type := HintAccessToken | HintRefreshToken.
#[global] Instance TokenTypeHint_eq_dec : EqDecision TokenTypeHint. Proof. solve_decision. Defined.

Record IntrospectionResponse : Type := {
  ir_active : bool;
  ir_scope : option string;
  ir_client_id : option string;
  ir_sub : option string;
  ir_token_type : option TokenType;
  ir_exp : option Z;
  ir_iat : option Z;
  ir_iss : option string;
  ir_aud : option (list string);
  ir_auth_time : option Z;
  ir_acr : option string;
  ir_authorization_details : AuthorizationDetails;
  ir_cnf : option Confirmation;
  ir_act : option ActClaim;
}.
Definition inactive : IntrospectionResponse := {|
  ir_active := false; ir_scope := None; ir_client_id := None; ir_sub := None;
  ir_token_type := None; ir_exp := None; ir_iat := None; ir_iss := None; ir_aud := None;
  ir_auth_time := None; ir_acr := None; ir_authorization_details := [];
  ir_cnf := None; ir_act := None |}.

Record IssuedToken : Type := {
  it_access_token : string;
  it_client_id : ClientId;
  it_subject : option string;
  it_scope : ScopeSet;
  it_resource : list string;
  it_authorization_details : AuthorizationDetails;
  it_issued_at : SystemTime;
  it_grant_established_at : SystemTime;
  it_expires_at : SystemTime;
  it_jkt : option string;
  it_x5t_s256 : option CertificateThumbprint;
  it_family_id : option string;
  it_act : option ActClaim;
  it_authentication : option Authentication;
}.
#[global] Instance IssuedToken_eq_dec : EqDecision IssuedToken. Proof. solve_decision. Defined.

Inductive RefreshTokenState : Type := Active | Spent.
#[global] Instance RefreshTokenState_eq_dec : EqDecision RefreshTokenState. Proof. solve_decision. Defined.

Record RefreshTokenRetry : Type := {
  rtr_response : TokenResponse;
  rtr_until : SystemTime;
  rtr_jkt : option string;
}.
#[global] Instance RefreshTokenRetry_eq_dec : EqDecision RefreshTokenRetry. Proof. solve_decision. Defined.

Record RefreshTokenRecord : Type := {
  rt_refresh_token : string;
  rt_client_id : ClientId;
  rt_subject : option string;
  rt_scope : ScopeSet;
  rt_resource : list string;
  rt_authorization_details : AuthorizationDetails;
  rt_grant_established_at : SystemTime;
  rt_expires_at : option SystemTime;
  rt_jkt : option string;
  rt_x5t_s256 : option CertificateThumbprint;
  rt_family_id : string;
  rt_state : RefreshTokenState;
  rt_retry : option RefreshTokenRetry;
  rt_authentication : option Authentication;
}.
#[global] Instance RefreshTokenRecord_eq_dec : EqDecision RefreshTokenRecord. Proof. solve_decision. Defined.

(** [RefreshTokenRecord { state, expires_at, retry, ..r }] *)
Definition rt_update (r : RefreshTokenRecord) (state : RefreshTokenState)
    (expires_at : option SystemTime) (retry : option RefreshTokenRetry) : RefreshTokenRecord := {|
  rt_refresh_token := rt_refresh_token r; rt_client_id := rt_client_id r;
  rt_subject := rt_subject r; rt_scope := rt_scope r; rt_resource := rt_resource r;
  rt_authorization_details := rt_authorization_details r;
  rt_grant_established_at := rt_grant_established_at r; rt_expires_at := expires_at;
  rt_jkt := rt_jkt r; rt_x5t_s256 := rt_x5t_s256 r; rt_family_id := rt_family_id r;
  rt_state := state; rt_retry := retry; rt_authentication := rt_authentication r |}.

(** ** authorization.rs *)
Inductive CodeChallengeMethod : Type := S256.
#[global] Instance CodeChallengeMethod_eq_dec : EqDecision CodeChallengeMethod. Proof. solve_decision. Defined.

Record AuthorizationRequest : Type := {
  ar_response_type : option string;
  ar_client_id : option string;
  ar_redirect_uri : option string;
  ar_scope : option string;
  ar_state : option string;
  ar_code_challenge : option string;
  ar_code_challenge_method : option string;
  ar_resource : list string;
  ar_authorization_details : option string;
  ar_acr_values : option string;
  ar_max_age : option string;
  ar_dpop_jkt : option string;
}.

Record ValidatedAuthorizationRequest : Type := {
  va_client_id : ClientId;
  va_redirect_uri : string;
  va_redirect_uri_was_explicit : bool;
  va_scope : ScopeSet;
  va_state : option string;
  va_code_challenge : string;
  va_code_challenge_method : CodeChallengeMethod;
  va_issuer : string;
  va_resource : list string;
  va_authorization_details : AuthorizationDetails;
  va_authentication_requirement : AuthenticationRequirement;
  va_dpop_jkt : option string;
}.

Record AuthorizationResponse : Type := {
  az_code : string;
  az_state : option string;
  az_iss : string;
}.

Record AuthorizationErrorRedirect : Type := {
  aer_redirect_uri : string;
  aer_error : ErrorResponse;
  aer_state : option string;
  aer_iss : string;
}.

Inductive AuthorizationError : Type :=
| Direct (e : ErrorResponse)
| Redirect (r : AuthorizationErrorRedirect).

Inductive AuthorizationCodeState : Type :=
| Issued
| Consumed (access_token refresh_token : option string)
| Replayed (access_token refresh_token : option string).
#[global] Instance AuthorizationCodeState_eq_dec : EqDecision AuthorizationCodeState.
Proof. solve_decision. Defined.

Definition minted (s : AuthorizationCodeState) : option (option string * option string) :=
  match s with
  | Issued => None
  | Consumed a r | Replayed a r => Some (a, r)
  end.

Record AuthorizationCodeRecord : Type := {
  ac_code : string;
  ac_client_id : ClientId;
  ac_redirect_uri : string;
  ac_redirect_uri_was_explicit : bool;
  ac_scope : ScopeSet;
  ac_subject : string;
  ac_code_challenge : string;
  ac_code_challenge_method : CodeChallengeMethod;
  ac_resource : list string;
  ac_authorization_details : AuthorizationDetails;
  ac_issued_at : SystemTime;
  ac_expires_at : SystemTime;
  ac_state : AuthorizationCodeState;
  ac_authentication : option Authentication;
  ac_dpop_jkt : option string;
}.
#[global] Instance AuthorizationCodeRecord_eq_dec : EqDecision AuthorizationCodeRecord.
Proof. solve_decision. Defined.

(** [AuthorizationCodeRecord { state, ..r }] *)
Definition ac_with_state (r : AuthorizationCodeRecord) (state : AuthorizationCodeState)
  : AuthorizationCodeRecord := {|
  ac_code := ac_code r; ac_client_id := ac_client_id r; ac_redirect_uri := ac_redirect_uri r;
  ac_redirect_uri_was_explicit := ac_redirect_uri_was_explicit r; ac_scope := ac_scope r;
  ac_subject := ac_subject r; ac_code_challenge := ac_code_challenge r;
  ac_code_challenge_method := ac_code_challenge_method r; ac_resource := ac_resource r;
  ac_authorization_details := ac_authorization_details r; ac_issued_at := ac_issued_at r;
  ac_expires_at := ac_expires_at r; ac_state := state; ac_authentication := ac_authentication r;
  ac_dpop_jkt := ac_dpop_jkt r |}.

(** ** device.rs *)
Record DeviceAuthorizationResponse : Type := {
  dar_device_code : string;
  dar_user_code : string;
  dar_verification_uri : string;
  dar_verification_uri_complete : option string;
  dar_expires_in : Z;
  dar_interval : Z;
}.

Inductive DeviceGrantState : Type :=
| Pending
| Approved (subject : string)
| Denied.
#[global] Instance DeviceGrantState_eq_dec : EqDecision DeviceGrantState. Proof. solve_decision. Defined.

Record DeviceGrant : Type := {
  dg_device_code : string;
  dg_user_code : string;
  dg_client_id : ClientId;
  dg_scope : ScopeSet;
  dg_state : DeviceGrantState;
  dg_created_at : SystemTime;
  dg_expires_at : SystemTime;
  dg_interval : Duration;
  dg_last_poll_at : option SystemTime;
}.
#[global] Instance DeviceGrant_eq_dec : EqDecision DeviceGrant. Proof. solve_decision. Defined.

(** The three assignments the server makes on a grant it holds. *)
Definition dg_update (g : DeviceGrant) (state : DeviceGrantState) (interval : Duration)
    (last_poll_at : option SystemTime) : DeviceGrant := {|
  dg_device_code := dg_device_code g; dg_user_code := dg_user_code g;
  dg_client_id := dg_client_id g; dg_scope := dg_scope g; dg_state := state;
  dg_created_at := dg_created_at g; dg_expires_at := dg_expires_at g;
  dg_interval := interval; dg_last_poll_at := last_poll_at |}.

(** ** par.rs *)
Record PushedAuthorizationRequest : Type := {
  par_request_uri : string;
  par_client_id : ClientId;
  par_response_type : option string;
  par_redirect_uri : option string;
  par_scope : option string;
  par_state : option string;
  par_code_challenge : option string;
  par_code_challenge_method : option string;
  par_resource : list string;
  par_authorization_details : option string;
  par_acr_values : option string;
  par_max_age : option string;
  par_dpop_jkt : option string;
  par_pushed_at : SystemTime;
  par_expires_at : SystemTime;
}.
#[global] Instance PushedAuthorizationRequest_eq_dec : EqDecision PushedAuthorizationRequest.
Proof. solve_decision. Defined.

(** ** dpop.rs and events.rs *)
Inductive DpopFailure : Type :=
| DFMalformed | DFNotAProof | DFUnsupportedAlgorithm | DFBadProofKey | DFBadSignature
| DFWrongMethod | DFWrongUri | DFStaleProof | DFMissingJti | DFReplayed | DFNotAcceptedHere.
#[global] Instance DpopFailure_eq_dec : EqDecision DpopFailure. Proof. solve_decision. Defined.

Inductive ClientAuthFailure : Type :=
| UnknownClient | SecretMismatch | RateLimited | SecretExpired | NotConfidential
| NoDynamicRegistration | NoCertificatePresented | CertificateMismatch
| AssertionInvalid (reason : AssertionFailure).
#[global] Instance ClientAuthFailure_eq_dec : EqDecision ClientAuthFailure. Proof. solve_decision. Defined.

Inductive Event : Type :=
| ClientAuthenticationFailed (client_id : string) (failure : ClientAuthFailure)
| TokenIssued (client_id : string) (grant_type : GrantType) (subject : option string)
    (scope : ScopeSet) (family_id : option string) (refresh_issued : bool)
| GrantRefused (client_id : string) (grant_type : GrantType) (error : ErrorCode)
| DpopProofRefused (failure : DpopFailure)
| DeviceGrantApproved (client_id subject : string)
| DeviceGrantDenied (client_id : string)
| AuthorizationCodeReplayDetected (client_id : string) (family_id : option string)
    (tokens_revoked containment_failed : bool)
| RefreshTokenReuseDetected (client_id family_id : string) (records_revoked : Z)
    (containment_failed : bool)
| TokenRevoked (client_id : string) (token_type : TokenTypeHint) (cascade_failed : bool)
| ConsentWithdrawn (client_id subject : string) (records_revoked : Z)
| ClientRegistered (client_id : string)
| ClientRegistrationAuthenticationFailed (client_id : string) (failure : ClientAuthFailure)
| ClientRegistrationUpdated (client_id : string)
| ClientRegistrationDeleted (client_id : string)
| ClientRegistrationRefusedByPolicy (client_id : option string).
#[global] Instance Event_eq_dec : EqDecision Event. Proof. solve_decision. Defined.

Inductive Attempt : Type :=
| ClientAuthentication (client_id : string)
| DeviceUserCodeEntry
| AuthorizationRequestAttempt (client_id : string)
| ClientRegistration.
#[global] Instance Attempt_eq_dec : EqDecision Attempt. Proof. solve_decision. Defined.
Inductive RateLimitDecision : Type := Allow | Deny.
#[global] Instance RateLimitDecision_eq_dec : EqDecision RateLimitDecision. Proof. solve_decision. Defined.
Inductive AttemptOutcome : Type := Succeeded | Failed.
#[global] Instance AttemptOutcome_eq_dec : EqDecision AttemptOutcome. Proof. solve_decision. Defined.

(** ** The [serde_json] crate

    [json_from_slice] is [serde_json::from_slice::<Value>], [details_from_str] is
    [serde_json::from_str::<Vec<AuthorizationDetail>>], [json_to_string] is
    [serde_json::to_string] on a [Value]. *)
Class Serde := {
  json_from_slice : string -> option Value;
  details_from_str : string -> option (list AuthorizationDetail);
  json_to_string : Value -> string;
}.
