(* ===== verification/Store.v ===== *)
(** * The storage seam (store.rs)

    [StoreOp] is the [Storage] trait, one constructor per method with the type of
    its answer; [Storage] is the class of its implementations; [MemoryStorage]
    models the bundled implementation over [MemoryInner], each method as the
    function from the locked state to its answer and the state it leaves. *)
From S2P Require Import Prelude Time Codec Scope Types.
Local Open Scope Z_scope.

Record StorageError : Type := { se_message : string }.
#[global] Instance StorageError_eq_dec : EqDecision StorageError. Proof. solve_decision. Defined.

Inductive RevocationBarrier : Type :=
| BClient (client_id : ClientId)
| BTokenFamily (family_id : string)
| BConsent (client_id : ClientId) (subject : string).
#[global] Instance RevocationBarrier_eq_dec : EqDecision RevocationBarrier. Proof. solve_decision. Defined.

Record RevocationWindow : Type := { rw_recorded_at : SystemTime; rw_until : SystemTime }.

Inductive WriteOutcome : Type := Applied | RefusedRevoked.
#[global] Instance WriteOutcome_eq_dec : EqDecision WriteOutcome. Proof. solve_decision. Defined.
Definition is_refused (o : WriteOutcome) : bool :=
  match o with RefusedRevoked => true | Applied => false end.

(** ** The trait *)
Inductive StoreOp : Type -> Type :=
| GetClient (client_id : ClientId) : StoreOp (option Client)
| PutClient (client : Client) : StoreOp unit
| CompareAndSwapClient (expected updated : Client) : StoreOp bool
| DeleteClient (client_id : ClientId) (window : RevocationWindow) : StoreOp bool
| PutDeviceGrant (grant : DeviceGrant) : StoreOp unit
| GetDeviceGrant (device_code : string) : StoreOp (option DeviceGrant)
| FindDeviceGrantByUserCode (normalized_user_code : string) : StoreOp (option DeviceGrant)
| TakeDeviceGrant (device_code : string) : StoreOp (option DeviceGrant)
| CompareAndSwapDeviceGrant (expected : DeviceGrantState) (updated : DeviceGrant) : StoreOp bool
| PutAuthorizationCode (record : AuthorizationCodeRecord) : StoreOp unit
| CompareAndSwapAuthorizationCode (expected : AuthorizationCodeState)
    (updated : AuthorizationCodeRecord) : StoreOp bool
| TakeAuthorizationCode (code : string) : StoreOp (option AuthorizationCodeRecord)
| PutPushedAuthorizationRequest (record : PushedAuthorizationRequest) : StoreOp WriteOutcome
| TakePushedAuthorizationRequest (request_uri : string) : StoreOp (option PushedAuthorizationRequest)
| PutToken (token : IssuedToken) : StoreOp WriteOutcome
| GetToken (access_token : string) : StoreOp (option IssuedToken)
| DeleteToken (access_token : string) : StoreOp unit
| PutRefreshToken (record : RefreshTokenRecord) : StoreOp WriteOutcome
| GetRefreshToken (refresh_token : string) : StoreOp (option RefreshTokenRecord)
| RotateRefreshToken (expected spent : RefreshTokenRecord) (access : IssuedToken)
    (next : option RefreshTokenRecord) : StoreOp bool
| TakeRefreshToken (refresh_token : string) : StoreOp (option RefreshTokenRecord)
| RevokeTokenFamily (family_id : string) (window : RevocationWindow) : StoreOp Z
| PutConsent (record : ConsentRecord) : StoreOp unit
| CompareAndSwapConsent (expected : option ConsentRecord) (updated : ConsentRecord) : StoreOp bool
| GetConsent (consent_id : string) : StoreOp (option ConsentRecord)
| FindConsent (client_id : ClientId) (subject : string) : StoreOp (option ConsentRecord)
| ConsentsForSubject (subject : string) : StoreOp (list ConsentRecord)
| RevokeConsent (consent_id : string) (window : RevocationWindow) : StoreOp Z
| ClaimReplayId (id : string) (expires_at : SystemTime) : StoreOp bool
| SweepExpired (now : SystemTime) : StoreOp Z.

(** An implementation of the trait with state [S]. *)
Class Storage (S : Type) := store_step : forall X, StoreOp X -> S -> result X StorageError * S.
Arguments store_step {S Storage X} op s.

(** [reject_empty_scope] *)
Definition reject_empty_scope (what value : string) : result unit StorageError :=
  if str_is_empty value then
    Err {| se_message := "a revocation needs a non-empty " +:+ what +:+
      "; the empty string does not name an identity a barrier can be recorded for" |}
  else Ok tt.

(** ** Barriers of [MemoryStorage] *)
Record BarrierTimes : Type := { bt_recorded_at : SystemTime; bt_until : SystemTime }.

Definition bt_merge (b : BarrierTimes) (recorded_at until : SystemTime) : BarrierTimes := {|
  bt_until := if until >? bt_until b then until else bt_until b;
  bt_recorded_at := if recorded_at >? bt_recorded_at b then recorded_at else bt_recorded_at b |}.

Definition bt_merge_into (slot : option BarrierTimes) (recorded_at until : SystemTime)
  : option BarrierTimes :=
  match slot with
  | Some existing => Some (bt_merge existing recorded_at until)
  | None => Some {| bt_recorded_at := recorded_at; bt_until := until |}
  end.

Definition bt_covers (b : BarrierTimes) (established : SystemTime) : bool :=
  established <=? bt_recorded_at b.

Record ScopeBarriers : Type := {
  sb_client : option BarrierTimes;
  sb_family : option BarrierTimes;
  sb_consents : gmap string BarrierTimes;
}.
Definition sb_default : ScopeBarriers :=
  {| sb_client := None; sb_family := None; sb_consents := ∅ |}.
Definition sb_is_empty (s : ScopeBarriers) : bool :=
  is_none (sb_client s) && is_none (sb_family s) && bool_decide (sb_consents s = ∅).

(** ** The state *)
Record MemoryInner : Type := {
  mi_clients : gmap string Client;
  mi_device_by_code : gmap string DeviceGrant;
  mi_user_code_index : gmap string string;
  mi_codes : gmap string AuthorizationCodeRecord;
  mi_pushed : gmap string PushedAuthorizationRequest;
  mi_tokens : gmap string IssuedToken;
  mi_refresh : gmap string RefreshTokenRecord;
  mi_consents : gmap string ConsentRecord;
  mi_replay_ids : gmap string SystemTime;
  mi_barriers : gmap string ScopeBarriers;
}.

Definition mi_empty : MemoryInner := {|
  mi_clients := ∅; mi_device_by_code := ∅; mi_user_code_index := ∅; mi_codes := ∅;
  mi_pushed := ∅; mi_tokens := ∅; mi_refresh := ∅; mi_consents := ∅; mi_replay_ids := ∅;
  mi_barriers := ∅ |}.

Definition set_clients (v : gmap string Client) (g : MemoryInner) : MemoryInner :=
  Build_MemoryInner v (mi_device_by_code g) (mi_user_code_index g) (mi_codes g) (mi_pushed g)
    (mi_tokens g) (mi_refresh g) (mi_consents g) (mi_replay_ids g) (mi_barriers g).
Definition set_devices (d : gmap string DeviceGrant) (i : gmap string string) (g : MemoryInner) : MemoryInner :=
  Build_MemoryInner (mi_clients g) d i (mi_codes g) (mi_pushed g)
    (mi_tokens g) (mi_refresh g) (mi_consents g) (mi_replay_ids g) (mi_barriers g).
Definition set_codes (v : gmap string AuthorizationCodeRecord) (g : MemoryInner) : MemoryInner :=
  Build_MemoryInner (mi_clients g) (mi_device_by_code g) (mi_user_code_index g) v (mi_pushed g)
    (mi_tokens g) (mi_refresh g) (mi_consents g) (mi_replay_ids g) (mi_barriers g).
Definition set_pushed (v : gmap string PushedAuthorizationRequest) (g : MemoryInner) : MemoryInner :=
  Build_MemoryInner (mi_clients g) (mi_device_by_code g) (mi_user_code_index g) (mi_codes g) v
    (mi_tokens g) (mi_refresh g) (mi_consents g) (mi_replay_ids g) (mi_barriers g).
Definition set_tokens (v : gmap string IssuedToken) (g : MemoryInner) : MemoryInner :=
  Build_MemoryInner (mi_clients g) (mi_device_by_code g) (mi_user_code_index g) (mi_codes g)
    (mi_pushed g) v (mi_refresh g) (mi_consents g) (mi_replay_ids g) (mi_barriers g).
Definition set_refresh (v : gmap string RefreshTokenRecord) (g : MemoryInner) : MemoryInner :=
  Build_MemoryInner (mi_clients g) (mi_device_by_code g) (mi_user_code_index g) (mi_codes g)
    (mi_pushed g) (mi_tokens g) v (mi_consents g) (mi_replay_ids g) (mi_barriers g).
Definition set_consents (v : gmap string ConsentRecord) (g : MemoryInner) : MemoryInner :=
  Build_MemoryInner (mi_clients g) (mi_device_by_code g) (mi_user_code_index g) (mi_codes g)
    (mi_pushed g) (mi_tokens g) (mi_refresh g) v (mi_replay_ids g) (mi_barriers g).
Definition set_replay_ids (v : gmap string SystemTime) (g : MemoryInner) : MemoryInner :=
  Build_MemoryInner (mi_clients g) (mi_device_by_code g) (mi_user_code_index g) (mi_codes g)
    (mi_pushed g) (mi_tokens g) (mi_refresh g) (mi_consents g) v (mi_barriers g).
Definition set_barriers (v : gmap string ScopeBarriers) (g : MemoryInner) : MemoryInner :=
  Build_MemoryInner (mi_clients g) (mi_device_by_code g) (mi_user_code_index g) (mi_codes g)
    (mi_pushed g) (mi_tokens g) (mi_refresh g) (mi_consents g) (mi_replay_ids g) v.

(** [HashMap::retain] on the values. *)
Definition retain {V} (p : V -> bool) (m : gmap string V) : gmap string V :=
  filter (fun kv => p (snd kv) = true) m.

(** [HashMap::len] *)
Definition hlen {V} (m : gmap string V) : Z := Z.of_nat (size m).

(** [MemoryInner::is_revoked] *)
Definition is_revoked (g : MemoryInner) (client_id : ClientId) (family_id : option string)
    (subject : option string) (grant_established_at : SystemTime) : bool :=
  match mi_barriers g !! client_id with
  | Some scopes =>
      is_some_and (sb_client scopes) (fun t =>
        bt_covers t grant_established_at || is_none (mi_clients g !! client_id))
      || match subject with
         | Some subject =>
             is_some_and (sb_consents scopes !! subject) (fun t => bt_covers t grant_established_at)
         | None => false
         end
  | None => false
  end
  || is_some_and family_id (fun f =>
       is_some_and (mi_barriers g !! f) (fun scopes => is_some (sb_family scopes))).

(** [MemoryInner::record_barrier] *)
Definition record_barrier (barrier : RevocationBarrier) (recorded_at until : SystemTime)
    (g : MemoryInner) : MemoryInner :=
  let entry k := unwrap_or (mi_barriers g !! k) sb_default in
  match barrier with
  | BClient client_id =>
      let e := entry client_id in
      set_barriers (<[client_id := {| sb_client := bt_merge_into (sb_client e) recorded_at until;
                                      sb_family := sb_family e; sb_consents := sb_consents e |}]>
                      (mi_barriers g)) g
  | BTokenFamily family_id =>
      let e := entry family_id in
      set_barriers (<[family_id := {| sb_client := sb_client e;
                                      sb_family := bt_merge_into (sb_family e) recorded_at until;
                                      sb_consents := sb_consents e |}]> (mi_barriers g)) g
  | BConsent client_id subject =>
      let e := entry client_id in
      let t := unwrap_or (sb_consents e !! subject)
                 {| bt_recorded_at := recorded_at; bt_until := until |} in
      set_barriers (<[client_id := {| sb_client := sb_client e; sb_family := sb_family e;
                                      sb_consents := <[subject := bt_merge t recorded_at until]>
                                                       (sb_consents e) |}]> (mi_barriers g)) g
  end.

(** The user codes whose grant is gone, and their removal from the index. *)
Definition stale_user_codes (live : gmap string DeviceGrant) (index : gmap string string) : list string :=
  map fst (List.filter (fun kv => is_none (live !! snd kv)) (map_to_list index)).
Definition prune_index (live : gmap string DeviceGrant) (index : gmap string string) : gmap string string :=
  foldr delete index (stale_user_codes live index).

(** The iteration order of a [HashMap] is unspecified: it is a parameter, an
    arbitrary permutation of the values. *)
Class HashOrder := {
  hash_values : gmap string ConsentRecord -> list ConsentRecord;
  hash_values_perm : forall m, hash_values m ≡ₚ (map_to_list m).*2;
}.

(** ** [impl Storage for MemoryStorage] *)
Module MemoryStorage.
Section methods.
Context `{HashOrder}.

Definition get_client (client_id : ClientId) (g : MemoryInner)
  : result (option Client) StorageError * MemoryInner := (Ok (mi_clients g !! client_id), g).

Definition put_client (client : Client) (g : MemoryInner) : result unit StorageError * MemoryInner :=
  (Ok tt, set_clients (<[c_client_id client := client]> (mi_clients g)) g).

Definition compare_and_swap_client (expected updated : Client) (g : MemoryInner)
  : result bool StorageError * MemoryInner :=
  match mi_clients g !! c_client_id updated with
  | Some current =>
      if current == expected
      then (Ok true, set_clients (<[c_client_id updated := updated]> (mi_clients g)) g)
      else (Ok false, g)
  | None => (Ok false, g)
  end.

Definition delete_client (client_id : ClientId) (window : RevocationWindow) (g : MemoryInner)
  : result bool StorageError * MemoryInner :=
  match reject_empty_scope "client_id" client_id with
  | Err e => (Err e, g)
  | Ok _ =>
      let existed := is_some (mi_clients g !! client_id) in
      let g := set_clients (delete client_id (mi_clients g)) g in
      let g := record_barrier (BClient client_id) (rw_recorded_at window) (rw_until window) g in
      let g := set_tokens (retain (fun t => it_client_id t != client_id) (mi_tokens g)) g in
      let g := set_refresh (retain (fun r => rt_client_id r != client_id) (mi_refresh g)) g in
      let g := set_codes (retain (fun c => ac_client_id c != client_id) (mi_codes g)) g in
      let g := set_pushed (retain (fun p => par_client_id p != client_id) (mi_pushed g)) g in
      let g := set_devices (retain (fun d => dg_client_id d != client_id) (mi_device_by_code g))
                 (mi_user_code_index g) g in
      let g := set_consents (retain (fun c => cr_client_id c != client_id) (mi_consents g)) g in
      let g := set_devices (mi_device_by_code g)
                 (prune_index (mi_device_by_code g) (mi_user_code_index g)) g in
      (Ok existed, g)
  end.

Definition user_code_taken : StorageError :=
  {| se_message := "user code is already indexed for a different device_code" |}.

(** The tail shared by [put_device_grant] and [compare_and_swap_device_grant]:
    refuse a code indexed for another device, retire the previous index entry,
    then write the index and the grant. *)
Definition write_device_grant (grant : DeviceGrant) (g : MemoryInner) : option MemoryInner :=
  let normalized := UserCode.normalize_user_code (dg_user_code grant) in
  if is_some_and (mi_user_code_index g !! normalized) (fun owner => owner != dg_device_code grant)
  then None
  else
    let index :=
      match mi_device_by_code g !! dg_device_code grant with
      | Some previous =>
          let previous_normalized := UserCode.normalize_user_code (dg_user_code previous) in
          if previous_normalized != normalized
          then delete previous_normalized (mi_user_code_index g)
          else mi_user_code_index g
      | None => mi_user_code_index g
      end in
    Some (set_devices (<[dg_device_code grant := grant]> (mi_device_by_code g))
            (<[normalized := dg_device_code grant]> index) g).

Definition put_device_grant (grant : DeviceGrant) (g : MemoryInner)
  : result unit StorageError * MemoryInner :=
  match write_device_grant grant g with
  | None => (Err user_code_taken, g)
  | Some g' => (Ok tt, g')
  end.

Definition get_device_grant (device_code : string) (g : MemoryInner)
  : result (option DeviceGrant) StorageError * MemoryInner :=
  (Ok (mi_device_by_code g !! device_code), g).

Definition find_device_grant_by_user_code (normalized_user_code : string) (g : MemoryInner)
  : result (option DeviceGrant) StorageError * MemoryInner :=
  (Ok (mi_user_code_index g !! normalized_user_code ≫= (fun dc => mi_device_by_code g !! dc)), g).

Definition take_device_grant (device_code : string) (g : MemoryInner)
  : result (option DeviceGrant) StorageError * MemoryInner :=
  match mi_device_by_code g !! device_code with
  | Some grant =>
      (Ok (Some grant),
       set_devices (delete device_code (mi_device_by_code g))
         (delete (UserCode.normalize_user_code (dg_user_code grant)) (mi_user_code_index g)) g)
  | None => (Ok None, g)
  end.

Definition compare_and_swap_device_grant (expected : DeviceGrantState) (updated : DeviceGrant)
    (g : MemoryInner) : result bool StorageError * MemoryInner :=
  match mi_device_by_code g !! dg_device_code updated with
  | Some current =>
      if dg_state current == expected then
        match write_device_grant updated g with
        | None => (Err user_code_taken, g)
        | Some g' => (Ok true, g')
        end
      else (Ok false, g)
  | None => (Ok false, g)
  end.

Definition put_authorization_code (record : AuthorizationCodeRecord) (g : MemoryInner)
  : result unit StorageError * MemoryInner :=
  (Ok tt, set_codes (<[ac_code record := record]> (mi_codes g)) g).

Definition compare_and_swap_authorization_code (expected : AuthorizationCodeState)
    (updated : AuthorizationCodeRecord) (g : MemoryInner) : result bool StorageError * MemoryInner :=
  match mi_codes g !! ac_code updated with
  | Some current =>
      if ac_state current == expected
      then (Ok true, set_codes (<[ac_code updated := updated]> (mi_codes g)) g)
      else (Ok false, g)
  | None => (Ok false, g)
  end.

Definition take_authorization_code (code : string) (g : MemoryInner)
  : result (option AuthorizationCodeRecord) StorageError * MemoryInner :=
  (Ok (mi_codes g !! code), set_codes (delete code (mi_codes g)) g).

Definition put_pushed_authorization_request (record : PushedAuthorizationRequest) (g : MemoryInner)
  : result WriteOutcome StorageError * MemoryInner :=
  if is_revoked g (par_client_id record) None None (par_pushed_at record)
  then (Ok RefusedRevoked, g)
  else (Ok Applied, set_pushed (<[par_request_uri record := record]> (mi_pushed g)) g).

Definition take_pushed_authorization_request (request_uri : string) (g : MemoryInner)
  : result (option PushedAuthorizationRequest) StorageError * MemoryInner :=
  (Ok (mi_pushed g !! request_uri), set_pushed (delete request_uri (mi_pushed g)) g).

Definition put_token (token : IssuedToken) (g : MemoryInner)
  : result WriteOutcome StorageError * MemoryInner :=
  if is_revoked g (it_client_id token) (it_family_id token) (it_subject token)
       (it_grant_established_at token)
  then (Ok RefusedRevoked, g)
  else (Ok Applied, set_tokens (<[it_access_token token := token]> (mi_tokens g)) g).

Definition get_token (access_token : string) (g : MemoryInner)
  : result (option IssuedToken) StorageError * MemoryInner := (Ok (mi_tokens g !! access_token), g).

Definition delete_token (access_token : string) (g : MemoryInner)
  : result unit StorageError * MemoryInner :=
  (Ok tt, set_tokens (delete access_token (mi_tokens g)) g).

Definition put_refresh_token (record : RefreshTokenRecord) (g : MemoryInner)
  : result WriteOutcome StorageError * MemoryInner :=
  if is_revoked g (rt_client_id record) (Some (rt_family_id record)) (rt_subject record)
       (rt_grant_established_at record)
  then (Ok RefusedRevoked, g)
  else (Ok Applied, set_refresh (<[rt_refresh_token record := record]> (mi_refresh g)) g).

Definition get_refresh_token (refresh_token : string) (g : MemoryInner)
  : result (option RefreshTokenRecord) StorageError * MemoryInner :=
  (Ok (mi_refresh g !! refresh_token), g).

Definition rotate_refresh_token (expected spent : RefreshTokenRecord) (access : IssuedToken)
    (next : option RefreshTokenRecord) (g : MemoryInner) : result bool StorageError * MemoryInner :=
  if (mi_refresh g !! rt_refresh_token expected != Some expected)
     || is_revoked g (rt_client_id expected) (Some (rt_family_id expected)) (rt_subject expected)
          (rt_grant_established_at expected)
  then (Ok false, g)
  else
    let g := set_refresh (<[rt_refresh_token spent := spent]> (mi_refresh g)) g in
    let g := set_tokens (<[it_access_token access := access]> (mi_tokens g)) g in
    let g := match next with
             | Some next => set_refresh (<[rt_refresh_token next := next]> (mi_refresh g)) g
             | None => g
             end in
    (Ok true, g).

Definition take_refresh_token (refresh_token : string) (g : MemoryInner)
  : result (option RefreshTokenRecord) StorageError * MemoryInner :=
  (Ok (mi_refresh g !! refresh_token), set_refresh (delete refresh_token (mi_refresh g)) g).

Definition revoke_token_family (family_id : string) (window : RevocationWindow) (g : MemoryInner)
  : result Z StorageError * MemoryInner :=
  match reject_empty_scope "family_id" family_id with
  | Err e => (Err e, g)
  | Ok _ =>
      let g := record_barrier (BTokenFamily family_id) (rw_recorded_at window) (rw_until window) g in
      let before := hlen (mi_tokens g) + hlen (mi_refresh g) in
      let g := set_tokens (retain (fun t => it_family_id t != Some family_id) (mi_tokens g)) g in
      let g := set_refresh (retain (fun r => rt_family_id r != family_id) (mi_refresh g)) g in
      (Ok (before - (hlen (mi_tokens g) + hlen (mi_refresh g))), g)
  end.

Definition put_consent (record : ConsentRecord) (g : MemoryInner)
  : result unit StorageError * MemoryInner :=
  (Ok tt, set_consents (<[cr_consent_id record := record]> (mi_consents g)) g).

Definition find_values (client_id : ClientId) (subject : string) (g : MemoryInner)
  : option ConsentRecord :=
  List.find (fun c => (cr_client_id c == client_id) && (cr_subject c == subject))
    (hash_values (mi_consents g)).

Definition compare_and_swap_consent (expected : option ConsentRecord) (updated : ConsentRecord)
    (g : MemoryInner) : result bool StorageError * MemoryInner :=
  let current := find_values (cr_client_id updated) (cr_subject updated) g in
  let write := set_consents (<[cr_consent_id updated := updated]> (mi_consents g)) g in
  match current, expected with
  | Some live, Some expected => if live == expected then (Ok true, write) else (Ok false, g)
  | None, None => (Ok true, write)
  | _, _ => (Ok false, g)
  end.

Definition get_consent (consent_id : string) (g : MemoryInner)
  : result (option ConsentRecord) StorageError * MemoryInner := (Ok (mi_consents g !! consent_id), g).

Definition find_consent (client_id : ClientId) (subject : string) (g : MemoryInner)
  : result (option ConsentRecord) StorageError * MemoryInner :=
  (Ok (find_values client_id subject g), g).

Definition consents_for_subject (subject : string) (g : MemoryInner)
  : result (list ConsentRecord) StorageError * MemoryInner :=
  (Ok (List.filter (fun c => cr_subject c == subject) (hash_values (mi_consents g))), g).

Definition approved_by (subject : string) (s : DeviceGrantState) : bool :=
  match s with Approved s' => s' == subject | _ => false end.

Definition revoke_consent (consent_id : string) (window : RevocationWindow) (g : MemoryInner)
  : result Z StorageError * MemoryInner :=
  match mi_consents g !! consent_id with
  | None => (Ok 0, g)
  | Some consent =>
      let client_id := cr_client_id consent in
      let subject := cr_subject consent in
      match reject_empty_scope "client_id" client_id with
      | Err e => (Err e, g)
      | Ok _ =>
      match reject_empty_scope "subject" subject with
      | Err e => (Err e, g)
      | Ok _ =>
          let g := set_consents (delete consent_id (mi_consents g)) g in
          let g := record_barrier (BConsent client_id subject)
                     (rw_recorded_at window) (rw_until window) g in
          let total g := hlen (mi_tokens g) + hlen (mi_refresh g) + hlen (mi_codes g)
                         + hlen (mi_device_by_code g) in
          let before := total g in
          let g := set_tokens (retain (fun t =>
                     negb ((it_client_id t == client_id) && (it_subject t == Some subject)))
                     (mi_tokens g)) g in
          let g := set_refresh (retain (fun r =>
                     negb ((rt_client_id r == client_id) && (rt_subject r == Some subject)))
                     (mi_refresh g)) g in
          let g := set_codes (retain (fun c =>
                     negb ((ac_client_id c == client_id) && (ac_subject c == subject)))
                     (mi_codes g)) g in
          let g := set_devices (retain (fun d =>
                     negb ((dg_client_id d == client_id) && approved_by subject (dg_state d)))
                     (mi_device_by_code g)) (mi_user_code_index g) g in
          let g := set_devices (mi_device_by_code g)
                     (prune_index (mi_device_by_code g) (mi_user_code_index g)) g in
          (Ok (before - total g), g)
      end
      end
  end.

Definition claim_replay_id (id : string) (expires_at : SystemTime) (g : MemoryInner)
  : result bool StorageError * MemoryInner :=
  if is_some (mi_replay_ids g !! id) then (Ok false, g)
  else (Ok true, set_replay_ids (<[id := expires_at]> (mi_replay_ids g)) g).

(** One entry of the barrier sweep: what is left of it, and how many were reaped. *)
Definition sweep_scopes (now : SystemTime) (s : ScopeBarriers) : ScopeBarriers * Z :=
  let dead t := now >=? bt_until t in
  let client := if is_some_and (sb_client s) dead then (None, 1) else (sb_client s, 0) in
  let family := if is_some_and (sb_family s) dead then (None, 1) else (sb_family s, 0) in
  let consents := retain (fun t => now <? bt_until t) (sb_consents s) in
  ({| sb_client := fst client; sb_family := fst family; sb_consents := consents |},
   snd client + snd family + (hlen (sb_consents s) - hlen consents)).

Definition sweep_barriers (now : SystemTime) (m : gmap string ScopeBarriers)
  : gmap string ScopeBarriers * Z :=
  (omap (fun s => let s' := fst (sweep_scopes now s) in
                  if sb_is_empty s' then None else Some s') m,
   map_fold (fun _ s acc => snd (sweep_scopes now s) + acc) 0 m).

Definition live_refresh (now : SystemTime) (r : RefreshTokenRecord) : bool :=
  match rt_expires_at r with Some exp => now <? exp | None => true end.

Definition sweep_expired (now : SystemTime) (g : MemoryInner) : result Z StorageError * MemoryInner :=
  let devices := retain (fun d => now <? dg_expires_at d) (mi_device_by_code g) in
  let index := prune_index devices (mi_user_code_index g) in
  let codes := retain (fun c => now <? ac_expires_at c) (mi_codes g) in
  let pushed := retain (fun p => now <? par_expires_at p) (mi_pushed g) in
  let tokens := retain (fun t => now <? it_expires_at t) (mi_tokens g) in
  let refresh := retain (live_refresh now) (mi_refresh g) in
  let replay_ids := retain (fun exp => now <? exp) (mi_replay_ids g) in
  let '(barriers, reaped) := sweep_barriers now (mi_barriers g) in
  (Ok ((hlen (mi_device_by_code g) - hlen devices) + (hlen (mi_codes g) - hlen codes)
       + (hlen (mi_pushed g) - hlen pushed) + (hlen (mi_tokens g) - hlen tokens)
       + (hlen (mi_refresh g) - hlen refresh) + (hlen (mi_replay_ids g) - hlen replay_ids)
       + reaped),
   {| mi_clients := mi_clients g; mi_device_by_code := devices; mi_user_code_index := index;
      mi_codes := codes; mi_pushed := pushed; mi_tokens := tokens; mi_refresh := refresh;
      mi_consents := mi_consents g; mi_replay_ids := replay_ids; mi_barriers := barriers |}).

Definition step (X : Type) (op : StoreOp X) : MemoryInner -> result X StorageError * MemoryInner :=
  match op with
  | GetClient c => get_client c
  | PutClient c => put_client c
  | CompareAndSwapClient e u => compare_and_swap_client e u
  | DeleteClient c w => delete_client c w
  | PutDeviceGrant d => put_device_grant d
  | GetDeviceGrant d => get_device_grant d
  | FindDeviceGrantByUserCode u => find_device_grant_by_user_code u
  | TakeDeviceGrant d => take_device_grant d
  | CompareAndSwapDeviceGrant e u => compare_and_swap_device_grant e u
  | PutAuthorizationCode r => put_authorization_code r
  | CompareAndSwapAuthorizationCode e u => compare_and_swap_authorization_code e u
  | TakeAuthorizationCode c => take_authorization_code c
  | PutPushedAuthorizationRequest r => put_pushed_authorization_request r
  | TakePushedAuthorizationRequest u => take_pushed_authorization_request u
  | PutToken t => put_token t
  | GetToken t => get_token t
  | DeleteToken t => delete_token t
  | PutRefreshToken r => put_refresh_token r
  | GetRefreshToken r => get_refresh_token r
  | RotateRefreshToken e s a n => rotate_refresh_token e s a n
  | TakeRefreshToken r => take_refresh_token r
  | RevokeTokenFamily f w => revoke_token_family f w
  | PutConsent c => put_consent c
  | CompareAndSwapConsent e u => compare_and_swap_consent e u
  | GetConsent c => get_consent c
  | FindConsent c s => find_consent c s
  | ConsentsForSubject s => consents_for_subject s
  | RevokeConsent c w => revoke_consent c w
  | ClaimReplayId i e => claim_replay_id i e
  | SweepExpired n => sweep_expired n
  end.

End methods.
End MemoryStorage.

#[export] Instance memory_storage `{HashOrder} : Storage MemoryInner := MemoryStorage.step.
