(* ===== verification/StoreFacts.v ===== *)
(** * What the store guarantees

    Theorems on [MemoryStorage] over sequences of operations: the key and index
    invariant, the finality of a revocation, the single use of a replay id and of
    an authorization code, the sweep, and the cascade of a client deletion.  The
    barrier table is related to a flat table of barriers, the abstract state the
    trait's documentation speaks of. *)
From S2P Require Import Prelude Time Codec Scope Types Store.
Local Open Scope Z_scope.

(** ** Tables *)
Lemma lookup_retain_Some {V} p (m : gmap string V) k v :
  retain p m !! k = Some v <-> m !! k = Some v /\ p v = true.
Proof. unfold retain. by rewrite map_lookup_filter_Some. Qed.

Lemma lookup_retain_keep {V} p (m : gmap string V) k v :
  m !! k = Some v -> p v = true -> retain p m !! k = Some v.
Proof. intros. by apply lookup_retain_Some. Qed.

Lemma lookup_retain {V} p (m : gmap string V) k :
  retain p m !! k = (v ← m !! k; if (p v : bool) then Some v else None).
Proof.
  apply option_eq; intros v. rewrite lookup_retain_Some.
  destruct (m !! k) as [w|]; cbn; [|by split; [intros []|]].
  destruct (p w) eqn:?; split; [by intros []|by intros [= ->]|intros []; congruence|done].
Qed.

Lemma retain_all {V} p (m : gmap string V) :
  (forall k v, m !! k = Some v -> p v = true) -> retain p m = m.
Proof. intros Hall. apply map_filter_id. naive_solver. Qed.

Lemma lookup_prune_index live index u :
  prune_index live index !! u =
    (dc ← index !! u; if is_some (live !! dc) then Some dc else None).
Proof.
  unfold prune_index, stale_user_codes.
  assert (Hfold : forall l (m : gmap string string),
    foldr delete m l !! u = if bool_decide (u ∈ l) then None else m !! u).
  { induction l as [|x l IH]; intros m; cbn [foldr]; [done|].
    destruct (decide (x = u)) as [->|Hne].
    - rewrite lookup_delete_eq, bool_decide_eq_true_2 by set_solver. done.
    - rewrite lookup_delete_ne, IH by done.
      rewrite (bool_decide_ext (u ∈ x :: l) (u ∈ l)) by set_solver. done. }
  rewrite Hfold. case_bool_decide as Hin.
  - apply list_elem_of_fmap in Hin as ([u' dc] & -> & Hin).
    apply list_elem_of_In, filter_In in Hin as [Hin Hdead]; cbn in *.
    apply list_elem_of_In, elem_of_map_to_list in Hin. rewrite Hin; cbn.
    unfold is_none in Hdead. by destruct (is_some _).
  - destruct (index !! u) as [dc|] eqn:Hu; cbn; [|done].
    destruct (is_some (live !! dc)) eqn:Hl; [done|]. exfalso. apply Hin.
    apply list_elem_of_fmap. exists (u, dc). split; [done|].
    apply list_elem_of_In, filter_In. split; cbn; [|by unfold is_none; rewrite Hl].
    by apply list_elem_of_In, elem_of_map_to_list.
Qed.

(** ** The flat table of barriers *)
Definition barrier_at (g : MemoryInner) (b : RevocationBarrier) : option BarrierTimes :=
  match b with
  | BClient c => mi_barriers g !! c ≫= sb_client
  | BTokenFamily f => mi_barriers g !! f ≫= sb_family
  | BConsent c s => mi_barriers g !! c ≫= (fun e => sb_consents e !! s)
  end.

Lemma is_revoked_spec g c f s t :
  is_revoked g c f s t = true <->
    (exists b, barrier_at g (BClient c) = Some b /\
               (t <= bt_recorded_at b \/ mi_clients g !! c = None)) \/
    (exists s' b, s = Some s' /\ barrier_at g (BConsent c s') = Some b /\ t <= bt_recorded_at b) \/
    (exists f', f = Some f' /\ is_Some (barrier_at g (BTokenFamily f'))).
Proof.
  unfold is_revoked, barrier_at, bt_covers. rewrite orb_true_iff, is_some_and_true.
  assert (Hfam : (exists a, f = Some a /\
            is_some_and (mi_barriers g !! a) (fun sc => is_some (sb_family sc)) = true) <->
          (exists f', f = Some f' /\ is_Some (mi_barriers g !! f' ≫= sb_family))).
  { f_equiv; intros f'. rewrite is_some_and_true. setoid_rewrite is_some_true.
    destruct (mi_barriers g !! f'); cbn; split; [naive_solver| |naive_solver|]; intros [? Hx].
    - naive_solver.
    - by apply is_Some_None in Hx. }
  rewrite Hfam. destruct (mi_barriers g !! c) as [e|]; cbn; [|naive_solver].
  rewrite orb_true_iff, is_some_and_true.
  assert (Hcl : (exists a, sb_client e = Some a /\
            (t <=? bt_recorded_at a) || is_none (mi_clients g !! c) = true) <->
          (exists b, sb_client e = Some b /\ (t <= bt_recorded_at b \/ mi_clients g !! c = None))).
  { f_equiv; intros b. rewrite orb_true_iff, Z.leb_le. unfold is_none.
    destruct (mi_clients g !! c); cbn; naive_solver. }
  rewrite Hcl.
  assert (Hsub : match s with
                 | Some s' => is_some_and (sb_consents e !! s') (fun x => t <=? bt_recorded_at x)
                 | None => false end = true <->
    (exists s' b, s = Some s' /\ sb_consents e !! s' = Some b /\ t <= bt_recorded_at b)).
  { destruct s as [s'|]; [|naive_solver]. rewrite is_some_and_true. setoid_rewrite Z.leb_le.
    naive_solver. }
  rewrite Hsub. tauto.
Qed.

(** Recording a barrier changes that barrier alone, and never weakens it. *)
Lemma barrier_at_record_barrier b b' r u g :
  barrier_at (record_barrier b r u g) b' =
    if decide (b = b') then bt_merge_into (barrier_at g b) r u else barrier_at g b'.
Proof.
  assert (Hself : forall x, bt_merge {| bt_recorded_at := r; bt_until := x |} r x
            = {| bt_recorded_at := r; bt_until := x |}).
  { intros x. unfold bt_merge; cbn. by repeat case_match. }
  destruct (decide (b = b')) as [->|Hne].
  - destruct b' as [c|f|c s]; cbn; rewrite lookup_insert_eq; cbn.
    + by destruct (mi_barriers g !! c).
    + by destruct (mi_barriers g !! f).
    + rewrite lookup_insert_eq. destruct (mi_barriers g !! c) as [e|]; cbn.
      * destruct (sb_consents e !! s); cbn; [done|]. by rewrite Hself.
      * rewrite lookup_empty; cbn. by rewrite Hself.
  - destruct b as [c|f|c s], b' as [c'|f'|c' s']; cbn.
    all: match goal with |- <[?k := _]> _ !! ?k' ≫= _ = _ =>
           destruct (decide (k = k')) as [->|]; [|by rewrite lookup_insert_ne] end.
    all: rewrite lookup_insert_eq; cbn.
    all: try match goal with |- context [mi_barriers ?g0 !! ?k] =>
           destruct (mi_barriers g0 !! k) as [e|]; cbn; try done; try by rewrite lookup_empty end.
    all: rewrite lookup_insert_ne by congruence; done || by rewrite lookup_empty.
Qed.

Lemma bt_merge_into_ge slot r u : exists t, bt_merge_into slot r u = Some t /\
  r <= bt_recorded_at t /\ u <= bt_until t /\
  (forall t0, slot = Some t0 -> bt_recorded_at t0 <= bt_recorded_at t /\ bt_until t0 <= bt_until t).
Proof.
  destruct slot as [t0|]; cbn; eexists; split_and!; try done; cbn; repeat case_match;
    bools; intros; simplify_eq; lia.
Qed.

Lemma record_barrier_tables b r u g :
  let g' := record_barrier b r u g in
  mi_clients g' = mi_clients g /\ mi_tokens g' = mi_tokens g /\ mi_refresh g' = mi_refresh g /\
  mi_codes g' = mi_codes g /\ mi_pushed g' = mi_pushed g /\ mi_consents g' = mi_consents g /\
  mi_device_by_code g' = mi_device_by_code g /\ mi_user_code_index g' = mi_user_code_index g /\
  mi_replay_ids g' = mi_replay_ids g.
Proof. by destruct b. Qed.

(** What the sweep leaves of one slot. *)
Definition live_slot (now : SystemTime) (slot : option BarrierTimes) : option BarrierTimes :=
  t ← slot; if now <? bt_until t then Some t else None.

Lemma sweep_slot now (slot : option BarrierTimes) :
  (if is_some_and slot (fun t => now >=? bt_until t) then (None, 1) else (slot, 0)) =
  (live_slot now slot, if is_some slot && is_none (live_slot now slot) then 1 else 0).
Proof.
  destruct slot as [t|]; cbn; [|done].
  rewrite Z.geb_leb, Z.ltb_antisym. by destruct (bt_until t <=? now).
Qed.

Lemma sb_is_empty_true e : sb_is_empty e = true -> e = sb_default.
Proof.
  destruct e as [[c|] [f|] m]; unfold sb_is_empty; cbn; try done.
  case_bool_decide; naive_solver.
Qed.

(** A sweep drops exactly the barriers whose time has come. *)
Lemma barrier_at_sweep `{HashOrder} now g b :
  barrier_at (snd (MemoryStorage.sweep_expired now g)) b = live_slot now (barrier_at g b).
Proof.
  assert (Hdrop : forall {A} (p : ScopeBarriers -> option A) e, p sb_default = None ->
    (if sb_is_empty e then None else Some e) ≫= p = p e).
  { intros A p e Hp. destruct (sb_is_empty e) eqn:He; [|done]. by apply sb_is_empty_true in He as ->. }
  unfold MemoryStorage.sweep_expired, MemoryStorage.sweep_barriers; cbn.
  destruct b as [c|f|c s]; cbn; rewrite lookup_omap.
  all: match goal with |- context [mi_barriers ?g0 !! ?k] =>
         destruct (mi_barriers g0 !! k) as [e|]; cbn; [|done] end.
  all: rewrite Hdrop by done; rewrite ?sweep_slot; try done.
  apply lookup_retain.
Qed.

(** ** Sequences of operations *)
Definition AnyOp : Type := { X : Type & StoreOp X }.
Definition any {X} (op : StoreOp X) : AnyOp := existT X op.

(** Case analysis on one operation that leaves the tables a goal speaks of alone. *)
Ltac frame :=
  cbn [projT1 projT2 MemoryStorage.step snd];
  try unfold MemoryStorage.compare_and_swap_client; try unfold MemoryStorage.delete_client;
  try unfold MemoryStorage.put_device_grant; try unfold MemoryStorage.take_device_grant;
  try unfold MemoryStorage.compare_and_swap_device_grant; try unfold MemoryStorage.write_device_grant;
  try unfold MemoryStorage.compare_and_swap_authorization_code;
  try unfold MemoryStorage.put_pushed_authorization_request;
  try unfold MemoryStorage.put_token; try unfold MemoryStorage.put_refresh_token;
  try unfold MemoryStorage.rotate_refresh_token; try unfold MemoryStorage.revoke_token_family;
  try unfold MemoryStorage.compare_and_swap_consent; try unfold MemoryStorage.revoke_consent;
  try unfold MemoryStorage.claim_replay_id;
  try done; repeat (case_match; simplify_eq/=; try done).

Section traces.
Context `{HashOrder}.

Definition run_op (o : AnyOp) (g : MemoryInner) : MemoryInner :=
  snd (MemoryStorage.step (projT1 o) (projT2 o) g).
Definition run_ops (ops : list AnyOp) (g : MemoryInner) : MemoryInner :=
  foldl (fun g o => run_op o g) g ops.

Lemma run_ops_invariant (I : MemoryInner -> Prop) (P : AnyOp -> Prop) ops : forall g,
  (forall o g, P o -> I g -> I (run_op o g)) -> Forall P ops -> I g -> I (run_ops ops g).
Proof.
  induction ops as [|o ops IH]; intros g Hstep HP Hg; [done|].
  inversion HP; subst. apply (IH (run_op o g)); auto.
Qed.

(** An operation is coherent when a rotation replaces a refresh token by records
    of the same grant: the family, the client, the subject and the instant the
    grant was established carry over. *)
Definition same_grant_refresh (e r : RefreshTokenRecord) : Prop :=
  rt_client_id r = rt_client_id e /\ rt_family_id r = rt_family_id e /\
  rt_subject r = rt_subject e /\ rt_grant_established_at r = rt_grant_established_at e.
Definition same_grant_access (e : RefreshTokenRecord) (t : IssuedToken) : Prop :=
  it_client_id t = rt_client_id e /\ it_family_id t = Some (rt_family_id e) /\
  it_subject t = rt_subject e /\ it_grant_established_at t = rt_grant_established_at e.
Definition coherent (o : AnyOp) : Prop :=
  match projT2 o with
  | RotateRefreshToken e s a n =>
      same_grant_refresh e s /\ same_grant_access e a /\ (forall r, n = Some r -> same_grant_refresh e r)
  | _ => True
  end.

(** No sweep of the trace runs at or after [until]. *)
Definition sweeps_before (until : SystemTime) (o : AnyOp) : Prop :=
  match projT2 o with SweepExpired now => now < until | _ => True end.

(** The records a barrier recorded at [at_] speaks of. *)
Definition covered (b : RevocationBarrier) (at_ : SystemTime)
    (c : ClientId) (f s : option string) (t : SystemTime) : Prop :=
  match b with
  | BClient c0 => c = c0 /\ t <= at_
  | BTokenFamily f0 => f = Some f0
  | BConsent c0 s0 => c = c0 /\ s = Some s0 /\ t <= at_
  end.
Definition covered_token b at_ (t : IssuedToken) : Prop :=
  covered b at_ (it_client_id t) (it_family_id t) (it_subject t) (it_grant_established_at t).
Definition covered_refresh b at_ (r : RefreshTokenRecord) : Prop :=
  covered b at_ (rt_client_id r) (Some (rt_family_id r)) (rt_subject r) (rt_grant_established_at r).

(** A store with no token and no refresh token satisfying a predicate. *)
Definition none_left (P : IssuedToken -> Prop) (Q : RefreshTokenRecord -> Prop) (g : MemoryInner) : Prop :=
  (forall k t, mi_tokens g !! k = Some t -> ~ P t) /\
  (forall k r, mi_refresh g !! k = Some r -> ~ Q r).

Definition barrier_stands (b : RevocationBarrier) (w : RevocationWindow) (g : MemoryInner) : Prop :=
  exists t, barrier_at g b = Some t /\ rw_recorded_at w <= bt_recorded_at t /\ rw_until w <= bt_until t.

Lemma barrier_stands_record b w b' r u g :
  barrier_stands b w g -> barrier_stands b w (record_barrier b' r u g).
Proof.
  intros (t & Ht & Hr & Hu). unfold barrier_stands. rewrite barrier_at_record_barrier.
  destruct (decide (b' = b)) as [->|]; [|eauto].
  destruct (bt_merge_into_ge (barrier_at g b) r u) as (t' & -> & _ & _ & Hge).
  destruct (Hge t Ht). eexists; split_and!; [done|lia..].
Qed.

Lemma record_barrier_stands b w g :
  barrier_stands b w (record_barrier b (rw_recorded_at w) (rw_until w) g).
Proof.
  unfold barrier_stands. rewrite barrier_at_record_barrier, decide_True by done.
  destruct (bt_merge_into_ge (barrier_at g b) (rw_recorded_at w) (rw_until w))
    as (t' & -> & ? & ? & _). eauto.
Qed.

Lemma barrier_stands_covers b w g c f s t :
  barrier_stands b w g -> covered b (rw_recorded_at w) c f s t -> is_revoked g c f s t = true.
Proof.
  intros (bt & Hb & Hr & Hu) Hcov. apply is_revoked_spec. destruct b; cbn in Hcov.
  - destruct Hcov as [-> ?]. left. exists bt. split; [done|]. left; lia.
  - subst. right; right. eauto.
  - destruct Hcov as (-> & -> & ?). right; left. do 2 eexists. split_and!; [done..|lia].
Qed.

(** The tables [is_revoked] reads are only changed through the barrier functions. *)
Lemma barrier_at_ext g g' b : mi_barriers g' = mi_barriers g -> barrier_at g' b = barrier_at g b.
Proof. intros Heq. destruct b; cbn; by rewrite Heq. Qed.

Lemma barrier_stands_ext b w g g' :
  mi_barriers g' = mi_barriers g -> barrier_stands b w g -> barrier_stands b w g'.
Proof. intros Heq (t & Ht & ?). exists t. by rewrite (barrier_at_ext _ _ _ Heq). Qed.
Hint Resolve barrier_stands_ext barrier_stands_record : oauth.

Lemma barrier_stands_op b w o g :
  sweeps_before (rw_until w) o -> barrier_stands b w g -> barrier_stands b w (run_op o g).
Proof.
  destruct o as [X op]; unfold run_op, sweeps_before; cbn [projT1 projT2].
  destruct op; intros Hs Hb; try (solve [apply (barrier_stands_ext _ _ g); [frame|done]]);
    cbn [MemoryStorage.step].
  - unfold MemoryStorage.delete_client. case_match; [|done]. cbn [snd].
    eapply barrier_stands_ext; [|apply (barrier_stands_record _ _ (BClient client_id)
      (rw_recorded_at window) (rw_until window)), (barrier_stands_ext _ _ g), Hb; reflexivity].
    reflexivity.
  - unfold MemoryStorage.revoke_token_family. case_match; [|done]. cbn [snd].
    eapply barrier_stands_ext; [|apply (barrier_stands_record _ _ (BTokenFamily family_id)
      (rw_recorded_at window) (rw_until window)), Hb]. reflexivity.
  - unfold MemoryStorage.revoke_consent. do 3 (case_match; try done). cbn [snd].
    eapply barrier_stands_ext; [|eapply (barrier_stands_record _ _ (BConsent _ _)
      (rw_recorded_at window) (rw_until window)), (barrier_stands_ext _ _ g), Hb; reflexivity].
    reflexivity.
  - destruct Hb as (t & Ht & Hr & Hu). exists t. rewrite barrier_at_sweep, Ht. cbn.
    rewrite (proj2 (Z.ltb_lt _ _)) by lia. done.
Qed.

(** Operations that write no token only shrink the two token tables. *)
Lemma retain_subseteq {V} p (m : gmap string V) : retain p m ⊆ m.
Proof. apply map_filter_subseteq. Qed.

Lemma none_left_mono P Q g g' :
  mi_tokens g' ⊆ mi_tokens g -> mi_refresh g' ⊆ mi_refresh g -> none_left P Q g -> none_left P Q g'.
Proof.
  intros Ht Hr [Hnt Hnr]. split; intros k v Hk; [eapply Hnt|eapply Hnr]; by eapply lookup_weaken.
Qed.

Lemma none_left_insert_token P Q g t :
  none_left P Q g -> ~ P t -> none_left P Q (set_tokens (<[it_access_token t := t]> (mi_tokens g)) g).
Proof.
  intros [Hnt Hnr] HP. split; [|done]. intros k v; cbn.
  intros [[_ <-]|[_ ?]]%lookup_insert_Some; eauto.
Qed.
Lemma none_left_insert_refresh P Q g r :
  none_left P Q g -> ~ Q r ->
  none_left P Q (set_refresh (<[rt_refresh_token r := r]> (mi_refresh g)) g).
Proof.
  intros [Hnt Hnr] HP. split; [done|]. intros k v; cbn.
  intros [[_ <-]|[_ ?]]%lookup_insert_Some; eauto.
Qed.

(** What a refused put and a rotation keep out: if the barriers cover every record
    satisfying the predicates, and the predicates are facts of the grant, then no
    coherent operation brings such a record back. *)
Lemma none_left_op (P : IssuedToken -> Prop) (Q : RefreshTokenRecord -> Prop) o g :
  (forall t, P t -> is_revoked g (it_client_id t) (it_family_id t) (it_subject t)
                      (it_grant_established_at t) = true) ->
  (forall r, Q r -> is_revoked g (rt_client_id r) (Some (rt_family_id r)) (rt_subject r)
                      (rt_grant_established_at r) = true) ->
  (forall e r, same_grant_refresh e r -> Q r -> Q e) ->
  (forall e t, same_grant_access e t -> P t -> Q e) ->
  coherent o -> none_left P Q g -> none_left P Q (run_op o g).
Proof.
  intros HP HQ HQr HPa. destruct o as [X op]; unfold run_op, coherent; cbn [projT1 projT2].
  destruct op; intros Hco Hn; try (solve [apply (none_left_mono _ _ g); [frame|frame|done]]);
    cbn [MemoryStorage.step].
  - unfold MemoryStorage.delete_client. case_match; [|done].
    apply (none_left_mono _ _ g); [..|done]; cbn; apply retain_subseteq.
  - unfold MemoryStorage.put_token. case_match eqn:Hrev; [done|].
    apply none_left_insert_token; [done|]. intros ?%HP. congruence.
  - apply (none_left_mono _ _ g); [..|done]; cbn; [apply delete_subseteq|done].
  - unfold MemoryStorage.put_refresh_token. case_match eqn:Hrev; [done|].
    apply none_left_insert_refresh; [done|]. intros ?%HQ. congruence.
  - unfold MemoryStorage.rotate_refresh_token. case_match eqn:Hg; [done|]. cbn [snd].
    apply orb_false_iff in Hg as [Hexp Hrev]. bools.
    assert (HQe : ~ Q expected) by (eapply Hn; done).
    destruct Hco as (Hs & Ha & Hnx).
    assert (Hbase : none_left P Q (set_tokens (<[it_access_token access:=access]> (mi_tokens g))
                 (set_refresh (<[rt_refresh_token spent:=spent]> (mi_refresh g)) g))).
    { apply (none_left_insert_token _ _ (set_refresh _ _)); [|eauto].
      apply none_left_insert_refresh; eauto. }
    destruct next as [n|]; [|done].
    apply (none_left_insert_refresh _ _ (set_tokens _ (set_refresh _ _))); [done|]. naive_solver.
  - apply (none_left_mono _ _ g); [..|done]; cbn; [done|apply delete_subseteq].
  - unfold MemoryStorage.revoke_token_family. case_match; [|done].
    apply (none_left_mono _ _ g); [..|done]; cbn; apply retain_subseteq.
  - unfold MemoryStorage.revoke_consent. do 3 (case_match; try done).
    apply (none_left_mono _ _ g); [..|done]; cbn; apply retain_subseteq.
  - apply (none_left_mono _ _ g); [..|done]; cbn; apply retain_subseteq.
Qed.

(** ** Revocation is final *)

(** The operation [o] on [g] is a revocation that records [b] over [w]. *)
Definition revokes (o : AnyOp) (g : MemoryInner) (b : RevocationBarrier) (w : RevocationWindow) : Prop :=
  match projT2 o with
  | DeleteClient c w' => c <> EmptyString /\ b = BClient c /\ w = w'
  | RevokeTokenFamily f w' => f <> EmptyString /\ b = BTokenFamily f /\ w = w'
  | RevokeConsent id w' =>
      exists r, mi_consents g !! id = Some r /\ cr_client_id r <> EmptyString /\
        cr_subject r <> EmptyString /\ b = BConsent (cr_client_id r) (cr_subject r) /\ w = w'
  | _ => False
  end.

Lemma reject_empty_scope_ok what v : v <> EmptyString -> reject_empty_scope what v = Ok tt.
Proof. by destruct v. Qed.

Lemma revokes_establishes o g b w : revokes o g b w ->
  barrier_stands b w (run_op o g) /\ none_left (covered_token b (rw_recorded_at w)) (covered_refresh b (rw_recorded_at w)) (run_op o g).
Proof.
  destruct o as [X op]; unfold run_op, revokes; cbn [projT1 projT2].
  destruct op; cbn [MemoryStorage.step]; try done.
  - intros (Hne & -> & ->). unfold MemoryStorage.delete_client. rewrite reject_empty_scope_ok by done.
    split; [eapply barrier_stands_ext; [|apply (record_barrier_stands _ _ (set_clients (delete client_id (mi_clients g)) g))]; reflexivity|].
    split; intros k v [_ Hk]%lookup_retain_Some [Hc _]; bools; by rewrite Hc in Hk.
  - intros (Hne & -> & ->). unfold MemoryStorage.revoke_token_family.
    rewrite reject_empty_scope_ok by done.
    split; [eapply barrier_stands_ext; [|apply (record_barrier_stands _ _ g)]; reflexivity|].
    split; intros k v [_ Hk]%lookup_retain_Some; unfold covered_token, covered_refresh; cbn;
      bools; congruence.
  - intros (r & Hr & Hc & Hs & -> & ->). unfold MemoryStorage.revoke_consent.
    rewrite Hr, !reject_empty_scope_ok by done.
    split; [eapply barrier_stands_ext; [|apply (record_barrier_stands _ _ (set_consents (delete consent_id (mi_consents g)) g))]; reflexivity|].
    split; intros k v [_ Hk]%lookup_retain_Some (Hc1 & Hs1 & _); bools;
      rewrite Hc1, Hs1, !bool_decide_eq_true_2 in Hk; done.
Qed.

(** What a revocation establishes and every permitted operation keeps. *)
Definition final_after (b : RevocationBarrier) (w : RevocationWindow) (g : MemoryInner) : Prop :=
  barrier_stands b w g /\
  none_left (covered_token b (rw_recorded_at w)) (covered_refresh b (rw_recorded_at w)) g.

Lemma final_after_op b w o g :
  coherent o -> sweeps_before (rw_until w) o -> final_after b w g -> final_after b w (run_op o g).
Proof.
  intros Hc Hs [Hst Hn]. split; [by apply barrier_stands_op|]. apply none_left_op; try done.
  - intros t Ht. by eapply barrier_stands_covers.
  - intros r Hr. by eapply barrier_stands_covers.
  - unfold covered_refresh. intros e r (-> & -> & -> & ->). done.
  - unfold covered_token, covered_refresh. intros e r (-> & -> & -> & ->). done.
Qed.

(** Revocation is final.  Once a client deletion, a family revocation or a
    consent withdrawal has run, no sequence of storage operations brings back an
    access token or a refresh token the recorded barrier covers, whatever the
    operations are (a late write of an issuance in flight, a rotation, a
    re-registration of the client), as long as rotations stay within their grant
    and no sweep runs past the end of the revocation window. *)
Theorem revocation_is_final o g b w ops :
  revokes o g b w ->
  Forall coherent ops -> Forall (sweeps_before (rw_until w)) ops ->
  let g' := run_ops ops (run_op o g) in
  (forall k t, mi_tokens g' !! k = Some t -> ~ covered_token b (rw_recorded_at w) t) /\ (forall k r, mi_refresh g' !! k = Some r -> ~ covered_refresh b (rw_recorded_at w) r).
Proof.
  intros Hrev Hco Hsw. apply revokes_establishes in Hrev.
  assert (Hall : Forall (fun o => coherent o /\ sweeps_before (rw_until w) o) ops)
    by (by apply Forall_and).
  eapply (run_ops_invariant (final_after b w)); [|exact Hall|exact Hrev].
  intros o' g0 [Hc Hs]. by apply final_after_op.
Qed.

(** ** A deleted client stays deleted *)
Definition not_reprovisioned (c : ClientId) (o : AnyOp) : Prop :=
  match projT2 o with PutClient cl => c_client_id cl <> c | _ => True end.

Lemma client_absent_op c o g :
  not_reprovisioned c o -> mi_clients g !! c = None -> mi_clients (run_op o g) !! c = None.
Proof.
  destruct o as [X op]; unfold run_op, not_reprovisioned; cbn [projT1 projT2].
  destruct op; intros Hnr Hc; try (solve [frame]); cbn.
  - by rewrite lookup_insert_ne.
  - unfold MemoryStorage.compare_and_swap_client. destruct (mi_clients g !! c_client_id updated) eqn:Hcur; [|done].
    case_match; [|done]. cbn. rewrite lookup_insert_ne; congruence.
  - unfold MemoryStorage.delete_client. case_match; [|done]. cbn. apply lookup_delete_None. tauto.
Qed.

Definition no_pushed (c : ClientId) (g : MemoryInner) : Prop :=
  forall k p, mi_pushed g !! k = Some p -> par_client_id p <> c.

Lemma no_pushed_op c o g :
  (forall t, is_revoked g c None None t = true) -> no_pushed c g -> no_pushed c (run_op o g).
Proof.
  destruct o as [X op]; unfold run_op, no_pushed; cbn [projT1 projT2].
  destruct op; intros Hrev Hn; try (solve [frame]); cbn.
  - unfold MemoryStorage.delete_client. case_match; [|done]. cbn.
    intros k p [? _]%lookup_retain_Some. eauto.
  - unfold MemoryStorage.put_pushed_authorization_request. case_match eqn:Hg; [done|]. cbn.
    intros k p [[_ <-]|[_ ?]]%lookup_insert_Some; [|by eauto]. intros <-. by rewrite Hrev in Hg.
  - intros k p [_ ?]%lookup_delete_Some. eauto.
  - intros k p [? _]%lookup_retain_Some. eauto.
Qed.

Lemma absent_client_revoked c w g f s t :
  barrier_stands (BClient c) w g -> mi_clients g !! c = None -> is_revoked g c f s t = true.
Proof. intros (b & Hb & _) Hc. apply is_revoked_spec. left. eauto. Qed.

(** A deleted client leaves nothing behind and nothing comes back.  After
    [delete_client], as long as the identifier is not provisioned again and no
    sweep runs past the window, no sequence of operations leaves an access token,
    a refresh token or a pushed request of that client in the store, whenever its
    grant was established. *)
Theorem deleted_client_stays_out c w g ops :
  c <> EmptyString ->
  Forall coherent ops -> Forall (sweeps_before (rw_until w)) ops -> Forall (not_reprovisioned c) ops ->
  let g' := run_ops ops (run_op (any (DeleteClient c w)) g) in
  mi_clients g' !! c = None /\
  (forall k t, mi_tokens g' !! k = Some t -> it_client_id t <> c) /\
  (forall k r, mi_refresh g' !! k = Some r -> rt_client_id r <> c) /\
  (forall k p, mi_pushed g' !! k = Some p -> par_client_id p <> c).
Proof.
  intros Hne Hco Hsw Hnr.
  assert (Hall : Forall (fun o => (coherent o /\ sweeps_before (rw_until w) o) /\ not_reprovisioned c o) ops)
    by (apply Forall_and; split; [by apply Forall_and|done]).
  set (I g := barrier_stands (BClient c) w g /\ mi_clients g !! c = None /\
    none_left (fun t => it_client_id t = c) (fun r => rt_client_id r = c) g /\ no_pushed c g).
  cut (I (run_ops ops (run_op (any (DeleteClient c w)) g))).
  { intros (_ & ? & [? ?] & ?). done. }
  eapply run_ops_invariant; [|exact Hall|].
  - intros o g0 [[Hc Hs] Hr] (Hst & Habs & Hn & Hp). split_and!.
    + by apply barrier_stands_op.
    + by apply client_absent_op.
    + apply none_left_op; try done.
      * intros t <-. by eapply absent_client_revoked.
      * intros r <-. by eapply absent_client_revoked.
      * intros e r (<- & _) ?. done.
      * intros e t (<- & _) ?. done.
    + apply no_pushed_op; [|done]. intros t. by eapply absent_client_revoked.
  - destruct (revokes_establishes (any (DeleteClient c w)) g (BClient c) w) as [Hst _]; [done|].
    split; [done|]. unfold any, run_op; cbn. unfold MemoryStorage.delete_client.
    rewrite reject_empty_scope_ok by done. cbn. split_and!.
    + apply lookup_delete_eq.
    + split; intros k v [_ Hk]%lookup_retain_Some; by bools.
    + intros k v [_ Hk]%lookup_retain_Some. by bools.
Qed.

(** ** Replay identifiers are claimed once *)
Lemma replay_id_kept_op id e o g :
  sweeps_before e o -> mi_replay_ids g !! id = Some e -> mi_replay_ids (run_op o g) !! id = Some e.
Proof.
  destruct o as [X op]; unfold run_op, sweeps_before; cbn [projT1 projT2].
  destruct op; intros Hs Hid; try (solve [frame]); cbn.
  - unfold MemoryStorage.claim_replay_id. case_match eqn:Hc; [done|]. cbn.
    rewrite lookup_insert_ne; [done|]. intros ->. by rewrite Hid in Hc.
  - apply lookup_retain_keep; [done|]. by apply Z.ltb_lt.
Qed.

(** A replay identifier is claimed at most once before it expires: when a
    claim succeeds, every later claim of the same identifier is refused, whatever
    operations ran in between, as long as no sweep ran at or after the expiry the
    first claim recorded. *)
Theorem replay_id_claimed_once id e e' g g' ops :
  MemoryStorage.claim_replay_id id e g = (Ok true, g') ->
  Forall (sweeps_before e) ops ->
  fst (MemoryStorage.claim_replay_id id e' (run_ops ops g')) = Ok false.
Proof.
  intros Hclaim Hops.
  assert (Hid : mi_replay_ids (run_ops ops g') !! id = Some e).
  { apply (run_ops_invariant (fun g => mi_replay_ids g !! id = Some e) (sweeps_before e)); [|done|].
    - intros. by apply replay_id_kept_op.
    - unfold MemoryStorage.claim_replay_id in Hclaim. case_match; simplify_eq/=.
      apply lookup_insert_eq. }
  unfold MemoryStorage.claim_replay_id. by rewrite Hid.
Qed.

(** ** A code is redeemed at most once *)
Definition redeems (code : string) (o : AnyOp) (g : MemoryInner) : bool :=
  match projT2 o with
  | CompareAndSwapAuthorizationCode e u =>
      (e == Issued) && (ac_code u == code)
      && (fst (MemoryStorage.compare_and_swap_authorization_code e u g) == Ok true)
  | _ => false
  end.

Fixpoint redemptions (code : string) (ops : list AnyOp) (g : MemoryInner) : nat :=
  match ops with
  | [] => 0
  | o :: ops' => (if redeems code o g then 1 else 0) + redemptions code ops' (run_op o g)
  end.

(** No operation of the trace writes the code afresh, and every swap moves it on. *)
Definition no_reissue (code : string) (o : AnyOp) : Prop :=
  match projT2 o with
  | PutAuthorizationCode r => ac_code r <> code
  | CompareAndSwapAuthorizationCode _ u => ac_code u = code -> ac_state u <> Issued
  | _ => True
  end.

Definition unredeemable (code : string) (g : MemoryInner) : Prop :=
  forall r, mi_codes g !! code = Some r -> ac_state r <> Issued.

Lemma unredeemable_op code o g :
  no_reissue code o -> unredeemable code g -> unredeemable code (run_op o g).
Proof.
  destruct o as [X op]; unfold run_op, no_reissue, unredeemable; cbn [projT1 projT2].
  destruct op; intros Hnr Hu; try (solve [frame]); cbn.
  - unfold MemoryStorage.delete_client. case_match; [|done]. cbn.
    intros r [? _]%lookup_retain_Some. eauto.
  - intros r. rewrite lookup_insert_ne by done. eauto.
  - unfold MemoryStorage.compare_and_swap_authorization_code. repeat case_match; try done. cbn.
    intros r [[? <-]|[_ ?]]%lookup_insert_Some; eauto.
  - intros r [_ ?]%lookup_delete_Some. eauto.
  - unfold MemoryStorage.revoke_consent. do 3 (case_match; try done). cbn.
    intros r [? _]%lookup_retain_Some. eauto.
  - intros r [? _]%lookup_retain_Some. eauto.
Qed.

Lemma redeems_spec code o g : redeems code o g = true ->
  no_reissue code o -> ~ unredeemable code g /\ unredeemable code (run_op o g).
Proof.
  destruct o as [X op]; unfold redeems, no_reissue, run_op, unredeemable; cbn [projT1 projT2].
  destruct op; try done; cbn. intros Hr Hn. bools. subst.
  unfold MemoryStorage.compare_and_swap_authorization_code in *.
  destruct (mi_codes g !! ac_code updated) as [cur|] eqn:Hc; [|done].
  case_bool_decide as Hst; [|done]. cbn. split.
  - intros Hu. by apply (Hu cur).
  - intros r. rewrite lookup_insert_eq. intros [= <-]. auto.
Qed.

Lemma redemptions_unredeemable code ops : forall g,
  Forall (no_reissue code) ops -> unredeemable code g -> redemptions code ops g = 0%nat.
Proof.
  induction ops as [|o ops IH]; intros g Hn Hu; [done|]. inversion Hn; subst. cbn.
  destruct (redeems code o g) eqn:Hr; [by apply redeems_spec in Hr as [[] ?]|].
  apply IH; [done|]. by apply unredeemable_op.
Qed.

(** An authorization code is redeemed at most once.  In every sequence of
    storage operations, from any store, that neither writes the code afresh nor
    swaps it back to its issued state, at most one compare-and-swap out of the
    issued state succeeds. *)
Theorem code_redeemed_at_most_once code ops g :
  Forall (no_reissue code) ops -> (redemptions code ops g <= 1)%nat.
Proof.
  revert g. induction ops as [|o ops IH]; intros g Hn; cbn; [lia|]. inversion Hn; subst.
  destruct (redeems code o g) eqn:Hr; [|by apply IH].
  apply redeems_spec in Hr as [_ Hu]; [|done]. by rewrite redemptions_unredeemable.
Qed.

(** ** Keys and the user-code index *)
Definition keyed {V} (key : V -> string) (m : gmap string V) : Prop :=
  forall k v, m !! k = Some v -> key v = k.

Definition norm (d : DeviceGrant) : string := UserCode.normalize_user_code (dg_user_code d).

Definition index_ok (devices : gmap string DeviceGrant) (index : gmap string string) : Prop :=
  (forall u dc, index !! u = Some dc -> exists d, devices !! dc = Some d /\ norm d = u) /\
  (forall dc d, devices !! dc = Some d -> index !! norm d = Some dc).

Record store_wf (g : MemoryInner) : Prop := {
  wf_clients : keyed c_client_id (mi_clients g);
  wf_devices : keyed dg_device_code (mi_device_by_code g);
  wf_index : index_ok (mi_device_by_code g) (mi_user_code_index g);
  wf_codes : keyed ac_code (mi_codes g);
  wf_pushed : keyed par_request_uri (mi_pushed g);
  wf_tokens : keyed it_access_token (mi_tokens g);
  wf_refresh : keyed rt_refresh_token (mi_refresh g);
  wf_consents : keyed cr_consent_id (mi_consents g);
}.

Lemma keyed_insert {V} (key : V -> string) m v : keyed key m -> keyed key (<[key v := v]> m).
Proof. intros Hm k w [[<- <-]|[_ ?]]%lookup_insert_Some; [done|eauto]. Qed.
Lemma keyed_delete {V} (key : V -> string) m k : keyed key m -> keyed key (delete k m).
Proof. intros Hm k' w [_ ?]%lookup_delete_Some. eauto. Qed.
Lemma keyed_retain {V} (key : V -> string) p m : keyed key m -> keyed key (retain p m).
Proof. intros Hm k' w [? _]%lookup_retain_Some. eauto. Qed.
Hint Resolve keyed_insert keyed_delete keyed_retain : oauth.

Lemma index_ok_retain p devices index :
  index_ok devices index -> index_ok (retain p devices) (prune_index (retain p devices) index).
Proof.
  intros [H1 H2]. split.
  - intros u dc. rewrite lookup_prune_index. destruct (index !! u) as [dc'|] eqn:Hu; cbn; [|done].
    destruct (retain p devices !! dc') as [d'|] eqn:Hd; cbn; [|done]. intros [= <-].
    exists d'. split; [done|]. apply lookup_retain_Some in Hd as [Hd _].
    destruct (H1 u dc' Hu) as (d & Hd' & ?). congruence.
  - intros dc d Hd. rewrite lookup_prune_index.
    pose proof Hd as [Hd' _]%lookup_retain_Some. rewrite (H2 _ _ Hd'); cbn. by rewrite Hd.
Qed.

Lemma index_ok_take devices index dc d :
  index_ok devices index -> devices !! dc = Some d ->
  index_ok (delete dc devices) (delete (norm d) index).
Proof.
  intros [H1 H2] Hd. split.
  - intros u dc' [Hne Hu]%lookup_delete_Some. destruct (H1 u dc' Hu) as (d' & Hd' & <-).
    exists d'. split; [|done]. rewrite lookup_delete_ne; [done|]. intros ->. congruence.
  - intros dc' d' [Hne Hd']%lookup_delete_Some. rewrite lookup_delete_ne; [eauto|].
    intros Heq. pose proof (H2 _ _ Hd) as Ha. pose proof (H2 _ _ Hd') as Hb. congruence.
Qed.

Lemma index_ok_insert devices index d :
  index_ok devices index ->
  (forall owner, index !! norm d = Some owner -> owner = dg_device_code d) ->
  (forall p, devices !! dg_device_code d = Some p -> norm p = norm d) ->
  index_ok (<[dg_device_code d := d]> devices) (<[norm d := dg_device_code d]> index).
Proof.
  intros [H1 H2] Hown Hprev. split.
  - intros u dc [[<- <-]|[Hne Hu]]%lookup_insert_Some.
    + exists d. by rewrite lookup_insert_eq.
    + destruct (H1 u dc Hu) as (d' & Hd' & <-).
      exists d'. split; [|done]. rewrite lookup_insert_ne; [done|]. intros <-.
      by apply Hne, symmetry, Hprev.
  - intros dc d' [[<- <-]|[Hne Hd']]%lookup_insert_Some; [apply lookup_insert_eq|].
    pose proof (H2 _ _ Hd') as Hi. rewrite lookup_insert_ne; [done|]. intros Heq.
    apply Hne. symmetry. apply Hown. by rewrite Heq.
Qed.

Lemma index_ok_write grant g g' :
  store_wf g -> MemoryStorage.write_device_grant grant g = Some g' ->
  index_ok (mi_device_by_code g') (mi_user_code_index g').
Proof.
  intros [_ Hk Hix _ _ _ _ _] Hw. unfold MemoryStorage.write_device_grant in Hw.
  fold (norm grant) in Hw. destruct (is_some_and _ _) eqn:Hg; [done|]. simplify_eq/=.
  assert (Hown : forall owner, mi_user_code_index g !! norm grant = Some owner ->
                 owner = dg_device_code grant).
  { intros owner Ho. rewrite Ho in Hg. cbn in Hg. by bools. }
  destruct (mi_device_by_code g !! dg_device_code grant) as [p|] eqn:Hp.
  - fold (norm p). case_bool_decide as Hn; cbn.
    + apply index_ok_insert; [done|done|]. congruence.
    + rewrite <- (insert_delete_eq (mi_device_by_code g)).
      apply index_ok_insert; [by apply index_ok_take| |].
      * intros owner [_ ?]%lookup_delete_Some. auto.
      * intros p'. by rewrite lookup_delete_eq.
  - apply index_ok_insert; [done|done|]. congruence.
Qed.

Lemma write_device_grant_frame grant g g' :
  MemoryStorage.write_device_grant grant g = Some g' ->
  exists index, g' = set_devices (<[dg_device_code grant := grant]> (mi_device_by_code g)) index g.
Proof. unfold MemoryStorage.write_device_grant. case_match; [done|]. intros [= <-]. eauto. Qed.

Lemma store_wf_write grant g g' :
  store_wf g -> MemoryStorage.write_device_grant grant g = Some g' -> store_wf g'.
Proof.
  intros Hwf Hw. pose proof (index_ok_write _ _ _ Hwf Hw) as Hix.
  apply write_device_grant_frame in Hw as [index ->]. destruct Hwf. split; cbn; auto with oauth.
Qed.

Lemma store_wf_op o g : store_wf g -> store_wf (run_op o g).
Proof.
  destruct o as [X op]; unfold run_op; cbn [projT1 projT2]. intros Hwf.
  destruct op; cbn; try done.
  all: try (solve [destruct Hwf; split; cbn; eauto with oauth]).
  - unfold MemoryStorage.compare_and_swap_client. repeat case_match; try done.
    destruct Hwf; split; cbn; auto with oauth.
  - unfold MemoryStorage.delete_client. case_match; [|done].
    destruct Hwf; split; cbn; auto using index_ok_retain with oauth.
  - unfold MemoryStorage.put_device_grant. case_match eqn:Hw; [|done]. cbn. by eapply store_wf_write.
  - unfold MemoryStorage.take_device_grant. case_match eqn:Hd; [|done].
    destruct Hwf; split; cbn; auto with oauth. by apply (index_ok_take _ _ _ d).
  - unfold MemoryStorage.compare_and_swap_device_grant. repeat (case_match; try done).
    by eapply store_wf_write.
  - unfold MemoryStorage.compare_and_swap_authorization_code. repeat case_match; try done.
    destruct Hwf; split; cbn; auto with oauth.
  - unfold MemoryStorage.put_pushed_authorization_request. case_match; [done|].
    destruct Hwf; split; cbn; auto with oauth.
  - unfold MemoryStorage.put_token. case_match; [done|]. destruct Hwf; split; cbn; auto with oauth.
  - unfold MemoryStorage.put_refresh_token. case_match; [done|].
    destruct Hwf; split; cbn; auto with oauth.
  - unfold MemoryStorage.rotate_refresh_token. case_match; [done|].
    destruct Hwf, next; split; cbn; auto with oauth.
  - unfold MemoryStorage.revoke_token_family. case_match; [|done].
    destruct Hwf; split; cbn; auto with oauth.
  - unfold MemoryStorage.compare_and_swap_consent. repeat case_match; try done;
      destruct Hwf; split; cbn; auto with oauth.
  - unfold MemoryStorage.revoke_consent. do 3 (case_match; try done).
    destruct Hwf; split; cbn; auto using index_ok_retain with oauth.
  - unfold MemoryStorage.claim_replay_id. case_match; [done|]. destruct Hwf; split; cbn; auto with oauth.
  - destruct Hwf; split; cbn; auto using index_ok_retain with oauth.
Qed.

Lemma store_wf_empty : store_wf mi_empty.
Proof. by split; [..|split| | | | |]. Qed.

Lemma store_wf_reachable ops : store_wf (run_ops ops mi_empty).
Proof.
  apply (run_ops_invariant store_wf (fun _ => True)); [|by apply Forall_true|apply store_wf_empty].
  intros o g _. apply store_wf_op.
Qed.

(** Looking a device grant up by its user code is exact in every store any
    sequence of operations can reach: the lookup returns a grant if and only if
    that grant is live and its normalized code is the one asked for, and no two
    live grants share a normalized user code. *)
Theorem user_code_lookup_exact ops n :
  let g := run_ops ops mi_empty in
  (forall d, fst (MemoryStorage.find_device_grant_by_user_code n g) = Ok (Some d) <->
     mi_device_by_code g !! dg_device_code d = Some d /\
     UserCode.normalize_user_code (dg_user_code d) = n) /\
  (forall dc1 dc2 d1 d2, mi_device_by_code g !! dc1 = Some d1 -> mi_device_by_code g !! dc2 = Some d2 ->
     norm d1 = norm d2 -> dc1 = dc2).
Proof.
  intros g. destruct (store_wf_reachable ops) as [_ Hk [H1 H2] _ _ _ _ _]. fold g in Hk, H1, H2.
  split.
  - intros d. unfold MemoryStorage.find_device_grant_by_user_code; cbn. split.
    + intros [= Hd]. destruct (mi_user_code_index g !! n) as [dc|] eqn:Hi; [|done]. cbn in Hd.
      rewrite (Hk _ _ Hd). split; [done|]. destruct (H1 _ _ Hi) as (d' & ? & ?).
      unfold norm in *. congruence.
    + intros [Hd <-]. fold (norm d). rewrite (H2 _ _ Hd). cbn. by rewrite Hd.
  - intros dc1 dc2 d1 d2 Hd1 Hd2 Hn. apply H2 in Hd1. apply H2 in Hd2. congruence.
Qed.

(** ** The sweep *)
Definition slot_count (slot : option BarrierTimes) : Z := if is_some slot then 1 else 0.
Definition scope_count (s : ScopeBarriers) : Z :=
  slot_count (sb_client s) + slot_count (sb_family s) + hlen (sb_consents s).
Definition barrier_count (m : gmap string ScopeBarriers) : Z :=
  map_fold (fun _ s acc => scope_count s + acc) 0 m.

(** Every row the sweep may reap: grants, codes, pushed requests, tokens, refresh
    tokens, replay identifiers and barriers. *)
Definition reapable (g : MemoryInner) : Z :=
  hlen (mi_device_by_code g) + hlen (mi_codes g) + hlen (mi_pushed g) + hlen (mi_tokens g)
  + hlen (mi_refresh g) + hlen (mi_replay_ids g) + barrier_count (mi_barriers g).

Lemma map_fold_sum_insert {V} (f : V -> Z) (m : gmap string V) k v :
  m !! k = None ->
  map_fold (fun _ x acc => f x + acc) 0 (<[k := v]> m) = f v + map_fold (fun _ x acc => f x + acc) 0 m.
Proof. intros Hk. apply (map_fold_insert_L (fun _ x acc => f x + acc)); [intros; lia|done]. Qed.

Lemma sweep_scopes_count now s :
  snd (MemoryStorage.sweep_scopes now s) =
    scope_count s - scope_count (fst (MemoryStorage.sweep_scopes now s)).
Proof.
  unfold MemoryStorage.sweep_scopes, scope_count. rewrite !sweep_slot. cbn.
  assert (Hslot : forall slot, (if is_some slot && is_none (live_slot now slot) then 1 else 0)
            = slot_count slot - slot_count (live_slot now slot)).
  { intros [t|]; cbn; [|done]. by destruct (now <? bt_until t). }
  rewrite !Hslot. lia.
Qed.

Lemma sweep_barriers_count now m :
  snd (MemoryStorage.sweep_barriers now m) =
    barrier_count m - barrier_count (fst (MemoryStorage.sweep_barriers now m)).
Proof.
  unfold MemoryStorage.sweep_barriers, barrier_count. cbn [fst snd].
  induction m as [|k s m Hk IH] using map_ind.
  - by rewrite omap_empty, !map_fold_empty.
  - rewrite !map_fold_sum_insert by done. rewrite IH, sweep_scopes_count.
    set (s' := fst (MemoryStorage.sweep_scopes now s)).
    destruct (sb_is_empty s') eqn:He.
    + rewrite (omap_insert_None _ m k s) by (by fold s'; rewrite He).
      rewrite delete_id by (by rewrite lookup_omap, Hk).
      apply sb_is_empty_true in He. rewrite He. change (scope_count sb_default) with 0. lia.
    + rewrite (omap_insert_Some _ m k s s') by (by fold s'; rewrite He).
      rewrite map_fold_sum_insert by (by rewrite lookup_omap, Hk). lia.
Qed.

(** The sweep removes exactly what has expired and counts it.  Its answer is the
    number of rows that disappeared, over all seven tables and the barriers; a row
    survives if and only if its expiry is after the sweep's instant (a refresh
    token without an expiry always survives); clients and consents are untouched. *)
Theorem sweep_exact now g :
  let (answer, g') := MemoryStorage.sweep_expired now g in
  answer = Ok (reapable g - reapable g') /\
  (forall k d, mi_device_by_code g' !! k = Some d <->
     mi_device_by_code g !! k = Some d /\ now < dg_expires_at d) /\
  (forall k c, mi_codes g' !! k = Some c <-> mi_codes g !! k = Some c /\ now < ac_expires_at c) /\
  (forall k p, mi_pushed g' !! k = Some p <-> mi_pushed g !! k = Some p /\ now < par_expires_at p) /\
  (forall k t, mi_tokens g' !! k = Some t <-> mi_tokens g !! k = Some t /\ now < it_expires_at t) /\
  (forall k r, mi_refresh g' !! k = Some r <->
     mi_refresh g !! k = Some r /\ (forall e, rt_expires_at r = Some e -> now < e)) /\
  (forall k e, mi_replay_ids g' !! k = Some e <-> mi_replay_ids g !! k = Some e /\ now < e) /\
  (forall b t, barrier_at g' b = Some t <-> barrier_at g b = Some t /\ now < bt_until t) /\
  mi_clients g' = mi_clients g /\ mi_consents g' = mi_consents g.
Proof.
  pose proof (barrier_at_sweep now g) as Hbar.
  pose proof (sweep_barriers_count now (mi_barriers g)) as Hcount.
  unfold MemoryStorage.sweep_expired in *.
  destruct (MemoryStorage.sweep_barriers now (mi_barriers g)) as [barriers reaped] eqn:Hb.
  cbn in *. split_and!; try done.
  - unfold reapable; cbn. do 2 f_equal. lia.
  - intros. by rewrite lookup_retain_Some, Z.ltb_lt.
  - intros. by rewrite lookup_retain_Some, Z.ltb_lt.
  - intros. by rewrite lookup_retain_Some, Z.ltb_lt.
  - intros. by rewrite lookup_retain_Some, Z.ltb_lt.
  - intros k r. rewrite lookup_retain_Some. unfold MemoryStorage.live_refresh.
    destruct (rt_expires_at r) as [e|]; [rewrite Z.ltb_lt|]; naive_solver.
  - intros. by rewrite lookup_retain_Some, Z.ltb_lt.
  - intros b t. rewrite Hbar. unfold live_slot. destruct (barrier_at g b) as [t'|]; cbn; [|naive_solver].
    destruct (Z.ltb_spec now (bt_until t')); naive_solver lia.
Qed.

(** ** The cascade of a deletion *)

(** Deleting a client removes every row of that client and no other row: in
    each of the seven tables a row is in the new store if and only if it was in the
    old one and belongs to another client; the answer says whether the client was
    there; every user code left in the index names a grant that is still live. *)
Theorem delete_client_cascade c w g :
  c <> EmptyString -> store_wf g ->
  let (answer, g') := MemoryStorage.delete_client c w g in
  answer = Ok (is_some (mi_clients g !! c)) /\
  mi_clients g' = delete c (mi_clients g) /\
  (forall k t, mi_tokens g' !! k = Some t <-> mi_tokens g !! k = Some t /\ it_client_id t <> c) /\
  (forall k r, mi_refresh g' !! k = Some r <-> mi_refresh g !! k = Some r /\ rt_client_id r <> c) /\
  (forall k a, mi_codes g' !! k = Some a <-> mi_codes g !! k = Some a /\ ac_client_id a <> c) /\
  (forall k p, mi_pushed g' !! k = Some p <-> mi_pushed g !! k = Some p /\ par_client_id p <> c) /\
  (forall k d, mi_device_by_code g' !! k = Some d <->
     mi_device_by_code g !! k = Some d /\ dg_client_id d <> c) /\
  (forall k s, mi_consents g' !! k = Some s <-> mi_consents g !! k = Some s /\ cr_client_id s <> c) /\
  (forall u dc, mi_user_code_index g' !! u = Some dc -> is_Some (mi_device_by_code g' !! dc)).
Proof.
  intros Hne Hwf. unfold MemoryStorage.delete_client. rewrite reject_empty_scope_ok by done.
  cbn. split_and!; try done.
  all: try (intros; by rewrite lookup_retain_Some, negb_true_iff, bool_decide_eq_false).
  intros u dc. rewrite lookup_prune_index. destruct (_ !! u); cbn; [|done].
  case_match eqn:Hs; [|done]. intros [= <-]. by apply is_some_true.
Qed.

(** ** Errors *)

(** A storage operation that fails changes nothing: when any of the thirty
    methods answers with an error the store is exactly what it was before. *)
Theorem error_leaves_store_unchanged X (op : StoreOp X) g e g' :
  MemoryStorage.step X op g = (Err e, g') -> g' = g.
Proof.
  destruct op; cbn [MemoryStorage.step]; intros Hs; try (by inversion Hs).
  - unfold MemoryStorage.compare_and_swap_client in Hs. branches.
  - unfold MemoryStorage.delete_client in Hs. branches.
  - unfold MemoryStorage.put_device_grant in Hs. branches.
  - unfold MemoryStorage.take_device_grant in Hs. branches.
  - unfold MemoryStorage.compare_and_swap_device_grant in Hs. branches.
  - unfold MemoryStorage.compare_and_swap_authorization_code in Hs. branches.
  - unfold MemoryStorage.put_pushed_authorization_request in Hs. branches.
  - unfold MemoryStorage.put_token in Hs. branches.
  - unfold MemoryStorage.put_refresh_token in Hs. branches.
  - unfold MemoryStorage.rotate_refresh_token in Hs. branches.
  - unfold MemoryStorage.revoke_token_family in Hs. branches.
  - unfold MemoryStorage.compare_and_swap_consent in Hs. branches.
  - unfold MemoryStorage.revoke_consent in Hs. branches.
  - unfold MemoryStorage.claim_replay_id in Hs. branches.
Qed.
End traces.

(** ** Instances *)
#[export] Instance listing_order : HashOrder.
Proof. exists (fun m => (map_to_list m).*2). done. Defined.

Definition demo_token (at_ family : string) : IssuedToken := {|
  it_access_token := at_; it_client_id := "app"; it_subject := Some "alice"; it_scope := ["read"];
  it_resource := []; it_authorization_details := []; it_issued_at := from_secs 10;
  it_grant_established_at := from_secs 10; it_expires_at := from_secs 70; it_jkt := None;
  it_x5t_s256 := None; it_family_id := Some family; it_act := None; it_authentication := None |}.
Definition demo_refresh (rt family : string) : RefreshTokenRecord := {|
  rt_refresh_token := rt; rt_client_id := "app"; rt_subject := Some "alice"; rt_scope := ["read"];
  rt_resource := []; rt_authorization_details := []; rt_grant_established_at := from_secs 10;
  rt_expires_at := None; rt_jkt := None; rt_x5t_s256 := None; rt_family_id := family;
  rt_state := Active; rt_retry := None; rt_authentication := None |}.
Definition demo_code (state : AuthorizationCodeState) : AuthorizationCodeRecord := {|
  ac_code := "code"; ac_client_id := "app"; ac_redirect_uri := "https://app/cb";
  ac_redirect_uri_was_explicit := true; ac_scope := ["read"]; ac_subject := "alice";
  ac_code_challenge := "x"; ac_code_challenge_method := S256; ac_resource := [];
  ac_authorization_details := []; ac_issued_at := from_secs 10; ac_expires_at := from_secs 70;
  ac_state := state; ac_authentication := None; ac_dpop_jkt := None |}.
Definition demo_window : RevocationWindow :=
  {| rw_recorded_at := from_secs 20; rw_until := from_secs 1000 |}.

(** Discharges a condition on each operation of a concrete trace. *)
Ltac trace_ok := repeat first [apply Forall_nil_2 | apply Forall_cons_2; [try exact I; try done|]].

(** A family is revoked while an issuance of that family is in flight: the late
    writes and a rotation follow the revocation. *)
Definition demo_store : MemoryInner :=
  run_ops [any (PutToken (demo_token "at1" "fam")); any (PutRefreshToken (demo_refresh "rt1" "fam"))]
    mi_empty.
Definition demo_late : list AnyOp :=
  [any (PutToken (demo_token "at2" "fam"));
   any (RotateRefreshToken (demo_refresh "rt1" "fam") (demo_refresh "rt1" "fam")
          (demo_token "at3" "fam") (Some (demo_refresh "rt2" "fam")));
   any (SweepExpired (from_secs 100))].

Definition demo_revoked_store : MemoryInner :=
  run_ops demo_late (run_op (any (RevokeTokenFamily "fam" demo_window)) demo_store).

Lemma revocation_is_final_witness :
  (forall k t, mi_tokens demo_revoked_store !! k = Some t -> ~ covered_token (BTokenFamily "fam") (from_secs 20) t) /\
  (forall k r, mi_refresh demo_revoked_store !! k = Some r -> ~ covered_refresh (BTokenFamily "fam") (from_secs 20) r).
Proof.
  apply (revocation_is_final (any (RevokeTokenFamily "fam" demo_window)) demo_store
           (BTokenFamily "fam") demo_window demo_late).
  - done.
  - trace_ok. split_and!; try done. by intros r [= <-].
  - trace_ok.
Defined.

Lemma deleted_client_stays_out_witness :
  mi_clients (run_ops demo_late (run_op (any (DeleteClient "app" demo_window)) demo_store)) !! "app" = None.
Proof.
  apply (deleted_client_stays_out "app" demo_window demo_store demo_late); [done|..].
  - trace_ok. split_and!; try done. by intros r [= <-].
  - trace_ok.
  - trace_ok.
Defined.

Lemma replay_id_claimed_once_witness :
  fst (MemoryStorage.claim_replay_id "jti" (from_secs 99)
    (run_ops [any (SweepExpired (from_secs 50))]
       (snd (MemoryStorage.claim_replay_id "jti" (from_secs 60) mi_empty)))) = Ok false.
Proof.
  apply (replay_id_claimed_once "jti" (from_secs 60) _ mi_empty); [reflexivity|]. trace_ok.
Defined.

Lemma code_redeemed_at_most_once_witness :
  (redemptions "code"
     [any (CompareAndSwapAuthorizationCode Issued (demo_code (Consumed (Some "a") None)));
      any (CompareAndSwapAuthorizationCode Issued (demo_code (Consumed (Some "b") None)))]
     (run_op (any (PutAuthorizationCode (demo_code Issued))) mi_empty) <= 1)%nat.
Proof. apply (code_redeemed_at_most_once "code"). trace_ok. Defined.

Lemma delete_client_cascade_witness :
  mi_clients (snd (MemoryStorage.delete_client "app" demo_window demo_store)) = ∅.
Proof.
  pose proof (delete_client_cascade "app" demo_window demo_store) as Hc.
  destruct (MemoryStorage.delete_client "app" demo_window demo_store) as [answer g'].
  destruct Hc as (_ & Hcl & _); [done|apply store_wf_reachable|]. cbn [snd]. etransitivity; [exact Hcl|reflexivity].
Defined.

Lemma error_leaves_store_unchanged_witness :
  snd (MemoryStorage.step bool (DeleteClient "" demo_window) demo_store) = demo_store.
Proof.
  eapply (error_leaves_store_unchanged bool (DeleteClient "" demo_window) demo_store). reflexivity.
Defined.
