(* ===== verification/Effects.v ===== *)
(** * Effects: the server as programs

    A handler of [server.rs] is an [async fn] over [&self]: it calls the store, reads
    the clock, draws randomness, consults the rate limiter, emits events and awaits
    the token signer.  [prog A] is the type of such computations, one node per call;
    [run] executes one against an environment, and [run_pool] interleaves several,
    one node at a time, in the order a schedule gives: every [await] is a point where
    another request may run. *)
From S2P Require Import Prelude Time Codec Scope Types Store StoreFacts.
Local Open Scope Z_scope.

(** The verification work a refusal performs and throws away. *)
Inductive Work : Type :=
| WorkSecret (hash : SecretHash) (presented : string)
| WorkAssertion (alg : JwsAlg)
| WorkHmac.

Inductive prog (A : Type) : Type :=
| Ret (a : A)
| OnStore {X : Type} (op : StoreOp X) (k : result X StorageError -> prog A)
| Now (k : SystemTime -> prog A)
| Rand (n : nat) (k : option string -> prog A)
| Check (attempt : Attempt) (k : RateLimitDecision -> prog A)
| RecordAttempt (attempt : Attempt) (outcome : AttemptOutcome) (k : prog A)
| Emit (event : Event) (k : prog A)
| DoWork (work : Work) (k : prog A)
| Sign (input : string) (k : option string -> prog A).
Arguments Ret {A} a.
Arguments OnStore {A X} op k.
Arguments Now {A} k.
Arguments Rand {A} n k.
Arguments Check {A} attempt k.
Arguments RecordAttempt {A} attempt outcome k.
Arguments Emit {A} event k.
Arguments DoWork {A} work k.
Arguments Sign {A} input k.

Fixpoint bind {A B} (p : prog A) (f : A -> prog B) : prog B :=
  match p with
  | Ret a => f a
  | OnStore op k => OnStore op (fun r => bind (k r) f)
  | Now k => Now (fun t => bind (k t) f)
  | Rand n k => Rand n (fun r => bind (k r) f)
  | Check a k => Check a (fun d => bind (k d) f)
  | RecordAttempt a o k => RecordAttempt a o (bind k f)
  | Emit e k => Emit e (bind k f)
  | DoWork w k => DoWork w (bind k f)
  | Sign i k => Sign i (fun s => bind (k s) f)
  end.

(** [p?] : stop at the first error. *)
Definition bind_ok {A B E} (p : prog (result A E)) (f : A -> prog (result B E)) : prog (result B E) :=
  bind p (fun r => match r with Ok a => f a | Err e => Ret (Err e) end).
(** [r?] for a result computed without effects. *)
Definition lift_ok {A B E} (r : result A E) (f : A -> prog (result B E)) : prog (result B E) :=
  match r with Ok a => f a | Err e => Ret (Err e) end.

Notation "'let*' x ':=' p 'in' k" :=
  (bind p (fun x => k)) (at level 10, x name, p at level 100, k at level 200).
Notation "'let?*' x ':=' p 'in' k" :=
  (bind_ok p (fun x => k)) (at level 10, x name, p at level 100, k at level 200).
Notation "'let?!' x ':=' r 'in' k" :=
  (lift_ok r (fun x => k)) (at level 10, x name, r at level 100, k at level 200).

(** The primitive calls. *)
Definition store {X} (op : StoreOp X) : prog (result X StorageError) := OnStore op Ret.
(** [self.store.op(..).await.map_err(f)] *)
Definition store_or {X E} (f : StorageError -> E) (op : StoreOp X) : prog (result X E) :=
  OnStore op (fun r => Ret (map_err f r)).
Definition now : prog SystemTime := Now Ret.
Definition rand (n : nat) : prog (option string) := Rand n Ret.

(** [Hooks::emit], [Hooks::check], [Hooks::record]: nothing happens when the hook
    is not installed, and an absent limiter allows. *)
Record HooksInstalled : Type := { h_events : bool; h_rate_limiter : bool }.
Definition emit (h : HooksInstalled) (e : Event) : prog unit :=
  if h_events h then Emit e (Ret tt) else Ret tt.
Definition hook_check (h : HooksInstalled) (a : Attempt) : prog RateLimitDecision :=
  if h_rate_limiter h then Check a Ret else Ret Allow.
Definition hook_record (h : HooksInstalled) (a : Attempt) (o : AttemptOutcome) : prog unit :=
  if h_rate_limiter h then RecordAttempt a o (Ret tt) else Ret tt.

(** ** Execution *)

(** How a storage call may fail: refused before it did anything, or its answer
    lost after it took effect. *)
Inductive Fault : Type := FailBefore (e : StorageError) | FailAfter (e : StorageError).

(** What the world answers, by the number of effects already performed. *)
Record Env : Type := {
  env_clock : nat -> SystemTime;
  env_rand : nat -> nat -> option string;
  env_check : nat -> Attempt -> RateLimitDecision;
  env_fault : nat -> option Fault;
  env_sign : nat -> string -> option string;
}.

Record World : Type := {
  w_store : MemoryInner;
  w_step : nat;
  w_events : list Event;
  w_attempts : list (Attempt * AttemptOutcome);
  w_work : list Work;
}.
Definition world_of (g : MemoryInner) : World :=
  {| w_store := g; w_step := 0; w_events := []; w_attempts := []; w_work := [] |}.

Definition tick (w : World) : World :=
  {| w_store := w_store w; w_step := S (w_step w); w_events := w_events w;
     w_attempts := w_attempts w; w_work := w_work w |}.
Definition with_store (g : MemoryInner) (w : World) : World :=
  {| w_store := g; w_step := S (w_step w); w_events := w_events w;
     w_attempts := w_attempts w; w_work := w_work w |}.

Section run.
Context `{HashOrder} (env : Env).

(** One storage call: the answer and the store it leaves. *)
Definition store_call {X} (op : StoreOp X) (w : World) : result X StorageError * MemoryInner :=
  match env_fault env (w_step w) with
  | None => MemoryStorage.step X op (w_store w)
  | Some (FailBefore e) => (Err e, w_store w)
  | Some (FailAfter e) => (Err e, snd (MemoryStorage.step X op (w_store w)))
  end.

(** One node. *)
Definition step1 {A} (p : prog A) (w : World) : option (prog A * World) :=
  match p with
  | Ret _ => None
  | OnStore op k => let (r, g) := store_call op w in Some (k r, with_store g w)
  | Now k => Some (k (env_clock env (w_step w)), tick w)
  | Rand n k => Some (k (env_rand env (w_step w) n), tick w)
  | Check a k => Some (k (env_check env (w_step w) a), tick w)
  | RecordAttempt a o k =>
      Some (k, {| w_store := w_store w; w_step := S (w_step w); w_events := w_events w;
                  w_attempts := w_attempts w ++ [(a, o)]; w_work := w_work w |})
  | Emit e k =>
      Some (k, {| w_store := w_store w; w_step := S (w_step w); w_events := w_events w ++ [e];
                  w_attempts := w_attempts w; w_work := w_work w |})
  | DoWork x k =>
      Some (k, {| w_store := w_store w; w_step := S (w_step w); w_events := w_events w;
                  w_attempts := w_attempts w; w_work := w_work w ++ [x] |})
  | Sign i k => Some (k (env_sign env (w_step w) i), tick w)
  end.

(** A whole handler, alone. *)
Fixpoint run {A} (p : prog A) (w : World) : A * World :=
  match p with
  | Ret a => (a, w)
  | OnStore op k => let (r, g) := store_call op w in run (k r) (with_store g w)
  | Now k => run (k (env_clock env (w_step w))) (tick w)
  | Rand n k => run (k (env_rand env (w_step w) n)) (tick w)
  | Check a k => run (k (env_check env (w_step w) a)) (tick w)
  | RecordAttempt a o k =>
      run k {| w_store := w_store w; w_step := S (w_step w); w_events := w_events w;
               w_attempts := w_attempts w ++ [(a, o)]; w_work := w_work w |}
  | Emit e k =>
      run k {| w_store := w_store w; w_step := S (w_step w); w_events := w_events w ++ [e];
               w_attempts := w_attempts w; w_work := w_work w |}
  | DoWork x k =>
      run k {| w_store := w_store w; w_step := S (w_step w); w_events := w_events w;
               w_attempts := w_attempts w; w_work := w_work w ++ [x] |}
  | Sign i k => run (k (env_sign env (w_step w) i)) (tick w)
  end.

(** Several handlers: the schedule names the one that performs the next node. *)
Fixpoint run_pool {A} (schedule : list nat) (pool : list (prog A)) (w : World) : list (prog A) * World :=
  match schedule with
  | [] => (pool, w)
  | i :: rest =>
      match pool !! i with
      | Some p => match step1 p w with
                  | Some (p', w') => run_pool rest (<[i := p']> pool) w'
                  | None => run_pool rest pool w
                  end
      | None => run_pool rest pool w
      end
  end.

Lemma run_bind {A B} (p : prog A) (f : A -> prog B) w :
  run (bind p f) w = let (a, w') := run p w in run (f a) w'.
Proof.
  revert w. induction p as [a|X op k IH|k IH|n k IH|a k IH|a o k IH|e k IH|x k IH|i k IH];
    intros w; cbn; auto. destruct (store_call op w); auto.
Qed.

Lemma run_bind_inv {A B} (p : prog A) (f : A -> prog B) w b w' :
  run (bind p f) w = (b, w') -> exists a w1, run p w = (a, w1) /\ run (f a) w1 = (b, w').
Proof. rewrite run_bind. destruct (run p w) as [a w1]. eauto. Qed.
Lemma run_bind_ok_inv {A B E} (p : prog (result A E)) (f : A -> prog (result B E)) w b w' :
  run (bind_ok p f) w = (Ok b, w') -> exists a w1, run p w = (Ok a, w1) /\ run (f a) w1 = (Ok b, w').
Proof. intros ([a|e] & w1 & Hp & Hf)%run_bind_inv; [eauto|done]. Qed.
Lemma run_emit_store h e w u w' : run (emit h e) w = (u, w') -> w_store w' = w_store w.
Proof. unfold emit. destruct (h_events h); cbn; by intros [= _ <-]. Qed.
Lemma run_hook_record_store h a o w u w' : run (hook_record h a o) w = (u, w') -> w_store w' = w_store w.
Proof. unfold hook_record. destruct (h_rate_limiter h); cbn; by intros [= _ <-]. Qed.
Lemma run_hook_check_store h a w d w' : run (hook_check h a) w = (d, w') -> w_store w' = w_store w.
Proof. unfold hook_check. destruct (h_rate_limiter h); cbn; by intros [= _ <-]. Qed.
Lemma run_store_or {X E} (f : StorageError -> E) (op : StoreOp X) w r w' :
  env_fault env (w_step w) = None -> run (store_or f op) w = (r, w') ->
  r = map_err f (fst (MemoryStorage.step X op (w_store w))) /\
  w_store w' = snd (MemoryStorage.step X op (w_store w)).
Proof.
  intros Hf. cbn. unfold store_call. rewrite Hf. destruct (MemoryStorage.step X op (w_store w)).
  by intros [= <- <-].
Qed.
End run.

(** ** What a program may ask of the store *)
Fixpoint all_ops (P : AnyOp -> Prop) {A} (p : prog A) : Prop :=
  match p with
  | Ret _ => True
  | OnStore op k => P (any op) /\ forall r, all_ops P (k r)
  | Now k => forall t, all_ops P (k t)
  | Rand n k => forall r, all_ops P (k r)
  | Check a k => forall d, all_ops P (k d)
  | RecordAttempt _ _ k | Emit _ k | DoWork _ k => all_ops P k
  | Sign _ k => forall s, all_ops P (k s)
  end.

Lemma all_ops_bind P {A B} (p : prog A) (f : A -> prog B) :
  all_ops P p -> (forall a, all_ops P (f a)) -> all_ops P (bind p f).
Proof. intros Hp Hf. induction p; cbn in *; naive_solver. Qed.
Lemma all_ops_bind_inv P {A B} (p : prog A) (f : A -> prog B) : all_ops P (bind p f) -> all_ops P p.
Proof. induction p; cbn; intuition eauto. Qed.
Lemma all_ops_bind_ok P {A B E} (p : prog (result A E)) (f : A -> prog (result B E)) :
  all_ops P p -> (forall a, all_ops P (f a)) -> all_ops P (bind_ok p f).
Proof. intros Hp Hf. apply all_ops_bind; [done|]. intros []; cbn; auto. Qed.
Lemma all_ops_lift_ok P {A B E} (r : result A E) (f : A -> prog (result B E)) :
  (forall a, all_ops P (f a)) -> all_ops P (lift_ok r f).
Proof. destruct r; cbn; auto. Qed.
Lemma all_ops_emit P h e : all_ops P (emit h e).
Proof. unfold emit. by destruct (h_events h). Qed.
Lemma all_ops_hook_check P h a : all_ops P (hook_check h a).
Proof. unfold hook_check. by destruct (h_rate_limiter h). Qed.
Lemma all_ops_hook_record P h a o : all_ops P (hook_record h a o).
Proof. unfold hook_record. by destruct (h_rate_limiter h). Qed.
#[export] Hint Resolve all_ops_bind all_ops_bind_ok all_ops_lift_ok all_ops_emit all_ops_hook_check
  all_ops_hook_record : oauth.

Section pool_facts.
Context `{HashOrder} (env : Env).

Lemma store_call_cases {X} (op : StoreOp X) w :
  snd (store_call env op w) = w_store w \/ snd (store_call env op w) = run_op (any op) (w_store w).
Proof. unfold store_call, run_op. destruct (env_fault env (w_step w)) as [[e|e]|]; auto. Qed.

(** An invariant of the store that every permitted operation preserves holds at
    every point of every interleaving of programs that issue only such operations,
    whatever the world answers and wherever the storage fails. *)
Lemma run_pool_invariant {A} (I : MemoryInner -> Prop) (P : AnyOp -> Prop) schedule :
  (forall o g, P o -> I g -> I (run_op o g)) ->
  forall (pool : list (prog A)) w, Forall (all_ops P) pool -> I (w_store w) ->
  I (w_store (snd (run_pool env schedule pool w))).
Proof.
  intros HI. induction schedule as [|i rest IH]; intros pool w Hp Hw; [done|]. cbn [run_pool].
  destruct (pool !! i) as [p|] eqn:Hi; [|auto].
  assert (Hpi : all_ops P p) by (by eapply Forall_lookup_1).
  destruct p as [a|X op k|k|n k|a k|a o k|e k|x k|inp k]; cbn [step1] in *; cbn in Hpi; auto.
  - destruct Hpi as [HPo Hk]. pose proof (store_call_cases op w) as Hc.
    destruct (store_call env op w) as [r g] eqn:Hs. cbn in Hc. apply IH.
    + by apply Forall_insert.
    + cbn. destruct Hc as [->| ->]; auto.
  - apply IH; [by apply Forall_insert|done].
  - apply IH; [by apply Forall_insert|done].
  - apply IH; [by apply Forall_insert|done].
  - apply IH; [by apply Forall_insert|done].
  - apply IH; [by apply Forall_insert|done].
  - apply IH; [by apply Forall_insert|done].
  - apply IH; [by apply Forall_insert|done].
Qed.

Lemma run_invariant {A} (I : MemoryInner -> Prop) (P : AnyOp -> Prop) (p : prog A) :
  (forall o g, P o -> I g -> I (run_op o g)) ->
  forall w, all_ops P p -> I (w_store w) -> I (w_store (snd (run env p w))).
Proof.
  intros HI. induction p as [a|X op k IH|k IH|n k IH|a k IH|a o k IH|e k IH|x k IH|i k IH];
    intros w Hp Hw; cbn in *; auto.
  destruct Hp as [HPo Hk]. pose proof (store_call_cases op w) as Hc.
  destruct (store_call env op w) as [r g] eqn:Hs. cbn in Hc. apply IH; [done|].
  cbn. destruct Hc as [->| ->]; auto.
Qed.
End pool_facts.

(** An environment to evaluate in: the clock moves one second per effect from
    instant 100, every draw succeeds, the limiter allows and no call fails. *)
Definition repeat_char (c : ascii) (n : nat) : string := of_bytes (repeat c n).
Definition demo_env : Env := {|
  env_clock n := from_secs (100 + Z.of_nat n);
  env_rand n len := Some (repeat_char (ascii_of_nat n) len);
  env_check _ _ := Allow;
  env_fault _ := None;
  env_sign _ input := Some input |}.
