(* ===== verification/Trace.v ===== *)
(** * Executions of a handler, whatever the world answers

    [exec p tr a] says that [p] can perform the actions [tr], each with the answer
    recorded in it, and return [a].  The answers are arbitrary: an execution alone,
    one interleaved with any other requests, and one against a failing store are all
    executions in this sense ([run_exec] relates it to [run]).  A theorem about
    [exec] therefore holds of the handler under every concurrency. *)
From S2P Require Import Prelude Time Codec Scope Types Store StoreFacts Effects.
Local Open Scope Z_scope.

Inductive Act : Type :=
| AStore {X : Type} (op : StoreOp X) (answer : result X StorageError)
| ANow (t : SystemTime)
| ARand (n : nat) (answer : option string)
| ACheck (attempt : Attempt) (decision : RateLimitDecision)
| ARecord (attempt : Attempt) (outcome : AttemptOutcome)
| AEmit (event : Event)
| AWork (work : Work)
| ASign (input : string) (answer : option string).

Fixpoint exec {A} (p : prog A) (tr : list Act) (a : A) : Prop :=
  match p with
  | Ret x => tr = [] /\ a = x
  | OnStore op k => exists r tr', tr = AStore op r :: tr' /\ exec (k r) tr' a
  | Now k => exists t tr', tr = ANow t :: tr' /\ exec (k t) tr' a
  | Rand n k => exists r tr', tr = ARand n r :: tr' /\ exec (k r) tr' a
  | Check x k => exists d tr', tr = ACheck x d :: tr' /\ exec (k d) tr' a
  | RecordAttempt x o k => exists tr', tr = ARecord x o :: tr' /\ exec k tr' a
  | Emit e k => exists tr', tr = AEmit e :: tr' /\ exec k tr' a
  | DoWork x k => exists tr', tr = AWork x :: tr' /\ exec k tr' a
  | Sign i k => exists s tr', tr = ASign i s :: tr' /\ exec (k s) tr' a
  end.

Lemma exec_bind {A B} (p : prog A) (f : A -> prog B) : forall tr b,
  exec (bind p f) tr b <->
  exists tr1 tr2 a, tr = tr1 ++ tr2 /\ exec p tr1 a /\ exec (f a) tr2 b.
Proof.
  induction p as [a|X op k IH|k IH|n k IH|a k IH|a o k IH|e k IH|x k IH|i k IH]; intros tr b; cbn;
    [split; [intros H; by exists [], tr, a|by intros (? & ? & ? & -> & [-> ->] & ?)]|..].
  1-4,8: split;
    [ intros (r & tr' & -> & (tr1 & tr2 & a' & -> & Hp & Hf)%IH); by eexists (_ :: tr1), tr2, a'; eauto 10
    | intros (tr1 & tr2 & a' & -> & (r & tr' & -> & Hp) & Hf); exists r, (tr' ++ tr2); split; [done|];
      apply IH; eauto 10 ].
  all: split;
    [ intros (tr' & -> & (tr1 & tr2 & a' & -> & Hp & Hf)%IH); by eexists (_ :: tr1), tr2, a'; eauto 10
    | intros (tr1 & tr2 & a' & -> & (tr' & -> & Hp) & Hf); exists (tr' ++ tr2); split; [done|];
      apply IH; eauto 10 ].
Qed.

Lemma exec_bind_ok {A B E} (p : prog (result A E)) (f : A -> prog (result B E)) tr b :
  exec (bind_ok p f) tr b <->
  (exists tr1 tr2 a, tr = tr1 ++ tr2 /\ exec p tr1 (Ok a) /\ exec (f a) tr2 b) \/
  (exists e, b = Err e /\ exec p tr (Err e)).
Proof.
  unfold bind_ok. rewrite exec_bind. split.
  - intros (tr1 & tr2 & [a|e] & -> & Hp & Hf); [left; eauto 10|].
    destruct Hf as [-> ->]. right. rewrite app_nil_r. eauto.
  - intros [(tr1 & tr2 & a & -> & Hp & Hf)|(e & -> & Hp)]; [eauto 10|].
    exists tr, [], (Err e). by rewrite app_nil_r.
Qed.

Lemma exec_lift_ok {A B E} (r : result A E) (f : A -> prog (result B E)) tr b :
  exec (lift_ok r f) tr b <->
  (exists a, r = Ok a /\ exec (f a) tr b) \/ (exists e, r = Err e /\ b = Err e /\ tr = []).
Proof. destruct r; cbn; naive_solver. Qed.

Lemma exec_store {X} (op : StoreOp X) tr r : exec (store op) tr r <-> tr = [AStore op r].
Proof. cbn. naive_solver. Qed.
Lemma exec_store_or {X E} (f : StorageError -> E) (op : StoreOp X) tr r :
  exec (store_or f op) tr r <-> exists r0, r = map_err f r0 /\ tr = [AStore op r0].
Proof. cbn. naive_solver. Qed.
Lemma exec_now tr t : exec now tr t <-> tr = [ANow t].
Proof. cbn. naive_solver. Qed.
Lemma exec_rand n tr r : exec (rand n) tr r <-> tr = [ARand n r].
Proof. cbn. naive_solver. Qed.
Lemma exec_ret {A} (x : A) tr a : exec (Ret x) tr a <-> tr = [] /\ a = x.
Proof. done. Qed.
Lemma exec_emit h e tr u : exec (emit h e) tr u ->
  tr = if h_events h then [AEmit e] else [].
Proof. unfold emit. destruct (h_events h); cbn; naive_solver. Qed.
Lemma exec_hook_check h x tr d : exec (hook_check h x) tr d ->
  (h_rate_limiter h = true /\ tr = [ACheck x d]) \/ (h_rate_limiter h = false /\ tr = [] /\ d = Allow).
Proof. unfold hook_check. destruct (h_rate_limiter h); cbn; naive_solver. Qed.
Lemma exec_hook_record h x o tr u : exec (hook_record h x o) tr u ->
  tr = if h_rate_limiter h then [ARecord x o] else [].
Proof. unfold hook_record. destruct (h_rate_limiter h); cbn; naive_solver. Qed.

(** What an execution asked of the store, in order. *)
Definition stored_ops (tr : list Act) : list AnyOp :=
  flat_map (fun a => match a with AStore op _ => [any op] | _ => [] end) tr.
Lemma stored_ops_app tr1 tr2 : stored_ops (tr1 ++ tr2) = stored_ops tr1 ++ stored_ops tr2.
Proof. apply flat_map_app. Qed.

(** One step of inverting an execution, following the shape of the code. *)
Ltac exec_step :=
  match goal with
  | H : exec (Ret _) _ _ |- _ => destruct H as [-> H]; try (injection H as H); try subst; try done
  | H : exec (bind_ok _ _) _ (Ok _) |- _ =>
      let tr1 := fresh "tr" in let tr2 := fresh "tr" in let a := fresh "a" in
      apply exec_bind_ok in H as [(tr1 & tr2 & a & -> & ? & H)|(? & [=] & _)]
  | H : exec (bind_ok _ _) _ _ |- _ =>
      let tr1 := fresh "tr" in let tr2 := fresh "tr" in let a := fresh "a" in
      apply exec_bind_ok in H as [(tr1 & tr2 & a & -> & ? & H)|(? & ? & H)]
  | H : exec (bind _ _) _ _ |- _ =>
      let tr1 := fresh "tr" in let tr2 := fresh "tr" in let a := fresh "a" in
      apply exec_bind in H as (tr1 & tr2 & a & -> & ? & H)
  | H : exec (lift_ok _ _) _ (Ok _) |- _ => apply exec_lift_ok in H as [(? & ? & H)|(? & _ & [=] & _)]
  | H : exec (lift_ok _ _) _ _ |- _ => apply exec_lift_ok in H as [(? & ? & H)|(? & ? & ? & ->)]
  | H : exec (store _) _ _ |- _ => apply exec_store in H as ->
  | H : exec (store_or _ _) _ _ |- _ =>
      let r := fresh "r" in let E := fresh "E" in
      apply exec_store_or in H as (r & E & ->); destruct r; cbn in E; simplify_eq
  | H : exec now _ _ |- _ => apply exec_now in H as ->
  | H : exec (rand _) _ _ |- _ => apply exec_rand in H as ->
  | H : ok_or _ _ = Ok _ |- _ => apply ok_or_ok in H
  | H : exec (if ?b then _ else _) _ _ |- _ => destruct b eqn:?
  | H : exec (match ?x with _ => _ end) _ _ |- _ => destruct x eqn:?; simplify_eq
  end.
Ltac exec_inv := repeat (exec_step; try done).

(** Membership in a trace put together by [exec_inv]. *)
Ltac in_trace := repeat first
  [ apply elem_of_app; first [left; solve [in_trace] | right; solve [in_trace]]
  | apply elem_of_cons; first [left; reflexivity | right; solve [in_trace]]
  | assumption ].

(** What every execution asks of the store is among the permitted operations. *)
Lemma exec_all_ops P {A} (p : prog A) : forall tr a, all_ops P p -> exec p tr a ->
  forall X (op : StoreOp X) r, AStore op r ∈ tr -> P (any op).
Proof.
  induction p as [a|X op k IH|k IH|n k IH|a k IH|a o k IH|e k IH|x k IH|i k IH]; intros tr b Hall Hex;
    cbn in Hall, Hex.
  - destruct Hex as [-> _]. by intros ??? ?%elem_of_nil.
  - destruct Hex as (r & tr' & -> & Hex), Hall as [HP Hall].
    intros Y op' r' [Heq|Hin]%elem_of_cons; [|by eapply IH].
    by apply (f_equal (fun x => match x with AStore o _ => P (any o) | _ => True end)) in Heq as ->.
  - destruct Hex as (r & tr' & -> & Hex). intros Y op' r' [[=]|Hin]%elem_of_cons. by eapply IH.
  - destruct Hex as (r & tr' & -> & Hex). intros Y op' r' [[=]|Hin]%elem_of_cons. by eapply IH.
  - destruct Hex as (r & tr' & -> & Hex). intros Y op' r' [[=]|Hin]%elem_of_cons. by eapply IH.
  - destruct Hex as (tr' & -> & Hex). intros Y op' r' [[=]|Hin]%elem_of_cons. by eapply IH.
  - destruct Hex as (tr' & -> & Hex). intros Y op' r' [[=]|Hin]%elem_of_cons. by eapply IH.
  - destruct Hex as (tr' & -> & Hex). intros Y op' r' [[=]|Hin]%elem_of_cons. by eapply IH.
  - destruct Hex as (r & tr' & -> & Hex). intros Y op' r' [[=]|Hin]%elem_of_cons. by eapply IH.
Qed.

(** A continuation only meets what the first part can return. *)
Lemma all_ops_bind_exec P {A B} (p : prog A) (f : A -> prog B) :
  all_ops P p -> (forall a tr, exec p tr a -> all_ops P (f a)) -> all_ops P (bind p f).
Proof.
  induction p as [a|X op k IH|k IH|n k IH|a k IH|a o k IH|e k IH|x k IH|i k IH]; cbn; intros Hp Hf;
    [by eapply Hf|split; [apply Hp|]|..]; intros; apply IH; try apply Hp; intros b tr Hex; eapply Hf; eauto.
Qed.
Lemma all_ops_bind_ok_exec P {A B E} (p : prog (result A E)) (f : A -> prog (result B E)) :
  all_ops P p -> (forall a tr, exec p tr (Ok a) -> all_ops P (f a)) -> all_ops P (bind_ok p f).
Proof. intros Hp Hf. apply all_ops_bind_exec; [done|]. intros [a|e] tr Hex; [by eapply Hf|exact I]. Qed.

Section run.
Context `{HashOrder} (env : Env).

(** A run is one of the executions. *)
Lemma run_exec {A} (p : prog A) : forall w, exists tr, exec p tr (fst (run env p w)).
Proof.
  induction p as [a|X op k IH|k IH|n k IH|a k IH|a o k IH|e k IH|x k IH|i k IH]; intros w; cbn;
    [by exists []|destruct (store_call env op w) as [r g]|..].
  all: match goal with |- context [run env ?q ?w'] =>
         assert (Hex : exists tr, exec q tr (fst (run env q w'))) by apply IH end.
  all: destruct Hex as [tr Htr]; eauto 10.
Qed.

(** One that succeeds is an execution that succeeds. *)
Lemma run_exec_ok {A E} (p : prog (result A E)) w :
  is_ok (fst (run env p w)) = true -> exists tr a, exec p tr (Ok a).
Proof. destruct (run_exec p w) as [tr Htr]. destruct (fst (run env p w)); [eauto|done]. Qed.

Lemma step1_exec {A} (p p' : prog A) w w' : step1 env p w = Some (p', w') ->
  exists act, forall tr a, exec p' tr a -> exec p (act :: tr) a.
Proof.
  destruct p; cbn; try done; try (intros [= <- <-]; eexists; intros; eauto 10; done).
  destruct (store_call env op w) as [r g]. intros [= <- <-]. eexists; intros; eauto 10.
Qed.

(** So is what each request of a pool does, in every interleaving. *)
Lemma run_pool_exec {A} schedule : forall (pool : list (prog A)) w i p',
  fst (run_pool env schedule pool w) !! i = Some p' ->
  exists p pre, pool !! i = Some p /\ forall tr a, exec p' tr a -> exec p (pre ++ tr) a.
Proof.
  induction schedule as [|j rest IH]; intros pool w i p' Hi; cbn in Hi; [by exists p', []|].
  destruct (pool !! j) as [q|] eqn:Hj; [|by eapply IH].
  destruct (step1 env q w) as [[q' w']|] eqn:Hs; [|by eapply IH].
  apply IH in Hi as (p & pre & Hp & Hex).
  destruct (decide (i = j)) as [->|Hne].
  - rewrite list_lookup_insert_eq in Hp by (by eapply lookup_lt_Some). injection Hp as <-.
    apply step1_exec in Hs as [act Hact]. exists q, (act :: pre). split; [done|]. intros. apply Hact; auto.
  - rewrite list_lookup_insert_ne in Hp by done. eauto.
Qed.

Lemma run_pool_result {A} schedule (pool : list (prog A)) w i a :
  fst (run_pool env schedule pool w) !! i = Some (Ret a) ->
  exists p tr, pool !! i = Some p /\ exec p tr a.
Proof.
  intros (p & pre & Hp & Hex)%run_pool_exec. exists p, (pre ++ []). split; [done|]. by apply Hex.
Qed.
End run.
