(* ===== verification/Ops.v ===== *)
(** * What a program asks of the store

    The operations of the store by the table they touch, and the tactic that walks a
    handler down to its calls. *)
From S2P Require Import Prelude Time Types Store StoreFacts Effects Trace.

(** ** Operations by what they touch *)
Inductive OpKind : Type :=
| ReadOp | ClientWrite | DeviceWrite | CodeWrite | PushedWrite | TokenWrite | ConsentWrite
| ReplayClaim | SweepOp.
#[global] Instance OpKind_eq_dec : EqDecision OpKind. Proof. solve_decision. Defined.

Definition op_kind (o : AnyOp) : OpKind :=
  match projT2 o with
  | GetClient _ | GetDeviceGrant _ | FindDeviceGrantByUserCode _ | GetToken _ | GetRefreshToken _
  | GetConsent _ | FindConsent _ _ | ConsentsForSubject _ => ReadOp
  | PutClient _ | CompareAndSwapClient _ _ | DeleteClient _ _ => ClientWrite
  | PutDeviceGrant _ | TakeDeviceGrant _ | CompareAndSwapDeviceGrant _ _ => DeviceWrite
  | PutAuthorizationCode _ | CompareAndSwapAuthorizationCode _ _ | TakeAuthorizationCode _ => CodeWrite
  | PutPushedAuthorizationRequest _ | TakePushedAuthorizationRequest _ => PushedWrite
  | PutToken _ | DeleteToken _ | PutRefreshToken _ | RotateRefreshToken _ _ _ _ | TakeRefreshToken _
  | RevokeTokenFamily _ _ => TokenWrite
  | PutConsent _ | CompareAndSwapConsent _ _ | RevokeConsent _ _ => ConsentWrite
  | ClaimReplayId _ _ => ReplayClaim
  | SweepExpired _ => SweepOp
  end.

Definition within (kinds : list OpKind) (o : AnyOp) : Prop := coherent o /\ op_kind o ∈ kinds.

(** The access tokens an operation may write all satisfy [P]. *)
Definition writes_access (P : IssuedToken -> Prop) (o : AnyOp) : Prop :=
  match projT2 o with
  | PutToken t | RotateRefreshToken _ _ t _ => P t
  | _ => True
  end.

Definition every_token (P : IssuedToken -> Prop) (g : MemoryInner) : Prop :=
  forall k t, mi_tokens g !! k = Some t -> P t.

(** A property of the access tokens written is a property of those stored. *)
Lemma every_token_op `{HashOrder} P o g : writes_access P o -> every_token P g -> every_token P (run_op o g).
Proof.
  assert (Hmono : forall g', mi_tokens g' ⊆ mi_tokens g -> every_token P g -> every_token P g').
  { intros g' Hsub Hg k t Hk. eapply Hg. by eapply lookup_weaken. }
  assert (Hput : forall t g', mi_tokens g' = <[it_access_token t := t]> (mi_tokens g) -> P t ->
                 every_token P g -> every_token P g').
  { intros t g' Hg' HP Hg k t'. rewrite Hg'. intros [[_ <-]|[_ ?]]%lookup_insert_Some; eauto. }
  destruct o as [X op]; unfold run_op, writes_access; cbn [projT1 projT2].
  destruct op; intros Hw Hg; try (solve [apply Hmono; [frame|done]]); cbn [MemoryStorage.step].
  - unfold MemoryStorage.delete_client. case_match; [|done]. apply Hmono; [|done]. apply retain_subseteq.
  - unfold MemoryStorage.put_token. case_match; [done|]. by eapply Hput.
  - apply Hmono; [|done]. apply delete_subseteq.
  - unfold MemoryStorage.rotate_refresh_token. case_match; [done|]. eapply Hput; [|done..].
    by destruct next.
  - unfold MemoryStorage.revoke_token_family. case_match; [|done]. apply Hmono; [|done]. apply retain_subseteq.
  - unfold MemoryStorage.revoke_consent. do 3 (case_match; try done). apply Hmono; [|done]. apply retain_subseteq.
  - apply Hmono; [|done]. apply retain_subseteq.
Qed.

Lemma all_ops_mono (P Q : AnyOp -> Prop) {A} (p : prog A) :
  (forall o, P o -> Q o) -> all_ops P p -> all_ops Q p.
Proof. intros HPQ. induction p; cbn; intuition eauto. Qed.

Lemma within_mono ks ks' {A} (p : prog A) : ks ⊆ ks' -> all_ops (within ks) p -> all_ops (within ks') p.
Proof. intros Hsub. apply all_ops_mono. intros o [? ?]. split; auto. Qed.

(** Follows the shape of a program down to its calls. *)
Ltac ops_step :=
  match goal with
  | |- all_ops _ (bind_ok _ _) => apply all_ops_bind_ok
  | |- all_ops _ (lift_ok _ _) => apply all_ops_lift_ok
  | |- all_ops _ (bind _ _) => apply all_ops_bind
  | |- all_ops _ (emit _ _) => apply all_ops_emit
  | |- all_ops _ (hook_check _ _) => apply all_ops_hook_check
  | |- all_ops _ (hook_record _ _ _) => apply all_ops_hook_record
  | |- all_ops _ (Ret _) => exact I
  | |- all_ops _ (Now _) => cbn [all_ops]
  | |- all_ops _ (Rand _ _) => cbn [all_ops]
  | |- all_ops _ (Sign _ _) => cbn [all_ops]
  | |- all_ops _ (DoWork _ _) => cbn [all_ops]
  | |- all_ops _ (OnStore _ _) => cbn [all_ops]
  | |- all_ops _ now => intros ?
  | |- all_ops _ (rand _) => intros ?
  | |- all_ops _ (store _) => split
  | |- all_ops _ (store_or _ _) => split
  | |- all_ops _ (if ?b then _ else _) => destruct b eqn:?
  | |- all_ops _ (match ?x with _ => _ end) => destruct x eqn:?
  | |- forall _, _ => intros ?
  | |- _ /\ _ => split
  | |- True => exact I
  | |- all_ops _ (bind (OnStore _ _) _) => cbn [bind]
  | |- within _ (any _) => split; [exact I|cbn; set_solver]
  | |- writes_access _ (any _) => exact I
  end.
Ltac ops := repeat ops_step; auto with oauth.
