(* ===== verification/Linear.v ===== *)
(** * Things the store hands out once

    An unspent authorization code, a device grant, an unclaimed replay identifier and a pushed request
    are linear: an operation takes them out of the store, and few operations put them
    (back) in.  [Linear] is the interface of such a thing; [owns] checks that a program
    only claims a success while it holds it; [at_most_one] then holds of every
    interleaving of such programs.  The four instances are at the end. *)
From S2P Require Import Prelude Time Codec Scope Types Store StoreFacts Effects Trace.

Class Linear `{HashOrder} := {
  (** The thing is in the store. *)
  available : MemoryInner -> bool;
  (** The answer hands it to the caller. *)
  gains : forall X, StoreOp X -> result X StorageError -> bool;
  (** The operation may put it into the store. *)
  needs : AnyOp -> bool;
  (** What a well-formed store's answers satisfy. *)
  answer_ok : forall X, StoreOp X -> result X StorageError -> Prop;
  linear_step : forall X (op : StoreOp X) g, store_wf g ->
    answer_ok X op (fst (MemoryStorage.step X op g)) /\
    (Nat.b2n (available (snd (MemoryStorage.step X op g))) + Nat.b2n (gains X op (fst (MemoryStorage.step X op g)))
     <= Nat.b2n (available g) + Nat.b2n (needs (any op)))%nat;
  linear_err : forall X (op : StoreOp X) e, answer_ok X op (Err e) /\ gains X op (Err e) = false;
}.
Arguments gains {_ _ X} op r.
Arguments answer_ok {_ _ X} op r.

Section linear.
Context `{Linear}.

(** [h] counts what the program holds; a success needs to hold the thing at the end. *)
Fixpoint owns {A} (h : nat) (p : prog A) (Q : nat -> A -> Prop) : Prop :=
  match p with
  | Ret a => Q h a
  | OnStore op k =>
      (Nat.b2n (needs (any op)) <= h)%nat /\
      forall r, answer_ok op r -> owns (h - Nat.b2n (needs (any op)) + Nat.b2n (gains op r)) (k r) Q
  | Now k => forall t, owns h (k t) Q
  | Rand n k => forall r, owns h (k r) Q
  | Check x k => forall d, owns h (k d) Q
  | RecordAttempt _ _ k | Emit _ k | DoWork _ k => owns h k Q
  | Sign _ k => forall s, owns h (k s) Q
  end.

Lemma owns_bind {A B} (p : prog A) (f : A -> prog B) Q : forall h,
  owns h p (fun h' a => owns h' (f a) Q) -> owns h (bind p f) Q.
Proof. induction p; cbn; intros h' Hp; auto; try (by intros; auto). destruct Hp as [? Hp]. auto. Qed.

Lemma owns_bind_ok {A B E} (p : prog (result A E)) (f : A -> prog (result B E)) (Q : nat -> result B E -> Prop) h :
  (forall h e, Q h (Err e)) ->
  owns h p (fun h' r => match r with Ok a => owns h' (f a) Q | Err _ => True end) ->
  owns h (bind_ok p f) Q.
Proof.
  intros HQ Hp. apply owns_bind. revert Hp. generalize h. clear h.
  induction p as [[a|e]| | | | | | | |]; cbn; intros h Hp; eauto.
  destruct Hp as [? Hp]. split; eauto.
Qed.

Lemma owns_mono {A} (p : prog A) (Q Q' : nat -> A -> Prop) : forall h,
  (forall h a, Q h a -> Q' h a) -> owns h p Q -> owns h p Q'.
Proof. induction p; cbn; intros h HQ Hp; eauto. destruct Hp as [? Hp]. split; eauto. Qed.

(** A program that never touches the thing leaves the count as it is. *)
Definition neutral (o : AnyOp) : Prop :=
  needs o = false /\ forall r, gains (projT2 o) r = false.

Lemma owns_neutral {A} (p : prog A) (Q : nat -> A -> Prop) h :
  all_ops neutral p -> (forall a, Q h a) -> owns h p Q.
Proof.
  intros Hp HQ. revert Hp. induction p; cbn; intros Hp; auto.
  destruct Hp as [[Hn Hg] Hp]. rewrite Hn. cbn. split; [lia|]. intros r _.
  specialize (Hg r). cbn in Hg. rewrite Hg. cbn. rewrite Nat.add_0_r, Nat.sub_0_r. auto.
Qed.

(** A program that never puts the thing back holds at least as much at the end. *)
Lemma owns_affine {A} (p : prog A) (Q : nat -> A -> Prop) : forall h,
  all_ops (fun o => needs o = false) p -> (forall h' a, (h <= h')%nat -> Q h' a) -> owns h p Q.
Proof.
  induction p as [a|X op k IH|k IH|n k IH|a k IH|a o k IH|e k IH|x k IH|i k IH]; cbn; intros h Hp HQ; auto.
  destruct Hp as [Hn Hp]. rewrite Hn. cbn. split; [lia|]. intros r _. apply IH; [auto|].
  intros h' a Hle. apply HQ. lia.
Qed.

(** Once the first part of such a program holds the thing, so does the end. *)
Lemma owns_then_affine {A B E} (p : prog (result A E)) (f : A -> prog (result B E)) : forall h,
  all_ops (fun o => needs o = false) (bind_ok p f) ->
  owns h p (fun h' r => Nat.b2n (is_ok r) <= h')%nat ->
  owns h (bind_ok p f) (fun h' r => Nat.b2n (is_ok r) <= h')%nat.
Proof.
  unfold bind_ok. induction p as [[a|e]|X op k IH|k IH|n k IH|a k IH|a o k IH|e k IH|x k IH|i k IH];
    cbn; intros h Hops Hp; auto.
  - apply owns_affine; [done|]. intros h' [b|] Hle; cbn; lia.
  - destruct Hops as [Hn Hops], Hp as [Hle Hp]. split; auto.
Qed.

Lemma owns_store {X A} (op : StoreOp X) (k : result X StorageError -> prog A) Q h :
  neutral (any op) -> (forall r, owns h (k r) Q) -> owns h (bind (store op) k) Q.
Proof. intros Hn Hk. apply owns_bind, owns_neutral; [by split|done]. Qed.

(** ** The pool *)
Context {A : Type} (env : Env) (good : A -> bool).

Definition honest (h : nat) (p : prog A) : Prop := owns h p (fun h a => Nat.b2n (good a) <= h)%nat.

(** What is in the store and what the programs hold never exceeds one. *)
Definition at_most_one_held (pool : list (prog A)) (g : MemoryInner) : Prop :=
  exists hs, Forall2 honest hs pool /\ (Nat.b2n (available g) + sum_list hs <= 1)%nat /\ store_wf g.

Lemma sum_list_insert (hs : list nat) : forall i h h', hs !! i = Some h ->
  (sum_list (<[i := h']> hs) + h = sum_list hs + h')%nat.
Proof.
  induction hs as [|x hs IH]; intros [|i] h h' Hi; [done|done| |].
  - injection Hi as ->. change (h' + sum_list hs + h = h + sum_list hs + h')%nat. lia.
  - change (x + sum_list (<[i:=h']> hs) + h = x + sum_list hs + h')%nat. rewrite <- !Nat.add_assoc.
    by rewrite (IH i h h' Hi).
Qed.

Lemma sum_list_lookup (hs : list nat) : forall i h, hs !! i = Some h -> (h <= sum_list hs)%nat.
Proof.
  induction hs as [|x hs IH]; intros [|i] h Hi; [done|done| |].
  - injection Hi as ->. change (h <= h + sum_list hs)%nat. lia.
  - change (h <= x + sum_list hs)%nat. apply IH in Hi. lia.
Qed.

Lemma store_call_linear {X} (op : StoreOp X) w r g : store_wf (w_store w) ->
  store_call env op w = (r, g) ->
  store_wf g /\ answer_ok op r /\
  (Nat.b2n (available g) + Nat.b2n (gains op r) <=
   Nat.b2n (available (w_store w)) + Nat.b2n (needs (any op)))%nat.
Proof.
  intros Hwf Hc. pose proof (store_wf_op (any op) _ Hwf) as Hwf'. unfold run_op in Hwf'. cbn in Hwf'.
  pose proof (linear_step X op _ Hwf) as Hs. unfold store_call in Hc.
  destruct (MemoryStorage.step X op (w_store w)) as [r0 g0] eqn:Hstep. cbn in Hwf', Hs.
  destruct Hs as [Ha Hle], (env_fault env (w_step w)) as [[e|e]|]; simplify_eq; auto;
    destruct (linear_err X op e) as [? Hg]; rewrite Hg; cbn; split_and!; auto; lia.
Qed.

Lemma honest_step h (p p' : prog A) w w' : store_wf (w_store w) ->
  honest h p -> step1 env p w = Some (p', w') ->
  store_wf (w_store w') /\
  exists h', honest h' p' /\
    (Nat.b2n (available (w_store w')) + h' <= Nat.b2n (available (w_store w)) + h)%nat.
Proof.
  intros Hwf Hp Hs. unfold honest in *. destruct p; cbn in Hp, Hs; simplify_eq; eauto.
  destruct (store_call env op w) as [r g] eqn:Hc. simplify_eq. cbn.
  destruct (store_call_linear _ _ _ _ Hwf Hc) as (Hwf' & Ha & Hle). destruct Hp as [Hn Hp].
  split; [done|]. eexists; split; [by apply Hp|]. lia.
Qed.

Lemma run_pool_at_most_one schedule : forall pool w,
  at_most_one_held pool (w_store w) ->
  let (pool', w') := run_pool env schedule pool w in at_most_one_held pool' (w_store w').
Proof.
  induction schedule as [|i rest IH]; intros pool w Hinv; [done|]. cbn [run_pool].
  destruct (pool !! i) as [p|] eqn:Hi; [|by apply IH].
  destruct (step1 env p w) as [[p' w']|] eqn:Hs; [|by apply IH].
  apply IH. destruct Hinv as (hs & Hall & Hle & Hwf).
  destruct (Forall2_lookup_r _ _ _ _ _ Hall Hi) as (h & Hh & Hp).
  destruct (honest_step _ _ _ _ _ Hwf Hp Hs) as (Hwf' & h' & Hp' & Hle').
  exists (<[i := h']> hs). split_and!; [by apply Forall2_insert| |done].
  pose proof (sum_list_insert _ _ _ h' Hh). pose proof (sum_list_lookup _ _ _ Hh). lia.
Qed.

(** Of any number of programs that start with nothing in hand, at most one succeeds. *)
Lemma at_most_one schedule pool w i j a b :
  store_wf (w_store w) -> Forall (honest 0) pool ->
  fst (run_pool env schedule pool w) !! i = Some (Ret a) ->
  fst (run_pool env schedule pool w) !! j = Some (Ret b) ->
  good a = true -> good b = true -> i = j.
Proof.
  intros Hwf Hall Hi Hj Ha Hb.
  assert (Hinv : at_most_one_held pool (w_store w)).
  { exists (replicate (List.length pool) 0%nat). split_and!; [|by rewrite sum_list_replicate, Nat.mul_0_r; destruct (available _); cbn; lia|done].
    apply Forall2_replicate_l; [|done]. done. }
  pose proof (run_pool_at_most_one schedule pool w Hinv) as Hend.
  destruct (run_pool env schedule pool w) as [pool' w']. cbn in Hi, Hj. destruct Hend as (hs & Hhs & Hle & _).
  destruct (Forall2_lookup_r _ _ _ _ _ Hhs Hi) as (h1 & Hh1 & H1).
  destruct (Forall2_lookup_r _ _ _ _ _ Hhs Hj) as (h2 & Hh2 & H2).
  unfold honest in H1, H2. cbn in H1, H2. rewrite Ha in H1. rewrite Hb in H2. cbn in H1, H2.
  destruct (decide (i = j)) as [|Hne]; [done|]. exfalso.
  pose proof (sum_list_insert hs i h1 0 Hh1).
  assert (Hj' : <[i := 0%nat]> hs !! j = Some h2) by (by rewrite list_lookup_insert_ne).
  pose proof (sum_list_lookup _ _ _ Hj'). lia.
Qed.
End linear.

(** ** An unspent authorization code *)
Section code.
Context `{HashOrder} (code : string).

Definition unspent (r : AuthorizationCodeRecord) : bool := is_none (minted (ac_state r)).

Definition code_available (g : MemoryInner) : bool := is_some_and (mi_codes g !! code) unspent.
Definition code_gains X (op : StoreOp X) : result X StorageError -> bool :=
  match op in StoreOp X return result X StorageError -> bool with
  | TakeAuthorizationCode c => fun r =>
      match r with Ok (Some record) => (c == code) && unspent record | _ => false end
  | _ => fun _ => false
  end.
Definition code_needs (o : AnyOp) : bool :=
  match projT2 o with
  | PutAuthorizationCode r | CompareAndSwapAuthorizationCode _ r => (ac_code r == code) && unspent r
  | _ => false
  end.
Definition code_answer_ok X (op : StoreOp X) : result X StorageError -> Prop :=
  match op in StoreOp X return result X StorageError -> Prop with
  | TakeAuthorizationCode c => fun r => forall record, r = Ok (Some record) -> ac_code record = c
  | _ => fun _ => True
  end.

Lemma b2n_le_1 b : (Nat.b2n b <= 1)%nat.
Proof. destruct b; cbn; lia. Qed.

(** Inserting a record makes the code available only if the record is an unspent one. *)
Lemma code_available_insert r g :
  (Nat.b2n (code_available (set_codes (<[ac_code r := r]> (mi_codes g)) g)) <=
   Nat.b2n (code_available g) + Nat.b2n ((ac_code r == code) && unspent r))%nat.
Proof.
  unfold code_available; cbn. case_bool_decide as Hc; cbn.
  - rewrite Hc, lookup_insert_eq. cbn. lia.
  - rewrite lookup_insert_ne by done. lia.
Qed.
Lemma code_available_retain p g g' : mi_codes g' = retain p (mi_codes g) ->
  (Nat.b2n (code_available g') <= Nat.b2n (code_available g))%nat.
Proof.
  intros Hg. unfold code_available. rewrite Hg, lookup_retain. destruct (mi_codes g !! code) as [r|]; cbn; [|lia].
  destruct (p r); cbn; lia.
Qed.

Lemma code_step X (op : StoreOp X) g : store_wf g ->
  code_answer_ok X op (fst (MemoryStorage.step X op g)) /\
  (Nat.b2n (code_available (snd (MemoryStorage.step X op g)))
   + Nat.b2n (code_gains X op (fst (MemoryStorage.step X op g)))
   <= Nat.b2n (code_available g) + Nat.b2n (code_needs (any op)))%nat.
Proof.
  intros Hwf.
  assert (Hframe : forall g', mi_codes g' = mi_codes g ->
    (Nat.b2n (code_available g') + 0 <= Nat.b2n (code_available g) + 0)%nat).
  { intros g' Hg. unfold code_available. rewrite Hg. lia. }
  destruct op; cbn [code_answer_ok code_gains]; unfold code_needs; cbn [any projT2 Nat.b2n].
  all: try (solve [split; [exact I|apply Hframe; frame]]).
  all: cbn [MemoryStorage.step].
  - split; [exact I|]. unfold MemoryStorage.delete_client. case_match; [|by apply Hframe]. cbn [snd].
    rewrite !Nat.add_0_r. by eapply code_available_retain.
  - split; [exact I|]. rewrite Nat.add_0_r. apply code_available_insert.
  - split; [exact I|]. rewrite Nat.add_0_r. unfold MemoryStorage.compare_and_swap_authorization_code.
    repeat case_match; cbn [snd]; [apply code_available_insert|lia|lia].
  - cbn. split.
    + intros record [= Hr]. by apply (wf_codes _ Hwf) in Hr.
    + unfold code_available. cbn. rewrite Nat.add_0_r. case_bool_decide as Hc.
      * subst. rewrite lookup_delete_eq. by destruct (mi_codes g !! code).
      * rewrite lookup_delete_ne by done. destruct (mi_codes g !! code0); cbn; lia.
  - split; [exact I|]. unfold MemoryStorage.revoke_consent.
    do 3 (case_match; try by apply Hframe). cbn [snd]. rewrite !Nat.add_0_r. by eapply code_available_retain.
  - split; [exact I|]. rewrite !Nat.add_0_r. by eapply code_available_retain.
Qed.

Definition code_linear : Linear := {|
  available := code_available; gains := code_gains; needs := code_needs; answer_ok := code_answer_ok;
  linear_step := code_step;
  linear_err X op e := ltac:(destruct op; cbn; done) |}.
End code.

(** ** A device grant *)
Section device.
Context `{HashOrder} (device_code : string).

Definition grant_available (g : MemoryInner) : bool := is_some (mi_device_by_code g !! device_code).
Definition grant_gains X (op : StoreOp X) : result X StorageError -> bool :=
  match op in StoreOp X return result X StorageError -> bool with
  | TakeDeviceGrant d => fun r => match r with Ok (Some _) => d == device_code | _ => false end
  | _ => fun _ => false
  end.
Definition grant_needs (o : AnyOp) : bool :=
  match projT2 o with PutDeviceGrant d => dg_device_code d == device_code | _ => false end.

Lemma grant_available_retain p g g' : mi_device_by_code g' = retain p (mi_device_by_code g) ->
  (Nat.b2n (grant_available g') <= Nat.b2n (grant_available g))%nat.
Proof.
  intros Hg. unfold grant_available. rewrite Hg, lookup_retain. destruct (mi_device_by_code g !! device_code) as [r|]; cbn; [|lia].
  destruct (p r); cbn; lia.
Qed.

Lemma grant_available_write grant g g' : MemoryStorage.write_device_grant grant g = Some g' ->
  (Nat.b2n (grant_available g') <=
   Nat.b2n (grant_available g) + Nat.b2n (dg_device_code grant == device_code))%nat.
Proof.
  intros [index ->]%write_device_grant_frame. unfold grant_available; cbn.
  case_bool_decide as Hc; cbn.
  - rewrite Hc, lookup_insert_eq. cbn. lia.
  - rewrite lookup_insert_ne by done. lia.
Qed.

Lemma grant_step X (op : StoreOp X) g : store_wf g -> True /\
  (Nat.b2n (grant_available (snd (MemoryStorage.step X op g)))
   + Nat.b2n (grant_gains X op (fst (MemoryStorage.step X op g)))
   <= Nat.b2n (grant_available g) + Nat.b2n (grant_needs (any op)))%nat.
Proof.
  intros Hwf. split; [done|].
  assert (Hframe : forall g', mi_device_by_code g' = mi_device_by_code g ->
    (Nat.b2n (grant_available g') + 0 <= Nat.b2n (grant_available g) + 0)%nat).
  { intros g' Hg. unfold grant_available. rewrite Hg. lia. }
  destruct op; cbn [grant_gains]; unfold grant_needs; cbn [any projT2 Nat.b2n].
  all: try (solve [apply Hframe; frame]).
  all: cbn [MemoryStorage.step].
  - unfold MemoryStorage.delete_client. case_match; [|by apply Hframe]. cbn [snd].
    rewrite !Nat.add_0_r. by eapply grant_available_retain.
  - rewrite Nat.add_0_r. unfold MemoryStorage.put_device_grant. case_match eqn:Hw; cbn [snd]; [|lia].
    by apply grant_available_write.
  - rewrite Nat.add_0_r. unfold MemoryStorage.take_device_grant.
    destruct (mi_device_by_code g !! _) as [d|] eqn:Hd; cbn [fst snd Nat.b2n]; [|by rewrite Nat.add_0_r].
    unfold grant_available; cbn. case_bool_decide as Hc.
    + subst. by rewrite lookup_delete_eq, Hd.
    + rewrite lookup_delete_ne by done. cbn. lia.
  - rewrite !Nat.add_0_r. unfold MemoryStorage.compare_and_swap_device_grant.
    destruct (mi_device_by_code g !! _) as [d|] eqn:Hd; [|done]. case_match; [|done].
    case_match eqn:Hw; [|done]. cbn [snd]. apply write_device_grant_frame in Hw as [index ->].
    unfold grant_available; cbn. destruct (decide (dg_device_code updated = device_code)) as [<-|].
    + by rewrite lookup_insert_eq, Hd.
    + by rewrite lookup_insert_ne.
  - unfold MemoryStorage.revoke_consent.
    do 3 (case_match; try by apply Hframe). cbn [snd]. rewrite !Nat.add_0_r. by eapply grant_available_retain.
  - rewrite !Nat.add_0_r. by eapply grant_available_retain.
Qed.

Definition grant_linear : Linear := {|
  available := grant_available; gains := grant_gains; needs := grant_needs; answer_ok _ _ _ := True;
  linear_step := grant_step;
  linear_err X op e := ltac:(destruct op; cbn; done) |}.
End device.

(** ** The claim of a replay identifier *)
Section replay.
Context `{HashOrder} (id : string).

Definition id_available (g : MemoryInner) : bool := is_none (mi_replay_ids g !! id).
Definition id_gains X (op : StoreOp X) : result X StorageError -> bool :=
  match op in StoreOp X return result X StorageError -> bool with
  | ClaimReplayId i _ => fun r => match r with Ok true => i == id | _ => false end
  | _ => fun _ => false
  end.
(** A sweep may free the identifier. *)
Definition id_needs (o : AnyOp) : bool := match projT2 o with SweepExpired _ => true | _ => false end.

Definition id_answer_ok X (op : StoreOp X) : result X StorageError -> Prop :=
  match op in StoreOp X return result X StorageError -> Prop with
  | GetClient c => fun r => forall client, r = Ok (Some client) -> c_client_id client = c
  | _ => fun _ => True
  end.

Lemma id_step X (op : StoreOp X) g : store_wf g ->
  id_answer_ok X op (fst (MemoryStorage.step X op g)) /\
  (Nat.b2n (id_available (snd (MemoryStorage.step X op g)))
   + Nat.b2n (id_gains X op (fst (MemoryStorage.step X op g)))
   <= Nat.b2n (id_available g) + Nat.b2n (id_needs (any op)))%nat.
Proof.
  intros Hwf. split.
  { destruct op; try exact I. intros client [= Hc]. by apply (wf_clients _ Hwf) in Hc. }
  assert (Hframe : forall g', mi_replay_ids g' = mi_replay_ids g ->
    (Nat.b2n (id_available g') + 0 <= Nat.b2n (id_available g) + 0)%nat).
  { intros g' Hg. unfold id_available. rewrite Hg. lia. }
  destruct op; cbn [id_gains]; unfold id_needs; cbn [any projT2 Nat.b2n].
  all: try (solve [apply Hframe; frame]).
  all: cbn [MemoryStorage.step].
  - unfold MemoryStorage.claim_replay_id. destruct (mi_replay_ids g !! id0) eqn:Hi; cbn [fst snd is_some Nat.b2n];
      [lia|]. unfold id_available; cbn. case_bool_decide as Hc.
    + subst. by rewrite lookup_insert_eq, Hi.
    + rewrite lookup_insert_ne by done. cbn. lia.
  - pose proof (b2n_le_1 (id_available (snd (MemoryStorage.sweep_expired now g)))). lia.
Qed.

Definition id_linear : Linear := {|
  available := id_available; gains := id_gains; needs := id_needs; answer_ok := id_answer_ok;
  linear_step := id_step;
  linear_err X op e := ltac:(destruct op; cbn; done) |}.
End replay.

(** ** A pushed request *)
Section pushed.
Context `{HashOrder} (uri : string).

Definition pushed_available (g : MemoryInner) : bool := is_some (mi_pushed g !! uri).
Definition pushed_gains X (op : StoreOp X) : result X StorageError -> bool :=
  match op in StoreOp X return result X StorageError -> bool with
  | TakePushedAuthorizationRequest u => fun r => match r with Ok (Some _) => u == uri | _ => false end
  | _ => fun _ => false
  end.
Definition pushed_needs (o : AnyOp) : bool :=
  match projT2 o with PutPushedAuthorizationRequest r => par_request_uri r == uri | _ => false end.
Definition pushed_answer_ok X (op : StoreOp X) : result X StorageError -> Prop :=
  match op in StoreOp X return result X StorageError -> Prop with
  | TakePushedAuthorizationRequest u => fun r => forall record, r = Ok (Some record) -> par_request_uri record = u
  | _ => fun _ => True
  end.

Lemma pushed_available_retain p g g' : mi_pushed g' = retain p (mi_pushed g) ->
  (Nat.b2n (pushed_available g') <= Nat.b2n (pushed_available g))%nat.
Proof.
  intros Hg. unfold pushed_available. rewrite Hg, lookup_retain. destruct (mi_pushed g !! uri) as [r|]; cbn; [|lia].
  destruct (p r); cbn; lia.
Qed.

Lemma pushed_step X (op : StoreOp X) g : store_wf g ->
  pushed_answer_ok X op (fst (MemoryStorage.step X op g)) /\
  (Nat.b2n (pushed_available (snd (MemoryStorage.step X op g)))
   + Nat.b2n (pushed_gains X op (fst (MemoryStorage.step X op g)))
   <= Nat.b2n (pushed_available g) + Nat.b2n (pushed_needs (any op)))%nat.
Proof.
  intros Hwf.
  assert (Hframe : forall g', mi_pushed g' = mi_pushed g ->
    (Nat.b2n (pushed_available g') + 0 <= Nat.b2n (pushed_available g) + 0)%nat).
  { intros g' Hg. unfold pushed_available. rewrite Hg. lia. }
  destruct op; cbn [pushed_answer_ok pushed_gains]; unfold pushed_needs; cbn [any projT2 Nat.b2n].
  all: try (solve [split; [exact I|apply Hframe; frame]]).
  all: cbn [MemoryStorage.step].
  - split; [exact I|]. unfold MemoryStorage.delete_client. case_match; [|by apply Hframe]. cbn [snd].
    rewrite !Nat.add_0_r. by eapply pushed_available_retain.
  - split; [exact I|]. rewrite Nat.add_0_r. unfold MemoryStorage.put_pushed_authorization_request.
    case_match; cbn [snd]; [lia|]. unfold pushed_available; cbn. case_bool_decide as Hc; cbn.
    + rewrite Hc, lookup_insert_eq. cbn. lia.
    + rewrite lookup_insert_ne by done. lia.
  - cbn. split.
    + intros record [= Hr]. by apply (wf_pushed _ Hwf) in Hr.
    + unfold pushed_available. cbn. rewrite Nat.add_0_r. case_bool_decide as Hc.
      * subst. rewrite lookup_delete_eq. by destruct (mi_pushed g !! uri).
      * rewrite lookup_delete_ne by done. destruct (mi_pushed g !! request_uri); cbn; lia.
  - split; [exact I|]. rewrite !Nat.add_0_r. by eapply pushed_available_retain.
Qed.

Definition pushed_linear : Linear := {|
  available := pushed_available; gains := pushed_gains; needs := pushed_needs; answer_ok := pushed_answer_ok;
  linear_step := pushed_step;
  linear_err X op e := ltac:(destruct op; cbn; done) |}.
End pushed.
