(* ===== verification/Rar.v ===== *)
(** * Rich authorization requests (rar.rs)

    The comparison of two authorization details, the bounded parser, the check of
    the supported types and the narrowing of a grant's details. *)
From S2P Require Import Prelude Time Codec Scope Types.

Definition MAX_AUTHORIZATION_DETAILS_BYTES : nat := N.to_nat 4096.
Definition MAX_AUTHORIZATION_DETAILS_ELEMENTS : nat := 16.
Definition MAX_DETAIL_LIST_ENTRIES : nat := 16.
Definition MAX_AUTHORIZATION_DETAILS_DEPTH : nat := 8.
Definition MAX_MEMBER_DEPTH : nat := MAX_AUTHORIZATION_DETAILS_DEPTH - 2.

(** [is_subset] on the lists of an element *)
Definition list_is_subset (subset superset : list string) : bool :=
  forallb (fun want => existsb (fun g => g == want) superset) subset.

Definition is_narrowing_of (self granted : AuthorizationDetail) : bool :=
  (ad_type self == ad_type granted)
  && (ad_identifier self == ad_identifier granted)
  && list_is_subset (ad_locations self) (ad_locations granted)
  && list_is_subset (ad_actions self) (ad_actions granted)
  && list_is_subset (ad_datatypes self) (ad_datatypes granted)
  && list_is_subset (ad_privileges self) (ad_privileges granted)
  && (ad_other self == ad_other granted).

Fixpoint depth (value : Value) : nat :=
  match value with
  | VArray items => S (foldr Nat.max 0 (map depth items))
  | VObject members => S (foldr Nat.max 0 (map (fun kv => depth (snd kv)) members))
  | _ => 1
  end.

Definition rar_error (d : string) : ErrorResponse :=
  with_description (error_new InvalidAuthorizationDetails) d.

(** The checks of one element, in the order of the loop body. *)
Definition check_element (detail : AuthorizationDetail) : result unit ErrorResponse :=
  if str_is_empty (ad_type detail) then
    Err (rar_error "each authorization_details element needs a non-empty type (RFC 9396 s2)")
  else if existsb (fun l => Nat.ltb MAX_DETAIL_LIST_ENTRIES (List.length l))
            [ad_locations detail; ad_actions detail; ad_datatypes detail; ad_privileges detail] then
    Err (rar_error "an authorization_details element lists more locations, actions, datatypes or privileges than this server accepts")
  else if existsb (fun kv => Nat.ltb MAX_MEMBER_DEPTH (depth (snd kv))) (ad_other detail) then
    Err (rar_error "authorization_details is nested more deeply than this server accepts")
  else Ok tt.

Fixpoint check_elements (details : list AuthorizationDetail) : result unit ErrorResponse :=
  match details with
  | [] => Ok tt
  | d :: ds => let? _ := check_element d in check_elements ds
  end.

Definition rar_parse `{Serde} (raw : string) : result AuthorizationDetails ErrorResponse :=
  if Nat.ltb MAX_AUTHORIZATION_DETAILS_BYTES (str_len raw) then
    Err (rar_error "authorization_details is larger than this server accepts")
  else
    let? details := ok_or (details_from_str raw)
      (rar_error "authorization_details must be a JSON array of objects, each with a string type member (RFC 9396 s2)") in
    if Nat.ltb MAX_AUTHORIZATION_DETAILS_ELEMENTS (List.length details) then
      Err (rar_error "authorization_details has more elements than this server accepts")
    else
      let? _ := check_elements details in
      Ok details.

Definition require_supported_types (self : AuthorizationDetails) (supported : option (list string))
  : result unit ErrorResponse :=
  let supported := unwrap_or supported [] in
  if forallb (fun d => existsb (fun s => s == ad_type d) supported) self then Ok tt
  else Err (rar_error "unknown authorization_details type (RFC 9396 s5)").

(** The first granted element that is not consumed and that [want] narrows. *)
Fixpoint position (want : AuthorizationDetail) (granted : list AuthorizationDetail)
    (consumed : list bool) : option nat :=
  match granted, consumed with
  | g :: gs, c :: cs =>
      if negb c && is_narrowing_of want g then Some 0 else S <$> position want gs cs
  | _, _ => None
  end.

Fixpoint consume_all (granted : list AuthorizationDetail) (consumed : list bool)
    (requested : list AuthorizationDetail) : bool :=
  match requested with
  | [] => true
  | want :: rest =>
      match position want granted consumed with
      | Some i => consume_all granted (<[i := true]> consumed) rest
      | None => false
      end
  end.

Definition narrow (self requested : AuthorizationDetails) : result AuthorizationDetails ErrorResponse :=
  match requested with
  | [] => Ok self
  | _ =>
      if consume_all self (replicate (List.length self) false) requested then Ok requested
      else Err (rar_error "authorization_details was not granted by the authorization request (RFC 9396 s6)")
  end.

(** ** Facts *)
Lemma list_is_subset_spec a b : list_is_subset a b = true <-> (forall x, x ∈ a -> x ∈ b).
Proof.
  unfold list_is_subset. rewrite forallb_forall. setoid_rewrite existsb_exists.
  setoid_rewrite bool_decide_eq_true. setoid_rewrite <- list_elem_of_In.
  split; [intros Hs x (y & Hy & ->)%Hs; done|intros Hs x Hx; exists x; auto].
Qed.

Lemma is_narrowing_of_spec d g : is_narrowing_of d g = true <->
  ad_type d = ad_type g /\ ad_identifier d = ad_identifier g /\
  (forall x, x ∈ ad_locations d -> x ∈ ad_locations g) /\
  (forall x, x ∈ ad_actions d -> x ∈ ad_actions g) /\
  (forall x, x ∈ ad_datatypes d -> x ∈ ad_datatypes g) /\
  (forall x, x ∈ ad_privileges d -> x ∈ ad_privileges g) /\ ad_other d = ad_other g.
Proof.
  unfold is_narrowing_of. rewrite !andb_true_iff, !bool_decide_eq_true, !list_is_subset_spec. tauto.
Qed.

Lemma is_narrowing_of_refl d : is_narrowing_of d d = true.
Proof. apply is_narrowing_of_spec. tauto. Qed.

Lemma is_narrowing_of_trans a b c :
  is_narrowing_of a b = true -> is_narrowing_of b c = true -> is_narrowing_of a c = true.
Proof.
  rewrite !is_narrowing_of_spec.
  intros (-> & -> & ? & ? & ? & ? & ->) (-> & -> & ? & ? & ? & ? & ->). naive_solver.
Qed.

(** [requested] is matched, element by element, to distinct positions of
    [granted], each requested element a narrowing of the granted one. *)
Definition matched (granted requested : AuthorizationDetails) : Prop :=
  exists ps : list nat, NoDup ps /\
    Forall2 (fun want i => exists g, granted !! i = Some g /\ is_narrowing_of want g = true) requested ps.

Lemma position_Some want granted : forall consumed i, position want granted consumed = Some i ->
  consumed !! i = Some false /\ exists g, granted !! i = Some g /\ is_narrowing_of want g = true.
Proof.
  induction granted as [|g gs IH]; intros [|c cs] i; cbn [position]; try done.
  destruct (negb c && is_narrowing_of want g) eqn:Hb.
  - intros [= <-]. bools. destruct c; naive_solver.
  - intros (j & Hj & ->)%fmap_Some. apply IH in Hj. naive_solver.
Qed.

Lemma consume_all_matched granted requested : forall consumed,
  consume_all granted consumed requested = true ->
  exists ps, NoDup ps /\ Forall (fun i => consumed !! i = Some false) ps /\
    Forall2 (fun want i => exists g, granted !! i = Some g /\ is_narrowing_of want g = true) requested ps.
Proof.
  induction requested as [|want rest IH]; intros consumed; cbn [consume_all].
  - intros _. exists []. split_and!; constructor.
  - destruct (position want granted consumed) as [i|] eqn:Hp; [|done].
    apply position_Some in Hp as [Hc Hg]. intros (ps & Hnd & Hfree & Hm)%IH.
    assert (Hnew : forall j, j ∈ ps -> j <> i /\ consumed !! j = Some false).
    { intros j Hj. rewrite Forall_forall in Hfree. specialize (Hfree j Hj).
      apply list_lookup_insert_Some in Hfree as [(_ & ? & _)|[? ?]]; done. }
    exists (i :: ps). split_and!.
    + constructor; [|done]. intros Hi. by apply Hnew in Hi as [[] _].
    + constructor; [done|]. apply Forall_forall. naive_solver.
    + by constructor.
Qed.

Lemma narrow_cases self requested out : narrow self requested = Ok out ->
  matched self out /\ (out = self /\ requested = [] \/ out = requested /\ requested <> []).
Proof.
  unfold narrow. destruct requested as [|want rest].
  - intros [= <-]. split; [|by left].
    exists (seq 0 (List.length self)). split; [apply NoDup_seq|].
    apply Forall2_same_length_lookup. rewrite length_seq. split; [done|].
    intros i w j Hw Hj. apply lookup_seq in Hj as [-> _]. exists w. split; [done|].
    apply is_narrowing_of_refl.
  - destruct (consume_all _ _ _) eqn:Hc; [|done]. intros [= <-]. split; [|by right].
    apply consume_all_matched in Hc as (ps & ? & _ & ?). by exists ps.
Qed.

Lemma matched_length self out : matched self out -> (List.length out <= List.length self)%nat.
Proof.
  intros (ps & Hnd & Hm).
  rewrite (Forall2_length _ _ _ Hm), <- (length_seq (List.length self) 0).
  apply submseteq_length, NoDup_submseteq; [done|].
  intros i (j & Hi)%list_elem_of_lookup. apply elem_of_seq. split; [lia|].
  destruct (Forall2_lookup_r _ _ _ _ _ Hm Hi) as (w & _ & g & Hg & _).
  by apply lookup_lt_Some in Hg.
Qed.

(** Narrowing never widens and never multiplies: when [narrow] accepts a request
    it returns the request (or the whole grant when nothing was asked), every
    returned element asks for no more than the granted element it is matched to,
    and distinct elements are matched to distinct granted ones, so at most as many
    elements come out as were granted, and from an empty grant nothing comes out. *)
Theorem narrow_sound self requested out :
  narrow self requested = Ok out ->
  matched self out /\ (List.length out <= List.length self)%nat /\
  (out = self /\ requested = [] \/ out = requested /\ requested <> []).
Proof. intros [Hm Hor]%narrow_cases. split_and!; [done|by apply matched_length|done]. Qed.

Definition demo_detail (actions : list string) : AuthorizationDetail := {|
  ad_type := "account"; ad_locations := []; ad_actions := actions; ad_datatypes := [];
  ad_identifier := None; ad_privileges := []; ad_other := [] |}.

Lemma narrow_sound_witness :
  matched [demo_detail ["read"; "write"]; demo_detail ["read"]] [demo_detail ["read"]].
Proof.
  apply (narrow_sound [demo_detail ["read"; "write"]; demo_detail ["read"]] [demo_detail ["read"]]).
  reflexivity.
Defined.

Lemma matched_trans a b c : matched a b -> matched b c -> matched a c.
Proof.
  intros (ps & Hnd & Hm) (qs & Hnd' & Hm').
  assert (Hlt : forall q, q ∈ qs -> is_Some (ps !! q)).
  { intros q (k & Hq)%list_elem_of_lookup.
    destruct (Forall2_lookup_r _ _ _ _ _ Hm' Hq) as (w & _ & g & Hg & _).
    destruct (Forall2_lookup_l _ _ _ _ _ Hm Hg) as (p & Hp & _). by rewrite Hp. }
  exists (map (fun q => unwrap_or (ps !! q) 0) qs). split.
  - apply NoDup_fmap_2_strong; [|done]. intros x y Hx Hy Hxy.
    destruct (Hlt _ Hx) as [px Hpx], (Hlt _ Hy) as [py Hpy]. rewrite Hpx, Hpy in Hxy. cbn in Hxy.
    subst. exact (NoDup_lookup ps x y py Hnd Hpx Hpy).
  - apply Forall2_fmap_r. eapply Forall2_impl; [exact Hm'|]. cbn. intros w q (g & Hg & Hn).
    destruct (Forall2_lookup_l _ _ _ _ _ Hm Hg) as (p & Hp & g' & Hg' & Hn').
    rewrite Hp. cbn. exists g'. split; [done|]. by eapply is_narrowing_of_trans.
Qed.

(** Narrowing composes: details narrowed at one leg of a grant and narrowed again
    at the next are still matched, element by element and without repetition, to
    what was granted first. *)
Theorem narrow_composes granted r1 r2 out1 out2 :
  narrow granted r1 = Ok out1 -> narrow out1 r2 = Ok out2 -> matched granted out2.
Proof. intros [H1 _]%narrow_cases [H2 _]%narrow_cases. by eapply matched_trans. Qed.

Lemma narrow_composes_witness :
  matched [demo_detail ["read"; "write"]; demo_detail ["pay"]] [demo_detail ["read"]].
Proof.
  apply (narrow_composes [demo_detail ["read"; "write"]; demo_detail ["pay"]]
           [demo_detail ["read"; "write"]] [demo_detail ["read"]] [demo_detail ["read"; "write"]]);
    reflexivity.
Defined.

(** The match is first-fit: a request that does match the grant, element by
    element without repetition, is refused when an earlier element takes the
    position a later one needs.  Two granted elements do not always satisfy two
    distinct narrower requests. *)
Theorem narrow_first_fit_refuses :
  let granted := [demo_detail ["read"; "write"]; demo_detail ["read"]] in
  let requested := [demo_detail ["read"]; demo_detail ["read"; "write"]] in
  matched granted requested /\ is_ok (narrow granted requested) = false /\
  is_ok (narrow granted (reverse requested)) = true.
Proof.
  split_and!; [|reflexivity..]. exists [1; 0]%nat. split.
  - by apply (bool_decide_eq_true_1 (NoDup [1; 0]%nat)).
  - repeat constructor; cbn; eexists; split; reflexivity.
Qed.

(** The bounds every accepted array satisfies. *)
Definition element_bounded (d : AuthorizationDetail) : Prop :=
  ad_type d <> EmptyString /\
  Forall (fun l => List.length l <= MAX_DETAIL_LIST_ENTRIES)%nat
    [ad_locations d; ad_actions d; ad_datatypes d; ad_privileges d] /\
  Forall (fun kv => depth (snd kv) <= MAX_MEMBER_DEPTH)%nat (ad_other d).

Lemma existsb_false_Forall {A} (p : A -> bool) l : existsb p l = false <-> Forall (fun x => p x = false) l.
Proof.
  induction l as [|x l IH]; cbn; [split; [constructor|done]|].
  rewrite orb_false_iff, IH, Forall_cons. done.
Qed.

Lemma check_element_ok d : check_element d = Ok tt <-> element_bounded d.
Proof.
  unfold check_element, element_bounded. destruct (str_is_empty (ad_type d)) eqn:He.
  { apply str_is_empty_true in He. naive_solver. }
  assert (Hne : ad_type d <> EmptyString) by (intros Hx; by rewrite Hx in He).
  assert (Hlists : existsb (fun l => Nat.ltb MAX_DETAIL_LIST_ENTRIES (List.length l))
            [ad_locations d; ad_actions d; ad_datatypes d; ad_privileges d] = false <->
          Forall (fun l => List.length l <= MAX_DETAIL_LIST_ENTRIES)%nat
            [ad_locations d; ad_actions d; ad_datatypes d; ad_privileges d]).
  { rewrite existsb_false_Forall. f_equiv. intros l. by rewrite Nat.ltb_ge. }
  assert (Hdepth : existsb (fun kv => Nat.ltb MAX_MEMBER_DEPTH (depth (snd kv))) (ad_other d) = false <->
          Forall (fun kv => depth (snd kv) <= MAX_MEMBER_DEPTH)%nat (ad_other d)).
  { rewrite existsb_false_Forall. f_equiv. intros kv. by rewrite Nat.ltb_ge. }
  rewrite <- Hlists, <- Hdepth. do 2 (destruct (existsb _ _); [naive_solver|]). naive_solver.
Qed.

Lemma check_elements_ok ds : check_elements ds = Ok tt <-> Forall element_bounded ds.
Proof.
  induction ds as [|d ds IH]; cbn [check_elements]; [split; [constructor|done]|].
  rewrite and_then_ok, Forall_cons, <- check_element_ok, <- IH.
  split; [intros ([] & ? & ?)|]; naive_solver.
Qed.

(** The parser of [authorization_details] accepts exactly the JSON arrays within
    its five bounds: bytes, elements, a non-empty type, entries per list, and
    nesting depth; what it returns is what the JSON reader read. *)
Theorem rar_parse_exact `{Serde} raw ds :
  rar_parse raw = Ok ds <->
    details_from_str raw = Some ds /\ (str_len raw <= MAX_AUTHORIZATION_DETAILS_BYTES)%nat /\
    (List.length ds <= MAX_AUTHORIZATION_DETAILS_ELEMENTS)%nat /\ Forall element_bounded ds.
Proof.
  unfold rar_parse. destruct (Nat.ltb_spec MAX_AUTHORIZATION_DETAILS_BYTES (str_len raw)).
  { split; [done|]. intros (_ & ? & _). lia. }
  rewrite and_then_ok. setoid_rewrite ok_or_ok. rewrite <- check_elements_ok. split.
  - intros (d & Hd & Hk).
    destruct (Nat.ltb_spec MAX_AUTHORIZATION_DETAILS_ELEMENTS (List.length d)); [done|].
    apply and_then_ok in Hk as ([] & ? & [= <-]). done.
  - intros (Hd & _ & Hlen & Hc). exists ds. split; [done|].
    destruct (Nat.ltb_spec MAX_AUTHORIZATION_DETAILS_ELEMENTS (List.length ds)); [lia|].
    by rewrite Hc.
Qed.
