(* ===== verification/Consent.v ===== *)
(** * Remembered consent and step-up authentication (consent.rs)

    What a consent record covers, how it is widened, and how a reported user
    authentication is held to the [acr_values] and [max_age] of a request. *)
From S2P Require Import Prelude Time Codec Scope Types.
Local Open Scope Z_scope.

Definition MAX_CONSENT_RESOURCES : nat := 32.
Definition MAX_ACR_VALUES : nat := 16.

(** [RequestedDetails::of] followed by [is_empty] *)
Definition requested_details_empty (details : AuthorizationDetails) : bool :=
  match details with [] => true | _ => false end.

Definition covers (self : ConsentRecord) (scope : ScopeSet) (resource : list string)
    (details : AuthorizationDetails) : bool :=
  ScopeSet.is_subset scope (cr_scope self)
  && forallb (fun r => existsb (fun x => x == r) (cr_resource self)) resource
  && requested_details_empty details.

(** The loop of [extend] over the requested resources. *)
Fixpoint extend_resources (mine resource : list string) : list string :=
  match resource with
  | [] => mine
  | r :: rest =>
      if Nat.leb MAX_CONSENT_RESOURCES (List.length mine) then mine
      else if existsb (fun x => x == r) mine then extend_resources mine rest
      else extend_resources (mine ++ [r]) rest
  end.

Definition extend (self : ConsentRecord) (scope : ScopeSet) (resource : list string) : ConsentRecord :=
  let widened_scope :=
    if negb (ScopeSet.is_subset scope (cr_scope self)) then
      match ScopeSet.from_tokens (cr_scope self ++ scope) with
      | Ok widened => widened
      | Err _ => cr_scope self
      end
    else cr_scope self in
  {| cr_consent_id := cr_consent_id self; cr_client_id := cr_client_id self;
     cr_subject := cr_subject self; cr_scope := widened_scope;
     cr_resource := extend_resources (cr_resource self) resource;
     cr_granted_at := cr_granted_at self; cr_authentication := cr_authentication self |}.

(** [str::parse::<u64>()]: an optional plus sign, then at least one digit. *)
Definition parse_u64 (s : string) : option Z :=
  let digits := match s with String "+" s' => s' | _ => s end in
  if str_is_empty digits || negb (str_forall is_ascii_digit digits) then None
  else let v := Loopback.digits_value 0 (bytes digits) in
       if v <=? 2 ^ 64 - 1 then Some v else None.

Definition no_requirement : AuthenticationRequirement := {| acr_values := []; max_age := None |}.

Definition from_raw (acr : option string) (age : option string)
  : result AuthenticationRequirement ErrorResponse :=
  let? values :=
    match acr with
    | Some raw =>
        let words := split_nonempty " " raw in
        if Nat.ltb MAX_ACR_VALUES (List.length (firstn (MAX_ACR_VALUES + 1) words)) then
          Err (with_description (error_new InvalidRequest)
            "acr_values names more authentication context classes than this server accepts")
        else Ok words
    | None => Ok []
    end in
  let? limit :=
    match age with
    | Some raw =>
        match parse_u64 raw with
        | Some secs => Ok (Some (from_secs secs))
        | None => Err (with_description (error_new InvalidRequest)
                         "max_age must be a non-negative number of seconds")
        end
    | None => Ok None
    end in
  Ok {| acr_values := values; max_age := limit |}.

Definition from_request (request : AuthorizationRequest) : result AuthenticationRequirement ErrorResponse :=
  from_raw (ar_acr_values request) (ar_max_age request).

Definition requirement_is_empty (self : AuthenticationRequirement) : bool :=
  match acr_values self with [] => is_none (max_age self) | _ => false end.

Inductive StepUpFailure : Type := NotReported | Stale | AcrNotMet.
#[global] Instance StepUpFailure_eq_dec : EqDecision StepUpFailure. Proof. solve_decision. Defined.

(** [Authentication::age] *)
Definition age (self : Authentication) (now : SystemTime) : option Duration :=
  duration_since now (auth_time self).

Definition satisfied_by (self : AuthenticationRequirement) (authentication : option Authentication)
    (now : SystemTime) : result unit StepUpFailure :=
  if requirement_is_empty self then Ok tt
  else match authentication with
  | None => Err NotReported
  | Some a =>
      if is_some_and (max_age self) (fun limit => unwrap_or (age a now) 0 >? limit) then Err Stale
      else
        match acr_values self with
        | [] => Ok tt
        | wants =>
            match acr a with
            | Some c => if existsb (fun want => want == c) wants then Ok tt else Err AcrNotMet
            | None => Err AcrNotMet
            end
        end
  end.

Definition step_up_description (f : StepUpFailure) : string :=
  match f with
  | NotReported => "no user authentication was reported for this request"
  | Stale => "the user authentication is older than the requested max_age"
  | AcrNotMet => "the user authentication does not satisfy the requested acr_values"
  end.

(** [StepUpFailure::error_response] *)
Definition step_up_error (f : StepUpFailure) : ErrorResponse :=
  with_description (error_new InsufficientUserAuthentication) (step_up_description f).

(** ** Facts *)
Lemma existsb_eq_elem (l : list string) x : existsb (fun y => y == x) l = true <-> x ∈ l.
Proof.
  rewrite existsb_exists. setoid_rewrite bool_decide_eq_true. setoid_rewrite <- list_elem_of_In.
  naive_solver.
Qed.

Lemma covers_spec self scope resource details :
  ScopeSet.wf (cr_scope self) -> ScopeSet.wf scope ->
  covers self scope resource details = true <->
    (forall s, s ∈ scope -> s ∈ cr_scope self) /\ (forall r, r ∈ resource -> r ∈ cr_resource self) /\
    details = [].
Proof.
  intros [Hs _] [Hq _]. unfold covers. rewrite !andb_true_iff, ScopeSet.is_subset_sorted by done.
  rewrite forallb_forall. setoid_rewrite existsb_eq_elem. setoid_rewrite <- list_elem_of_In.
  destruct details; cbn; naive_solver.
Qed.

Lemma extend_resources_spec resource : forall mine,
  exists new, extend_resources mine resource = mine ++ new /\ (forall r, r ∈ new -> r ∈ resource) /\
    (List.length (mine ++ new) <= Nat.max (List.length mine) MAX_CONSENT_RESOURCES)%nat /\
    (List.length (mine ++ new) < MAX_CONSENT_RESOURCES -> forall r, r ∈ resource -> r ∈ mine ++ new)%nat.
Proof.
  induction resource as [|r rest IH]; intros mine; cbn [extend_resources].
  - exists []. rewrite app_nil_r. split_and!; [done|set_solver|lia|set_solver].
  - destruct (Nat.leb_spec MAX_CONSENT_RESOURCES (List.length mine)).
    { exists []. rewrite app_nil_r. split_and!; [done|set_solver|lia|lia]. }
    destruct (existsb _ mine) eqn:He.
    + apply existsb_eq_elem in He. destruct (IH mine) as (new & -> & Hn & Hl & Hf).
      exists new. split_and!; [done|set_solver|done|]. intros Hlt x [->|Hx]%elem_of_cons; [set_solver|auto].
    + destruct (IH (mine ++ [r])) as (new & -> & Hn & Hl & Hf). rewrite <- app_assoc in *.
      exists (r :: new). split_and!; [done|set_solver| |].
      * rewrite !length_app in *. cbn in *. lia.
      * intros Hlt x [->|Hx]%elem_of_cons; [set_solver|auto].
Qed.

(** Widening a consent record only adds: the scope becomes exactly the union of
    the recorded and the newly approved scope and stays well formed, the recorded
    resources stay in place and in order, only approved resources are appended,
    the list never grows past its cap, and while it is below the cap every approved
    resource is recorded.  A request covered before is covered after. *)
Theorem extend_only_widens self scope resource :
  ScopeSet.wf (cr_scope self) -> ScopeSet.wf scope ->
  let r := extend self scope resource in
  ScopeSet.wf (cr_scope r) /\
  (forall s, s ∈ cr_scope r <-> s ∈ cr_scope self \/ s ∈ scope) /\
  (exists new, cr_resource r = cr_resource self ++ new /\ forall x, x ∈ new -> x ∈ resource) /\
  (List.length (cr_resource r) <= Nat.max (List.length (cr_resource self)) MAX_CONSENT_RESOURCES)%nat /\
  (List.length (cr_resource r) < MAX_CONSENT_RESOURCES -> forall x, x ∈ resource -> x ∈ cr_resource r)%nat /\
  (forall scope' resource' details', ScopeSet.wf scope' ->
     covers self scope' resource' details' = true -> covers r scope' resource' details' = true).
Proof.
  intros Hs Hq r.
  assert (Hscope : ScopeSet.wf (cr_scope r) /\ forall s, s ∈ cr_scope r <-> s ∈ cr_scope self \/ s ∈ scope).
  { unfold r, extend; cbn. destruct (ScopeSet.is_subset scope (cr_scope self)) eqn:Hsub; cbn.
    - rewrite ScopeSet.is_subset_sorted in Hsub by (apply Hs || apply Hq). naive_solver.
    - rewrite ScopeSet.from_tokens_Forall by (apply Forall_app; split; [apply Hs|apply Hq]).
      split; [apply ScopeSet.sorted_wf, Forall_app; split; [apply Hs|apply Hq]|].
      intros s. rewrite ScopeSet.sorted_elem. apply elem_of_app. }
  destruct Hscope as [Hwf Hmem].
  destruct (extend_resources_spec resource (cr_resource self)) as (new & Hnew & Hin & Hlen & Hfull).
  assert (Hr : cr_resource r = cr_resource self ++ new) by done.
  split_and!; [done|done|eauto|by rewrite Hr|by rewrite Hr|].
  intros sc res det Hwf'. rewrite !covers_spec by done. rewrite Hr. set_solver.
Qed.

Definition demo_consent : ConsentRecord := {|
  cr_consent_id := "c1"; cr_client_id := "app"; cr_subject := "alice"; cr_scope := ["read"];
  cr_resource := ["https://api"]; cr_granted_at := 0; cr_authentication := None |}.

Lemma extend_only_widens_witness :
  covers (extend demo_consent ["write"] ["https://pay"]) ["read"] ["https://api"] [] = true.
Proof.
  apply (extend_only_widens demo_consent ["write"] ["https://pay"]); [..|reflexivity];
    split; repeat constructor.
Defined.

Lemma age_max a now : unwrap_or (age a now) 0 = Z.max 0 (now - auth_time a).
Proof. unfold age, duration_since. destruct (Z.leb_spec (auth_time a) now); cbn; lia. Qed.

(** The two tests of a reported authentication. *)
Definition too_old (req : AuthenticationRequirement) (a : Authentication) (now : SystemTime) : bool :=
  is_some_and (max_age req) (fun limit => unwrap_or (age a now) 0 >? limit).
Definition class_met (req : AuthenticationRequirement) (a : Authentication) : bool :=
  match acr_values req with
  | [] => true
  | wants => is_some_and (acr a) (fun c => existsb (fun want => want == c) wants)
  end.

Lemma satisfied_by_cases req auth now :
  satisfied_by req auth now =
    if requirement_is_empty req then Ok tt
    else match auth with
         | None => Err NotReported
         | Some a => if too_old req a now then Err Stale
                     else if class_met req a then Ok tt else Err AcrNotMet
         end.
Proof.
  unfold satisfied_by, class_met. destruct (requirement_is_empty req), auth as [a|]; try done.
  fold (too_old req a now). destruct (too_old req a now); [done|].
  by destruct (acr_values req), (acr a).
Qed.

Lemma requirement_is_empty_true req :
  requirement_is_empty req = true <-> acr_values req = [] /\ max_age req = None.
Proof. unfold requirement_is_empty. destruct (acr_values req), (max_age req); naive_solver. Qed.

Lemma too_old_true req a now : too_old req a now = true <->
  exists limit, max_age req = Some limit /\ limit < Z.max 0 (now - auth_time a).
Proof. unfold too_old. rewrite is_some_and_true. by setoid_rewrite Z.gtb_lt; rewrite age_max. Qed.

Lemma class_met_true req a : class_met req a = true <->
  (acr_values req <> [] -> exists c, acr a = Some c /\ c ∈ acr_values req).
Proof.
  unfold class_met. destruct (acr_values req) as [|w ws]; [naive_solver|].
  rewrite is_some_and_true. setoid_rewrite existsb_eq_elem. naive_solver.
Qed.

(** Step-up is decided exactly as the request asks: an empty requirement always
    passes; a missing report fails any other; otherwise the report passes exactly
    when it is no older than [max_age] (a login the clock has not reached counts as
    age zero) and its class is one of the requested [acr_values].  A login that is
    too old is reported as stale whatever its class. *)
Theorem satisfied_by_spec req auth now :
  (satisfied_by req auth now = Ok tt <->
     (acr_values req = [] /\ max_age req = None) \/
     exists a, auth = Some a /\
       (forall limit, max_age req = Some limit -> Z.max 0 (now - auth_time a) <= limit) /\
       (acr_values req <> [] -> exists c, acr a = Some c /\ c ∈ acr_values req)) /\
  (satisfied_by req auth now = Err Stale <->
     exists a limit, auth = Some a /\ max_age req = Some limit /\
       limit < Z.max 0 (now - auth_time a)).
Proof.
  rewrite satisfied_by_cases. destruct (requirement_is_empty req) eqn:He.
  { apply requirement_is_empty_true in He as [Hv Hm]. rewrite Hm. split; [tauto|].
    split; [done|]. intros (a & limit & _ & [=] & _). }
  assert (Hne : ~ (acr_values req = [] /\ max_age req = None))
    by (intros Hx%requirement_is_empty_true; congruence).
  destruct auth as [a|]; [|split; split; try done; [intros [?|(? & [=] & _)]|intros (? & ? & [=] & _)]; done].
  pose proof (too_old_true req a now) as Ho. pose proof (class_met_true req a) as Hc.
  assert (Hfresh : too_old req a now = false <->
    forall limit, max_age req = Some limit -> Z.max 0 (now - auth_time a) <= limit).
  { rewrite <- not_true_iff_false, Ho. split.
    - intros Hn limit Hl. apply Z.nlt_ge. intros Hlt. apply Hn. eauto.
    - intros Hf (limit & Hl & Hlt). apply Hf in Hl. lia. }
  destruct (too_old req a now).
  - split; split; try done.
    + intros [?|(a' & [= <-] & Hf & _)]; [done|]. by apply Hfresh in Hf.
    + intros _. destruct (proj1 Ho eq_refl) as (limit & ? & ?). eauto 6.
  - split.
    + split.
      * intros Hx. right. exists a. destruct (class_met req a); [|done]. tauto.
      * intros [?|(a' & [= <-] & _ & Hm)]; [done|]. apply Hc in Hm. by rewrite Hm.
    + split; [by destruct (class_met req a)|]. intros (a' & limit & [= <-] & Hl & Hlt).
      assert (false = true) by (apply Ho; eauto). done.
Qed.

Lemma parse_u64_range s v : parse_u64 s = Some v -> 0 <= v < 2 ^ 64.
Proof.
  unfold parse_u64. set (digits := match s with String "+" s' => s' | _ => s end).
  destruct (str_is_empty digits || _) eqn:He; [done|]. bools. unfold str_forall in *.
  destruct (Z.leb_spec (Loopback.digits_value 0 (bytes digits)) (2 ^ 64 - 1)); [|done].
  intros [= <-]. split; [by apply Loopback.digits_value_nonneg|lia].
Qed.

(** A requirement read from a request is bounded and faithful: it is accepted
    exactly when at most sixteen classes are named and [max_age], if present, is
    the decimal text of a [u64]; the classes kept are the space-separated words in
    order, and every refusal is an [invalid_request]. *)
Theorem from_raw_spec acr age :
  match from_raw acr age with
  | Ok req =>
      acr_values req = split_nonempty " " (unwrap_or acr EmptyString) /\
      (List.length (acr_values req) <= MAX_ACR_VALUES)%nat /\
      max_age req = option_map from_secs (age ≫= parse_u64) /\
      (is_Some age -> exists secs, max_age req = Some (from_secs secs) /\ 0 <= secs < 2 ^ 64)
  | Err e =>
      error e = InvalidRequest /\
      ((MAX_ACR_VALUES < List.length (split_nonempty " " (unwrap_or acr EmptyString)))%nat \/
       exists raw, age = Some raw /\ parse_u64 raw = None)
  end.
Proof.
  unfold from_raw.
  assert (Hw : forall words : list string,
    Nat.ltb MAX_ACR_VALUES (List.length (firstn (MAX_ACR_VALUES + 1) words)) =
    Nat.ltb MAX_ACR_VALUES (List.length words)).
  { intros words. rewrite length_firstn. apply eq_iff_eq_true. rewrite !Nat.ltb_lt. lia. }
  assert (Hage : match (match age with
      | Some raw => match parse_u64 raw with
          | Some secs => Ok (Some (from_secs secs))
          | None => Err (with_description (error_new InvalidRequest)
                           "max_age must be a non-negative number of seconds") end
      | None => Ok None end : result (option Duration) ErrorResponse) with
    | Ok limit => limit = option_map from_secs (age ≫= parse_u64) /\
        (is_Some age -> exists secs, limit = Some (from_secs secs) /\ 0 <= secs < 2 ^ 64)
    | Err e => error e = InvalidRequest /\ exists raw, age = Some raw /\ parse_u64 raw = None
    end).
  { destruct age as [raw|]; cbn; [|split; [done|by intros [? ?]]].
    destruct (parse_u64 raw) as [v|] eqn:Hv; cbn; [|eauto].
    split; [done|]. intros _. eauto using parse_u64_range. }
  destruct acr as [raw|]; cbn [unwrap_or].
  - rewrite Hw. destruct (Nat.ltb_spec MAX_ACR_VALUES (List.length (split_nonempty " " raw))); cbn.
    + split; [done|by left].
    + destruct (match age with Some _ => _ | None => _ end); cbn; naive_solver.
  - cbn. destruct (match age with Some _ => _ | None => _ end); cbn; [|naive_solver].
    split_and!; [done|unfold MAX_ACR_VALUES; lia|naive_solver..].
Qed.
