(* ===== verification/Jws.v ===== *)
(** * Signed tokens (jwt.rs)

    The algorithms and their tables, public keys read from JSON and their RFC 7638
    thumbprints, the compact serialization and its parser, the header and claim
    accessors, and HMAC-SHA256.  The signature backends are parameters. *)
From S2P Require Import Prelude Time Codec Scope Types.
Local Open Scope Z_scope.

Abbreviation VerifyError := string (only parsing).

(** ** Algorithms *)
Definition jose_name (a : JwsAlg) : string :=
  match a with Es256 => "ES256" | Rs256 => "RS256" | EdDsa => "EdDSA" | Ps256 => "PS256" end.

Definition alg_key_kind (a : JwsAlg) : KeyKind :=
  match a with
  | Es256 => KEc P256
  | Rs256 | Ps256 => KRsa
  | EdDsa => KOkp Ed25519
  end.

Definition slot (a : JwsAlg) : nat :=
  match a with Es256 => 0 | Rs256 => 1 | EdDsa => 2 | Ps256 => 3 end.

Definition ALL : list JwsAlg := [Es256; Rs256; EdDsa; Ps256].

Definition classify_alg (name : string) : option JwsAlg :=
  if name == "ES256" then Some Es256
  else if name == "RS256" then Some Rs256
  else if name == "EdDSA" then Some EdDsa
  else if name == "PS256" then Some Ps256
  else None.

(** ** [AlgAllowList] and [JwsVerifiers]: arrays indexed by [slot] *)
Record AlgAllowList : Type := { aal_allowed : list bool }.
Definition allow_all : AlgAllowList := {| aal_allowed := replicate 4 true |}.
Definition allow_only (algs : list JwsAlg) : AlgAllowList :=
  {| aal_allowed := foldl (fun allowed a => <[slot a := true]> allowed) (replicate 4 false) algs |}.
Definition allow_fapi : AlgAllowList := allow_only [Es256; Ps256].
Definition is_allowed (l : AlgAllowList) (a : JwsAlg) : bool := unwrap_or (aal_allowed l !! slot a) false.

(** A [JwsVerifier]: the algorithm it checks and its [verify]. *)
Record JwsVerifier : Type := {
  jv_alg : JwsAlg;
  jv_verify : Jwk -> string -> string -> bool;
}.

Record JwsVerifiers : Type := { jv_slots : list (option JwsVerifier) }.
Definition no_verifiers : JwsVerifiers := {| jv_slots := replicate 4 None |}.
Definition install (v : JwsVerifier) (t : JwsVerifiers) : JwsVerifiers :=
  {| jv_slots := <[slot (jv_alg v) := Some v]> (jv_slots t) |}.
Definition verifier_get (t : JwsVerifiers) (a : JwsAlg) : option JwsVerifier :=
  unwrap_or (jv_slots t !! slot a) None.
Definition installed (t : JwsVerifiers) : list JwsAlg :=
  List.filter (fun a => is_some (verifier_get t a)) ALL.
Definition restrict_to (allow : AlgAllowList) (t : JwsVerifiers) : JwsVerifiers :=
  {| jv_slots := foldl (fun slots a => if is_allowed allow a then slots else <[slot a := None]> slots)
                   (jv_slots t) ALL |}.

(** ** Keys *)
Definition jwk_key_kind (k : Jwk) : KeyKind :=
  match k with
  | JwkEc crv _ _ _ => KEc crv
  | JwkRsa _ _ _ => KRsa
  | JwkOkp crv _ _ => KOkp crv
  end.

Definition consistent (a : JwsAlg) (k : Jwk) : bool := alg_key_kind a == jwk_key_kind k.

Definition ec_jose_name (c : EcCurve) : string := match c with P256 => "P-256" end.
Definition okp_jose_name (c : OkpCurve) : string := match c with Ed25519 => "Ed25519" end.

Definition PRIVATE_JWK_MEMBERS : list string := ["d"; "p"; "q"; "dp"; "dq"; "qi"; "oth"; "k"].

Definition contains_key (name : string) (m : list (string * Value)) : bool := is_some (map_get name m).

(** A double quote. *)
Definition q : string := String (ascii_of_nat 34) EmptyString.

Section jws.
Context `{Crypto, Serde}.

Definition check_coordinate (b64 : string) : result unit VerifyError :=
  match b64url_decode b64 with
  | Some decoded =>
      if Nat.eqb (str_len decoded) 32 then Ok tt
      else Err "a P-256 coordinate is exactly 32 base64url-encoded bytes"
  | None => Err "a P-256 coordinate is exactly 32 base64url-encoded bytes"
  end.

(** The closures [string] and [kid] of [Jwk::from_json]. *)
Definition jwk_string (object : list (string * Value)) (name : string) : result string VerifyError :=
  ok_or (map_get name object ≫= as_str) "the JWK is missing a required member".
Definition jwk_kid (object : list (string * Value)) : option string :=
  map_get "kid" object ≫= as_str.

Definition from_json (value : Value) : result Jwk VerifyError :=
  let? object := ok_or (match value with VObject m => Some m | _ => None end)
                   "a JWK must be a JSON object" in
  if existsb (fun member => contains_key member object) PRIVATE_JWK_MEMBERS then
    Err "the JWK carries a private or symmetric key parameter"
  else
    let? kty := jwk_string object "kty" in
    if kty == "EC" then
      let? crv := jwk_string object "crv" in
      if crv != "P-256" then Err "only the P-256 curve is supported"
      else
        let? x := jwk_string object "x" in
        let? y := jwk_string object "y" in
        let? _ := check_coordinate x in
        let? _ := check_coordinate y in
        Ok (JwkEc P256 x y (jwk_kid object))
    else if kty == "RSA" then
      let? n := jwk_string object "n" in
      let? e := jwk_string object "e" in
      if is_none (b64url_decode n) || is_none (b64url_decode e) then
        Err "an RSA n/e is base64urlUInt (unpadded base64url)"
      else Ok (JwkRsa n e (jwk_kid object))
    else if kty == "OKP" then
      let? crv := jwk_string object "crv" in
      if crv != "Ed25519" then Err "only the Ed25519 curve is supported"
      else
        let? x := jwk_string object "x" in
        if is_some_and (b64url_decode x) (fun b => Nat.eqb (str_len b) 32)
        then Ok (JwkOkp Ed25519 x (jwk_kid object))
        else Err "an Ed25519 public key is exactly 32 base64url-encoded bytes"
    else Err "only EC, RSA, and OKP keys are supported".

(** The canonical JSON that [thumbprint] hashes. *)
Definition thumbprint_json (k : Jwk) : string :=
  match k with
  | JwkEc crv x y _ =>
      "{" +:+ q +:+ "crv" +:+ q +:+ ":" +:+ q +:+ ec_jose_name crv +:+ q +:+ "," +:+ q +:+ "kty" +:+ q
      +:+ ":" +:+ q +:+ "EC" +:+ q +:+ "," +:+ q +:+ "x" +:+ q +:+ ":" +:+ q +:+ x +:+ q +:+ ","
      +:+ q +:+ "y" +:+ q +:+ ":" +:+ q +:+ y +:+ q +:+ "}"
  | JwkRsa n e _ =>
      "{" +:+ q +:+ "e" +:+ q +:+ ":" +:+ q +:+ e +:+ q +:+ "," +:+ q +:+ "kty" +:+ q +:+ ":" +:+ q
      +:+ "RSA" +:+ q +:+ "," +:+ q +:+ "n" +:+ q +:+ ":" +:+ q +:+ n +:+ q +:+ "}"
  | JwkOkp crv x _ =>
      "{" +:+ q +:+ "crv" +:+ q +:+ ":" +:+ q +:+ okp_jose_name crv +:+ q +:+ "," +:+ q +:+ "kty" +:+ q
      +:+ ":" +:+ q +:+ "OKP" +:+ q +:+ "," +:+ q +:+ "x" +:+ q +:+ ":" +:+ q +:+ x +:+ q +:+ "}"
  end.

Definition thumbprint (k : Jwk) : string := b64url_encode (sha256 (thumbprint_json k)).

(** ** The compact serialization *)
Record CompactJws : Type := {
  jws_signing_input : string;
  jws_header : list (string * Value);
  jws_payload : list (string * Value);
  jws_signature : string;
}.

Definition jws_object (b64 : string) : result (list (string * Value)) VerifyError :=
  let? decoded := ok_or (b64url_decode b64) "a JWS segment is not unpadded base64url" in
  match json_from_slice decoded with
  | Some (VObject map) => Ok map
  | _ => Err "a JWS segment is not a JSON object"
  end.

Definition jws_parse (token : string) : result CompactJws VerifyError :=
  match split_on "." token with
  | [header_b64; payload_b64; signature_b64] =>
      let signing_input := take_str (str_len header_b64 + 1 + str_len payload_b64) token in
      let? header := jws_object header_b64 in
      let? payload := jws_object payload_b64 in
      let? signature := ok_or (b64url_decode signature_b64) "the signature is not unpadded base64url" in
      Ok {| jws_header := header; jws_payload := payload; jws_signature := signature;
            jws_signing_input := signing_input |}
  | _ => Err "not a compact JWS of exactly three segments"
  end.

Definition compact_jws (header payload : string) (sign : string -> string) : string :=
  let compact := b64url_encode header +:+ "." +:+ b64url_encode payload in
  let signature := sign compact in
  compact +:+ "." +:+ b64url_encode signature.

Definition header_str (j : CompactJws) (name : string) : option string :=
  map_get name (jws_header j) ≫= as_str.
Definition claim_str (j : CompactJws) (name : string) : option string :=
  map_get name (jws_payload j) ≫= as_str.
Definition claim_time (j : CompactJws) (name : string) : option Z :=
  map_get name (jws_payload j) ≫= as_u64.

Definition reject_unknown_crit (j : CompactJws) : result unit VerifyError :=
  match map_get "crit" (jws_header j) with
  | None => Ok tt
  | Some (VArray []) => Err "the header has an empty crit, which RFC 7515 s4.1.11 forbids"
  | Some (VArray _) => Err "the header's crit names an extension this server does not implement"
  | Some _ => Err "the header's crit is not an array"
  end.

Inductive AlgPolicy : Type := Registered (a : JwsAlg) | AnyInstalled.
Inductive AlgRefusal : Type := AlgMissing | AlgUnclassified | AlgMismatch | AlgNotInstalled.

Definition expect_alg (j : CompactJws) (policy : AlgPolicy) (t : JwsVerifiers) : result JwsAlg AlgRefusal :=
  let? name := ok_or (header_str j "alg") AlgMissing in
  let? alg := ok_or (classify_alg name) AlgUnclassified in
  match policy with
  | Registered expected => if alg != expected then Err AlgMismatch else Ok alg
  | AnyInstalled => if is_none (verifier_get t alg) then Err AlgNotInstalled else Ok alg
  end.

(** ** HMAC-SHA256 *)
Definition xor_byte (a b : ascii) : ascii := ascii_of_N (N.lxor (u8 a) (u8 b)).

Definition hmac_block (key : string) : list ascii :=
  let k := if Nat.ltb 64 (str_len key) then bytes (sha256 key) else bytes key in
  k ++ replicate (64 - List.length k) zero.

Definition hmac_pad (b : N) (block : list ascii) : string :=
  of_bytes (map (fun c => xor_byte (ascii_of_N b) c) block).

Definition hmac_sha256 (key message : string) : string :=
  let block := hmac_block key in
  let inner := sha256 (hmac_pad 54 block +:+ message) in
  sha256 (hmac_pad 92 block +:+ inner).

Definition verify_hs256 (secret signing_input signature : string) : bool :=
  if negb (Nat.eqb (str_len signature) 32) then false
  else (xor_acc 0 (bytes (hmac_sha256 secret signing_input)) (bytes signature) =? 0)%N.
End jws.

(** ** Facts *)
Lemma classify_alg_jose a : classify_alg (jose_name a) = Some a.
Proof. by destruct a. Qed.
Lemma classify_alg_Some name a : classify_alg name = Some a <-> name = jose_name a.
Proof.
  split; [|intros ->; apply classify_alg_jose].
  unfold classify_alg. repeat case_bool_decide; intros [= <-]; done.
Qed.

Lemma slot_inj a b : slot a = slot b -> a = b.
Proof. by destruct a, b. Qed.
Lemma slot_lt a : (slot a < 4)%nat.
Proof. destruct a; cbn; lia. Qed.

Definition verifiers_wf (t : JwsVerifiers) : Prop :=
  List.length (jv_slots t) = 4%nat /\ forall a v, verifier_get t a = Some v -> jv_alg v = a.

Lemma verifier_get_insert slots a b x :
  List.length slots = 4%nat ->
  verifier_get {| jv_slots := <[slot a := x]> slots |} b =
    if decide (a = b) then x else verifier_get {| jv_slots := slots |} b.
Proof.
  intros Hl. unfold verifier_get; cbn. pose proof (slot_lt a). destruct (decide (a = b)) as [->|Hne].
  - rewrite list_lookup_insert_eq; [done|lia].
  - rewrite list_lookup_insert_ne; [done|]. by intros ?%slot_inj.
Qed.

Lemma install_get v t a : verifiers_wf t ->
  verifier_get (install v t) a = if decide (jv_alg v = a) then Some v else verifier_get t a.
Proof. intros [Hl _]. unfold install. by rewrite verifier_get_insert. Qed.

Lemma install_wf v t : verifiers_wf t -> verifiers_wf (install v t).
Proof.
  intros Hwf. pose proof Hwf as [Hl Ha]. split; [by cbn; rewrite length_insert|].
  intros a v'. rewrite install_get by done. destruct (decide _); [naive_solver|apply Ha].
Qed.

Lemma no_verifiers_wf : verifiers_wf no_verifiers.
Proof. split; [done|]. by intros []. Qed.

Lemma restrict_to_get allow t a : verifiers_wf t ->
  verifier_get (restrict_to allow t) a = if is_allowed allow a then verifier_get t a else None.
Proof.
  intros [Hl _]. unfold restrict_to.
  assert (Hfold : forall l slots, List.length slots = 4%nat ->
    verifier_get {| jv_slots := foldl (fun s x => if is_allowed allow x then s else <[slot x := None]> s) slots l |} a
    = if bool_decide (a ∈ l) && negb (is_allowed allow a) then None else verifier_get {| jv_slots := slots |} a).
  { induction l as [|x l IH]; intros slots Hs; cbn [foldl]; [done|].
    rewrite IH by (destruct (is_allowed allow x); by rewrite ?length_insert).
    destruct (decide (a = x)) as [<-|Hne].
    - rewrite (bool_decide_eq_true_2 (a ∈ a :: l)) by set_solver.
      destruct (is_allowed allow a); cbn; [by rewrite andb_false_r|].
      destruct (bool_decide (a ∈ l)); [done|]. rewrite verifier_get_insert, decide_True by done. done.
    - rewrite (bool_decide_ext (a ∈ x :: l) (a ∈ l)) by set_solver.
      case_match; [done|]. case_match; [done|]. rewrite verifier_get_insert, decide_False by done. done. }
  rewrite Hfold by done. rewrite bool_decide_eq_true_2 by (destruct a; set_solver).
  by destruct (is_allowed allow a).
Qed.

Section laws.
Context `{Crypto, Serde, !CryptoLaws _}.

Lemma hmac_sha256_length k m : str_len (hmac_sha256 k m) = 32%nat.
Proof. apply sha256_length. Qed.

Lemma verify_hs256_iff secret input signature :
  verify_hs256 secret input signature = true <-> signature = hmac_sha256 secret input.
Proof.
  unfold verify_hs256. destruct (Nat.eqb_spec (str_len signature) 32) as [Hl|Hl]; cbn.
  - rewrite N.eqb_eq, xor_acc_zero by (rewrite !bytes_length, hmac_sha256_length; done).
    split; [intros [_ Hb]; symmetry; by apply bytes_inj|by intros ->].
  - split; [done|]. intros ->. by rewrite hmac_sha256_length in Hl.
Qed.

Lemma jws_object_encode header m :
  json_from_slice header = Some (VObject m) -> jws_object (b64url_encode header) = Ok m.
Proof. intros Hj. unfold jws_object. rewrite b64url_roundtrip. cbn. by rewrite Hj. Qed.

Lemma take_str_app n s t : n = str_len s -> take_str n (s +:+ t) = s.
Proof.
  intros ->. induction s as [|c s IH]; [by destruct t|].
  rewrite str_app_cons. cbn. f_equal. exact IH.
Qed.

(** Serializing and parsing a signed token round-trips: what [compact_jws] writes
    over two JSON objects, [CompactJws::parse] reads back with the same header, the
    same payload and the same signature, and the signing input it recovers is
    exactly the text that was given to the signer. *)
Theorem jws_roundtrip header payload sign hm pm :
  json_from_slice header = Some (VObject hm) -> json_from_slice payload = Some (VObject pm) ->
  let input := b64url_encode header +:+ "." +:+ b64url_encode payload in
  jws_parse (compact_jws header payload sign) =
    Ok {| jws_signing_input := input; jws_header := hm; jws_payload := pm; jws_signature := sign input |}.
Proof.
  intros Hh Hp input. unfold jws_parse, compact_jws. fold input.
  assert (Hsplit : split_on "." (input +:+ "." +:+ b64url_encode (sign input)) =
    [b64url_encode header; b64url_encode payload; b64url_encode (sign input)]).
  { unfold input. rewrite !str_app_assoc, !str_app_cons, !str_app_nil_l.
    rewrite ScopeSet.split_on_app_space by apply b64url_no_dot.
    rewrite ScopeSet.split_on_app_space by apply b64url_no_dot.
    by rewrite ScopeSet.split_on_none by apply b64url_no_dot. }
  rewrite Hsplit, take_str_app.
  - by rewrite (jws_object_encode header hm), (jws_object_encode payload pm), b64url_roundtrip.
  - unfold input. rewrite !str_len_app. cbn. lia.
Qed.

(** An HS256 signature is accepted exactly when it is the HMAC of the signing
    input under the secret: the length check and the accumulating comparison
    together are equality. *)
Theorem verify_hs256_exact secret input signature :
  verify_hs256 secret input signature = true <-> signature = hmac_sha256 secret input.
Proof. apply verify_hs256_iff. Qed.
End laws.

Section jwk_facts.
Context `{Crypto}.

Lemma jwk_string_ok object name s :
  jwk_string object name = Ok s -> map_get name object = Some (VString s).
Proof.
  unfold jwk_string. rewrite ok_or_ok. intros (v & Hv & Hs)%bind_Some. destruct v; naive_solver.
Qed.

Lemma check_coordinate_ok x : check_coordinate x = Ok tt <->
  exists b, b64url_decode x = Some b /\ str_len b = 32%nat.
Proof.
  unfold check_coordinate. destruct (b64url_decode x) as [b|]; [|naive_solver].
  destruct (Nat.eqb_spec (str_len b) 32); naive_solver.
Qed.

(** A key read from a proof or a registration is a public key: whenever
    [Jwk::from_json] accepts a value, that value is an object with none of the
    private or symmetric members, and the parameters of the key it returns are
    members of the object that decode as unpadded base64url, 32 bytes each for an
    elliptic-curve coordinate or an Ed25519 key. *)
Theorem from_json_public_only value k :
  from_json value = Ok k ->
  exists m, value = VObject m /\ (forall name, name ∈ PRIVATE_JWK_MEMBERS -> map_get name m = None) /\
    match k with
    | JwkEc _ x y _ =>
        map_get "x" m = Some (VString x) /\ map_get "y" m = Some (VString y) /\
        (exists b, b64url_decode x = Some b /\ str_len b = 32%nat) /\
        (exists b, b64url_decode y = Some b /\ str_len b = 32%nat)
    | JwkRsa n e _ =>
        map_get "n" m = Some (VString n) /\ map_get "e" m = Some (VString e) /\
        is_Some (b64url_decode n) /\ is_Some (b64url_decode e)
    | JwkOkp _ x _ =>
        map_get "x" m = Some (VString x) /\ exists b, b64url_decode x = Some b /\ str_len b = 32%nat
    end.
Proof.
  intros (m & Hm%ok_or_ok & Hk)%and_then_ok. destruct value as [| | | | |m']; try done.
  injection Hm as ->. exists m. split; [done|].
  destruct (existsb _ PRIVATE_JWK_MEMBERS) eqn:Hpriv; [done|]. split.
  { intros name Hn. destruct (map_get name m) as [v|] eqn:Hv; [|done]. exfalso.
    assert (Hx : existsb (fun member => contains_key member m) PRIVATE_JWK_MEMBERS = true)
      by (apply existsb_exists; exists name; split;
          [by apply list_elem_of_In|unfold contains_key; by rewrite Hv]).
    congruence. }
  clear Hpriv. apply and_then_ok in Hk as (kty & _ & Hk). case_bool_decide.
  - apply and_then_ok in Hk as (crv & _ & Hk). case_match; [done|].
    apply and_then_ok in Hk as (x & Hx%jwk_string_ok & Hk).
    apply and_then_ok in Hk as (y & Hy%jwk_string_ok & Hk).
    apply and_then_ok in Hk as ([] & Hcx%check_coordinate_ok & Hk).
    apply and_then_ok in Hk as ([] & Hcy%check_coordinate_ok & [= <-]). done.
  - case_bool_decide.
    + apply and_then_ok in Hk as (n & Hn%jwk_string_ok & Hk).
      apply and_then_ok in Hk as (e & He%jwk_string_ok & Hk).
      unfold is_none in Hk. destruct (is_some (b64url_decode n)) eqn:Hdn; [|done].
      destruct (is_some (b64url_decode e)) eqn:Hde; [|done]. injection Hk as <-.
      apply is_some_true in Hdn, Hde. done.
    + case_bool_decide; [|done]. apply and_then_ok in Hk as (crv & _ & Hk). case_match; [done|].
      apply and_then_ok in Hk as (x & Hx%jwk_string_ok & Hk).
      destruct (is_some_and _ _) eqn:Hd; [|done]. injection Hk as <-.
      apply is_some_and_true in Hd as (b & Hb & Hl%Nat.eqb_eq). eauto.
Qed.
End jwk_facts.

(** A concrete JSON reader for evaluation: it knows two documents. *)
Definition plain_serde : Serde := {|
  json_from_slice s :=
    if s == "header" then Some (VObject [("alg", VString "HS256")])
    else if s == "claims" then Some (VObject [("iss", VString "app"); ("sub", VString "app")])
    else None;
  details_from_str s := if s == "[]" then Some [] else None;
  json_to_string v := EmptyString |}.

Lemma jws_roundtrip_witness :
  @jws_parse plain_crypto plain_serde
    (@compact_jws plain_crypto "header" "claims" (@hmac_sha256 plain_crypto "secret")) =
  Ok {| jws_signing_input := Hex.encode "header" +:+ "." +:+ Hex.encode "claims";
        jws_header := [("alg", VString "HS256")];
        jws_payload := [("iss", VString "app"); ("sub", VString "app")];
        jws_signature := @hmac_sha256 plain_crypto "secret" (Hex.encode "header" +:+ "." +:+ Hex.encode "claims") |}.
Proof.
  apply (@jws_roundtrip plain_crypto plain_serde plain_crypto_laws "header" "claims"); reflexivity.
Defined.

Lemma verify_hs256_exact_witness :
  @verify_hs256 plain_crypto "k" "m" (@hmac_sha256 plain_crypto "k" "m") = true.
Proof. apply (@verify_hs256_exact plain_crypto plain_crypto_laws). reflexivity. Defined.

Definition demo_jwk : Value :=
  VObject [("kty", VString "RSA"); ("n", VString "00"); ("e", VString "01")].

Lemma from_json_public_only_witness :
  exists m, demo_jwk = VObject m /\ map_get "d" m = None.
Proof.
  destruct (@from_json_public_only plain_crypto demo_jwk (JwkRsa "00" "01" None)) as (m & Hm & Hp & _);
    [reflexivity|].
  exists m. split; [exact Hm|apply Hp; set_solver].
Defined.
