(* ===== verification/Keys.v ===== *)
(** * Signing keys and what is published about them (jwt.rs)

    The signatures a signer hands back, the JSON forms of a public key, the JOSE header a
    server writes by hand, [JwtConfig] with its rotation of keys, and the bundled P-256
    signer and verifier.  The arithmetic of the curve is the [p256] crate's and a
    parameter; what a signer answers is the effect [Sign] of the handlers. *)
From S2P Require Import Prelude Time Codec Scope Types Jws.
Local Open Scope Z_scope.

(** ** [JwsSignature] *)
Inductive JwsSignature : Type :=
| SigEs256 (raw : string) | SigRs256 (raw : string) | SigEdDsa (raw : string) | SigPs256 (raw : string).

Definition signature_alg (s : JwsSignature) : JwsAlg :=
  match s with SigEs256 _ => Es256 | SigRs256 _ => Rs256 | SigEdDsa _ => EdDsa | SigPs256 _ => Ps256 end.
Definition signature_bytes (s : JwsSignature) : string :=
  match s with SigEs256 b | SigRs256 b | SigEdDsa b | SigPs256 b => b end.

(** [raw.try_into()] for a [[u8; 64]] *)
Definition array64 (raw : string) : option string := then_some (Nat.eqb (str_len raw) 64) raw.
Definition from_wire (alg : JwsAlg) (raw : string) : option JwsSignature :=
  match alg with
  | Es256 => SigEs256 <$> array64 raw
  | EdDsa => SigEdDsa <$> array64 raw
  | Rs256 => Some (SigRs256 raw)
  | Ps256 => Some (SigPs256 raw)
  end.

(** ** Public keys *)
Definition kid_of (k : Jwk) : option string :=
  match k with JwkEc _ _ _ kid | JwkRsa _ _ kid | JwkOkp _ _ kid => kid end.
Definition with_kid (k : Jwk) (kid : string) : Jwk :=
  match k with
  | JwkEc crv x y _ => JwkEc crv x y (Some kid)
  | JwkRsa n e _ => JwkRsa n e (Some kid)
  | JwkOkp crv x _ => JwkOkp crv x (Some kid)
  end.
Definition kty (k : Jwk) : string :=
  match k with JwkEc _ _ _ _ => "EC" | JwkRsa _ _ _ => "RSA" | JwkOkp _ _ _ => "OKP" end.
Definition jwk_crv (k : Jwk) : option EcCurve :=
  match k with JwkEc crv _ _ _ => Some crv | _ => None end.
Definition jwk_x (k : Jwk) : string :=
  match k with JwkEc _ x _ _ | JwkOkp _ x _ => x | JwkRsa _ _ _ => "" end.
Definition jwk_y (k : Jwk) : string := match k with JwkEc _ _ y _ => y | _ => "" end.

(** [#[serde(skip_serializing_if = "Option::is_none")] kid] *)
Definition kid_member (kid : option string) : list (string * Value) :=
  match kid with Some k => [("kid", VString k)] | None => [] end.

(** [impl Serialize for Jwk], through [JwkWire] *)
Definition jwk_to_value (k : Jwk) : Value :=
  match k with
  | JwkEc crv x y kid =>
      VObject ([("kty", VString "EC"); ("crv", VString (ec_jose_name crv)); ("x", VString x); ("y", VString y)]
               ++ kid_member kid)
  | JwkRsa n e kid => VObject ([("kty", VString "RSA"); ("n", VString n); ("e", VString e)] ++ kid_member kid)
  | JwkOkp crv x kid =>
      VObject ([("kty", VString "OKP"); ("crv", VString (okp_jose_name crv)); ("x", VString x)] ++ kid_member kid)
  end.

(** [JwksEntry::of] and its derived [Serialize]: the key with its use and algorithm *)
Definition jwks_entry (k : Jwk) : Value :=
  match k with
  | JwkEc crv x y kid =>
      VObject ([("kty", VString "EC"); ("crv", VString (ec_jose_name crv)); ("x", VString x); ("y", VString y)]
               ++ kid_member kid
               ++ [("use", VString "sig"); ("alg", VString (match crv with P256 => "ES256" end))])
  | JwkRsa n e kid =>
      VObject ([("kty", VString "RSA"); ("n", VString n); ("e", VString e)] ++ kid_member kid
               ++ [("use", VString "sig")])
  | JwkOkp crv x kid =>
      VObject ([("kty", VString "OKP"); ("crv", VString (okp_jose_name crv)); ("x", VString x)]
               ++ kid_member kid
               ++ [("use", VString "sig"); ("alg", VString (match crv with Ed25519 => "EdDSA" end))])
  end.

Record Jwks : Type := { jwks_keys : list Jwk }.
Definition jwks_to_value (s : Jwks) : Value := VObject [("keys", VArray (map jwks_entry (jwks_keys s)))].

(** ** The JOSE header, written by hand *)
Definition byte (n : N) : string := String (ascii_of_N n) EmptyString.
Definition backslash : string := byte 92.

Definition escape_char (c : ascii) : string :=
  if (u8 c =? 34)%N then backslash +:+ q
  else if (u8 c =? 92)%N then backslash +:+ backslash
  else if (u8 c =? 10)%N then backslash +:+ "n"
  else if (u8 c =? 13)%N then backslash +:+ "r"
  else if (u8 c =? 9)%N then backslash +:+ "t"
  else if (u8 c =? 8)%N then backslash +:+ "b"
  else if (u8 c =? 12)%N then backslash +:+ "f"
  else if (u8 c <? 32)%N then backslash +:+ "u00" +:+ Hex.encode (String c EmptyString)
  else String c EmptyString.
Fixpoint escape_kid (kid : string) : string :=
  match kid with
  | EmptyString => EmptyString
  | String c kid => escape_char c +:+ escape_kid kid
  end.

Definition jose_header_json (alg : JwsAlg) (escaped : string) : string :=
  "{" +:+ q +:+ "alg" +:+ q +:+ ":" +:+ q +:+ jose_name alg +:+ q +:+ "," +:+ q +:+ "typ" +:+ q +:+ ":"
  +:+ q +:+ "at+jwt" +:+ q +:+ "," +:+ q +:+ "kid" +:+ q +:+ ":" +:+ q +:+ escaped +:+ q +:+ "}".

Definition names_a_resource_server (a : Audience) : bool :=
  match a with
  | AudOne one => negb (str_is_empty one)
  | AudMany many => negb (match many with [] => true | _ => false end)
                    && forallb (fun x => negb (str_is_empty x)) many
  end.

(** ** [JwtConfig]

    A [JwsSigner] is what it says about itself; its [sign] is the effect [Sign]. *)
Record JwsSigner : Type := { sg_alg : JwsAlg; sg_public_jwk : Jwk }.

Record JwtConfig : Type := {
  jc_signer : JwsSigner;
  jc_alg : JwsAlg;
  jc_active : Jwk;
  jc_retired : list Jwk;
  jc_audience : Audience;
  jc_jwks_uri : option string;
  jc_encoded_header : string;
}.

Section keys.
Context `{Crypto}.

Definition encoded_jose_header (alg : JwsAlg) (kid : string) : string :=
  b64url_encode (jose_header_json alg (escape_kid kid)).

Definition jwt_new (signer : JwsSigner) (audience : string) : JwtConfig :=
  let alg := sg_alg signer in
  let active := sg_public_jwk signer in
  {| jc_encoded_header := encoded_jose_header alg (unwrap_or (kid_of active) "");
     jc_alg := alg; jc_active := active; jc_signer := signer; jc_retired := [];
     jc_audience := AudOne audience; jc_jwks_uri := None |}.

Definition rotate_to (new_active : JwsSigner) (self : JwtConfig) : JwtConfig :=
  let alg := sg_alg new_active in
  let retiring := jc_active self in
  let active := sg_public_jwk new_active in
  let active_kid := kid_of active in
  let retired := List.filter (fun jwk => (kid_of jwk != kid_of retiring) && (kid_of jwk != active_kid))
                   (jc_retired self) in
  {| jc_alg := alg; jc_active := active; jc_signer := new_active;
     jc_encoded_header := encoded_jose_header alg (unwrap_or active_kid "");
     jc_retired := if kid_of retiring != active_kid then retiring :: retired else retired;
     jc_audience := jc_audience self; jc_jwks_uri := jc_jwks_uri self |}.

Definition retired_kids (self : JwtConfig) : list string :=
  map (fun jwk => unwrap_or (kid_of jwk) "") (jc_retired self).

Definition forget_retired_key_breaking_its_live_tokens (kid : string) (self : JwtConfig) : JwtConfig :=
  {| jc_retired := List.filter (fun jwk => kid_of jwk != Some kid) (jc_retired self);
     jc_alg := jc_alg self; jc_active := jc_active self; jc_signer := jc_signer self;
     jc_encoded_header := jc_encoded_header self;
     jc_audience := jc_audience self; jc_jwks_uri := jc_jwks_uri self |}.

Definition with_audiences (audiences : list string) (self : JwtConfig) : result JwtConfig string :=
  let audience := AudMany audiences in
  if negb (names_a_resource_server audience) then
    Err "aud must name at least one resource server, and no member may be empty"
  else Ok {| jc_audience := audience;
             jc_alg := jc_alg self; jc_active := jc_active self; jc_signer := jc_signer self;
             jc_encoded_header := jc_encoded_header self;
             jc_retired := jc_retired self; jc_jwks_uri := jc_jwks_uri self |}.

Definition with_jwks_uri (uri : string) (self : JwtConfig) : JwtConfig :=
  {| jc_jwks_uri := Some uri;
     jc_alg := jc_alg self; jc_active := jc_active self; jc_signer := jc_signer self;
     jc_encoded_header := jc_encoded_header self;
     jc_retired := jc_retired self; jc_audience := jc_audience self |}.

Definition active_kid (self : JwtConfig) : string := unwrap_or (kid_of (jc_active self)) "".

Definition jwks (self : JwtConfig) : Jwks := {| jwks_keys := jc_active self :: jc_retired self |}.
End keys.

(** ** The bundled P-256 signer and verifier *)
Class P256Lib := {
  SigningKey : Type;
  VerifyingKey : Type;
  EcdsaSignature : Type;
  (** [SecretKey::from_slice], [SecretKey::from_pkcs8_der] and [to_pkcs8_der] *)
  secret_from_slice : string -> option SigningKey;
  secret_from_pkcs8_der : string -> option SigningKey;
  secret_to_pkcs8_der : SigningKey -> option string;
  verifying_key : SigningKey -> VerifyingKey;
  (** [to_sec1_point(false)]: its coordinates *)
  point_x : VerifyingKey -> string;
  point_y : VerifyingKey -> string;
  verifying_from_sec1 : string -> option VerifyingKey;
  try_sign : SigningKey -> string -> option EcdsaSignature;
  ecdsa_to_bytes : EcdsaSignature -> string;
  ecdsa_from_slice : string -> option EcdsaSignature;
  ecdsa_verify : VerifyingKey -> string -> EcdsaSignature -> bool;
}.

Section p256.
Context `{Crypto, P256Lib}.

Record EcdsaP256Key : Type := { ek_kid : string; ek_signing : SigningKey }.

Definition from_scalar_bytes (kid scalar : string) : result EcdsaP256Key string :=
  if negb (Nat.eqb (str_len scalar) 32) then Err "a P-256 private scalar is exactly 32 bytes"
  else
    let? secret := ok_or (secret_from_slice scalar) "not a valid P-256 private scalar" in
    Ok {| ek_kid := kid; ek_signing := secret |}.

Definition from_pkcs8_der (kid der : string) : result EcdsaP256Key string :=
  let? secret := ok_or (secret_from_pkcs8_der der) "not a valid PKCS#8 P-256 private key" in
  Ok {| ek_kid := kid; ek_signing := secret |}.
Definition to_pkcs8_der (self : EcdsaP256Key) : result string string :=
  ok_or (secret_to_pkcs8_der (ek_signing self)) "PKCS#8 encoding failed".

(** [generate] over the answers of [getrandom::fill]; [None] when they are used up. *)
Fixpoint generate (kid : string) (draws : list string) : option EcdsaP256Key :=
  match draws with
  | [] => None
  | buf :: draws =>
      match from_scalar_bytes kid buf with
      | Ok key => Some key
      | Err _ => generate kid draws
      end
  end.

Definition p256_public_jwk (self : EcdsaP256Key) : Jwk :=
  let point := verifying_key (ek_signing self) in
  JwkEc P256 (b64url_encode (point_x point)) (b64url_encode (point_y point)) (Some (ek_kid self)).

Definition sign_es256 (self : EcdsaP256Key) (message : string) : result string string :=
  let? signature := ok_or (try_sign (ek_signing self) message) "ECDSA signing failed" in
  Ok (ecdsa_to_bytes signature).

(** [impl JwsSigner for EcdsaP256Key] *)
Definition p256_signer (self : EcdsaP256Key) : JwsSigner :=
  {| sg_alg := Es256; sg_public_jwk := p256_public_jwk self |}.
Definition p256_sign (self : EcdsaP256Key) (signing_input : string) : result JwsSignature string :=
  let? s := sign_es256 self signing_input in Ok (SigEs256 s).

(** [impl PartialEq for EcdsaP256Key]: the public halves are compared *)
Definition key_eq (self other : EcdsaP256Key) : bool :=
  let sec1 k := (point_x (verifying_key (ek_signing k)), point_y (verifying_key (ek_signing k))) in
  (ek_kid self == ek_kid other) && (sec1 self == sec1 other).

Definition verify_es256 (key : Jwk) (signing_input signature : string) : bool :=
  match key with
  | JwkEc P256 x y _ =>
      if negb (Nat.eqb (str_len signature) 64) then false
      else match b64url_decode x, b64url_decode y with
           | Some x, Some y =>
               if negb (Nat.eqb (str_len x) 32) || negb (Nat.eqb (str_len y) 32) then false
               else match verifying_from_sec1 (byte 4 +:+ x +:+ y), ecdsa_from_slice signature with
                    | Some key, Some signature => ecdsa_verify key signing_input signature
                    | _, _ => false
                    end
           | _, _ => false
           end
  | _ => false
  end.

Definition P256Verifier : JwsVerifier := {| jv_alg := Es256; jv_verify := verify_es256 |}.
End p256.

(** What the crate's documentation says: a point has 32-byte coordinates and is read back
    from its uncompressed form, a signature has 64 bytes and is read back from them, and a
    key's signature verifies under its own point. *)
Class P256Laws `{P256Lib} : Prop := {
  point_x_length : forall v, str_len (point_x v) = 32%nat;
  point_y_length : forall v, str_len (point_y v) = 32%nat;
  sec1_roundtrip : forall v, verifying_from_sec1 (byte 4 +:+ point_x v +:+ point_y v) = Some v;
  ecdsa_length : forall s, str_len (ecdsa_to_bytes s) = 64%nat;
  ecdsa_roundtrip : forall s, ecdsa_from_slice (ecdsa_to_bytes s) = Some s;
  ecdsa_correct : forall k m s, try_sign k m = Some s -> ecdsa_verify (verifying_key k) m s = true;
}.

(** ** Key identifiers in a header *)

(** The reading of the inside of a JSON string, RFC 8259 section 7: the characters it may
    hold as they are, the short escapes, and [\u00XX]. *)
Inductive json_chars : string -> string -> Prop :=
| chars_nil : json_chars "" ""
| chars_plain c text s : (32 <= u8 c)%N -> u8 c <> 34%N -> u8 c <> 92%N ->
    json_chars text s -> json_chars (String c text) (String c s)
| chars_short e c text s :
    (e, u8 c) ∈ [("034", 34); ("092", 92); ("n", 10); ("r", 13); ("t", 9); ("b", 8); ("f", 12)]%char%N ->
    json_chars text s -> json_chars (String "092" (String e text)) (String c s)
| chars_unicode c text s :
    json_chars text s -> json_chars (backslash +:+ "u00" +:+ Hex.encode (String c "") +:+ text) (String c s).

Lemma escape_kid_reads kid : json_chars (escape_kid kid) kid.
Proof.
  induction kid as [|c kid IH]; cbn [escape_kid]; [constructor|].
  unfold escape_char.
  repeat match goal with
  | |- context [if (u8 c =? ?n)%N then _ else _] => destruct (N.eqb_spec (u8 c) n) as [E|]
  end; try (unfold backslash, q, byte; cbn; apply chars_short; [|done]; rewrite E; repeat constructor).
  destruct (N.ltb_spec (u8 c) 32).
  - rewrite !str_app_assoc. by apply chars_unicode.
  - rewrite str_app_cons, str_app_nil_l. by apply chars_plain.
Qed.

(** What [serde_json] documents: it reads the members of this object, the strings by RFC
    8259. *)
Definition reads_headers `{Serde} : Prop := forall alg text kid,
  json_chars text kid ->
  json_from_slice (jose_header_json alg text) =
    Some (VObject [("alg", VString (jose_name alg)); ("typ", VString "at+jwt"); ("kid", VString kid)]).

(** ** Rotation *)
Inductive KeyOp : Type :=
| RotateTo (signer : JwsSigner)
| Forget (kid : string)
| Audiences (audiences : list string)
| JwksUri (uri : string).

Section rotation.
Context `{Crypto}.

(** A host's calls, each on the result of the one before; a refused [with_audiences] leaves
    the host without a configuration. *)
Definition key_op (op : KeyOp) (c : JwtConfig) : result JwtConfig string :=
  match op with
  | RotateTo s => Ok (rotate_to s c)
  | Forget kid => Ok (forget_retired_key_breaking_its_live_tokens kid c)
  | Audiences l => with_audiences l c
  | JwksUri uri => Ok (with_jwks_uri uri c)
  end.
Fixpoint key_ops (ops : list KeyOp) (c : JwtConfig) : result JwtConfig string :=
  match ops with
  | [] => Ok c
  | op :: ops => let? c := key_op op c in key_ops ops c
  end.

(** Whether an operation leaves the key with this identifier published. *)
Definition spares_kid (kid : option string) (op : KeyOp) : Prop :=
  match op with
  | RotateTo s => kid_of (sg_public_jwk s) <> kid
  | Forget k => kid <> Some k
  | _ => True
  end.

Record config_wf (c : JwtConfig) : Prop := {
  cw_active : jc_active c = sg_public_jwk (jc_signer c);
  cw_alg : jc_alg c = sg_alg (jc_signer c);
  cw_header : jc_encoded_header c = encoded_jose_header (jc_alg c) (active_kid c);
  cw_distinct : NoDup (map kid_of (jwks_keys (jwks c)));
}.

Lemma jwt_new_wf s aud : config_wf (jwt_new s aud).
Proof. split; try done. apply NoDup_singleton. Qed.

Lemma filter_kids_NoDup (p : Jwk -> bool) l : NoDup (map kid_of l) -> NoDup (map kid_of (List.filter p l)).
Proof.
  induction l as [|k l IH]; cbn; [done|]. intros [Hk Hl]%NoDup_cons.
  destruct (p k); cbn; [|by apply IH]. apply NoDup_cons. split; [|by apply IH].
  rewrite !list_elem_of_fmap in Hk |- *. intros (k' & He & Hin). apply Hk. exists k'. split; [done|].
  apply list_elem_of_In in Hin. apply filter_In in Hin as [Hin _]. by apply list_elem_of_In.
Qed.

Lemma filter_kids_elem (p : Jwk -> bool) kid l :
  kid ∈ map kid_of (List.filter p l) -> exists k, kid_of k = kid /\ p k = true /\ k ∈ l.
Proof.
  rewrite list_elem_of_fmap. intros (k & -> & Hin). apply list_elem_of_In, filter_In in Hin.
  exists k. rewrite list_elem_of_In. naive_solver.
Qed.

Lemma rotate_to_wf s c : config_wf c -> config_wf (rotate_to s c).
Proof.
  intros [_ _ _ Hd]. split; try done. cbn in Hd |- *. apply NoDup_cons in Hd as [Hact Hret].
  set (p := fun jwk => _).
  assert (Hf : NoDup (map kid_of (List.filter p (jc_retired c)))) by by apply filter_kids_NoDup.
  assert (Hne : forall kid, kid ∈ map kid_of (List.filter p (jc_retired c)) ->
            kid <> kid_of (jc_active c) /\ kid <> kid_of (sg_public_jwk s)).
  { intros kid (k & <- & Hp & _)%filter_kids_elem. subst p. cbn in Hp. by bools. }
  case_bool_decide as E; cbn; rewrite !NoDup_cons; [naive_solver|].
  rewrite elem_of_cons. naive_solver.
Qed.

Lemma key_op_wf op c c' : config_wf c -> key_op op c = Ok c' -> config_wf c'.
Proof.
  intros Hwf Hop. destruct op as [s|k|l|u]; cbn in Hop.
  - injection Hop as <-. by apply rotate_to_wf.
  - injection Hop as <-. destruct Hwf as [? ? ? Hd]. split; try done. cbn in Hd |- *.
    apply NoDup_cons in Hd as [Hact Hret]. apply NoDup_cons. split; [|by apply filter_kids_NoDup].
    intros (k' & He & _ & Hin)%filter_kids_elem. apply Hact. rewrite <- He. by apply list_elem_of_fmap_2.
  - unfold with_audiences in Hop. case_match; [done|]. injection Hop as <-. by destruct Hwf.
  - injection Hop as <-. by destruct Hwf.
Qed.

Lemma key_ops_wf ops c c' : config_wf c -> key_ops ops c = Ok c' -> config_wf c'.
Proof.
  revert c. induction ops as [|op ops IH]; cbn; intros c Hwf; [by intros [= <-]|].
  rewrite and_then_ok. intros (c1 & Hop & Hops). eapply IH; [|exact Hops]. by eapply key_op_wf.
Qed.

(** A published key stays published under whatever spares its identifier. *)
Lemma key_op_keeps op c c' k :
  config_wf c -> key_op op c = Ok c' -> spares_kid (kid_of k) op -> k ∈ jwks_keys (jwks c) ->
  k ∈ jwks_keys (jwks c').
Proof.
  intros Hwf Hop Hs Hin. destruct op as [s|kid|l|u]; cbn in Hop, Hs.
  - injection Hop as <-. cbn in Hin |- *. pose proof (cw_distinct _ Hwf) as [Hact _]%NoDup_cons.
    apply elem_of_cons in Hin as [->|Hin].
    + rewrite bool_decide_eq_false_2 by done. cbn. rewrite !elem_of_cons. auto.
    + assert (kid_of k <> kid_of (jc_active c)).
      { intros He. apply Hact. rewrite <- He. by apply list_elem_of_fmap_2. }
      assert (k ∈ List.filter (fun jwk => (kid_of jwk != kid_of (jc_active c))
                && (kid_of jwk != kid_of (sg_public_jwk s))) (jc_retired c)).
      { apply list_elem_of_In, filter_In. rewrite <- list_elem_of_In. split; [done|].
        by rewrite !bool_decide_eq_false_2 by done. }
      case_bool_decide; cbn; rewrite !elem_of_cons; auto.
  - injection Hop as <-. cbn in Hin |- *. rewrite elem_of_cons in Hin |- *.
    destruct Hin as [->|Hin]; [by left|right]. apply list_elem_of_In, filter_In. rewrite <- list_elem_of_In.
    split; [done|]. by rewrite bool_decide_eq_false_2 by done.
  - unfold with_audiences in Hop. case_match; [done|]. by injection Hop as <-.
  - by injection Hop as <-.
Qed.

Lemma key_ops_keep ops c c' k :
  config_wf c -> key_ops ops c = Ok c' -> Forall (spares_kid (kid_of k)) ops -> k ∈ jwks_keys (jwks c) ->
  k ∈ jwks_keys (jwks c').
Proof.
  revert c. induction ops as [|op ops IH]; cbn; intros c Hwf; [by intros [= <-]|].
  rewrite and_then_ok. intros (c1 & Hop & Hops) [Hs Hss]%Forall_cons Hin.
  eapply IH; [by eapply key_op_wf|exact Hops|done|by eapply key_op_keeps].
Qed.

Lemma key_ops_app ops ops' c c' :
  key_ops (ops ++ ops') c = Ok c' <-> exists c1, key_ops ops c = Ok c1 /\ key_ops ops' c1 = Ok c'.
Proof.
  revert c. induction ops as [|op ops IH]; cbn; intros c; [naive_solver|].
  rewrite and_then_ok. setoid_rewrite and_then_ok. setoid_rewrite IH. naive_solver.
Qed.
End rotation.

(** ** What is published *)
Section published.
Context `{Crypto}.

(** Reading back a key: what is left of [from_json] once the members are found. *)
Definition read_key (k : Jwk) : result Jwk VerifyError :=
  match k with
  | JwkEc _ x y _ => let? _ := check_coordinate x in let? _ := check_coordinate y in Ok k
  | JwkRsa n e _ =>
      if is_none (b64url_decode n) || is_none (b64url_decode e)
      then Err "an RSA n/e is base64urlUInt (unpadded base64url)" else Ok k
  | JwkOkp _ x _ =>
      if is_some_and (b64url_decode x) (fun b => Nat.eqb (str_len b) 32) then Ok k
      else Err "an Ed25519 public key is exactly 32 base64url-encoded bytes"
  end.

Lemma from_json_written k : from_json (jwk_to_value k) = read_key k /\ from_json (jwks_entry k) = read_key k.
Proof. destruct k as [[] x y [kid|]|n e [kid|]|[] x [kid|]]; split; reflexivity. Qed.

Lemma read_key_same k k' : read_key k = Ok k' -> k' = k.
Proof.
  destruct k; cbn; [|case_match; naive_solver..].
  rewrite and_then_ok. intros (? & _ & Hr). rewrite and_then_ok in Hr. naive_solver.
Qed.

Lemma from_json_readable v k : from_json v = Ok k -> read_key k = Ok k.
Proof.
  unfold from_json. rewrite and_then_ok. intros (m & _ & Hv). case_match; [done|].
  apply and_then_ok in Hv as (kt & _ & Hv). case_match; [|case_match; [|case_match; [|done]]].
  - apply and_then_ok in Hv as (crv & _ & Hv). case_match; [done|].
    repeat (apply and_then_ok in Hv as (? & ? & Hv)). injection Hv as <-. cbn.
    repeat match goal with H : check_coordinate _ = Ok _ |- _ => rewrite H; clear H end. done.
  - repeat (apply and_then_ok in Hv as (? & ? & Hv)). case_match eqn:E; [done|]. injection Hv as <-.
    cbn. by rewrite E.
  - apply and_then_ok in Hv as (crv & _ & Hv). case_match; [done|].
    apply and_then_ok in Hv as (? & ? & Hv). case_match eqn:E; [|done]. injection Hv as <-. cbn. by rewrite E.
Qed.

(** A public key survives both JSON forms the server writes: what [Jwk::from_json] has
    accepted is read back unchanged from its own serialization and from its entry in a key
    set, where it carries a use and an algorithm besides. *)
Theorem jwk_json_roundtrip v k :
  from_json v = Ok k -> from_json (jwk_to_value k) = Ok k /\ from_json (jwks_entry k) = Ok k.
Proof. intros Hk%from_json_readable. by rewrite !(proj1 (from_json_written k)), !(proj2 (from_json_written k)). Qed.

(** How a resource server finds the key a token names: the entries of the set it can read,
    the first with that identifier. *)
Definition resource_server_key (set : Value) (kid : string) : option Jwk :=
  match set with
  | VObject m =>
      match map_get "keys" m with
      | Some (VArray items) =>
          List.find (fun k => kid_of k == Some kid)
            (omap (fun v => match from_json v with Ok k => Some k | Err _ => None end) items)
      | _ => None
      end
  | _ => None
  end.

Lemma key_found l k kid :
  kid_of k = Some kid -> from_json (jwks_entry k) = Ok k -> NoDup (map kid_of l) -> k ∈ l ->
  List.find (fun k => kid_of k == Some kid)
    (omap (fun v => match from_json v with Ok k => Some k | Err _ => None end) (map jwks_entry l)) = Some k.
Proof.
  intros Hkid Hread. induction l as [|k' l IH]; cbn; [by rewrite elem_of_nil|].
  intros [Hk' Hl]%NoDup_cons [->|Hin]%elem_of_cons.
  - rewrite Hread. cbn. by rewrite bool_decide_eq_true_2.
  - specialize (IH Hl Hin). destruct (from_json (jwks_entry k')) as [k''|] eqn:E; cbn; [|exact IH].
    rewrite (proj2 (from_json_written k')) in E. apply read_key_same in E as ->. rewrite bool_decide_eq_false_2; [exact IH|].
    intros He. apply Hk'. rewrite He, <- Hkid. by apply list_elem_of_fmap_2.
Qed.

Lemma signer_published c : config_wf c -> sg_public_jwk (jc_signer c) ∈ jwks_keys (jwks c).
Proof. intros Hwf. rewrite <- (cw_active _ Hwf). apply list_elem_of_here. Qed.
End published.

Section bundled.
Context `{Crypto, !CryptoLaws _, P256Lib, !P256Laws}.

Lemma public_jwk_reads key :
  from_json (jwks_entry (p256_public_jwk key)) = Ok (p256_public_jwk key).
Proof.
  rewrite (proj2 (from_json_written _)). cbn. unfold check_coordinate.
  by rewrite !b64url_roundtrip, point_x_length, point_y_length.
Qed.

(** The bundled verifier accepts what the bundled signer signs. *)
Lemma verify_own_signature key message sig :
  sign_es256 key message = Ok sig -> verify_es256 (p256_public_jwk key) message sig = true.
Proof.
  unfold sign_es256. rewrite and_then_ok. intros (s & Hs%ok_or_ok & [= <-]).
  cbn. rewrite ecdsa_length, !b64url_roundtrip. cbn. rewrite point_x_length, point_y_length. cbn.
  pose proof (sec1_roundtrip (verifying_key (ek_signing key))) as Hsec. cbn in Hsec. rewrite Hsec.
  rewrite ecdsa_roundtrip. by apply ecdsa_correct.
Qed.

Context `{Serde}.

(** C29. A token can be checked for as long as its key is published.  When a configuration
    reached by any calls signs with the bundled P-256 key, the token it writes parses back
    to its claims, names the identifier of that key, and, after any further calls that
    neither reuse nor forget that identifier, a resource server that reads the published
    key set finds under it one key, and the bundled verifier accepts the signature with
    it.  Writing the identifier into the header by hand, publishing, and rotating never
    send a resource server to another key. *)
Theorem published_key_verifies_token s0 aud before c0 key payload claims sig after c :
  reads_headers ->
  key_ops before (jwt_new s0 aud) = Ok c0 -> jc_signer c0 = p256_signer key ->
  json_from_slice payload = Some (VObject claims) ->
  sign_es256 key (jc_encoded_header c0 +:+ "." +:+ b64url_encode payload) = Ok sig ->
  key_ops after c0 = Ok c -> Forall (spares_kid (Some (ek_kid key))) after ->
  exists j k,
    jws_parse (jc_encoded_header c0 +:+ "." +:+ b64url_encode payload +:+ "." +:+ b64url_encode sig) = Ok j /\
    jws_payload j = claims /\ header_str j "alg" = Some "ES256" /\
    (header_str j "kid" ≫= resource_server_key (jwks_to_value (jwks c))) = Some k /\
    jv_verify P256Verifier k (jws_signing_input j) (jws_signature j) = true.
Proof.
  intros Hreads Hc0 Hsigner Hpay Hsig Hc Hspare.
  assert (Hwf0 : config_wf c0) by (eapply key_ops_wf; [apply jwt_new_wf|exact Hc0]).
  assert (Hwf : config_wf c) by (eapply key_ops_wf; [exact Hwf0|exact Hc]).
  pose proof (cw_header _ Hwf0) as Hh. unfold active_kid in Hh.
  rewrite (cw_active _ Hwf0), (cw_alg _ Hwf0), Hsigner in Hh. cbn in Hh.
  set (header := jose_header_json Es256 (escape_kid (ek_kid key))) in *.
  assert (Hjson : json_from_slice header = Some (VObject
    [("alg", VString "ES256"); ("typ", VString "at+jwt"); ("kid", VString (ek_kid key))])).
  { apply (Hreads Es256), escape_kid_reads. }
  pose proof (jws_roundtrip header payload (fun _ => sig) _ _ Hjson Hpay) as Hrt. cbn zeta in Hrt.
  unfold compact_jws in Hrt. unfold encoded_jose_header in Hh. fold header in Hh. rewrite Hh in Hsig |- *.
  rewrite !str_app_assoc in Hrt. eexists _, (p256_public_jwk key). split_and!; [exact Hrt|done|done| |].
  - cbn. apply key_found; [done|apply public_jwk_reads|apply (cw_distinct _ Hwf)|].
    eapply key_ops_keep; [exact Hwf0|exact Hc|exact Hspare|].
    pose proof (signer_published _ Hwf0) as Hin. by rewrite Hsigner in Hin.
  - cbn. by apply verify_own_signature.
Qed.
End bundled.

(** ** Witnesses *)
Section witnesses.
#[local] Existing Instance plain_crypto.

(** A reader of the hand-written header, by RFC 8259. *)
Definition hex_byte (h l : ascii) : option ascii :=
  match Hex.undigit h, Hex.undigit l with
  | Some h, Some l => Some (ascii_of_N (16 * h + l))
  | _, _ => None
  end.
Definition short_escape (e : ascii) : option ascii :=
  if (u8 e =? 34)%N || (u8 e =? 92)%N then Some e
  else if Ascii.eqb e "n" then Some "010"%char
  else if Ascii.eqb e "r" then Some "013"%char
  else if Ascii.eqb e "t" then Some "009"%char
  else if Ascii.eqb e "b" then Some "008"%char
  else if Ascii.eqb e "f" then Some "012"%char
  else None.
Fixpoint read_string (text : string) : option (string * string) :=
  match text with
  | EmptyString => None
  | String c rest =>
      if (u8 c =? 34)%N then Some (EmptyString, rest)
      else if (u8 c =? 92)%N then
        match rest with
        | String e rest1 =>
            match short_escape e with
            | Some c => '(s, t) ← read_string rest1; Some (String c s, t)
            | None =>
                match rest1 with
                | String _ (String _ (String h (String l rest2))) =>
                    c ← hex_byte h l; '(s, t) ← read_string rest2; Some (String c s, t)
                | _ => None
                end
            end
        | EmptyString => None
        end
      else '(s, t) ← read_string rest; Some (String c s, t)
  end.

Lemma json_chars_read text s : json_chars text s ->
  forall tail, read_string (text +:+ q +:+ tail) = Some (s, tail).
Proof.
  induction 1 as [|c text s Hlo Hq Hb _ IH|e c text s He _ IH|c text s _ IH]; intros tail.
  - done.
  - rewrite str_app_cons. cbn [read_string].
    rewrite (proj2 (N.eqb_neq _ _) Hq), (proj2 (N.eqb_neq _ _) Hb). by rewrite IH.
  - rewrite !str_app_cons. cbn [read_string].
    assert (Hs : short_escape e = Some c).
    { repeat (apply elem_of_cons in He as [He|He]; [injection He as -> Hc; rewrite <- (ascii_N_embedding c); fold (u8 c); by rewrite Hc|]).
      by apply elem_of_nil in He. }
    rewrite Hs. cbn. by rewrite IH.
  - pose proof (Hex.digit_undigit c) as (Hh & Hl & Hc). cbn [Hex.encode].
    change (hex_byte (Hex.digit (N.shiftr (u8 c) 4)) (Hex.digit (N.land (u8 c) 15)) ≫= (fun c =>
      '(s, t) ← read_string (text +:+ q +:+ tail); Some (String c s, t)) = Some (String c s, tail)).
    unfold hex_byte. rewrite Hh, Hl, IH. cbn. by rewrite Hc.
Qed.

Definition header_front (alg : JwsAlg) : string :=
  "{" +:+ q +:+ "alg" +:+ q +:+ ":" +:+ q +:+ jose_name alg +:+ q +:+ "," +:+ q +:+ "typ" +:+ q +:+ ":"
  +:+ q +:+ "at+jwt" +:+ q +:+ "," +:+ q +:+ "kid" +:+ q +:+ ":" +:+ q.
Definition read_header_as (alg : JwsAlg) (text : string) : option Value :=
  rest ← strip_prefix (header_front alg) text;
  '(kid, _) ← read_string rest;
  Some (VObject [("alg", VString (jose_name alg)); ("typ", VString "at+jwt"); ("kid", VString kid)]).
Definition read_header (text : string) : option Value :=
  if text == "claims" then Some (VObject [("sub", VString "alice")])
  else head (omap (fun alg => read_header_as alg text) ALL).
#[local] Instance header_serde : Serde := {|
  json_from_slice := read_header; details_from_str _ := None; json_to_string _ := "" |}.

Lemma header_serde_reads : reads_headers.
Proof.
  intros alg text kid Hk. pose proof (json_chars_read text kid Hk "}") as Hr.
  assert (Hsame : read_header_as alg (jose_header_json alg text) = Some (VObject
    [("alg", VString (jose_name alg)); ("typ", VString "at+jwt"); ("kid", VString kid)])).
  { transitivity ('(kid, _) ← read_string (text +:+ q +:+ "}");
      Some (VObject [("alg", VString (jose_name alg)); ("typ", VString "at+jwt"); ("kid", VString kid)]));
      [by destruct alg|by rewrite Hr]. }
  change (read_header (jose_header_json alg text) = Some (VObject
    [("alg", VString (jose_name alg)); ("typ", VString "at+jwt"); ("kid", VString kid)])).
  unfold read_header, ALL. rewrite bool_decide_eq_false_2 by done. cbn [omap list_omap].
  destruct alg; rewrite Hsame; reflexivity.
Qed.

(** A toy curve: one key, one signature. *)
Definition word (n : nat) : string := of_bytes (replicate n zero).
#[local] Instance toy_p256 : P256Lib := {|
  SigningKey := unit; VerifyingKey := unit; EcdsaSignature := unit;
  secret_from_slice _ := Some tt; secret_from_pkcs8_der _ := None; secret_to_pkcs8_der _ := None;
  verifying_key _ := tt; point_x _ := word 32; point_y _ := word 32;
  verifying_from_sec1 _ := Some tt; try_sign _ _ := Some tt;
  ecdsa_to_bytes _ := word 64; ecdsa_from_slice _ := Some tt; ecdsa_verify _ _ _ := true |}.
#[local] Instance toy_p256_laws : P256Laws.
Proof. split; by repeat intros []. Qed.

Definition demo_key : EcdsaP256Key := {| ek_kid := "2024" +:+ q; ek_signing := tt |}.
Definition other_signer (kid : string) : JwsSigner :=
  {| sg_alg := Rs256; sg_public_jwk := JwkRsa "AQAB" "AQAB" (Some kid) |}.

Lemma jwk_json_roundtrip_witness :
  from_json (jwk_to_value (p256_public_jwk demo_key)) = Ok (p256_public_jwk demo_key) /\
  from_json (jwks_entry (p256_public_jwk demo_key)) = Ok (p256_public_jwk demo_key).
Proof. apply (jwk_json_roundtrip (jwk_to_value (p256_public_jwk demo_key))). vm_compute. reflexivity. Defined.

(** A key that took over from another signs; two rotations and a forgotten key later, a
    resource server still finds it. *)
Definition demo_config : JwtConfig := rotate_to (p256_signer demo_key) (jwt_new (other_signer "2023") "https://rs").
Definition later_ops : list KeyOp := [RotateTo (other_signer "2025"); Forget "2023"; RotateTo (other_signer "2026")].
Definition later_config : JwtConfig :=
  match key_ops later_ops demo_config with Ok c => c | Err _ => demo_config end.

Lemma published_key_verifies_token_witness :
  exists j k,
    jws_parse (jc_encoded_header demo_config +:+ "." +:+ b64url_encode "claims" +:+ "."
               +:+ b64url_encode (word 64)) = Ok j /\
    jws_payload j = [("sub", VString "alice")] /\ header_str j "alg" = Some "ES256" /\
    (header_str j "kid" ≫= resource_server_key (jwks_to_value (jwks later_config))) = Some k /\
    jv_verify P256Verifier k (jws_signing_input j) (jws_signature j) = true.
Proof.
  apply (published_key_verifies_token (other_signer "2023") "https://rs" [RotateTo (p256_signer demo_key)]
           demo_config demo_key "claims" [("sub", VString "alice")] (word 64) later_ops later_config).
  - exact header_serde_reads.
  - reflexivity.
  - reflexivity.
  - reflexivity.
  - reflexivity.
  - reflexivity.
  - repeat constructor; cbn; discriminate.
Defined.
End witnesses.
