(* ===== verification/Float64.v ===== *)
(** * [f64]

    The arithmetic of IEEE 754 binary64, as the Standard Library specifies it
    ([SpecFloat], precision 53, exponents below 1024): what [as f64], [-], [+] and the
    comparisons of Rust do.  Request objects date themselves with JSON numbers that
    [serde_json] reads as [f64].  The facts say that on integers below 2^53, seconds of
    285 million years, nothing is rounded. *)
From Stdlib Require Import SpecFloat Zpower.
From S2P Require Import Prelude Types.
Local Open Scope Z_scope.

Definition f64 : Type := spec_float.

(** [n as f64] *)
Definition f64_of_Z (n : Z) : f64 := binary_normalize 53 1024 n 0 false.
Definition f64_sub (x y : f64) : f64 := SFsub 53 1024 x y.
Definition f64_add (x y : f64) : f64 := SFadd 53 1024 x y.
(** [x < y], [x <= y], both false on a NaN *)
Definition f64_lt (x y : f64) : bool := SFltb x y.
Definition f64_le (x y : f64) : bool := SFleb x y.

(** [f64::from_bits] *)
Definition f64_of_bits (bits : Z) : f64 :=
  let sign := Z.testbit bits 63 in
  let exponent := Z.land (Z.shiftr bits 52) 2047 in
  let fraction := Z.land bits (2 ^ 52 - 1) in
  if exponent =? 2047 then (if fraction =? 0 then S754_infinity sign else S754_nan)
  else
    let mantissa := if exponent =? 0 then fraction else fraction + 2 ^ 52 in
    match mantissa with
    | Zpos m => S754_finite sign m (Z.max exponent 1 - 1075)
    | _ => S754_zero sign
    end.

(** [Value::as_f64] *)
Definition as_f64 (v : Value) : option f64 :=
  match v with
  | VNumber (PosInt n) | VNumber (NegInt n) => Some (f64_of_Z n)
  | VNumber (Float bits) => Some (f64_of_bits bits)
  | _ => None
  end.

(** ** Integers below 2^53 are exact *)
Lemma digits2_size p : digits2_pos p = Pos.size p.
Proof. induction p; cbn; congruence. Qed.

Lemma size_bounds p : 2 ^ (Zpos (Pos.size p) - 1) <= Zpos p < 2 ^ Zpos (Pos.size p).
Proof.
  pose proof (Pos.size_gt p) as Hg%Pos2Z.pos_lt_pos. pose proof (Pos.size_le p) as Hl%Pos2Z.pos_le_pos.
  rewrite Pos2Z.inj_pow in Hg, Hl. rewrite (Pos2Z.inj_xO p) in Hl. split; [|done].
  replace (Zpos (Pos.size p)) with (Z.succ (Zpos (Pos.size p) - 1)) in Hl by lia.
  rewrite Z.pow_succ_r in Hl by lia. lia.
Qed.

Lemma size_unique p d : 0 < d -> 2 ^ (d - 1) <= Zpos p < 2 ^ d -> Zpos (Pos.size p) = d.
Proof.
  intros Hd [Hlo Hhi]. pose proof (size_bounds p) as [Hl Hh].
  assert (Zpos (Pos.size p) - 1 < d) by (apply (Z.pow_lt_mono_r_iff 2); lia).
  assert (d - 1 < Zpos (Pos.size p)) by (apply (Z.pow_lt_mono_r_iff 2); lia). lia.
Qed.

Lemma size_shift p n : 0 <= n -> forall q, Zpos q = Zpos p * 2 ^ n ->
  Zpos (Pos.size q) = Zpos (Pos.size p) + n.
Proof.
  intros Hn q Hq. pose proof (size_bounds p) as [Hl Hh]. apply size_unique; [lia|].
  rewrite Hq. replace (Zpos (Pos.size p) + n - 1) with (Zpos (Pos.size p) - 1 + n) by lia.
  rewrite !Z.pow_add_r by lia. pose proof (Z.pow_pos_nonneg 2 n). nia.
Qed.

(** Shifting out zeros loses nothing. *)
Lemma iter_shr_exact p : forall q, 0 < q ->
  SpecFloat.iter_pos shr_1 p {| shr_m := q * 2 ^ Zpos p; shr_r := false; shr_s := false |} =
  {| shr_m := q; shr_r := false; shr_s := false |}.
Proof.
  assert (H1 : forall q, 0 < q -> shr_1 {| shr_m := q * 2; shr_r := false; shr_s := false |} =
    {| shr_m := q; shr_r := false; shr_s := false |}).
  { intros [|x|x] Hq; try lia. by rewrite Z.mul_comm. }
  induction p as [p IH|p IH|]; intros q Hq; cbn [SpecFloat.iter_pos]; [| |by apply H1].
  - replace (q * 2 ^ Zpos p~1) with (q * 2 ^ Zpos p * 2 ^ Zpos p * 2)
      by (rewrite (Pos2Z.inj_xI p); replace (2 * Zpos p + 1) with (Zpos p + Zpos p + 1) by lia;
          rewrite !Z.pow_add_r by lia; lia).
    rewrite H1 by nia. rewrite IH by nia. by apply IH.
  - replace (q * 2 ^ Zpos p~0) with (q * 2 ^ Zpos p * 2 ^ Zpos p)
      by (rewrite (Pos2Z.inj_xO p); replace (2 * Zpos p) with (Zpos p + Zpos p) by lia; rewrite Z.pow_add_r by lia; lia).
    rewrite IH by nia. by apply IH.
Qed.

(** The binary64 for an integer below 2^53: 53 digits and their exponent. *)
Definition exact_f64 (k : positive) (x : f64) : Prop :=
  exists m, x = S754_finite false m (Zpos (Pos.size k) - 53) /\
    Zpos m = Zpos k * 2 ^ (53 - Zpos (Pos.size k)).

Lemma size_53 k : Zpos k < 2 ^ 53 -> 1 <= Zpos (Pos.size k) <= 53.
Proof.
  intros Hk. pose proof (size_bounds k) as [Hl _].
  assert (Zpos (Pos.size k) - 1 < 53) by (apply (Z.pow_lt_mono_r_iff 2); lia). lia.
Qed.

Lemma fexp_53 d : -1021 <= d -> fexp 53 1024 d = d - 53.
Proof. unfold fexp, emin. lia. Qed.

(** A 53-digit mantissa is kept as it is. *)
Lemma round_aux_exact m e : Zpos (Pos.size m) = 53 -> -1074 <= e <= 971 ->
  binary_round_aux 53 1024 false (Zpos m) e loc_Exact = S754_finite false m e.
Proof.
  intros Hm He. unfold binary_round_aux, shr_fexp. cbn [shr_record_of_loc Zdigits2].
  rewrite digits2_size, Hm, fexp_53 by lia. replace (53 + e - 53 - e) with 0 by lia.
  cbn [shr shr_m loc_of_shr_record round_nearest_even shr_record_of_loc Zdigits2].
  rewrite digits2_size, Hm, fexp_53 by lia. replace (53 + e - 53 - e) with 0 by lia. cbn [shr shr_m].
  replace (e <=? 1024 - 53) with true by lia. done.
Qed.

(** [m * 2^-n] for an integer [k] is rounded to [k]. *)
Lemma round_exact k n m : Zpos k < 2 ^ 53 -> 0 <= n <= 900 -> Zpos m = Zpos k * 2 ^ n ->
  exact_f64 k (binary_round 53 1024 false m (- n)).
Proof.
  intros Hk Hn Hm. pose proof (size_53 k Hk) as Hs. pose proof (size_shift k n (proj1 Hn) m Hm) as Hsz.
  unfold binary_round, shl_align. rewrite digits2_size, Hsz, fexp_53 by lia.
  set (d := Zpos (Pos.size k)) in *. replace (d + n + - n - 53 - - n) with (d - 53 + n) by lia.
  destruct (Z_lt_le_dec (d - 53 + n) 0) as [Hlt|Hge].
  - destruct (d - 53 + n) as [|j|j] eqn:Hj; try lia.
    assert (Hq : Zpos (shift_pos j m) = Zpos k * 2 ^ (53 - d)).
    { rewrite shift_pos_correct, Hm, Z.pow_pos_fold. replace (53 - d) with (n + Zpos j) by lia.
      rewrite Z.pow_add_r by lia. lia. }
    replace (d + n + - n - 53) with (d - 53) by lia.
    change (Pos.iter xO m j) with (shift_pos j m). rewrite round_aux_exact; [by eexists| |lia].
    rewrite (size_shift k (53 - d)); [lia|lia|exact Hq].
  - assert (Hz : match d - 53 + n with Z.neg j => (Pos.iter xO m j, d + n + - n - 53) | _ => (m, - n) end = (m, - n))
      by (destruct (d - 53 + n); done || lia). rewrite Hz. clear Hz.
    unfold binary_round_aux, shr_fexp. cbn [shr_record_of_loc Zdigits2]. rewrite digits2_size, Hsz, fexp_53 by lia.
    replace (d + n + - n - 53 - - n) with (d - 53 + n) by lia.
    assert (Hpos : 0 < Zpos k * 2 ^ (53 - d)) by (pose proof (Z.pow_pos_nonneg 2 (53 - d)); nia).
    destruct (Zpos k * 2 ^ (53 - d)) as [|q|q] eqn:Hq; try lia.
    assert (Hqs : Zpos (Pos.size q) = 53) by (rewrite (size_shift k (53 - d)); [lia|lia|done]).
    assert (Hr : shr {| shr_m := Zpos m; shr_r := false; shr_s := false |} (- n) (d - 53 + n)
                 = ({| shr_m := Zpos q; shr_r := false; shr_s := false |}, d - 53)).
    { destruct (d - 53 + n) as [|j|j] eqn:Hj; try lia.
      - cbn. assert (Zpos m = Zpos q) as [= ->]; [|f_equal; lia]. rewrite Hm, <- Hq. f_equal. f_equal. lia.
      - cbn [shr]. replace (- n + Zpos j) with (d - 53) by lia. f_equal.
        rewrite <- (iter_shr_exact j (Zpos q)) by lia. do 2 f_equal. rewrite Hm, <- Hq, <- Z.mul_assoc, <- Z.pow_add_r by lia.
        f_equal. f_equal. lia. }
    rewrite Hr. exists q. split; [|done].
    pose proof (round_aux_exact q (d - 53) Hqs ltac:(lia)) as Hfin. unfold binary_round_aux in Hfin.
    unfold shr_fexp at 1 in Hfin. cbn [shr_record_of_loc Zdigits2] in Hfin.
    rewrite digits2_size, Hqs, fexp_53 in Hfin by lia.
    replace (53 + (d - 53) - 53 - (d - 53)) with 0 in Hfin by lia. exact Hfin.
Qed.

Lemma f64_of_Z_exact k : Zpos k < 2 ^ 53 -> exact_f64 k (f64_of_Z (Zpos k)).
Proof. intros Hk. apply (round_exact k 0); [done|lia|lia]. Qed.

Lemma exact_f64_compare a b x y : Zpos a < 2 ^ 53 -> Zpos b < 2 ^ 53 ->
  exact_f64 a x -> exact_f64 b y -> SFcompare x y = Some (Zpos a ?= Zpos b).
Proof.
  intros Ha Hb (m & -> & Hm) (m' & -> & Hm'). cbn [SFcompare]. f_equal.
  pose proof (size_bounds a) as [Hal Hah]. pose proof (size_bounds b) as [Hbl Hbh].
  set (da := Zpos (Pos.size a)) in *. set (db := Zpos (Pos.size b)) in *.
  assert (Hlt : forall d1 d2, d1 < d2 -> 2 ^ d1 <= 2 ^ (d2 - 1)) by (intros; apply Z.pow_le_mono_r; lia).
  destruct (Z.compare_spec (da - 53) (db - 53)) as [He|He|He].
  - change ((Zpos m ?= Zpos m') = (Zpos a ?= Zpos b)). rewrite Hm, Hm'.
    assert (0 < 2 ^ (53 - da)) by (apply Z.pow_pos_nonneg; pose proof (size_53 a Ha); lia).
    replace (53 - db) with (53 - da) by lia.
    destruct (Z.compare_spec (Zpos a) (Zpos b)) as [Hc|Hc|Hc];
      [rewrite Hc; apply Z.compare_refl|apply Z.compare_lt_iff; nia|apply Z.compare_gt_iff; nia].
  - symmetry. apply Z.compare_lt_iff. specialize (Hlt da db). lia.
  - symmetry. apply Z.compare_gt_iff. specialize (Hlt db da). lia.
Qed.

(** Comparing two exact integers compares the integers. *)
Lemma f64_compare_exact a b : 0 <= a < 2 ^ 53 -> 0 <= b < 2 ^ 53 ->
  SFcompare (f64_of_Z a) (f64_of_Z b) = Some (a ?= b).
Proof.
  intros Ha Hb. destruct a as [|a|a]; [|destruct b as [|b|b]|]; try lia.
  - destruct b as [|b|b]; try lia; [done|]. destruct (f64_of_Z_exact b) as (m & -> & _); [lia|done].
  - destruct (f64_of_Z_exact a) as (m & -> & _); [lia|done].
  - apply exact_f64_compare; try lia; apply f64_of_Z_exact; lia.
Qed.

Lemma f64_lt_exact a b : 0 <= a < 2 ^ 53 -> 0 <= b < 2 ^ 53 ->
  f64_lt (f64_of_Z a) (f64_of_Z b) = (a <? b).
Proof.
  intros Ha Hb. unfold f64_lt, SFltb. rewrite f64_compare_exact by done. unfold Z.ltb. by destruct (a ?= b).
Qed.
Lemma f64_le_exact a b : 0 <= a < 2 ^ 53 -> 0 <= b < 2 ^ 53 ->
  f64_le (f64_of_Z a) (f64_of_Z b) = (a <=? b).
Proof.
  intros Ha Hb. unfold f64_le, SFleb. rewrite f64_compare_exact by done. unfold Z.leb. by destruct (a ?= b).
Qed.

(** Aligning an exact integer to a smaller exponent. *)
Lemma shl_align_exact k m e ez : Zpos m = Zpos k * 2 ^ (- e) -> ez <= e <= 0 ->
  Zpos (fst (shl_align m e ez)) = Zpos k * 2 ^ (- ez).
Proof.
  intros Hm He. unfold shl_align. destruct (ez - e) as [|j|j] eqn:Hj; cbn [fst]; try lia.
  - rewrite Hm. do 2 f_equal. lia.
  - change (Pos.iter xO m j) with (shift_pos j m). rewrite shift_pos_correct, Hm, Z.pow_pos_fold.
    replace (- ez) with (- e + Zpos j) by lia. rewrite Z.pow_add_r by lia. lia.
Qed.

Lemma normalize_exact n z k : 0 <= n <= 900 -> 0 < k < 2 ^ 53 -> z = k * 2 ^ n ->
  forall kp, k = Zpos kp -> exact_f64 kp (binary_normalize 53 1024 z (- n) false).
Proof.
  intros Hn Hk Hz kp ->. destruct z as [|z|z].
  - pose proof (Z.pow_pos_nonneg 2 n). nia.
  - cbn [binary_normalize]. apply round_exact; [lia|lia|done].
  - pose proof (Z.pow_pos_nonneg 2 n). nia.
Qed.

Lemma exact_f64_unique k x y : exact_f64 k x -> exact_f64 k y -> x = y.
Proof. intros (m & -> & Hm) (m' & -> & Hm'). rewrite <- Hm in Hm'. by injection Hm' as ->. Qed.

(** The difference and the sum of exact integers. *)
Lemma f64_sub_exact a b : 0 <= b <= a -> a < 2 ^ 53 ->
  f64_sub (f64_of_Z a) (f64_of_Z b) = f64_of_Z (a - b).
Proof.
  intros Hb Ha. destruct b as [|b|b]; [rewrite Z.sub_0_r; destruct a as [|a|a]; [done| |lia]| |lia].
  - destruct (f64_of_Z_exact a) as (m & -> & _); [lia|done].
  - destruct a as [|a|a]; try lia. pose proof (f64_of_Z_exact a ltac:(lia)) as (m & -> & Hm).
    pose proof (f64_of_Z_exact b ltac:(lia)) as (m' & -> & Hm'). unfold f64_sub. cbn [SFsub cond_Zopp].
    pose proof (size_53 a ltac:(lia)). pose proof (size_53 b ltac:(lia)).
    set (ez := Z.min _ _). rewrite (shl_align_exact a m), (shl_align_exact b m')
      by (try (rewrite Hm || rewrite Hm'; do 2 f_equal); lia).
    rewrite <- Z.mul_sub_distr_r. destruct (Zpos a - Zpos b) as [|k|k] eqn:Hk; try lia; [done|].
    apply (exact_f64_unique k); [|apply f64_of_Z_exact; lia].
    replace ez with (- - ez) by lia. eapply normalize_exact; [unfold ez; lia| | |reflexivity]; [lia|].
    by rewrite Z.opp_involutive.
Qed.
Lemma f64_add_exact a b : 0 <= a -> 0 <= b -> a + b < 2 ^ 53 ->
  f64_add (f64_of_Z a) (f64_of_Z b) = f64_of_Z (a + b).
Proof.
  intros Ha Hb Hs. destruct a as [|a|a]; [|destruct b as [|b|b]; [rewrite Z.add_0_r| |lia]|lia].
  - destruct b as [|b|b]; [done| |lia]. rewrite Z.add_0_l. destruct (f64_of_Z_exact b) as (m & -> & _); [lia|done].
  - destruct (f64_of_Z_exact a) as (m & -> & _); [lia|done].
  - pose proof (f64_of_Z_exact a ltac:(lia)) as (m & -> & Hm).
    pose proof (f64_of_Z_exact b ltac:(lia)) as (m' & -> & Hm'). unfold f64_add. cbn [SFadd cond_Zopp].
    pose proof (size_53 a ltac:(lia)). pose proof (size_53 b ltac:(lia)).
    set (ez := Z.min _ _). rewrite (shl_align_exact a m), (shl_align_exact b m')
      by (try (rewrite Hm || rewrite Hm'; do 2 f_equal); lia).
    rewrite <- Z.mul_add_distr_r. cbn [Z.add].
    apply (exact_f64_unique (a + b)); [|apply f64_of_Z_exact; lia].
    replace ez with (- - ez) by lia. eapply (normalize_exact _ _ (Zpos (a + b))); [unfold ez; lia|lia| |reflexivity].
    by rewrite Z.opp_involutive.
Qed.
