(* ===== verification/Credentials.v ===== *)
(** * Client credentials and proofs

    How each kind of credential is checked: shared secrets and their hashes
    ([client.rs]), signed assertions ([client_assertion.rs]), certificates
    ([mtls.rs]) and DPoP proofs ([dpop.rs]).  Every function here is pure; the
    replay check and the storage lookups are in [ClientAuthn]. *)
From S2P Require Import Prelude Time Codec Scope Types Jws.
Local Open Scope Z_scope.

Definition CLOCK_SKEW_LEEWAY : Duration := from_secs 60.

(** ** client.rs: shared secrets *)
Module Secret.
Section secret.
Context `{Crypto}.

Definition constant_time_eq (a b : string) : bool :=
  (xor_acc 0 (bytes (sha256 a)) (bytes (sha256 b)) =? 0)%N.

Definition SHA256_HEX : string := "sha256-hex".

Definition secret_sha256 (secret : string) : SecretHash :=
  {| sh_scheme := SHA256_HEX; sh_encoded := Hex.encode (sha256 secret) |}.

(** The [SecretVerifier] trait: its [verify] and its [dummy_hash]. *)
Record SecretVerifier : Type := {
  sv_verify : SecretHash -> string -> bool;
  sv_dummy_hash : option SecretHash;
}.

Definition verify_builtin (self : SecretHash) (presented : string) : bool :=
  if sh_scheme self != SHA256_HEX then false
  else constant_time_eq (Hex.encode (sha256 presented)) (sh_encoded self).

Definition hash_verify (self : SecretHash) (presented : string) (verifier : option SecretVerifier) : bool :=
  if sh_scheme self == SHA256_HEX then verify_builtin self presented
  else match verifier with
       | Some v => sv_verify v self presented
       | None => false
       end.

Definition verify_with (self : ClientAuth) (presented : option string)
    (verifier : option SecretVerifier) : bool :=
  match self with
  | Public => is_none presented
  | ConfidentialSecret secret =>
      match presented with Some p => constant_time_eq secret p | None => false end
  | ConfidentialSecretHash hash =>
      match presented with Some p => hash_verify hash p verifier | None => false end
  | ConfidentialAssertion _ => false
  | Mtls _ => false
  end.
End secret.
End Secret.

(** ** client_assertion.rs *)
Module Assertion.
Definition CLIENT_ASSERTION_TYPE : string :=
  "urn:ietf:params:oauth:client-assertion-type:jwt-bearer".
Definition MAX_ASSERTION_LIFETIME : Duration := from_secs 600.
Definition MAX_ASSERTION_BYTES : nat := N.to_nat 4096.
Definition ACCEPTED_TYP : list string := ["JWT"; "jwt"; "client-authentication+jwt"].

Definition signing_alg (k : AssertionKeys) : string :=
  match k with AKClientSecret _ => "HS256" | AKPublicKeys alg _ => jose_name alg end.
Definition asymmetric_alg (k : AssertionKeys) : option JwsAlg :=
  match k with AKClientSecret _ => None | AKPublicKeys alg _ => Some alg end.

Inductive AudienceRule : Type := AnyOf (audiences : list string) | Exactly (expected : string).

Record VerifiedAssertion : Type := { vas_jti : string; vas_expires_at : SystemTime }.

Definition audience_matches (j : CompactJws) (rule : AudienceRule) : bool :=
  match rule, map_get "aud" (jws_payload j) with
  | AnyOf audiences, Some (VString one) => existsb (fun a => a == one) audiences
  | AnyOf audiences, Some (VArray many) =>
      existsb (fun one => existsb (fun a => a == one) audiences) (omap as_str many)
  | Exactly expected, Some (VString one) => one == expected
  | _, _ => false
  end.

Section assertion.
Context `{Crypto, Serde}.

Definition signed_by (verifier : option JwsVerifier) (keys : AssertionKeys) (j : CompactJws) : bool :=
  match keys with
  | AKClientSecret secret => verify_hs256 secret (jws_signing_input j) (jws_signature j)
  | AKPublicKeys _ ks =>
      match verifier with
      | Some v => existsb (fun key => jv_verify v key (jws_signing_input j) (jws_signature j)) ks
      | None => false
      end
  end.

(** [nbf] and [iat], each at or before the horizon when present. *)
Definition not_in_future (j : CompactJws) (horizon : SystemTime) (claim : string) : bool :=
  match claim_time j claim with
  | Some value => is_some_and (checked_add UNIX_EPOCH (from_secs value)) (fun i => i <=? horizon)
  | None => true
  end.

Definition verify_assertion (verifier : option JwsVerifier) (keys : AssertionKeys)
    (assertion client_id : string) (audience : AudienceRule) (now : SystemTime)
  : result VerifiedAssertion AssertionFailure :=
  if Nat.ltb MAX_ASSERTION_BYTES (str_len assertion) then Err AFMalformed
  else
    let? j := map_err (fun _ => AFMalformed) (jws_parse assertion) in
    if is_some_and (header_str j "typ") (fun typ => negb (existsb (fun t => t == typ) ACCEPTED_TYP))
    then Err AFMalformed
    else if header_str j "alg" != Some (signing_alg keys) then Err AFAlgorithmMismatch
    else if negb (is_ok (reject_unknown_crit j)) then Err AFMalformed
    else if negb (signed_by verifier keys j) then Err AFBadSignature
    else if (claim_str j "iss" != Some client_id) || (claim_str j "sub" != Some client_id)
    then Err AFWrongPrincipal
    else if negb (audience_matches j audience) then Err AFWrongAudience
    else
      let? exp := ok_or (claim_time j "exp") AFExpired in
      let? expires_at := ok_or (checked_add UNIX_EPOCH (from_secs exp)) AFExpired in
      if now >=? expires_at then Err AFExpired
      else
        let? ceiling := ok_or (checked_add now MAX_ASSERTION_LIFETIME) AFExpired in
        if expires_at >? ceiling then Err AFExpired
        else
          let? horizon := ok_or (checked_add now CLOCK_SKEW_LEEWAY) AFNotYetValid in
          if negb (forallb (not_in_future j horizon) ["nbf"; "iat"]) then Err AFNotYetValid
          else
            let jti := unwrap_or (claim_str j "jti") EmptyString in
            if str_is_empty jti then Err AFMissingJti
            else Ok {| vas_jti := jti; vas_expires_at := expires_at |}.

Definition unverified_subject (assertion : string) : option string :=
  if Nat.ltb MAX_ASSERTION_BYTES (str_len assertion) then None
  else match jws_parse assertion with
       | Ok j => claim_str j "sub"
       | Err _ => None
       end.

(** What an accepted assertion looks like. *)
Definition assertion_ok (verifier : option JwsVerifier) (keys : AssertionKeys) (assertion client_id : string)
    (audience : AudienceRule) (now : SystemTime) (v : VerifiedAssertion) : Prop :=
  exists j, jws_parse assertion = Ok j /\
    header_str j "alg" = Some (signing_alg keys) /\
    reject_unknown_crit j = Ok tt /\
    match keys with
    | AKClientSecret secret => verify_hs256 secret (jws_signing_input j) (jws_signature j) = true
    | AKPublicKeys _ ks => exists ver key, verifier = Some ver /\ key ∈ ks /\
        jv_verify ver key (jws_signing_input j) (jws_signature j) = true
    end /\
    claim_str j "iss" = Some client_id /\ claim_str j "sub" = Some client_id /\
    audience_matches j audience = true /\
    claim_str j "jti" = Some (vas_jti v) /\ vas_jti v <> EmptyString /\
    (exists exp, claim_time j "exp" = Some exp /\ vas_expires_at v = from_secs exp) /\
    now < vas_expires_at v <= now + MAX_ASSERTION_LIFETIME /\
    (forall claim t, claim ∈ ["nbf"; "iat"] -> claim_time j claim = Some t ->
       from_secs t <= now + CLOCK_SKEW_LEEWAY).

Lemma verify_assertion_ok verifier keys assertion client_id audience now v :
  verify_assertion verifier keys assertion client_id audience now = Ok v ->
  assertion_ok verifier keys assertion client_id audience now v.
Proof.
  unfold verify_assertion, assertion_ok. destruct (Nat.ltb _ _); [done|].
  destruct (jws_parse assertion) as [j|]; [|done]. cbn [map_err and_then].
  destruct (is_some_and (header_str j "typ") _); [done|].
  destruct (bool_decide_reflect (header_str j "alg" = Some (signing_alg keys))) as [Halg|]; [|done].
  cbn [negb]. destruct (reject_unknown_crit j) as [[]|] eqn:Hcrit; [|done]. cbn [is_ok negb].
  destruct (signed_by verifier keys j) eqn:Hsig; [|done]. cbn [negb].
  destruct (bool_decide_reflect (claim_str j "iss" = Some client_id)) as [Hiss|]; [|done].
  destruct (bool_decide_reflect (claim_str j "sub" = Some client_id)) as [Hsub|]; [|done]. cbn [negb orb].
  destruct (audience_matches j audience) eqn:Haud; [|done]. cbn [negb].
  intros (exp & Hexp%ok_or_ok & Hk)%and_then_ok.
  apply and_then_ok in Hk as (ea & Hea%ok_or_ok & Hk).
  destruct (now >=? ea) eqn:Hnow; [done|].
  apply and_then_ok in Hk as (ceil & Hceil%ok_or_ok & Hk).
  destruct (ea >? ceil) eqn:Hc; [done|].
  apply and_then_ok in Hk as (hor & Hhor%ok_or_ok & Hk).
  destruct (forallb (not_in_future j hor) _) eqn:Hfut; [|done]. cbn [negb] in Hk.
  destruct (claim_str j "jti") as [jti|] eqn:Hjti; [|done]. cbn [unwrap_or] in Hk.
  destruct (str_is_empty jti) eqn:Hne; [done|]. injection Hk as <-. cbn [vas_jti vas_expires_at].
  rewrite Z.geb_leb in Hnow. rewrite Z.gtb_ltb in Hc. bools.
  apply checked_add_Some in Hea as [-> _], Hceil as [-> _], Hhor as [-> _].
  exists j. split_and!; try done.
  - unfold signed_by in Hsig. destruct keys as [|a ks]; [done|]. destruct verifier as [ver|]; [|done].
    apply existsb_exists in Hsig as (key & Hk & Hv). exists ver, key. by rewrite list_elem_of_In.
  - intros ->. done.
  - exists exp. unfold UNIX_EPOCH. split; [done|lia].
  - intros claim t Hcl Ht. rewrite forallb_forall in Hfut.
    apply list_elem_of_In, Hfut in Hcl. unfold not_in_future in Hcl. rewrite Ht in Hcl.
    apply is_some_and_true in Hcl as (i & Hi & Hle). bools.
    apply checked_add_Some in Hi as [-> _]. unfold UNIX_EPOCH in Hle. lia.
Qed.

(** A verified client assertion is authentic, addressed here, and short lived.
    When [verify_assertion] accepts, the token parses as a compact JWS whose [alg]
    is the one registered, whose signature verifies under a registered key (or
    whose HMAC verifies under the registered secret), whose [iss] and [sub] are the
    client, whose audience this server accepts, which expires after now and at most
    ten minutes later, is not dated more than a minute in the future, and carries a
    non-empty [jti]; the deadline returned is the token's own. *)
Theorem verify_assertion_sound verifier keys assertion client_id audience now v :
  verify_assertion verifier keys assertion client_id audience now = Ok v ->
  assertion_ok verifier keys assertion client_id audience now v.
Proof. apply verify_assertion_ok. Qed.
End assertion.
End Assertion.

(** ** mtls.rs *)
Module MtlsAuth.
Definition str_in (v : string) (l : list string) : bool := existsb (fun x => x == v) l.

Definition satisfies (self : ClientCertificate) (expected : ExpectedSubject) : bool :=
  match expected with
  | SubjectDn dn => cert_subject_dn self == Some dn
  | SanDns v => str_in v (cert_san_dns self)
  | SanUri v => str_in v (cert_san_uri self)
  | SanIp v => str_in v (cert_san_ip self)
  | SanEmail v => str_in v (cert_san_email self)
  end.

Definition accepts (self : MtlsClientRegistration) (certificate : ClientCertificate) : bool :=
  match self with
  | TlsClientAuth expected => satisfies certificate expected
  | SelfSignedTlsClientAuth registered => str_in (cert_thumbprint certificate) registered
  end.
End MtlsAuth.

(** ** server.rs: the credential of a request *)
Record ClientCredential : Type := {
  cred_client_secret : option string;
  cred_client_assertion_type : option string;
  cred_client_assertion : option string;
  cred_certificate : option ClientCertificate;
}.

Definition credential_secret (client_secret : option string) : ClientCredential := {|
  cred_client_secret := client_secret; cred_client_assertion_type := None;
  cred_client_assertion := None; cred_certificate := None |}.

Definition or_secret (self : ClientCredential) (secret : option string) : ClientCredential := {|
  cred_client_secret := option_or (cred_client_secret self) secret;
  cred_client_assertion_type := cred_client_assertion_type self;
  cred_client_assertion := cred_client_assertion self;
  cred_certificate := cred_certificate self |}.

Definition verify_certificate (client : Client) (cred : ClientCredential) : result unit ClientAuthFailure :=
  match c_auth client with
  | Mtls registration =>
      if is_some (cred_client_secret cred) then Err SecretMismatch
      else
        let? certificate := ok_or (cred_certificate cred) NoCertificatePresented in
        if MtlsAuth.accepts registration certificate then Ok tt else Err CertificateMismatch
  | _ => Err SecretMismatch
  end.

(** ** dpop.rs *)
Module DpopProof.
Definition DPOP_PROOF_TYP : string := "dpop+jwt".
Definition MAX_PROOF_AGE : Duration := from_secs 300.
Definition MAX_PROOF_BYTES : nat := N.to_nat 4096.
Definition MAX_JTI_BYTES : nat := 128.

Record VerifiedProof : Type := { vp_jkt : string; vp_jti : string; vp_replay_until : SystemTime }.

(** The text before the first [?] or [#]. *)
Fixpoint htu_of (url : string) : string :=
  match url with
  | EmptyString => EmptyString
  | String c rest => if Ascii.eqb c "?" || Ascii.eqb c "#" then EmptyString else String c (htu_of rest)
  end.

(** [u.find("://")] *)
Fixpoint find_scheme_end (u : string) : option nat :=
  match strip_prefix "://" u with
  | Some _ => Some 0%nat
  | None => match u with
            | EmptyString => None
            | String _ rest => S <$> find_scheme_end rest
            end
  end.

Definition split_origin (u : string) : string * string :=
  match find_scheme_end u with
  | Some i =>
      match find_char "/" (drop_str (i + 3) u) with
      | Some j => (take_str (i + 3 + j) u, drop_str (i + 3 + j) u)
      | None => (u, EmptyString)
      end
  | None => (EmptyString, u)
  end.

Definition lower_byte (b : ascii) : ascii := if in_range 65 90 b then ascii_of_N (u8 b + 32) else b.
Definition eq_ignore_ascii_case (a b : string) : bool :=
  map lower_byte (bytes a) == map lower_byte (bytes b).

Definition htu_eq (claimed expected : string) : bool :=
  let '(co, cp) := split_origin (htu_of claimed) in
  let '(eo, ep) := split_origin (htu_of expected) in
  eq_ignore_ascii_case co eo && (cp == ep).

Section dpop.
Context `{Crypto, Serde}.

Definition verify_proof (verifiers : JwsVerifiers) (proof htm htu : string) (now : SystemTime)
  : result VerifiedProof DpopFailure :=
  if Nat.ltb MAX_PROOF_BYTES (str_len proof) then Err DFMalformed
  else
    let? j := map_err (fun _ => DFMalformed) (jws_parse proof) in
    if negb (is_ok (reject_unknown_crit j)) then Err DFMalformed
    else if header_str j "typ" != Some DPOP_PROOF_TYP then Err DFNotAProof
    else
      let? alg := map_err (fun _ => DFUnsupportedAlgorithm) (expect_alg j AnyInstalled verifiers) in
      let? jwk := ok_or (map_get "jwk" (jws_header j)) DFBadProofKey in
      let? jwk := map_err (fun _ => DFBadProofKey) (from_json jwk) in
      if negb (consistent alg jwk) then Err DFBadProofKey
      else
        let? verifier := ok_or (verifier_get verifiers alg) DFUnsupportedAlgorithm in
        if negb (jv_verify verifier jwk (jws_signing_input j) (jws_signature j)) then Err DFBadSignature
        else if claim_str j "htm" != Some htm then Err DFWrongMethod
        else if negb (is_some_and (claim_str j "htu") (fun claimed => htu_eq claimed htu)) then Err DFWrongUri
        else
          let? iat := ok_or (claim_time j "iat") DFStaleProof in
          let? issued_at := ok_or (checked_add UNIX_EPOCH (from_secs iat)) DFStaleProof in
          let? replay_until := ok_or (checked_add issued_at MAX_PROOF_AGE) DFStaleProof in
          let? horizon := ok_or (checked_add now CLOCK_SKEW_LEEWAY) DFStaleProof in
          if (issued_at >? horizon) || (replay_until <=? now) then Err DFStaleProof
          else
            let jti := unwrap_or (claim_str j "jti") EmptyString in
            if str_is_empty jti then Err DFMissingJti
            else if Nat.ltb MAX_JTI_BYTES (str_len jti) then Err DFMalformed
            else Ok {| vp_jkt := thumbprint jwk; vp_jti := jti; vp_replay_until := replay_until |}.

(** What an accepted proof looks like. *)
Definition proof_ok (verifiers : JwsVerifiers) (proof htm htu : string) (now : SystemTime)
    (v : VerifiedProof) : Prop :=
  exists j alg value jwk ver iat, jws_parse proof = Ok j /\
    header_str j "typ" = Some DPOP_PROOF_TYP /\ header_str j "alg" = Some (jose_name alg) /\
    map_get "jwk" (jws_header j) = Some value /\ from_json value = Ok jwk /\
    consistent alg jwk = true /\ verifier_get verifiers alg = Some ver /\
    jv_verify ver jwk (jws_signing_input j) (jws_signature j) = true /\
    claim_str j "htm" = Some htm /\
    (exists claimed, claim_str j "htu" = Some claimed /\ htu_eq claimed htu = true) /\
    claim_time j "iat" = Some iat /\ vp_replay_until v = from_secs iat + MAX_PROOF_AGE /\
    now < vp_replay_until v <= now + CLOCK_SKEW_LEEWAY + MAX_PROOF_AGE /\
    claim_str j "jti" = Some (vp_jti v) /\ (0 < str_len (vp_jti v) <= MAX_JTI_BYTES)%nat /\
    vp_jkt v = thumbprint jwk.

Lemma verify_proof_ok verifiers proof htm htu now v :
  verify_proof verifiers proof htm htu now = Ok v -> proof_ok verifiers proof htm htu now v.
Proof.
  unfold verify_proof. destruct (Nat.ltb _ _); [done|].
  destruct (jws_parse proof) as [j|] eqn:Hparse; [|done]. cbn [map_err and_then].
  destruct (is_ok (reject_unknown_crit j)); [|done]. cbn [negb].
  destruct (bool_decide_reflect (header_str j "typ" = Some DPOP_PROOF_TYP)) as [Htyp|]; [|done]. cbn [negb].
  destruct (expect_alg j AnyInstalled verifiers) as [alg|] eqn:Halg; [|done]. cbn [map_err and_then].
  intros (value & Hval%ok_or_ok & Hk)%and_then_ok.
  destruct (from_json value) as [jwk|] eqn:Hjwk; [|done]. cbn [map_err and_then] in Hk.
  destruct (consistent alg jwk) eqn:Hcons; [|done]. cbn [negb] in Hk.
  apply and_then_ok in Hk as (ver & Hver%ok_or_ok & Hk).
  destruct (jv_verify _ _ _ _) eqn:Hsig; [|done]. cbn [negb] in Hk.
  destruct (bool_decide_reflect (claim_str j "htm" = Some htm)) as [Hhtm|]; [|done]. cbn [negb] in Hk.
  destruct (is_some_and (claim_str j "htu") _) eqn:Hhtu; [|done]. cbn [negb] in Hk.
  apply is_some_and_true in Hhtu.
  apply and_then_ok in Hk as (iat & Hiat%ok_or_ok & Hk).
  apply and_then_ok in Hk as (issued & Hissued%ok_or_ok & Hk).
  apply and_then_ok in Hk as (until & Huntil%ok_or_ok & Hk).
  apply and_then_ok in Hk as (horizon & Hhor%ok_or_ok & Hk).
  destruct ((issued >? horizon) || _) eqn:Hwin; [done|].
  apply orb_false_iff in Hwin as [Hw1 Hw2]. rewrite Z.gtb_ltb in Hw1. bools.
  destruct (claim_str j "jti") as [jti|] eqn:Hjti; [|done]. cbn [unwrap_or] in Hk.
  destruct (str_is_empty jti) eqn:Hne; [done|].
  destruct (Nat.ltb_spec MAX_JTI_BYTES (str_len jti)); [done|]. injection Hk as <-.
  apply checked_add_Some in Hissued as [-> _], Huntil as [-> _], Hhor as [-> _].
  unfold UNIX_EPOCH in *.
  assert (Hname : header_str j "alg" = Some (jose_name alg)).
  { unfold expect_alg in Halg. apply and_then_ok in Halg as (name & Hname%ok_or_ok & Halg).
    apply and_then_ok in Halg as (a & Ha%ok_or_ok & Halg). case_match; [done|]. injection Halg as ->.
    rewrite Hname. f_equal. by apply classify_alg_Some. }
  exists j, alg, value, jwk, ver, iat. cbn [vp_jti vp_jkt vp_replay_until].
  split_and!; try done; try lia. by destruct jti; [|cbn; lia].
Qed.

(** A verified DPoP proof is fresh, bound and genuine: when [verify_proof]
    accepts, the proof is a compact JWS of type [dpop+jwt] signed, under an installed
    algorithm consistent with the key, by the public key in its own header; it names
    this method and this URI; its replay deadline is five minutes after its [iat],
    lies after now and at most six minutes away; its [jti] has 1 to 128 bytes; and
    the thumbprint returned is that of the key that signed. *)
Theorem verify_proof_sound verifiers proof htm htu now v :
  verify_proof verifiers proof htm htu now = Ok v -> proof_ok verifiers proof htm htu now v.
Proof. apply verify_proof_ok. Qed.
End dpop.
End DpopProof.

(** ** Facts about shared secrets *)
Section secret_facts.
Context `{Crypto, !CryptoLaws _}.

Lemma constant_time_eq_iff a b : Secret.constant_time_eq a b = true <-> sha256 a = sha256 b.
Proof.
  unfold Secret.constant_time_eq. rewrite N.eqb_eq, xor_acc_zero by (by rewrite !bytes_length, !sha256_length).
  split; [intros [_ ?]; by apply bytes_inj|by intros ->].
Qed.

(** Verifying a presented secret is exact on every registration: a public client
    is accepted only without a secret; a stored secret or a built-in hash accepts a
    presented secret exactly when the digests agree, so the right secret is always
    accepted; a foreign hash scheme is decided by the installed verifier and refused
    without one; assertion and certificate clients never pass on a secret. *)
Theorem verify_with_exact auth presented verifier :
  Secret.verify_with auth presented verifier = true <->
  match auth with
  | Public => presented = None
  | ConfidentialSecret secret => exists p, presented = Some p /\ sha256 secret = sha256 p
  | ConfidentialSecretHash hash =>
      exists p, presented = Some p /\
        if decide (sh_scheme hash = Secret.SHA256_HEX)
        then sha256 (Hex.encode (sha256 p)) = sha256 (sh_encoded hash)
        else exists v, verifier = Some v /\ Secret.sv_verify v hash p = true
  | ConfidentialAssertion _ | Mtls _ => False
  end.
Proof.
  destruct auth as [|secret|hash|keys|reg]; cbn; try done.
  - destruct presented; cbn; naive_solver.
  - destruct presented as [p|]; [|naive_solver]. rewrite constant_time_eq_iff. naive_solver.
  - destruct presented as [p|]; [|naive_solver]. unfold Secret.hash_verify, Secret.verify_builtin.
    destruct (decide (sh_scheme hash = Secret.SHA256_HEX)) as [Hs|Hs].
    + rewrite !bool_decide_eq_true_2 by done. cbn. rewrite constant_time_eq_iff. naive_solver.
    + rewrite bool_decide_eq_false_2 by done. destruct verifier; naive_solver.
Qed.
End secret_facts.

(** A certificate client is accepted exactly when it presents no secret and a
    certificate its registration accepts, and each way of failing has its own
    reason. *)
Theorem verify_certificate_exact client cred :
  match verify_certificate client cred with
  | Ok _ => exists reg cert, c_auth client = Mtls reg /\ cred_client_secret cred = None /\
              cred_certificate cred = Some cert /\ MtlsAuth.accepts reg cert = true
  | Err SecretMismatch => (forall reg, c_auth client <> Mtls reg) \/ is_Some (cred_client_secret cred)
  | Err NoCertificatePresented => cred_certificate cred = None
  | Err CertificateMismatch => exists reg cert, c_auth client = Mtls reg /\
              cred_certificate cred = Some cert /\ MtlsAuth.accepts reg cert = false
  | Err _ => False
  end.
Proof.
  unfold verify_certificate. destruct (c_auth client) as [| | | |reg]; try (left; congruence).
  destruct (cred_client_secret cred); cbn; [by right|].
  destruct (cred_certificate cred) as [cert|]; cbn; [|done].
  destruct (MtlsAuth.accepts reg cert) eqn:Ha; eauto 10.
Qed.

(** ** Evaluation *)
Definition assertion_serde : Serde := {|
  json_from_slice s :=
    if s == "header" then Some (VObject [("alg", VString "HS256")])
    else if s == "claims" then
      Some (VObject [("iss", VString "app"); ("sub", VString "app"); ("aud", VString "https://as");
                     ("exp", VNumber (PosInt 100)); ("jti", VString "1")])
    else if s == "dpop" then
      Some (VObject [("typ", VString "dpop+jwt"); ("alg", VString "RS256");
                     ("jwk", VObject [("kty", VString "RSA"); ("n", VString "00"); ("e", VString "01")])])
    else if s == "proof" then
      Some (VObject [("htm", VString "POST"); ("htu", VString "HTTPS://as/token?x=1");
                     ("iat", VNumber (PosInt 90)); ("jti", VString "1")])
    else None;
  details_from_str _ := None;
  json_to_string _ := EmptyString |}.

Definition demo_assertion : string :=
  @compact_jws plain_crypto "header" "claims" (@hmac_sha256 plain_crypto "a-secret-of-22-letters").

Lemma verify_assertion_sound_witness :
  exists j, @jws_parse plain_crypto assertion_serde demo_assertion = Ok j /\
    claim_str j "iss" = Some "app".
Proof.
  destruct (@Assertion.verify_assertion_sound plain_crypto assertion_serde None
    (AKClientSecret "a-secret-of-22-letters") demo_assertion "app"
    (Assertion.AnyOf ["https://as/token"; "https://as"]) (from_secs 50)
    {| Assertion.vas_jti := "1"; Assertion.vas_expires_at := from_secs 100 |})
    as (j & Hj & _ & _ & _ & Hiss & _); [vm_compute; reflexivity|].
  exists j. split; [exact Hj|exact Hiss].
Defined.

Definition demo_verifier : JwsVerifier := {| jv_alg := Rs256; jv_verify _ input sig := sig == input |}.
Definition demo_proof : string := @compact_jws plain_crypto "dpop" "proof" (fun input => input).

Lemma verify_proof_sound_witness :
  @DpopProof.proof_ok plain_crypto assertion_serde (install demo_verifier no_verifiers) demo_proof
    "POST" "https://as/token" (from_secs 100)
    {| DpopProof.vp_jkt := @thumbprint plain_crypto (JwkRsa "00" "01" None);
       DpopProof.vp_jti := "1"; DpopProof.vp_replay_until := from_secs 390 |}.
Proof.
  apply (@DpopProof.verify_proof_sound plain_crypto assertion_serde). vm_compute. reflexivity.
Defined.

Lemma verify_with_exact_witness :
  @Secret.verify_with plain_crypto (ConfidentialSecretHash (@Secret.secret_sha256 plain_crypto "s3cret"))
    (Some "s3cret") None = true.
Proof.
  apply (@verify_with_exact plain_crypto plain_crypto_laws). exists "s3cret". split; reflexivity.
Defined.
