(* ===== verification/Config.v ===== *)
(** * The server's configuration and the checks it decides (server.rs)

    [ServerConfig] with the values [ServerConfig::new] gives, [Hooks], and the
    functions of [AuthorizationServer] that read them without touching the store:
    the verifier tables, the resource indicators (RFC 8707), the scopes, the
    granted details and the revocation window. *)
From S2P Require Import Prelude Time Codec Scope Types Store StoreFacts Effects Rar Jws Keys Credentials.
Local Open Scope Z_scope.

(** ** Access-token format (jwt.rs) *)
Record AccessTokenClaims : Type := {
  atc_iss : string; atc_exp : Z; atc_aud : Audience; atc_sub : string; atc_client_id : string;
  atc_iat : Z; atc_jti : string; atc_scope : option string;
  atc_authorization_details : AuthorizationDetails; atc_auth_time : option Z; atc_acr : option string;
  atc_cnf : option Confirmation; atc_act : option ActClaim;
}.

(** [AccessTokenClaims::new] *)
Definition claims_new (iss : string) (exp : Z) (aud : Audience) (sub client_id : string) (iat : Z)
    (jti : string) : AccessTokenClaims := {|
  atc_iss := iss; atc_exp := exp; atc_aud := aud; atc_sub := sub; atc_client_id := client_id;
  atc_iat := iat; atc_jti := jti; atc_scope := None; atc_authorization_details := [];
  atc_auth_time := None; atc_acr := None; atc_cnf := None; atc_act := None |}.

Inductive AccessTokenFormat : Type := OpaqueFormat | JwtFormat (jwt : JwtConfig).

(** [serde_json::to_vec] on the claims, and the signature backends a build bundles. *)
Class Backends := {
  claims_to_vec : AccessTokenClaims -> option string;
  builtin_verifier : JwsAlg -> option JwsVerifier;
}.

Section jwt_config.
Context `{Crypto, Backends}.

(** [JwtConfig::signing_input] *)
Definition signing_input (self : JwtConfig) (claims : AccessTokenClaims) : option string :=
  if negb (names_a_resource_server (atc_aud claims)) then None
  else match claims_to_vec claims with
       | None => None
       | Some claims_json => Some (jc_encoded_header self +:+ "." +:+ b64url_encode claims_json)
       end.

(** [JwtConfig::finish_signing] *)
Definition finish_signing (compact : string) : prog (option string) :=
  Sign compact (fun signature =>
    Ret (match signature with
         | Some s => Some (compact +:+ "." +:+ b64url_encode s)
         | None => None
         end)).

(** [JwtConfig::sign_access_token] *)
Definition sign_access_token (self : JwtConfig) (claims : AccessTokenClaims) : prog (option string) :=
  match signing_input self claims with
  | Some input => finish_signing input
  | None => Ret None
  end.
End jwt_config.

(** ** [ServerConfig] *)
Inductive RefreshRotation : Type := Rotate | Reuse.
#[global] Instance RefreshRotation_eq_dec : EqDecision RefreshRotation. Proof. solve_decision. Defined.
Inductive AssertionAudience : Type := Rfc7523 | IssuerOnly.

(** ** The configuration of the optional endpoints (par.rs, registration.rs, cimd.rs) *)
Record ParConfig : Type := {
  pc_endpoint : option string; pc_request_uri_ttl : Duration;
  pc_require_pushed_authorization_requests : bool; pc_require_redirect_uri : bool;
}.
Record JarConfig : Type := {
  jrc_require_signed_request_object : bool; jrc_max_request_object_lifetime : Duration;
}.
(** [RegisteredRequestObjectKey] *)
Record RegisteredRequestObjectKey : Type := {
  rok_alg : JwsAlg; rok_kid : option string; rok_key : Jwk;
}.
(** What a client may say about itself (RFC 7591 section 2). *)
Record ClientMetadata : Type := {
  cm_redirect_uris : list string;
  cm_token_endpoint_auth_method : option string;
  cm_grant_types : option (list string);
  cm_response_types : option (list string);
  cm_client_name : option string;
  cm_scope : option string;
  cm_software_statement : option string;
}.
Record RegistrationAttempt : Type := {
  ra_initial_access_token : option string; ra_metadata : ClientMetadata;
}.
Inductive RegistrationDecision : Type := RegistrationAllow | RegistrationDeny.
Record RegistrationConfig : Type := {
  rc_registration_endpoint : option string;
  rc_allowed_grant_types : list GrantType;
  rc_allowed_scopes : ScopeSet;
  rc_client_secret_ttl : option Duration;
  rc_management_enabled : bool;
}.
Record CimdPolicy : Type := {
  cp_allow_loopback : bool;
  cp_max_document_bytes : nat;
  cp_redirect_uris_same_origin : bool;
  cp_allow_query_string : bool;
  cp_registration_bounds : RegistrationConfig;
}.
Record ResourceServerRegistration : Type := {
  rsr_client_id : ClientId; rsr_resources : list string;
}.

Record ServerConfig : Type := {
  cfg_issuer : string;
  cfg_verification_uri : string;
  cfg_authorization_endpoint : option string;
  cfg_token_endpoint : option string;
  cfg_device_authorization_endpoint : option string;
  cfg_introspection_endpoint : option string;
  cfg_revocation_endpoint : option string;
  cfg_jwks_uri : option string;
  cfg_registration : option RegistrationConfig;
  cfg_par : option ParConfig;
  cfg_jar : option JarConfig;
  cfg_cimd : option CimdPolicy;
  cfg_scopes_supported : option (list string);
  cfg_allowed_resources : option (list string);
  cfg_resource_servers : option (list ResourceServerRegistration);
  cfg_service_documentation : option string;
  cfg_authorization_details_types_supported : option (list string);
  cfg_protected_resources : option (list string);
  cfg_access_token_format : AccessTokenFormat;
  cfg_jws_alg_allow_list : AlgAllowList;
  cfg_authorization_code_ttl : Duration;
  cfg_include_verification_uri_complete : bool;
  cfg_device_code_ttl : Duration;
  cfg_poll_interval : Duration;
  cfg_slow_down_increment : Duration;
  cfg_access_token_ttl : Duration;
  cfg_issue_refresh_tokens : bool;
  cfg_allow_sender_constrained_exchange : bool;
  cfg_allow_authorization_details_exchange : bool;
  cfg_refresh_token_ttl : option Duration;
  cfg_refresh_reuse_window : Duration;
  cfg_refresh_retry_window : Duration;
  cfg_refresh_rotation : RefreshRotation;
  cfg_require_dpop : bool;
  cfg_assertion_audience : AssertionAudience;
  cfg_user_code_length : nat;
}.

Definition config_new (issuer verification_uri : string) : ServerConfig := {|
  cfg_issuer := issuer; cfg_verification_uri := verification_uri;
  cfg_authorization_endpoint := None; cfg_token_endpoint := None;
  cfg_device_authorization_endpoint := None; cfg_introspection_endpoint := None;
  cfg_revocation_endpoint := None; cfg_jwks_uri := None; cfg_registration := None;
  cfg_par := None; cfg_jar := None; cfg_cimd := None; cfg_scopes_supported := None;
  cfg_allowed_resources := None; cfg_resource_servers := None; cfg_service_documentation := None;
  cfg_authorization_details_types_supported := None; cfg_protected_resources := None;
  cfg_access_token_format := OpaqueFormat;
  cfg_jws_alg_allow_list := allow_all; cfg_authorization_code_ttl := from_secs 60;
  cfg_include_verification_uri_complete := false; cfg_device_code_ttl := from_secs 600;
  cfg_poll_interval := from_secs 5; cfg_slow_down_increment := from_secs 5;
  cfg_access_token_ttl := from_secs 3600; cfg_issue_refresh_tokens := true;
  cfg_allow_sender_constrained_exchange := false; cfg_allow_authorization_details_exchange := false;
  cfg_refresh_token_ttl := None; cfg_refresh_reuse_window := from_secs (30 * 24 * 60 * 60);
  cfg_refresh_retry_window := 0; cfg_refresh_rotation := Rotate; cfg_require_dpop := false;
  cfg_assertion_audience := Rfc7523; cfg_user_code_length := UserCode.MIN_USER_CODE_LENGTH |}.

(** [AuthorizationServer]: its configuration and its hooks; the store and the clock
    are effects. *)
Record AuthorizationServer : Type := {
  sv_config : ServerConfig;
  sv_hooks : HooksInstalled;
  sv_secret_verifier : option Secret.SecretVerifier;
  sv_jws_verifiers : option JwsVerifiers;
  sv_registration_policy : option (RegistrationAttempt -> RegistrationDecision);
  sv_request_object_keys : option (ClientId -> option RegisteredRequestObjectKey);
}.

Section config.
Context `{Backends} (self : AuthorizationServer).

(** The field [token_endpoint], computed by [with_clock]. *)
Definition token_endpoint : string :=
  match cfg_token_endpoint (sv_config self) with
  | Some endpoint => endpoint
  | None => trim_end_matches "/" (cfg_issuer (sv_config self)) +:+ "/token"
  end.

Definition issuer_identifier : string := trim_end_matches "/" (cfg_issuer (sv_config self)).

Definition jws_verifier (alg : JwsAlg) : option JwsVerifier :=
  if negb (is_allowed (cfg_jws_alg_allow_list (sv_config self)) alg) then None
  else match sv_jws_verifiers self ≫= (fun vs => verifier_get vs alg) with
       | Some installed => Some installed
       | None => builtin_verifier alg
       end.

(** Fill one empty slot from the bundled backends. *)
Definition fill_slot (vs : JwsVerifiers) (alg : JwsAlg) : JwsVerifiers :=
  match verifier_get vs alg, builtin_verifier alg with
  | None, Some v => install v vs
  | _, _ => vs
  end.

Definition resolved_jws_verifiers : JwsVerifiers :=
  let verifiers := unwrap_or (sv_jws_verifiers self) no_verifiers in
  let verifiers := foldl fill_slot verifiers [Es256; Rs256; Ps256; EdDsa] in
  restrict_to (cfg_jws_alg_allow_list (sv_config self)) verifiers.

(** ** Resource indicators *)
Definition MAX_RESOURCE_INDICATORS : nat := 16.

Definition invalid_target (d : string) : ErrorResponse := with_description (error_new InvalidTarget) d.

Definition target_is_permitted (value : string) : result unit ErrorResponse :=
  match cfg_allowed_resources (sv_config self) with
  | Some allowed =>
      if negb (existsb (fun a => a == value) allowed)
      then Err (invalid_target "this server does not issue tokens for that resource")
      else Ok tt
  | None => Ok tt
  end.

(** The loop of [validate_resources]: [seen] counts the values read so far. *)
Fixpoint validate_loop (seen : nat) (out requested : list string) : result (list string) ErrorResponse :=
  match requested with
  | [] => Ok out
  | value :: rest =>
      let seen := S seen in
      if Nat.ltb MAX_RESOURCE_INDICATORS seen
      then Err (invalid_target "too many resource indicators (RFC 8707 s2)")
      else if negb (Uri.is_valid_resource_indicator value)
      then Err (invalid_target "resource must be an absolute URI with no fragment (RFC 8707 s2)")
      else
        let? _ := target_is_permitted value in
        validate_loop seen (if existsb (fun kept => kept == value) out then out else out ++ [value]) rest
  end.

Definition validate_resources (requested : list string) : result (list string) ErrorResponse :=
  validate_loop 0 [] requested.

Definition narrow_resources (granted requested : list string) : result (list string) ErrorResponse :=
  match requested with
  | [] => Ok granted
  | _ => if forallb (fun want => existsb (fun g => g == want) granted) requested then Ok requested
         else Err (invalid_target "resource was not granted by the authorization request")
  end.

Definition list_is_empty {A} (l : list A) : bool := match l with [] => true | _ => false end.

Definition narrow_and_permit (granted requested : list string) : result (list string) ErrorResponse :=
  let? issued := narrow_resources granted requested in
  if negb (list_is_empty requested) then Ok issued
  else
    let permitted := List.filter (fun value => is_ok (target_is_permitted value)) issued in
    if list_is_empty permitted && negb (list_is_empty granted)
    then Err (invalid_target "this server no longer issues tokens for any resource this grant names")
    else Ok permitted.

(** ** The revocation window *)
Definition revocation_window : prog RevocationWindow :=
  let c := sv_config self in
  let longest := Z.max (Z.max (Z.max (Z.max (cfg_access_token_ttl c)
                   (unwrap_or (cfg_refresh_token_ttl c) 0)) (cfg_refresh_reuse_window c))
                   (cfg_authorization_code_ttl c)) (cfg_device_code_ttl c) in
  let* recorded_at := now in
  Ret {| rw_recorded_at := recorded_at; rw_until := saturating_deadline recorded_at longest |}.
End config.

(** ** Scopes *)
Definition granted_default_scope (client : Client) : ScopeSet :=
  if ScopeSet.is_subset (c_default_scopes client) (c_allowed_scopes client)
  then c_default_scopes client
  else match ScopeSet.from_tokens
               (List.filter (fun s => ScopeSet.contains (c_allowed_scopes client) s) (c_default_scopes client)) with
       | Ok s => s
       | Err _ => ScopeSet.empty
       end.

Definition resolve_scope (client : Client) (requested : option ScopeSet) : result ScopeSet ErrorResponse :=
  match requested with
  | None => Ok (granted_default_scope client)
  | Some s =>
      if ScopeSet.is_subset s (c_allowed_scopes client) then Ok s
      else Err (with_description (error_new InvalidScope) "requested scope exceeds the client registration")
  end.

(** ** [GrantedDetails] *)
Definition GrantedDetails : Type := option AuthorizationDetails.
Definition gd_of (details : AuthorizationDetails) : GrantedDetails :=
  match details with [] => None | _ => Some details end.
Definition into_details (d : GrantedDetails) : AuthorizationDetails := unwrap_or d [].
Definition gd_narrow (self requested : GrantedDetails) : result GrantedDetails ErrorResponse :=
  match requested with
  | None => Ok self
  | Some requested =>
      let granted := unwrap_or self [] in
      let? narrowed := narrow granted requested in
      Ok (gd_of narrowed)
  end.

(** ** Text checks and errors *)
Definition challenge_is_well_formed (challenge : string) : bool :=
  Nat.eqb (str_len challenge) 43
  && str_forall (fun b => is_ascii_alphanumeric b || Ascii.eqb b "-" || Ascii.eqb b "_") challenge.

Definition storage_error (e : StorageError) : ErrorResponse := error_new ServerError.
Definition randomness_error : ErrorResponse := error_new ServerError.

(** [try_random_hex] *)
Definition try_random_hex (n_bytes : nat) : prog (option string) :=
  let* buf := rand n_bytes in
  Ret (Hex.encode <$> buf).

(** ** Facts *)
Lemma existsb_elem (l : list string) x : existsb (fun y => y == x) l = true <-> x ∈ l.
Proof.
  rewrite existsb_exists. setoid_rewrite bool_decide_eq_true. setoid_rewrite <- list_elem_of_In.
  naive_solver.
Qed.

Definition permitted_target (self : AuthorizationServer) (value : string) : Prop :=
  forall allowed, cfg_allowed_resources (sv_config self) = Some allowed -> value ∈ allowed.

Lemma target_is_permitted_ok self value :
  target_is_permitted self value = Ok tt <-> permitted_target self value.
Proof.
  unfold target_is_permitted, permitted_target.
  destruct (cfg_allowed_resources (sv_config self)) as [allowed|]; [|naive_solver].
  destruct (existsb _ allowed) eqn:He; cbn.
  - apply existsb_elem in He. naive_solver.
  - split; [done|]. intros Hp. specialize (Hp _ eq_refl). apply existsb_elem in Hp. congruence.
Qed.

Lemma target_is_permitted_is_ok self value :
  is_ok (target_is_permitted self value) = true <-> permitted_target self value.
Proof. rewrite <- target_is_permitted_ok. destruct (target_is_permitted self value) as [[]|]; done. Qed.

Lemma validate_loop_ok self requested : forall seen out res,
  NoDup out -> validate_loop self seen out requested = Ok res ->
  NoDup res /\ (forall v, v ∈ res <-> v ∈ out \/ v ∈ requested) /\
  (forall v, v ∈ requested -> Uri.is_valid_resource_indicator v = true /\ permitted_target self v) /\
  (List.length requested <= MAX_RESOURCE_INDICATORS - seen \/ requested = [])%nat.
Proof.
  induction requested as [|v rest IH]; intros seen out res Hnd Hok; cbn [validate_loop] in Hok.
  - injection Hok as <-. set_solver.
  - destruct (Nat.ltb_spec MAX_RESOURCE_INDICATORS (S seen)); [done|].
    destruct (Uri.is_valid_resource_indicator v) eqn:Hv; [|done]. cbn [negb] in Hok.
    apply and_then_ok in Hok as ([] & Hp%target_is_permitted_ok & Hok).
    apply IH in Hok as (Hnd' & Hmem & Hall & Hlen).
    + split_and!; [done| | |left; destruct Hlen as [?| ->]; cbn [List.length]; lia].
      * intros x. rewrite Hmem. destruct (existsb _ out) eqn:He; [apply existsb_elem in He|]; set_solver.
      * intros x [->|Hx]%elem_of_cons; [done|auto].
    + destruct (existsb _ out) eqn:He; [done|]. apply NoDup_app. split_and!; [done| |by apply NoDup_singleton].
      intros x Hx ->%list_elem_of_singleton. apply existsb_elem in Hx. congruence.
Qed.

(** The resource indicators a request ends up with are exactly the ones it sent,
    without duplicates: at most sixteen, each an absolute URI with no fragment, and
    each one this server issues tokens for. *)
Theorem validate_resources_sound self requested out :
  validate_resources self requested = Ok out ->
  NoDup out /\ (forall v, v ∈ out <-> v ∈ requested) /\
  (List.length requested <= MAX_RESOURCE_INDICATORS)%nat /\
  (forall v, v ∈ out -> Uri.is_valid_resource_indicator v = true /\ permitted_target self v).
Proof.
  intros (Hnd & Hmem & Hall & Hlen)%validate_loop_ok; [|constructor].
  assert (Hm : forall v, v ∈ out <-> v ∈ requested) by set_solver.
  split_and!; [done|done|destruct Hlen as [?| ->]; cbn [List.length]; lia|]. intros v Hv%Hm. auto.
Qed.

Lemma narrow_resources_ok granted requested out : narrow_resources granted requested = Ok out ->
  (forall v, v ∈ out -> v ∈ granted) /\
  ((requested = [] /\ out = granted) \/ (requested <> [] /\ out = requested)).
Proof.
  unfold narrow_resources. destruct requested as [|r rs]; [intros [= <-]; set_solver|].
  destruct (forallb _ _) eqn:Hall; [|done]. intros [= <-]. split; [|by right].
  intros v Hv. rewrite forallb_forall in Hall. apply list_elem_of_In, Hall in Hv. by apply existsb_elem.
Qed.

Lemma narrow_and_permit_ok self granted requested out :
  narrow_and_permit self granted requested = Ok out ->
  (forall v, v ∈ out -> v ∈ granted) /\
  (requested <> [] -> out = requested) /\
  (requested = [] -> (forall v, v ∈ out <-> v ∈ granted /\ permitted_target self v) /\
                     (granted <> [] -> out <> [])).
Proof.
  intros (issued & [Hsub Hor]%narrow_resources_ok & Hk)%and_then_ok.
  destruct requested as [|r rs]; cbn [list_is_empty negb] in Hk.
  - destruct Hor as [[_ ->]|[Hx _]]; [|done]. clear Hsub.
    set (permitted := List.filter _ granted) in Hk.
    assert (Hp : forall v, v ∈ permitted <-> v ∈ granted /\ permitted_target self v).
    { intros v. unfold permitted. rewrite list_elem_of_In, filter_In, <- list_elem_of_In.
      by rewrite target_is_permitted_is_ok. }
    destruct (list_is_empty permitted && negb (list_is_empty granted)) eqn:He; [done|].
    injection Hk as <-. split_and!; [naive_solver|done|]. intros _. split; [done|].
    intros Hg. destruct permitted; [|done]. by destruct granted.
  - destruct Hor as [[? _]|[_ ->]]; [done|]. injection Hk as <-. split_and!; [done|done|done].
Qed.

(** The resources of an issued token never exceed the grant: whatever a token
    request asks for, the accepted list is a sublist of what was granted; a request
    that names resources gets exactly those; a request that names none gets every
    granted resource this server still issues tokens for, and is refused when none
    of a non-empty grant is left. *)
Theorem narrow_and_permit_never_widens self granted requested out :
  narrow_and_permit self granted requested = Ok out ->
  (forall v, v ∈ out -> v ∈ granted) /\
  (requested <> [] -> out = requested) /\
  (requested = [] -> (forall v, v ∈ out <-> v ∈ granted /\ permitted_target self v) /\
                     (granted <> [] -> out <> [])).
Proof. apply narrow_and_permit_ok. Qed.

Definition demo_server : AuthorizationServer := {|
  sv_config := config_new "https://as" "https://as/device";
  sv_hooks := {| h_events := true; h_rate_limiter := true |};
  sv_secret_verifier := None; sv_jws_verifiers := None;
  sv_registration_policy := None; sv_request_object_keys := None |}.

Lemma validate_resources_sound_witness :
  (List.length ["https://api"; "https://api"] <= MAX_RESOURCE_INDICATORS)%nat /\ NoDup ["https://api"].
Proof.
  destruct (validate_resources_sound demo_server ["https://api"; "https://api"] ["https://api"])
    as (Hnd & _ & Hlen & _); [reflexivity|]. split; [exact Hlen|exact Hnd].
Defined.

Lemma narrow_and_permit_never_widens_witness :
  narrow_and_permit demo_server ["https://a"; "https://b"] ["https://a"] = Ok ["https://a"] /\
  (forall v, v ∈ ["https://a"] -> v ∈ ["https://a"; "https://b"]).
Proof.
  split; [reflexivity|].
  destruct (narrow_and_permit_never_widens demo_server ["https://a"; "https://b"] ["https://a"] ["https://a"])
    as [Hsub _]; [reflexivity|exact Hsub].
Defined.

Lemma granted_default_scope_ok client :
  ScopeSet.wf (c_default_scopes client) -> ScopeSet.wf (c_allowed_scopes client) ->
  ScopeSet.wf (granted_default_scope client) /\
  forall s, s ∈ granted_default_scope client <-> s ∈ c_default_scopes client /\ s ∈ c_allowed_scopes client.
Proof.
  intros Hd Ha. unfold granted_default_scope.
  destruct (ScopeSet.is_subset _ _) eqn:Hs.
  - rewrite ScopeSet.is_subset_sorted in Hs by (apply Hd || apply Ha). naive_solver.
  - assert (Hf : Forall token_ok (List.filter (fun s => ScopeSet.contains (c_allowed_scopes client) s)
                                    (c_default_scopes client))).
    { apply Forall_forall. intros x Hx. apply list_elem_of_In, filter_In in Hx as [Hx _].
      destruct Hd as [_ Hd]. rewrite Forall_forall in Hd. by apply Hd, list_elem_of_In. }
    rewrite ScopeSet.from_tokens_Forall by done. split; [by apply ScopeSet.sorted_wf|].
    intros s. rewrite ScopeSet.sorted_elem, list_elem_of_In, filter_In, <- list_elem_of_In.
    unfold ScopeSet.contains. by rewrite existsb_elem.
Qed.

(** No client is ever granted a scope outside its registration: the scope
    resolved for a request is well formed and inside [allowed_scopes] whether it was
    asked for or defaulted, a request inside the registration is granted as it is,
    and one outside it is refused with [invalid_scope]. *)
Theorem resolve_scope_within_registration client requested :
  ScopeSet.wf (c_default_scopes client) -> ScopeSet.wf (c_allowed_scopes client) ->
  (forall s, requested = Some s -> ScopeSet.wf s) ->
  match resolve_scope client requested with
  | Ok scope => ScopeSet.wf scope /\ (forall t, t ∈ scope -> t ∈ c_allowed_scopes client) /\
                (forall s, requested = Some s -> scope = s)
  | Err e => error e = InvalidScope /\
             exists s t, requested = Some s /\ t ∈ s /\ t ∉ c_allowed_scopes client
  end.
Proof.
  intros Hd Ha Hr. unfold resolve_scope. destruct requested as [s|].
  - specialize (Hr s eq_refl). destruct (ScopeSet.is_subset s _) eqn:Hs.
    + rewrite ScopeSet.is_subset_sorted in Hs by (apply Hr || apply Ha). naive_solver.
    + cbn. split; [done|]. exists s.
      destruct (decide (Exists (fun t => t ∉ c_allowed_scopes client) s)) as [He|He].
      * apply Exists_exists in He as (t & ? & ?). eauto.
      * exfalso. assert (Hall : ScopeSet.is_subset s (c_allowed_scopes client) = true).
        { apply ScopeSet.is_subset_sorted; [apply Hr|apply Ha|]. intros x Hx.
          destruct (decide (x ∈ c_allowed_scopes client)); [done|]. exfalso. apply He, Exists_exists. eauto. }
        congruence.
  - destruct (granted_default_scope_ok client Hd Ha) as [Hwf Hm]. split_and!; [done| |done].
    intros t Ht. by apply Hm in Ht as [_ ?].
Qed.

Definition demo_client : Client := {|
  c_client_id := "app"; c_auth := ConfidentialSecret "s3cret";
  c_grant_types := [AuthorizationCode; RefreshToken; ClientCredentials; DeviceCode];
  c_redirect_uris := ["https://app/cb"]; c_allowed_scopes := ["read"; "write"];
  c_default_scopes := ["read"]; c_name := None; c_registration := None |}.

Lemma resolve_scope_within_registration_witness :
  ScopeSet.wf (granted_default_scope demo_client).
Proof.
  pose proof (resolve_scope_within_registration demo_client None) as Hr.
  apply Hr; [split; repeat constructor|split; repeat constructor|done].
Defined.

(** ** The two views of the verifiers *)
Lemma fill_slot_get `{Backends} vs alg a :
  (forall b v, builtin_verifier b = Some v -> jv_alg v = b) -> verifiers_wf vs ->
  verifiers_wf (fill_slot vs alg) /\
  verifier_get (fill_slot vs alg) a =
    if decide (a = alg) then option_or (verifier_get vs alg) (builtin_verifier alg) else verifier_get vs a.
Proof.
  intros Hb Hwf. unfold fill_slot. destruct (verifier_get vs alg) as [v|] eqn:Hv.
  - split; [done|]. destruct (decide (a = alg)) as [->|]; cbn; congruence.
  - destruct (builtin_verifier alg) as [v|] eqn:Hbv.
    + split; [by apply install_wf|]. rewrite install_get by done. apply Hb in Hbv as Ha. rewrite Ha.
      destruct (decide (alg = a)), (decide (a = alg)); cbn; congruence.
    + split; [done|]. destruct (decide (a = alg)) as [->|]; cbn; congruence.
Qed.

(** The two places that look a signature verifier up agree: for every algorithm,
    the verifier [jws_verifier] resolves for client assertions is the one in the
    table [resolved_jws_verifiers] builds for DPoP proofs, an installed verifier
    wins over a bundled one, and an algorithm outside the allow list has none. *)
Theorem verifier_views_agree `{Backends} self alg :
  (forall b v, builtin_verifier b = Some v -> jv_alg v = b) ->
  (forall vs, sv_jws_verifiers self = Some vs -> verifiers_wf vs) ->
  verifier_get (resolved_jws_verifiers self) alg = jws_verifier self alg.
Proof.
  intros Hb Hwf. unfold resolved_jws_verifiers, jws_verifier.
  set (vs := unwrap_or (sv_jws_verifiers self) no_verifiers).
  assert (Hvs : verifiers_wf vs).
  { unfold vs. destruct (sv_jws_verifiers self) as [v|] eqn:Hv; [by apply Hwf|apply no_verifiers_wf]. }
  assert (Hget : sv_jws_verifiers self ≫= (fun vs => verifier_get vs alg) = verifier_get vs alg).
  { unfold vs. destruct (sv_jws_verifiers self); [done|]. by destruct alg. }
  rewrite Hget. cbn [foldl].
  set (v1 := fill_slot vs Es256). set (v2 := fill_slot v1 Rs256). set (v3 := fill_slot v2 Ps256).
  destruct (fill_slot_get vs Es256 alg Hb Hvs) as [Hw1 G1]. fold v1 in Hw1, G1.
  destruct (fill_slot_get v1 Rs256 alg Hb Hw1) as [Hw2 G2]. fold v2 in Hw2, G2.
  destruct (fill_slot_get v2 Ps256 alg Hb Hw2) as [Hw3 G3]. fold v3 in Hw3, G3.
  destruct (fill_slot_get v3 EdDsa alg Hb Hw3) as [Hw4 G4].
  rewrite restrict_to_get by done. destruct (is_allowed _ alg); cbn [negb]; [|done].
  destruct alg; cbn in G1, G2, G3, G4; rewrite ?G4, ?G3, ?G2, ?G1; unfold option_or;
    by destruct (verifier_get vs _).
Qed.

Definition no_backends : Backends :=
  {| claims_to_vec := fun _ => None; builtin_verifier := fun _ => None |}.

Lemma verifier_views_agree_witness :
  verifier_get (@resolved_jws_verifiers no_backends
    {| sv_config := sv_config demo_server; sv_hooks := sv_hooks demo_server; sv_secret_verifier := None;
       sv_jws_verifiers := Some (install demo_verifier no_verifiers);
       sv_registration_policy := None; sv_request_object_keys := None |}) Rs256 = Some demo_verifier.
Proof.
  rewrite (@verifier_views_agree no_backends); [reflexivity|done|].
  intros vs [= <-]. apply install_wf, no_verifiers_wf.
Defined.
