(* ===== verification/ClientAuthn.v ===== *)
(** * Client authentication at the server (server.rs)

    [authenticate_client] and the functions it calls: the admission check, the
    classification of a presented credential, the assertion path with its replay
    claim, the DPoP check, and the equalising work done on a refusal. *)
From S2P Require Import Prelude Time Codec Scope Types Store StoreFacts Effects Trace Rar Jws Credentials.
From S2P Require Import Config.
Local Open Scope Z_scope.

(** [CredentialCost] and [ClientAuthVerdict] *)
Record CredentialCost : Type := { paid_secret : bool; paid_assertion : bool }.
Definition no_cost : CredentialCost := {| paid_secret := false; paid_assertion := false |}.
Inductive ClientAuthVerdict : Type :=
| Authenticated (client : Client)
| Refused (failure : ClientAuthFailure).

Section authn.
Context `{Crypto, Serde, Backends} (self : AuthorizationServer).
Let hooks := sv_hooks self.

Definition DUMMY_SECRET_INPUT : string :=
  "oauth-as dummy verification input; no registration is stored under this".

(** The work of [dummy_verify]: one verification against a hash nobody holds. *)
Definition dummy_verify (presented : option string) : prog unit :=
  match presented with
  | None => Ret tt
  | Some p =>
      let hash := match sv_secret_verifier self ≫= Secret.sv_dummy_hash with
                  | Some hash => hash
                  | None => Secret.secret_sha256 DUMMY_SECRET_INPUT
                  end in
      DoWork (WorkSecret hash p) (Ret tt)
  end.

Definition presented_assertion_alg (assertion : string) : option JwsAlg :=
  if Nat.ltb Assertion.MAX_ASSERTION_BYTES (str_len assertion) then None
  else match jws_parse assertion with
       | Ok j => header_str j "alg" ≫= classify_alg
       | Err _ => None
       end.

(** The work of [dummy_assertion_verify]. *)
Definition dummy_assertion_verify (presented_alg : option JwsAlg) : prog unit :=
  match presented_alg ≫= (fun alg => (fun v => (alg, v)) <$> jws_verifier self alg) with
  | Some (alg, _) => DoWork (WorkAssertion alg) (Ret tt)
  | None => DoWork WorkHmac (Ret tt)
  end.

Definition assertion_could_be_verified (cred : ClientCredential) : bool :=
  is_some (cred_client_assertion cred)
  && (cred_client_assertion_type cred == Some Assertion.CLIENT_ASSERTION_TYPE)
  && is_none (cred_client_secret cred).

Definition settle_credential_cost (cred : ClientCredential) (paid : CredentialCost) : prog unit :=
  let* _ := (if negb (paid_secret paid) then dummy_verify (cred_client_secret cred) else Ret tt) in
  if negb (paid_assertion paid) && assertion_could_be_verified cred
  then dummy_assertion_verify (cred_client_assertion cred ≫= presented_assertion_alg)
  else Ret tt.

Definition admit_client_authentication (attempt : Attempt) (client_id : ClientId)
  : prog (result unit ErrorResponse) :=
  let* decision := hook_check hooks attempt in
  if decision == Deny then
    let* _ := emit hooks (ClientAuthenticationFailed client_id RateLimited) in
    Ret (Err (error_new InvalidClient))
  else Ret (Ok tt).

(** The audience an assertion must name. *)
Definition assertion_audience_rule : Assertion.AudienceRule :=
  match cfg_assertion_audience (sv_config self) with
  | Rfc7523 => Assertion.AnyOf [token_endpoint self; issuer_identifier self]
  | IssuerOnly => Assertion.Exactly (issuer_identifier self)
  end.

(** The answer with the cost already paid: [paid.assertion] is set at the call of
    [verify_assertion], whatever it returns. *)
Definition authenticate_by_assertion (client : Client) (cred : ClientCredential) (paid : CredentialCost)
  : prog (result unit AssertionFailure * CredentialCost) :=
  if negb (assertion_could_be_verified cred) then Ret (Err AFMalformed, paid)
  else match cred_client_assertion cred with
  | None => Ret (Err AFMalformed, paid)
  | Some assertion =>
      match c_auth client with
      | ConfidentialAssertion keys =>
          let paid := {| paid_secret := paid_secret paid; paid_assertion := true |} in
          let verifier := Assertion.asymmetric_alg keys ≫= jws_verifier self in
          let* t := now in
          match Assertion.verify_assertion verifier keys assertion (c_client_id client)
                  assertion_audience_rule t with
          | Err e => Ret (Err e, paid)
          | Ok verified =>
              let* claimed := store (ClaimReplayId
                (Replay.replay_key "ca" (c_client_id client) (Assertion.vas_jti verified))
                (Assertion.vas_expires_at verified)) in
              Ret (match claimed with
                   | Err _ => Err AFReplayCheckUnavailable
                   | Ok false => Err AFReplayed
                   | Ok true => Ok tt
                   end, paid)
          end
      | _ => Ret (Err AFWrongPrincipal, paid)
      end
  end.

(** [expires_at != 0 && now >= expires_at], in seconds since the epoch. *)
Definition secret_expired (client : Client) : prog bool :=
  match c_registration client ≫= dr_client_secret_expires_at with
  | Some expires_at =>
      if expires_at =? 0 then Ret false
      else
        let* t := now in
        Ret (match duration_since t UNIX_EPOCH with
             | Some since => as_secs since >=? expires_at
             | None => false
             end)
  | None => Ret false
  end.

Definition classify_client_credential (client_id : ClientId) (cred : ClientCredential) (paid : CredentialCost)
  : prog (result (ClientAuthVerdict * CredentialCost) ErrorResponse) :=
  let?* found := store_or storage_error (GetClient client_id) in
  match found with
  | None => Ret (Ok (Refused UnknownClient, paid))
  | Some client =>
      let* expired := secret_expired client in
      if expired then Ret (Ok (Refused SecretExpired, paid))
      else if is_some (cred_client_assertion cred) then
        let* outcome := authenticate_by_assertion client cred paid in
        Ret (Ok (match fst outcome with
                 | Ok _ => Authenticated client
                 | Err reason => Refused (AssertionInvalid reason)
                 end, snd outcome))
      else match c_auth client with
      | Mtls _ =>
          Ret (Ok (match verify_certificate client cred with
                   | Ok _ => Authenticated client
                   | Err failure => Refused failure
                   end, paid))
      | auth =>
          let paid := {| paid_secret := match auth with
                                        | ConfidentialSecret _ | ConfidentialSecretHash _ => true
                                        | _ => false
                                        end;
                         paid_assertion := paid_assertion paid |} in
          if negb (Secret.verify_with auth (cred_client_secret cred) (sv_secret_verifier self))
          then Ret (Ok (Refused SecretMismatch, paid))
          else Ret (Ok (Authenticated client, paid))
      end
  end.

Definition authenticate_client (client_id : ClientId) (cred : ClientCredential)
  : prog (result Client ErrorResponse) :=
  let attempt := ClientAuthentication client_id in
  let?* _ := admit_client_authentication attempt client_id in
  let?* verdict := classify_client_credential client_id cred no_cost in
  match fst verdict with
  | Authenticated client =>
      let* _ := hook_record hooks attempt Succeeded in
      Ret (Ok client)
  | Refused failure =>
      let* _ := settle_credential_cost cred (snd verdict) in
      let* _ := hook_record hooks attempt Failed in
      let* _ := emit hooks (ClientAuthenticationFailed client_id failure) in
      Ret (Err (error_new InvalidClient))
  end.

(** ** DPoP at an endpoint *)
Definition verify_dpop_inner (proof : option string) (htm htu : string)
  : prog (result (option string) ErrorResponse) :=
  match proof with
  | None =>
      if cfg_require_dpop (sv_config self) then
        Ret (Err (with_description (error_new InvalidDpopProof)
          "this server requires a DPoP proof on every token request"))
      else Ret (Ok None)
  | Some proof =>
      let verifiers := resolved_jws_verifiers self in
      if list_is_empty (installed verifiers) then
        let* _ := emit hooks (DpopProofRefused DFUnsupportedAlgorithm) in
        Ret (Err (error_new InvalidDpopProof))
      else
        let* t := now in
        match DpopProof.verify_proof verifiers proof htm htu t with
        | Err failure =>
            let* _ := emit hooks (DpopProofRefused failure) in
            Ret (Err (error_new InvalidDpopProof))
        | Ok verified =>
            let?* claimed := store_or storage_error (ClaimReplayId
              (Replay.replay_key "dpop" (DpopProof.vp_jkt verified) (DpopProof.vp_jti verified))
              (DpopProof.vp_replay_until verified)) in
            if negb claimed then
              let* _ := emit hooks (DpopProofRefused DFReplayed) in
              Ret (Err (error_new InvalidDpopProof))
            else Ret (Ok (Some (DpopProof.vp_jkt verified)))
        end
  end.

Definition verify_dpop (proof : option string) : prog (result (option string) ErrorResponse) :=
  verify_dpop_inner proof "POST" (token_endpoint self).

(** ** What an authenticated client has proved *)
Inductive credential_proven (client : Client) (cred : ClientCredential) (tr : list Act) : Prop :=
| by_assertion assertion keys t v :
    cred_client_assertion cred = Some assertion -> c_auth client = ConfidentialAssertion keys ->
    cred_client_secret cred = None -> ANow t ∈ tr ->
    Assertion.verify_assertion (Assertion.asymmetric_alg keys ≫= jws_verifier self) keys assertion
      (c_client_id client) assertion_audience_rule t = Ok v ->
    AStore (ClaimReplayId (Replay.replay_key "ca" (c_client_id client) (Assertion.vas_jti v))
              (Assertion.vas_expires_at v)) (Ok true) ∈ tr ->
    credential_proven client cred tr
| by_certificate registration :
    cred_client_assertion cred = None -> c_auth client = Mtls registration ->
    verify_certificate client cred = Ok tt -> credential_proven client cred tr
| by_secret :
    cred_client_assertion cred = None -> (forall registration, c_auth client <> Mtls registration) ->
    Secret.verify_with (c_auth client) (cred_client_secret cred) (sv_secret_verifier self) = true ->
    credential_proven client cred tr.

Definition secret_unexpired (client : Client) (tr : list Act) : Prop :=
  forall e, c_registration client ≫= dr_client_secret_expires_at = Some e -> e <> 0 ->
  exists t, ANow t ∈ tr /\ forall since, duration_since t UNIX_EPOCH = Some since -> as_secs since < e.

Lemma credential_proven_mono client cred tr tr' :
  tr ⊆ tr' -> credential_proven client cred tr -> credential_proven client cred tr'.
Proof. intros Hsub []; [eapply by_assertion|eapply by_certificate|eapply by_secret]; eauto. Qed.

Lemma secret_expired_exec client tr : exec (secret_expired client) tr false -> secret_unexpired client tr.
Proof.
  unfold secret_expired, secret_unexpired. intros Hex e He Hne. rewrite He in Hex.
  destruct (Z.eqb_spec e 0); [done|]. exec_inv.
  eexists; split; [in_trace|]. intros since Hs. rewrite Hs in Hex. symmetry in Hex. by bools.
Qed.

Lemma authenticate_by_assertion_exec client cred paid tr o : is_some (cred_client_assertion cred) = true ->
  exec (authenticate_by_assertion client cred paid) tr o ->
  paid_secret (snd o) = paid_secret paid /\ (fst o = Ok tt -> credential_proven client cred tr).
Proof.
  unfold authenticate_by_assertion. intros Hsome Hex. exec_step; [by exec_inv|]. bools.
  destruct (cred_client_assertion cred) as [assertion|] eqn:Ha; [|by exec_inv].
  destruct (c_auth client) as [| | |keys|] eqn:Hauth; try by exec_inv.
  exec_step. exec_step. destruct (Assertion.verify_assertion _ _ _ _ _ _) as [v|] eqn:Hv; [|by exec_inv].
  exec_inv. cbn. split; [done|]. intros Hok.
  match goal with H : result bool _ |- _ => destruct H as [[]|]; try done end.
  unfold assertion_could_be_verified in *. bools.
  eapply by_assertion; [done..| | |exact Hv|].
  - by destruct (cred_client_secret cred).
  - in_trace.
  - in_trace.
Qed.

Definition classified (client_id : ClientId) (cred : ClientCredential) (tr : list Act)
    (verdict : ClientAuthVerdict * CredentialCost) : Prop :=
  match fst verdict with
  | Authenticated client =>
      AStore (GetClient client_id) (Ok (Some client)) ∈ tr /\ credential_proven client cred tr /\
      secret_unexpired client tr
  | Refused _ =>
      paid_secret (snd verdict) = true ->
      exists client, AStore (GetClient client_id) (Ok (Some client)) ∈ tr /\
        Secret.verify_with (c_auth client) (cred_client_secret cred) (sv_secret_verifier self) = false
  end.

Lemma classify_exec client_id cred tr verdict :
  exec (classify_client_credential client_id cred no_cost) tr (Ok verdict) ->
  classified client_id cred tr verdict.
Proof.
  unfold classify_client_credential. intros Hex. do 2 exec_step.
  match goal with H : option Client |- _ => destruct H as [client|] end; [|by exec_inv].
  exec_step. match goal with H : bool |- _ => destruct H end; [by exec_inv|].
  match goal with H : exec (secret_expired _) _ _ |- _ =>
    rename H into Hexp; apply secret_expired_exec in Hexp end.
  assert (Hun : forall tr1 tr2, secret_unexpired client tr -> secret_unexpired client (tr1 ++ tr ++ tr2)).
  { intros tr1 tr2 Hu e He Hne. destruct (Hu e He Hne) as (t & Ht & ?). exists t. split; [in_trace|done]. }
  destruct (is_some (cred_client_assertion cred)) eqn:Ha.
  - exec_step. match goal with H : exec (authenticate_by_assertion _ _ _) _ _ |- _ =>
      apply authenticate_by_assertion_exec in H as [Hpaid Hproven]; [|done] end.
    exec_inv. unfold classified. cbn. destruct (fst _) as [[]|] eqn:Hf; cbn.
    + split_and!; [in_trace| |].
      * eapply credential_proven_mono; [|by apply Hproven]. intros x Hx. in_trace.
      * by apply (Hun [_]).
    + rewrite Hpaid. done.
  - assert (Hnone : cred_client_assertion cred = None) by (by destruct (cred_client_assertion cred)).
    destruct (c_auth client) eqn:Hauth; exec_inv; unfold classified; cbn; bools.
    all: try (intros _; exists client; split; [in_trace|by rewrite Hauth]).
    all: try done.
    1-3: split_and!; [in_trace| |by apply (Hun [_])].
    1-3: apply by_secret; [done|by rewrite Hauth|by rewrite Hauth].
    destruct (verify_certificate client cred) as [[]|] eqn:Hc; [|done].
    split_and!; [in_trace| |by apply (Hun [_])]. by eapply by_certificate.
Qed.

Lemma admit_exec client_id tr r :
  exec (admit_client_authentication (ClientAuthentication client_id) client_id) tr r ->
  (r = Ok tt /\ (h_rate_limiter hooks = true -> ACheck (ClientAuthentication client_id) Allow ∈ tr)) \/
  (r = Err (error_new InvalidClient) /\ ACheck (ClientAuthentication client_id) Deny ∈ tr).
Proof.
  unfold admit_client_authentication. intros Hex. exec_step.
  match goal with H : exec (hook_check _ _) _ _ |- _ => apply exec_hook_check in H; rename H into Hc end.
  exec_step; bools; subst.
  - exec_inv. destruct Hc as [[_ ->]|(_ & _ & [=])]. right. split; [done|]. in_trace.
  - exec_inv. left. split; [done|]. intros Hh.
    destruct Hc as [[_ ->]|(Hh' & _)]; [|unfold hooks in *; congruence]. destruct a; [in_trace|done].
Qed.

Lemma authenticate_client_exec client_id cred tr client :
  exec (authenticate_client client_id cred) tr (Ok client) ->
  AStore (GetClient client_id) (Ok (Some client)) ∈ tr /\
  credential_proven client cred tr /\ secret_unexpired client tr /\
  (h_rate_limiter hooks = true -> ACheck (ClientAuthentication client_id) Allow ∈ tr /\
                                  ARecord (ClientAuthentication client_id) Succeeded ∈ tr).
Proof.
  unfold authenticate_client. intros Hex. exec_step.
  match goal with H : exec (admit_client_authentication _ _) _ _ |- _ =>
    apply admit_exec in H as [(_ & Hchk)|([=] & _)] end.
  exec_step. match goal with H : exec (classify_client_credential _ _ _) _ _ |- _ =>
    apply classify_exec in H; unfold classified in H; rename H into Hcl end.
  destruct (fst _) as [c|f]; exec_inv. destruct Hcl as (Hget & Hproven & Hun).
  match goal with H : exec (hook_record _ _ _) _ _ |- _ => apply exec_hook_record in H; rename H into Hrec end.
  split_and!; [in_trace| | |].
  - eapply credential_proven_mono; [|done]. intros x Hx. in_trace.
  - intros e He Hne. destruct (Hun e He Hne) as (t & ? & ?). exists t. split; [in_trace|done].
  - intros Hh. rewrite Hh in Hrec. subst. split; [|in_trace]. specialize (Hchk Hh). in_trace.
Qed.

(** C10. Whoever the server takes for a client has proved to be that client: in every
    execution of [authenticate_client] that returns a client, the store answered the
    lookup of the presented identifier with that registration; its secret had not
    expired; and the credential was proved by the method the registration prescribes,
    a verified assertion whose [jti] was claimed for the first time, an accepted
    certificate, or the secret. *)
Theorem authenticate_client_sound client_id cred tr client :
  exec (authenticate_client client_id cred) tr (Ok client) ->
  AStore (GetClient client_id) (Ok (Some client)) ∈ tr /\
  credential_proven client cred tr /\ secret_unexpired client tr /\
  (h_rate_limiter hooks = true -> ACheck (ClientAuthentication client_id) Allow ∈ tr /\
                                  ARecord (ClientAuthentication client_id) Succeeded ∈ tr).
Proof. apply authenticate_client_exec. Qed.

Lemma classify_err client_id cred tr e :
  exec (classify_client_credential client_id cred no_cost) tr (Err e) ->
  e = error_new ServerError /\ exists x, AStore (GetClient client_id) (Err x) ∈ tr.
Proof.
  unfold classify_client_credential. intros Hex. exec_step.
  - exec_step. match goal with H : option Client |- _ => destruct H as [client|] end; [|by exec_inv].
    exec_step. exec_step; [by exec_inv|]. exec_step; [by exec_inv|].
    by destruct (c_auth client); exec_inv.
  - exec_inv. split; [done|]. eexists. in_trace.
Qed.

Lemma settle_pays cred paid tr u presented :
  exec (settle_credential_cost cred paid) tr u -> paid_secret paid = false ->
  cred_client_secret cred = Some presented -> exists hash, AWork (WorkSecret hash presented) ∈ tr.
Proof.
  unfold settle_credential_cost, dummy_verify. intros Hex Hpaid Hp. rewrite Hpaid, Hp in Hex.
  cbn [negb] in Hex. exec_step.
  match goal with H : exec (DoWork _ _) _ _ |- _ => destruct H as (tr' & -> & _) end.
  eexists. in_trace.
Qed.

(** A refused client learns nothing from the refusal: every execution of
    [authenticate_client] that fails answers the same bare [invalid_client], unless
    the store itself failed (then [server_error]).  Unless the limiter denied the
    attempt, a presented secret has been verified once before the refusal, against
    the registration or against a hash nobody holds, and the attempt is recorded as
    failed. *)
Theorem authenticate_client_refusal_uniform client_id cred tr e :
  exec (authenticate_client client_id cred) tr (Err e) ->
  (e = error_new ServerError /\ exists x, AStore (GetClient client_id) (Err x) ∈ tr) \/
  (e = error_new InvalidClient /\
   (ACheck (ClientAuthentication client_id) Deny ∈ tr \/
    (h_rate_limiter hooks = true -> ARecord (ClientAuthentication client_id) Failed ∈ tr) /\
    forall presented, cred_client_secret cred = Some presented ->
      (exists hash, AWork (WorkSecret hash presented) ∈ tr) \/
      (exists client, AStore (GetClient client_id) (Ok (Some client)) ∈ tr /\
         Secret.verify_with (c_auth client) (Some presented) (sv_secret_verifier self) = false))).
Proof.
  unfold authenticate_client. intros Hex. exec_step.
  2:{ match goal with H : exec (admit_client_authentication _ _) _ _ |- _ =>
        apply admit_exec in H as [([=] & _)|(? & Hdeny)] end. simplify_eq. auto. }
  exec_step.
  2:{ match goal with H : exec (classify_client_credential _ _ _) _ _ |- _ =>
        apply classify_err in H as (-> & x & Hx) end. left. simplify_eq. split; [done|]. exists x. in_trace. }
  match goal with H : exec (classify_client_credential _ _ _) _ _ |- _ =>
    apply classify_exec in H; unfold classified in H; rename H into Hcl end.
  destruct (fst _) as [c|f]; [by exec_inv|]. do 3 exec_step. exec_inv. right. split; [done|]. right.
  repeat match goal with
  | H : exec (hook_record _ _ _) _ _ |- _ => apply exec_hook_record in H; rename H into Hrec
  | H : exec (settle_credential_cost _ _) _ _ |- _ => rename H into Hset
  end.
  split.
  - intros Hh. rewrite Hh in Hrec. subst. in_trace.
  - intros presented Hp. destruct (paid_secret _) eqn:Hpaid.
    + right. destruct (Hcl eq_refl) as (client & Hget & Hv). exists client. rewrite <- Hp. split; [in_trace|done].
    + left. destruct (settle_pays _ _ _ _ _ Hset Hpaid Hp) as [hash Hw]. exists hash. in_trace.
Qed.

(** An accepted proof of possession: valid for this endpoint, fresh, and its [jti]
    claimed for the first time. *)
Definition dpop_accepted (tr : list Act) (proof htu jkt : string) : Prop :=
  exists t v, ANow t ∈ tr /\ jkt = DpopProof.vp_jkt v /\
    DpopProof.proof_ok (resolved_jws_verifiers self) proof "POST" htu t v /\
    AStore (ClaimReplayId (Replay.replay_key "dpop" (DpopProof.vp_jkt v) (DpopProof.vp_jti v))
              (DpopProof.vp_replay_until v)) (Ok true) ∈ tr.

Lemma verify_dpop_exec proof tr jkt : exec (verify_dpop proof) tr (Ok jkt) ->
  match proof with
  | None => jkt = None /\ cfg_require_dpop (sv_config self) = false
  | Some p => exists k, jkt = Some k /\ dpop_accepted tr p (token_endpoint self) k
  end.
Proof.
  unfold verify_dpop, verify_dpop_inner. intros Hex. destruct proof as [p|]; [|by exec_inv].
  exec_step; [by exec_inv|]. exec_step. exec_step.
  destruct (DpopProof.verify_proof _ _ _ _ _) as [v|] eqn:Hv; [|by exec_inv]. exec_inv. bools. subst.
  eexists; split; [done|]. apply DpopProof.verify_proof_ok in Hv. unfold dpop_accepted.
  do 2 eexists. split_and!; [|done|exact Hv|]; in_trace.
Qed.
End authn.

(** The credential of a request with the DPoP key it proved, if any. *)
Record Bound : Type := { b_cred : ClientCredential; b_jkt : option string }.

(** ** Evaluation *)
Definition demo_cred (secret : option string) : ClientCredential := credential_secret secret.
Definition demo_client_store : MemoryInner := run_op (any (PutClient demo_client)) mi_empty.

Lemma authenticate_client_sound_witness : exists tr,
  AStore (GetClient "app") (Ok (Some demo_client)) ∈ tr /\
  @credential_proven plain_crypto assertion_serde no_backends demo_server demo_client
    (demo_cred (Some "s3cret")) tr.
Proof.
  destruct (run_exec demo_env (@authenticate_client plain_crypto assertion_serde no_backends demo_server
    "app" (demo_cred (Some "s3cret"))) (world_of demo_client_store)) as [tr Htr].
  exists tr. apply (@authenticate_client_sound plain_crypto assertion_serde no_backends demo_server "app"
    (demo_cred (Some "s3cret")) tr demo_client) in Htr as (Hget & Hp & _). split; [exact Hget|exact Hp].
Defined.

Lemma authenticate_client_refusal_uniform_witness : exists (tr : list Act) (e : ErrorResponse),
  (e = error_new ServerError \/ e = error_new InvalidClient).
Proof.
  destruct (run_exec demo_env (@authenticate_client plain_crypto assertion_serde no_backends demo_server
    "nobody" (demo_cred (Some "guess"))) (world_of demo_client_store)) as [tr Htr].
  exists tr, (error_new InvalidClient).
  destruct (@authenticate_client_refusal_uniform plain_crypto assertion_serde no_backends demo_server
    "nobody" (demo_cred (Some "guess")) tr (error_new InvalidClient) Htr) as [[He _]|[He _]];
    [left|right]; exact He.
Defined.
