(* ===== verification/Registration.v ===== *)
(** * Dynamic client registration (registration.rs, RFC 7591 and RFC 7592)

    Validation of the metadata a client asks to be registered with, the registration
    itself, and the reading, updating and deleting of a registration by whoever holds its
    access token. *)
From S2P Require Import Prelude Time Codec Scope Types Store StoreFacts Effects Trace Ops Rar Jws.
From S2P Require Import Credentials Config ClientAuthn.
Local Open Scope Z_scope.

Record ClientInformation : Type := {
  ci_client_id : string;
  ci_client_secret : option string;
  ci_client_id_issued_at : option Z;
  ci_client_secret_expires_at : option Z;
  ci_registration_access_token : option string;
  ci_registration_client_uri : option string;
  ci_metadata : ClientMetadata;
}.

Inductive RegistrationErrorCode : Type := InvalidRedirectUri | InvalidClientMetadata | InvalidSoftwareStatement.
#[global] Instance RegistrationErrorCode_eq_dec : EqDecision RegistrationErrorCode. Proof. solve_decision. Defined.
Definition registration_error_as_str (c : RegistrationErrorCode) : string :=
  match c with
  | InvalidRedirectUri => "invalid_redirect_uri"
  | InvalidClientMetadata => "invalid_client_metadata"
  | InvalidSoftwareStatement => "invalid_software_statement"
  end.

Record RegistrationErrorResponse : Type := {
  re_error : RegistrationErrorCode; re_error_description : option string;
}.
Definition registration_error_new (c : RegistrationErrorCode) (description : string) : RegistrationErrorResponse :=
  {| re_error := c; re_error_description := Some description |}.

Inductive RegistrationFailure : Type :=
| RFDisabled
| RFUnauthorized
| RFInvalid (e : RegistrationErrorResponse)
| RFStorage (e : StorageError).
Definition registration_http_status (f : RegistrationFailure) : Z :=
  match f with
  | RFDisabled => 404
  | RFUnauthorized => 401
  | RFInvalid _ => 400
  | RFStorage _ => 500
  end.

Definition invalid_metadata (c : RegistrationErrorCode) (why : string) : RegistrationFailure :=
  RFInvalid (registration_error_new c why).
Definition randomness_failure : RegistrationFailure :=
  RFStorage {| se_message := "the OS would not provide randomness for a registration artifact" |}.

(** ** Configuration *)
Definition registration_config_new : RegistrationConfig := {|
  rc_registration_endpoint := None; rc_allowed_grant_types := [AuthorizationCode; RefreshToken];
  rc_allowed_scopes := ScopeSet.empty; rc_client_secret_ttl := None; rc_management_enabled := true |}.
Definition registration_endpoint (self : RegistrationConfig) (issuer : string) : string :=
  match rc_registration_endpoint self with
  | Some url => url
  | None => trim_end_matches "/" issuer +:+ "/register"
  end.

(** [registration_client_uri]: the identifier percent-encoded as one path segment. *)
Definition registration_client_uri (config : RegistrationConfig) (server : ServerConfig) (client_id : string) : string :=
  registration_endpoint config (cfg_issuer server) +:+ "/" +:+ Uri.percent_encode client_id.

(** ** Validation *)
Definition MAX_REGISTERED_REDIRECT_URIS : nat := 16.
Definition AUTH_METHOD_NONE : string := "none".
Definition AUTH_METHOD_BASIC : string := "client_secret_basic".
Definition AUTH_METHOD_POST : string := "client_secret_post".
Definition RESPONSE_TYPE_CODE : string := "code".

Definition redirect_uri_is_registerable (value : string) : bool := Uri.is_valid_resource_indicator value.

Record Registered : Type := {
  rg_redirect_uris : list string;
  rg_grant_types : list GrantType;
  rg_response_types : list string;
  rg_token_endpoint_auth_method : string;
  rg_scope : ScopeSet;
  rg_client_name : option string;
}.

Definition grants_contain (l : list GrantType) (g : GrantType) : bool := existsb (fun x => x == g) l.

(** The loop over the requested grant types. *)
Fixpoint parse_grants (config : RegistrationConfig) (out : list GrantType) (values : list string)
  : result (list GrantType) RegistrationFailure :=
  match values with
  | [] => Ok out
  | value :: rest =>
      let? grant := ok_or (grant_parse value) (invalid_metadata InvalidClientMetadata
                      "grant_types names a grant this server does not implement") in
      if negb (grants_contain (rc_allowed_grant_types config) grant) then
        Err (invalid_metadata InvalidClientMetadata
          "grant_types names a grant this deployment does not offer registrants")
      else parse_grants config (if grants_contain out grant then out else out ++ [grant]) rest
  end.

Definition validate_grants (metadata : ClientMetadata) (config : RegistrationConfig)
  : result (list GrantType) RegistrationFailure :=
  match cm_grant_types metadata with
  | None => Ok [AuthorizationCode]
  | Some values => parse_grants config [] values
  end.

Definition code_response_types (uses_code : bool) : list string :=
  if uses_code then [RESPONSE_TYPE_CODE] else [].

Definition validate_response_types (metadata : ClientMetadata) (uses_code : bool)
  : result (list string) RegistrationFailure :=
  match cm_response_types metadata with
  | None => Ok (code_response_types uses_code)
  | Some values =>
      if existsb (fun value => value != RESPONSE_TYPE_CODE) values then
        Err (invalid_metadata InvalidClientMetadata
          "this server issues authorization codes only; OAuth 2.1 removes the implicit grant")
      else
        let asks_for_code := negb (list_is_empty values) in
        if negb (Bool.eqb asks_for_code uses_code) then
          Err (invalid_metadata InvalidClientMetadata
            "grant_types and response_types must correspond: authorization_code with code (RFC 7591 s2)")
        else Ok (code_response_types asks_for_code)
  end.

Definition validate_redirect_uris (metadata : ClientMetadata) (uses_code : bool) : result unit RegistrationFailure :=
  if uses_code && list_is_empty (cm_redirect_uris metadata) then
    Err (invalid_metadata InvalidRedirectUri "the authorization_code grant requires at least one redirect_uri")
  else if Nat.ltb MAX_REGISTERED_REDIRECT_URIS (List.length (cm_redirect_uris metadata)) then
    Err (invalid_metadata InvalidRedirectUri "too many redirect_uris")
  else if negb (forallb redirect_uri_is_registerable (cm_redirect_uris metadata)) then
    Err (invalid_metadata InvalidRedirectUri
      "each redirect_uri must be an absolute URI with no fragment (RFC 6749 s3.1.2)")
  else Ok tt.

Definition validate_auth_method (metadata : ClientMetadata) (grant_types : list GrantType)
  : result string RegistrationFailure :=
  let method := unwrap_or (cm_token_endpoint_auth_method metadata) AUTH_METHOD_BASIC in
  if negb ((method == AUTH_METHOD_NONE) || (method == AUTH_METHOD_BASIC) || (method == AUTH_METHOD_POST)) then
    Err (invalid_metadata InvalidClientMetadata
      "token_endpoint_auth_method is not one this server can REGISTER; RFC 8414 token_endpoint_auth_methods_supported describes the token endpoint, which accepts more")
  else if (method == AUTH_METHOD_NONE) && grants_contain grant_types ClientCredentials then
    Err (invalid_metadata InvalidClientMetadata
      "client_credentials requires a confidential client (RFC 6749 s4.4)")
  else Ok method.

Definition validate_scope (metadata : ClientMetadata) (config : RegistrationConfig)
  : result ScopeSet RegistrationFailure :=
  match cm_scope metadata with
  | None => Ok ScopeSet.empty
  | Some s =>
      let? requested := map_err (fun _ => invalid_metadata InvalidClientMetadata
                          "scope is not a space-delimited RFC 6749 s3.3 token list") (ScopeSet.parse s) in
      if negb (ScopeSet.is_subset requested (rc_allowed_scopes config)) then
        Err (invalid_metadata InvalidClientMetadata
          "scope exceeds what this deployment offers dynamically registered clients")
      else Ok requested
  end.

Definition validate (metadata : ClientMetadata) (config : RegistrationConfig)
  : result Registered RegistrationFailure :=
  if is_some (cm_software_statement metadata) then
    Err (invalid_metadata InvalidSoftwareStatement
      "this server does not evaluate software statements (RFC 7591 s2.3)")
  else
    let? grant_types := validate_grants metadata config in
    let uses_code := grants_contain grant_types AuthorizationCode in
    let? response_types := validate_response_types metadata uses_code in
    let? _ := validate_redirect_uris metadata uses_code in
    let? method := validate_auth_method metadata grant_types in
    let? scope := validate_scope metadata config in
    Ok {| rg_redirect_uris := cm_redirect_uris metadata; rg_grant_types := grant_types;
          rg_response_types := response_types; rg_token_endpoint_auth_method := method;
          rg_scope := scope; rg_client_name := cm_client_name metadata |}.

(** [registered_metadata] *)
Definition registered_metadata (client : Client) (registration : DynamicRegistration) : ClientMetadata := {|
  cm_redirect_uris := c_redirect_uris client;
  cm_token_endpoint_auth_method := Some (dr_token_endpoint_auth_method registration);
  cm_grant_types := Some (map grant_as_str (c_grant_types client));
  cm_response_types := Some (code_response_types (allows_grant client AuthorizationCode));
  cm_client_name := c_name client;
  cm_scope := then_some (negb (ScopeSet.is_empty (c_allowed_scopes client))) (ScopeSet.display (c_allowed_scopes client));
  cm_software_statement := None |}.

Section registration.
Context `{Crypto} (self : AuthorizationServer).
Let cfg := sv_config self.
Let hooks := sv_hooks self.

Definition registration_config : result RegistrationConfig RegistrationFailure :=
  ok_or (cfg_registration cfg) RFDisabled.

Definition policy_allows (attempt : RegistrationAttempt) : bool :=
  match sv_registration_policy self with
  | Some policy => match policy attempt with RegistrationAllow => true | RegistrationDeny => false end
  | None => false
  end.

(** A secret or an identifier drawn as hexadecimal. *)
Definition draw_hex (n : nat) : prog (result string RegistrationFailure) :=
  let* drawn := try_random_hex n in Ret (ok_or drawn randomness_failure).

Definition admit_registration : prog (result unit RegistrationFailure) :=
  let?! _ := registration_config in
  let* decision := hook_check hooks ClientRegistration in
  Ret (if decision == Deny then Err RFUnauthorized else Ok tt).

(** The expiry of a secret minted at [t]: zero stands for never. *)
Definition secret_expiry (config : RegistrationConfig) (t : option Z) : Z :=
  match rc_client_secret_ttl config with
  | None => 0
  | Some ttl => u64_saturating_add (unwrap_or t 0) (as_secs ttl)
  end.

(** The client record of a new registration. *)
Definition new_client (config : RegistrationConfig) (registered : Registered) (t : option Z) (client_id : string)
    (secret : option string) (token : string) : Client := {|
  c_client_id := client_id;
  c_auth := match secret with
            | None => Public
            | Some s => ConfidentialSecretHash (Secret.secret_sha256 s)
            end;
  c_grant_types := rg_grant_types registered; c_redirect_uris := rg_redirect_uris registered;
  c_allowed_scopes := rg_scope registered; c_default_scopes := rg_scope registered;
  c_name := rg_client_name registered;
  c_registration := Some {|
    dr_registration_access_token_hash := Secret.secret_sha256 token;
    dr_client_id_issued_at := t;
    dr_client_secret_expires_at := (fun _ => secret_expiry config t) <$> secret;
    dr_token_endpoint_auth_method := rg_token_endpoint_auth_method registered |} |}.

(** The answer to a new registration. *)
Definition new_information (config : RegistrationConfig) (registered : Registered) (t : option Z)
    (client_id : string) (secret : option string) (token : string) : ClientInformation := {|
  ci_client_id := client_id; ci_client_secret := secret; ci_client_id_issued_at := t;
  ci_client_secret_expires_at := (fun _ => secret_expiry config t) <$> secret;
  ci_registration_access_token := then_some (rc_management_enabled config) token;
  ci_registration_client_uri :=
    then_some (rc_management_enabled config) (registration_client_uri config cfg client_id);
  ci_metadata := {|
    cm_redirect_uris := rg_redirect_uris registered;
    cm_token_endpoint_auth_method := Some (rg_token_endpoint_auth_method registered);
    cm_grant_types := Some (map grant_as_str (rg_grant_types registered));
    cm_response_types := Some (rg_response_types registered);
    cm_client_name := rg_client_name registered;
    cm_scope := then_some (negb (ScopeSet.is_empty (rg_scope registered))) (ScopeSet.display (rg_scope registered));
    cm_software_statement := None |} |}.

Definition register_admitted_client (metadata : ClientMetadata) (initial_access_token : option string)
  : prog (result ClientInformation RegistrationFailure) :=
  let?! config := registration_config in
  if negb (policy_allows {| ra_initial_access_token := initial_access_token; ra_metadata := metadata |}) then
    let* _ := emit hooks (ClientRegistrationRefusedByPolicy None) in
    let* _ := hook_record hooks ClientRegistration Failed in
    Ret (Err RFUnauthorized)
  else
    match validate metadata config with
    | Err refusal =>
        let* _ := hook_record hooks ClientRegistration Failed in
        Ret (Err refusal)
    | Ok registered =>
        let* instant := now in
        let t := unix_seconds instant in
        let?* client_id := draw_hex 16 in
        let?* secret :=
          (if rg_token_endpoint_auth_method registered != AUTH_METHOD_NONE then
             let?* s := draw_hex 32 in Ret (Ok (Some s))
           else Ret (Ok None)) in
        let?* token := draw_hex 32 in
        let?* _ := store_or RFStorage (PutClient (new_client config registered t client_id secret token)) in
        let* _ := emit hooks (ClientRegistered client_id) in
        let* _ := hook_record hooks ClientRegistration Succeeded in
        Ret (Ok (new_information config registered t client_id secret token))
    end.

Definition register_dynamic_client (metadata : ClientMetadata) (initial_access_token : option string)
  : prog (result ClientInformation RegistrationFailure) :=
  let?* _ := admit_registration in
  register_admitted_client metadata initial_access_token.

(** ** Management *)
Definition registration_auth_failed (client_id : ClientId) (failure : ClientAuthFailure) (attempted : bool)
  : prog RegistrationFailure :=
  let* _ := emit hooks (ClientRegistrationAuthenticationFailed client_id failure) in
  let* _ := (if attempted then hook_record hooks (ClientAuthentication client_id) Failed else Ret tt) in
  Ret RFUnauthorized.

Definition authenticate_registration (client_id : ClientId) (registration_access_token : string)
  : prog (result (Client * DynamicRegistration) RegistrationFailure) :=
  let?! config := registration_config in
  if negb (rc_management_enabled config) then Ret (Err RFDisabled)
  else
    let attempt := ClientAuthentication client_id in
    let* decision := hook_check hooks attempt in
    if decision == Deny then
      let* e := registration_auth_failed client_id RateLimited false in Ret (Err e)
    else
      let?* found := store_or RFStorage (GetClient client_id) in
      match found with
      | None => let* e := registration_auth_failed client_id UnknownClient true in Ret (Err e)
      | Some client =>
          match c_registration client with
          | None => let* e := registration_auth_failed client_id NoDynamicRegistration true in Ret (Err e)
          | Some registration =>
              if negb (Secret.hash_verify (dr_registration_access_token_hash registration)
                         registration_access_token (sv_secret_verifier self)) then
                let* e := registration_auth_failed client_id SecretMismatch true in Ret (Err e)
              else
                let* _ := hook_record hooks attempt Succeeded in
                Ret (Ok (client, registration))
          end
      end.

Definition read_registration (client_id : ClientId) (registration_access_token : string)
  : prog (result ClientInformation RegistrationFailure) :=
  let?* found := authenticate_registration client_id registration_access_token in
  let?! config := registration_config in
  Ret (Ok {| ci_client_id := c_client_id (fst found); ci_client_secret := None;
             ci_client_id_issued_at := dr_client_id_issued_at (snd found);
             ci_client_secret_expires_at := dr_client_secret_expires_at (snd found);
             ci_registration_access_token := None;
             ci_registration_client_uri := Some (registration_client_uri config cfg (c_client_id (fst found)));
             ci_metadata := registered_metadata (fst found) (snd found) |}).

(** The record an update writes; [expires_at] is the expiry of its secret. *)
Definition updated_client (client : Client) (registration : DynamicRegistration) (registered : Registered)
    (auth : ClientAuth) (expires_at : option Z) : Client := {|
  c_client_id := c_client_id client; c_auth := auth; c_grant_types := rg_grant_types registered;
  c_redirect_uris := rg_redirect_uris registered; c_allowed_scopes := rg_scope registered;
  c_default_scopes := rg_scope registered; c_name := rg_client_name registered;
  c_registration := Some {|
    dr_registration_access_token_hash := dr_registration_access_token_hash registration;
    dr_client_id_issued_at := dr_client_id_issued_at registration;
    dr_client_secret_expires_at := expires_at;
    dr_token_endpoint_auth_method := rg_token_endpoint_auth_method registered |} |}.

(** The credential of an updated client and its expiry: a secret is minted for a client
    that had none and now wants one, and is dropped with the method [none]. *)
Definition updated_secret (config : RegistrationConfig) (client : Client) (registration : DynamicRegistration)
    (wants_secret : bool) : prog (result (option string * ClientAuth * option Z) RegistrationFailure) :=
  if wants_secret && negb (is_confidential (c_auth client)) then
    let?* s := draw_hex 32 in
    let* expires_at :=
      (match rc_client_secret_ttl config with
       | None => Ret 0
       | Some _ => let* instant := now in Ret (secret_expiry config (unix_seconds instant))
       end) in
    Ret (Ok (Some s, ConfidentialSecretHash (Secret.secret_sha256 s), Some expires_at))
  else if wants_secret then Ret (Ok (None, c_auth client, dr_client_secret_expires_at registration))
  else Ret (Ok (None, Public, None)).

Definition update_registration (client_id : ClientId) (registration_access_token : string)
    (metadata : ClientMetadata) : prog (result ClientInformation RegistrationFailure) :=
  let?* found := authenticate_registration client_id registration_access_token in
  let '(client, registration) := found in
  let?! config := registration_config in
  if negb (policy_allows {| ra_initial_access_token := None; ra_metadata := metadata |}) then
    let* _ := emit hooks (ClientRegistrationRefusedByPolicy (Some client_id)) in
    Ret (Err RFUnauthorized)
  else
    let?! registered := validate metadata config in
    let?* minted := updated_secret config client registration
                      (rg_token_endpoint_auth_method registered != AUTH_METHOD_NONE) in
    let '(new_secret, auth, expires_at) := minted in
    let updated := updated_client client registration registered auth expires_at in
    let?* applied := store_or RFStorage (CompareAndSwapClient client updated) in
    if negb applied then Ret (Err RFUnauthorized)
    else
      let* _ := emit hooks (ClientRegistrationUpdated client_id) in
      Ret (Ok {| ci_client_id := client_id; ci_client_secret := new_secret;
                 ci_client_id_issued_at := dr_client_id_issued_at registration;
                 ci_client_secret_expires_at := expires_at; ci_registration_access_token := None;
                 ci_registration_client_uri := Some (registration_client_uri config cfg client_id);
                 ci_metadata := registered_metadata updated
                   (unwrap_or (c_registration updated) registration) |}).

Definition delete_registration (client_id : ClientId) (registration_access_token : string)
  : prog (result unit RegistrationFailure) :=
  let?* _ := authenticate_registration client_id registration_access_token in
  let* window := revocation_window self in
  let?* _ := store_or RFStorage (DeleteClient client_id window) in
  let* _ := emit hooks (ClientRegistrationDeleted client_id) in
  Ret (Ok tt).
End registration.

(** ** What validation promises *)

(** The grants [metadata] asks for are exactly these: each value names a grant and every
    grant is named, in no other; an absent list asks for the authorization code. *)
Definition grants_asked (metadata : ClientMetadata) (grants : list GrantType) : Prop :=
  match cm_grant_types metadata with
  | None => grants = [AuthorizationCode]
  | Some values => (forall v, v ∈ values -> is_Some (grant_parse v)) /\
                   forall g, g ∈ grants <-> exists v, v ∈ values /\ grant_parse v = Some g
  end.
Definition scopes_asked (metadata : ClientMetadata) (scopes : ScopeSet) : Prop :=
  match cm_scope metadata with
  | None => scopes = ScopeSet.empty
  | Some text => ScopeSet.parse text = Ok scopes
  end.
Record registered_ok (metadata : ClientMetadata) (config : RegistrationConfig) (r : Registered) : Prop := {
  ro_grants : forall g, g ∈ rg_grant_types r ->
              g ∈ rc_allowed_grant_types config \/ cm_grant_types metadata = None /\ g = AuthorizationCode;
  ro_grants_nodup : NoDup (rg_grant_types r);
  ro_response : rg_response_types r = code_response_types (grants_contain (rg_grant_types r) AuthorizationCode);
  ro_uris : rg_redirect_uris r = cm_redirect_uris metadata /\
            (List.length (rg_redirect_uris r) <= MAX_REGISTERED_REDIRECT_URIS)%nat /\
            (forall u, u ∈ rg_redirect_uris r -> Uri.is_valid_resource_indicator u = true) /\
            (AuthorizationCode ∈ rg_grant_types r -> rg_redirect_uris r <> []);
  ro_asked : rg_token_endpoint_auth_method r = unwrap_or (cm_token_endpoint_auth_method metadata) AUTH_METHOD_BASIC;
  ro_method : rg_token_endpoint_auth_method r ∈ [AUTH_METHOD_NONE; AUTH_METHOD_BASIC; AUTH_METHOD_POST];
  ro_confidential : ClientCredentials ∈ rg_grant_types r -> rg_token_endpoint_auth_method r <> AUTH_METHOD_NONE;
  ro_scope : ScopeSet.wf (rg_scope r) /\ (forall s, s ∈ rg_scope r -> s ∈ rc_allowed_scopes config);
  ro_name : rg_client_name r = cm_client_name metadata;
  ro_grants_asked : grants_asked metadata (rg_grant_types r);
  ro_scopes_asked : scopes_asked metadata (rg_scope r);
}.

Lemma grants_contain_elem l g : grants_contain l g = true <-> g ∈ l.
Proof.
  unfold grants_contain. rewrite existsb_exists. setoid_rewrite bool_decide_eq_true.
  setoid_rewrite <- list_elem_of_In. naive_solver.
Qed.

Lemma parse_grants_ok config values : forall out res, NoDup out ->
  parse_grants config out values = Ok res ->
  NoDup res /\ forall g, g ∈ res -> g ∈ out \/ g ∈ rc_allowed_grant_types config.
Proof.
  induction values as [|v values IH]; intros out res Hnd Hok; cbn in Hok; [injection Hok as <-; auto|].
  apply and_then_ok in Hok as (grant & _ & Hok).
  destruct (grants_contain (rc_allowed_grant_types config) grant) eqn:Ha; [|done]. cbn [negb] in Hok.
  apply grants_contain_elem in Ha. apply IH in Hok as [Hres Hin].
  - split; [done|]. intros g Hg. destruct (grants_contain out grant); [auto|]. specialize (Hin g Hg). set_solver.
  - destruct (grants_contain out grant) eqn:Hc; [done|]. apply NoDup_app. split_and!; [done| |by apply NoDup_singleton].
    intros x Hx ->%list_elem_of_singleton. apply grants_contain_elem in Hx. congruence.
Qed.

Lemma parse_grants_exact config values : forall out res, parse_grants config out values = Ok res ->
  (forall v, v ∈ values -> is_Some (grant_parse v)) /\
  forall g, g ∈ res <-> g ∈ out \/ exists v, v ∈ values /\ grant_parse v = Some g.
Proof.
  induction values as [|v values IH]; intros out res Hok; cbn in Hok.
  { injection Hok as <-. split; [by intros v ?%elem_of_nil|]. set_solver. }
  apply and_then_ok in Hok as (grant & Hv%ok_or_ok & Hok).
  destruct (negb (grants_contain (rc_allowed_grant_types config) grant)); [done|].
  apply IH in Hok as [Hall Hiff]. split; [intros w [->|Hw]%elem_of_cons; [by eexists|auto]|].
  intros g. rewrite Hiff. destruct (grants_contain out grant) eqn:Hc; [apply grants_contain_elem in Hc|]; set_solver.
Qed.

Lemma validate_grants_exact metadata config grants : validate_grants metadata config = Ok grants ->
  grants_asked metadata grants.
Proof.
  unfold validate_grants, grants_asked. destruct (cm_grant_types metadata); [|by intros [= <-]].
  intros [Hall Hiff]%parse_grants_exact. split; [done|]. set_solver.
Qed.

Lemma validate_grants_ok metadata config grants : validate_grants metadata config = Ok grants ->
  NoDup grants /\ forall g, g ∈ grants ->
    g ∈ rc_allowed_grant_types config \/ cm_grant_types metadata = None /\ g = AuthorizationCode.
Proof.
  unfold validate_grants. destruct (cm_grant_types metadata) as [values|].
  - intros [Hnd Hin]%parse_grants_ok; [|constructor]. split; [done|]. intros g Hg.
    apply Hin in Hg as [Hx|Hx]; [by apply elem_of_nil in Hx|auto].
  - intros [= <-]. split; [by apply NoDup_singleton|]. intros g ->%list_elem_of_singleton. auto.
Qed.

Lemma validate_response_types_ok metadata b l : validate_response_types metadata b = Ok l ->
  l = code_response_types b.
Proof.
  unfold validate_response_types. destruct (cm_response_types metadata) as [values|]; [|by intros [= <-]].
  destruct (existsb _ values); [done|]. cbv zeta. destruct (Bool.eqb _ b) eqn:He; [|done].
  apply eqb_prop in He as <-. by intros [= <-].
Qed.

Lemma validate_redirect_uris_ok metadata b : validate_redirect_uris metadata b = Ok tt ->
  (List.length (cm_redirect_uris metadata) <= MAX_REGISTERED_REDIRECT_URIS)%nat /\
  (forall u, u ∈ cm_redirect_uris metadata -> Uri.is_valid_resource_indicator u = true) /\
  (b = true -> cm_redirect_uris metadata <> []).
Proof.
  unfold validate_redirect_uris. destruct (b && _) eqn:Hb; [done|].
  destruct (Nat.ltb_spec MAX_REGISTERED_REDIRECT_URIS (List.length (cm_redirect_uris metadata))); [done|].
  destruct (forallb _ _) eqn:Hf; [|done]. intros _. split_and!; [done| |].
  - intros u Hu. rewrite forallb_forall in Hf. by apply Hf, list_elem_of_In.
  - intros -> He. by rewrite He in Hb.
Qed.

Lemma validate_auth_method_ok metadata grants m : validate_auth_method metadata grants = Ok m ->
  m = unwrap_or (cm_token_endpoint_auth_method metadata) AUTH_METHOD_BASIC /\
  m ∈ [AUTH_METHOD_NONE; AUTH_METHOD_BASIC; AUTH_METHOD_POST] /\
  (ClientCredentials ∈ grants -> m <> AUTH_METHOD_NONE).
Proof.
  unfold validate_auth_method. set (method := unwrap_or _ _).
  destruct ((method == AUTH_METHOD_NONE) || _ || _) eqn:Hm; [|done]. cbn [negb].
  destruct (_ && grants_contain grants ClientCredentials) eqn:Hc; [done|]. intros [= <-]. split_and!; [done| |].
  - bools; set_solver.
  - intros Hin Hn. rewrite <- grants_contain_elem in Hin. by rewrite Hin, Hn, andb_true_r in Hc.
Qed.

Lemma validate_scope_ok metadata config s : validate_scope metadata config = Ok s ->
  ScopeSet.wf s /\ forall t, t ∈ s -> t ∈ rc_allowed_scopes config.
Proof.
  unfold validate_scope. destruct (cm_scope metadata) as [text|].
  - intros (requested & Hp%map_err_ok & Hk)%and_then_ok.
    destruct (ScopeSet.is_subset requested _) eqn:Hs; [|done]. injection Hk as <-.
    split; [by apply ScopeSet.parse_ok_wf in Hp|by eapply ScopeSet.is_subset_sound].
  - intros [= <-]. split; [split; constructor|]. by intros t ?%elem_of_nil.
Qed.

Lemma validate_scope_exact metadata config s : validate_scope metadata config = Ok s -> scopes_asked metadata s.
Proof.
  unfold validate_scope, scopes_asked. destruct (cm_scope metadata) as [text|]; [|by intros [= <-]].
  intros (requested & Hp%map_err_ok & Hk)%and_then_ok. destruct (negb _); [done|]. by injection Hk as <-.
Qed.

Lemma validate_ok metadata config r : validate metadata config = Ok r -> registered_ok metadata config r.
Proof.
  unfold validate. destruct (is_some _); [done|].
  intros (grants & Hv & Hk)%and_then_ok. cbv zeta in Hk.
  pose proof (validate_grants_exact _ _ _ Hv) as Hasked. apply validate_grants_ok in Hv as [Hnd Hg].
  apply and_then_ok in Hk as (rts & ->%validate_response_types_ok & Hk).
  apply and_then_ok in Hk as ([] & (Hl & Hu & Hne)%validate_redirect_uris_ok & Hk).
  apply and_then_ok in Hk as (m & (Ha & Hm & Hcc)%validate_auth_method_ok & Hk).
  apply and_then_ok in Hk as (s & Hv & Hk). injection Hk as <-.
  pose proof (validate_scope_exact _ _ _ Hv) as Hscopes. apply validate_scope_ok in Hv as Hs.
  split; cbn; try done. split_and!; try done. intros Hin. by apply Hne, grants_contain_elem.
Qed.

(** The registration endpoint does not check its default against the deployment's
    list: a client that names no [grant_types] is registered for the authorization code
    grant, also where the configuration does not offer that grant to registrants and a
    client that names it is refused. *)
Theorem default_grant_ignores_allow_list metadata config :
  cm_grant_types metadata = None -> ~ AuthorizationCode ∈ rc_allowed_grant_types config ->
  validate_grants metadata config = Ok [AuthorizationCode] /\
  parse_grants config [] ["authorization_code"] =
    Err (invalid_metadata InvalidClientMetadata
      "grant_types names a grant this deployment does not offer registrants").
Proof.
  intros Hn Hout. unfold validate_grants. rewrite Hn. split; [done|]. cbn [parse_grants].
  change (grant_parse "authorization_code") with (Some AuthorizationCode). cbn [ok_or and_then].
  destruct (grants_contain (rc_allowed_grant_types config) AuthorizationCode) eqn:Hc; [|done].
  by apply grants_contain_elem in Hc.
Qed.

(** ** What a registration leaves behind *)
Section facts.
Context `{Crypto} (self : AuthorizationServer).
Let cfg := sv_config self.

Lemma admit_registration_exec tr u : exec (admit_registration self) tr (Ok u) ->
  stored_ops tr = [] /\ (h_rate_limiter (sv_hooks self) = true -> ACheck ClientRegistration Allow ∈ tr).
Proof.
  unfold admit_registration. intros Hex.
  apply exec_lift_ok in Hex as [(? & _ & Hex)|(? & _ & [=] & _)].
  apply exec_bind in Hex as (tr1 & tr2 & d & -> & Hc & Hex). destruct Hex as [-> Hd].
  apply exec_hook_check in Hc as [[Hh ->]|(Hh & -> & _)]; (split; [done|]); intros Ht; [|congruence].
  destruct d; [in_trace|done].
Qed.

(** What is registered under the identifier in the answer.  The secret and the registration
    access token that were drawn are in the answer only; the record has their hashes. *)
Record registered_client (metadata : ClientMetadata) (config : RegistrationConfig) (client : Client)
    (info : ClientInformation) : Prop := {
  rcl_id : c_client_id client = ci_client_id info;
  rcl_grants : forall g, g ∈ c_grant_types client ->
    g ∈ rc_allowed_grant_types config \/ cm_grant_types metadata = None /\ g = AuthorizationCode;
  rcl_grants_asked : NoDup (c_grant_types client) /\ grants_asked metadata (c_grant_types client);
  rcl_scopes : c_default_scopes client = c_allowed_scopes client /\ ScopeSet.wf (c_allowed_scopes client) /\
    forall s, s ∈ c_allowed_scopes client -> s ∈ rc_allowed_scopes config;
  rcl_scopes_asked : scopes_asked metadata (c_allowed_scopes client);
  rcl_uris : c_redirect_uris client = cm_redirect_uris metadata /\
    (List.length (c_redirect_uris client) <= MAX_REGISTERED_REDIRECT_URIS)%nat /\
    (forall u, u ∈ c_redirect_uris client -> Uri.is_valid_resource_indicator u = true) /\
    (allows_grant client AuthorizationCode = true -> c_redirect_uris client <> []);
  rcl_name : c_name client = cm_client_name metadata;
  rcl_confidential : allows_grant client ClientCredentials = true -> is_confidential (c_auth client) = true;
  rcl_auth : c_auth client = match ci_client_secret info with
                             | None => Public
                             | Some secret => ConfidentialSecretHash (Secret.secret_sha256 secret)
                             end;
  rcl_method : ci_client_secret info = None <->
    unwrap_or (cm_token_endpoint_auth_method metadata) AUTH_METHOD_BASIC = AUTH_METHOD_NONE;
  rcl_registration : exists token,
    ci_registration_access_token info = then_some (rc_management_enabled config) token /\
    c_registration client = Some {|
      dr_registration_access_token_hash := Secret.secret_sha256 token;
      dr_client_id_issued_at := ci_client_id_issued_at info;
      dr_client_secret_expires_at := ci_client_secret_expires_at info;
      dr_token_endpoint_auth_method := unwrap_or (cm_token_endpoint_auth_method metadata) AUTH_METHOD_BASIC |};
  rcl_metadata : forall registration, c_registration client = Some registration ->
    ci_metadata info = registered_metadata client registration;
}.

Lemma allows_grant_elem client g : allows_grant client g = true <-> g ∈ c_grant_types client.
Proof. apply grants_contain_elem. Qed.

Lemma draw_hex_stored n tr s : exec (draw_hex n) tr (Ok s) -> stored_ops tr = [].
Proof. unfold draw_hex, try_random_hex. intros Hex. by exec_inv. Qed.

Lemma register_admitted_exec metadata iat tr info :
  exec (register_admitted_client self metadata iat) tr (Ok info) ->
  exists config registered t secret token,
    cfg_registration cfg = Some config /\
    policy_allows self {| ra_initial_access_token := iat; ra_metadata := metadata |} = true /\
    validate metadata config = Ok registered /\
    (is_some secret = true <-> rg_token_endpoint_auth_method registered <> AUTH_METHOD_NONE) /\
    AStore (PutClient (new_client config registered t (ci_client_id info) secret token)) (Ok tt) ∈ tr /\
    stored_ops tr = [any (PutClient (new_client config registered t (ci_client_id info) secret token))] /\
    info = new_information self config registered t (ci_client_id info) secret token.
Proof.
  unfold register_admitted_client. intros Hex.
  apply exec_lift_ok in Hex as [(config & Hcfg%ok_or_ok & Hex)|(? & _ & [=] & _)].
  destruct (policy_allows self _) eqn:Hpol; cbn [negb] in Hex; [|by exec_inv].
  destruct (validate metadata config) as [registered|] eqn:Hval; [|by exec_inv].
  apply exec_bind in Hex as (tr1 & tr2 & instant & -> & ->%exec_now & Hex). cbv zeta in Hex.
  apply exec_bind_ok in Hex as [(tr3 & tr4 & cid & -> & Hcid%draw_hex_stored & Hex)|(? & [=] & _)].
  apply exec_bind_ok in Hex as [(tr5 & tr6 & secret & -> & Hs & Hex)|(? & [=] & _)].
  apply exec_bind_ok in Hex as [(tr7 & tr8 & token & -> & Htok%draw_hex_stored & Hex)|(? & [=] & _)].
  apply exec_bind_ok in Hex as [(tr9 & tr10 & [] & -> & Hput & Hex)|(? & [=] & _)].
  apply exec_store_or in Hput as ([|] & [=] & ->); subst.
  apply exec_bind in Hex as (tr11 & tr12 & [] & -> & He%exec_emit & Hex).
  apply exec_bind in Hex as (tr13 & tr14 & [] & -> & Hr%exec_hook_record & Hex). destruct Hex as [-> [= ->]].
  assert (stored_ops tr5 = [] /\ (is_some secret = true <-> rg_token_endpoint_auth_method registered <> AUTH_METHOD_NONE))
    as [Hnone Hsec].
  { case_bool_decide; cbn [negb] in Hs; [exec_inv; naive_solver|].
    apply exec_bind_ok in Hs as [(? & ? & ? & -> & Hd%draw_hex_stored & Hs)|(? & [=] & _)].
    destruct Hs as [-> [= ->]]. by rewrite stored_ops_app, Hd. }
  exists config, registered, (unix_seconds instant), secret, token. split_and!; try done; [in_trace|].
  rewrite !stored_ops_app, Hcid, Hnone, Htok, He, Hr. by destruct (h_events _), (h_rate_limiter _).
Qed.

(** C17. A client can register itself only within what the deployment offers.  In every
    execution of the registration endpoint that answers with an identifier: the limiter
    and the host's policy allowed it, and the only thing done to the store is to write one
    client, under that identifier.  Its grants, scopes, redirect URIs, name and authentication
    method are exactly those of the metadata (an absent scope is none, an absent method is
    [client_secret_basic], an absent grant list is the authorization code grant); its scopes
    are inside the configured ones, and so are its grants, with one exception: the
    authorization code grant taken by default for an absent list is not compared with the
    configuration.  There are at most sixteen redirect URIs, all absolute and without
    fragment, and at least one when it may use the authorization code grant; it has a secret
    when it may use client credentials; the secret and the registration access token of
    the answer are in the record only as hashes; and what the answer says was registered is
    what a later read of that record says. *)
Theorem registration_within_bounds metadata iat tr info :
  exec (register_dynamic_client self metadata iat) tr (Ok info) ->
  (h_rate_limiter (sv_hooks self) = true -> ACheck ClientRegistration Allow ∈ tr) /\
  policy_allows self {| ra_initial_access_token := iat; ra_metadata := metadata |} = true /\
  exists config client, cfg_registration cfg = Some config /\
    AStore (PutClient client) (Ok tt) ∈ tr /\ stored_ops tr = [any (PutClient client)] /\
    registered_client metadata config client info.
Proof.
  unfold register_dynamic_client. intros Hex.
  apply exec_bind_ok in Hex as [(tr1 & tr2 & u & -> & Hadm & Hex)|(? & [=] & _)].
  apply register_admitted_exec in Hex
    as (config & registered & t & secret & token & Hcfg & Hpol & Hval & Hsec & Hput & Hops & Hinfo).
  apply admit_registration_exec in Hadm as [Hnone Hadm].
  apply validate_ok in Hval. split; [|split; [done|]].
  { intros Hh. apply Hadm in Hh. in_trace. }
  eexists config, _. split_and!; [done|apply elem_of_app; right; exact Hput|by rewrite stored_ops_app, Hnone|].
  clear Hput Hops. destruct Hval as [Hg Hnd Hr Hu Hasked Hm Hc Hs Hn Hga Hsa]. destruct Hu as (Hu1 & Hu2 & Hu3 & Hu4).
  set (cid := ci_client_id info) in *. clearbody cid. subst info.
  split; cbn; rewrite <- ?Hasked; try done.
  - split_and!; try done. intros Ha. apply Hu4. by apply grants_contain_elem.
  - intros Ha. apply grants_contain_elem, Hc in Ha. apply Hsec in Ha. by destruct secret.
  - destruct secret; cbn in Hsec; [split; [done|]; intros Hx; by apply Hsec in Hx|].
    split; [|done]. intros _. destruct (decide (rg_token_endpoint_auth_method registered = AUTH_METHOD_NONE)) as [|Hx];
      [done|]. by apply Hsec in Hx.
  - by exists token.
  - intros registration [= <-]. unfold registered_metadata. cbn. by rewrite Hr.
Qed.

(** ** Management needs the registration access token *)
Definition token_verified (client_id : ClientId) (token : string) (tr : list Act) (client : Client)
    (registration : DynamicRegistration) : Prop :=
  AStore (GetClient client_id) (Ok (Some client)) ∈ tr /\ c_registration client = Some registration /\
  Secret.hash_verify (dr_registration_access_token_hash registration) token (sv_secret_verifier self) = true.

Lemma token_verified_mono client_id token tr tr' client registration :
  (forall y, y ∈ tr -> y ∈ tr') -> token_verified client_id token tr client registration ->
  token_verified client_id token tr' client registration.
Proof. intros Hsub (? & ? & ?). split_and!; auto. Qed.

Lemma authenticate_registration_exec client_id token tr client registration :
  exec (authenticate_registration self client_id token) tr (Ok (client, registration)) ->
  token_verified client_id token tr client registration /\
  exists config, cfg_registration cfg = Some config /\ rc_management_enabled config = true.
Proof.
  unfold authenticate_registration, registration_auth_failed. intros Hex.
  apply exec_lift_ok in Hex as [(config & Hcfg%ok_or_ok & Hex)|(? & _ & [=] & _)].
  destruct (rc_management_enabled config) eqn:Hm; cbn [negb] in Hex; [|by exec_inv].
  apply exec_bind in Hex as (tr1 & tr2 & d & -> & _ & Hex). exec_step; [by exec_inv|].
  apply exec_bind_ok in Hex as [(tr3 & tr4 & found & -> & Hget & Hex)|(? & [=] & _)].
  apply exec_store_or in Hget as ([|] & [=] & ->); subst.
  destruct a as [c|]; [|by exec_inv]. destruct (c_registration c) as [reg|] eqn:Hreg; [|by exec_inv].
  destruct (Secret.hash_verify _ _ _) eqn:Hv; cbn [negb] in Hex; [|by exec_inv].
  apply exec_bind in Hex as (tr5 & tr6 & u & -> & _ & Hex). destruct Hex as [-> [= -> ->]].
  split; [|eauto]. split_and!; [in_trace|done|done].
Qed.

Lemma authenticate_registration_ops client_id token :
  all_ops (within [ReadOp]) (authenticate_registration self client_id token).
Proof. unfold authenticate_registration, registration_auth_failed. ops. Qed.

Lemma updated_secret_ops ks config client registration b :
  all_ops (within ks) (updated_secret config client registration b).
Proof. unfold updated_secret, draw_hex, try_random_hex. ops. Qed.

(** An update writes the record the token was checked against, with the same identifier
    and the same token. *)
Definition update_of (config : RegistrationConfig) (metadata : ClientMetadata) (client updated : Client)
    (registration : DynamicRegistration) : Prop :=
  c_client_id updated = c_client_id client /\
  (dr_registration_access_token_hash <$> c_registration updated) =
    Some (dr_registration_access_token_hash registration) /\
  exists registered auth expires_at, validate metadata config = Ok registered /\
    updated = updated_client client registration registered auth expires_at.

(** Nobody changes a registration without its access token.  Whatever an update or a
    deletion does to the clients of the store, in any execution, successful or not: the
    token presented verifies against the hash in the record the store returned for that
    identifier; a deletion is of that client; an update replaces exactly the record that
    was read, by one with the same identifier and the same token hash, whose metadata the
    host's policy allowed and the configuration accepts. *)
Theorem management_needs_token client_id token metadata tr :
  (forall r X (op : StoreOp X) answer, exec (update_registration self client_id token metadata) tr r ->
     AStore op answer ∈ tr -> op_kind (any op) <> ReadOp ->
     exists client registration config updated, token_verified client_id token tr client registration /\
       cfg_registration cfg = Some config /\ any op = any (CompareAndSwapClient client updated) /\
       policy_allows self {| ra_initial_access_token := None; ra_metadata := metadata |} = true /\
       update_of config metadata client updated registration) /\
  (forall r X (op : StoreOp X) answer, exec (delete_registration self client_id token) tr r ->
     AStore op answer ∈ tr -> op_kind (any op) <> ReadOp ->
     exists client registration window, token_verified client_id token tr client registration /\
       any op = any (DeleteClient client_id window)).
Proof.
  assert (Hread : forall tr r X (op : StoreOp X) answer,
    exec (authenticate_registration self client_id token) tr r -> AStore op answer ∈ tr ->
    op_kind (any op) <> ReadOp -> False).
  { intros tr' r X op answer Hex Hin Hk.
    pose proof (exec_all_ops _ _ _ _ (authenticate_registration_ops client_id token) Hex _ _ _ Hin) as [_ Hop].
    set_solver. }
  split; intros r X op answer Hex Hin Hk.
  - unfold update_registration in Hex.
    apply exec_bind_ok in Hex as [(tr1 & tr2 & [client registration] & -> & Hauth & Hex)|(? & _ & Hex)];
      [|by destruct (Hread _ _ _ _ _ Hex Hin Hk)].
    apply elem_of_app in Hin as [Hin|Hin]; [by destruct (Hread _ _ _ _ _ Hauth Hin Hk)|].
    apply authenticate_registration_exec in Hauth as [Htok _].
    set (P := fun o : AnyOp => op_kind o <> ReadOp -> exists config updated,
      cfg_registration cfg = Some config /\ o = any (CompareAndSwapClient client updated) /\
      policy_allows self {| ra_initial_access_token := None; ra_metadata := metadata |} = true /\
      update_of config metadata client updated registration).
    assert (HP : P (any op)); [refine (exec_all_ops P _ _ _ _ Hex _ _ _ Hin); clear Hex; unfold P|].
    2:{ destruct (HP Hk) as (config & updated & ? & ? & ? & ?). exists client, registration, config, updated.
      split_and!; try done. eapply token_verified_mono; [|done]. intros y Hy. in_trace. }
    unfold registration_config. destruct (cfg_registration (sv_config self)) as [config|] eqn:Hcfg; [|exact I].
    cbn [ok_or lift_ok]. destruct (policy_allows self _) eqn:Hpol; cbn [negb]; [|ops].
      destruct (validate metadata config) as [registered|] eqn:Hval; cbn [lift_ok]; [|exact I].
      apply all_ops_bind_ok.
      { eapply all_ops_mono; [|apply (updated_secret_ops [])]. intros o [_ ?]. set_solver. }
      intros [[new_secret auth] expires_at]. ops. exists config. eexists. split_and!; [done|done|done|]. split_and!; [done|done|]. eauto 10.
  - unfold delete_registration in Hex.
    apply exec_bind_ok in Hex as [(tr1 & tr2 & [client registration] & -> & Hauth & Hex)|(? & _ & Hex)];
      [|by destruct (Hread _ _ _ _ _ Hex Hin Hk)].
    apply elem_of_app in Hin as [Hin|Hin]; [by destruct (Hread _ _ _ _ _ Hauth Hin Hk)|].
    apply authenticate_registration_exec in Hauth as [Htok _].
    set (P := fun o : AnyOp => op_kind o <> ReadOp -> exists window, o = any (DeleteClient client_id window)).
    assert (HP : P (any op)).
    { refine (exec_all_ops P _ _ _ _ Hex _ _ _ Hin). unfold P, revocation_window. ops. eauto. }
    destruct (HP Hk) as [window ?]. exists client, registration, window. split; [|done].
    eapply token_verified_mono; [|done]. intros y Hy. in_trace.
Qed.

(** ** Reading a registration back *)
Lemma hash_verify_sha256 secret verifier :
  Secret.hash_verify (Secret.secret_sha256 secret) secret verifier = true.
Proof.
  unfold Secret.hash_verify, Secret.verify_builtin, Secret.constant_time_eq, Secret.secret_sha256. cbn.
  apply N.eqb_eq. by apply xor_acc_zero.
Qed.

Context `{HashOrder} (env : Env).
Hypothesis Hfault : forall n, env_fault env n = None.

Lemma draw_hex_store n w r w' : run env (draw_hex n) w = (r, w') -> w_store w' = w_store w.
Proof. unfold draw_hex, try_random_hex. cbn. by intros [= _ <-]. Qed.

(** A registration that answers leaves its record in the store. *)
Lemma run_register_admitted metadata iat w info w' :
  run env (register_admitted_client self metadata iat) w = (Ok info, w') ->
  exists config registered t secret token, cfg_registration cfg = Some config /\
    validate metadata config = Ok registered /\
    mi_clients (w_store w') !! ci_client_id info =
      Some (new_client config registered t (ci_client_id info) secret token) /\
    info = new_information self config registered t (ci_client_id info) secret token.
Proof.
  unfold register_admitted_client, registration_config. fold cfg. intros Hrun.
  destruct (cfg_registration cfg) as [config|]; [|done]. cbn [ok_or lift_ok] in Hrun.
  destruct (policy_allows self _); cbn [negb] in Hrun.
  2:{ apply run_bind_inv in Hrun as (? & ? & _ & Hrun). by apply run_bind_inv in Hrun as (? & ? & _ & [=]). }
  destruct (validate metadata config) as [registered|e] eqn:Hval; [|by apply run_bind_inv in Hrun as (? & ? & _ & [=])].
  apply run_bind_inv in Hrun as (instant & w1 & _ & Hrun). cbv zeta in Hrun.
  apply run_bind_ok_inv in Hrun as (cid & w2 & _ & Hrun).
  apply run_bind_ok_inv in Hrun as (secret & w3 & _ & Hrun).
  apply run_bind_ok_inv in Hrun as (token & w4 & _ & Hrun).
  apply run_bind_ok_inv in Hrun as (u & w5 & Hput & Hrun).
  apply run_store_or in Hput as [_ Hst]; [|apply Hfault]. cbn in Hst.
  apply run_bind_inv in Hrun as (? & w6 & He%run_emit_store & Hrun).
  apply run_bind_inv in Hrun as (? & w7 & Hr%run_hook_record_store & Hrun). injection Hrun as <- <-.
  exists config, registered, (unix_seconds instant), secret, token. split_and!; try done.
  rewrite Hr, He, Hst. cbn. by rewrite lookup_insert_eq.
Qed.

(** C38. A registration can be read back.  After a registration that was answered, with a
    storage that answers, whoever presents the registration access token of that answer is
    answered with the same identifier, the same metadata, the same dates and the same
    address, and never with the secret; unless the limiter refuses the attempt. *)
Theorem register_read_roundtrip metadata iat w info w' token w2 :
  run env (register_dynamic_client self metadata iat) w = (Ok info, w') ->
  ci_registration_access_token info = Some token -> w_store w2 = w_store w' ->
  (forall n, env_check env n (ClientAuthentication (ci_client_id info)) = Allow) ->
  exists w3, run env (read_registration self (ci_client_id info) token) w2 =
    (Ok {| ci_client_id := ci_client_id info; ci_client_secret := None;
           ci_client_id_issued_at := ci_client_id_issued_at info;
           ci_client_secret_expires_at := ci_client_secret_expires_at info;
           ci_registration_access_token := None;
           ci_registration_client_uri := ci_registration_client_uri info;
           ci_metadata := ci_metadata info |}, w3).
Proof.
  intros (u & w1 & _ & Hreg)%run_bind_ok_inv Htok Hst Hallow.
  apply run_register_admitted in Hreg as (config & registered & t & secret & tok & Hcfg & Hval & Hcl & Hinfo).
  rewrite <- Hst in Hcl. unfold read_registration, authenticate_registration, registration_config. fold cfg.
  set (cid := ci_client_id info) in *. clearbody cid. subst info. cbn in Htok |- *.
  destruct (rc_management_enabled config) eqn:Hm; [|done]. injection Htok as ->.
  rewrite Hcfg. cbn [ok_or lift_ok]. rewrite Hm. cbn [negb then_some].
  unfold hook_check, bind_ok. destruct (h_rate_limiter (sv_hooks self)) eqn:Hl; cbn;
    rewrite ?Hallow; change (Allow == Deny) with false; cbn; unfold store_call; rewrite Hfault; cbn; rewrite Hcl; cbn;
    rewrite hash_verify_sha256; cbn; unfold hook_record; rewrite Hl; cbn; eexists; do 2 f_equal;
    destruct (validate_ok _ _ _ Hval) as [_ _ Hr]; unfold registered_metadata; cbn; by rewrite Hr.
Qed.
End facts.

(** ** Evaluation *)
Definition with_registration_config (c : ServerConfig) (r : RegistrationConfig) : ServerConfig := {|
  cfg_issuer := cfg_issuer c; cfg_verification_uri := cfg_verification_uri c;
  cfg_authorization_endpoint := cfg_authorization_endpoint c; cfg_token_endpoint := cfg_token_endpoint c;
  cfg_device_authorization_endpoint := cfg_device_authorization_endpoint c;
  cfg_introspection_endpoint := cfg_introspection_endpoint c;
  cfg_revocation_endpoint := cfg_revocation_endpoint c; cfg_jwks_uri := cfg_jwks_uri c;
  cfg_registration := Some r; cfg_par := cfg_par c; cfg_jar := cfg_jar c; cfg_cimd := cfg_cimd c;
  cfg_scopes_supported := cfg_scopes_supported c; cfg_allowed_resources := cfg_allowed_resources c;
  cfg_resource_servers := cfg_resource_servers c; cfg_service_documentation := cfg_service_documentation c;
  cfg_authorization_details_types_supported := cfg_authorization_details_types_supported c;
  cfg_protected_resources := cfg_protected_resources c; cfg_access_token_format := cfg_access_token_format c;
  cfg_jws_alg_allow_list := cfg_jws_alg_allow_list c;
  cfg_authorization_code_ttl := cfg_authorization_code_ttl c;
  cfg_include_verification_uri_complete := cfg_include_verification_uri_complete c;
  cfg_device_code_ttl := cfg_device_code_ttl c; cfg_poll_interval := cfg_poll_interval c;
  cfg_slow_down_increment := cfg_slow_down_increment c; cfg_access_token_ttl := cfg_access_token_ttl c;
  cfg_issue_refresh_tokens := cfg_issue_refresh_tokens c;
  cfg_allow_sender_constrained_exchange := cfg_allow_sender_constrained_exchange c;
  cfg_allow_authorization_details_exchange := cfg_allow_authorization_details_exchange c;
  cfg_refresh_token_ttl := cfg_refresh_token_ttl c; cfg_refresh_reuse_window := cfg_refresh_reuse_window c;
  cfg_refresh_retry_window := cfg_refresh_retry_window c; cfg_refresh_rotation := cfg_refresh_rotation c;
  cfg_require_dpop := cfg_require_dpop c; cfg_assertion_audience := cfg_assertion_audience c;
  cfg_user_code_length := cfg_user_code_length c |}.

Definition registration_server : AuthorizationServer := {|
  sv_config := with_registration_config (sv_config demo_server) registration_config_new;
  sv_hooks := sv_hooks demo_server; sv_secret_verifier := None; sv_jws_verifiers := None;
  sv_registration_policy := Some (fun _ => RegistrationAllow); sv_request_object_keys := None |}.
Definition demo_metadata (grants : option (list string)) : ClientMetadata := {|
  cm_redirect_uris := ["https://app/cb"]; cm_token_endpoint_auth_method := None; cm_grant_types := grants;
  cm_response_types := None; cm_client_name := Some "App"; cm_scope := None; cm_software_statement := None |}.
Definition demo_registered : result ClientInformation RegistrationFailure * World :=
  run demo_env (@register_dynamic_client plain_crypto registration_server (demo_metadata None) None) (world_of mi_empty).

Lemma registration_within_bounds_witness : exists (tr : list Act) client info,
  AStore (PutClient client) (Ok tt) ∈ tr /\
  @registered_client plain_crypto (demo_metadata None) registration_config_new client info.
Proof.
  destruct (run_exec_ok demo_env (@register_dynamic_client plain_crypto registration_server (demo_metadata None) None)
    (world_of mi_empty)) as (tr & info & Htr); [vm_compute; reflexivity|].
  destruct (@registration_within_bounds plain_crypto registration_server (demo_metadata None) None tr info Htr)
    as (_ & _ & config & client & Hcfg & Hput & _ & Hreg).
  injection Hcfg as <-. exists tr, client, info. split; [exact Hput|exact Hreg].
Defined.

Lemma default_grant_ignores_allow_list_witness :
  validate_grants (demo_metadata None) {| rc_registration_endpoint := None; rc_allowed_grant_types := [];
    rc_allowed_scopes := []; rc_client_secret_ttl := None; rc_management_enabled := true |} = Ok [AuthorizationCode].
Proof. apply default_grant_ignores_allow_list; [reflexivity|]. cbn. apply not_elem_of_nil. Defined.

Lemma register_read_roundtrip_witness : exists info token w3,
  fst demo_registered = Ok info /\ ci_registration_access_token info = Some token /\
  snd (run demo_env (@read_registration plain_crypto registration_server (ci_client_id info) token)
         (snd demo_registered)) = w3 /\
  is_ok (fst (run demo_env (@read_registration plain_crypto registration_server (ci_client_id info) token)
         (snd demo_registered))) = true.
Proof.
  destruct (fst demo_registered) as [info|] eqn:Hinfo; [|vm_compute in Hinfo; discriminate].
  destruct (ci_registration_access_token info) as [token|] eqn:Htok.
  2:{ vm_compute in Hinfo. injection Hinfo as <-. discriminate. }
  destruct (@register_read_roundtrip plain_crypto registration_server listing_order demo_env (fun _ => eq_refl)
    (demo_metadata None) None (world_of mi_empty) info (snd demo_registered) token (snd demo_registered))
    as (w3 & Hrun); [|exact Htok|reflexivity|reflexivity|].
  { unfold demo_registered in *. destruct (run _ _ _) as [r w]. cbn in Hinfo |- *. by subst. }
  exists info, token, w3. rewrite Hrun. split; [reflexivity|]. split; [exact Htok|]. split; reflexivity.
Defined.

Lemma management_needs_token_witness : exists (tr : list Act),
  (forall r X (op : StoreOp X) answer,
     exec (@delete_registration plain_crypto registration_server "app" "token") tr r ->
     AStore op answer ∈ tr -> op_kind (any op) <> ReadOp ->
     exists window, any op = any (DeleteClient "app" window)).
Proof.
  destruct (run_exec demo_env (@delete_registration plain_crypto registration_server "app" "token")
    (world_of mi_empty)) as [tr Htr].
  exists tr. intros r X op answer Hex Hin Hk.
  destruct (proj2 (@management_needs_token plain_crypto registration_server "app" "token" (demo_metadata None) tr)
    r X op answer Hex Hin Hk) as (client & registration & window & _ & Hop). exists window. exact Hop.
Defined.
