(* ===== verification/Cimd.v ===== *)
(** * Client identifier metadata documents

    [cimd.rs]: a client whose identifier is a URL, and the document found there.  The
    URL is checked as text before anything is fetched; the document is checked against
    the URL it came from and the bounds of dynamic registration. *)
From S2P Require Import Prelude Time Codec Scope Types Jws Config Registration IpAddr.
Local Open Scope Z_scope.
Local Ltac Zify.zify_post_hook ::= Z.to_euclidean_division_equations.

Definition MAX_CLIENT_ID_DOCUMENT_BYTES : nat := 5120.
Definition MAX_CLIENT_ID_URL_BYTES : nat := 2048.

Inductive CimdError : Type :=
| NotHttps | NoHost | NotAscii | NoPath | DotSegment | Fragment | Userinfo | QueryString
| SpecialUseAddress | UrlTooLong | DocumentTooLarge | NotJson | MissingClientId | ClientIdMismatch
| ClientSecretPresent | SharedSecretAuthMethod | KeyMaterialPresent | RedirectUriNotSameOrigin
| CimdMetadata (e : RegistrationErrorResponse).

Definition cimd_policy_new : CimdPolicy := {|
  cp_allow_loopback := false; cp_max_document_bytes := MAX_CLIENT_ID_DOCUMENT_BYTES;
  cp_redirect_uris_same_origin := true; cp_allow_query_string := false;
  cp_registration_bounds := registration_config_new |}.

(** ** Addresses *)

(** [s.find(['/', '?'])], the length of [s] when there is none. *)
Fixpoint authority_len (s : string) : nat :=
  match s with
  | EmptyString => 0
  | String c rest => if Ascii.eqb c "/" || Ascii.eqb c "?" then 0 else S (authority_len rest)
  end.

(** [s.starts_with(c)] *)
Definition starts_with (c : ascii) (s : string) : bool :=
  match s with String x _ => Ascii.eqb x c | EmptyString => false end.

Definition is_ascii_hexdigit (c : ascii) : bool := in_range 48 57 c || in_range 65 70 c || in_range 97 102 c.

(** [s.strip_suffix('.')] *)
Fixpoint strip_dot (s : string) : option string :=
  match s with
  | EmptyString => None
  | String c EmptyString => if Ascii.eqb c "." then Some EmptyString else None
  | String c rest => String c <$> strip_dot rest
  end.

Definition ends_in_a_number (host : string) : bool :=
  let host := unwrap_or (strip_dot host) host in
  match List.last (split_on "." host) EmptyString with
  | EmptyString => false
  | last =>
      match option_or (strip_prefix "0x" last) (strip_prefix "0X" last) with
      | Some hex => str_forall is_ascii_hexdigit hex
      | None => str_forall is_ascii_digit last
      end
  end.

(** [s.split(c).next().filter(|h| !h.is_empty())] *)
Definition first_piece (c : ascii) (s : string) : option string :=
  match split_on c s with
  | EmptyString :: _ | [] => None
  | h :: _ => Some h
  end.

Definition host_of (authority : string) : option string :=
  match authority with
  | EmptyString => None
  | String "[" rest => first_piece "]" rest
  | _ => first_piece ":" authority
  end.

(** The match on the octets of an IPv4 literal. *)
Definition special_v4 (allow_loopback : bool) (o : Ipv4Addr) : bool :=
  if oct0 o =? 127 then negb allow_loopback
  else if oct0 o =? 0 then true
  else if oct0 o =? 10 then true
  else if (oct0 o =? 172) && ((16 <=? oct1 o) && (oct1 o <=? 31)) then true
  else if (oct0 o =? 192) && (oct1 o =? 168) then true
  else if (oct0 o =? 100) && ((64 <=? oct1 o) && (oct1 o <=? 127)) then true
  else if (oct0 o =? 169) && (oct1 o =? 254) then true
  else if (oct0 o =? 192) && (oct1 o =? 0) && (oct2 o =? 0) then true
  else if ((oct0 o =? 192) && (oct1 o =? 0) && (oct2 o =? 2))
          || ((oct0 o =? 198) && (oct1 o =? 51) && (oct2 o =? 100))
          || ((oct0 o =? 203) && (oct1 o =? 0) && (oct2 o =? 113)) then true
  else if (oct0 o =? 192) && (oct1 o =? 88) && (oct2 o =? 99) then true
  else if (oct0 o =? 198) && ((oct1 o =? 18) || (oct1 o =? 19)) then true
  else oct0 o >=? 224.

Definition seg (s : list Z) (i : nat) : Z := List.nth i s 0.

(** The IPv4 address in the last two segments. *)
Definition embedded (s : list Z) : Ipv4Addr :=
  ipv4 (Z.shiftr (seg s 6) 8) (Z.land (seg s 6) 255) (Z.shiftr (seg s 7) 8) (Z.land (seg s 7) 255).

(** The match on the first segment of an IPv6 literal that is neither the loopback nor an
    embedded IPv4 address. *)
Definition special_v6 (s : list Z) : bool :=
  let first := seg s 0 in
  if first =? 0 then true
  else if first =? 100 then true
  else if first =? 256 then (seg s 1 =? 0) && (seg s 2 =? 0) && (seg s 3 =? 0)
  else if first =? 8193 then (seg s 1 <? 512) || (seg s 1 =? 3512)
  else if first =? 8194 then true
  else (Z.land first 65024 =? 64512) || (Z.land first 65472 =? 65152) || (Z.shiftr first 8 =? 255).

(** [is_special_use_literal]; an embedded IPv4 address is asked about by its text. *)
Fixpoint is_special_use_loop (fuel : nat) (host : string) (allow_loopback : bool) : bool :=
  match fuel with
  | O => false
  | S fuel =>
      match parse_ipv4 host with
      | Some v4 => special_v4 allow_loopback v4
      | None =>
          match parse_ipv6 host with
          | None => false
          | Some s =>
              if bool_decide (s = [0; 0; 0; 0; 0; 0; 0; 1]) then negb allow_loopback
              else if bool_decide (firstn 5 s = [0; 0; 0; 0; 0]) && ((seg s 5 =? 65535) || (seg s 5 =? 0))
              then is_special_use_loop fuel (ipv4_display (embedded s)) allow_loopback
              else special_v6 s
          end
      end
  end.
Definition is_special_use_literal : string -> bool -> bool := is_special_use_loop 2.

(** ** The identifier *)
Definition ClientIdUrl : Type := string.

Definition client_id_url_parse (raw : string) (policy : CimdPolicy) : result ClientIdUrl CimdError :=
  if Nat.ltb MAX_CLIENT_ID_URL_BYTES (str_len raw) then Err UrlTooLong
  else if negb (str_forall (in_range 33 126) raw) then Err NotAscii
  else
    let? rest := ok_or (strip_prefix "https://" raw) NotHttps in
    if contains_char "#" raw then Err Fragment
    else
      let authority := take_str (authority_len rest) rest in
      let after_authority := drop_str (authority_len rest) rest in
      if contains_char "@" authority then Err Userinfo
      else if negb (starts_with "/" after_authority) then Err NoPath
      else
        let (path, query) := match find_char "?" after_authority with
                             | Some at_ => (take_str at_ after_authority, Some (drop_str (S at_) after_authority))
                             | None => (after_authority, None)
                             end in
        if existsb (fun segment => (segment == ".") || (segment == "..")) (split_on "/" path) then Err DotSegment
        else if is_some query && negb (cp_allow_query_string policy) then Err QueryString
        else
          let? host := ok_or (host_of authority) NoHost in
          if negb (contains_char ":" host) && ends_in_a_number host && is_none (parse_ipv4 host)
          then Err SpecialUseAddress
          else if contains_char "\" authority then Err NotAscii
          else if contains_char "%" authority then Err NotAscii
          else if is_special_use_literal host (cp_allow_loopback policy) then Err SpecialUseAddress
          else Ok raw.

(** [ClientIdUrl::origin] *)
Definition origin (url : string) : string :=
  match strip_prefix "https://" url with
  | None => url
  | Some rest => take_str (8 + authority_len rest) url
  end.

(** ** The document *)
Record ClientIdDocument : Type := {
  cd_client_id : option string;
  cd_client_secret : option Value;
  cd_client_secret_expires_at : option Value;
  cd_jwks : option Value;
  cd_jwks_uri : option Value;
  cd_metadata : ClientMetadata;
}.
Definition FORBIDDEN_AUTH_METHODS : list string :=
  ["client_secret_basic"; "client_secret_post"; "client_secret_jwt"].

Record ValidatedClientIdDocument : Type := { vd_url : ClientIdUrl; vd_registered : Registered }.

Definition same_origin (origin uri : string) : bool :=
  match strip_prefix origin uri with
  | Some rest => str_is_empty rest || starts_with "/" rest || starts_with "?" rest
  | None => false
  end.

(** The metadata with the default for the authentication method written in. *)
Definition document_metadata (metadata : ClientMetadata) : result ClientMetadata CimdError :=
  match cm_token_endpoint_auth_method metadata with
  | Some m => if existsb (fun f => f == m) FORBIDDEN_AUTH_METHODS then Err SharedSecretAuthMethod else Ok metadata
  | None => Ok {| cm_redirect_uris := cm_redirect_uris metadata;
                  cm_token_endpoint_auth_method := Some AUTH_METHOD_NONE;
                  cm_grant_types := cm_grant_types metadata; cm_response_types := cm_response_types metadata;
                  cm_client_name := cm_client_name metadata; cm_scope := cm_scope metadata;
                  cm_software_statement := cm_software_statement metadata |}
  end.

Definition document_refusal (failure : RegistrationFailure) : CimdError :=
  match failure with
  | RFInvalid response => CimdMetadata response
  | _ => CimdMetadata (registration_error_new InvalidClientMetadata
           "the document names metadata this server will not accept")
  end.

Section document.
(** [serde_json::from_slice] at [ClientIdDocument]. *)
Context (document_from_slice : string -> option ClientIdDocument).

Definition validate_document (fetched_from : ClientIdUrl) (body : string) (policy : CimdPolicy)
  : result ValidatedClientIdDocument CimdError :=
  if Nat.ltb (cp_max_document_bytes policy) (str_len body) then Err DocumentTooLarge
  else
    let? document := ok_or (document_from_slice body) NotJson in
    let? claimed := ok_or (cd_client_id document) MissingClientId in
    if claimed != fetched_from then Err ClientIdMismatch
    else if is_some (cd_client_secret document) || is_some (cd_client_secret_expires_at document)
    then Err ClientSecretPresent
    else if is_some (cd_jwks document) || is_some (cd_jwks_uri document) then Err KeyMaterialPresent
    else
      let? metadata := document_metadata (cd_metadata document) in
      let? registered := map_err document_refusal (validate metadata (cp_registration_bounds policy)) in
      if cp_redirect_uris_same_origin policy
         && negb (forallb (same_origin (origin fetched_from)) (rg_redirect_uris registered))
      then Err RedirectUriNotSameOrigin
      else Ok {| vd_url := fetched_from; vd_registered := registered |}.
End document.

Definition to_client (self : ValidatedClientIdDocument) : Client := {|
  c_client_id := vd_url self; c_auth := Public; c_grant_types := rg_grant_types (vd_registered self);
  c_redirect_uris := rg_redirect_uris (vd_registered self);
  c_allowed_scopes := rg_scope (vd_registered self); c_default_scopes := ScopeSet.empty;
  c_name := rg_client_name (vd_registered self); c_registration := None |}.

(** ** The special-use blocks

    The ranges by their CIDR blocks, as the registries of RFC 6890 write them. *)
Definition addr4 (a : Ipv4Addr) : Z := ((oct0 a * 256 + oct1 a) * 256 + oct2 a) * 256 + oct3 a.
Definition in_block4 (a : Ipv4Addr) (block : Ipv4Addr * Z) : Prop :=
  let (base, len) := block in addr4 a / 2 ^ (32 - len) = addr4 base / 2 ^ (32 - len).

Definition loopback4 : Ipv4Addr * Z := (ipv4 127 0 0 0, 8).
Definition special_blocks4 : list (Ipv4Addr * Z) :=
  [(ipv4 0 0 0 0, 8); (ipv4 10 0 0 0, 8); (ipv4 172 16 0 0, 12); (ipv4 192 168 0 0, 16); (ipv4 100 64 0 0, 10);
   (ipv4 169 254 0 0, 16); (ipv4 192 0 0 0, 24); (ipv4 192 0 2 0, 24); (ipv4 198 51 100 0, 24);
   (ipv4 203 0 113 0, 24); (ipv4 192 88 99 0, 24); (ipv4 198 18 0 0, 15); (ipv4 224 0 0 0, 3)].
Definition reserved4 (allow_loopback : bool) (a : Ipv4Addr) : Prop :=
  (allow_loopback = false /\ in_block4 a loopback4) \/ Exists (in_block4 a) special_blocks4.

Definition addr6 (s : list Z) : Z := foldl (fun acc g => acc * 65536 + g) 0 s.
Definition in_block6 (s : list Z) (block : list Z * Z) : Prop :=
  let (base, len) := block in addr6 s / 2 ^ (128 - len) = addr6 base / 2 ^ (128 - len).
Definition localhost6 : list Z := [0; 0; 0; 0; 0; 0; 0; 1].
(** The IPv4-compatible and the IPv4-mapped addresses. *)
Definition embedding_blocks6 : list (list Z * Z) :=
  [([0; 0; 0; 0; 0; 0; 0; 0], 96); ([0; 0; 0; 0; 0; 65535; 0; 0], 96)].
Definition special_blocks6 : list (list Z * Z) :=
  [([0; 0; 0; 0; 0; 0; 0; 0], 16); ([100; 0; 0; 0; 0; 0; 0; 0], 16); ([256; 0; 0; 0; 0; 0; 0; 0], 64);
   ([8193; 0; 0; 0; 0; 0; 0; 0], 23); ([8193; 3512; 0; 0; 0; 0; 0; 0], 32); ([8194; 0; 0; 0; 0; 0; 0; 0], 16);
   ([64512; 0; 0; 0; 0; 0; 0; 0], 7); ([65152; 0; 0; 0; 0; 0; 0; 0], 10); ([65280; 0; 0; 0; 0; 0; 0; 0], 8)].

(** An address the identifier must not name: its own block, or that of the IPv4 address
    it carries. *)
Inductive reserved6 (allow_loopback : bool) (s : list Z) : Prop :=
| reserved_localhost : s = localhost6 -> allow_loopback = false -> reserved6 allow_loopback s
| reserved_embedded : s <> localhost6 -> Exists (in_block6 s) embedding_blocks6 ->
    reserved4 allow_loopback (embedded s) -> reserved6 allow_loopback s
| reserved_block : s <> localhost6 -> ~ Exists (in_block6 s) embedding_blocks6 ->
    Exists (in_block6 s) special_blocks6 -> reserved6 allow_loopback s.

Lemma if_true_orb (a b : bool) : (if a then true else b) = a || b.
Proof. by destruct a. Qed.

(** The prefix of an address by its octets. *)
Lemma addr4_prefix a b c d : ipv4_wf (ipv4 a b c d) ->
  addr4 (ipv4 a b c d) / 16777216 = a /\ addr4 (ipv4 a b c d) / 65536 = a * 256 + b /\
  addr4 (ipv4 a b c d) / 256 = (a * 256 + b) * 256 + c /\ addr4 (ipv4 a b c d) / 1048576 = a * 16 + b / 16 /\
  addr4 (ipv4 a b c d) / 4194304 = a * 4 + b / 64 /\ addr4 (ipv4 a b c d) / 131072 = a * 128 + b / 2 /\
  addr4 (ipv4 a b c d) / 536870912 = a / 32.
Proof. unfold ipv4_wf, u8_range, addr4. cbn [oct0 oct1 oct2 oct3]. intros Hwf. repeat split; lia. Qed.

(** Prefixes with their powers of two computed. *)
Ltac powers :=
  repeat match goal with
         | |- context [2 ^ (?n - ?len)] =>
             let v := eval vm_compute in (2 ^ (n - len)) in change (2 ^ (n - len)) with v
         end.

Lemma digits256 a b x y : 0 <= b < 256 -> 0 <= y < 256 -> a * 256 + b = x * 256 + y <-> a = x /\ b = y.
Proof. lia. Qed.

Lemma special_v4_blocks allow o : ipv4_wf o -> special_v4 allow o = true <-> reserved4 allow o.
Proof.
  destruct o as [a b c d]. intros Hwf. destruct (addr4_prefix _ _ _ _ Hwf) as (E1 & E2 & E3 & E4 & E5 & E6 & E7).
  unfold special_v4, reserved4, special_blocks4, loopback4. rewrite !if_true_orb, !Exists_cons, Exists_nil.
  unfold in_block4. powers. rewrite E1, E2, E3, E4, E5, E6, E7. clear E1 E2 E3 E4 E5 E6 E7.
  unfold addr4, ipv4_wf, u8_range in *. cbn [oct0 oct1 oct2 oct3] in *. destruct Hwf as (Ha & Hb & Hc & _).
  assert (H172 : a * 16 + b / 16 = 172 * 16 + 1 <-> a = 172 /\ 16 <= b <= 31) by lia.
  assert (H100 : a * 4 + b / 64 = 100 * 4 + 1 <-> a = 100 /\ 64 <= b <= 127) by lia.
  assert (H198 : a * 128 + b / 2 = 198 * 128 + 9 <-> a = 198 /\ (b = 18 \/ b = 19)) by lia.
  assert (H224 : a / 32 = 7 <-> 224 <= a) by lia.
  repeat match goal with
         | |- context [(((?x * 256 + ?y) * 256 + ?z) * 256 + ?w) / ?n] =>
             let v := lazymatch n with
                      | 16777216 => x
                      | 65536 => constr:(x * 256 + y)
                      | 256 => constr:((x * 256 + y) * 256 + z)
                      | 1048576 => let r := eval vm_compute in (y / 16) in constr:(x * 16 + r)
                      | 4194304 => let r := eval vm_compute in (y / 64) in constr:(x * 4 + r)
                      | 131072 => let r := eval vm_compute in (y / 2) in constr:(x * 128 + r)
                      | 536870912 => let r := eval vm_compute in (x / 32) in r
                      end in
             change ((((x * 256 + y) * 256 + z) * 256 + w) / n) with v
         end.
  rewrite H172, H100, H198, H224, !digits256 by lia. clear H172 H100 H198 H224.
  destruct (Z.eqb_spec a 127) as [->|Hl].
  - rewrite negb_true_iff. split; [auto|]. intros Ho. destruct allow; [|done]. exfalso. lia.
  - rewrite !orb_true_iff, !andb_true_iff, !orb_true_iff, !Z.eqb_eq, !Z.leb_le, Z.geb_le. tauto.
Qed.

Lemma horner x g n : u16_range g -> 0 < n -> (x * 65536 + g) / (65536 * n) = x / n.
Proof.
  unfold u16_range. intros Hg Hn. rewrite <- Z.div_div by lia. f_equal. lia.
Qed.

(** The prefix of an address by its segments. *)
Lemma addr6_prefix s0 s1 s2 s3 s4 s5 s6 s7 : Forall u16_range [s0; s1; s2; s3; s4; s5; s6; s7] ->
  let a := addr6 [s0; s1; s2; s3; s4; s5; s6; s7] in
  (forall n, 0 < n -> a / (5192296858534827628530496329220096 * n) = s0 / n) /\
  (forall n, 0 < n -> a / (79228162514264337593543950336 * n) = (s0 * 65536 + s1) / n) /\
  a / 18446744073709551616 = ((s0 * 65536 + s1) * 65536 + s2) * 65536 + s3 /\
  a / 4294967296 = ((((s0 * 65536 + s1) * 65536 + s2) * 65536 + s3) * 65536 + s4) * 65536 + s5.
Proof.
  intros Hf a. repeat (apply Forall_cons in Hf as [? Hf]).
  assert (E2 : forall n, 0 < n -> a / (65536 * (65536 * n)) =
    (((((s0 * 65536 + s1) * 65536 + s2) * 65536 + s3) * 65536 + s4) * 65536 + s5) / n).
  { intros n Hn. subst a. cbn [addr6 foldl]. rewrite !horner by (done || lia). done. }
  split_and!.
  - intros n Hn. replace (5192296858534827628530496329220096 * n)
      with (65536 * (65536 * (65536 * (65536 * (65536 * (65536 * (65536 * n))))))) by lia.
    rewrite E2 by lia. by rewrite !horner by (done || lia).
  - intros n Hn. replace (79228162514264337593543950336 * n)
      with (65536 * (65536 * (65536 * (65536 * (65536 * (65536 * n)))))) by lia.
    rewrite E2 by lia. by rewrite !horner by (done || lia).
  - change 18446744073709551616 with (65536 * (65536 * (65536 * (65536 * 1)))). rewrite E2 by lia.
    rewrite !horner by (done || lia). by rewrite Z.div_1_r.
  - change 4294967296 with (65536 * (65536 * 1)). rewrite E2 by lia. by rewrite Z.div_1_r.
Qed.

(** The masks of the code keep the leading bits. *)
Lemma mask_prefix x k : 0 <= k <= 16 -> u16_range x ->
  Z.land x (Z.land 65535 (Z.lnot (Z.ones k))) = x / 2 ^ k * 2 ^ k.
Proof.
  unfold u16_range. intros Hk Hx. rewrite Z.land_assoc. change 65535 with (Z.ones 16).
  rewrite Z.land_ones, (Z.mod_small x) by lia. rewrite <- Z.ldiff_land, Z.ldiff_ones_r by lia.
  by rewrite Z.shiftl_mul_pow2, Z.shiftr_div_pow2 by lia.
Qed.

(** The prefix of a segment list by its leading segments, for each length the tables use. *)
Lemma block6_prefix s0 s1 s2 s3 s4 s5 s6 s7 : Forall u16_range [s0; s1; s2; s3; s4; s5; s6; s7] ->
  let a := addr6 [s0; s1; s2; s3; s4; s5; s6; s7] in
  a / 2 ^ (128 - 16) = s0 /\ a / 2 ^ (128 - 7) = s0 / 512 /\ a / 2 ^ (128 - 10) = s0 / 64 /\
  a / 2 ^ (128 - 8) = s0 / 256 /\ a / 2 ^ (128 - 23) = (s0 * 65536 + s1) / 512 /\
  a / 2 ^ (128 - 32) = s0 * 65536 + s1 /\
  a / 2 ^ (128 - 64) = ((s0 * 65536 + s1) * 65536 + s2) * 65536 + s3 /\
  a / 2 ^ (128 - 96) = ((((s0 * 65536 + s1) * 65536 + s2) * 65536 + s3) * 65536 + s4) * 65536 + s5.
Proof.
  intros Hf a. destruct (addr6_prefix _ _ _ _ _ _ _ _ Hf) as (P1 & P2 & P4 & P6). fold a in P1, P2, P4, P6.
  split_and!.
  - rewrite <- (Z.div_1_r s0). exact (P1 1 ltac:(lia)).
  - exact (P1 512 ltac:(lia)).
  - exact (P1 64 ltac:(lia)).
  - exact (P1 256 ltac:(lia)).
  - exact (P2 512 ltac:(lia)).
  - rewrite <- (Z.div_1_r (s0 * 65536 + s1)). exact (P2 1 ltac:(lia)).
  - exact P4.
  - exact P6.
Qed.

Lemma digits65536 a b x y : u16_range b -> u16_range y -> a * 65536 + b = x * 65536 + y <-> a = x /\ b = y.
Proof. unfold u16_range. lia. Qed.

Ltac prefixes6 Hf :=
  destruct (block6_prefix _ _ _ _ _ _ _ _ Hf) as (E16 & E7 & E10 & E8 & E23 & E32 & E64 & E96);
  unfold in_block6; rewrite ?E16, ?E7, ?E10, ?E8, ?E23, ?E32, ?E64, ?E96; clear E16 E7 E10 E8 E23 E32 E64 E96;
  repeat match goal with |- context [addr6 ?x / 2 ^ (128 - ?n)] =>
           let v := eval vm_compute in (addr6 x / 2 ^ (128 - n)) in change (addr6 x / 2 ^ (128 - n)) with v end;
  repeat (apply Forall_cons in Hf as [? Hf]); unfold u16_range in *.

Lemma special_v6_blocks s : List.length s = 8%nat -> Forall u16_range s ->
  special_v6 s = true <-> Exists (in_block6 s) special_blocks6.
Proof.
  destruct s as [|s0 [|s1 [|s2 [|s3 [|s4 [|s5 [|s6 [|s7 []]]]]]]]]; try done. intros _ Hf.
  unfold special_v6, special_blocks6, seg. cbn [List.nth]. rewrite !Exists_cons, Exists_nil.
  assert (Hm : u16_range s0) by (by inversion Hf).
  change 65024 with (Z.land 65535 (Z.lnot (Z.ones 9))). change 65472 with (Z.land 65535 (Z.lnot (Z.ones 6))).
  rewrite !mask_prefix, Z.shiftr_div_pow2 by (done || lia). cbn [Z.pow]. prefixes6 Hf.
  change (2 ^ 9) with 512. change (2 ^ 6) with 64. change (2 ^ 8) with 256.
  destruct (Z.eqb_spec s0 0); [lia|]. destruct (Z.eqb_spec s0 100); [lia|].
  destruct (Z.eqb_spec s0 256); [rewrite !andb_true_iff, !Z.eqb_eq; lia|].
  destruct (Z.eqb_spec s0 8193); [rewrite orb_true_iff, Z.ltb_lt, Z.eqb_eq; lia|].
  destruct (Z.eqb_spec s0 8194); [lia|]. rewrite !orb_true_iff, !Z.eqb_eq. lia.
Qed.

Lemma embedding_blocks s : List.length s = 8%nat -> Forall u16_range s ->
  bool_decide (firstn 5 s = [0; 0; 0; 0; 0]) && ((seg s 5 =? 65535) || (seg s 5 =? 0)) = true <->
  Exists (in_block6 s) embedding_blocks6.
Proof.
  destruct s as [|s0 [|s1 [|s2 [|s3 [|s4 [|s5 [|s6 [|s7 []]]]]]]]]; try done. intros _ Hf.
  rewrite andb_true_iff, orb_true_iff, bool_decide_eq_true, !Z.eqb_eq. unfold embedding_blocks6, seg. cbn [List.nth firstn].
  rewrite !Exists_cons, Exists_nil. prefixes6 Hf. split.
  - intros [[= -> -> -> -> ->] [->| ->]]; lia.
  - intros Ho. assert (s0 = 0 /\ s1 = 0 /\ s2 = 0 /\ s3 = 0 /\ s4 = 0 /\ (s5 = 0 \/ s5 = 65535)) as (-> & -> & -> & -> & -> & Hs) by lia.
    split; [done|]. tauto.
Qed.

Lemma seg_range s i : Forall u16_range s -> u16_range (seg s i).
Proof.
  intros Hf. unfold seg. destruct (nth_in_or_default i s 0) as [Hin| ->]; [|unfold u16_range; lia].
  apply list_elem_of_In in Hin. rewrite Forall_forall in Hf. auto.
Qed.

Lemma embedded_wf s : Forall u16_range s -> ipv4_wf (embedded s).
Proof.
  intros Hf. pose proof (seg_range s 6 Hf) as H6. pose proof (seg_range s 7 Hf) as H7.
  unfold ipv4_wf, embedded, u8_range, u16_range in *. cbn [oct0 oct1 oct2 oct3].
  rewrite !Z.shiftr_div_pow2 by lia. change 255 with (Z.ones 8). rewrite !Z.land_ones by lia.
  change (2 ^ 8) with 256. split_and!; lia.
Qed.

(** A literal that names a special-use address. *)
Definition reserved_literal (allow_loopback : bool) (host : string) : Prop :=
  (exists o, parse_ipv4 host = Some o /\ reserved4 allow_loopback o) \/
  (exists s, parse_ipv4 host = None /\ parse_ipv6 host = Some s /\ reserved6 allow_loopback s).

(** The recursion ends after one round: the text of an embedded address is read back. *)
Lemma special_use_reserved fuel host allow : (2 <= fuel)%nat ->
  is_special_use_loop fuel host allow = true <-> reserved_literal allow host.
Proof.
  destruct fuel as [|[|fuel]]; [lia|lia|]. intros _. unfold reserved_literal.
  cbn [is_special_use_loop]. destruct (parse_ipv4 host) as [o|] eqn:H4.
  { apply parse_ipv4_Some in H4 as [Hwf _]. rewrite special_v4_blocks by done. naive_solver. }
  destruct (parse_ipv6 host) as [s|] eqn:H6; [|naive_solver].
  apply parse_ipv6_Some in H6 as [Hlen Hf].
  assert (Hiff : forall b : bool, (b = true <-> reserved6 allow s) ->
    b = true <-> (exists o, None = Some o /\ reserved4 allow o) \/
                 (exists s', @None Ipv4Addr = None /\ Some s = Some s' /\ reserved6 allow s')) by naive_solver.
  apply Hiff. clear Hiff. case_bool_decide as Hl.
  { rewrite negb_true_iff. split; [by intros; apply reserved_localhost|]. by intros []. }
  pose proof (embedding_blocks s Hlen Hf) as He. destruct (_ && _).
  - assert (Exists (in_block6 s) embedding_blocks6) by by apply He.
    rewrite parse_ipv4_display by by apply embedded_wf. rewrite special_v4_blocks by by apply embedded_wf.
    split; [by intros; apply reserved_embedded|]. by intros [].
  - assert (~ Exists (in_block6 s) embedding_blocks6) by (rewrite <- He; done).
    rewrite special_v6_blocks by done. split; [by intros; apply reserved_block|]. by intros [].
Qed.

(** C39. The special-use test is exact.  A host is refused as a literal exactly when it is an
    IPv4 address inside one of the special-use blocks, or an IPv6 address inside one, or
    one that carries an IPv4 address inside one; the loopback addresses count unless they
    are allowed.  The recursion on an embedded address ends: every number of rounds from
    two on gives this answer. *)
Theorem special_use_exact fuel host allow : (2 <= fuel)%nat ->
  (is_special_use_loop fuel host allow = true <-> reserved_literal allow host) /\
  is_special_use_loop fuel host allow = is_special_use_literal host allow.
Proof.
  intros Hf. split; [by apply special_use_reserved|]. apply eq_iff_eq_true.
  rewrite special_use_reserved by done. symmetry. apply (special_use_reserved 2). lia.
Qed.

(** ** What an accepted identifier has shown *)
Lemma authority_split s : s = take_str (authority_len s) s +:+ drop_str (authority_len s) s.
Proof. symmetry. apply Loopback.take_drop_str. Qed.

Definition authority_char (c : ascii) : bool := negb (Ascii.eqb c "/" || Ascii.eqb c "?").

Lemma authority_chars s : str_forall authority_char (take_str (authority_len s) s) = true.
Proof.
  induction s as [|c s IH]; [done|]. cbn [authority_len]. destruct (_ || _) eqn:Hc; [done|].
  cbn [take_str]. rewrite str_forall_cons, IH. unfold authority_char. by rewrite Hc.
Qed.

Lemma authority_len_app a rest : str_forall authority_char a = true ->
  (str_is_empty rest || starts_with "/" rest || starts_with "?" rest = true) ->
  authority_len (a +:+ rest) = str_len a.
Proof.
  intros Ha Hr. induction a as [|c a IH].
  - rewrite str_app_nil_l. destruct rest as [|c rest]; [done|]. cbn in Hr |- *. by rewrite Hr.
  - rewrite str_forall_cons in Ha. apply andb_true_iff in Ha as [Hc Ha]. rewrite str_app_cons. cbn [authority_len].
    apply negb_true_iff in Hc. rewrite Hc. cbn. by rewrite IH.
Qed.

Lemma first_piece_Some c s h : first_piece c s = Some h ->
  h <> EmptyString /\ (s = h \/ exists rest, s = h +:+ String c rest).
Proof.
  assert (Hs : forall s, exists h ws, split_on c s = h :: ws /\ (s = h \/ exists rest, s = h +:+ String c rest)).
  { clear s h. induction s as [|x s IH]; cbn; [by exists EmptyString, []; auto|].
    destruct (Ascii.eqb_spec x c) as [->|Hx].
    - exists EmptyString. eexists. split; [done|]. right. by exists s.
    - destruct IH as (h & ws & -> & [->|[rest ->]]); exists (String x h), ws; (split; [done|]); [by left|].
      right. by exists rest. }
  unfold first_piece. destruct (Hs s) as (h' & ws & -> & Hh). destruct h'; [done|]. by intros [= <-].
Qed.

(** The host is the authority up to its port, or what is between the brackets. *)
Definition host_in (authority host : string) : Prop :=
  authority = host \/ (exists port, authority = host +:+ ":" +:+ port) \/
  authority = "[" +:+ host \/ (exists rest, authority = "[" +:+ host +:+ "]" +:+ rest).

Lemma host_of_Some authority host : host_of authority = Some host -> host <> EmptyString /\ host_in authority host.
Proof.
  unfold host_of, host_in. intros Hh.
  assert (Hcases : first_piece ":" authority = Some host \/
                   exists rest, authority = String "[" rest /\ first_piece "]" rest = Some host).
  { destruct authority as [|[[] [] [] [] [] [] [] []] rest]; try done; eauto. }
  destruct Hcases as [[Hne [->|[rest ->]]]%first_piece_Some|(rest & -> & [Hne [->|[r ->]]]%first_piece_Some)];
    (split; [done|]); eauto 6.
Qed.

(** What is known of an identifier that was accepted. *)
Record identifier (policy : CimdPolicy) (raw authority path host : string) (query : option string) : Prop := {
  id_text : raw = "https://" +:+ authority +:+ path +:+ match query with Some q => "?" +:+ q | None => "" end;
  id_length : (str_len raw <= MAX_CLIENT_ID_URL_BYTES)%nat;
  id_printable : str_forall (in_range 33 126) raw = true /\ contains_char "#" raw = false;
  id_authority : forall c, c ∈ bytes authority -> ~ c ∈ bytes "/?@\%";
  id_path : starts_with "/" path = true /\ forall segment, segment ∈ split_on "/" path -> ~ segment ∈ ["."; ".."];
  id_query : query <> None -> cp_allow_query_string policy = true;
  id_host : host_of authority = Some host /\ host <> EmptyString /\ host_in authority host;
  id_public : ~ reserved_literal (cp_allow_loopback policy) host;
  id_canonical : contains_char ":" host = false -> ends_in_a_number host = true ->
                 exists o, ipv4_wf o /\ host = ipv4_display o /\ ~ reserved4 (cp_allow_loopback policy) o;
}.

Lemma contains_char_false c s : contains_char c s = false -> forall x, x ∈ bytes s -> x <> c.
Proof.
  unfold contains_char. intros Hc x Hx ->. apply not_true_iff_false in Hc. apply Hc, existsb_exists.
  exists c. split; [by apply list_elem_of_In|apply Ascii.eqb_refl].
Qed.

Lemma find_char_Some c s i : find_char c s = Some i ->
  s = take_str i s +:+ String c (drop_str (S i) s).
Proof.
  revert i. induction s as [|x s IH]; cbn; intros i; [done|]. destruct (Ascii.eqb_spec x c) as [->|Hx].
  - intros [= <-]. done.
  - intros (j & Hj & ->)%fmap_Some. cbn [take_str]. rewrite str_app_cons. f_equal. by apply IH.
Qed.

(** The parts after the authority. *)
Lemma after_authority_parts s path query :
  (match find_char "?" s with
   | Some at_ => (take_str at_ s, Some (drop_str (S at_) s))
   | None => (s, None)
   end) = (path, query) ->
  s = path +:+ match query with Some q => "?" +:+ q | None => "" end.
Proof.
  destruct (find_char "?" s) as [i|] eqn:Hf; intros [= <- <-]; [by apply find_char_Some in Hf|].
  by rewrite str_app_nil_r.
Qed.

Lemma path_starts s path query : starts_with "/" s = true ->
  s = path +:+ match query with Some q => "?" +:+ q | None => "" end -> starts_with "/" path = true.
Proof.
  intros Hs ->. destruct path as [|c path]; [|done]. destruct query as [q|]; [|done]. done.
Qed.

Lemma client_id_url_shape raw policy url : client_id_url_parse raw policy = Ok url ->
  url = raw /\ exists authority path host query, identifier policy raw authority path host query.
Proof.
  unfold client_id_url_parse. destruct (Nat.ltb_spec MAX_CLIENT_ID_URL_BYTES (str_len raw)); [done|].
  destruct (str_forall _ raw) eqn:Hasc; [|done]. cbn [negb].
  intros (rest & Hr%ok_or_ok & Hk)%and_then_ok. apply Loopback.strip_prefix_Some in Hr.
  destruct (contains_char "#" raw) eqn:Hfrag; [done|]. cbv zeta in Hk.
  set (authority := take_str _ rest) in *. set (after := drop_str _ rest) in *.
  destruct (contains_char "@" authority) eqn:Hat; [done|].
  destruct (starts_with "/" after) eqn:Hpath; [|done]. cbn [negb] in Hk.
  destruct (match find_char "?" after with Some _ => _ | None => _ end) as [path query] eqn:Hq.
  apply after_authority_parts in Hq.
  destruct (existsb _ (split_on "/" path)) eqn:Hdot; [done|].
  destruct (is_some query && _) eqn:Hquery; [done|].
  apply and_then_ok in Hk as (host & Hhost%ok_or_ok & Hk).
  destruct (_ && is_none (parse_ipv4 host)) eqn:Hnum; [done|].
  destruct (contains_char "\" authority) eqn:Hback; [done|]. destruct (contains_char "%" authority) eqn:Hpc; [done|].
  destruct (is_special_use_literal host _) eqn:Hspecial; [done|]. injection Hk as <-. split; [done|].
  assert (Hpub : ~ reserved_literal (cp_allow_loopback policy) host).
  { rewrite <- (special_use_reserved 2) by lia. unfold is_special_use_literal in Hspecial. by rewrite Hspecial. }
  exists authority, path, host, query. split.
  - rewrite Hr at 1. f_equal. rewrite <- Hq. apply authority_split.
  - done.
  - done.
  - intros c Hc. pose proof (authority_chars rest) as Ha. rewrite str_forall_elem in Ha. specialize (Ha c Hc).
    apply negb_true_iff, orb_false_iff in Ha as [Ha1%Ascii.eqb_neq Ha2%Ascii.eqb_neq].
    pose proof (contains_char_false _ _ Hat c Hc). pose proof (contains_char_false _ _ Hback c Hc).
    pose proof (contains_char_false _ _ Hpc c Hc). cbn. set_solver.
  - split; [by eapply path_starts|]. intros segment Hin Hdots. apply not_true_iff_false in Hdot. apply Hdot, existsb_exists.
    exists segment. split; [by apply list_elem_of_In|]. apply orb_true_iff. rewrite !bool_decide_eq_true. set_solver.
  - intros Hne. destruct query; [|done]. cbn in Hquery. by apply negb_false_iff in Hquery.
  - split; [done|by apply host_of_Some].
  - done.
  - intros Hcol Hends. rewrite Hcol, Hends in Hnum. cbn in Hnum. destruct (parse_ipv4 host) as [o|] eqn:H4; [|done].
    exists o. destruct (parse_ipv4_Some _ _ H4) as [Hwf Htext]. split_and!; [done|done|].
    intros Hres. apply Hpub. left. eauto.
Qed.

(** An accepted client identifier says where it points, and nowhere reserved: it is an
    [https] URL in printable ASCII with an authority free of userinfo, backslashes and
    percent escapes and a path without dot segments; the host is read off the authority,
    is no literal of a special-use address, and when a URL parser would take it for an
    IPv4 address (its last label is a number) it is the canonical dotted quad of an
    address outside the special-use blocks. *)
Theorem client_id_url_sound raw policy url : client_id_url_parse raw policy = Ok url ->
  url = raw /\ exists authority path host query, identifier policy raw authority path host query.
Proof. apply client_id_url_shape. Qed.

(** ** What a validated document has shown *)
Lemma origin_text authority rest : str_forall authority_char authority = true ->
  (str_is_empty rest || starts_with "/" rest || starts_with "?" rest = true) ->
  origin ("https://" +:+ authority +:+ rest) = "https://" +:+ authority.
Proof.
  intros Ha Hr. unfold origin.
  replace (strip_prefix "https://" ("https://" +:+ authority +:+ rest)) with (Some (authority +:+ rest)) by done.
  rewrite authority_len_app, <- str_app_assoc by done. apply take_str_app.
  by rewrite str_len_app.
Qed.

(** A redirect URI that passes the check has the origin of the identifier. *)
Lemma same_origin_origin raw policy url uri : client_id_url_parse raw policy = Ok url ->
  same_origin (origin url) uri = true -> origin uri = origin url.
Proof.
  intros (-> & authority & path & host & query & Hid)%client_id_url_shape.
  destruct Hid as [Htext _ _ Hauth [Hpath _] _ _ _ _].
  assert (Ha : str_forall authority_char authority = true).
  { apply str_forall_elem. intros c Hc. specialize (Hauth c Hc). apply negb_true_iff, orb_false_iff.
    split; apply Ascii.eqb_neq; intros ->; apply Hauth; cbn; set_solver. }
  assert (Ho : origin raw = "https://" +:+ authority).
  { rewrite Htext. apply origin_text; [done|]. destruct path as [|c path]; [done|].
    apply orb_true_iff. left. apply orb_true_iff. by right. }
  rewrite Ho. unfold same_origin. destruct (strip_prefix _ uri) as [rest|] eqn:Hs; [|done].
  apply Loopback.strip_prefix_Some in Hs as ->. rewrite str_app_assoc. by apply origin_text.
Qed.

Lemma document_metadata_ok metadata m : document_metadata metadata = Ok m ->
  ~ unwrap_or (cm_token_endpoint_auth_method m) AUTH_METHOD_BASIC ∈ FORBIDDEN_AUTH_METHODS /\
  cm_redirect_uris m = cm_redirect_uris metadata /\ cm_grant_types m = cm_grant_types metadata /\
  cm_scope m = cm_scope metadata /\ cm_client_name m = cm_client_name metadata.
Proof.
  unfold document_metadata. destruct (cm_token_endpoint_auth_method metadata) as [a|] eqn:Ha.
  - destruct (existsb _ FORBIDDEN_AUTH_METHODS) eqn:He; [done|]. intros [= <-]. split; [|done].
    rewrite Ha. cbn [unwrap_or]. intros Hin. apply not_true_iff_false in He. apply He, existsb_exists.
    exists a. split; [by apply list_elem_of_In|]. by apply bool_decide_eq_true.
  - intros [= <-]. split; [|done]. cbn. unfold FORBIDDEN_AUTH_METHODS, AUTH_METHOD_NONE. set_solver.
Qed.

Section document_facts.
Context (document_from_slice : string -> option ClientIdDocument).

(** C18. A client taken from a metadata document is what the document at its own URL says
    and no more: the document names the URL it was fetched from and carries no secret and
    no key; the client is public, its identifier is the URL, it may not use client
    credentials, and its grants, scopes, name and redirect URIs are exactly the document's (an
    absent list of grants is the authorization code grant).  Its scopes are inside the
    bounds of the policy, and so are its grants, with one exception: the authorization code
    grant taken by default for an absent list is not compared with those bounds.  Each
    redirect URI is of the identifier's own origin where the policy asks for it. *)
Theorem client_id_document_sound raw url body policy v :
  client_id_url_parse raw policy = Ok url ->
  validate_document document_from_slice url body policy = Ok v ->
  exists document, document_from_slice body = Some document /\
    (str_len body <= cp_max_document_bytes policy)%nat /\ cd_client_id document = Some url /\
    cd_client_secret document = None /\ cd_client_secret_expires_at document = None /\
    cd_jwks document = None /\ cd_jwks_uri document = None /\
    c_client_id (to_client v) = url /\ c_auth (to_client v) = Public /\
    ~ ClientCredentials ∈ c_grant_types (to_client v) /\
    (forall g, g ∈ c_grant_types (to_client v) -> g ∈ rc_allowed_grant_types (cp_registration_bounds policy) \/
       cm_grant_types (cd_metadata document) = None /\ g = AuthorizationCode) /\
    grants_asked (cd_metadata document) (c_grant_types (to_client v)) /\
    (forall s, s ∈ c_allowed_scopes (to_client v) -> s ∈ rc_allowed_scopes (cp_registration_bounds policy)) /\
    scopes_asked (cd_metadata document) (c_allowed_scopes (to_client v)) /\
    c_name (to_client v) = cm_client_name (cd_metadata document) /\
    c_redirect_uris (to_client v) = cm_redirect_uris (cd_metadata document) /\
    (cp_redirect_uris_same_origin policy = true ->
     forall u, u ∈ c_redirect_uris (to_client v) -> origin u = origin url).
Proof.
  intros Hurl. unfold validate_document. destruct (Nat.ltb_spec (cp_max_document_bytes policy) (str_len body)); [done|].
  intros (document & Hdoc%ok_or_ok & Hk)%and_then_ok. apply and_then_ok in Hk as (claimed & Hid%ok_or_ok & Hk).
  destruct (claimed != url) eqn:Hc; [done|]. destruct (is_some (cd_client_secret _) || _) eqn:Hsec; [done|].
  destruct (is_some (cd_jwks _) || _) eqn:Hkeys; [done|].
  apply and_then_ok in Hk as (metadata & (Hm & Huris & Hgr & Hsc & Hna)%document_metadata_ok & Hk).
  apply and_then_ok in Hk as (registered & Hval%map_err_ok%validate_ok & Hk).
  destruct (_ && negb _) eqn:Ho; [done|]. injection Hk as <-. bools.
  exists document. destruct Hval as [Hg _ _ [Hu _] Ha Hmeth Hcc Hs Hn Hga Hsa]. cbn.
  repeat match goal with H : is_some ?o = false |- _ => destruct o eqn:?; [done|clear H] end.
  split_and!; try done.
  - by rewrite Hid, Hc.
  - intros Hin. apply Hcc in Hin. apply Hm. rewrite <- Ha. unfold FORBIDDEN_AUTH_METHODS.
    unfold AUTH_METHOD_BASIC, AUTH_METHOD_POST in Hmeth. set_solver.
  - intros g Hin. rewrite <- Hgr. auto.
  - revert Hga. unfold grants_asked. by rewrite Hgr.
  - apply Hs.
  - revert Hsa. unfold scopes_asked. by rewrite Hsc.
  - congruence.
  - congruence.
  - intros Hso u Hin. rewrite Hso in Ho. cbn in Ho. apply negb_false_iff in Ho. rewrite forallb_forall in Ho.
    eapply same_origin_origin; [done|]. apply Ho. by apply list_elem_of_In.
Qed.
End document_facts.

(** ** Evaluation *)
Definition demo_identifier : string := "https://93.184.216.34:8443/app/client.json".
Definition demo_document : ClientIdDocument := {|
  cd_client_id := Some demo_identifier; cd_client_secret := None; cd_client_secret_expires_at := None;
  cd_jwks := None; cd_jwks_uri := None;
  cd_metadata := {| cm_redirect_uris := ["https://93.184.216.34:8443/cb"]; cm_token_endpoint_auth_method := None;
                    cm_grant_types := None; cm_response_types := None; cm_client_name := None;
                    cm_scope := None; cm_software_statement := None |} |}.

(** Spellings of the loopback address, private and mapped addresses, and a public one. *)
Example special_spellings :
  map (fun raw => is_ok (client_id_url_parse raw cimd_policy_new))
    ["https://127.0.0.1/app"; "https://2130706433/app"; "https://0x7f000001/app"; "https://0177.0.0.1/app";
     "https://127.1/app"; "https://127.0.0.1./app"; "https://[::1]/app"; "https://[::ffff:10.0.0.1]/app";
     "https://[fe80::1]:443/app"; "https://a\@b/app"; "https://10%2e0.0.1/app"; "https://[::ffff:93.184.216.34]/app";
     demo_identifier] =
  [false; false; false; false; false; false; false; false; false; false; false; true; true].
Proof. vm_compute. reflexivity. Qed.

Lemma special_use_exact_witness :
  is_special_use_loop 3 "::ffff:169.254.169.254" false = true /\
  reserved_literal false "::ffff:169.254.169.254".
Proof.
  split; [vm_compute; reflexivity|].
  apply (special_use_exact 3 "::ffff:169.254.169.254" false); [lia|]. vm_compute. reflexivity.
Defined.

Lemma client_id_url_sound_witness : exists authority path host query,
  identifier cimd_policy_new demo_identifier authority path host query.
Proof.
  destruct (client_id_url_sound demo_identifier cimd_policy_new demo_identifier) as [_ Hid];
    [vm_compute; reflexivity|]. exact Hid.
Defined.

Lemma client_id_document_sound_witness : exists v,
  validate_document (fun _ => Some demo_document) demo_identifier "{}" cimd_policy_new = Ok v /\
  (forall u, u ∈ c_redirect_uris (to_client v) -> origin u = "https://93.184.216.34:8443").
Proof.
  eexists. split; [vm_compute; reflexivity|].
  edestruct (client_id_document_sound (fun _ => Some demo_document) demo_identifier demo_identifier "{}" cimd_policy_new)
    as (document & _ & _ & _ & _ & _ & _ & _ & _ & _ & _ & _ & _ & _ & _ & _ & _ & Ho); [vm_compute; reflexivity..|].
  exact (Ho eq_refl).
Defined.
