(* ===== verification/Issue.v ===== *)
(** * Issuing tokens (server.rs)

    [issue], the function every grant ends in: it draws the secrets, prepares and
    signs the access token, builds the two records and the response, and commits
    them, either as two puts with an undo or as one rotation; and the idempotent
    retry of a rotation ([commit_refresh_retry], [refresh_retry_response]). *)
From S2P Require Import Prelude Time Codec Scope Types Store StoreFacts Effects Trace Rar Jws Keys Credentials.
From S2P Require Import Config ClientAuthn.
Local Open Scope Z_scope.

(** [RefreshChain]: what a refresh hands on to the next token of the family. *)
Record RefreshChain : Type := {
  rc_family_id : string;
  rc_expires_at : option SystemTime;
  rc_retry : option RefreshTokenRecord;
}.

Definition invalid_grant : ErrorResponse := error_new InvalidGrant.
Definition revoked_while_issuing : ErrorResponse :=
  with_description (error_new InvalidGrant) "the grant was revoked while this token was being issued".

(** [bytes[a..b]] of the 80 bytes of entropy. *)
Definition slice (a b : nat) (s : string) : string := take_str (b - a) (drop_str a s).

Definition certificate_thumbprint (b : Bound) : option CertificateThumbprint :=
  cert_thumbprint <$> cred_certificate (b_cred b).

(** What [issue] is asked for. *)
Record Issuance : Type := {
  is_client : Client;
  is_bound : Bound;
  is_grant_type : GrantType;
  is_grant_established_at : SystemTime;
  is_subject : option string;
  is_scope : ScopeSet;
  is_resource : list string;
  is_details : GrantedDetails;
  is_chain : option RefreshChain;
  is_allow_refresh : bool;
  is_authentication : option Authentication;
  is_actor : option ActClaim;
  is_lifetime_ceiling : option SystemTime;
}.

Section issue.
Context `{Crypto, Serde, Backends} (self : AuthorizationServer).

Definition scope_text (scope : ScopeSet) : option string :=
  then_some (negb (ScopeSet.is_empty scope)) (ScopeSet.display scope).

Definition confirmation (jkt : option string) (x5t : option CertificateThumbprint) : option Confirmation :=
  let cnf := {| cnf_jkt := jkt; cnf_x5t_s256 := x5t |} in
  then_some (negb (cnf_is_empty cnf)) cnf.

(** [access_token_signing_input]: [Ok (inl jti)] for an opaque token, [Ok (inr
    input)] for the text to sign. *)
Definition access_token_signing_input (i : Issuance) (t expires_at : SystemTime) (jti : string)
  : result (string + string) ErrorResponse :=
  match cfg_access_token_format (sv_config self) with
  | OpaqueFormat => Ok (inl jti)
  | JwtFormat jwt =>
      let? exp := ok_or (unix_seconds expires_at) (error_new ServerError) in
      let? iat := ok_or (unix_seconds t) (error_new ServerError) in
      let claims := {|
        atc_iss := issuer_identifier self;
        atc_exp := exp;
        atc_aud := match is_resource i with
                   | [] => jc_audience jwt
                   | [one] => AudOne one
                   | many => AudMany many
                   end;
        atc_sub := unwrap_or (is_subject i) (c_client_id (is_client i));
        atc_client_id := c_client_id (is_client i);
        atc_iat := iat;
        atc_jti := jti;
        atc_scope := scope_text (is_scope i);
        atc_authorization_details := into_details (is_details i);
        atc_auth_time := is_authentication i ≫= (fun a => unix_seconds (auth_time a));
        atc_acr := is_authentication i ≫= acr;
        atc_cnf := confirmation (b_jkt (is_bound i)) (certificate_thumbprint (is_bound i));
        atc_act := is_actor i |} in
      let? input := ok_or (signing_input jwt claims) (error_new ServerError) in
      Ok (inr input)
  end.

(** The lifetime: [access_token_ttl] from now, under the ceiling. *)
Definition access_expiry (i : Issuance) (t : SystemTime) : SystemTime :=
  let ordinary := saturating_deadline t (cfg_access_token_ttl (sv_config self)) in
  match is_lifetime_ceiling i with
  | Some ceiling => Z.min ordinary ceiling
  | None => ordinary
  end.

Definition issues_refresh (i : Issuance) : bool :=
  is_allow_refresh i && cfg_issue_refresh_tokens (sv_config self)
  && allows_grant (is_client i) RefreshToken.

Definition issue_family (i : Issuance) (entropy : string) : option string :=
  match is_chain i, issues_refresh i with
  | Some c, _ => Some (rc_family_id c)
  | None, true => Some (Hex.encode (slice 0 16 entropy))
  | None, false => None
  end.

Definition access_record (i : Issuance) (t expires_at : SystemTime) (access_token : string)
    (family_id : option string) : IssuedToken := {|
  it_access_token := access_token; it_client_id := c_client_id (is_client i);
  it_subject := is_subject i; it_scope := is_scope i; it_resource := is_resource i;
  it_authorization_details := into_details (is_details i); it_issued_at := t;
  it_grant_established_at := is_grant_established_at i; it_expires_at := expires_at;
  it_jkt := b_jkt (is_bound i); it_x5t_s256 := certificate_thumbprint (is_bound i);
  it_family_id := family_id; it_act := is_actor i; it_authentication := is_authentication i |}.

Definition refresh_record (i : Issuance) (t : SystemTime) (rt : string) (family_id : option string)
  : RefreshTokenRecord := {|
  rt_refresh_token := rt; rt_client_id := c_client_id (is_client i); rt_subject := is_subject i;
  rt_scope := is_scope i; rt_resource := is_resource i;
  rt_authorization_details := into_details (is_details i);
  rt_grant_established_at := is_grant_established_at i;
  rt_expires_at := match is_chain i with
                   | Some c => rc_expires_at c
                   | None => saturating_deadline t <$> cfg_refresh_token_ttl (sv_config self)
                   end;
  rt_jkt := b_jkt (is_bound i); rt_x5t_s256 := certificate_thumbprint (is_bound i);
  rt_family_id := unwrap_or family_id EmptyString; rt_state := Active; rt_retry := None;
  rt_authentication := is_authentication i |}.

Definition token_response (i : Issuance) (t expires_at : SystemTime) (access_token : string)
    (refresh : option RefreshTokenRecord) : TokenResponse := {|
  tr_access_token := access_token;
  tr_token_type := match b_jkt (is_bound i) with Some _ => Dpop | None => Bearer end;
  tr_expires_in := as_secs (unwrap_or (duration_since expires_at t) 0);
  tr_refresh_token := rt_refresh_token <$> refresh;
  tr_scope := scope_text (is_scope i);
  tr_authorization_details := into_details (is_details i) |}.

(** [undo_issuance]: best effort, the answer is ignored. *)
Definition undo_issuance (access_token : string) : prog unit :=
  let* _ := store (DeleteToken access_token) in Ret tt.

(** [introspect] *)
Definition introspect (access_token : string) : prog (result (option IssuedToken) StorageError) :=
  let?* found := store (GetToken access_token) in
  match found with
  | None => Ret (Ok None)
  | Some t =>
      let* instant := now in
      Ret (Ok (if instant <? it_expires_at t then Some t else None))
  end.

Definition contains_all (l m : list string) : bool := forallb (fun r => existsb (fun x => x == r) m) l.

(** The checks of [refresh_retry_response] after the token was found. *)
Definition retry_matches (record : RefreshTokenRecord) (client : Client) (token : IssuedToken)
    (requested_scope : option ScopeSet) (requested_resources : list string)
    (requested_details : GrantedDetails) : result unit ErrorResponse :=
  if (it_client_id token != rt_client_id record) || (it_subject token != rt_subject record)
     || (it_family_id token != Some (rt_family_id record))
     || (it_grant_established_at token != rt_grant_established_at record)
  then Err invalid_grant
  else
    let scope := unwrap_or requested_scope (rt_scope record) in
    if negb (ScopeSet.is_subset (rt_scope record) (c_allowed_scopes client)) || (scope != it_scope token)
    then Err (error_new InvalidScope)
    else
      let? resource := narrow_and_permit self (rt_resource record) requested_resources in
      if negb (Nat.eqb (List.length resource) (List.length (it_resource token)))
         || negb (contains_all resource (it_resource token))
      then Err (error_new InvalidTarget)
      else
        let? details := gd_narrow (gd_of (rt_authorization_details record)) requested_details in
        if details != gd_of (it_authorization_details token)
        then Err (error_new InvalidAuthorizationDetails)
        else Ok tt.

(** [response.expires_in = token.expires_at - now] *)
Definition with_expires_in (r : TokenResponse) (secs : Z) : TokenResponse := {|
  tr_access_token := tr_access_token r; tr_token_type := tr_token_type r; tr_expires_in := secs;
  tr_refresh_token := tr_refresh_token r; tr_scope := tr_scope r;
  tr_authorization_details := tr_authorization_details r |}.

Definition refresh_retry_response (record : RefreshTokenRecord) (client : Client) (bound : Bound)
    (requested_scope : option ScopeSet) (requested_resources : list string)
    (requested_details : GrantedDetails) : prog (result (option TokenResponse) ErrorResponse) :=
  match rt_retry record with
  | None => Ret (Ok None)
  | Some retry =>
      let* t := now in
      if t >=? rtr_until retry then Ret (Ok None)
      else if (rt_client_id record != c_client_id client)
              || is_some_and (rt_expires_at record) (fun expiry => t >=? expiry)
      then Ret (Err invalid_grant)
      else if option_or (rtr_jkt retry) (rt_jkt record) != b_jkt bound
      then Ret (Err (error_new InvalidDpopProof))
      else if rt_x5t_s256 record != certificate_thumbprint bound then Ret (Err invalid_grant)
      else
        let* found := introspect (tr_access_token (rtr_response retry)) in
        let?! live := map_err storage_error found in
        let?! token := ok_or live invalid_grant in
        let?! _ := retry_matches record client token requested_scope requested_resources requested_details in
        let?* _ :=
          (match tr_refresh_token (rtr_response retry) with
           | Some next =>
               let?* found := store_or storage_error (GetRefreshToken next) in
               let?! next := ok_or found invalid_grant in
               if (rt_state next != Active) || (rt_family_id next != rt_family_id record)
               then Ret (Err invalid_grant) else Ret (Ok tt)
           | None => Ret (Ok tt)
           end) in
        let* t' := now in
        Ret (Ok (Some (with_expires_in (rtr_response retry)
                         (as_secs (unwrap_or (duration_since (it_expires_at token) t') 0)))))
  end.

Definition with_retry (r : RefreshTokenRecord) (retry : RefreshTokenRetry) : RefreshTokenRecord :=
  rt_update r (rt_state r) (rt_expires_at r) (Some retry).

(** [Ok None]: the rotation was committed; [Ok (Some r)]: another request had
    committed the same rotation, and [r] is its answer. *)
Definition commit_refresh_retry (expected : RefreshTokenRecord) (access : IssuedToken)
    (next : option RefreshTokenRecord) (response : TokenResponse) (client : Client) (bound : Bound)
  : prog (result (option TokenResponse) ErrorResponse) :=
  let until := Z.min (Z.min (saturating_deadline (it_issued_at access)
                               (cfg_refresh_retry_window (sv_config self)))
                        (it_expires_at access))
                 (unwrap_or (rt_expires_at expected) (it_expires_at access)) in
  let retry := {| rtr_response := response; rtr_until := until; rtr_jkt := b_jkt bound |} in
  let spent := rt_update expected Spent
                 (option_or (rt_expires_at expected)
                    (Some (saturating_deadline (it_issued_at access)
                             (cfg_refresh_reuse_window (sv_config self)))))
                 (Some retry) in
  let next := (fun n => with_retry n retry) <$> next in
  let?* rotated := store_or storage_error (RotateRefreshToken expected spent access next) in
  if rotated then Ret (Ok None)
  else
    let?* found := store_or storage_error (GetRefreshToken (rt_refresh_token expected)) in
    let?! current := ok_or found invalid_grant in
    let?* answer := refresh_retry_response current client bound (Some (it_scope access))
                      (it_resource access) (gd_of (it_authorization_details access)) in
    Ret (match answer with Some r => Ok (Some r) | None => Err invalid_grant end).

(** The commit of an issuance without a retry: the access token, then the refresh
    token; a refused refresh token takes the access token back. *)
Definition commit_issuance (access : IssuedToken) (refresh : option RefreshTokenRecord)
  : prog (result unit ErrorResponse) :=
  let?* outcome := store_or storage_error (PutToken access) in
  if is_refused outcome then Ret (Err revoked_while_issuing)
  else match refresh with
  | None => Ret (Ok tt)
  | Some record =>
      let?* outcome := store_or storage_error (PutRefreshToken record) in
      if is_refused outcome then
        let* _ := undo_issuance (it_access_token access) in
        Ret (Err revoked_while_issuing)
      else Ret (Ok tt)
  end.

Definition issue (i : Issuance) : prog (result TokenResponse ErrorResponse) :=
  let* t := now in
  let expires_at := access_expiry i t in
  let* drawn := rand 80 in
  let?! entropy := ok_or drawn randomness_error in
  let family_id := issue_family i entropy in
  let jti := Hex.encode (slice 16 48 entropy) in
  let?! prepared := access_token_signing_input i t expires_at jti in
  let?* access_token :=
    (match prepared with
     | inl opaque => Ret (Ok opaque)
     | inr input =>
         let* signed := finish_signing input in
         Ret (ok_or signed (error_new ServerError))
     end) in
  let access := access_record i t expires_at access_token family_id in
  let refresh := then_some (issues_refresh i)
                   (refresh_record i t (Hex.encode (slice 48 80 entropy)) family_id) in
  let response := token_response i t expires_at access_token refresh in
  let?* recovered :=
    (match is_chain i ≫= rc_retry with
     | Some expected => commit_refresh_retry expected access refresh response (is_client i) (is_bound i)
     | None =>
         let?* _ := commit_issuance access refresh in
         Ret (Ok None)
     end) in
  match recovered with
  | Some r => Ret (Ok r)
  | None =>
      let* _ := emit (sv_hooks self) (TokenIssued (c_client_id (is_client i)) (is_grant_type i)
                  (is_subject i) (is_scope i) family_id (is_some (tr_refresh_token response))) in
      Ret (Ok response)
  end.

(** ** What an issuance leaves behind *)

(** The two records an answer stands for: the access token of the answer, dated [t],
    and the refresh token it names. *)
Definition records_of (i : Issuance) (r : TokenResponse) (access : IssuedToken)
    (refresh : option RefreshTokenRecord) : Prop :=
  exists t entropy,
    access = access_record i t (access_expiry i t) (tr_access_token r) (issue_family i entropy) /\
    refresh = then_some (issues_refresh i)
                (refresh_record i t (Hex.encode (slice 48 80 entropy)) (issue_family i entropy)) /\
    r = token_response i t (access_expiry i t) (tr_access_token r) refresh.

(** The store accepted both before the answer was given. *)
Definition committed (i : Issuance) (tr : list Act) (r : TokenResponse) : Prop :=
  exists access refresh, records_of i r access refresh /\
    match is_chain i ≫= rc_retry with
    | None => AStore (PutToken access) (Ok Applied) ∈ tr /\
              forall record, refresh = Some record -> AStore (PutRefreshToken record) (Ok Applied) ∈ tr
    | Some expected => exists spent next,
              AStore (RotateRefreshToken expected spent access next) (Ok true) ∈ tr /\
              rt_state spent = Spent /\ (is_some next = is_some refresh)
    end.

(** A stored answer stands for its access token: same client, subject, family and grant,
    and exactly the scope, resources and details asked for now. *)
Record retry_agrees (record : RefreshTokenRecord) (client : Client) (token : IssuedToken)
    (requested : option ScopeSet) (resources : list string) (details : GrantedDetails) : Prop := {
  ra_grant : it_client_id token = rt_client_id record /\ it_subject token = rt_subject record /\
             it_family_id token = Some (rt_family_id record) /\
             it_grant_established_at token = rt_grant_established_at record;
  ra_registered : ScopeSet.is_subset (rt_scope record) (c_allowed_scopes client) = true;
  ra_scope : it_scope token = unwrap_or requested (rt_scope record);
  ra_resource : exists resource, narrow_and_permit self (rt_resource record) resources = Ok resource /\
                List.length resource = List.length (it_resource token) /\
                forall v, v ∈ resource -> v ∈ it_resource token;
  ra_details : gd_narrow (gd_of (rt_authorization_details record)) details =
               Ok (gd_of (it_authorization_details token));
}.

(** Or, on a rotation that was already committed, the answer is the stored one.  What
    [refresh_retry_response] has then established: the retry window is open and the chain
    unexpired; the record is the client's and the binding presented is the stored one; the
    stored access token is read, unexpired, of the same client, subject, family and grant;
    the scope, resources and details asked for are exactly those it was issued with; and the
    successor in the answer is unspent, in the same family. *)
Record retry_of (record : RefreshTokenRecord) (client : Client) (bound : Bound)
    (requested : option ScopeSet) (resources : list string) (details : GrantedDetails)
    (retry : RefreshTokenRetry) (token : IssuedToken) (tr : list Act) (r : TokenResponse) : Prop := {
  ry_stored : rt_retry record = Some retry;
  ry_window : exists t, ANow t ∈ tr /\ t < rtr_until retry /\ forall e, rt_expires_at record = Some e -> t < e;
  ry_client : rt_client_id record = c_client_id client;
  ry_key : option_or (rtr_jkt retry) (rt_jkt record) = b_jkt bound;
  ry_certificate : rt_x5t_s256 record = certificate_thumbprint bound;
  ry_token : AStore (GetToken (tr_access_token (rtr_response retry))) (Ok (Some token)) ∈ tr;
  ry_live : exists t, ANow t ∈ tr /\ t < it_expires_at token;
  ry_agrees : retry_agrees record client token requested resources details;
  ry_successor : forall next, tr_refresh_token (rtr_response retry) = Some next ->
                 exists n, AStore (GetRefreshToken next) (Ok (Some n)) ∈ tr /\ rt_state n = Active /\
                           rt_family_id n = rt_family_id record;
  ry_answer : exists t, ANow t ∈ tr /\
              r = with_expires_in (rtr_response retry)
                    (as_secs (unwrap_or (duration_since (it_expires_at token) t) 0));
}.

Definition replayed_retry (record : RefreshTokenRecord) (client : Client) (bound : Bound)
    (requested : option ScopeSet) (resources : list string) (details : GrantedDetails)
    (tr : list Act) (r : TokenResponse) : Prop :=
  exists retry token, retry_of record client bound requested resources details retry token tr r.

Lemma replayed_retry_mono record client bound requested resources details tr tr' r : tr ⊆ tr' ->
  replayed_retry record client bound requested resources details tr r ->
  replayed_retry record client bound requested resources details tr' r.
Proof. intros Hsub (retry & token & []). exists retry, token. split; naive_solver. Qed.

Lemma introspect_exec token tr t : exec (introspect token) tr (Ok (Some t)) ->
  exists instant, AStore (GetToken token) (Ok (Some t)) ∈ tr /\ ANow instant ∈ tr /\ instant < it_expires_at t.
Proof.
  unfold introspect. intros Hex. apply exec_bind_ok in Hex as [(tr1 & tr2 & found & -> & Hget & Hex)|(? & [=] & _)].
  apply exec_store in Hget as ->. destruct found as [t'|]; [|by exec_inv].
  apply exec_bind in Hex as (tr3 & tr4 & instant & -> & ->%exec_now & [-> Ht]).
  destruct (Z.ltb_spec instant (it_expires_at t')); [|done]. injection Ht as <-.
  exists instant. split_and!; [in_trace|in_trace|done].
Qed.

Lemma contains_all_in l m : contains_all l m = true -> forall v, v ∈ l -> v ∈ m.
Proof.
  unfold contains_all. rewrite forallb_forall. intros Hall v Hv%list_elem_of_In.
  by apply existsb_elem, Hall.
Qed.

Lemma retry_matches_ok record client token requested resources details :
  retry_matches record client token requested resources details = Ok tt ->
  retry_agrees record client token requested resources details.
Proof.
  unfold retry_matches. destruct (_ || _ || _ || _) eqn:Hg; [done|]. cbv zeta.
  destruct (negb (ScopeSet.is_subset _ _) || _) eqn:Hs; [done|]. intros (resource & Hn & Hok)%and_then_ok.
  revert Hok. destruct (negb (Nat.eqb _ _) || _) eqn:Hr; [done|]. intros (granted & Hd & Hok)%and_then_ok.
  revert Hok. destruct (bool_decide_reflect (granted = gd_of (it_authorization_details token))); [|done].
  bools. split; [done|done|congruence| |congruence].
  exists resource. split_and!; [done|by apply Nat.eqb_eq|by apply contains_all_in].
Qed.

(** The successor named in the stored answer is still good. *)
Lemma retry_successor_exec (family : string) (response : option string) tr :
  exec (match response with
        | Some next =>
            let?* found := store_or storage_error (GetRefreshToken next) in
            let?! next := ok_or found invalid_grant in
            if (rt_state next != Active) || (rt_family_id next != family)
            then Ret (Err invalid_grant) else Ret (Ok tt)
        | None => Ret (Ok tt)
        end) tr (Ok tt) ->
  forall next, response = Some next ->
  exists n, AStore (GetRefreshToken next) (Ok (Some n)) ∈ tr /\ rt_state n = Active /\ rt_family_id n = family.
Proof.
  intros Hex next ->. do 2 exec_step.
  destruct (_ || _) eqn:Hbad in Hex; exec_inv. bools. simplify_eq. eexists. split_and!; [in_trace|done|done].
Qed.

Lemma refresh_retry_exec record client bound requested resources details tr r :
  exec (refresh_retry_response record client bound requested resources details) tr (Ok (Some r)) ->
  replayed_retry record client bound requested resources details tr r.
Proof.
  unfold refresh_retry_response. intros Hex. destruct (rt_retry record) as [retry|] eqn:Hr; [|by exec_inv].
  apply exec_bind in Hex as (tr1 & tr2 & t & -> & ->%exec_now & Hex).
  do 4 (exec_step; [by exec_inv|]).
  apply exec_bind in Hex as (tr3 & tr4 & found & -> & Hlive & Hex).
  apply exec_lift_ok in Hex as [(live & Hfound & Hex)|(? & _ & [=] & _)].
  apply exec_lift_ok in Hex as [(token & ->%ok_or_ok & Hex)|(? & _ & [=] & _)].
  apply exec_lift_ok in Hex as [([] & Hok & Hex)|(? & _ & [=] & _)].
  apply exec_bind_ok in Hex as [(tr5 & tr6 & [] & -> & Hsucc & Hex)|(? & [=] & _)].
  apply exec_bind in Hex as (tr7 & tr8 & t' & -> & ->%exec_now & [-> [= ->]]).
  destruct found as [found|]; [|done]. injection Hfound as ->.
  apply introspect_exec in Hlive as (instant & Hget & Hnow & Hlt). apply retry_matches_ok in Hok.
  bools. exists retry, token. split; [done| |done|done|done|in_trace|exists instant; split; [in_trace|done]|done| |].
  - exists t. split_and!; [in_trace|lia|]. intros e He.
    match goal with H : is_some_and _ _ = false |- _ => rewrite He in H; cbn in H end. bools. lia.
  - intros next Hnext. destruct (retry_successor_exec _ _ _ Hsucc next Hnext) as (n & Hn & Hst).
    exists n. split; [in_trace|done].
  - exists t'. split; [in_trace|done].
Qed.

Lemma commit_issuance_exec access refresh tr :
  exec (commit_issuance access refresh) tr (Ok tt) ->
  AStore (PutToken access) (Ok Applied) ∈ tr /\
  forall record, refresh = Some record -> AStore (PutRefreshToken record) (Ok Applied) ∈ tr.
Proof.
  assert (Happ : forall o, is_refused o = false -> o = Applied) by (by intros []).
  unfold commit_issuance. intros Hex. exec_step. exec_step. exec_step; [by exec_inv|].
  apply Happ in Heqb as ->. destruct refresh as [record|]; exec_inv.
  - apply Happ in Heqb as ->. split; [in_trace|]. intros ? [= <-]. in_trace.
  - split; [in_trace|done].
Qed.

Lemma commit_refresh_retry_exec expected access next response client bound tr o :
  exec (commit_refresh_retry expected access next response client bound) tr (Ok o) ->
  match o with
  | None => exists spent next', AStore (RotateRefreshToken expected spent access next') (Ok true) ∈ tr /\
              rt_state spent = Spent /\ is_some next' = is_some next
  | Some r => exists current,
      AStore (GetRefreshToken (rt_refresh_token expected)) (Ok (Some current)) ∈ tr /\
      replayed_retry current client bound (Some (it_scope access)) (it_resource access)
        (gd_of (it_authorization_details access)) tr r
  end.
Proof.
  unfold commit_refresh_retry. intros Hex. do 2 exec_step. exec_step.
  - exec_inv. do 2 eexists. split_and!; [in_trace|done|by destruct next].
  - do 2 exec_step. exec_step. exec_step.
    rename select (exec (refresh_retry_response _ _ _ _ _ _) _ _) into Hr. exec_inv. destruct a1 as [r|]; [|done].
    simplify_eq. apply refresh_retry_exec in Hr. eexists. split; [in_trace|].
    eapply replayed_retry_mono; [|done]. intros y Hy. in_trace.
Qed.

Lemma issue_exec i tr r : exec (issue i) tr (Ok r) ->
  committed i tr r \/
  exists expected current, is_chain i ≫= rc_retry = Some expected /\
    AStore (GetRefreshToken (rt_refresh_token expected)) (Ok (Some current)) ∈ tr /\
    replayed_retry current (is_client i) (is_bound i) (Some (is_scope i)) (is_resource i)
      (gd_of (into_details (is_details i))) tr r.
Proof.
  unfold issue. intros Hex.
  apply exec_bind in Hex as (tr1 & tr2 & t & -> & _ & Hex).
  apply exec_bind in Hex as (tr3 & tr4 & drawn & -> & _ & Hex).
  apply exec_lift_ok in Hex as [(entropy & _ & Hex)|(? & _ & [=] & _)].
  apply exec_lift_ok in Hex as [(prepared & _ & Hex)|(? & _ & [=] & _)].
  apply exec_bind_ok in Hex as [(tr5 & tr6 & token & -> & _ & Hex)|(? & [=] & _)].
  apply exec_bind_ok in Hex as [(tr7 & tr8 & recovered & -> & Hc & Hex)|(? & [=] & _)].
  set (family := issue_family i entropy) in *.
  set (refresh := then_some _ _) in *.
  assert (Hrec : records_of i (token_response i t (access_expiry i t) token refresh)
                   (access_record i t (access_expiry i t) token family) refresh)
    by (exists t, entropy; done).
  unfold committed. destruct (is_chain i ≫= rc_retry) as [expected|] eqn:Hr.
  - apply commit_refresh_retry_exec in Hc. destruct recovered as [r0|].
    + exec_inv. destruct Hc as (current & Hget & Hrep). right. exists expected, current.
      split_and!; [done|in_trace|]. eapply replayed_retry_mono; [|exact Hrep]. intros x Hx. in_trace.
    + exec_inv. destruct Hc as (spent & next & Hrot & Hs & Hn). left.
      do 2 eexists. split; [exact Hrec|]. exists spent, next. split_and!; [in_trace|done|done].
  - exec_step. exec_step. rename select (exec (commit_issuance _ _) _ _) into Hci. destruct a.
    apply commit_issuance_exec in Hci as [Hput Hputr]. subst. exec_inv. left.
    do 2 eexists. split; [exact Hrec|]. split; [in_trace|]. intros record Hrf. specialize (Hputr _ Hrf). in_trace.
Qed.

Lemma committed_mono i tr tr' r : tr ⊆ tr' -> committed i tr r -> committed i tr' r.
Proof.
  intros Hsub (access & refresh & Hrec & Hst). exists access, refresh. split; [done|].
  destruct (is_chain i ≫= rc_retry); [|naive_solver].
  destruct Hst as (spent & next & Hrot & Hrest). exists spent, next. split; [by apply Hsub|done].
Qed.

(** The refusal of the second half takes the first half back. *)
Lemma undo_restores g k t : mi_tokens g !! k = None ->
  set_tokens (delete k (mi_tokens (set_tokens (<[k := t]> (mi_tokens g)) g)))
    (set_tokens (<[k := t]> (mi_tokens g)) g) = g.
Proof. intros Hk. destruct g; cbn in *. unfold set_tokens; cbn. by rewrite delete_insert_id. Qed.

(** C27. Committing an issuance is all or nothing.  With a storage that answers, either both
    records are in the store afterwards and the answer is a success, or the answer is
    [invalid_grant] (the grant was revoked while the token was being issued) and the store
    is exactly what it was: a refused refresh token takes its access token back. *)
Theorem commit_issuance_all_or_nothing `{HashOrder} env access refresh w :
  (forall n, env_fault env n = None) -> mi_tokens (w_store w) !! it_access_token access = None ->
  let (r, w') := run env (commit_issuance access refresh) w in
  match r with
  | Ok _ =>
      mi_tokens (w_store w') = <[it_access_token access := access]> (mi_tokens (w_store w)) /\
      mi_refresh (w_store w') = match refresh with
                                | Some rec => <[rt_refresh_token rec := rec]> (mi_refresh (w_store w))
                                | None => mi_refresh (w_store w)
                                end
  | Err e => e = revoked_while_issuing /\ w_store w' = w_store w
  end.
Proof.
  intros Hf Hk. unfold commit_issuance. cbn. unfold store_call. rewrite Hf. cbn.
  unfold MemoryStorage.put_token. destruct (is_revoked (w_store w) (it_client_id access) _ _ _); cbn; [done|].
  destruct refresh as [rec|]; cbn; [|done]. unfold store_call. cbn. rewrite Hf. cbn.
  unfold MemoryStorage.put_refresh_token. destruct (is_revoked _ (rt_client_id rec) _ _ _); cbn; [|done].
  unfold store_call. cbn. rewrite Hf. cbn. split; [done|]. by apply undo_restores.
Qed.

(** No token leaves the server before the store has accepted it.  In every execution of
    [issue] that answers with a token (outside the retry of a rotation), the store had
    accepted an access-token record for exactly that token: the client, subject, scope and
    resources asked for, expiring at the configured lifetime and never after the ceiling;
    and a refresh token in the answer had been accepted too, in the same family, with the
    same scope, for a client registered for the refresh grant. *)
Theorem issued_tokens_were_stored i tr r :
  exec (issue i) tr (Ok r) -> is_chain i ≫= rc_retry = None ->
  exists access t, AStore (PutToken access) (Ok Applied) ∈ tr /\
    it_access_token access = tr_access_token r /\ it_client_id access = c_client_id (is_client i) /\
    it_subject access = is_subject i /\ it_scope access = is_scope i /\ it_resource access = is_resource i /\
    it_expires_at access <= saturating_deadline t (cfg_access_token_ttl (sv_config self)) /\
    (forall ceiling, is_lifetime_ceiling i = Some ceiling -> it_expires_at access <= ceiling) /\
    tr_expires_in r = as_secs (unwrap_or (duration_since (it_expires_at access) t) 0) /\
    (forall rt, tr_refresh_token r = Some rt ->
       exists rec, AStore (PutRefreshToken rec) (Ok Applied) ∈ tr /\ rt_refresh_token rec = rt /\
         rt_scope rec = is_scope i /\ rt_client_id rec = c_client_id (is_client i) /\
         it_family_id access = Some (rt_family_id rec) /\
         allows_grant (is_client i) RefreshToken = true).
Proof.
  intros [(access & refresh & (t & entropy & -> & Hrf & Hr) & Hst)|(e & c & He & _)]%issue_exec Hn;
    [|congruence].
  rewrite Hn in Hst. destruct Hst as [Hput Hputr].
  exists (access_record i t (access_expiry i t) (tr_access_token r) (issue_family i entropy)), t.
  split_and!; try done; cbn.
  - unfold access_expiry. destruct (is_lifetime_ceiling i); lia.
  - unfold access_expiry. intros ceiling ->. lia.
  - by rewrite Hr.
  - intros rt Hrt. rewrite Hr in Hrt. cbn in Hrt. destruct refresh as [rec|]; [|done]. injection Hrt as <-.
    unfold then_some in Hrf. destruct (issues_refresh i) eqn:Hi; [|done]. injection Hrf as ->.
    eexists. split_and!; [by apply Hputr|done..| |]; cbn.
    + unfold issue_family. rewrite Hi. by destruct (is_chain i).
    + unfold issues_refresh in Hi. by bools.
Qed.
End issue.

(** ** Evaluation *)
Definition demo_access : IssuedToken := {|
  it_access_token := "at"; it_client_id := "app"; it_subject := Some "alice"; it_scope := ["read"];
  it_resource := []; it_authorization_details := []; it_issued_at := from_secs 90;
  it_grant_established_at := from_secs 90; it_expires_at := from_secs 5000; it_jkt := None;
  it_x5t_s256 := None; it_family_id := Some "family"; it_act := None; it_authentication := None |}.
Definition demo_refresh_record (state : RefreshTokenState) : RefreshTokenRecord := {|
  rt_refresh_token := "rt"; rt_client_id := "app"; rt_subject := Some "alice"; rt_scope := ["read"; "write"];
  rt_resource := []; rt_authorization_details := []; rt_grant_established_at := from_secs 90;
  rt_expires_at := None; rt_jkt := None; rt_x5t_s256 := None; rt_family_id := "family";
  rt_state := state; rt_retry := None; rt_authentication := None |}.
Definition demo_bound : Bound := {| b_cred := demo_cred (Some "s3cret"); b_jkt := None |}.
Definition demo_issuance : Issuance := {|
  is_client := demo_client; is_bound := demo_bound; is_grant_type := AuthorizationCode;
  is_grant_established_at := from_secs 90; is_subject := Some "alice"; is_scope := ["read"];
  is_resource := []; is_details := gd_of []; is_chain := None; is_allow_refresh := true;
  is_authentication := None; is_actor := None; is_lifetime_ceiling := Some (from_secs 200) |}.
(** The store of a running server: the client and one grant's tokens. *)
Definition demo_token_store (state : RefreshTokenState) : MemoryInner :=
  run_ops [any (PutClient demo_client); any (PutToken demo_access); any (PutRefreshToken (demo_refresh_record state))]
    mi_empty.

Lemma commit_issuance_all_or_nothing_witness :
  mi_tokens (w_store (snd (run demo_env (commit_issuance demo_access (Some (demo_refresh_record Active)))
    (world_of mi_empty)))) !! "at"%string = Some demo_access.
Proof.
  pose proof (commit_issuance_all_or_nothing demo_env demo_access (Some (demo_refresh_record Active)) (world_of mi_empty)
    (fun _ => eq_refl) eq_refl) as Hc.
  destruct Hc as [Ht _]. exact (f_equal (fun m => m !! "at"%string) Ht).
Defined.

Lemma issued_tokens_were_stored_witness : exists (tr : list Act) access,
  AStore (PutToken access) (Ok Applied) ∈ tr /\ it_expires_at access <= from_secs 200.
Proof.
  destruct (run_exec_ok demo_env (@issue plain_crypto no_backends demo_server demo_issuance) (world_of mi_empty))
    as (tr & r & Htr); [vm_compute; reflexivity|].
  destruct (@issued_tokens_were_stored plain_crypto no_backends demo_server demo_issuance tr r Htr eq_refl)
    as (access & t & Hput & _ & _ & _ & _ & _ & _ & Hceiling & _).
  exists tr, access. split; [exact Hput|]. by apply Hceiling.
Defined.
