(* ===== verification/Device.v ===== *)
(** * The device grant (server.rs)

    The device authorization endpoint, the user's decision, and the polling token
    request of RFC 8628. *)
From S2P Require Import Prelude Time Codec Scope Types Store StoreFacts Effects Rar Jws Credentials Config.
From S2P Require Import ClientAuthn Issue.
Local Open Scope Z_scope.

Inductive DeviceApprovalError : Type :=
| UnknownUserCode | Expired | NotPending | DeviceRateLimited | DeviceStorage (e : StorageError).
#[global] Instance DeviceApprovalError_eq_dec : EqDecision DeviceApprovalError. Proof. solve_decision. Defined.

Definition USER_CODE_GENERATION_ATTEMPTS : nat := 8.

(** The loop [while out.len() < len], one 64-byte draw per turn.  The source bounds
    neither the number of draws nor, with it, this loop; [draws] bounds it here, and
    running out is reported like a failed draw. *)
Fixpoint random_user_code (draws : nat) (len : nat) (out : string) : prog (option string) :=
  if Nat.ltb (str_len out) len then
    match draws with
    | O => Ret None
    | S draws' =>
        let* buf := rand 64 in
        match buf with
        | None => Ret None
        | Some buf => random_user_code draws' len (UserCode.absorb len out (bytes buf))
        end
    end
  else Ret (Some out).

(** Draws allowed for one code: one per symbol, enough by [random_user_code_produces]. *)
Definition USER_CODE_DRAWS (len : nat) : nat := len.

(** The sampling of a user code ends.  The bound on the draws is enough: as long as each 64-byte draw succeeds and has one byte the
    rejection sampling accepts (fifteen in sixteen are), [len] draws produce a code
    of exactly [len] symbols of the alphabet. *)
Theorem random_user_code_produces `{HashOrder} env len w :
  (forall n, exists buf, env_rand env n 64 = Some buf /\
     Exists (fun b => is_Some (UserCode.user_code_symbol b)) (bytes buf)) ->
  exists code, fst (run env (random_user_code (USER_CODE_DRAWS len) len EmptyString) w) = Some code /\
    str_len code = len /\ str_forall UserCode.symbol_ok code = true.
Proof.
  intros Hdraw. unfold USER_CODE_DRAWS.
  enough (Hgen : forall draws out w, (str_len out <= len)%nat -> str_forall UserCode.symbol_ok out = true ->
    (len <= str_len out + draws)%nat ->
    exists code, fst (run env (random_user_code draws len out) w) = Some code /\
      str_len code = len /\ str_forall UserCode.symbol_ok code = true)
    by (apply Hgen; [apply Nat.le_0_l|done|cbn; lia]).
  clear w. induction draws as [|draws IH]; intros out w Hlen Hok Hd; cbn [random_user_code];
    (destruct (Nat.ltb_spec (str_len out) len); [|exists out; split_and!; [done|lia|done]]); [lia|].
  destruct (Hdraw (w_step w)) as (buf & Hb & Hex). cbn. rewrite Hb.
  pose proof (UserCode.absorb_grows len (bytes buf) out ltac:(lia) Hok Hex).
  destruct (UserCode.absorb_spec len (bytes buf) out Hlen Hok) as [[? ?] ?]. apply IH; [lia|done|lia].
Qed.

(** An environment whose every draw is the byte [B]. *)
Definition letters_env : Env := {|
  env_clock := env_clock demo_env; env_rand _ n := Some (repeat_char "B" n); env_check := env_check demo_env;
  env_fault := env_fault demo_env; env_sign := env_sign demo_env |}.
Lemma random_user_code_produces_witness :
  exists code, fst (run letters_env (random_user_code (USER_CODE_DRAWS 8) 8 EmptyString) (world_of mi_empty)) = Some code /\
    str_len code = 8%nat.
Proof.
  destruct (@random_user_code_produces listing_order letters_env 8 (world_of mi_empty)) as (code & Hrun & Hlen & _).
  - intros n. eexists. split; [reflexivity|]. vm_compute. left. eexists. reflexivity.
  - exists code. split; [exact Hrun|exact Hlen].
Defined.

Section device.
Context `{Crypto, Serde, Backends} (self : AuthorizationServer).
Let cfg := sv_config self.
Let hooks := sv_hooks self.

(** The [for] loop of [unique_user_code]. *)
Fixpoint unique_user_code_loop (attempts len : nat) : prog (result string ErrorResponse) :=
  match attempts with
  | O => Ret (Err (with_description (error_new ServerError) "could not allocate an unused user code"))
  | S attempts' =>
      let* drawn := random_user_code (USER_CODE_DRAWS len) len EmptyString in
      let?! raw := ok_or drawn randomness_error in
      let?* found := store_or storage_error (FindDeviceGrantByUserCode raw) in
      if is_none found then Ret (Ok (UserCode.display_user_code raw))
      else unique_user_code_loop attempts' len
  end.

Definition unique_user_code : prog (result string ErrorResponse) :=
  unique_user_code_loop USER_CODE_GENERATION_ATTEMPTS
    (Nat.max (cfg_user_code_length cfg) UserCode.MIN_USER_CODE_LENGTH).

Definition device_authorization (client_id : ClientId) (cred : ClientCredential)
    (requested_scope : option ScopeSet) : prog (result DeviceAuthorizationResponse ErrorResponse) :=
  let* created_at := now in
  let?* client := authenticate_client self client_id cred in
  if negb (allows_grant client DeviceCode) then
    Ret (Err (with_description (error_new UnauthorizedClient)
      "client registration does not include the device_code grant"))
  else
    let?! scope := resolve_scope client requested_scope in
    let* t := now in
    let* drawn := try_random_hex 32 in
    let?! device_code := ok_or drawn randomness_error in
    let?* user_code := unique_user_code in
    let grant := {|
      dg_device_code := device_code; dg_user_code := user_code; dg_client_id := c_client_id client;
      dg_scope := scope; dg_state := Pending; dg_created_at := created_at;
      dg_expires_at := saturating_deadline t (cfg_device_code_ttl cfg);
      dg_interval := cfg_poll_interval cfg; dg_last_poll_at := None |} in
    let?* _ := store_or storage_error (PutDeviceGrant grant) in
    Ret (Ok {|
      dar_device_code := device_code; dar_user_code := user_code;
      dar_verification_uri := cfg_verification_uri cfg;
      dar_verification_uri_complete :=
        then_some (cfg_include_verification_uri_complete cfg)
          (cfg_verification_uri cfg +:+ String (Uri.query_separator (cfg_verification_uri cfg)) EmptyString
           +:+ "user_code=" +:+ user_code);
      dar_expires_in := as_secs (cfg_device_code_ttl cfg);
      dar_interval := as_secs (cfg_poll_interval cfg) |}).

(** ** The user's decision *)
Definition lookup_pending_grant_by_user_code (entered_user_code : string)
  : prog (result DeviceGrant DeviceApprovalError) :=
  let normalized := UserCode.normalize_user_code entered_user_code in
  let?* found := store_or DeviceStorage (FindDeviceGrantByUserCode normalized) in
  let?! grant := ok_or found UnknownUserCode in
  let* t := now in
  if t >=? dg_expires_at grant then
    let* _ := store (TakeDeviceGrant (dg_device_code grant)) in
    Ret (Err Expired)
  else if dg_state grant != Pending then Ret (Err NotPending)
  else Ret (Ok grant).

Definition pending_grant_by_user_code (entered_user_code : string)
  : prog (result DeviceGrant DeviceApprovalError) :=
  let* decision := hook_check hooks DeviceUserCodeEntry in
  if decision == Deny then Ret (Err DeviceRateLimited)
  else
    let* outcome := lookup_pending_grant_by_user_code entered_user_code in
    let* _ := hook_record hooks DeviceUserCodeEntry (if is_ok outcome then Succeeded else Failed) in
    Ret outcome.

Definition with_state (g : DeviceGrant) (state : DeviceGrantState) : DeviceGrant :=
  dg_update g state (dg_interval g) (dg_last_poll_at g).

Definition approve_device (entered_user_code subject : string) : prog (result unit DeviceApprovalError) :=
  let?* grant := pending_grant_by_user_code entered_user_code in
  let?* swapped := store_or DeviceStorage
    (CompareAndSwapDeviceGrant Pending (with_state grant (Approved subject))) in
  if negb swapped then Ret (Err NotPending)
  else
    let* _ := emit hooks (DeviceGrantApproved (dg_client_id grant) subject) in
    Ret (Ok tt).

Definition deny_device (entered_user_code : string) : prog (result unit DeviceApprovalError) :=
  let?* grant := pending_grant_by_user_code entered_user_code in
  let?* swapped := store_or DeviceStorage
    (CompareAndSwapDeviceGrant Pending (with_state grant Denied)) in
  if negb swapped then Ret (Err NotPending)
  else
    let* _ := emit hooks (DeviceGrantDenied (dg_client_id grant)) in
    Ret (Ok tt).

(** ** Polling *)

(** A poll before [last_poll_at + interval], or one whose deadline overflows. *)
Definition polled_too_soon (grant : DeviceGrant) (t : SystemTime) : bool :=
  match dg_last_poll_at grant with
  | Some last => match checked_add last (dg_interval grant) with
                 | Some next => t <? next
                 | None => true
                 end
  | None => false
  end.

Definition device_issuance (client : Client) (bound : Bound) (taken : DeviceGrant) (subject : string)
  : Issuance := {|
  is_client := client; is_bound := bound; is_grant_type := DeviceCode;
  is_grant_established_at := dg_created_at taken; is_subject := Some subject;
  is_scope := dg_scope taken; is_resource := []; is_details := None; is_chain := None;
  is_allow_refresh := true; is_authentication := None; is_actor := None;
  is_lifetime_ceiling := None |}.

Definition device_token (client_id : ClientId) (bound : Bound) (device_code : string)
  : prog (result TokenResponse ErrorResponse) :=
  let?* client := authenticate_client self client_id (b_cred bound) in
  if negb (allows_grant client DeviceCode) then Ret (Err (error_new UnauthorizedClient))
  else
    let?* found := store_or storage_error (GetDeviceGrant device_code) in
    let?! grant := ok_or found invalid_grant in
    if dg_client_id grant != c_client_id client then Ret (Err invalid_grant)
    else
      let* t := now in
      if t >=? dg_expires_at grant then
        let* _ := store (TakeDeviceGrant device_code) in
        Ret (Err (error_new ExpiredToken))
      else if polled_too_soon grant t then
        let slower := dg_update grant (dg_state grant)
                        (duration_saturating_add (dg_interval grant) (cfg_slow_down_increment cfg)) (Some t) in
        let?* _ := store_or storage_error (CompareAndSwapDeviceGrant (dg_state grant) slower) in
        Ret (Err (error_new SlowDown))
      else
        let polled := dg_update grant (dg_state grant) (dg_interval grant) (Some t) in
        match dg_state grant with
        | Pending =>
            let?* _ := store_or storage_error (CompareAndSwapDeviceGrant Pending polled) in
            Ret (Err (error_new AuthorizationPending))
        | Denied =>
            let* _ := store (TakeDeviceGrant device_code) in
            Ret (Err (error_new AccessDenied))
        | Approved subject =>
            let?* found := store_or storage_error (TakeDeviceGrant device_code) in
            let?! taken := ok_or found invalid_grant in
            issue self (device_issuance client bound taken subject)
        end.
End device.
