(* ===== verification/Redirect.v ===== *)
(** * Requests and redirects at the authorization endpoint (authorization.rs)

    How the parameters of a request are collected, and how an answer is carried back
    in the query of the redirect URI. *)
From S2P Require Import Prelude Time Codec Scope Types.

(** ** [AuthorizationRequest::from_pairs] *)
Definition ar_default : AuthorizationRequest := {|
  ar_response_type := None; ar_client_id := None; ar_redirect_uri := None; ar_scope := None;
  ar_state := None; ar_code_challenge := None; ar_code_challenge_method := None; ar_resource := [];
  ar_authorization_details := None; ar_acr_values := None; ar_max_age := None; ar_dpop_jkt := None |}.

(** [if slot.is_none() { *slot = Some(v) }] *)
Definition keep (slot : option string) (v : string) : option string :=
  match slot with Some x => Some x | None => Some v end.

(** One turn of the loop: [resource] accumulates, a known parameter keeps its first
    value, an unknown one is ignored. *)
Definition add_pair (r : AuthorizationRequest) (pair : string * string) : AuthorizationRequest :=
  let k := fst pair in
  let v := snd pair in
  let slot name old := if k == name then keep old v else old in
  {| ar_resource := if k == "resource" then ar_resource r ++ [v] else ar_resource r;
     ar_response_type := slot "response_type" (ar_response_type r);
     ar_client_id := slot "client_id" (ar_client_id r);
     ar_redirect_uri := slot "redirect_uri" (ar_redirect_uri r);
     ar_scope := slot "scope" (ar_scope r);
     ar_state := slot "state" (ar_state r);
     ar_code_challenge := slot "code_challenge" (ar_code_challenge r);
     ar_code_challenge_method := slot "code_challenge_method" (ar_code_challenge_method r);
     ar_authorization_details := slot "authorization_details" (ar_authorization_details r);
     ar_acr_values := slot "acr_values" (ar_acr_values r);
     ar_max_age := slot "max_age" (ar_max_age r);
     ar_dpop_jkt := slot "dpop_jkt" (ar_dpop_jkt r) |}.

Definition from_pairs (pairs : list (string * string)) : AuthorizationRequest :=
  foldl add_pair ar_default pairs.

(** ** The redirect *)

(** [AuthorizationResponse::location] and [AuthorizationErrorRedirect::location] *)
Definition append_opt (acc : string * ascii) (name : string) (value : option string) : string * ascii :=
  match value with
  | Some v => Uri.append_param (fst acc) (snd acc) name v
  | None => acc
  end.

Definition response_location (self : AuthorizationResponse) (redirect_uri : string) : string :=
  let acc := Uri.append_param redirect_uri (Uri.query_separator redirect_uri) "code" (az_code self) in
  let acc := append_opt acc "state" (az_state self) in
  fst (Uri.append_param (fst acc) (snd acc) "iss" (az_iss self)).

Definition error_location (self : AuthorizationErrorRedirect) : string :=
  let acc := Uri.append_param (aer_redirect_uri self) (Uri.query_separator (aer_redirect_uri self))
               "error" (error_as_str (error (aer_error self))) in
  let acc := append_opt acc "error_description" (error_description (aer_error self)) in
  let acc := append_opt acc "error_uri" (error_uri (aer_error self)) in
  let acc := append_opt acc "state" (aer_state self) in
  fst (Uri.append_param (fst acc) (snd acc) "iss" (aer_iss self)).

(** [encoded_len]: the capacity [location] reserves for the query. *)
Definition encoded_len (self : AuthorizationResponse) : nat :=
  6 + str_len (az_code self) * 3
  + match az_state self with Some s => 7 + str_len s * 3 | None => 0 end
  + 5 + str_len (az_iss self) * 3.

(** [ValidatedAuthorizationRequest::denied] and [AuthorizationError::http_status] *)
Definition denied (self : ValidatedAuthorizationRequest) : AuthorizationErrorRedirect := {|
  aer_redirect_uri := va_redirect_uri self; aer_error := error_new AccessDenied;
  aer_state := va_state self; aer_iss := va_issuer self |}.

Definition http_status (self : AuthorizationError) : Z :=
  match self with
  | Direct e => if error e == ServerError then 500 else 400
  | Redirect _ => 302
  end%Z.

(** ** Facts *)

(** The value of the first pair named [name], and the values of all of them. *)
Definition first_value (name : string) (pairs : list (string * string)) : option string :=
  snd <$> List.find (fun p => fst p == name) pairs.
Definition all_values (name : string) (pairs : list (string * string)) : list string :=
  map snd (List.filter (fun p => fst p == name) pairs).

(** The parameters of a request by name. *)
Definition parameter (name : string) (r : AuthorizationRequest) : option string :=
  if name == "response_type" then ar_response_type r
  else if name == "client_id" then ar_client_id r
  else if name == "redirect_uri" then ar_redirect_uri r
  else if name == "scope" then ar_scope r
  else if name == "state" then ar_state r
  else if name == "code_challenge" then ar_code_challenge r
  else if name == "code_challenge_method" then ar_code_challenge_method r
  else if name == "authorization_details" then ar_authorization_details r
  else if name == "acr_values" then ar_acr_values r
  else if name == "max_age" then ar_max_age r
  else if name == "dpop_jkt" then ar_dpop_jkt r
  else None.
Definition known_parameters : list string :=
  ["response_type"; "client_id"; "redirect_uri"; "scope"; "state"; "code_challenge";
   "code_challenge_method"; "authorization_details"; "acr_values"; "max_age"; "dpop_jkt"].

Lemma parameter_add_pair name r pair : name ∈ known_parameters ->
  parameter name (add_pair r pair) =
    if fst pair == name then keep (parameter name r) (snd pair) else parameter name r.
Proof.
  intros Hin. unfold known_parameters in Hin. rewrite !elem_of_cons, elem_of_nil in Hin.
  destruct pair as [k v]. destruct_or! Hin; try done; subst name; reflexivity.
Qed.

Lemma foldl_first pairs : forall name r, name ∈ known_parameters ->
  parameter name (foldl add_pair r pairs) = option_or (parameter name r) (first_value name pairs).
Proof.
  induction pairs as [|[k v] pairs IH]; intros name r Hin; cbn [foldl].
  - by destruct (parameter name r).
  - rewrite IH, parameter_add_pair by done. unfold first_value. cbn [List.find fst snd].
    case_bool_decide; [|done]. by destruct (parameter name r).
Qed.

Lemma foldl_resources pairs : forall r,
  ar_resource (foldl add_pair r pairs) = ar_resource r ++ all_values "resource" pairs.
Proof.
  induction pairs as [|[k v] pairs IH]; intros r; cbn [foldl]; [by rewrite app_nil_r|].
  rewrite IH. unfold all_values. cbn [List.filter fst add_pair ar_resource].
  case_bool_decide; cbn; [by rewrite <- app_assoc|done].
Qed.

(** A repeated parameter cannot override the first one: for every list of pairs and
    every known parameter the request holds the value of its first occurrence (or
    nothing when it does not occur), and [resource], which may repeat, holds every
    occurrence in order. *)
Theorem from_pairs_first_wins pairs :
  (forall name, name ∈ known_parameters ->
     parameter name (from_pairs pairs) = first_value name pairs) /\
  ar_resource (from_pairs pairs) = all_values "resource" pairs.
Proof.
  unfold from_pairs. split.
  - intros name Hin. rewrite foldl_first by done.
    assert (Hd : parameter name ar_default = None) by (unfold parameter; repeat case_bool_decide; done).
    by rewrite Hd.
  - by rewrite foldl_resources.
Qed.

(** How the client reads the answer: the pairs of a query, percent-decoded. *)
Definition render_pair (p : string * string) : string :=
  fst p +:+ String "=" (Uri.percent_encode (snd p)).
Fixpoint render (ps : list (string * string)) : string :=
  match ps with
  | [] => EmptyString
  | [p] => render_pair p
  | p :: ps' => render_pair p +:+ String "&" (render ps')
  end.
Definition decode_pair (w : string) : option (string * string) :=
  match split_on "=" w with
  | [name; value] => pair name <$> Uri.percent_decode value
  | _ => None
  end.
Definition decode_query (q : string) : option (list (string * string)) :=
  mapM decode_pair (split_on "&" q).

Definition plain_name (name : string) : bool :=
  str_forall (fun b => is_ascii_alphanumeric b || Ascii.eqb b "_") name.

Lemma contains_char_app c s t : contains_char c (s +:+ t) = contains_char c s || contains_char c t.
Proof. unfold contains_char. by rewrite bytes_app, existsb_app. Qed.

Lemma str_forall_not_contains p c s : p c = false -> str_forall p s = true -> contains_char c s = false.
Proof.
  intros Hc Hs. unfold contains_char. apply not_true_is_false. intros (x & Hin & Hx)%existsb_exists.
  apply Ascii.eqb_eq in Hx as <-. apply list_elem_of_In in Hin.
  rewrite str_forall_elem in Hs. rewrite Hs in Hc by done. done.
Qed.

Lemma encoded_no c value : Uri.query_safe c = false -> contains_char c (Uri.percent_encode value) = false.
Proof. intros Hc. eapply str_forall_not_contains; [exact Hc|apply Uri.percent_encode_safe]. Qed.

Lemma plain_name_no c name : c = "="%char \/ c = "&"%char -> plain_name name = true ->
  contains_char c name = false.
Proof. intros [->| ->] Hn; eapply str_forall_not_contains; [|exact Hn| |exact Hn]; done. Qed.

Lemma decode_render_pair p : plain_name (fst p) = true -> decode_pair (render_pair p) = Some p.
Proof.
  intros Hn. unfold decode_pair, render_pair.
  rewrite ScopeSet.split_on_app_space by (apply plain_name_no; auto).
  rewrite ScopeSet.split_on_none by (by apply encoded_no).
  rewrite Uri.percent_decode_encode. by destruct p.
Qed.

Lemma decode_render ps : ps <> [] -> forallb (fun p => plain_name (fst p)) ps = true ->
  decode_query (render ps) = Some ps.
Proof.
  assert (Hamp : forall p, plain_name (fst p) = true -> contains_char "&" (render_pair p) = false).
  { intros p Hp. unfold render_pair. rewrite contains_char_app, plain_name_no by auto. cbn.
    by apply (encoded_no "&"). }
  intros Hne Hall. induction ps as [|p ps IH]; [done|]. cbn [forallb] in Hall. bools.
  destruct ps as [|p' ps'].
  - cbn [render]. unfold decode_query. rewrite ScopeSet.split_on_none by auto.
    cbn [mapM]. by rewrite decode_render_pair.
  - change (render (p :: p' :: ps')) with (render_pair p +:+ String "&" (render (p' :: ps'))).
    unfold decode_query in *. rewrite ScopeSet.split_on_app_space by auto.
    cbn [mapM]. rewrite decode_render_pair by done. by rewrite IH.
Qed.

(** The parameters each answer carries, and [append_param] over a list of them. *)
Definition opt_param (name : string) (value : option string) : list (string * string) :=
  match value with Some v => [(name, v)] | None => [] end.
Definition response_params (self : AuthorizationResponse) : list (string * string) :=
  ("code", az_code self) :: opt_param "state" (az_state self) ++ [("iss", az_iss self)].
Definition error_params (self : AuthorizationErrorRedirect) : list (string * string) :=
  ("error", error_as_str (error (aer_error self)))
  :: opt_param "error_description" (error_description (aer_error self))
     ++ opt_param "error_uri" (error_uri (aer_error self))
     ++ opt_param "state" (aer_state self) ++ [("iss", aer_iss self)].
Definition append_all (out : string) (sep : ascii) (ps : list (string * string)) : string * ascii :=
  foldl (fun acc p => Uri.append_param (fst acc) (snd acc) (fst p) (snd p)) (out, sep) ps.

Lemma append_all_render ps : forall out sep, ps <> [] ->
  fst (append_all out sep ps) = out +:+ String sep (render ps).
Proof.
  induction ps as [|p ps IH]; intros out sep Hne; [done|].
  unfold append_all. cbn [foldl]. unfold Uri.append_param at 2. cbn [fst snd].
  destruct ps as [|p' ps']; [done|].
  change (fst (append_all (out +:+ String sep (render_pair p)) "&" (p' :: ps')) =
          out +:+ String sep (render_pair p +:+ String "&" (render (p' :: ps')))).
  rewrite IH by done. by rewrite str_app_assoc.
Qed.

Lemma response_location_append self uri :
  response_location self uri = fst (append_all uri (Uri.query_separator uri) (response_params self)).
Proof. unfold response_location, response_params. by destruct (az_state self). Qed.
Lemma error_location_append self :
  error_location self =
    fst (append_all (aer_redirect_uri self) (Uri.query_separator (aer_redirect_uri self)) (error_params self)).
Proof.
  unfold error_location, error_params.
  by destruct (error_description _), (error_uri _), (aer_state self).
Qed.

Lemma str_length_app s t : String.length (s +:+ t) = (String.length s + String.length t)%nat.
Proof. apply str_len_app. Qed.

Lemma percent_encode_length value : (str_len (Uri.percent_encode value) <= 3 * str_len value)%nat.
Proof.
  induction value as [|b rest IH]; [done|]. cbn [Uri.percent_encode].
  unfold str_len in *. destruct (Uri.unreserved b); cbn [String.length] in *; lia.
Qed.

(** The answer reaches the client as it was meant: the [Location] of a success and of
    an error is the redirect URI itself, a separator ([&] when the URI already has a
    query), and a query that decodes to exactly the parameters of the answer; no value
    can end its parameter or add another.  The success form fits in the capacity
    reserved for it. *)
Theorem location_roundtrip response uri redirect :
  (exists q, response_location response uri = uri +:+ String (Uri.query_separator uri) q /\
     decode_query q = Some (response_params response) /\
     (str_len (response_location response uri) <= str_len uri + encoded_len response)%nat) /\
  (exists q, error_location redirect =
       aer_redirect_uri redirect +:+ String (Uri.query_separator (aer_redirect_uri redirect)) q /\
     decode_query q = Some (error_params redirect)).
Proof.
  split.
  - exists (render (response_params response)).
    rewrite response_location_append, append_all_render by done. split_and!; [done| |].
    + apply decode_render; [done|]. unfold response_params. by destruct (az_state response).
    + rewrite str_len_app. unfold response_params, encoded_len.
      pose proof (percent_encode_length (az_code response)).
      pose proof (percent_encode_length (az_iss response)).
      destruct (az_state response) as [s|]; [pose proof (percent_encode_length s)|];
        cbn [opt_param app render]; unfold render_pair; cbn [fst snd];
        unfold str_len in *; repeat (rewrite ?str_length_app; cbn [String.length]); lia.
  - exists (render (error_params redirect)).
    rewrite error_location_append, append_all_render by done. split; [done|].
    apply decode_render; [done|]. unfold error_params.
    by destruct (error_description _), (error_uri _), (aer_state redirect).
Qed.
