(* ===== verification/Authorize.v ===== *)
(** * The authorization endpoint (server.rs)

    Validation of an authorization request and the code issued on the user's
    approval. *)
From S2P Require Import Prelude Time Codec Scope Types Store StoreFacts Effects Trace Rar Consent Jws.
From S2P Require Import Credentials Config Redirect.
Local Open Scope Z_scope.

(** [UserApproval] *)
Record UserApproval : Type := {
  ua_request : ValidatedAuthorizationRequest;
  ua_subject : string;
  ua_decided_at : option SystemTime;
}.

Section authorize.
Context `{Serde} (self : AuthorizationServer).
Let cfg := sv_config self.
Let hooks := sv_hooks self.

Definition direct (code : ErrorCode) (why : string) : AuthorizationError :=
  Direct (with_description (error_new code) why).
Definition redirect_to (redirect_uri : string) (state : option string) (e : ErrorResponse) : AuthorizationError :=
  Redirect {| aer_redirect_uri := redirect_uri; aer_error := e; aer_state := state;
              aer_iss := issuer_identifier self |}.

(** The redirect URI of the request: one the registration matches, exactly or, for
    a public client, up to the port of a loopback address; or the only one
    registered when the request names none. *)
Definition resolve_redirect_uri (client : Client) (requested : option string)
  : result string AuthorizationError :=
  match requested with
  | Some requested =>
      if existsb (fun registered => (registered == requested)
           || (is_public (c_auth client) && Loopback.loopback_redirect_matches registered requested))
           (c_redirect_uris client)
      then Ok requested
      else Err (direct InvalidRequest "redirect_uri does not exactly match a registered URI")
  | None =>
      match c_redirect_uris client with
      | [only] => Ok only
      | _ => Err (direct InvalidRequest "redirect_uri is required for this client")
      end
  end.

(** The checks after the redirect URI is known: every refusal is a redirect. *)
Definition validate_parameters (request : AuthorizationRequest) (client : Client)
    (redirect_uri : string) : result ValidatedAuthorizationRequest AuthorizationError :=
  let state := ar_state request in
  let redirect code why := redirect_to redirect_uri state (with_description (error_new code) why) in
  let? _ := (match ar_response_type request with
             | Some t => if t == "code" then Ok tt
                         else Err (redirect UnsupportedResponseType "this server issues authorization codes only")
             | None => Err (redirect InvalidRequest "missing response_type")
             end) in
  if negb (allows_grant client AuthorizationCode) then
    Err (redirect UnauthorizedClient "client registration does not include the authorization_code grant")
  else
  let? _ := (match ar_code_challenge_method request with
             | Some m => if m == "S256" then Ok tt
                         else Err (redirect InvalidRequest "only code_challenge_method=S256 is supported")
             | None => Err (redirect InvalidRequest "code_challenge_method=S256 is required")
             end) in
  let code_challenge := unwrap_or (ar_code_challenge request) EmptyString in
  if negb (challenge_is_well_formed code_challenge) then
    Err (redirect InvalidRequest
      "code_challenge must be the base64url SHA-256 form of RFC 7636 section 4.2")
  else
  let? scope := (match ar_scope request with
                 | None => Ok (granted_default_scope client)
                 | Some s =>
                     let? requested := map_err (fun _ => redirect InvalidScope "malformed scope")
                                         (ScopeSet.parse s) in
                     if negb (ScopeSet.is_subset requested (c_allowed_scopes client))
                     then Err (redirect InvalidScope "requested scope exceeds the client registration")
                     else Ok requested
                 end) in
  let? resource := map_err (redirect_to redirect_uri state) (validate_resources self (ar_resource request)) in
  let? details := (match ar_authorization_details request with
                   | None => Ok []
                   | Some raw =>
                       let? parsed := map_err (redirect_to redirect_uri state) (rar_parse raw) in
                       let? _ := map_err (redirect_to redirect_uri state)
                         (require_supported_types parsed (cfg_authorization_details_types_supported cfg)) in
                       Ok parsed
                   end) in
  let? requirement := map_err (redirect_to redirect_uri state) (from_request request) in
  Ok {| va_client_id := c_client_id client; va_redirect_uri := redirect_uri;
        va_redirect_uri_was_explicit := is_some (ar_redirect_uri request);
        va_scope := scope; va_state := state; va_code_challenge := code_challenge;
        va_code_challenge_method := S256; va_issuer := issuer_identifier self;
        va_resource := resource; va_authorization_details := details;
        va_authentication_requirement := requirement; va_dpop_jkt := ar_dpop_jkt request |}.

Definition validate_direct_authorization_request_inner (request : AuthorizationRequest)
  : prog (result ValidatedAuthorizationRequest AuthorizationError) :=
  let?! client_id := ok_or (match ar_client_id request with
                            | Some s => if str_is_empty s then None else Some s
                            | None => None
                            end) (direct InvalidRequest "missing client_id") in
  let?* found := store_or (fun _ => direct ServerError "storage unavailable") (GetClient client_id) in
  let?! client := ok_or found (direct InvalidRequest "unknown client_id") in
  let?! redirect_uri := resolve_redirect_uri client (ar_redirect_uri request) in
  Ret (validate_parameters request client redirect_uri).

Definition validate_direct_authorization_request (request : AuthorizationRequest)
  : prog (result ValidatedAuthorizationRequest AuthorizationError) :=
  let attempt := AuthorizationRequestAttempt (unwrap_or (ar_client_id request) EmptyString) in
  let* decision := hook_check hooks attempt in
  if decision == Deny then
    Ret (Err (direct TemporarilyUnavailable "too many authorization requests; retry later"))
  else
    let* outcome := validate_direct_authorization_request_inner request in
    let* _ := hook_record hooks attempt (if is_ok outcome then Succeeded else Failed) in
    Ret outcome.

Definition validate_authorization_request (request : AuthorizationRequest)
  : prog (result ValidatedAuthorizationRequest AuthorizationError) :=
  if is_some_and (cfg_par cfg) pc_require_pushed_authorization_requests then
    Ret (Err (direct InvalidRequest
      "this server accepts authorization request data only via PAR (RFC 9126 s4)"))
  else if is_some_and (cfg_jar cfg) jrc_require_signed_request_object then
    Ret (Err (direct InvalidRequest "this server requires a signed request object (RFC 9101 s10.5)"))
  else validate_direct_authorization_request request.

(** ** Issuing the code *)
Definition approval_redirect (request : ValidatedAuthorizationRequest) (e : ErrorResponse) : AuthorizationError :=
  Redirect {| aer_redirect_uri := va_redirect_uri request; aer_error := e;
              aer_state := va_state request; aer_iss := va_issuer request |}.

Definition code_record (request : ValidatedAuthorizationRequest) (subject : string)
    (decided_at : option SystemTime) (authentication : option Authentication)
    (code : string) (t : SystemTime) : AuthorizationCodeRecord := {|
  ac_code := code; ac_client_id := va_client_id request; ac_redirect_uri := va_redirect_uri request;
  ac_redirect_uri_was_explicit := va_redirect_uri_was_explicit request; ac_scope := va_scope request;
  ac_subject := subject; ac_code_challenge := va_code_challenge request;
  ac_code_challenge_method := va_code_challenge_method request; ac_resource := va_resource request;
  ac_authorization_details := va_authorization_details request; ac_issued_at := unwrap_or decided_at t;
  ac_expires_at := saturating_deadline t (cfg_authorization_code_ttl cfg); ac_state := Issued;
  ac_authentication := authentication; ac_dpop_jkt := va_dpop_jkt request |}.

Definition issue_authorization_code_inner (approval : UserApproval) (authentication : option Authentication)
  : prog (result AuthorizationResponse AuthorizationError) :=
  let request := ua_request approval in
  let attempt := AuthorizationRequestAttempt (va_client_id request) in
  let* decision := hook_check hooks attempt in
  if decision == Deny then
    Ret (Err (approval_redirect request (with_description (error_new TemporarilyUnavailable)
      "too many authorization requests; retry later")))
  else
    let* t := now in
    let* drawn := try_random_hex 32 in
    match drawn with
    | None =>
        let* _ := hook_record hooks attempt Failed in
        Ret (Err (approval_redirect request (error_new ServerError)))
    | Some code =>
        let record := code_record request (ua_subject approval) (ua_decided_at approval)
                        authentication code t in
        let* written := store (PutAuthorizationCode record) in
        match written with
        | Err _ =>
            let* _ := hook_record hooks attempt Failed in
            Ret (Err (approval_redirect request (error_new ServerError)))
        | Ok _ =>
            let* _ := hook_record hooks attempt Succeeded in
            Ret (Ok {| az_code := code; az_state := va_state request; az_iss := va_issuer request |})
        end
    end.

Definition issue_authorization_code_with_authentication (approval : UserApproval)
    (requirement : AuthenticationRequirement) (authentication : option Authentication)
  : prog (result AuthorizationResponse AuthorizationError) :=
  let* t := now in
  match satisfied_by requirement authentication t with
  | Err failure => Ret (Err (approval_redirect (ua_request approval) (step_up_error failure)))
  | Ok _ => issue_authorization_code_inner approval authentication
  end.

Definition issue_authorization_code (approval : UserApproval)
  : prog (result AuthorizationResponse AuthorizationError) :=
  issue_authorization_code_with_authentication approval
    (va_authentication_requirement (ua_request approval)) None.

(** ** Where an answer may be sent, and what a validated request holds *)

(** The redirect URI is registered: exactly, or, for a public client, up to the port
    of a loopback address. *)
Definition redirect_registered (client : Client) (uri : string) : Prop :=
  exists registered, registered ∈ c_redirect_uris client /\
    (registered = uri \/
     is_public (c_auth client) = true /\ Loopback.loopback_redirect_matches registered uri = true).

Lemma resolve_redirect_uri_ok client requested uri :
  resolve_redirect_uri client requested = Ok uri ->
  redirect_registered client uri /\ (forall u, requested = Some u -> uri = u).
Proof.
  unfold resolve_redirect_uri, redirect_registered. destruct requested as [u|].
  - destruct (existsb _ _) eqn:He; [|done]. intros [= <-].
    apply existsb_exists in He as (r & Hin%list_elem_of_In & Hr). split; [|naive_solver].
    exists r. split; [done|]. apply orb_true_iff in Hr as [Hr|Hr]; bools; auto.
  - destruct (c_redirect_uris client) as [|only [|]] eqn:Hu; try done. intros [= <-].
    split; [|done]. exists only. split; [set_solver|auto].
Qed.

Lemma resolve_redirect_uri_err client requested e :
  resolve_redirect_uri client requested = Err e -> exists r, e = Direct r.
Proof. unfold resolve_redirect_uri, direct. intros. branches; eauto. Qed.

Lemma validate_parameters_ok request client uri v :
  validate_parameters request client uri = Ok v ->
  ar_response_type request = Some "code" /\ allows_grant client AuthorizationCode = true /\
  ar_code_challenge_method request = Some "S256" /\
  ar_code_challenge request = Some (va_code_challenge v) /\
  challenge_is_well_formed (va_code_challenge v) = true /\ va_code_challenge_method v = S256 /\
  va_client_id v = c_client_id client /\ va_redirect_uri v = uri /\
  va_redirect_uri_was_explicit v = is_some (ar_redirect_uri request) /\
  va_state v = ar_state request /\ va_issuer v = issuer_identifier self /\
  va_dpop_jkt v = ar_dpop_jkt request /\
  match ar_scope request with
  | None => va_scope v = granted_default_scope client
  | Some s => ScopeSet.parse s = Ok (va_scope v) /\
              ScopeSet.is_subset (va_scope v) (c_allowed_scopes client) = true
  end /\
  validate_resources self (ar_resource request) = Ok (va_resource v) /\
  match ar_authorization_details request with
  | None => va_authorization_details v = []
  | Some raw => rar_parse raw = Ok (va_authorization_details v) /\
      require_supported_types (va_authorization_details v)
        (cfg_authorization_details_types_supported cfg) = Ok tt
  end /\
  from_request request = Ok (va_authentication_requirement v).
Proof.
  unfold validate_parameters. intros Hok.
  apply and_then_ok in Hok as ([] & Hrt & Hok).
  destruct (ar_response_type request) as [rt|]; [|done]. case_bool_decide; [subst|done].
  destruct (allows_grant client AuthorizationCode) eqn:Hg; [|done]. cbn [negb] in Hok.
  apply and_then_ok in Hok as ([] & Hm & Hok).
  destruct (ar_code_challenge_method request) as [m|]; [|done]. case_bool_decide; [subst|done].
  destruct (challenge_is_well_formed _) eqn:Hc; [|done]. cbn [negb] in Hok.
  apply and_then_ok in Hok as (scope & Hs & Hok). apply and_then_ok in Hok as (res & Hr & Hok).
  apply and_then_ok in Hok as (details & Hd & Hok). apply and_then_ok in Hok as (req & Hq & Hok).
  injection Hok as <-. cbn. destruct (ar_code_challenge request) as [ch|]; [|done]. cbn in Hc.
  apply map_err_ok in Hr. apply map_err_ok in Hq. split_and!; try done.
  - destruct (ar_scope request) as [s|]; [|congruence]. apply and_then_ok in Hs as (x & Hp%map_err_ok & Hs).
    destruct (ScopeSet.is_subset x _) eqn:Hsub; [|done]. cbn in Hs. by simplify_eq.
  - destruct (ar_authorization_details request) as [raw|]; [|congruence].
    apply and_then_ok in Hd as (parsed & Hp%map_err_ok & Hd). apply and_then_ok in Hd as ([] & Ht%map_err_ok & Hd).
    by simplify_eq.
Qed.

Lemma validate_parameters_err request client uri e :
  validate_parameters request client uri = Err e ->
  exists r, e = Redirect r /\ aer_redirect_uri r = uri /\ aer_state r = ar_state request /\
            aer_iss r = issuer_identifier self.
Proof.
  unfold validate_parameters, redirect_to. intros Herr.
  repeat match goal with
  | H : Err _ = Err _ |- _ => injection H as <-; by eexists
  | H : Ok _ = Err _ |- _ => done
  | H : and_then _ _ = Err _ |- _ => apply and_then_err in H as [H|(? & ? & H)]
  | H : map_err _ _ = Err _ |- _ => apply map_err_err in H as (? & ? & ->); by eexists
  | H : context [if ?b then _ else _] |- _ => destruct b
  | H : match ?o with Some _ => _ | None => _ end = Err _ |- _ => destruct o
  end.
Qed.

(** The decision of the endpoint on a request it looked up a client for. *)
Lemma validate_direct_exec request tr r :
  exec (validate_direct_authorization_request request) tr r ->
  (exists e, r = Err (Direct e)) \/
  exists cid client uri, ar_client_id request = Some cid /\
    AStore (GetClient cid) (Ok (Some client)) ∈ tr /\
    resolve_redirect_uri client (ar_redirect_uri request) = Ok uri /\
    r = validate_parameters request client uri.
Proof.
  unfold validate_direct_authorization_request, direct. intros Hex. exec_step. exec_step; [exec_inv; eauto|].
  do 2 exec_step. exec_inv. rename select (exec (validate_direct_authorization_request_inner _) _ _) into Hi.
  unfold validate_direct_authorization_request_inner, direct in Hi.
  apply exec_lift_ok in Hi as [(cid & Hcid & Hi)|(e & He & -> & ->)].
  2:{ left. destruct (ar_client_id request) as [[|]|]; simplify_eq/=; eauto. }
  apply exec_bind_ok in Hi as [(tr1' & tr2' & found & -> & Hget & Hi)|(e & -> & Hget)].
  2:{ exec_inv. eauto. }
  apply exec_lift_ok in Hi as [(client & Hcl & Hi)|(e & He & -> & ->)].
  2:{ destruct found; simplify_eq/=; eauto. }
  apply exec_lift_ok in Hi as [(uri & Huri & Hi)|(e & He & -> & ->)].
  2:{ apply resolve_redirect_uri_err in He as [? ->]. eauto. }
  exec_inv. right. subst. destruct (ar_client_id request) as [id|]; [|done].
  destruct (str_is_empty id); [done|]. injection Hcid as ->. do 3 eexists. split_and!; [done| |done|done].
  in_trace.
Qed.

Lemma validate_exec request tr r :
  exec (validate_authorization_request request) tr r ->
  (exists e, r = Err (Direct e)) \/
  exists cid client uri, ar_client_id request = Some cid /\
    AStore (GetClient cid) (Ok (Some client)) ∈ tr /\
    resolve_redirect_uri client (ar_redirect_uri request) = Ok uri /\
    r = validate_parameters request client uri.
Proof.
  unfold validate_authorization_request, direct. intros Hex.
  exec_step; [exec_inv; eauto|]. exec_step; [exec_inv; eauto|]. by apply validate_direct_exec.
Qed.

(** What holds of a validated request and the client it is for. *)
Record validated_for (request : AuthorizationRequest) (client : Client) (v : ValidatedAuthorizationRequest)
  : Prop := {
  vf_client : va_client_id v = c_client_id client;
  vf_grant : allows_grant client AuthorizationCode = true;
  vf_redirect : redirect_registered client (va_redirect_uri v);
  vf_requested : forall u, ar_redirect_uri request = Some u -> va_redirect_uri v = u;
  vf_challenge : ar_code_challenge request = Some (va_code_challenge v) /\
                 challenge_is_well_formed (va_code_challenge v) = true /\ va_code_challenge_method v = S256;
  vf_scope : ScopeSet.wf (c_allowed_scopes client) -> ScopeSet.wf (c_default_scopes client) ->
             forall t, t ∈ va_scope v -> t ∈ c_allowed_scopes client;
  vf_resource : forall r, r ∈ va_resource v -> r ∈ ar_resource request /\ permitted_target self r;
  vf_details : forall d, d ∈ va_authorization_details v ->
               ad_type d ∈ unwrap_or (cfg_authorization_details_types_supported cfg) [];
}.

Lemma validate_parameters_for request client uri v :
  resolve_redirect_uri client (ar_redirect_uri request) = Ok uri ->
  validate_parameters request client uri = Ok v -> validated_for request client v.
Proof.
  intros Huri Hv. apply validate_parameters_ok in Hv
    as (_ & Hgrant & _ & Hch & Hwf & Hm & Hid & Hu & _ & _ & _ & _ & Hscope & Hres & Hdet & _).
  apply resolve_redirect_uri_ok in Huri as [Hreg Hreq].
  split; try done; [by rewrite Hu|intros u Hr; rewrite Hu; auto| | |].
  - intros Ha Hd t Ht. destruct (ar_scope request) as [s|].
    + destruct Hscope as [Hp Hsub]. apply ScopeSet.parse_ok_wf in Hp.
      rewrite ScopeSet.is_subset_sorted in Hsub by (apply Hp || apply Ha). auto.
    + rewrite Hscope in Ht. by apply granted_default_scope_ok in Ht as [_ ?].
  - intros r Hr. apply validate_loop_ok in Hres as (_ & Hmem & Hall & _); [|constructor].
    apply Hmem in Hr as [Hr|Hr]; [by apply elem_of_nil in Hr|]. split; [done|]. by apply Hall.
  - destruct (ar_authorization_details request) as [raw|]; [|rewrite Hdet; by intros ? ?%elem_of_nil].
    destruct Hdet as [_ Hsup]. unfold require_supported_types in Hsup.
    destruct (forallb _ _) eqn:Hall; [|done]. intros d Hd. rewrite forallb_forall in Hall.
    by apply list_elem_of_In, Hall, existsb_elem in Hd.
Qed.

(** C23. An authorization request that is validated is one the client is registered for:
    in every execution that accepts it the store answered the client lookup, the
    redirect URI is one of that registration (and the one asked for, if any), PKCE is
    [S256] with a well-formed challenge taken from the request, the scope is inside the
    registration, every resource is one this server issues tokens for, and every
    authorization detail has a supported type. *)
Theorem validated_request_is_registered request tr v :
  exec (validate_authorization_request request) tr (Ok v) ->
  exists client, AStore (GetClient (unwrap_or (ar_client_id request) EmptyString)) (Ok (Some client)) ∈ tr /\
    va_client_id v = c_client_id client /\ allows_grant client AuthorizationCode = true /\
    redirect_registered client (va_redirect_uri v) /\
    (forall u, ar_redirect_uri request = Some u -> va_redirect_uri v = u) /\
    ar_code_challenge request = Some (va_code_challenge v) /\
    challenge_is_well_formed (va_code_challenge v) = true /\ va_code_challenge_method v = S256 /\
    (ScopeSet.wf (c_allowed_scopes client) -> ScopeSet.wf (c_default_scopes client) ->
       forall t, t ∈ va_scope v -> t ∈ c_allowed_scopes client) /\
    (forall r, r ∈ va_resource v -> r ∈ ar_resource request /\ permitted_target self r) /\
    (forall d, d ∈ va_authorization_details v ->
       ad_type d ∈ unwrap_or (cfg_authorization_details_types_supported cfg) []).
Proof.
  intros [[e [=]]|(cid & client & uri & Hcid & Hget & Huri & Hv)]%validate_exec.
  rewrite Hcid. exists client. by destruct (validate_parameters_for _ _ _ _ Huri (eq_sym Hv)) as [? ? ? ? [? []] ? ? ?].
Qed.

(** The endpoint is not an open redirector: when validation fails with an error to be
    redirected, the target is a redirect URI registered for the client the store
    answered with, and the request's [state] is echoed; an unknown client or an
    unregistered redirect URI is answered directly, with a 4xx or 5xx status. *)
Theorem error_redirects_only_to_registered request tr e :
  exec (validate_authorization_request request) tr (Err e) ->
  match e with
  | Redirect r =>
      exists client, AStore (GetClient (unwrap_or (ar_client_id request) EmptyString)) (Ok (Some client)) ∈ tr /\
        redirect_registered client (aer_redirect_uri r) /\
        (forall u, ar_redirect_uri request = Some u -> aer_redirect_uri r = u) /\
        aer_state r = ar_state request /\ aer_iss r = issuer_identifier self
  | Direct _ => http_status e = 400 \/ http_status e = 500
  end.
Proof.
  intros [[d [= ->]]|(cid & client & uri & Hcid & Hget & Huri & Hv)]%validate_exec.
  { cbn. case_bool_decide; auto. }
  symmetry in Hv. apply validate_parameters_err in Hv as (r & -> & Hu & Hs & Hi).
  apply resolve_redirect_uri_ok in Huri as [Hreg Hreq]. rewrite Hcid. cbn. exists client.
  rewrite Hu. split_and!; auto.
Qed.

(** A code is issued only for what was approved: in every execution that hands out a
    code, the user's authentication satisfied the requirement of the request at the
    instant it was checked, and the record written under that code carries the client,
    the redirect URI, the scope, the resources, the details, the PKCE challenge and the
    DPoP key of the validated request and the subject of the approval, unredeemed, with
    the configured lifetime; the answer echoes [state] and names the issuer. *)
Theorem issued_code_records_approval approval requirement authentication tr response :
  exec (issue_authorization_code_with_authentication approval requirement authentication) tr (Ok response) ->
  let request := ua_request approval in
  exists t t' record, ANow t ∈ tr /\ ANow t' ∈ tr /\
    satisfied_by requirement authentication t = Ok tt /\
    AStore (PutAuthorizationCode record) (Ok tt) ∈ tr /\
    ac_code record = az_code response /\ ac_state record = Issued /\
    ac_client_id record = va_client_id request /\ ac_redirect_uri record = va_redirect_uri request /\
    ac_scope record = va_scope request /\ ac_subject record = ua_subject approval /\
    ac_code_challenge record = va_code_challenge request /\ ac_resource record = va_resource request /\
    ac_authorization_details record = va_authorization_details request /\
    ac_dpop_jkt record = va_dpop_jkt request /\ ac_authentication record = authentication /\
    ac_expires_at record = saturating_deadline t' (cfg_authorization_code_ttl cfg) /\
    az_state response = va_state request /\ az_iss response = va_issuer request /\
    (exists bytes, ARand 32 (Some bytes) ∈ tr /\ az_code response = Hex.encode bytes).
Proof.
  intros Hex request.
  unfold issue_authorization_code_with_authentication, issue_authorization_code_inner, try_random_hex in Hex.
  exec_inv. bools. repeat match goal with u : () |- _ => destruct u end.
  rename select (_ <$> _ = Some _) into Hcode. apply fmap_Some in Hcode as (bs & -> & ->).
  do 3 eexists. split_and!; [| |eassumption|in_trace|reflexivity..|]; [in_trace..|].
  eexists; split; [in_trace|reflexivity].
Qed.
End authorize.

(** ** Evaluation *)
Definition demo_request (redirect_uri scope : option string) : AuthorizationRequest :=
  from_pairs ([("response_type", "code"); ("client_id", "app"); ("state", "xyz");
    ("code_challenge", repeat_char "A" 43); ("code_challenge_method", "S256")]
    ++ opt_param "redirect_uri" redirect_uri ++ opt_param "scope" scope).

Definition demo_validated : ValidatedAuthorizationRequest := {|
  va_client_id := "app"; va_redirect_uri := "https://app/cb"; va_redirect_uri_was_explicit := true;
  va_scope := ["read"]; va_state := Some "xyz"; va_code_challenge := repeat_char "A" 43;
  va_code_challenge_method := S256; va_issuer := "https://as"; va_resource := [];
  va_authorization_details := [];
  va_authentication_requirement := {| acr_values := []; max_age := None |}; va_dpop_jkt := None |}.

Definition demo_authorization_store : MemoryInner := run_op (any (PutClient demo_client)) mi_empty.

Lemma validated_request_is_registered_witness : exists (tr : list Act) client,
  AStore (GetClient "app") (Ok (Some client)) ∈ tr /\
  redirect_registered client (va_redirect_uri demo_validated).
Proof.
  destruct (run_exec demo_env (@validate_authorization_request assertion_serde demo_server
    (demo_request (Some "https://app/cb") None)) (world_of demo_authorization_store)) as [tr Htr].
  destruct (@validated_request_is_registered assertion_serde demo_server
    (demo_request (Some "https://app/cb") None) tr demo_validated Htr)
    as (client & Hget & _ & _ & Hreg & _).
  exists tr, client. split; [exact Hget|exact Hreg].
Defined.

Lemma error_redirects_only_to_registered_witness : exists (tr : list Act) client,
  AStore (GetClient "app") (Ok (Some client)) ∈ tr /\ redirect_registered client "https://app/cb".
Proof.
  destruct (run_exec demo_env (@validate_authorization_request assertion_serde demo_server
    (demo_request (Some "https://app/cb") (Some "admin"))) (world_of demo_authorization_store)) as [tr Htr].
  destruct (@error_redirects_only_to_registered assertion_serde demo_server
    (demo_request (Some "https://app/cb") (Some "admin")) tr
    (Redirect {| aer_redirect_uri := "https://app/cb";
                 aer_error := with_description (error_new InvalidScope)
                   "requested scope exceeds the client registration";
                 aer_state := Some "xyz"; aer_iss := "https://as" |}) Htr)
    as (client & Hget & Hreg & _).
  exists tr, client. split; [exact Hget|exact Hreg].
Defined.

Lemma issued_code_records_approval_witness : exists (tr : list Act) record,
  AStore (PutAuthorizationCode record) (Ok tt) ∈ tr /\ ac_subject record = "alice".
Proof.
  set (approval := {| ua_request := demo_validated; ua_subject := "alice"; ua_decided_at := None |}).
  destruct (run_exec demo_env (issue_authorization_code_with_authentication demo_server approval
    {| acr_values := []; max_age := None |} None) (world_of demo_authorization_store)) as [tr Htr].
  destruct (issued_code_records_approval demo_server approval {| acr_values := []; max_age := None |} None tr
    {| az_code := Hex.encode (repeat_char (ascii_of_nat 3) 32); az_state := Some "xyz";
       az_iss := "https://as" |} Htr)
    as (t & t' & record & _ & _ & _ & Hput & _ & _ & _ & _ & _ & Hsub & _).
  exists tr, record. split; [exact Hput|exact Hsub].
Defined.
