(* ===== verification/Par.v ===== *)
(** * Pushed requests and request objects (par.rs, RFC 9126 and RFC 9101)

    The endpoint that takes a request from an authenticated client and answers with a
    one-time handle, the redemption of the handle, and the verification of a signed
    request object, which both it and the authorization endpoint accept. *)
From S2P Require Import Prelude Time Codec Scope Types Store StoreFacts Effects Trace Ops Rar Jws Float64.
From S2P Require Import Credentials Config ClientAuthn Redirect Authorize.
Local Open Scope Z_scope.

(** ** Configuration *)
Definition par_config_new : ParConfig := {|
  pc_endpoint := None; pc_request_uri_ttl := from_secs 60;
  pc_require_pushed_authorization_requests := false; pc_require_redirect_uri := false |}.
Definition par_endpoint (self : ParConfig) (issuer : string) : string :=
  match pc_endpoint self with
  | Some url => url
  | None => trim_end_matches "/" issuer +:+ "/par"
  end.
Definition jar_config_default : JarConfig := {|
  jrc_require_signed_request_object := false; jrc_max_request_object_lifetime := from_secs 300 |}.

Definition MIN_REQUEST_URI_TTL : Duration := from_secs 1.
Definition REQUEST_URI_PREFIX : string := "urn:ietf:params:oauth:request_uri:".
Definition REQUEST_URI_ENTROPY_BYTES : nat := 32.
Definition REQUEST_OBJECT_TYP : string := "oauth-authz-req+jwt".
Definition MAX_REQUEST_OBJECT_BYTES : Z := 64 * 1024.

Record PushedAuthorizationResponse : Type := { pr_request_uri : string; pr_expires_in : Z }.

(** [PushedAuthorizationRequest::new] *)
Definition pushed_request_new (request_uri : string) (client_id : ClientId) (expires_at : SystemTime)
  : PushedAuthorizationRequest := {|
  par_request_uri := request_uri; par_client_id := client_id; par_response_type := None;
  par_redirect_uri := None; par_scope := None; par_state := None; par_code_challenge := None;
  par_code_challenge_method := None; par_resource := []; par_authorization_details := None;
  par_acr_values := None; par_max_age := None; par_dpop_jkt := None;
  par_pushed_at := UNIX_EPOCH; par_expires_at := expires_at |}.

(** [PushedAuthorizationRequest::as_request] *)
Definition pushed_as_request (self : PushedAuthorizationRequest) : AuthorizationRequest := {|
  ar_response_type := par_response_type self; ar_client_id := Some (par_client_id self);
  ar_redirect_uri := par_redirect_uri self; ar_scope := par_scope self; ar_state := par_state self;
  ar_code_challenge := par_code_challenge self;
  ar_code_challenge_method := par_code_challenge_method self; ar_resource := par_resource self;
  ar_authorization_details := par_authorization_details self; ar_acr_values := par_acr_values self;
  ar_max_age := par_max_age self; ar_dpop_jkt := par_dpop_jkt self |}.

(** The record [store_pushed_request] writes. *)
Definition pushed_record (request_uri : string) (authenticated : ClientId) (request : AuthorizationRequest)
    (pushed_at expires_at : SystemTime) : PushedAuthorizationRequest := {|
  par_request_uri := request_uri; par_client_id := authenticated;
  par_response_type := ar_response_type request; par_redirect_uri := ar_redirect_uri request;
  par_scope := ar_scope request; par_state := ar_state request;
  par_code_challenge := ar_code_challenge request;
  par_code_challenge_method := ar_code_challenge_method request; par_resource := ar_resource request;
  par_authorization_details := ar_authorization_details request;
  par_acr_values := ar_acr_values request; par_max_age := ar_max_age request;
  par_dpop_jkt := ar_dpop_jkt request; par_pushed_at := pushed_at; par_expires_at := expires_at |}.

(** ** Registered request object keys *)
Section keys.
Context `{Crypto}.

(** [Jwk::from_coordinates] *)
Definition jwk_from_coordinates (x y : string) : result Jwk VerifyError :=
  let? _ := check_coordinate x in
  let? _ := check_coordinate y in
  Ok (JwkEc P256 x y None).

Definition COORDINATE_LENGTH : string := "a P-256 coordinate is exactly 32 bytes".

Definition public_jwk (x y : string) : result Jwk string :=
  if negb (Nat.eqb (str_len x) 32) || negb (Nat.eqb (str_len y) 32) then Err COORDINATE_LENGTH
  else map_err (fun _ => COORDINATE_LENGTH) (jwk_from_coordinates (b64url_encode x) (b64url_encode y)).

Definition es256_from_jwk_coordinates (kid : option string) (x y : string)
  : result RegisteredRequestObjectKey string :=
  let? x := ok_or (b64url_decode x) "x is not base64url" in
  let? y := ok_or (b64url_decode y) "y is not base64url" in
  let? key := public_jwk x y in
  Ok {| rok_alg := Es256; rok_kid := kid; rok_key := key |}.

Definition es256_from_sec1 (kid : option string) (sec1 : string)
  : result RegisteredRequestObjectKey string :=
  if negb (Nat.eqb (str_len sec1) 65) then Err "an uncompressed P-256 point is exactly 65 bytes"
  else if take_str 1 sec1 != String (ascii_of_nat 4) EmptyString
  then Err "an uncompressed P-256 point begins with 0x04"
  else
    let? key := public_jwk (take_str 32 (drop_str 1 sec1)) (drop_str 33 sec1) in
    Ok {| rok_alg := Es256; rok_kid := kid; rok_key := key |}.
End keys.

Definition jwk_kid_of (k : Jwk) : option string :=
  match k with JwkEc _ _ _ kid | JwkRsa _ _ kid | JwkOkp _ _ kid => kid end.

(** [RegisteredRequestObjectKey::from_jwk] *)
Definition request_key_from_jwk (alg : JwsAlg) (key : Jwk) : result RegisteredRequestObjectKey string :=
  if negb (consistent alg key)
  then Err "the registered key kind does not match the registered algorithm"
  else Ok {| rok_alg := alg; rok_kid := jwk_kid_of key; rok_key := key |}.

(** ** Signed request objects *)
Record RequestObjectClaims : Type := {
  ro_client_id : string;
  ro_response_type : option string;
  ro_redirect_uri : option string;
  ro_scope : option string;
  ro_state : option string;
  ro_code_challenge : option string;
  ro_code_challenge_method : option string;
  ro_resource : list string;
  ro_authorization_details : option string;
  ro_acr_values : option string;
  ro_max_age : option string;
  ro_dpop_jkt : option string;
}.

(** [RequestObjectClaims::as_request] *)
Definition claims_as_request (self : RequestObjectClaims) : AuthorizationRequest := {|
  ar_response_type := ro_response_type self; ar_client_id := Some (ro_client_id self);
  ar_redirect_uri := ro_redirect_uri self; ar_scope := ro_scope self; ar_state := ro_state self;
  ar_code_challenge := ro_code_challenge self;
  ar_code_challenge_method := ro_code_challenge_method self; ar_resource := ro_resource self;
  ar_authorization_details := ro_authorization_details self; ar_acr_values := ro_acr_values self;
  ar_max_age := ro_max_age self; ar_dpop_jkt := ro_dpop_jkt self |}.

Definition bad_object (why : string) : ErrorResponse := with_description (error_new InvalidRequestObject) why.

Section objects.
Context `{Crypto, Serde, Backends} (self : AuthorizationServer).
Let cfg := sv_config self.

Definition decode_segment (segment refusal : string) : result string ErrorResponse :=
  ok_or (b64url_decode segment) (bad_object refusal).

Definition string_claim (claims : list (string * Value)) (name : string) : result (option string) ErrorResponse :=
  match map_get name claims with
  | None => Ok None
  | Some (VString s) => Ok (Some s)
  | Some _ => Err (bad_object ("the " +:+ name +:+ " claim must be a JSON string"))
  end.

(** [Value::get] *)
Definition value_get (name : string) (v : Value) : option Value :=
  match v with VObject m => map_get name m | _ => None end.

(** The header: no critical extension, the registered algorithm, a [kid] that names the
    registered key, a [typ] that can be a request object. *)
Definition check_object_header (registered : RegisteredRequestObjectKey) (header : Value)
  : result unit ErrorResponse :=
  let? _ := (match value_get "crit" header with
             | None => Ok tt
             | Some (VArray []) => Err (bad_object "the header has an empty crit, which RFC 7515 s4.1.11 forbids")
             | Some (VArray _) =>
                 Err (bad_object "the header's crit names an extension this server does not implement")
             | Some _ => Err (bad_object "the header's crit is not an array")
             end) in
  let? alg := ok_or (value_get "alg" header ≫= as_str) (bad_object "the header has no alg") in
  if classify_alg alg != Some (rok_alg registered)
  then Err (bad_object "alg does not match the algorithm registered for this client")
  else
    let? _ := (match value_get "kid" header ≫= as_str with
               | Some presented =>
                   if rok_kid registered == Some presented then Ok tt
                   else Err (bad_object "kid does not identify a key registered for this client")
               | None => Ok tt
               end) in
    match value_get "typ" header ≫= as_str with
    | Some typ =>
        if (typ != REQUEST_OBJECT_TYP) && (typ != "JWT") && (typ != "jwt")
        then Err (bad_object "typ names a JWT that is not a request object")
        else Ok tt
    | None => Ok tt
    end.

(** What the claims must say about themselves before any parameter is read. *)
Definition check_object_claims (client_id : ClientId) (claims : list (string * Value))
  : result unit ErrorResponse :=
  if existsb (fun forbidden => contains_key forbidden claims) ["request"; "request_uri"]
  then Err (bad_object "a request object must not carry request or request_uri (RFC 9101 s4)")
  else
    let? claimed := string_claim claims "client_id" in
    if claimed != Some client_id
    then Err (bad_object "the client_id claim does not match the request's client_id (RFC 9101 s6.3)")
    else
      match map_get "aud" claims with
      | None => Ok tt
      | Some aud =>
          let issuer := issuer_identifier self in
          let addressed_here :=
            match aud with
            | VString one => one == issuer
            | VArray many => existsb (fun v => is_some_and (as_str v) (fun s => s == issuer)) many
            | _ => false
            end in
          if negb addressed_here then Err (bad_object "aud does not name this authorization server")
          else Ok tt
      end.

(** The closure [numeric_date]. *)
Definition numeric_date (claims : list (string * Value)) (name : string) : result (option f64) ErrorResponse :=
  match map_get name claims with
  | None => Ok None
  | Some v => let? date := ok_or (as_f64 v)
                (bad_object ("the request object's " +:+ name +:+ " is not a NumericDate (RFC 7519 s2)")) in
              Ok (Some date)
  end.

(** The lifetime: an [exp] is required, must lie ahead and no further than the ceiling. *)
Definition check_object_dates (claims : list (string * Value)) (t : SystemTime) : result unit ErrorResponse :=
  let? secs := ok_or (unix_seconds t)
    (with_description (error_new ServerError) "the server clock is outside the representable range") in
  let now_secs := f64_of_Z secs in
  let? date := numeric_date claims "exp" in
  let? exp := ok_or date (bad_object
    "the request object has no exp, so it would authorize its request for as long as the client's key stays registered") in
  if f64_le exp now_secs then Err (bad_object "the request object has expired")
  else
    let ceiling := match cfg_jar cfg with
                   | Some j => jrc_max_request_object_lifetime j
                   | None => from_secs 300
                   end in
    if f64_lt (f64_of_Z (as_secs ceiling)) (f64_sub exp now_secs)
    then Err (bad_object "the request object's remaining lifetime exceeds what this server accepts")
    else
      let? date := numeric_date claims "nbf" in
      match date with
      | Some nbf =>
          if f64_le (f64_add now_secs (f64_of_Z (as_secs CLOCK_SKEW_LEEWAY))) nbf
          then Err (bad_object "the request object is not yet valid") else Ok tt
      | None => Ok tt
      end.

(** The loop over an array of resources. *)
Fixpoint resource_strings (values : list Value) : result (list string) ErrorResponse :=
  match values with
  | [] => Ok []
  | value :: rest =>
      let? s := ok_or (as_str value) (bad_object "every resource claim entry must be a JSON string") in
      let? out := resource_strings rest in
      Ok (s :: out)
  end.

Definition resource_claim (claims : list (string * Value)) : result (list string) ErrorResponse :=
  match map_get "resource" claims with
  | None => Ok []
  | Some (VString one) => Ok [one]
  | Some (VArray many) => resource_strings many
  | Some _ => Err (bad_object "the resource claim must be a string or an array of strings")
  end.

Definition details_claim (claims : list (string * Value)) : result (option string) ErrorResponse :=
  match map_get "authorization_details" claims with
  | None => Ok None
  | Some (VArray items) => Ok (Some (json_to_string (VArray items)))
  | Some _ => Err (bad_object "the authorization_details claim must be a JSON array")
  end.

Definition max_age_claim (claims : list (string * Value)) : result (option string) ErrorResponse :=
  match map_get "max_age" claims with
  | None => Ok None
  | Some (VString s) => Ok (Some s)
  | Some (VNumber n) =>
      match as_u64 (VNumber n) with
      | Some secs => Ok (Some (nat_display (Z.to_nat secs)))
      | None => Err (bad_object "the max_age claim must be a non-negative number of seconds")
      end
  | Some _ => Err (bad_object "the max_age claim must be a JSON string or number")
  end.

(** The parameters, in the order they are read. *)
Definition object_parameters (client_id : ClientId) (claims : list (string * Value))
  : result RequestObjectClaims ErrorResponse :=
  let? resource := resource_claim claims in
  let? response_type := string_claim claims "response_type" in
  let? redirect_uri := string_claim claims "redirect_uri" in
  let? scope := string_claim claims "scope" in
  let? state := string_claim claims "state" in
  let? code_challenge := string_claim claims "code_challenge" in
  let? code_challenge_method := string_claim claims "code_challenge_method" in
  let? authorization_details := details_claim claims in
  let? acr_values := string_claim claims "acr_values" in
  let? max_age := max_age_claim claims in
  let? dpop_jkt := string_claim claims "dpop_jkt" in
  Ok {| ro_client_id := client_id; ro_response_type := response_type; ro_redirect_uri := redirect_uri;
        ro_scope := scope; ro_state := state; ro_code_challenge := code_challenge;
        ro_code_challenge_method := code_challenge_method; ro_resource := resource;
        ro_authorization_details := authorization_details; ro_acr_values := acr_values;
        ro_max_age := max_age; ro_dpop_jkt := dpop_jkt |}.

(** Everything up to the claims: what the client registered, the three parts, the header
    and the signature. *)
Definition signed_claims (client_id : ClientId) (request_object : string)
  : result (list (string * Value)) ErrorResponse :=
  if is_none (cfg_jar cfg) then
    Err (with_description (error_new RequestNotSupported) "this server does not accept signed request objects")
  else if MAX_REQUEST_OBJECT_BYTES <? Z.of_nat (str_len request_object) then
    Err (bad_object "the request object exceeds the maximum accepted size")
  else
    let? keys := ok_or (sv_request_object_keys self)
                   (bad_object "no request object verification keys are installed") in
    let? registered := ok_or (keys client_id) (bad_object "the client registered no request object key") in
    let? verifier := ok_or (jws_verifier self (rok_alg registered))
                       (bad_object "no verifier is installed for the registered algorithm") in
    match split_on "." request_object with
    | [header_b64; payload_b64; signature_b64] =>
        let? decoded := decode_segment header_b64 "the header is not base64url" in
        let? header := ok_or (json_from_slice decoded) (bad_object "the header is not JSON") in
        let? _ := check_object_header registered header in
        let? signature := decode_segment signature_b64 "the signature is not base64url" in
        let signing_input := take_str (str_len header_b64 + 1 + str_len payload_b64) request_object in
        if negb (jv_verify verifier (rok_key registered) signing_input signature)
        then Err (bad_object "the signature did not verify")
        else
          let? decoded := decode_segment payload_b64 "the payload is not base64url" in
          let? payload := ok_or (json_from_slice decoded) (bad_object "the payload is not JSON") in
          ok_or (match payload with VObject m => Some m | _ => None end)
            (bad_object "the payload is not a JSON object")
    | _ => Err (bad_object "not a three part JWS compact serialization")
    end.

Definition verified_request_object (client_id : ClientId) (request_object : string)
  : prog (result RequestObjectClaims ErrorResponse) :=
  let?! claims := signed_claims client_id request_object in
  let?! _ := check_object_claims client_id claims in
  let* t := now in
  let?! _ := check_object_dates claims t in
  Ret (object_parameters client_id claims).

Definition validate_signed_authorization_request (client_id request_object : string)
  : prog (result ValidatedAuthorizationRequest AuthorizationError) :=
  if is_some_and (cfg_par cfg) pc_require_pushed_authorization_requests then
    Ret (Err (direct InvalidRequest
      "this server accepts authorization request data only via PAR (RFC 9126 s4)"))
  else
    let* verified := verified_request_object client_id request_object in
    let?! claims := map_err Direct verified in
    validate_direct_authorization_request self (claims_as_request claims).
End objects.

(** ** The endpoint and its handles *)
Definition with_dpop_jkt (r : AuthorizationRequest) (jkt : string) : AuthorizationRequest := {|
  ar_response_type := ar_response_type r; ar_client_id := ar_client_id r;
  ar_redirect_uri := ar_redirect_uri r; ar_scope := ar_scope r; ar_state := ar_state r;
  ar_code_challenge := ar_code_challenge r; ar_code_challenge_method := ar_code_challenge_method r;
  ar_resource := ar_resource r; ar_authorization_details := ar_authorization_details r;
  ar_acr_values := ar_acr_values r; ar_max_age := ar_max_age r; ar_dpop_jkt := Some jkt |}.

Section push.
Context `{Crypto, Serde, Backends} (self : AuthorizationServer).
Let cfg := sv_config self.

Definition PAR_OFF : ErrorResponse :=
  with_description (error_new InvalidRequest) "this server does not offer pushed authorization requests".

(** [bind_par_dpop]: the request it is given, with the key of the proof. *)
Definition bind_par_dpop (request : AuthorizationRequest) (dpop_proof : option string)
  : prog (result AuthorizationRequest ErrorResponse) :=
  match dpop_proof with
  | None => Ret (Ok request)
  | Some proof =>
      match cfg_par cfg with
      | None => Ret (Err (error_new ServerError))
      | Some par =>
          let htu := par_endpoint par (issuer_identifier self) in
          let?* verified := verify_dpop_inner self (Some proof) "POST" htu in
          match verified with
          | None => Ret (Err (error_new ServerError))
          | Some jkt =>
              if is_some_and (ar_dpop_jkt request) (fun param => param != jkt)
              then Ret (Err (with_description (error_new InvalidDpopProof)
                "the dpop_jkt parameter does not match the key of the DPoP proof presented at the PAR endpoint (RFC 9449 s10.1)"))
              else Ret (Ok (with_dpop_jkt request jkt))
          end
      end
  end.

Definition push_error (e : AuthorizationError) : ErrorResponse :=
  match e with
  | Direct error => error
  | Redirect redirect => aer_error redirect
  end.

Definition store_pushed_request (authenticated : ClientId) (request : AuthorizationRequest)
    (pushed_at : SystemTime) : prog (result PushedAuthorizationResponse ErrorResponse) :=
  let?! _ := (match ar_client_id request with
              | Some pushed =>
                  if pushed == authenticated then Ok tt
                  else Err (with_description (error_new InvalidRequest)
                    "client_id does not match the authenticated client (RFC 9126 s2.1)")
              | None => Err (with_description (error_new InvalidRequest) "client_id is required (RFC 9126 s2.1)")
              end) in
  if is_some_and (cfg_par cfg) pc_require_redirect_uri && is_none (ar_redirect_uri request) then
    Ret (Err (with_description (error_new InvalidRequest)
      "redirect_uri is required in a pushed authorization request (FAPI 2.0 s5.3.2.2-6)"))
  else
    let* outcome := validate_direct_authorization_request self request in
    let?! _ := map_err push_error outcome in
    match cfg_par cfg with
    | None => Ret (Err PAR_OFF)
    | Some par =>
        let ttl := Z.max (pc_request_uri_ttl par) MIN_REQUEST_URI_TTL in
        let* t := now in
        let* drawn := try_random_hex REQUEST_URI_ENTROPY_BYTES in
        match drawn with
        | None => Ret (Err (error_new ServerError))
        | Some hex =>
            let request_uri := REQUEST_URI_PREFIX +:+ hex in
            let expires_at := saturating_deadline t ttl in
            let record := pushed_record request_uri authenticated request pushed_at expires_at in
            let?* stored := store_or storage_error (PutPushedAuthorizationRequest record) in
            if is_refused stored then
              Ret (Err (with_description (error_new InvalidClient)
                "this client was deleted while its request was being pushed"))
            else Ret (Ok {| pr_request_uri := request_uri;
                            pr_expires_in := as_secs (unwrap_or (duration_since expires_at t) MIN_REQUEST_URI_TTL) |})
        end
    end.

(** The request a push carries: a signed object, or the parameters. *)
Definition pushed_parameters (client : Client) (parameters : list (string * string))
  : prog (result AuthorizationRequest ErrorResponse) :=
  match find (fun p => fst p == "request") parameters with
  | Some (_, object) =>
      let?* claims := verified_request_object self (c_client_id client) object in
      Ret (Ok (claims_as_request claims))
  | None =>
      if is_some_and (cfg_jar cfg) jrc_require_signed_request_object then
        Ret (Err (with_description (error_new InvalidRequest)
          "this server acts only on signed request objects (RFC 9101 s10.5), and this push carried none"))
      else Ret (Ok (from_pairs parameters))
  end.

Definition pushed_authorization_request_inner (client_id : ClientId) (credential : ClientCredential)
    (parameters : list (string * string)) (dpop_proof : option string)
  : prog (result PushedAuthorizationResponse ErrorResponse) :=
  if is_none (cfg_par cfg) then Ret (Err PAR_OFF)
  else
    let* pushed_at := now in
    let?* client := authenticate_client self client_id credential in
    if existsb (fun p => fst p == "request_uri") parameters then
      Ret (Err (with_description (error_new InvalidRequest) "request_uri must not be pushed (RFC 9126 s2.1)"))
    else
      let?* request := pushed_parameters client parameters in
      let?* request := bind_par_dpop request dpop_proof in
      store_pushed_request (c_client_id client) request pushed_at.

Definition pushed_authorization_request_with_credential_and_proof := pushed_authorization_request_inner.
Definition pushed_authorization_request_with_credential (client_id : ClientId) (credential : ClientCredential)
    (parameters : list (string * string)) : prog (result PushedAuthorizationResponse ErrorResponse) :=
  pushed_authorization_request_inner client_id credential parameters None.
Definition pushed_authorization_request (client_id : ClientId) (client_secret : option string)
    (parameters : list (string * string)) : prog (result PushedAuthorizationResponse ErrorResponse) :=
  pushed_authorization_request_with_credential client_id (credential_secret client_secret) parameters.

Definition validate_pushed_authorization_request (client_id request_uri : string)
  : prog (result ValidatedAuthorizationRequest AuthorizationError) :=
  let?* found := store_or (fun e => Direct (storage_error e)) (TakePushedAuthorizationRequest request_uri) in
  let?! record := ok_or found (direct InvalidRequestUri "unknown, expired or already used request_uri") in
  if par_client_id record != client_id then
    let?* _ := store_or (fun e => Direct (storage_error e)) (PutPushedAuthorizationRequest record) in
    Ret (Err (direct InvalidRequestUri "request_uri was not issued to this client"))
  else
    let* t := now in
    if t >=? par_expires_at record then Ret (Err (direct InvalidRequestUri "request_uri has expired"))
    else validate_direct_authorization_request self (pushed_as_request record).
End push.

(** ** What an accepted request object has shown *)
Section object_facts.
Context `{Crypto, Serde, Backends} (self : AuthorizationServer).
Let cfg := sv_config self.

Definition object_ceiling : Duration :=
  match cfg_jar cfg with Some j => jrc_max_request_object_lifetime j | None => from_secs 300 end.

(** The object is signed with the key the client registered, and its claims are read as
    JSON from the signed payload. *)
Record object_signed (client_id : ClientId) (object : string) (claims : list (string * Value)) : Prop := {
  os_accepted : is_Some (cfg_jar cfg);
  os_size : Z.of_nat (str_len object) <= MAX_REQUEST_OBJECT_BYTES;
  os_signed : exists keys registered verifier h p s header decoded signature,
    sv_request_object_keys self = Some keys /\ keys client_id = Some registered /\
    jws_verifier self (rok_alg registered) = Some verifier /\ split_on "." object = [h; p; s] /\
    b64url_decode h ≫= json_from_slice = Some header /\ value_get "crit" header = None /\
    value_get "alg" header = Some (VString (jose_name (rok_alg registered))) /\
    (forall kid, value_get "kid" header = Some (VString kid) -> rok_kid registered = Some kid) /\
    (forall typ, value_get "typ" header = Some (VString typ) -> typ ∈ [REQUEST_OBJECT_TYP; "JWT"; "jwt"]) /\
    b64url_decode s = Some signature /\
    jv_verify verifier (rok_key registered) (take_str (str_len h + 1 + str_len p) object) signature = true /\
    b64url_decode p = Some decoded /\ json_from_slice decoded = Some (VObject claims);
}.

Lemma check_object_header_ok registered header : check_object_header registered header = Ok tt ->
  value_get "crit" header = None /\
  value_get "alg" header = Some (VString (jose_name (rok_alg registered))) /\
  (forall kid, value_get "kid" header = Some (VString kid) -> rok_kid registered = Some kid) /\
  (forall typ, value_get "typ" header = Some (VString typ) -> typ ∈ [REQUEST_OBJECT_TYP; "JWT"; "jwt"]).
Proof.
  unfold check_object_header. intros ([] & Hcrit & Hk)%and_then_ok.
  destruct (value_get "crit" header) as [[| | | |[]|]|]; try done.
  apply and_then_ok in Hk as (alg & Halg%ok_or_ok & Hk).
  destruct (bool_decide_reflect (classify_alg alg = Some (rok_alg registered))) as [Hc|]; [|done]. cbn [negb] in Hk.
  apply classify_alg_Some in Hc as ->. apply bind_Some in Halg as (v & Hv & Hs). destruct v; simplify_eq/=.
  apply and_then_ok in Hk as ([] & Hkid & Htyp). split_and!; [done|done| |].
  - intros kid Hpres. rewrite Hpres in Hkid. cbn in Hkid. by case_bool_decide.
  - intros typ Hpres. rewrite Hpres in Htyp. cbn in Htyp. repeat (case_bool_decide; [set_solver|]). done.
Qed.

Lemma signed_claims_ok client_id object claims :
  signed_claims self client_id object = Ok claims -> object_signed client_id object claims.
Proof.
  unfold signed_claims. fold cfg. destruct (cfg_jar cfg) as [jar|] eqn:Hjar; [|done]. cbn [is_none is_some negb].
  destruct (_ <? _) eqn:Hsize; [done|]. intros (keys & Hkeys%ok_or_ok & Hk)%and_then_ok.
  apply and_then_ok in Hk as (registered & Hreg%ok_or_ok & Hk).
  apply and_then_ok in Hk as (verifier & Hver%ok_or_ok & Hk).
  destruct (split_on "." object) as [|h [|p [|s [|]]]] eqn:Hsplit; try done.
  apply and_then_ok in Hk as (dh & Hdh%ok_or_ok & Hk). apply and_then_ok in Hk as (header & Hh%ok_or_ok & Hk).
  apply and_then_ok in Hk as ([] & Hchk%check_object_header_ok & Hk).
  apply and_then_ok in Hk as (signature & Hsig%ok_or_ok & Hk). cbv zeta in Hk.
  destruct (jv_verify _ _ _ _) eqn:Hv; [|done]. cbn [negb] in Hk.
  apply and_then_ok in Hk as (dp & Hdp%ok_or_ok & Hk). apply and_then_ok in Hk as (payload & Hp%ok_or_ok & Hk).
  apply ok_or_ok in Hk. destruct payload; simplify_eq. destruct Hchk as (Hcrit & Halg & Hkid & Htyp). bools.
  split; [by eexists|done|].
  exists keys, registered, verifier, h, p, s, header, dp, signature. split_and!; try done.
  by rewrite Hdh.
Qed.

Lemma string_claim_ok claims name o : string_claim claims name = Ok o -> map_get name claims = VString <$> o.
Proof. unfold string_claim. destruct (map_get name claims) as [[]|]; intros [= <-]; done. Qed.

Lemma check_object_claims_ok client_id claims : check_object_claims self client_id claims = Ok tt ->
  map_get "client_id" claims = Some (VString client_id) /\
  map_get "request" claims = None /\ map_get "request_uri" claims = None /\
  (forall aud, map_get "aud" claims = Some aud ->
     aud = VString (issuer_identifier self) \/
     exists many, aud = VArray many /\ VString (issuer_identifier self) ∈ many).
Proof.
  unfold check_object_claims. destruct (existsb _ _) eqn:Hf; [done|].
  intros (claimed & Hc%string_claim_ok & Hk)%and_then_ok.
  destruct (bool_decide_reflect (claimed = Some client_id)) as [->|]; [|done]. cbn [negb] in Hk. cbn in Hf.
  unfold contains_key in Hf.
  destruct (map_get "request" claims), (map_get "request_uri" claims); try done. split_and!; try done.
  intros aud Ha. rewrite Ha in Hk. destruct aud as [| | |one|many|]; try done; cbv zeta in Hk.
  - case_bool_decide; [|done]. left. congruence.
  - right. destruct (existsb _ many) eqn:He; [|done]. apply existsb_exists in He as (v & Hin%list_elem_of_In & Hv).
    destruct v; try done. cbn in Hv. bools. subst. eauto.
Qed.

Lemma verified_object_exec client_id object tr ro :
  exec (verified_request_object self client_id object) tr (Ok ro) ->
  exists claims t, tr = [ANow t] /\ object_signed client_id object claims /\
    check_object_claims self client_id claims = Ok tt /\
    check_object_dates self claims t = Ok tt /\ object_parameters client_id claims = Ok ro.
Proof.
  unfold verified_request_object. intros Hex.
  apply exec_lift_ok in Hex as [(claims & Hs%signed_claims_ok & Hex)|(? & _ & [=] & _)].
  apply exec_lift_ok in Hex as [([] & Hc & Hex)|(? & _ & [=] & _)].
  apply exec_bind in Hex as (tr1 & tr2 & t & -> & ->%exec_now & Hex).
  apply exec_lift_ok in Hex as [([] & Hd & Hex)|(? & _ & [=] & _)].
  destruct Hex as [-> Hp]. exists claims, t. rewrite app_nil_r. done.
Qed.

(** The claims that are not plain strings, as the parameters they stand for. *)
Definition resource_stated (claims : list (string * Value)) (resource : list string) : Prop :=
  match map_get "resource" claims with
  | None => resource = []
  | Some (VString one) => resource = [one]
  | Some (VArray many) => many = map VString resource
  | Some _ => False
  end.
Definition details_stated (claims : list (string * Value)) (details : option string) : Prop :=
  match map_get "authorization_details" claims with
  | None => details = None
  | Some (VArray items) => details = Some (json_to_string (VArray items))
  | Some _ => False
  end.
Definition max_age_stated (claims : list (string * Value)) (max_age : option string) : Prop :=
  match map_get "max_age" claims with
  | None => max_age = None
  | Some (VString s) => max_age = Some s
  | Some (VNumber n) => exists secs, as_u64 (VNumber n) = Some secs /\ max_age = Some (nat_display (Z.to_nat secs))
  | Some _ => False
  end.

(** Every parameter handed on is the claim of that name, and an absent claim is an absent
    parameter. *)
Record parameters_are_claims (client_id : ClientId) (claims : list (string * Value))
    (ro : RequestObjectClaims) : Prop := {
  pac_client_id : ro_client_id ro = client_id;
  pac_response_type : map_get "response_type" claims = VString <$> ro_response_type ro;
  pac_redirect_uri : map_get "redirect_uri" claims = VString <$> ro_redirect_uri ro;
  pac_scope : map_get "scope" claims = VString <$> ro_scope ro;
  pac_state : map_get "state" claims = VString <$> ro_state ro;
  pac_code_challenge : map_get "code_challenge" claims = VString <$> ro_code_challenge ro;
  pac_code_challenge_method : map_get "code_challenge_method" claims = VString <$> ro_code_challenge_method ro;
  pac_acr_values : map_get "acr_values" claims = VString <$> ro_acr_values ro;
  pac_dpop_jkt : map_get "dpop_jkt" claims = VString <$> ro_dpop_jkt ro;
  pac_resource : resource_stated claims (ro_resource ro);
  pac_details : details_stated claims (ro_authorization_details ro);
  pac_max_age : max_age_stated claims (ro_max_age ro);
}.

Lemma resource_strings_ok values : forall out, resource_strings values = Ok out -> values = map VString out.
Proof.
  induction values as [|value values IH]; cbn; [by intros out [= <-]|].
  intros out (s & Hs%ok_or_ok & Hk)%and_then_ok. apply and_then_ok in Hk as (rest & ->%IH & [= <-]).
  destruct value; simplify_eq/=. done.
Qed.

Lemma resource_claim_ok claims out : resource_claim claims = Ok out -> resource_stated claims out.
Proof.
  unfold resource_claim, resource_stated.
  destruct (map_get "resource" claims) as [[| | |one|many|]|]; intros Hk; simplify_eq; try done.
  by apply resource_strings_ok.
Qed.

Lemma details_claim_ok claims out : details_claim claims = Ok out -> details_stated claims out.
Proof.
  unfold details_claim, details_stated.
  destruct (map_get "authorization_details" claims) as [[]|]; intros Hk; by simplify_eq.
Qed.

Lemma max_age_claim_ok claims out : max_age_claim claims = Ok out -> max_age_stated claims out.
Proof.
  unfold max_age_claim, max_age_stated. destruct (map_get "max_age" claims) as [[| |n| | |]|]; intros Hk; simplify_eq; try done.
  destruct (as_u64 (VNumber n)) as [secs|]; [|done]. injection Hk as <-. by exists secs.
Qed.

Lemma object_parameters_ok client_id claims ro : object_parameters client_id claims = Ok ro ->
  parameters_are_claims client_id claims ro.
Proof.
  unfold object_parameters. intros Hk.
  repeat (apply and_then_ok in Hk as (? & ? & Hk)). injection Hk as <-.
  repeat match goal with H : string_claim _ _ = Ok _ |- _ => apply string_claim_ok in H end.
  split; cbn; try done; [by apply resource_claim_ok|by apply details_claim_ok|by apply max_age_claim_ok].
Qed.

(** The object is inside its validity when it is read at [t]: an expiry is stated, lies ahead
    and no further than the ceiling, and a start date, where there is one, is no further
    ahead than the leeway. *)
Record object_in_date (claims : list (string * Value)) (t : SystemTime) : Prop := {
  od_exp : exists secs v exp, unix_seconds t = Some secs /\ map_get "exp" claims = Some v /\ as_f64 v = Some exp /\
    f64_le exp (f64_of_Z secs) = false /\
    f64_lt (f64_of_Z (as_secs object_ceiling)) (f64_sub exp (f64_of_Z secs)) = false;
  od_nbf : forall v, map_get "nbf" claims = Some v -> exists secs nbf, unix_seconds t = Some secs /\
    as_f64 v = Some nbf /\ f64_le (f64_add (f64_of_Z secs) (f64_of_Z (as_secs CLOCK_SKEW_LEEWAY))) nbf = false;
}.

Lemma numeric_date_ok claims name date : numeric_date claims name = Ok date ->
  forall v, map_get name claims = Some v -> exists d, date = Some d /\ as_f64 v = Some d.
Proof.
  unfold numeric_date. intros Hk v Hv. rewrite Hv in Hk. apply and_then_ok in Hk as (d & Hd%ok_or_ok & [= <-]).
  by exists d.
Qed.

Lemma numeric_date_some claims name d : numeric_date claims name = Ok (Some d) ->
  exists v, map_get name claims = Some v /\ as_f64 v = Some d.
Proof.
  intros Hk. destruct (map_get name claims) as [v|] eqn:Hv; [|unfold numeric_date in Hk; by rewrite Hv in Hk].
  destruct (numeric_date_ok _ _ _ Hk v Hv) as (d' & [= <-] & Hd). by exists v.
Qed.

Lemma check_object_dates_ok claims t : check_object_dates self claims t = Ok tt -> object_in_date claims t.
Proof.
  unfold check_object_dates. fold cfg. intros (secs & Hsecs%ok_or_ok & Hd)%and_then_ok. cbv zeta in Hd.
  apply and_then_ok in Hd as (date & Hdate & Hd). apply and_then_ok in Hd as (exp & ->%ok_or_ok & Hd).
  destruct (f64_le exp _) eqn:Hle; [done|]. fold object_ceiling in Hd. destruct (f64_lt _ _) eqn:Hlt; [done|].
  apply numeric_date_some in Hdate as (v & Hv & Hexp).
  apply and_then_ok in Hd as (date & Hdate & Hd). split; [by exists secs, v, exp|].
  intros w Hw. destruct (numeric_date_ok _ _ _ Hdate w Hw) as (nbf & -> & Hnbf).
  destruct (f64_le _ nbf) eqn:Hn; [done|]. by exists secs, nbf.
Qed.

(** C16. A request object speaks for the client whose key signed it.  In every execution that
    accepts one for a client: the signature verifies under the key and the algorithm that
    client registered, and the header is that of a request object; the claims name this
    client, address this server if they address anyone, and do not nest another request;
    at the one time the server reads, a stated expiry lies ahead and within the configured
    lifetime, and a stated start date is not further ahead than the clock leeway; and each of
    the twelve parameters handed on is the claim of that name, an absent claim being an
    absent parameter. *)
Theorem request_object_sound client_id object tr ro :
  exec (verified_request_object self client_id object) tr (Ok ro) ->
  exists claims t, tr = [ANow t] /\ object_signed client_id object claims /\
    map_get "client_id" claims = Some (VString client_id) /\
    map_get "request" claims = None /\ map_get "request_uri" claims = None /\
    (forall aud, map_get "aud" claims = Some aud ->
       aud = VString (issuer_identifier self) \/
       exists many, aud = VArray many /\ VString (issuer_identifier self) ∈ many) /\
    object_in_date claims t /\ parameters_are_claims client_id claims ro.
Proof.
  intros (claims & t & -> & Hs & (Hid & Hr & Hru & Haud)%check_object_claims_ok & Hd & Hp)%verified_object_exec.
  exists claims, t. split_and!; try done; [by apply check_object_dates_ok|by apply object_parameters_ok].
Qed.

(** The dates of a request object that states them as integers. *)
Definition integer_date (claims : list (string * Value)) (name : string) (o : option Z) : Prop :=
  map_get name claims = (fun n => VNumber (PosInt n)) <$> o /\ (forall n, o = Some n -> 0 <= n < 2 ^ 53).

Lemma numeric_date_integer claims name o : integer_date claims name o ->
  numeric_date claims name = Ok (f64_of_Z <$> o).
Proof. intros [Hg _]. unfold numeric_date. rewrite Hg. by destruct o. Qed.

(** The floating-point reading of the dates is exact where it matters: for an object
    that states integer dates, and clocks and lifetimes below 2^53 seconds, the check
    accepts exactly when the expiry is after now and no more than the configured lifetime
    ahead, and a start date, if any, is less than the leeway ahead. *)
Theorem object_dates_exact claims t secs exp nbf :
  unix_seconds t = Some secs -> 0 <= secs < 2 ^ 52 -> 0 <= as_secs object_ceiling < 2 ^ 53 ->
  integer_date claims "exp" (Some exp) -> integer_date claims "nbf" nbf ->
  check_object_dates self claims t = Ok tt <->
  secs < exp <= secs + as_secs object_ceiling /\ (forall n, nbf = Some n -> n < secs + 60).
Proof.
  intros Ht Hs Hc Hexp Hnbf. unfold check_object_dates. rewrite Ht. cbn [ok_or and_then].
  rewrite (numeric_date_integer _ _ _ Hexp), (numeric_date_integer _ _ _ Hnbf). cbn [fmap option_fmap option_map ok_or and_then].
  fold cfg object_ceiling. destruct Hexp as [_ Hexp]. specialize (Hexp exp eq_refl).
  rewrite f64_le_exact by lia. destruct (Z.leb_spec exp secs); [split; [done|lia]|].
  rewrite f64_sub_exact, f64_lt_exact by lia. destruct (Z.ltb_spec (as_secs object_ceiling) (exp - secs)).
  { split; [done|]. lia. }
  destruct Hnbf as [_ Hnbf]. destruct nbf as [n|]; cbn; [|split; [intros _; split; [lia|done]|done]].
  specialize (Hnbf n eq_refl). change (as_secs CLOCK_SKEW_LEEWAY) with 60.
  rewrite f64_add_exact, f64_le_exact by lia. destruct (Z.leb_spec (secs + 60) n).
  - split; [done|]. intros [_ Hn]. specialize (Hn n eq_refl). lia.
  - split; [|done]. intros _. split; [lia|]. intros ? [= <-]. lia.
Qed.
End object_facts.

(** ** What a pushed request has been through *)
Section push_facts.
Context `{Crypto, Serde, Backends} (self : AuthorizationServer).

(** Storing a request and reading it back changes nothing. *)
Lemma pushed_as_request_record uri client_id request pushed_at expires_at :
  ar_client_id request = Some client_id ->
  pushed_as_request (pushed_record uri client_id request pushed_at expires_at) = request.
Proof. intros Hc. destruct request; cbn in *. by subst. Qed.

(** The [expect] of [bind_par_dpop] never fails: a proof that is accepted names a key. *)
Lemma verify_dpop_some proof htm htu tr o :
  exec (verify_dpop_inner self (Some proof) htm htu) tr (Ok o) -> is_Some o.
Proof. unfold verify_dpop_inner. intros Hex. exec_inv; eauto. Qed.

Lemma bind_par_dpop_exec request proof tr bound :
  exec (bind_par_dpop self request proof) tr (Ok bound) ->
  match proof with
  | None => bound = request
  | Some p => exists jkt tr' par, cfg_par (sv_config self) = Some par /\
      exec (verify_dpop_inner self (Some p) "POST" (par_endpoint par (issuer_identifier self))) tr' (Ok (Some jkt)) /\
      (forall y, y ∈ tr' -> y ∈ tr) /\
      (forall k, ar_dpop_jkt request = Some k -> k = jkt) /\ bound = with_dpop_jkt request jkt
  end.
Proof.
  unfold bind_par_dpop. destruct proof as [p|]; [|by intros [_ [= <-]]]. intros Hex.
  destruct (cfg_par (sv_config self)) as [par|] eqn:Hp; [|by exec_inv].
  apply exec_bind_ok in Hex as [(tr1 & tr2 & o & -> & Hv & Hex)|(? & [=] & _)].
  destruct o as [jkt|]; [|by exec_inv]. destruct (is_some_and _ _) eqn:Hm; [by exec_inv|].
  destruct Hex as [-> [= ->]]. exists jkt, tr1, par. split_and!; try done; [intros y Hy; in_trace|].
  intros k Hk. rewrite Hk in Hm. cbn in Hm. by bools.
Qed.

(** The handle stands for a request that was validated, of the client that pushed it. *)
Record handle_for (client_id : ClientId) (request : AuthorizationRequest) (record : PushedAuthorizationRequest)
    (tr : list Act) : Prop := {
  hf_client : par_client_id record = client_id;
  hf_request : pushed_as_request record = request;
  hf_stored : AStore (PutPushedAuthorizationRequest record) (Ok Applied) ∈ tr;
  hf_valid : exists v client, AStore (GetClient client_id) (Ok (Some client)) ∈ tr /\
             validated_for self request client v;
  hf_redirect : is_some_and (cfg_par (sv_config self)) pc_require_redirect_uri = true ->
                is_Some (ar_redirect_uri request);
}.

Lemma store_pushed_exec client_id request pushed_at tr r :
  exec (store_pushed_request self client_id request pushed_at) tr (Ok r) ->
  exists record t ttl, handle_for client_id request record tr /\ pr_request_uri r = par_request_uri record /\
    par_pushed_at record = pushed_at /\ ANow t ∈ tr /\ MIN_REQUEST_URI_TTL <= ttl /\
    par_expires_at record = saturating_deadline t ttl /\
    pr_expires_in r = as_secs (unwrap_or (duration_since (par_expires_at record) t) MIN_REQUEST_URI_TTL) /\
    exists hex, par_request_uri record = REQUEST_URI_PREFIX +:+ hex.
Proof.
  unfold store_pushed_request. intros Hex.
  apply exec_lift_ok in Hex as [([] & Hid & Hex)|(? & _ & [=] & _)].
  assert (Hcid : ar_client_id request = Some client_id).
  { destruct (ar_client_id request); [|done]. case_bool_decide; [by subst|done]. }
  match type of Hex with exec (if ?b then _ else _) _ _ => destruct b eqn:Hru; [by exec_inv|] end.
  apply exec_bind in Hex as (tr1 & tr2 & outcome & -> & Hval & Hex).
  apply exec_lift_ok in Hex as [(v & ->%map_err_ok & Hex)|(? & _ & [=] & _)].
  apply validate_direct_exec in Hval as [[? [=]]|(cid & client & uri & Hc & Hget & Huri & Hv)].
  symmetry in Hv. apply validate_parameters_for in Hv as Hvf; [|done]. simplify_eq.
  destruct (cfg_par (sv_config self)) as [par|] eqn:Hp; [|by exec_inv]. cbv zeta in Hex.
  apply exec_bind in Hex as (tr3 & tr4 & t & -> & ->%exec_now & Hex).
  apply exec_bind in Hex as (tr5 & tr6 & drawn & -> & _ & Hex). destruct drawn as [hex|]; [|by exec_inv].
  apply exec_bind_ok in Hex as [(tr7 & tr8 & stored & -> & Hput & Hex)|(? & [=] & _)].
  destruct stored; [|by exec_inv]. destruct Hex as [-> [= ->]].
  apply exec_store_or in Hput as ([|] & [=] & ->); subst.
  eexists (pushed_record _ _ _ _ _), t, _. split_and!.
  - split; [done|by apply pushed_as_request_record|in_trace| |].
    + exists v, client. split; [in_trace|done].
    + rewrite Hp. cbn in Hru |- *. intros Hreq. rewrite Hreq in Hru. by destruct (ar_redirect_uri request).
  - done.
  - done.
  - in_trace.
  - apply Z.le_max_r.
  - done.
  - done.
  - by eexists.
Qed.

Lemma pushed_parameters_exec client parameters tr request :
  exec (pushed_parameters self client parameters) tr (Ok request) ->
  match find (fun p => fst p == "request") parameters with
  | Some (_, object) => exists ro tr', request = claims_as_request ro /\
      exec (verified_request_object self (c_client_id client) object) tr' (Ok ro)
  | None => request = from_pairs parameters /\
            is_some_and (cfg_jar (sv_config self)) jrc_require_signed_request_object = false
  end.
Proof.
  unfold pushed_parameters. intros Hex. destruct (find _ parameters) as [[n object]|].
  - apply exec_bind_ok in Hex as [(tr1 & tr2 & ro & -> & Hv & Hex)|(? & [=] & _)].
    destruct Hex as [-> [= ->]]. eauto.
  - destruct (is_some_and _ _) eqn:Hj; [by exec_inv|]. destruct Hex as [-> [= ->]]. done.
Qed.

(** A handle is only minted for a checked request of an authenticated client.  In every
    execution of the pushed-request endpoint that answers with a [request_uri]: the client
    proved its identity; the request names that same client; it was validated exactly as a
    direct request would be; it came in a signed object where the server insists on one, or
    in the parameters; a DPoP proof sent along was verified and its key is the one the
    request is bound to; the store accepted the record that reads back as that request; and
    the answer states how long the handle lasts, at least one second. *)
Theorem pushed_request_checked client_id cred parameters proof tr r :
  exec (pushed_authorization_request_inner self client_id cred parameters proof) tr (Ok r) ->
  exists client request bound record t ttl,
    AStore (GetClient client_id) (Ok (Some client)) ∈ tr /\ credential_proven self client cred tr /\
    match find (fun p => fst p == "request") parameters with
    | Some (_, object) => exists ro tr', request = claims_as_request ro /\
        exec (verified_request_object self (c_client_id client) object) tr' (Ok ro)
    | None => request = from_pairs parameters /\
              is_some_and (cfg_jar (sv_config self)) jrc_require_signed_request_object = false
    end /\
    match proof with
    | None => bound = request
    | Some _ => exists jkt, bound = with_dpop_jkt request jkt /\
                            (forall k, ar_dpop_jkt request = Some k -> k = jkt)
    end /\
    handle_for (c_client_id client) bound record tr /\ pr_request_uri r = par_request_uri record /\
    ANow t ∈ tr /\ MIN_REQUEST_URI_TTL <= ttl /\ par_expires_at record = saturating_deadline t ttl /\
    (t + ttl <= TIME_MAX -> pr_expires_in r = as_secs ttl /\ 1 <= pr_expires_in r).
Proof.
  unfold pushed_authorization_request_inner. intros Hex. exec_step; [by exec_inv|].
  apply exec_bind in Hex as (tr1 & tr2 & pushed_at & -> & ->%exec_now & Hex).
  apply exec_bind_ok in Hex as [(tr3 & tr4 & client & -> & Hauth & Hex)|(? & [=] & _)].
  exec_step; [by exec_inv|].
  apply exec_bind_ok in Hex as [(tr5 & tr6 & request & -> & Hpar & Hex)|(? & [=] & _)].
  apply exec_bind_ok in Hex as [(tr7 & tr8 & bound & -> & Hbind & Hex)|(? & [=] & _)].
  apply store_pushed_exec in Hex as (record & t & ttl & Hh & Huri & _ & Hnow & Hmin & Hexp & Hin & _).
  apply pushed_parameters_exec in Hpar. apply bind_par_dpop_exec in Hbind.
  apply authenticate_client_exec in Hauth as (Hget & Hproven & _).
  exists client, request, bound, record, t, ttl. split_and!; try done; [in_trace| | | |in_trace|].
  - eapply credential_proven_mono; [|done]. intros y Hy. in_trace.
  - destruct proof; [|done]. destruct Hbind as (jkt & _ & _ & _ & _ & _ & ? & ?). eauto.
  - destruct Hh as [? ? ? (v & c & ? & ?) ?]. split; try done; [in_trace|]. exists v, c. split; [in_trace|done].
  - intros Hle. rewrite Hexp in Hin. unfold saturating_deadline in Hin.
    destruct (checked_add t ttl) as [e|] eqn:Ha; [|apply checked_add_None in Ha; lia].
    apply checked_add_Some in Ha as [-> _]. unfold duration_since in Hin.
    assert (0 < MIN_REQUEST_URI_TTL) by done. replace (t <=? t + ttl) with true in Hin by lia.
    cbn [unwrap_or] in Hin. replace (t + ttl - t) with ttl in Hin by lia. split; [done|].
    rewrite Hin. unfold as_secs, MIN_REQUEST_URI_TTL, from_secs in *. apply Z.div_le_lower_bound; [done|]. lia.
Qed.

(** A handle is honoured only for the client it was issued to and only before it
    expires, and what is validated is the stored request: in every execution that accepts
    a [request_uri] the store handed over (and no longer holds) its record, issued to the
    client named, not expired, and the request in the record passed the same validation as
    a direct one. *)
Theorem pushed_handle_honoured client_id request_uri tr v :
  exec (validate_pushed_authorization_request self client_id request_uri) tr (Ok v) ->
  exists record t client, AStore (TakePushedAuthorizationRequest request_uri) (Ok (Some record)) ∈ tr /\
    par_client_id record = client_id /\ ANow t ∈ tr /\ t < par_expires_at record /\
    AStore (GetClient client_id) (Ok (Some client)) ∈ tr /\
    validated_for self (pushed_as_request record) client v.
Proof.
  unfold validate_pushed_authorization_request. intros Hex.
  apply exec_bind_ok in Hex as [(tr1 & tr2 & found & -> & Htake & Hex)|(? & [=] & _)].
  apply exec_store_or in Htake as ([|] & [=] & ->); subst.
  apply exec_lift_ok in Hex as [(record & Hr%ok_or_ok & Hex)|(? & _ & [=] & _)]. subst.
  destruct (bool_decide_reflect (par_client_id record = client_id)) as [Hid|]; cbn [negb] in Hex; [|by exec_inv].
  apply exec_bind in Hex as (tr3 & tr4 & t & -> & ->%exec_now & Hex).
  destruct (t >=? par_expires_at record) eqn:Ht; [by exec_inv|].
  apply validate_direct_exec in Hex as [[? [=]]|(cid & client & uri & Hc & Hget & Huri & Hv)].
  symmetry in Hv. apply validate_parameters_for in Hv; [|done]. cbn in Hc. simplify_eq. bools.
  exists record, t, client. split_and!; try done; in_trace.
Qed.
End push_facts.

(** ** Evaluation *)
Definition par_server : AuthorizationServer := {|
  sv_config := {|
    cfg_issuer := "https://as"; cfg_verification_uri := "https://as/device";
    cfg_authorization_endpoint := None; cfg_token_endpoint := None;
    cfg_device_authorization_endpoint := None; cfg_introspection_endpoint := None;
    cfg_revocation_endpoint := None; cfg_jwks_uri := None; cfg_registration := None;
    cfg_par := Some par_config_new; cfg_jar := Some jar_config_default; cfg_cimd := None;
    cfg_scopes_supported := None; cfg_allowed_resources := None; cfg_resource_servers := None;
    cfg_service_documentation := None; cfg_authorization_details_types_supported := None;
    cfg_protected_resources := None; cfg_access_token_format := OpaqueFormat;
    cfg_jws_alg_allow_list := allow_all; cfg_authorization_code_ttl := from_secs 60;
    cfg_include_verification_uri_complete := false; cfg_device_code_ttl := from_secs 600;
    cfg_poll_interval := from_secs 5; cfg_slow_down_increment := from_secs 5;
    cfg_access_token_ttl := from_secs 3600; cfg_issue_refresh_tokens := true;
    cfg_allow_sender_constrained_exchange := false; cfg_allow_authorization_details_exchange := false;
    cfg_refresh_token_ttl := None; cfg_refresh_reuse_window := from_secs 3600;
    cfg_refresh_retry_window := 0; cfg_refresh_rotation := Rotate; cfg_require_dpop := false;
    cfg_assertion_audience := Rfc7523; cfg_user_code_length := 8 |};
  sv_hooks := {| h_events := true; h_rate_limiter := true |};
  sv_secret_verifier := None; sv_jws_verifiers := Some (install demo_verifier no_verifiers);
  sv_registration_policy := None;
  sv_request_object_keys := Some (fun _ => Some {| rok_alg := Rs256; rok_kid := None;
                                                   rok_key := JwkRsa "00" "01" None |}) |}.

Definition object_claims_demo : list (string * Value) :=
  [("client_id", VString "app"); ("aud", VString "https://as"); ("exp", VNumber (PosInt 300));
   ("response_type", VString "code"); ("code_challenge", VString (repeat_char "A" 43));
   ("code_challenge_method", VString "S256")].
Definition object_serde : Serde := {|
  json_from_slice s :=
    if s == "header" then Some (VObject [("alg", VString "RS256")])
    else if s == "claims" then Some (VObject object_claims_demo)
    else None;
  details_from_str _ := None;
  json_to_string _ := EmptyString |}.
Definition demo_object : string := @compact_jws plain_crypto "header" "claims" (fun input => input).
Definition demo_parameters : list (string * string) :=
  [("client_id", "app"); ("response_type", "code"); ("code_challenge", repeat_char "A" 43);
   ("code_challenge_method", "S256")].

Lemma request_object_sound_witness : exists (tr : list Act) claims,
  @object_signed plain_crypto object_serde no_backends par_server "app" demo_object claims /\
  map_get "client_id" claims = Some (VString "app").
Proof.
  destruct (run_exec_ok demo_env (@verified_request_object plain_crypto object_serde no_backends par_server
    "app" demo_object) (world_of mi_empty)) as (tr & ro & Htr); [vm_compute; reflexivity|].
  destruct (@request_object_sound plain_crypto object_serde no_backends par_server "app" demo_object tr ro Htr)
    as (claims & t & _ & Hs & Hid & _).
  exists tr, claims. split; [exact Hs|exact Hid].
Defined.

Lemma object_dates_exact_witness :
  check_object_dates par_server object_claims_demo (from_secs 100) = Ok tt <->
  100 < 300 <= 100 + 300 /\ (forall n, None = Some n -> n < 160).
Proof.
  apply (object_dates_exact par_server object_claims_demo (from_secs 100) 100 300 None).
  - reflexivity.
  - lia.
  - split; [discriminate|reflexivity].
  - split; [reflexivity|]. intros n [= <-]. lia.
  - split; [reflexivity|discriminate].
Defined.

Lemma pushed_request_checked_witness : exists (tr : list Act) client_id bound record,
  handle_for par_server client_id bound record tr.
Proof.
  destruct (run_exec_ok demo_env (@pushed_authorization_request_inner plain_crypto object_serde no_backends
    par_server "app" (demo_cred (Some "s3cret")) [("request", demo_object)] None)
    (world_of demo_authorization_store)) as (tr & r & Htr); [vm_compute; reflexivity|].
  destruct (@pushed_request_checked plain_crypto object_serde no_backends par_server "app"
    (demo_cred (Some "s3cret")) [("request", demo_object)] None tr r Htr)
    as (client & request & bound & record & t & ttl & _ & _ & _ & _ & Hh & _).
  exists tr, (c_client_id client), bound, record. exact Hh.
Defined.

Definition demo_pushed : PushedAuthorizationRequest :=
  pushed_record "urn:demo" "app" (from_pairs demo_parameters) (from_secs 90) (from_secs 500).
Definition demo_pushed_store : MemoryInner :=
  run_op (any (PutPushedAuthorizationRequest demo_pushed)) demo_authorization_store.

Lemma pushed_handle_honoured_witness : exists (tr : list Act) record,
  AStore (TakePushedAuthorizationRequest "urn:demo") (Ok (Some record)) ∈ tr /\ par_client_id record = "app".
Proof.
  destruct (run_exec_ok demo_env (@validate_pushed_authorization_request object_serde par_server "app" "urn:demo")
    (world_of demo_pushed_store)) as (tr & v & Htr); [vm_compute; reflexivity|].
  destruct (@pushed_handle_honoured object_serde par_server "app" "urn:demo" tr v Htr)
    as (record & t & client & Htake & Hid & _).
  exists tr, record. split; [exact Htake|exact Hid].
Defined.
