(* ===== verification/Metadata.v ===== *)
(** * The metadata document

    [metadata.rs]: the RFC 8414 document a server publishes, computed from its
    configuration and the verifiers it has, and the paths of the issuer.  The published
    endpoints and algorithms are the ones the handlers use. *)
From S2P Require Import Prelude Time Codec Scope Types Effects Jws Keys Credentials Config Registration Par.

Definition WELL_KNOWN_PATH : string := "/.well-known/oauth-authorization-server".

(** [s.find(pattern)]: what follows the first occurrence. *)
Fixpoint after_first (pattern s : string) : option string :=
  match strip_prefix pattern s with
  | Some rest => Some rest
  | None => match s with
            | EmptyString => None
            | String _ s' => after_first pattern s'
            end
  end.

Definition issuer_path (issuer : string) : string :=
  let authority := unwrap_or (after_first "://" issuer) issuer in
  match find_char "/" authority with
  | Some i => trim_end_matches "/" (drop_str i authority)
  | None => EmptyString
  end.

Definition well_known_path (issuer : string) : string := WELL_KNOWN_PATH +:+ issuer_path issuer.

Record AuthorizationServerMetadata : Type := {
  md_issuer : string;
  md_authorization_endpoint : string;
  md_token_endpoint : string;
  md_device_authorization_endpoint : string;
  md_introspection_endpoint : option string;
  md_revocation_endpoint : option string;
  md_registration_endpoint : option string;
  md_jwks_uri : option string;
  md_scopes_supported : option (list string);
  md_pushed_authorization_request_endpoint : option string;
  md_require_pushed_authorization_requests : option bool;
  md_request_object_signing_alg_values_supported : option (list string);
  md_require_signed_request_object : option bool;
  md_response_types_supported : list string;
  md_response_modes_supported : list string;
  md_grant_types_supported : list string;
  md_token_endpoint_auth_methods_supported : list string;
  md_token_endpoint_auth_signing_alg_values_supported : option (list string);
  md_dpop_signing_alg_values_supported : option (list string);
  md_code_challenge_methods_supported : list string;
  md_service_documentation : option string;
  md_protected_resources : option (list string);
  md_authorization_details_types_supported : option (list string);
  md_client_id_metadata_document_supported : bool;
  md_authorization_response_iss_parameter_supported : bool;
  md_tls_client_certificate_bound_access_tokens : bool;
}.

Definition under_issuer (issuer path : string) : string := trim_end_matches "/" issuer +:+ path.

Definition advertised_jwks_uri (config : ServerConfig) : option string :=
  match cfg_access_token_format config with
  | OpaqueFormat => None
  | JwtFormat jwt => option_or (jc_jwks_uri jwt) (cfg_jwks_uri config)
  end.

Definition baseline_algs (names : list string) (allow : AlgAllowList) : list string :=
  List.filter (fun name => match classify_alg name with Some alg => is_allowed allow alg | None => true end) names.

Definition ASSERTION_SIGNING_ALGS : list string := ["HS256"; "ES256"].
Definition DPOP_SIGNING_ALG_VALUES_SUPPORTED : list string := ["ES256"].
Definition REQUEST_OBJECT_SIGNING_ALGS : list string := ["ES256"].

(** The closure [endpoint] of [from_config]. *)
Definition endpoint_or (iss : string) (override : option string) (path : string) : string :=
  unwrap_or override (under_issuer iss path).

Definition from_config (config : ServerConfig) : AuthorizationServerMetadata :=
  let iss := trim_end_matches "/" (cfg_issuer config) in
  {| md_issuer := iss;
     md_authorization_endpoint := endpoint_or iss (cfg_authorization_endpoint config) "/authorize";
     md_token_endpoint := endpoint_or iss (cfg_token_endpoint config) "/token";
     md_device_authorization_endpoint :=
       endpoint_or iss (cfg_device_authorization_endpoint config) "/device_authorization";
     md_introspection_endpoint := cfg_introspection_endpoint config;
     md_revocation_endpoint := Some (endpoint_or iss (cfg_revocation_endpoint config) "/revoke");
     md_registration_endpoint :=
       (fun r => endpoint_or iss (rc_registration_endpoint r) "/register") <$> cfg_registration config;
     md_jwks_uri := advertised_jwks_uri config;
     md_scopes_supported := cfg_scopes_supported config;
     md_pushed_authorization_request_endpoint := (fun par => par_endpoint par iss) <$> cfg_par config;
     md_require_pushed_authorization_requests :=
       pc_require_pushed_authorization_requests <$> cfg_par config;
     md_request_object_signing_alg_values_supported :=
       (fun _ => baseline_algs REQUEST_OBJECT_SIGNING_ALGS (cfg_jws_alg_allow_list config)) <$> cfg_jar config;
     md_require_signed_request_object := jrc_require_signed_request_object <$> cfg_jar config;
     md_response_types_supported := ["code"];
     md_response_modes_supported := ["query"];
     md_grant_types_supported :=
       ["authorization_code"] ++ (if cfg_issue_refresh_tokens config then ["refresh_token"] else [])
       ++ ["client_credentials"; grant_as_str DeviceCode; grant_as_str TokenExchange];
     md_token_endpoint_auth_methods_supported :=
       ["client_secret_basic"; "client_secret_post"; "none"; "client_secret_jwt"; "private_key_jwt";
        "tls_client_auth"; "self_signed_tls_client_auth"];
     md_token_endpoint_auth_signing_alg_values_supported :=
       Some (baseline_algs ASSERTION_SIGNING_ALGS (cfg_jws_alg_allow_list config));
     md_dpop_signing_alg_values_supported :=
       Some (baseline_algs DPOP_SIGNING_ALG_VALUES_SUPPORTED (cfg_jws_alg_allow_list config));
     md_code_challenge_methods_supported := ["S256"];
     md_service_documentation := cfg_service_documentation config;
     md_protected_resources := cfg_protected_resources config;
     md_authorization_details_types_supported := cfg_authorization_details_types_supported config;
     md_client_id_metadata_document_supported := is_some (cfg_cimd config);
     md_authorization_response_iss_parameter_supported := true;
     md_tls_client_certificate_bound_access_tokens := true |}.

(** [if !list.contains(&name) { list.push(name) }] *)
Definition push_new (name : string) (l : list string) : list string :=
  if existsb (fun a => a == name) l then l else l ++ [name].

Definition mark_alg_verifiable (self : AuthorizationServerMetadata) (alg : JwsAlg) : AuthorizationServerMetadata :=
  let name := jose_name alg in
  {| md_issuer := md_issuer self; md_authorization_endpoint := md_authorization_endpoint self;
     md_token_endpoint := md_token_endpoint self;
     md_device_authorization_endpoint := md_device_authorization_endpoint self;
     md_introspection_endpoint := md_introspection_endpoint self;
     md_revocation_endpoint := md_revocation_endpoint self;
     md_registration_endpoint := md_registration_endpoint self; md_jwks_uri := md_jwks_uri self;
     md_scopes_supported := md_scopes_supported self;
     md_pushed_authorization_request_endpoint := md_pushed_authorization_request_endpoint self;
     md_require_pushed_authorization_requests := md_require_pushed_authorization_requests self;
     md_request_object_signing_alg_values_supported :=
       if is_some (md_require_signed_request_object self)
       then Some (push_new name (unwrap_or (md_request_object_signing_alg_values_supported self) []))
       else md_request_object_signing_alg_values_supported self;
     md_require_signed_request_object := md_require_signed_request_object self;
     md_response_types_supported := md_response_types_supported self;
     md_response_modes_supported := md_response_modes_supported self;
     md_grant_types_supported := md_grant_types_supported self;
     md_token_endpoint_auth_methods_supported :=
       push_new "private_key_jwt" (md_token_endpoint_auth_methods_supported self);
     md_token_endpoint_auth_signing_alg_values_supported :=
       Some (push_new name (unwrap_or (md_token_endpoint_auth_signing_alg_values_supported self) []));
     md_dpop_signing_alg_values_supported :=
       Some (push_new name (unwrap_or (md_dpop_signing_alg_values_supported self) []));
     md_code_challenge_methods_supported := md_code_challenge_methods_supported self;
     md_service_documentation := md_service_documentation self;
     md_protected_resources := md_protected_resources self;
     md_authorization_details_types_supported := md_authorization_details_types_supported self;
     md_client_id_metadata_document_supported := md_client_id_metadata_document_supported self;
     md_authorization_response_iss_parameter_supported := md_authorization_response_iss_parameter_supported self;
     md_tls_client_certificate_bound_access_tokens := md_tls_client_certificate_bound_access_tokens self |}.

Section metadata.
Context `{Backends} (self : AuthorizationServer).

Definition metadata : AuthorizationServerMetadata :=
  foldl (fun meta alg => if is_some (jws_verifier self alg) then mark_alg_verifiable meta alg else meta)
    (from_config (sv_config self)) ALL.
End metadata.

(** ** The document agrees with the handlers *)
Lemma trim_end_idem c s : trim_end_matches c (trim_end_matches c s) = trim_end_matches c s.
Proof.
  induction s as [|x s IH]; [done|]. cbn [trim_end_matches]. destruct (trim_end_matches c s) as [|y t] eqn:Ht.
  - destruct (Ascii.eqb x c) eqn:Hx; [done|]. cbn. by rewrite Hx.
  - change (trim_end_matches c (String x (String y t))) with
      (match trim_end_matches c (String y t) with
       | EmptyString => if Ascii.eqb x c then EmptyString else String x EmptyString
       | String _ _ as t => String x t
       end). by rewrite IH.
Qed.

Lemma push_new_elem name l n : n ∈ push_new name l <-> n = name \/ n ∈ l.
Proof.
  unfold push_new. destruct (existsb _ l) eqn:He; [|set_solver]. apply existsb_exists in He as (a & Hin & Ha).
  apply list_elem_of_In in Hin. apply bool_decide_eq_true in Ha. subst. set_solver.
Qed.

Lemma baseline_elem names allow n : n ∈ baseline_algs names allow <->
  n ∈ names /\ (forall alg, n = jose_name alg -> is_allowed allow alg = true).
Proof.
  unfold baseline_algs. rewrite list_elem_of_In, filter_In, <- list_elem_of_In. split; intros [Hin Hf]; (split; [done|]).
  - intros alg ->. by rewrite classify_alg_jose in Hf.
  - destruct (classify_alg n) as [alg|] eqn:Hc; [|done]. apply classify_alg_Some in Hc. auto.
Qed.

Section agreement.
Context `{Backends} (self : AuthorizationServer).

(** A list grown by the verifiable algorithms. *)
Definition grown (algs : list JwsAlg) (l : list string) : list string :=
  foldl (fun l alg => if is_some (jws_verifier self alg) then push_new (jose_name alg) l else l) l algs.

Lemma grown_elem algs : forall l n, n ∈ grown algs l <->
  n ∈ l \/ exists alg, alg ∈ algs /\ n = jose_name alg /\ jws_verifier self alg <> None.
Proof.
  induction algs as [|a algs IH]; intros l n; [cbn; set_solver|].
  change (grown (a :: algs) l) with
    (grown algs (if is_some (jws_verifier self a) then push_new (jose_name a) l else l)). rewrite IH.
  destruct (jws_verifier self a) as [v|] eqn:Ha; cbn.
  - rewrite push_new_elem. split; [|set_solver].
    intros [[->|?]|?]; [|by left|set_solver]. right. exists a. rewrite Ha. set_solver.
  - split; [set_solver|]. intros [?|(alg & [->|?]%elem_of_cons & ? & ?)]; [by left|done|set_solver].
Qed.

(** What marking the algorithms leaves alone, and what it grows. *)
Definition marked_from (base : AuthorizationServerMetadata) (algs : list JwsAlg) : AuthorizationServerMetadata :=
  foldl (fun meta alg => if is_some (jws_verifier self alg) then mark_alg_verifiable meta alg else meta) base algs.

Lemma marked_fields algs : forall base dpop assertion,
  md_dpop_signing_alg_values_supported base = Some dpop ->
  md_token_endpoint_auth_signing_alg_values_supported base = Some assertion ->
  is_some (md_request_object_signing_alg_values_supported base) = is_some (md_require_signed_request_object base) ->
  let m := marked_from base algs in
  md_issuer m = md_issuer base /\ md_token_endpoint m = md_token_endpoint base /\
  md_pushed_authorization_request_endpoint m = md_pushed_authorization_request_endpoint base /\
  md_registration_endpoint m = md_registration_endpoint base /\
  md_dpop_signing_alg_values_supported m = Some (grown algs dpop) /\
  md_token_endpoint_auth_signing_alg_values_supported m = Some (grown algs assertion) /\
  md_request_object_signing_alg_values_supported m =
    grown algs <$> md_request_object_signing_alg_values_supported base.
Proof.
  induction algs as [|a algs IH]; intros base dpop assertion Hd Ha Hr.
  - cbn. split_and!; try done. by destruct (md_request_object_signing_alg_values_supported base).
  - cbv zeta.
    change (marked_from base (a :: algs)) with
      (marked_from (if is_some (jws_verifier self a) then mark_alg_verifiable base a else base) algs).
    assert (Hg : forall l, grown (a :: algs) l =
      grown algs (if is_some (jws_verifier self a) then push_new (jose_name a) l else l)) by done.
    assert (Hro : grown (a :: algs) <$> md_request_object_signing_alg_values_supported base =
      (fun l => grown algs (if is_some (jws_verifier self a) then push_new (jose_name a) l else l)) <$>
        md_request_object_signing_alg_values_supported base) by done.
    rewrite Hro, !Hg. clear Hg Hro. destruct (is_some (jws_verifier self a)) eqn:Hv; [|by apply IH].
    edestruct (IH (mark_alg_verifiable base a)) as (H1 & H2 & H3 & H4 & H5 & H6 & H7); [cbn; rewrite Hd; done|cbn; rewrite Ha; done| |].
    { cbn. by destruct (md_require_signed_request_object base). }
    split_and!; try done. etransitivity; [exact H7|]. cbn.
    destruct (md_request_object_signing_alg_values_supported base), (md_require_signed_request_object base); try done.
Qed.

Lemma jws_verifier_allowed alg : jws_verifier self alg <> None ->
  is_allowed (cfg_jws_alg_allow_list (sv_config self)) alg = true.
Proof. unfold jws_verifier. by destruct (is_allowed _ alg). Qed.

Lemma all_algs alg : alg ∈ ALL.
Proof. destruct alg; unfold ALL; set_solver. Qed.

(** An algorithm a list names is one the server verifies, and the other way round, where
    the names it starts from are verified too. *)
Definition names_verifiable (extra : list string) (l : list string) : Prop :=
  forall n, n ∈ l <-> n ∈ extra \/ exists alg, n = jose_name alg /\ jws_verifier self alg <> None.

Lemma grown_verifiable extra names : builtin_verifier Es256 <> None ->
  (forall n, n ∈ names <-> n ∈ extra \/ n = jose_name Es256) ->
  (forall n alg, n ∈ extra -> n <> jose_name alg) ->
  names_verifiable extra (grown ALL (baseline_algs names (cfg_jws_alg_allow_list (sv_config self)))).
Proof.
  intros Hb Hnames Hextra n. rewrite grown_elem, baseline_elem, Hnames. split.
  - intros [[[?| ->] Hal]|(alg & _ & ? & ?)]; [by left| |right; eauto].
    right. exists Es256. split; [done|]. specialize (Hal Es256 eq_refl). unfold jws_verifier. rewrite Hal. cbn.
    by destruct (sv_jws_verifiers self ≫= _).
  - intros [?|(alg & -> & ?)]; [left|right; exists alg; split_and!; [apply all_algs|done|done]].
    split; [by left|]. intros alg ->. by destruct (Hextra (jose_name alg) alg).
Qed.

(** The published document is what the handlers act on.  The issuer, the token endpoint
    and the endpoint for pushed requests are the URLs DPoP proofs and request objects are
    checked against, the registration endpoint is the one client URIs are made from; and,
    in a build that bundles ES256, the algorithms named for DPoP proofs, for client
    assertions (besides the symmetric one) and for request objects are exactly those for
    which the server has an allowed verifier. *)
Theorem metadata_agrees : builtin_verifier Es256 <> None ->
  let meta := metadata self in
  md_issuer meta = issuer_identifier self /\ md_token_endpoint meta = token_endpoint self /\
  md_pushed_authorization_request_endpoint meta =
    (fun par => par_endpoint par (issuer_identifier self)) <$> cfg_par (sv_config self) /\
  md_registration_endpoint meta =
    (fun r => registration_endpoint r (cfg_issuer (sv_config self))) <$> cfg_registration (sv_config self) /\
  (exists dpop, md_dpop_signing_alg_values_supported meta = Some dpop /\ names_verifiable [] dpop) /\
  (exists assertion, md_token_endpoint_auth_signing_alg_values_supported meta = Some assertion /\
     names_verifiable ["HS256"] assertion) /\
  (is_some (md_request_object_signing_alg_values_supported meta) = is_some (cfg_jar (sv_config self))) /\
  (forall objects, md_request_object_signing_alg_values_supported meta = Some objects -> names_verifiable [] objects).
Proof.
  intros Hb meta.
  destruct (marked_fields ALL (from_config (sv_config self)) _ _ eq_refl eq_refl) as (H1 & H2 & H3 & H4 & H5 & H6 & H7).
  { cbn. by destruct (cfg_jar (sv_config self)). }
  change (marked_from (from_config (sv_config self)) ALL) with meta in *.
  assert (Hnone : forall n alg, n ∈ @nil string -> n <> jose_name alg) by (intros ? ? ?%elem_of_nil; done).
  assert (Hes : names_verifiable [] (grown ALL (baseline_algs ["ES256"] (cfg_jws_alg_allow_list (sv_config self))))).
  { apply grown_verifiable; [done| |done]. intros n. cbn. set_solver. }
  split_and!.
  - done.
  - rewrite H2. cbn. unfold token_endpoint, endpoint_or, under_issuer. rewrite trim_end_idem.
    by destruct (cfg_token_endpoint _).
  - rewrite H3. done.
  - rewrite H4. cbn. destruct (cfg_registration _) as [r|]; [|done]. cbn. f_equal. unfold registration_endpoint, endpoint_or, under_issuer.
    rewrite trim_end_idem. by destruct (rc_registration_endpoint r).
  - eexists. split; [exact H5|exact Hes].
  - eexists. split; [exact H6|]. apply grown_verifiable; [done| |].
    + intros n. unfold ASSERTION_SIGNING_ALGS. cbn. set_solver.
    + intros n alg ->%list_elem_of_singleton. by destruct alg.
  - rewrite H7. cbn. by destruct (cfg_jar _).
  - intros objects. rewrite H7. cbn. destruct (cfg_jar _); cbn; [|done]. intros [= <-]. exact Hes.
Qed.
End agreement.

(** ** Evaluation *)
Definition bundled_backends : Backends := {|
  claims_to_vec _ := None;
  builtin_verifier alg := match alg with
                          | Es256 => Some {| jv_alg := Es256; jv_verify _ _ _ := false |}
                          | _ => None
                          end |}.

Lemma metadata_agrees_witness :
  md_token_endpoint (@metadata bundled_backends par_server) = "https://as/token" /\
  md_pushed_authorization_request_endpoint (@metadata bundled_backends par_server) = Some "https://as/par" /\
  exists dpop, md_dpop_signing_alg_values_supported (@metadata bundled_backends par_server) = Some dpop /\
    ("RS256" ∈ dpop <-> "RS256" ∈ @nil string \/
       exists alg, "RS256" = jose_name alg /\ @jws_verifier bundled_backends par_server alg <> None).
Proof.
  destruct (@metadata_agrees bundled_backends par_server) as (_ & Ht & Hp & _ & (dpop & Hd & Hn) & _);
    [discriminate|].
  split; [exact Ht|]. split; [exact Hp|]. exists dpop. split; [exact Hd|apply Hn].
Defined.
