(* ===== verification/Form.v ===== *)
(** * Decoding a request

    The part of [http.rs] that turns bytes into parameters and credentials: UTF-8 as
    [String::from_utf8_lossy] reads it, percent encoding, form parameters and their
    bound, the paths of routes, HTTP Basic and the other ways a client authenticates, and
    the escaping of text into a page.  Header maps and Base64 are the [http] and [base64]
    crates'. *)
From S2P Require Import Prelude Time Codec Scope Types Jws Credentials ClientAuthn.
Local Open Scope N_scope.

(** ** UTF-8 *)
Definition is_cont (c : ascii) : bool := in_range 128 191 c.

(** The second byte after a lead byte of three or four. *)
Definition second_ok (lead second : ascii) : bool :=
  let b := u8 lead in
  if b =? 224 then in_range 160 191 second
  else if b =? 237 then in_range 128 159 second
  else if b =? 240 then in_range 144 191 second
  else if b =? 244 then in_range 128 143 second
  else is_cont second.

(** The byte at [i], zero past the end. *)
Definition byte_at (i : nat) (s : string) : ascii := unwrap_or (String.get i s) "000"%char.

(** One step of the decoder at the lead byte [c]: whether a character was read, and how
    many bytes were. *)
Definition utf8_step (c : ascii) (rest : string) : bool * nat :=
  let b := u8 c in
  if b <? 128 then (true, 1%nat)
  else if (194 <=? b) && (b <=? 223) then
    (if is_cont (byte_at 0 rest) then (true, 2%nat) else (false, 1%nat))
  else if (224 <=? b) && (b <=? 239) then
    (if second_ok c (byte_at 0 rest) then
       if is_cont (byte_at 1 rest) then (true, 3%nat) else (false, 2%nat)
     else (false, 1%nat))
  else if (240 <=? b) && (b <=? 244) then
    (if second_ok c (byte_at 0 rest) then
       if is_cont (byte_at 1 rest) then
         if is_cont (byte_at 2 rest) then (true, 4%nat) else (false, 3%nat)
       else (false, 2%nat)
     else (false, 1%nat))
  else (false, 1%nat).

(** U+FFFD *)
Definition REPLACEMENT : string := String "239" (String "191" (String "189" EmptyString)).

(** [String::from_utf8_lossy]: what cannot be read becomes the replacement character. *)
Fixpoint utf8_lossy_loop (fuel : nat) (s : string) : string :=
  match fuel, s with
  | S fuel, String c rest =>
      let (valid, n) := utf8_step c rest in
      (if valid then take_str n s else REPLACEMENT) +:+ utf8_lossy_loop fuel (drop_str n s)
  | _, _ => EmptyString
  end.
Definition from_utf8_lossy (s : string) : string := utf8_lossy_loop (str_len s) s.

Fixpoint utf8_valid_loop (fuel : nat) (s : string) : bool :=
  match fuel, s with
  | _, EmptyString => true
  | S fuel, String c rest => let (valid, n) := utf8_step c rest in valid && utf8_valid_loop fuel (drop_str n s)
  | O, String _ _ => false
  end.
(** [String::from_utf8] succeeds. *)
Definition utf8_valid (s : string) : bool := utf8_valid_loop (str_len s) s.

(** ** Percent encoding *)
Definition hex_value (b : ascii) : option N :=
  if in_range 48 57 b then Some (u8 b - 48)
  else if in_range 97 102 b then Some (u8 b - 97 + 10)
  else if in_range 65 70 b then Some (u8 b - 65 + 10)
  else None.

Definition hex_pair (a b : option N) : option (N * N) :=
  match a, b with
  | Some h, Some l => Some (h, l)
  | _, _ => None
  end.

(** The loop of [percent_decode]. *)
Fixpoint percent_bytes (plus_is_space : bool) (s : string) : string :=
  match s with
  | EmptyString => EmptyString
  | String c rest =>
      if Ascii.eqb c "+" && plus_is_space then String " " (percent_bytes plus_is_space rest)
      else if Ascii.eqb c "%" then
        match rest with
        | String a (String b rest') =>
            match hex_pair (hex_value a) (hex_value b) with
            | Some (h, l) =>
                String (ascii_of_N (N.lor (N.shiftl h 4) l)) (percent_bytes plus_is_space rest')
            | None => String "%" (percent_bytes plus_is_space rest)
            end
        | _ => String c (percent_bytes plus_is_space rest)
        end
      else String c (percent_bytes plus_is_space rest)
  end.

Definition percent_decode (raw : string) (plus_is_space : bool) : string :=
  if negb (existsb (fun b => Ascii.eqb b "%" || (plus_is_space && Ascii.eqb b "+")) (bytes raw)) then raw
  else from_utf8_lossy (percent_bytes plus_is_space raw).

Definition decode_component (raw : string) : string := percent_decode raw true.
Definition decode_path_segment (raw : string) : string := percent_decode raw false.

Definition to_upper (c : ascii) : ascii := if in_range 97 122 c then ascii_of_N (u8 c - 32) else c.

Definition route_char (b : ascii) : bool :=
  is_ascii_alphanumeric b || existsb (Ascii.eqb b) (bytes "-._~!$&'()*+,;=:@/%").

Definition HEX_UPPER : list ascii := bytes "0123456789ABCDEF".

(** [encode_route_path]: what the source skips with a counter is consumed here at once. *)
Fixpoint encode_route_path (path : string) : string :=
  match path with
  | EmptyString => EmptyString
  | String c rest =>
      let plain :=
        if route_char c then String c (encode_route_path rest)
        else String "%" (String (nth (N.to_nat (N.shiftr (u8 c) 4)) HEX_UPPER "0"%char)
               (String (nth (N.to_nat (N.land (u8 c) 15)) HEX_UPPER "0"%char) (encode_route_path rest))) in
      match rest with
      | String h (String l rest') =>
          if Ascii.eqb c "%" && is_some (hex_value h) && is_some (hex_value l)
          then String "%" (String (to_upper h) (String (to_upper l) (encode_route_path rest')))
          else plain
      | _ => plain
      end
  end.

Definition is_ascii_lowercase (c : ascii) : bool := in_range 97 122 c.

(** Some escape of the path is written in lower case. *)
Fixpoint needs_upper (path : string) : bool :=
  match path with
  | EmptyString => false
  | String c rest =>
      match rest with
      | String h (String l _) =>
          (Ascii.eqb c "%" && is_some (hex_value h) && is_some (hex_value l)
           && (is_ascii_lowercase h || is_ascii_lowercase l))
          || needs_upper rest
      | _ => needs_upper rest
      end
  end.

(** The loop of [uppercase_escapes], a byte at a time. *)
Fixpoint upper_loop (path : string) : string :=
  match path with
  | EmptyString => EmptyString
  | String c rest =>
      match rest with
      | String h (String l rest') =>
          if Ascii.eqb c "%" && is_some (hex_value h) && is_some (hex_value l)
          then String "%" (String (to_upper h) (String (to_upper l) (upper_loop rest')))
          else String c (upper_loop rest)
      | _ => String c (upper_loop rest)
      end
  end.

Definition uppercase_escapes (path : string) : string :=
  if negb (needs_upper path) then path else upper_loop path.

(** ** Parameters *)
Definition MAX_FORM_PARAMETERS : nat := 64.

Definition split_once (c : ascii) (s : string) : option (string * string) :=
  match find_char c s with
  | Some i => Some (take_str i s, drop_str (S i) s)
  | None => None
  end.

Definition Pair : Type := (string * string)%type.
Inductive TooManyParameters : Type := TooMany.

Definition count_char (c : ascii) (s : string) : nat := List.length (List.filter (Ascii.eqb c) (bytes s)).

Definition parse_pairs (input : string) : result (list Pair) TooManyParameters :=
  if Nat.leb MAX_FORM_PARAMETERS (count_char "&" input) then Err TooMany
  else Ok (map (fun part => match split_once "=" part with
                            | Some (k, v) => (decode_component k, decode_component v)
                            | None => (decode_component part, EmptyString)
                            end)
             (split_nonempty "&" input)).

Definition param (pairs : list Pair) (name : string) : option string :=
  snd <$> List.find (fun p => fst p == name) pairs.

Definition required (pairs : list Pair) (name : string) : result string ErrorResponse :=
  ok_or (param pairs name)
    (with_description (error_new InvalidRequest) ("missing required parameter " +:+ name)).

Definition all_params (pairs : list Pair) (name : string) : list string :=
  map snd (List.filter (fun p => fst p == name) pairs).
Definition resource_indicators (pairs : list Pair) : list string := all_params pairs "resource".

Definition refuse_authorization_details (pairs : list Pair) : option ErrorResponse :=
  (fun _ => with_description (error_new InvalidAuthorizationDetails)
              "this server does not accept authorization_details on this grant")
  <$> param pairs "authorization_details".

Definition optional_scope (pairs : list Pair) : result (option ScopeSet) ErrorResponse :=
  match param pairs "scope" with
  | None => Ok None
  | Some s =>
      match ScopeSet.parse s with
      | Ok scope => Ok (Some scope)
      | Err _ => Err (with_description (error_new InvalidScope)
                        "scope is not a space-delimited RFC 6749 s3.3 token list")
      end
  end.

(** ** Headers *)

(** The [http] crate's header map and the [base64] crate's standard alphabet. *)
Class HttpLib := {
  HeaderMap : Type;
  header_get : HeaderMap -> string -> option string;
  header_get_all : HeaderMap -> string -> list string;
  (** [HeaderValue::to_str] and [HeaderValue::from_str] *)
  header_to_str : string -> option string;
  header_from_str : string -> option string;
  base64_decode : string -> option string;
}.

(** [str::eq_ignore_ascii_case] *)
Definition eq_ignore_ascii_case (a b : string) : bool :=
  of_bytes (map to_upper (bytes a)) == of_bytes (map to_upper (bytes b)).

(** [str::trim] on the visible ASCII a header value holds. *)
Definition is_space (c : ascii) : bool := Ascii.eqb c " " || in_range 9 13 c.
Fixpoint trim_start (s : string) : string :=
  match s with
  | String c rest => if is_space c then trim_start rest else s
  | EmptyString => s
  end.
Fixpoint trim_end (s : string) : string :=
  match s with
  | EmptyString => EmptyString
  | String c rest =>
      match trim_end rest with
      | EmptyString => if is_space c then EmptyString else String c EmptyString
      | t => String c t
      end
  end.
Definition trim (s : string) : string := trim_end (trim_start s).

(** ** Credentials *)
Record Credentials : Type := {
  hc_client_id : string;
  hc_client_secret : option string;
  hc_client_assertion_type : option string;
  hc_client_assertion : option string;
}.
Definition credential (self : Credentials) : ClientCredential := {|
  cred_client_secret := hc_client_secret self;
  cred_client_assertion_type := hc_client_assertion_type self;
  cred_client_assertion := hc_client_assertion self; cred_certificate := None |}.

Section credentials.
Context `{Crypto, Serde, HttpLib}.

Definition header_str_value (headers : HeaderMap) (name : string) : option string :=
  header_get headers name ≫= header_to_str.

Definition basic_attempted (headers : HeaderMap) : bool :=
  is_some_and (header_str_value headers "authorization")
    (fun v => Nat.leb 6 (str_len v) && eq_ignore_ascii_case (take_str 6 v) "basic ").

Definition malformed_basic : ErrorResponse :=
  with_description (error_new InvalidClient) "malformed HTTP Basic credentials (RFC 6749 s2.3.1)".

Definition decode_basic (headers : HeaderMap) : result (string * string) ErrorResponse :=
  let? raw := ok_or (header_str_value headers "authorization") malformed_basic in
  if Nat.ltb (str_len raw) 6 then Err malformed_basic
  else
    let? decoded := ok_or (base64_decode (trim (drop_str 6 raw))) malformed_basic in
    if negb (utf8_valid decoded) then Err malformed_basic
    else
      let? pair := ok_or (split_once ":" decoded) malformed_basic in
      Ok (decode_component (fst pair), decode_component (snd pair)).

Definition ONE_METHOD : ErrorResponse :=
  with_description (error_new InvalidRequest) "more than one client authentication method (RFC 6749 s2.3)".

Definition by_basic (headers : HeaderMap) : result Credentials ErrorResponse :=
  let? pair := decode_basic headers in
  Ok {| hc_client_id := fst pair; hc_client_secret := Some (snd pair);
        hc_client_assertion_type := None; hc_client_assertion := None |}.

Definition credentials_where (headers : HeaderMap) (form : list Pair) (client_id_is_a_request_parameter : bool)
  : result Credentials ErrorResponse :=
  let basic := basic_attempted headers in
  let body_id := param form "client_id" in
  let body_secret := param form "client_secret" in
  match param form "client_assertion" with
  | Some assertion =>
      if basic || is_some body_secret then Err ONE_METHOD
      else
        let? client_id := match body_id with
                          | Some id => Ok id
                          | None => ok_or (Assertion.unverified_subject assertion)
                                      (with_description (error_new InvalidClient)
                                         "the client assertion names no client")
                          end in
        Ok {| hc_client_id := client_id; hc_client_secret := None;
              hc_client_assertion_type := param form "client_assertion_type";
              hc_client_assertion := Some assertion |}
  | None =>
      match basic, body_id, body_secret with
      | true, None, None => by_basic headers
      | true, Some _, None => if client_id_is_a_request_parameter then by_basic headers else Err ONE_METHOD
      | true, _, _ => Err ONE_METHOD
      | false, Some id, secret =>
          Ok {| hc_client_id := id; hc_client_secret := secret;
                hc_client_assertion_type := None; hc_client_assertion := None |}
      | false, None, _ => Err (with_description (error_new InvalidClient) "no client authentication or client_id")
      end
  end.

Definition credentials (headers : HeaderMap) (form : list Pair) : result Credentials ErrorResponse :=
  credentials_where headers form false.
Definition pushed_request_credentials (headers : HeaderMap) (form : list Pair)
  : result Credentials ErrorResponse := credentials_where headers form true.

Definition bearer_token (headers : HeaderMap) : option string :=
  match header_str_value headers "authorization" with
  | None => None
  | Some raw =>
      if Nat.ltb (str_len raw) 7 || negb (eq_ignore_ascii_case (take_str 7 raw) "bearer ") then None
      else let token := trim (drop_str 7 raw) in then_some (negb (str_is_empty token)) token
  end.

Definition is_form_urlencoded (headers : HeaderMap) : bool :=
  is_some_and (header_str_value headers "content-type")
    (fun v => eq_ignore_ascii_case (trim (List.hd EmptyString (split_on ";" v))) "application/x-www-form-urlencoded").

(** The [same_origin] of [http.rs]. *)
Definition request_same_origin (headers : HeaderMap) (origin : string) : bool :=
  match header_str_value headers "sec-fetch-site" with
  | Some site => eq_ignore_ascii_case site "same-origin"
  | None => is_some_and (header_str_value headers "origin") (fun value => eq_ignore_ascii_case value origin)
  end.
End credentials.

(** ** Text in pages and headers *)
Definition QUOTE : ascii := "034"%char.

Fixpoint escape_quoted_string (value : string) : string :=
  match value with
  | EmptyString => EmptyString
  | String c rest =>
      if Ascii.eqb c QUOTE || Ascii.eqb c "\" then String "\" (String c (escape_quoted_string rest))
      else String c (escape_quoted_string rest)
  end.

Fixpoint escape_html (value : string) : string :=
  match value with
  | EmptyString => EmptyString
  | String c rest =>
      (if Ascii.eqb c "&" then "&amp;"
       else if Ascii.eqb c "<" then "&lt;"
       else if Ascii.eqb c ">" then "&gt;"
       else if Ascii.eqb c QUOTE then "&quot;"
       else if Ascii.eqb c "'" then "&#x27;"
       else String c EmptyString) +:+ escape_html rest
  end.

(** ** Decoding undoes encoding *)
Lemma hex_value_upper (b : ascii) :
  hex_value (Uri.hex_upper (N.shiftr (u8 b) 4)) = Some (N.shiftr (u8 b) 4) /\
  hex_value (Uri.hex_upper (N.land (u8 b) 15)) = Some (N.land (u8 b) 15) /\
  ascii_of_N (N.lor (N.shiftl (N.shiftr (u8 b) 4) 4) (N.land (u8 b) 15)) = b.
Proof. destruct b as [[] [] [] [] [] [] [] []]; done. Qed.

Lemma unreserved_plain b : Uri.unreserved b = true -> Ascii.eqb b "%" = false /\ Ascii.eqb b "+" = false.
Proof. destruct b as [[] [] [] [] [] [] [] []]; done. Qed.

Lemma percent_bytes_encode plus value : percent_bytes plus (Uri.percent_encode value) = value.
Proof.
  induction value as [|b value IH]; [done|]. cbn [Uri.percent_encode]. destruct (Uri.unreserved b) eqn:Hu.
  - destruct (unreserved_plain b Hu) as [Hp Hq]. cbn [percent_bytes]. rewrite Hp, Hq. cbn [andb]. by rewrite IH.
  - cbn [percent_bytes]. destruct (hex_value_upper b) as (-> & -> & Hb). cbn [hex_pair]. rewrite Hb, IH. done.
Qed.

(** Text that is well-formed is left alone. *)
Lemma utf8_lossy_valid fuel : forall s, utf8_valid_loop fuel s = true -> utf8_lossy_loop fuel s = s.
Proof.
  induction fuel as [|fuel IH]; intros [|c s]; try done. cbn [utf8_valid_loop utf8_lossy_loop].
  destruct (utf8_step c s) as [valid n]. intros [-> Hv]%andb_true_iff. rewrite IH by done.
  apply Loopback.take_drop_str.
Qed.

Lemma from_utf8_lossy_valid s : utf8_valid s = true -> from_utf8_lossy s = s.
Proof. apply utf8_lossy_valid. Qed.

Lemma percent_decode_encode_utf8 value plus : utf8_valid value = true ->
  percent_decode (Uri.percent_encode value) plus = value.
Proof.
  intros Hv. unfold percent_decode. destruct (existsb _ _) eqn:He; cbn [negb].
  - rewrite percent_bytes_encode. by apply from_utf8_lossy_valid.
  - clear Hv. induction value as [|b value IH]; [done|]. cbn [Uri.percent_encode] in *.
    destruct (Uri.unreserved b); [|done].
    unfold bytes in He. cbn in He. apply orb_false_iff in He as [_ He]. by rewrite IH.
Qed.

(** ** Parameters are bounded *)
Lemma split_on_length c s : List.length (split_on c s) = S (count_char c s).
Proof.
  unfold count_char. induction s as [|x s IH]; [done|]. cbn [split_on bytes list_ascii_of_string List.filter].
  rewrite (Ascii.eqb_sym c x). destruct (Ascii.eqb x c); cbn [List.length].
  - f_equal. exact IH.
  - destruct (split_on c s) as [|w ws]; [done|exact IH].
Qed.

Lemma filter_length_le {A} (f : A -> bool) l : (List.length (List.filter f l) <= List.length l)%nat.
Proof. induction l as [|x l IH]; cbn; [lia|]. destruct (f x); cbn; lia. Qed.

Lemma parse_pairs_bounded input pairs : parse_pairs input = Ok pairs ->
  (List.length pairs <= MAX_FORM_PARAMETERS)%nat.
Proof.
  unfold parse_pairs. destruct (Nat.leb_spec MAX_FORM_PARAMETERS (count_char "&" input)); [done|].
  intros [= <-]. rewrite length_map. unfold split_nonempty. etransitivity; [apply filter_length_le|].
  rewrite split_on_length. lia.
Qed.

(** ** One way to authenticate *)
Section method.
Context `{Crypto, Serde, HttpLib}.

Inductive one_method (headers : HeaderMap) (form : list Pair) (id_is_parameter : bool) (c : Credentials) : Prop :=
| method_assertion assertion :
    param form "client_assertion" = Some assertion -> basic_attempted headers = false ->
    param form "client_secret" = None ->
    option_or (param form "client_id") (Assertion.unverified_subject assertion) = Some (hc_client_id c) ->
    hc_client_secret c = None -> hc_client_assertion c = Some assertion -> one_method headers form id_is_parameter c
| method_basic secret :
    param form "client_assertion" = None -> basic_attempted headers = true -> param form "client_secret" = None ->
    (id_is_parameter = false -> param form "client_id" = None) ->
    decode_basic headers = Ok (hc_client_id c, secret) -> hc_client_secret c = Some secret ->
    hc_client_assertion c = None -> one_method headers form id_is_parameter c
| method_body :
    param form "client_assertion" = None -> basic_attempted headers = false ->
    param form "client_id" = Some (hc_client_id c) -> hc_client_secret c = param form "client_secret" ->
    hc_client_assertion c = None -> one_method headers form id_is_parameter c.

Lemma by_basic_ok headers c : by_basic headers = Ok c ->
  exists secret, decode_basic headers = Ok (hc_client_id c, secret) /\ hc_client_secret c = Some secret /\
    hc_client_assertion c = None.
Proof. intros ([id secret] & Hd & [= <-])%and_then_ok. by exists secret. Qed.

(** A request authenticates its client in one way: by an assertion with neither a Basic
    header nor a secret in the body, by a Basic header with neither an assertion nor a
    secret in the body (and, but for pushed requests, no client identifier in the body
    either), or by what the body says with no Basic header; never by two at once. *)
Theorem credentials_one_method headers form id_is_parameter c :
  credentials_where headers form id_is_parameter = Ok c -> one_method headers form id_is_parameter c.
Proof.
  unfold credentials_where. destruct (param form "client_assertion") as [assertion|] eqn:Ha.
  - destruct (basic_attempted headers) eqn:Hb; [done|]. cbn [orb].
    destruct (param form "client_secret") eqn:Hs; [done|]. cbn [is_some].
    intros (id & Hid & [= <-])%and_then_ok. apply (method_assertion _ _ _ _ assertion); try done. cbn.
    destruct (param form "client_id"); cbn in Hid |- *; [by simplify_eq|]. by apply ok_or_ok in Hid.
  - destruct (basic_attempted headers) eqn:Hb, (param form "client_id") as [id|] eqn:Hid,
      (param form "client_secret") as [s|] eqn:Hs; try done.
    + destruct id_is_parameter; [|done]. intros (secret & ? & ? & ?)%by_basic_ok.
      apply (method_basic _ _ _ _ secret); try done.
    + intros (secret & ? & ? & ?)%by_basic_ok. by apply (method_basic _ _ _ _ secret).
    + intros [= <-]. apply method_body; cbn; congruence.
    + intros [= <-]. apply method_body; cbn; congruence.
Qed.
End method.

(** ** Escaped text *)
Definition html_special (c : ascii) : bool :=
  Ascii.eqb c "<" || Ascii.eqb c ">" || Ascii.eqb c QUOTE || Ascii.eqb c "'".

Lemma escape_html_safe value : str_forall (fun c => negb (html_special c)) (escape_html value) = true.
Proof.
  induction value as [|c value IH]; [done|]. cbn [escape_html]. rewrite str_forall_app, IH, andb_true_r.
  repeat (match goal with |- context [Ascii.eqb c ?x] => destruct (Ascii.eqb c x) eqn:? end; [done|]).
  rewrite str_forall_cons. unfold html_special. cbn.
  repeat match goal with H : Ascii.eqb c _ = false |- _ => rewrite H; clear H end. done.
Qed.

(** ** Evaluation *)

(** Headers as a list of pairs; text that needs no escaping is its own encoding. *)
Definition plain_http : HttpLib := {|
  HeaderMap := list (string * string);
  header_get headers name := snd <$> List.find (fun h => fst h == name) headers;
  header_get_all headers name := map snd (List.filter (fun h => fst h == name) headers);
  header_to_str value := Some value;
  header_from_str value := then_some (str_forall (in_range 32 126) value) value;
  base64_decode text := Some text |}.

Definition demo_basic : list (string * string) := [("authorization", "Basic app:s3cret")].

Lemma credentials_one_method_witness :
  exists c, @credentials_where plain_crypto assertion_serde plain_http demo_basic [("client_id", "app")] true = Ok c /\
    hc_client_id c = "app" /\ hc_client_secret c = Some "s3cret" /\
    @one_method plain_crypto assertion_serde plain_http demo_basic [("client_id", "app")] true c.
Proof.
  eexists. split; [vm_compute; reflexivity|]. split; [reflexivity|]. split; [reflexivity|].
  apply (@credentials_one_method plain_crypto assertion_serde plain_http). vm_compute. reflexivity.
Defined.
