(* ===== verification/Grants.v ===== *)
(** * The token endpoint (server.rs)

    The authorization-code, client-credentials and refresh-token grants, and
    [token_with_context], which validates what every grant shares and dispatches. *)
From S2P Require Import Prelude Time Codec Scope Types Store StoreFacts Effects Trace Rar Consent Jws.
From S2P Require Import Credentials Config ClientAuthn Issue Device.
Local Open Scope Z_scope.

Inductive TokenRequest : Type :=
| TRAuthorizationCode (client_id : ClientId) (client_secret : option string) (code : string)
    (redirect_uri code_verifier : option string)
| TRClientCredentials (client_id : ClientId) (client_secret : option string) (scope : option ScopeSet)
| TRDeviceCode (client_id : ClientId) (client_secret : option string) (device_code : string)
| TRRefreshToken (client_id : ClientId) (client_secret : option string) (refresh_token : string)
    (scope : option ScopeSet).

Record TokenRequestContext : Type := {
  ctx_credential : ClientCredential;
  ctx_resources : list string;
  ctx_authorization_details : option string;
  ctx_dpop_proof : option string;
}.

Section grants.
Context `{Crypto, Serde, Backends} (self : AuthorizationServer).
Let cfg := sv_config self.
Let hooks := sv_hooks self.

(** ** The authorization-code grant *)

(** Containment of a replayed code: revoke the family its refresh token belongs to,
    or failing that delete the access token; then keep the record, marked replayed. *)
Definition contain_replay (client : Client) (record : AuthorizationCodeRecord)
    (access_token refresh_token : option string) : prog (result TokenResponse ErrorResponse) :=
  let* contained :=
    (match refresh_token with
     | None => Ret (false, false, None)
     | Some rt =>
         let* found := store (GetRefreshToken rt) in
         match found with
         | Ok (Some rec) =>
             let* window := revocation_window self in
             let* revoked := store (RevokeTokenFamily (rt_family_id rec) window) in
             Ret (is_ok revoked, negb (is_ok revoked), Some (rt_family_id rec))
         | Ok None => Ret (false, false, None)
         | Err _ => Ret (false, true, None)
         end
     end) in
  let '(revoked_family, containment_failed, revoked_family_id) := contained in
  let* containment_failed :=
    (if revoked_family then Ret containment_failed
     else match access_token with
          | None => Ret containment_failed
          | Some at_ =>
              let* deleted := store (DeleteToken at_) in
              Ret (containment_failed || negb (is_ok deleted))
          end) in
  let replayed := ac_with_state record (Replayed access_token refresh_token) in
  let* written := store (PutAuthorizationCode replayed) in
  let containment_failed := containment_failed || negb (is_ok written) in
  let* _ := emit hooks (AuthorizationCodeReplayDetected (c_client_id client) revoked_family_id
              revoked_family containment_failed) in
  Ret (Err invalid_grant).

(** Put the code back and refuse: [let _ = self.store.put_authorization_code(..)]. *)
Definition restore_code (record : AuthorizationCodeRecord) (e : ErrorResponse)
  : prog (result TokenResponse ErrorResponse) :=
  let* _ := store (PutAuthorizationCode record) in
  Ret (Err e).

Definition pkce_verified (code_verifier : option string) (record : AuthorizationCodeRecord) : bool :=
  match code_verifier, ac_code_challenge_method record with
  | Some v, S256 => Pkce.verifier_is_valid v && Pkce.verify_s256 v (ac_code_challenge record)
  | None, _ => false
  end.

Definition redirect_uri_matches (redirect_uri : option string) (record : AuthorizationCodeRecord) : bool :=
  match redirect_uri with
  | Some u => u == ac_redirect_uri record
  | None => negb (ac_redirect_uri_was_explicit record)
  end.

Definition code_issuance (client : Client) (bound : Bound) (record : AuthorizationCodeRecord)
    (resource : list string) (details : GrantedDetails) : Issuance := {|
  is_client := client; is_bound := bound; is_grant_type := AuthorizationCode;
  is_grant_established_at := ac_issued_at record; is_subject := Some (ac_subject record);
  is_scope := ac_scope record; is_resource := resource; is_details := details; is_chain := None;
  is_allow_refresh := true; is_authentication := ac_authentication record; is_actor := None;
  is_lifetime_ceiling := None |}.

(** The tail of a redemption: mark the code consumed, issue, record what was
    issued, and take it back if the record changed meanwhile. *)
Definition redeem_code (client : Client) (bound : Bound) (record : AuthorizationCodeRecord)
    (resource : list string) (details : GrantedDetails) : prog (result TokenResponse ErrorResponse) :=
  let consumed := ac_with_state record (Consumed None None) in
  let?* _ := store_or storage_error (PutAuthorizationCode consumed) in
  let?* issued := issue self (code_issuance client bound record resource details) in
  let recorded_state := Consumed (Some (tr_access_token issued)) (tr_refresh_token issued) in
  let* recorded := store (CompareAndSwapAuthorizationCode (Consumed None None)
                            (ac_with_state record recorded_state)) in
  match recorded with
  | Ok true => Ret (Ok issued)
  | _ =>
      let* _ := undo_issuance (tr_access_token issued) in
      let* _ := (match tr_refresh_token issued with
                 | Some rt => let* _ := store (TakeRefreshToken rt) in Ret tt
                 | None => Ret tt
                 end) in
      Ret (Err (match recorded with
                | Ok _ => with_description (error_new InvalidGrant)
                            "this authorization code was replayed or revoked during redemption"
                | Err _ => with_description (error_new ServerError) "could not record the redemption"
                end))
  end.

(** The checks on an unspent code, each refusal putting it back. *)
Definition check_code (client : Client) (bound : Bound) (record : AuthorizationCodeRecord)
    (redirect_uri code_verifier : option string) (requested_resources : list string)
    (requested_details : GrantedDetails) : prog (result TokenResponse ErrorResponse) :=
  let* t := now in
  if t >=? ac_expires_at record then
    Ret (Err (with_description (error_new InvalidGrant) "authorization code expired"))
  else if negb (redirect_uri_matches redirect_uri record) then
    restore_code record (with_description (error_new InvalidGrant)
      "redirect_uri does not match the authorization request")
  else if negb (pkce_verified code_verifier record) then
    restore_code record (with_description (error_new InvalidGrant)
      "code_verifier does not match the recorded code_challenge")
  else if is_some_and (ac_dpop_jkt record) (fun expected => b_jkt bound != Some expected) then
    restore_code record (with_description (error_new InvalidDpopProof)
      "the DPoP proof key does not match the key this authorization code is bound to")
  else
    let narrowed :=
      let? r := narrow_and_permit self (ac_resource record) requested_resources in
      let? d := gd_narrow (gd_of (ac_authorization_details record)) requested_details in
      Ok (r, d) in
    match narrowed with
    | Err e => restore_code record e
    | Ok (resource, details) => redeem_code client bound record resource details
    end.

Definition authorization_code_token (client_id : ClientId) (bound : Bound) (code : string)
    (redirect_uri code_verifier : option string) (requested_resources : list string)
    (requested_details : GrantedDetails) : prog (result TokenResponse ErrorResponse) :=
  let?* client := authenticate_client self client_id (b_cred bound) in
  if negb (allows_grant client AuthorizationCode) then Ret (Err (error_new UnauthorizedClient))
  else
    let?* found := store_or storage_error (TakeAuthorizationCode code) in
    let?! record := ok_or found invalid_grant in
    if ac_client_id record != c_client_id client then
      let?* _ := store_or storage_error (PutAuthorizationCode record) in
      Ret (Err invalid_grant)
    else match minted (ac_state record) with
    | Some (access_token, refresh_token) => contain_replay client record access_token refresh_token
    | None => check_code client bound record redirect_uri code_verifier requested_resources requested_details
    end.

(** ** The client-credentials grant *)
Definition client_credentials_token (client_id : ClientId) (bound : Bound)
    (requested_scope : option ScopeSet) (resource : list string) (details : GrantedDetails)
  : prog (result TokenResponse ErrorResponse) :=
  let* grant_established_at := now in
  let?* client := authenticate_client self client_id (b_cred bound) in
  if is_public (c_auth client) then
    let* _ := emit hooks (ClientAuthenticationFailed client_id NotConfidential) in
    Ret (Err (error_new InvalidClient))
  else if negb (allows_grant client ClientCredentials) then Ret (Err (error_new UnauthorizedClient))
  else
    let?! scope := resolve_scope client requested_scope in
    issue self {|
      is_client := client; is_bound := bound; is_grant_type := ClientCredentials;
      is_grant_established_at := grant_established_at; is_subject := None; is_scope := scope;
      is_resource := resource; is_details := details; is_chain := None; is_allow_refresh := false;
      is_authentication := None; is_actor := None; is_lifetime_ceiling := None |}.

(** ** The refresh-token grant *)

(** [restore_refresh_token]: only a taken token needs putting back. *)
Definition restore_refresh_token (record : RefreshTokenRecord) : prog (result unit ErrorResponse) :=
  if negb (cfg_refresh_retry_window cfg =? 0) then Ret (Ok tt)
  else
    let?* _ := store_or storage_error (PutRefreshToken record) in
    Ret (Ok tt).

Definition restore_and_refuse (record : RefreshTokenRecord) (e : ErrorResponse)
  : prog (result TokenResponse ErrorResponse) :=
  let?* _ := restore_refresh_token record in
  Ret (Err e).

(** A spent token presented again: revoke the family. *)
Definition contain_reuse (client : Client) (record : RefreshTokenRecord)
  : prog (result TokenResponse ErrorResponse) :=
  let* window := revocation_window self in
  let* revoked := store (RevokeTokenFamily (rt_family_id record) window) in
  let* _ := (match revoked with
             | Ok _ => Ret tt
             | Err _ => let* _ := store (PutRefreshToken record) in Ret tt
             end) in
  let* _ := emit hooks (RefreshTokenReuseDetected (c_client_id client) (rt_family_id record)
              (match revoked with Ok n => n | Err _ => 0 end) (negb (is_ok revoked))) in
  Ret (Err (with_description (error_new InvalidGrant)
    "refresh token reuse detected; the grant has been revoked")).

Definition dpop_binding_violation (client : Client) (record : RefreshTokenRecord) (bound : Bound) : bool :=
  if is_confidential (c_auth client)
  then negb (Bool.eqb (is_some (rt_jkt record)) (is_some (b_jkt bound)))
  else rt_jkt record != b_jkt bound.

Definition refresh_issuance (client : Client) (bound : Bound) (record : RefreshTokenRecord)
    (scope : ScopeSet) (resource : list string) (details : GrantedDetails)
    (retry : option RefreshTokenRecord) (allow_refresh : bool) : Issuance := {|
  is_client := client; is_bound := bound; is_grant_type := RefreshToken;
  is_grant_established_at := rt_grant_established_at record; is_subject := rt_subject record;
  is_scope := scope; is_resource := resource; is_details := details;
  is_chain := Some {| rc_family_id := rt_family_id record; rc_expires_at := rt_expires_at record;
                      rc_retry := retry |};
  is_allow_refresh := allow_refresh; is_authentication := rt_authentication record;
  is_actor := None; is_lifetime_ceiling := None |}.

(** [response.refresh_token = Some(..)] *)
Definition with_refresh_token (r : TokenResponse) (rt : string) : TokenResponse := {|
  tr_access_token := tr_access_token r; tr_token_type := tr_token_type r;
  tr_expires_in := tr_expires_in r; tr_refresh_token := Some rt; tr_scope := tr_scope r;
  tr_authorization_details := tr_authorization_details r |}.

(** Spend the token and issue its successor, in the three modes: reuse keeps the
    token, a zero retry window marks it spent first, a retry window rotates it in
    one storage operation inside [issue]. *)
Definition spend_and_issue (client : Client) (bound : Bound) (refresh_token : string)
    (record : RefreshTokenRecord) (scope : ScopeSet) (resource : list string) (details : GrantedDetails)
  : prog (result TokenResponse ErrorResponse) :=
  if cfg_refresh_rotation cfg == Reuse then
    let?* response := issue self (refresh_issuance client bound record scope resource details None false) in
    Ret (Ok (with_refresh_token response refresh_token))
  else if cfg_refresh_retry_window cfg =? 0 then
    let* expires_at := (match rt_expires_at record with
                        | Some e => Ret (Some e)
                        | None => let* t := now in
                                  Ret (Some (saturating_deadline t (cfg_refresh_reuse_window cfg)))
                        end) in
    let spent := rt_update record Spent expires_at (rt_retry record) in
    let?* outcome := store_or storage_error (PutRefreshToken spent) in
    if is_refused outcome then
      Ret (Err (with_description (error_new InvalidGrant)
        "the grant was revoked while this token was being refreshed"))
    else issue self (refresh_issuance client bound record scope resource details None true)
  else issue self (refresh_issuance client bound record scope resource details (Some record) true).

(** The checks on a live token, in order; a refusal that leaves the grant usable
    puts a taken token back. *)
Definition check_refresh (client : Client) (bound : Bound) (refresh_token : string)
    (record : RefreshTokenRecord) (requested_scope : option ScopeSet)
    (requested_resources : list string) (requested_details : GrantedDetails)
  : prog (result TokenResponse ErrorResponse) :=
  if dpop_binding_violation client record bound then
    restore_and_refuse record (with_description (error_new InvalidDpopProof)
      "this refresh token's DPoP binding does not match the presented proof")
  else if rt_x5t_s256 record != certificate_thumbprint bound then
    restore_and_refuse record (with_description (error_new InvalidGrant)
      "this refresh token is bound to a different client certificate")
  else
    let* expired := (match rt_expires_at record with
                     | Some e => let* t := now in Ret (t >=? e)
                     | None => Ret false
                     end) in
    if expired then
      Ret (Err (with_description (error_new InvalidGrant) "refresh token chain expired"))
    else if negb (ScopeSet.is_subset (rt_scope record) (c_allowed_scopes client)) then
      Ret (Err (with_description (error_new InvalidScope)
        "this grant carries scopes the client's registration no longer allows"))
    else
      let granted_scope :=
        match requested_scope with
        | None => Some (rt_scope record)
        | Some s => if ScopeSet.is_subset s (rt_scope record) then Some s else None
        end in
      match granted_scope with
      | None =>
          restore_and_refuse record (with_description (error_new InvalidScope)
            "refresh may narrow scope, never widen it")
      | Some scope =>
          let narrowed :=
            let? r := narrow_and_permit self (rt_resource record) requested_resources in
            let? d := gd_narrow (gd_of (rt_authorization_details record)) requested_details in
            Ok (r, d) in
          match narrowed with
          | Err e => restore_and_refuse record e
          | Ok (resource, details) =>
              spend_and_issue client bound refresh_token record scope resource details
          end
      end.

Definition refresh_token_grant (client_id : ClientId) (bound : Bound) (refresh_token : string)
    (requested_scope : option ScopeSet) (requested_resources : list string)
    (requested_details : GrantedDetails) : prog (result TokenResponse ErrorResponse) :=
  let?* client := authenticate_client self client_id (b_cred bound) in
  if negb (allows_grant client RefreshToken) then Ret (Err (error_new UnauthorizedClient))
  else
    let reuse := cfg_refresh_rotation cfg == Reuse in
    let retry_off := cfg_refresh_retry_window cfg =? 0 in
    let?* found := (if negb reuse && retry_off
                    then store_or storage_error (TakeRefreshToken refresh_token)
                    else store_or storage_error (GetRefreshToken refresh_token)) in
    let?! record := ok_or found invalid_grant in
    if rt_client_id record != c_client_id client then restore_and_refuse record invalid_grant
    else
      let?* replayed :=
        (if negb reuse && negb retry_off
         then refresh_retry_response self record client bound requested_scope requested_resources
                requested_details
         else Ret (Ok None)) in
      match replayed with
      | Some response => Ret (Ok response)
      | None =>
          if negb reuse && (rt_state record == Spent) then contain_reuse client record
          else check_refresh client bound refresh_token record requested_scope requested_resources
                 requested_details
      end.

(** ** Dispatch *)
Definition emit_refusal (client_id : ClientId) (grant_type : GrantType)
    (outcome : result TokenResponse ErrorResponse) : prog unit :=
  match outcome with
  | Err e => emit hooks (GrantRefused client_id grant_type (error e))
  | Ok _ => Ret tt
  end.

Definition audited (client_id : ClientId) (grant_type : GrantType)
    (p : prog (result TokenResponse ErrorResponse)) : prog (result TokenResponse ErrorResponse) :=
  let* outcome := p in
  let* _ := emit_refusal client_id grant_type outcome in
  Ret outcome.

Definition token_with_context (request : TokenRequest) (context : TokenRequestContext)
  : prog (result TokenResponse ErrorResponse) :=
  let?! requested_resources := validate_resources self (ctx_resources context) in
  let?! requested_details :=
    (match ctx_authorization_details context with
     | None => Ok None
     | Some raw =>
         let? parsed := rar_parse raw in
         let? _ := require_supported_types parsed (cfg_authorization_details_types_supported cfg) in
         Ok (gd_of parsed)
     end) in
  let?* jkt := verify_dpop self (ctx_dpop_proof context) in
  let bound secret := {| b_cred := or_secret (ctx_credential context) secret; b_jkt := jkt |} in
  match request with
  | TRAuthorizationCode client_id client_secret code redirect_uri code_verifier =>
      audited client_id AuthorizationCode
        (authorization_code_token client_id (bound client_secret) code redirect_uri code_verifier
           requested_resources requested_details)
  | TRClientCredentials client_id client_secret scope =>
      audited client_id ClientCredentials
        (client_credentials_token client_id (bound client_secret) scope requested_resources requested_details)
  | TRDeviceCode client_id client_secret device_code =>
      if negb (list_is_empty requested_resources) then
        Ret (Err (invalid_target "the device authorization request granted no resource to narrow to"))
      else if is_some requested_details then
        Ret (Err (rar_error "the device authorization request granted no authorization_details"))
      else audited client_id DeviceCode (device_token self client_id (bound client_secret) device_code)
  | TRRefreshToken client_id client_secret refresh_token scope =>
      audited client_id RefreshToken
        (refresh_token_grant client_id (bound client_secret) refresh_token scope requested_resources
           requested_details)
  end.

(** ** What a redemption has checked *)
Definition verifier_matches (code_verifier : option string) (record : AuthorizationCodeRecord) : Prop :=
  exists v, code_verifier = Some v /\ Pkce.verifier_is_valid v = true /\
    Pkce.code_challenge_s256 v = ac_code_challenge record.

Lemma pkce_verified_true code_verifier record :
  pkce_verified code_verifier record = true -> verifier_matches code_verifier record.
Proof.
  unfold pkce_verified, verifier_matches. destruct code_verifier as [v|]; [|done].
  destruct (ac_code_challenge_method record). intros. bools.
  exists v. by rewrite <- Pkce.verify_s256_iff.
Qed.

Lemma redeem_code_exec client bound record resource details tr r :
  exec (redeem_code client bound record resource details) tr (Ok r) ->
  committed self (code_issuance client bound record resource details) tr r /\
  AStore (CompareAndSwapAuthorizationCode (Consumed None None)
    (ac_with_state record (Consumed (Some (tr_access_token r)) (tr_refresh_token r)))) (Ok true) ∈ tr.
Proof.
  unfold redeem_code. intros Hex.
  apply exec_bind_ok in Hex as [(tr1 & tr2 & u & -> & _ & Hex)|(? & [=] & _)].
  apply exec_bind_ok in Hex as [(tr3 & tr4 & issued & -> & Hi & Hex)|(? & [=] & _)].
  apply exec_bind in Hex as (tr5 & tr6 & recorded & -> & ->%exec_store & Hex).
  destruct recorded as [[]|]; [|by exec_inv|by exec_inv]. destruct Hex as [-> [= ->]].
  apply issue_exec in Hi as [Hi|(? & ? & [=] & _)]. split; [|in_trace].
  eapply committed_mono; [|done]. intros x Hx. in_trace.
Qed.

(** The conditions under which an unspent code is exchanged. *)
Record redeemable (bound : Bound) (record : AuthorizationCodeRecord) (redirect_uri code_verifier : option string)
    (tr : list Act) : Prop := {
  rd_fresh : exists t, ANow t ∈ tr /\ t < ac_expires_at record;
  rd_redirect : redirect_uri = Some (ac_redirect_uri record) \/
                redirect_uri = None /\ ac_redirect_uri_was_explicit record = false;
  rd_pkce : verifier_matches code_verifier record;
  rd_key : forall k, ac_dpop_jkt record = Some k -> b_jkt bound = Some k;
}.

Lemma check_code_exec client bound record uri verifier resources details tr r :
  exec (check_code client bound record uri verifier resources details) tr (Ok r) ->
  redeemable bound record uri verifier tr /\
  exists resource granted, narrow_and_permit self (ac_resource record) resources = Ok resource /\
    gd_narrow (gd_of (ac_authorization_details record)) details = Ok granted /\
    committed self (code_issuance client bound record resource granted) tr r /\
    AStore (CompareAndSwapAuthorizationCode (Consumed None None)
      (ac_with_state record (Consumed (Some (tr_access_token r)) (tr_refresh_token r)))) (Ok true) ∈ tr.
Proof.
  unfold check_code, restore_code. intros Hex.
  apply exec_bind in Hex as (tr1 & tr2 & t & -> & ->%exec_now & Hex).
  destruct (t >=? ac_expires_at record) eqn:Ht; [by exec_inv|].
  destruct (redirect_uri_matches uri record) eqn:Hu; cbn [negb] in Hex; [|by exec_inv].
  destruct (pkce_verified verifier record) eqn:Hp; cbn [negb] in Hex; [|by exec_inv].
  destruct (is_some_and (ac_dpop_jkt record) _) eqn:Hk; [by exec_inv|].
  match type of Hex with exec (match ?n with _ => _ end) _ _ => destruct n as [[resource granted]|] eqn:Hn end;
    [|by exec_inv].
  apply and_then_ok in Hn as (res & Hres & Hn). apply and_then_ok in Hn as (d & Hd & Hn). injection Hn as -> ->.
  apply redeem_code_exec in Hex as [Hc Hcas]. split.
  - split.
    + exists t. bools. split; [in_trace|lia].
    + unfold redirect_uri_matches in Hu. destruct uri as [u|]; bools; subst; auto.
    + by apply pkce_verified_true.
    + intros k Hjkt. rewrite Hjkt in Hk. cbn in Hk. by bools.
  - exists resource, granted. split_and!; [done|done| |in_trace].
    eapply committed_mono; [|done]. intros x Hx. in_trace.
Qed.

(** C11. Tokens are exchanged for a code only when everything about it is right.  In every
    execution of the authorization-code grant that answers with tokens: the client proved
    its identity; the store handed over the code's record, unspent and issued to that
    client; it had not expired; the redirect URI is the one of the authorization request;
    the PKCE verifier hashes to the recorded challenge; the DPoP key is the one the code
    is bound to, if any; the access token stored carries the subject and scope the user
    approved and no resource beyond those granted; and the redemption was recorded in the
    code's record before the answer. *)
Theorem code_redemption_checked client_id bound code uri verifier resources details tr r :
  exec (authorization_code_token client_id bound code uri verifier resources details) tr (Ok r) ->
  exists client record access,
    AStore (GetClient client_id) (Ok (Some client)) ∈ tr /\
    credential_proven self client (b_cred bound) tr /\ allows_grant client AuthorizationCode = true /\
    AStore (TakeAuthorizationCode code) (Ok (Some record)) ∈ tr /\
    ac_state record = Issued /\ ac_client_id record = c_client_id client /\
    redeemable bound record uri verifier tr /\
    AStore (PutToken access) (Ok Applied) ∈ tr /\ it_access_token access = tr_access_token r /\
    it_subject access = Some (ac_subject record) /\ it_scope access = ac_scope record /\
    (forall v, v ∈ it_resource access -> v ∈ ac_resource record) /\
    AStore (CompareAndSwapAuthorizationCode (Consumed None None)
      (ac_with_state record (Consumed (Some (tr_access_token r)) (tr_refresh_token r)))) (Ok true) ∈ tr.
Proof.
  unfold authorization_code_token. intros Hex.
  apply exec_bind_ok in Hex as [(tr1 & tr2 & client & -> & Hauth & Hex)|(? & [=] & _)].
  destruct (allows_grant client AuthorizationCode) eqn:Hg; cbn [negb] in Hex; [|by exec_inv].
  apply exec_bind_ok in Hex as [(tr3 & tr4 & found & -> & Htake & Hex)|(? & [=] & _)].
  apply exec_lift_ok in Hex as [(record & Hf%ok_or_ok & Hex)|(? & _ & [=] & _)]. subst found.
  destruct (bool_decide_reflect (ac_client_id record = c_client_id client)) as [Hid|]; cbn [negb] in Hex; [|by exec_inv].
  destruct (minted (ac_state record)) as [[at_ rt]|] eqn:Hm.
  { unfold contain_replay in Hex. exec_inv. }
  apply check_code_exec in Hex as (Hrd & resource & granted & Hn & _ & Hc & Hcas).
  apply authenticate_client_exec in Hauth as (Hget & Hproven & _).
  destruct Hc as (access & refresh & (t & entropy & Hacc & _) & Hput & _).
  apply narrow_and_permit_ok in Hn as [Hsub _].
  exists client, record, access.
  split_and!; [in_trace| |done|exec_inv; in_trace| |done| |in_trace|by rewrite Hacc..|rewrite Hacc; exact Hsub|in_trace].
  - eapply credential_proven_mono; [|done]. intros x Hx. in_trace.
  - by destruct (ac_state record).
  - destruct Hrd as [(t0 & Ht0 & Hlt) Hr Hp Hk]. split; auto. exists t0. split; [in_trace|done].
Qed.

(** ** What a refresh has checked *)

(** An access token of the same grant as [record], bound to what was presented, was
    stored for the answer [r]. *)
Definition refreshed (record : RefreshTokenRecord) (bound : Bound) (scope : ScopeSet) (resource : list string)
    (granted : GrantedDetails) (tr : list Act) (r : TokenResponse) : Prop :=
  exists access,
    (AStore (PutToken access) (Ok Applied) ∈ tr \/
     exists spent next, AStore (RotateRefreshToken record spent access next) (Ok true) ∈ tr) /\
    it_access_token access = tr_access_token r /\ it_subject access = rt_subject record /\
    it_client_id access = rt_client_id record /\ it_family_id access = Some (rt_family_id record) /\
    it_grant_established_at access = rt_grant_established_at record /\
    it_jkt access = b_jkt bound /\ it_x5t_s256 access = certificate_thumbprint bound /\
    it_scope access = scope /\ it_resource access = resource /\
    it_authorization_details access = into_details granted.

(** The answer repeats the one an earlier rotation of [token] stored, and everything
    [replayed_retry] lists was checked again for this request. *)
Definition repeated (token : string) (client : Client) (bound : Bound) (requested : option ScopeSet)
    (resources : list string) (details : GrantedDetails) (tr : list Act) (r : TokenResponse) : Prop :=
  exists current, AStore (GetRefreshToken token) (Ok (Some current)) ∈ tr /\
    replayed_retry self current client bound requested resources details tr r.

Lemma refresh_issue_exec client bound record scope resource details retry allow tr r :
  rt_client_id record = c_client_id client -> retry = None \/ retry = Some record ->
  exec (issue self (refresh_issuance client bound record scope resource details retry allow)) tr (Ok r) ->
  refreshed record bound scope resource details tr r \/
  (retry = Some record /\
   repeated (rt_refresh_token record) client bound (Some scope) resource (gd_of (into_details details)) tr r).
Proof.
  intros Hid Hretry [Hc|(e & current & He & Hget & Hrep)]%issue_exec.
  - left. destruct Hc as (access & refresh & (t & entropy & Hacc & _) & Hst). exists access.
    split_and!; [|rewrite Hacc; done..].
    destruct Hretry as [->| ->]; cbn in Hst; [left; apply Hst|].
    destruct Hst as (spent & next & Hrot & _). right. by exists spent, next.
  - right. cbn in He. destruct Hretry as [->| ->]; [done|]. injection He as <-. split; [done|]. by exists current.
Qed.

Lemma refreshed_mono record bound scope resource granted tr tr' r : tr ⊆ tr' ->
  refreshed record bound scope resource granted tr r -> refreshed record bound scope resource granted tr' r.
Proof.
  intros Hsub (access & Hput & Hrest). exists access. split; [|done].
  destruct Hput as [Hput|(spent & next & Hput)]; [left; auto|]. right. exists spent, next. auto.
Qed.

Lemma repeated_mono token client bound requested resources details tr tr' r : tr ⊆ tr' ->
  repeated token client bound requested resources details tr r ->
  repeated token client bound requested resources details tr' r.
Proof. intros Hsub (current & Hget & Hr). exists current. split; [auto|]. by eapply replayed_retry_mono. Qed.

Lemma spend_and_issue_exec client bound token record scope resource details tr r :
  rt_client_id record = c_client_id client ->
  exec (spend_and_issue client bound token record scope resource details) tr (Ok r) ->
  refreshed record bound scope resource details tr r \/
  repeated (rt_refresh_token record) client bound (Some scope) resource (gd_of (into_details details)) tr r.
Proof.
  intros Hid Hex. unfold spend_and_issue in Hex. exec_step; [|exec_step].
  - apply exec_bind_ok in Hex as [(tr1 & tr2 & resp & -> & Hi & [-> [= ->]])|(? & [=] & _)].
    apply refresh_issue_exec in Hi as [Hi|([=] & _)]; [|done|by left]. rewrite app_nil_r. by left.
  - apply exec_bind in Hex as (tr1 & tr2 & e & -> & _ & Hex).
    apply exec_bind_ok in Hex as [(tr3 & tr4 & outcome & -> & _ & Hex)|(? & [=] & _)].
    exec_step; [by exec_inv|]. apply refresh_issue_exec in Hex as [Hi|([=] & _)]; [|done|by left].
    left. eapply refreshed_mono; [|done]. intros x Hx. in_trace.
  - apply refresh_issue_exec in Hex as [Hi|(_ & Hi)]; auto.
Qed.

(** The conditions on a live refresh token. *)
Record refreshable (client : Client) (bound : Bound) (record : RefreshTokenRecord)
    (requested : option ScopeSet) (tr : list Act) : Prop := {
  rf_fresh : forall e, rt_expires_at record = Some e -> exists t, ANow t ∈ tr /\ t < e;
  rf_key : is_confidential (c_auth client) = false -> rt_jkt record = b_jkt bound;
  rf_bound : is_some (rt_jkt record) = is_some (b_jkt bound);
  rf_certificate : rt_x5t_s256 record = certificate_thumbprint bound;
  rf_registered : ScopeSet.is_subset (rt_scope record) (c_allowed_scopes client) = true;
  rf_narrower : forall s, requested = Some s -> ScopeSet.is_subset s (rt_scope record) = true;
}.

Lemma refreshable_mono client bound record requested tr tr' : tr ⊆ tr' ->
  refreshable client bound record requested tr -> refreshable client bound record requested tr'.
Proof. intros Hsub [Hfresh]. split; try done. intros e He. destruct (Hfresh e He) as (t & Ht & ?). eauto. Qed.

(** A refresh answered on a record all of whose checks passed: a new access token of the
    grant, or the answer a concurrent rotation of the same token stored. *)
Definition refresh_answered (client : Client) (bound : Bound) (record : RefreshTokenRecord)
    (requested : option ScopeSet) (resources : list string) (details : GrantedDetails)
    (tr : list Act) (r : TokenResponse) : Prop :=
  let scope := unwrap_or requested (rt_scope record) in
  exists resource granted, narrow_and_permit self (rt_resource record) resources = Ok resource /\
    gd_narrow (gd_of (rt_authorization_details record)) details = Ok granted /\
    (refreshed record bound scope resource granted tr r \/
     repeated (rt_refresh_token record) client bound (Some scope) resource
       (gd_of (into_details granted)) tr r).

Lemma refresh_answered_mono client bound record requested resources details tr tr' r : tr ⊆ tr' ->
  refresh_answered client bound record requested resources details tr r ->
  refresh_answered client bound record requested resources details tr' r.
Proof.
  intros Hsub (resource & granted & Hn & Hd & Hr). exists resource, granted. split_and!; [done..|].
  destruct Hr; [left; by eapply refreshed_mono|right; by eapply repeated_mono].
Qed.

Lemma dpop_binding_ok client record bound : dpop_binding_violation client record bound = false ->
  (is_confidential (c_auth client) = false -> rt_jkt record = b_jkt bound) /\
  is_some (rt_jkt record) = is_some (b_jkt bound).
Proof.
  unfold dpop_binding_violation. destruct (is_confidential (c_auth client)); intros; bools.
  - split; [done|]. by apply Bool.eqb_prop.
  - split; [done|]. congruence.
Qed.

Lemma check_refresh_exec client bound token record requested resources details tr r :
  rt_client_id record = c_client_id client ->
  exec (check_refresh client bound token record requested resources details) tr (Ok r) ->
  refreshable client bound record requested tr /\
  refresh_answered client bound record requested resources details tr r.
Proof.
  intros Hid Hex. unfold check_refresh, restore_and_refuse, restore_refresh_token in Hex.
  destruct (dpop_binding_violation client record bound) eqn:Hk; [by exec_inv|].
  destruct (bool_decide_reflect (rt_x5t_s256 record = certificate_thumbprint bound)) as [Hx|]; cbn [negb] in Hex; [|by exec_inv].
  apply exec_bind in Hex as (tr1 & tr2 & expired & -> & Hexp & Hex).
  destruct expired; [by exec_inv|].
  destruct (ScopeSet.is_subset (rt_scope record) (c_allowed_scopes client)) eqn:Hreg; cbn [negb] in Hex; [|by exec_inv].
  match type of Hex with exec (match ?g with _ => _ end) _ _ => destruct g as [scope|] eqn:Hs end; [|by exec_inv].
  match type of Hex with exec (match ?n with _ => _ end) _ _ => destruct n as [[resource granted]|] eqn:Hn end;
    [|by exec_inv].
  apply and_then_ok in Hn as (res & Hres & Hn). apply and_then_ok in Hn as (d & Hd & Hn). injection Hn as -> ->.
  apply dpop_binding_ok in Hk as [Hk1 Hk2].
  assert (Hscope : scope = unwrap_or requested (rt_scope record) /\
    (forall s, requested = Some s -> ScopeSet.is_subset s (rt_scope record) = true)).
  { destruct requested as [s|]; [|split; [by injection Hs|done]].
    destruct (ScopeSet.is_subset s (rt_scope record)) eqn:Hsub; [|done]. injection Hs as <-.
    split; [done|]. by intros ? [= <-]. }
  destruct Hscope as [-> Hnarrow]. split.
  - split; try done. intros e He. rewrite He in Hexp.
    apply exec_bind in Hexp as (t1 & t2 & t & -> & ->%exec_now & [-> Ht]).
    exists t. symmetry in Ht. bools. split; [in_trace|lia].
  - apply spend_and_issue_exec in Hex; [|done]. eapply refresh_answered_mono; [|by exists resource, granted].
    intros y Hy. in_trace.
Qed.

(** C12. A refresh never widens the grant.  In every execution of the refresh grant that
    answers with tokens the client proved its identity and owns the record the store read
    for the token presented.  Then one of two things happened.  Either the record passed every
    check (unspent under rotation, unexpired, bound to the key and the certificate
    presented, its scope still inside the registration) and an access token of the same
    subject, family and grant was stored, bound to that key and certificate, with the scope
    requested (a subset of the record's) or the record's own, with resources among the
    record's and details narrowed from them (or a concurrent rotation of the same token
    had just stored such an answer).  Or the answer is the one an earlier rotation stored,
    repeated inside the retry window: the record is unexpired, its stored binding is the key
    and the certificate presented, its scope still inside the registration, the access token
    repeated is read, live and of the same grant, the scope, resources and details asked for
    are the ones it was issued with, and the successor named is unspent. *)
Theorem refresh_never_widens client_id bound token requested resources details tr r :
  exec (refresh_token_grant client_id bound token requested resources details) tr (Ok r) ->
  exists client record,
    AStore (GetClient client_id) (Ok (Some client)) ∈ tr /\
    credential_proven self client (b_cred bound) tr /\ allows_grant client RefreshToken = true /\
    (AStore (TakeRefreshToken token) (Ok (Some record)) ∈ tr \/
     AStore (GetRefreshToken token) (Ok (Some record)) ∈ tr) /\
    rt_client_id record = c_client_id client /\
    (replayed_retry self record client bound requested resources details tr r \/
     refreshable client bound record requested tr /\
     (cfg_refresh_rotation cfg = Rotate -> rt_state record <> Spent) /\
     exists resource granted,
       (forall v, v ∈ resource -> v ∈ rt_resource record) /\
       gd_narrow (gd_of (rt_authorization_details record)) details = Ok granted /\
       (refreshed record bound (unwrap_or requested (rt_scope record)) resource granted tr r \/
        repeated (rt_refresh_token record) client bound (Some (unwrap_or requested (rt_scope record)))
          resource (gd_of (into_details granted)) tr r)).
Proof.
  unfold refresh_token_grant. intros Hex.
  apply exec_bind_ok in Hex as [(tr1 & tr2 & client & -> & Hauth & Hex)|(? & [=] & _)].
  destruct (allows_grant client RefreshToken) eqn:Hg; cbn [negb] in Hex; [|by exec_inv].
  apply exec_bind_ok in Hex as [(tr3 & tr4 & found & -> & Htake & Hex)|(? & [=] & _)].
  apply exec_lift_ok in Hex as [(record & Hf%ok_or_ok & Hex)|(? & _ & [=] & _)]. subst found.
  destruct (bool_decide_reflect (rt_client_id record = c_client_id client)) as [Hid|]; cbn [negb] in Hex;
    [|unfold restore_and_refuse, restore_refresh_token in Hex; by exec_inv].
  apply exec_bind_ok in Hex as [(tr5 & tr6 & replayed & -> & Hrep & Hex)|(? & [=] & _)].
  apply authenticate_client_exec in Hauth as (Hget & Hproven & _).
  exists client, record. split_and!; [in_trace| |done| |done|].
  { eapply credential_proven_mono; [|done]. intros x Hx. in_trace. }
  { match type of Htake with exec (if ?b then _ else _) _ _ => destruct b end; clear Hrep Hex; exec_step;
      [left|right]; in_trace. }
  destruct replayed as [response|].
  - destruct Hex as [-> [= ->]]. exec_step; [|by exec_inv]. left. apply refresh_retry_exec in Hrep.
    eapply replayed_retry_mono; [|done]. intros x Hx. in_trace.
  - match type of Hex with exec (if ?b then _ else _) _ _ => destruct b eqn:Hspent end;
      [unfold contain_reuse in Hex; by exec_inv|].
    apply check_refresh_exec in Hex as [Hrf Hr]; [|done]. right.
    split_and!; [eapply refreshable_mono; [|exact Hrf]; intros x Hx; in_trace| |].
    + intros Hrot Hst. rewrite Hrot, Hst in Hspent. done.
    + destruct Hr as (resource & granted & [Hsub _]%narrow_and_permit_ok & Hd & Hr).
      exists resource, granted. split_and!; [done|done|].
      destruct Hr as [Hr|Hr]; [left; eapply refreshed_mono|right; eapply repeated_mono]; try exact Hr;
        intros x Hx; in_trace.
Qed.
End grants.

(** ** Evaluation *)
Definition demo_verifier_text : string := repeat_char "A" 43.
Definition demo_issued_code : AuthorizationCodeRecord := {|
  ac_code := "code"; ac_client_id := "app"; ac_redirect_uri := "https://app/cb";
  ac_redirect_uri_was_explicit := true; ac_scope := ["read"]; ac_subject := "alice";
  ac_code_challenge := @Pkce.code_challenge_s256 plain_crypto demo_verifier_text;
  ac_code_challenge_method := S256; ac_resource := []; ac_authorization_details := [];
  ac_issued_at := from_secs 90; ac_expires_at := from_secs 1000; ac_state := Issued;
  ac_authentication := None; ac_dpop_jkt := None |}.

Definition demo_code_store : MemoryInner :=
  run_ops [any (PutClient demo_client); any (PutAuthorizationCode demo_issued_code)] mi_empty.

Lemma code_redemption_checked_witness : exists (tr : list Act) record access,
  AStore (TakeAuthorizationCode "code") (Ok (Some record)) ∈ tr /\ ac_state record = Issued /\
  AStore (PutToken access) (Ok Applied) ∈ tr /\ it_scope access = ac_scope record.
Proof.
  destruct (run_exec_ok demo_env (@authorization_code_token plain_crypto assertion_serde no_backends demo_server
    "app" demo_bound "code" (Some "https://app/cb") (Some demo_verifier_text) [] (gd_of []))
    (world_of demo_code_store)) as (tr & r & Htr); [vm_compute; reflexivity|].
  destruct (@code_redemption_checked plain_crypto assertion_serde no_backends demo_server "app" demo_bound "code"
    (Some "https://app/cb") (Some demo_verifier_text) [] (gd_of []) tr r Htr)
    as (client & record & access & _ & _ & _ & Htake & Hst & _ & _ & Hput & _ & _ & Hscope & _).
  by exists tr, record, access.
Defined.

Lemma refresh_never_widens_witness : exists (tr : list Act) client,
  AStore (GetClient "app") (Ok (Some client)) ∈ tr /\ allows_grant client RefreshToken = true.
Proof.
  destruct (run_exec_ok demo_env (@refresh_token_grant plain_crypto assertion_serde no_backends demo_server
    "app" demo_bound "rt" (Some ["read"]) [] (gd_of [])) (world_of (demo_token_store Active)))
    as (tr & r & Htr); [vm_compute; reflexivity|].
  destruct (@refresh_never_widens plain_crypto assertion_serde no_backends demo_server "app" demo_bound "rt"
    (Some ["read"]) [] (gd_of []) tr r Htr) as (client & record & Hget & _ & Hg & _).
  by exists tr, client.
Defined.
