(* ===== verification/TokenExchange.v ===== *)
(** * Token exchange (token_exchange.rs, RFC 8693)

    A client presents a token and receives another one for itself.  [exchange] follows the
    code check by check; [exchange_token] adds the event of a refusal.  The theorems say
    that an exchange only ever narrows (client, scope, resources, details, lifetime) and
    that delegation chains are bounded. *)
From S2P Require Import Prelude Time Codec Scope Types Store StoreFacts Effects Trace Ops Rar Jws.
From S2P Require Import Credentials Config ClientAuthn Issue.
Local Open Scope Z_scope.

Inductive TokenTypeIdentifier : Type := TTAccessToken | TTRefreshToken | TTIdToken | TTSaml1 | TTSaml2 | TTJwt.
#[global] Instance TokenTypeIdentifier_eq_dec : EqDecision TokenTypeIdentifier. Proof. solve_decision. Defined.

(** [TokenTypeIdentifier::parse] *)
Definition token_type_parse (s : string) : option TokenTypeIdentifier :=
  if s == "urn:ietf:params:oauth:token-type:access_token" then Some TTAccessToken
  else if s == "urn:ietf:params:oauth:token-type:refresh_token" then Some TTRefreshToken
  else if s == "urn:ietf:params:oauth:token-type:id_token" then Some TTIdToken
  else if s == "urn:ietf:params:oauth:token-type:saml1" then Some TTSaml1
  else if s == "urn:ietf:params:oauth:token-type:saml2" then Some TTSaml2
  else if s == "urn:ietf:params:oauth:token-type:jwt" then Some TTJwt
  else None.

(** [TokenTypeIdentifier::as_str] *)
Definition token_type_as_str (t : TokenTypeIdentifier) : string :=
  match t with
  | TTAccessToken => "urn:ietf:params:oauth:token-type:access_token"
  | TTRefreshToken => "urn:ietf:params:oauth:token-type:refresh_token"
  | TTIdToken => "urn:ietf:params:oauth:token-type:id_token"
  | TTSaml1 => "urn:ietf:params:oauth:token-type:saml1"
  | TTSaml2 => "urn:ietf:params:oauth:token-type:saml2"
  | TTJwt => "urn:ietf:params:oauth:token-type:jwt"
  end.

Inductive ExchangeSemantics : Type := Impersonation | Delegation.

Record TokenExchangeRequest : Type := {
  te_client_id : ClientId;
  te_client_secret : option string;
  te_client_assertion_type : option string;
  te_client_assertion : option string;
  te_subject_token : string;
  te_subject_token_type : TokenTypeIdentifier;
  te_actor_token : option string;
  te_actor_token_type : option TokenTypeIdentifier;
  te_resource : list string;
  te_audience : list string;
  te_scope : option ScopeSet;
  te_requested_token_type : option TokenTypeIdentifier;
}.

(** [TokenExchangeRequest::new] *)
Definition exchange_request_new (client_id : ClientId) (subject_token : string)
    (subject_token_type : TokenTypeIdentifier) : TokenExchangeRequest := {|
  te_client_id := client_id; te_client_secret := None; te_client_assertion_type := None;
  te_client_assertion := None; te_subject_token := subject_token;
  te_subject_token_type := subject_token_type; te_actor_token := None; te_actor_token_type := None;
  te_resource := []; te_audience := []; te_scope := None; te_requested_token_type := None |}.

Record TokenExchangeResponse : Type := {
  xr_access_token : string;
  xr_issued_token_type : TokenTypeIdentifier;
  xr_token_type : TokenType;
  xr_expires_in : option Z;
  xr_scope : option string;
  xr_refresh_token : option string;
}.

Record ExchangedToken : Type := {
  xt_response : TokenExchangeResponse;
  xt_semantics : ExchangeSemantics;
  xt_act : option ActClaim;
}.

Definition MAX_AUDIENCE_VALUES : nat := MAX_RESOURCE_INDICATORS.
Definition MAX_ACT_CHAIN_DEPTH : nat := 8.

(** [act_chain_depth]: the loop, and its start. *)
Fixpoint act_depth_loop (depth : nat) (act : ActClaim) : nat :=
  match act with
  | mkActClaim _ _ None => depth
  | mkActClaim _ _ (Some next) =>
      let depth := S depth in
      if Nat.leb MAX_ACT_CHAIN_DEPTH depth then depth else act_depth_loop depth next
  end.
Definition act_chain_depth (act : ActClaim) : nat := act_depth_loop 1 act.

Definition invalid_request (d : string) : ErrorResponse := with_description (error_new InvalidRequest) d.

Definition sender_constrained_refusal (mechanism : string) : ErrorResponse :=
  invalid_request ("subject_token is sender constrained by " +:+ mechanism +:+
    " and cannot be exchanged for a token that is not, because the issued token would belong to a client that cannot prove possession of the binding key").

Section exchange.
Context `{Crypto, Serde, Backends} (self : AuthorizationServer).
Let cfg := sv_config self.
Let hooks := sv_hooks self.

(** The token presented must be one this server would still accept. *)
Definition live_token (token : string) (unusable : ErrorResponse) : prog (result IssuedToken ErrorResponse) :=
  let* found := introspect token in
  let?! live := map_err storage_error found in
  Ret (ok_or live unusable).

(** The actor: none for an impersonation, the exchanging client's own token for a
    delegation. *)
Definition exchange_actor (client : Client) (subject : IssuedToken) (request : TokenExchangeRequest)
  : prog (result (ExchangeSemantics * option ActClaim) ErrorResponse) :=
  match te_actor_token request, te_actor_token_type request with
  | None, None => Ret (Ok (Impersonation, None))
  | None, Some _ => Ret (Err (invalid_request "actor_token_type is meaningless without actor_token"))
  | Some _, None => Ret (Err (invalid_request "actor_token_type is required when actor_token is present"))
  | Some actor_token, Some actor_token_type =>
      if actor_token_type != TTAccessToken then
        Ret (Err (invalid_request
          "actor_token_type must be urn:ietf:params:oauth:token-type:access_token"))
      else
        let unusable := invalid_request "actor_token is not a live access token" in
        let?* actor := live_token actor_token unusable in
        if it_client_id actor != c_client_id client then Ret (Err unusable)
        else if is_some_and (it_act subject) (fun prior => Nat.leb MAX_ACT_CHAIN_DEPTH (act_chain_depth prior))
        then Ret (Err (invalid_request
          "the subject token's act chain is already at this server's maximum delegation depth"))
        else Ret (Ok (Delegation, Some (mkActClaim (unwrap_or (it_subject actor) (it_client_id actor))
                                          (Some (it_client_id actor)) (it_act subject))))
  end.

(** The scope: inside the subject token's, and inside the client's registration. *)
Definition exchange_scope (client : Client) (subject : IssuedToken) (request : TokenExchangeRequest)
  : result ScopeSet ErrorResponse :=
  let? scope :=
    match te_scope request with
    | None => Ok (it_scope subject)
    | Some s =>
        if ScopeSet.is_subset s (it_scope subject) then Ok s
        else Err (with_description (error_new InvalidScope)
                    "token exchange may narrow the subject token scope, never widen it")
    end in
  if negb (ScopeSet.is_subset scope (c_allowed_scopes client))
  then Err (with_description (error_new InvalidScope) "scope exceeds the exchanging client registration")
  else Ok scope.

(** The loop over the [audience] values. *)
Fixpoint push_audiences (targets audiences : list string) : result (list string) ErrorResponse :=
  match audiences with
  | [] => Ok targets
  | audience :: rest =>
      let? _ := target_is_permitted self audience in
      push_audiences (if existsb (fun t => t == audience) targets then targets else targets ++ [audience]) rest
  end.

Definition exchange_targets (subject : IssuedToken) (request : TokenExchangeRequest)
  : result (list string) ErrorResponse :=
  let? targets := validate_resources self (te_resource request) in
  if Nat.ltb MAX_AUDIENCE_VALUES (List.length (te_audience request))
  then Err (invalid_target "too many audience values (RFC 8693 s2.1.1)")
  else
    let? targets := push_audiences targets (te_audience request) in
    narrow_and_permit self (it_resource subject) targets.

Definition exchange_bound (request : TokenExchangeRequest) : Bound := {|
  b_cred := {| cred_client_secret := te_client_secret request;
               cred_client_assertion_type := te_client_assertion_type request;
               cred_client_assertion := te_client_assertion request; cred_certificate := None |};
  b_jkt := None |}.

Definition exchange_issuance (client : Client) (request : TokenExchangeRequest) (subject : IssuedToken)
    (act : option ActClaim) (scope : ScopeSet) (resource : list string) : Issuance := {|
  is_client := client; is_bound := exchange_bound request; is_grant_type := TokenExchange;
  is_grant_established_at := it_grant_established_at subject; is_subject := it_subject subject;
  is_scope := scope; is_resource := resource; is_details := gd_of (it_authorization_details subject);
  is_chain := None; is_allow_refresh := false; is_authentication := None; is_actor := act;
  is_lifetime_ceiling := Some (it_expires_at subject) |}.

(** The checks on a live subject token and the issuance. *)
Definition exchange_live (client : Client) (request : TokenExchangeRequest) (subject : IssuedToken)
  : prog (result ExchangedToken ErrorResponse) :=
  if is_some (it_jkt subject) && negb (cfg_allow_sender_constrained_exchange cfg) then
    Ret (Err (sender_constrained_refusal "DPoP (RFC 9449)"))
  else if is_some (it_x5t_s256 subject) && negb (cfg_allow_sender_constrained_exchange cfg) then
    Ret (Err (sender_constrained_refusal "mutual TLS (RFC 8705)"))
  else
    let?* acting := exchange_actor client subject request in
    let?! scope := exchange_scope client subject request in
    if negb (list_is_empty (it_authorization_details subject))
       && (it_client_id subject != c_client_id client)
       && negb (cfg_allow_authorization_details_exchange cfg)
    then Ret (Err (invalid_request
      "subject_token carries authorization_details and cannot be exchanged for a token issued to a different client, because this server has no per-client registration of the detail types that client may hold"))
    else
      let?! resource := exchange_targets subject request in
      let?* issued := issue self (exchange_issuance client request subject (snd acting) scope resource) in
      Ret (Ok {| xt_response := {|
                   xr_access_token := tr_access_token issued; xr_issued_token_type := TTAccessToken;
                   xr_token_type := tr_token_type issued; xr_expires_in := Some (tr_expires_in issued);
                   xr_scope := tr_scope issued; xr_refresh_token := None |};
                 xt_semantics := fst acting; xt_act := snd acting |}).

Definition exchange (request : TokenExchangeRequest) : prog (result ExchangedToken ErrorResponse) :=
  if is_some_and (te_requested_token_type request) (fun t => t != TTAccessToken) then
    Ret (Err (invalid_request "this server issues only urn:ietf:params:oauth:token-type:access_token"))
  else
    let?* client := authenticate_client self (te_client_id request) (b_cred (exchange_bound request)) in
    if negb (is_confidential (c_auth client)) then
      let* _ := emit hooks (ClientAuthenticationFailed (te_client_id request) NotConfidential) in
      Ret (Err (error_new InvalidClient))
    else if negb (allows_grant client TokenExchange) then
      Ret (Err (with_description (error_new UnauthorizedClient)
        "client registration does not include the token-exchange grant"))
    else if te_subject_token_type request != TTAccessToken then
      Ret (Err (invalid_request
        "subject_token_type must be urn:ietf:params:oauth:token-type:access_token"))
    else
      let?* subject := live_token (te_subject_token request)
                         (invalid_request "subject_token is not a live access token") in
      exchange_live client request subject.

Definition exchange_token (request : TokenExchangeRequest) : prog (result ExchangedToken ErrorResponse) :=
  let* outcome := exchange request in
  let* _ := (match outcome with
             | Err e => emit hooks (GrantRefused (te_client_id request) TokenExchange (error e))
             | Ok _ => Ret tt
             end) in
  Ret outcome.
End exchange.

(** ** Delegation chains *)

(** The number of actors a claim names. *)
Fixpoint act_length (act : ActClaim) : nat :=
  match act with
  | mkActClaim _ _ None => 1
  | mkActClaim _ _ (Some next) => S (act_length next)
  end.

Lemma act_claim_ind (P : ActClaim -> Prop) :
  (forall s c, P (mkActClaim s c None)) ->
  (forall s c next, P next -> P (mkActClaim s c (Some next))) -> forall a, P a.
Proof. intros Hn Hs. refine (fix go a := _). destruct a as [s c [next|]]; [apply Hs, go|apply Hn]. Qed.

Lemma act_depth_loop_spec act : forall depth, (1 <= depth < MAX_ACT_CHAIN_DEPTH)%nat ->
  act_depth_loop depth act = Nat.min (depth + act_length act - 1) MAX_ACT_CHAIN_DEPTH.
Proof.
  unfold MAX_ACT_CHAIN_DEPTH. induction act as [s c|s c next IH] using act_claim_ind; intros depth Hd;
    cbn [act_depth_loop act_length]; [lia|]. unfold MAX_ACT_CHAIN_DEPTH.
  destruct (Nat.leb_spec 8 (S depth)); [|rewrite IH by lia; lia].
  assert (1 <= act_length next)%nat by (destruct next as [?? [?|]]; cbn; lia). lia.
Qed.

(** The walk that stops early answers the number of actors, capped at the maximum. *)
Lemma act_chain_depth_spec act : act_chain_depth act = Nat.min (act_length act) MAX_ACT_CHAIN_DEPTH.
Proof. unfold act_chain_depth. rewrite act_depth_loop_spec; unfold MAX_ACT_CHAIN_DEPTH; lia. Qed.

Definition act_bounded (act : option ActClaim) : Prop :=
  forall a, act = Some a -> (act_length a <= MAX_ACT_CHAIN_DEPTH)%nat.

(** ** An exchange only narrows *)
Section facts.
Context `{Crypto, Serde, Backends} (self : AuthorizationServer).

Lemma live_token_exec token unusable tr t : exec (live_token token unusable) tr (Ok t) ->
  exists instant, tr = [AStore (GetToken token) (Ok (Some t)); ANow instant] /\ instant < it_expires_at t.
Proof.
  unfold live_token, introspect, store, now. cbn. intros (r & tr1 & -> & Hex).
  destruct r as [[found|]|e]; cbn in Hex; [|by destruct Hex|by destruct Hex].
  destruct Hex as (instant & tr2 & -> & Hex). destruct (instant <? it_expires_at found) eqn:He; cbn in Hex;
    destruct Hex as [-> Hex]; simplify_eq. apply Z.ltb_lt in He. eauto.
Qed.

(** What an exchange may write for a client that presents a subject token. *)
Record narrowed (client : Client) (subject access : IssuedToken) : Prop := {
  nw_client : it_client_id access = c_client_id client;
  nw_subject : it_subject access = it_subject subject;
  nw_established : it_grant_established_at access = it_grant_established_at subject;
  nw_scope : forall s, s ∈ it_scope access -> s ∈ it_scope subject /\ s ∈ c_allowed_scopes client;
  nw_resource : forall v, v ∈ it_resource access -> v ∈ it_resource subject /\ permitted_target self v;
  nw_audience : it_resource subject <> [] -> it_resource access <> [];
  nw_details : it_authorization_details access = it_authorization_details subject;
  nw_details_rule : it_authorization_details subject = [] \/ it_client_id subject = c_client_id client \/
                    cfg_allow_authorization_details_exchange (sv_config self) = true;
  nw_unconstrained : cfg_allow_sender_constrained_exchange (sv_config self) = true \/
                     it_jkt subject = None /\ it_x5t_s256 subject = None;
  nw_expiry : it_expires_at access <= it_expires_at subject;
  nw_act : act_bounded (it_act access);
  nw_bare : it_jkt access = None /\ it_x5t_s256 access = None /\ it_family_id access = None /\
            it_authentication access = None;
}.

Lemma exchange_actor_exec client subject request tr semantics act :
  exec (exchange_actor client subject request) tr (Ok (semantics, act)) ->
  act_bounded act /\
  match semantics with
  | Impersonation => act = None /\ te_actor_token request = None
  | Delegation => exists actor_token actor t, te_actor_token request = Some actor_token /\
      AStore (GetToken actor_token) (Ok (Some actor)) ∈ tr /\ ANow t ∈ tr /\ t < it_expires_at actor /\
      it_client_id actor = c_client_id client /\
      act = Some (mkActClaim (unwrap_or (it_subject actor) (it_client_id actor)) (Some (it_client_id actor))
                    (it_act subject))
  end.
Proof.
  unfold exchange_actor. intros Hex.
  destruct (te_actor_token request) as [at_|], (te_actor_token_type request) as [ty|]; [|by exec_inv..|].
  2:{ destruct Hex as [-> [= -> ->]]. by split. }
  exec_step; [by exec_inv|]. exec_step. rename select (exec (live_token _ _) _ _) into Hl.
  apply live_token_exec in Hl as (t & -> & Ht). exec_step; [by exec_inv|]. exec_step; [by exec_inv|].
  exec_inv. simplify_eq. bools. split.
  - intros b [= <-]. destruct (it_act subject) as [prior|]; cbn; [|unfold MAX_ACT_CHAIN_DEPTH; lia].
    rename select (is_some_and _ _ = false) into Hd. cbn [is_some_and] in Hd.
    apply Nat.leb_gt in Hd. rewrite act_chain_depth_spec in Hd. lia.
  - eexists _, _, _. split_and!; [done|in_trace|in_trace|done|by simplify_eq/=|done].
Qed.

Lemma exchange_scope_ok client subject request scope : exchange_scope client subject request = Ok scope ->
  forall s, s ∈ scope -> s ∈ it_scope subject /\ s ∈ c_allowed_scopes client.
Proof.
  unfold exchange_scope. intros (sc & Hsc & Hk)%and_then_ok s Hs.
  destruct (ScopeSet.is_subset sc (c_allowed_scopes client)) eqn:Ha; [|done]. injection Hk as <-.
  split; [|by eapply ScopeSet.is_subset_sound].
  destruct (te_scope request) as [r|]; [|by simplify_eq]. destruct (ScopeSet.is_subset r _) eqn:Hr; [|done].
  simplify_eq. by eapply ScopeSet.is_subset_sound.
Qed.

Lemma push_audiences_ok audiences : forall targets out, push_audiences self targets audiences = Ok out ->
  (forall v, v ∈ out <-> v ∈ targets \/ v ∈ audiences) /\ (forall v, v ∈ audiences -> permitted_target self v).
Proof.
  induction audiences as [|a audiences IH]; intros targets out Hok; cbn in Hok; [injection Hok as <-; set_solver|].
  apply and_then_ok in Hok as ([] & Hp%target_is_permitted_ok & Hok). apply IH in Hok as [Hm Hall]. split.
  - intros v. rewrite Hm. destruct (existsb _ targets) eqn:He; [apply existsb_elem in He|]; set_solver.
  - intros v [->|Hv]%elem_of_cons; auto.
Qed.

Lemma exchange_targets_ok subject request out : exchange_targets self subject request = Ok out ->
  (forall v, v ∈ out -> v ∈ it_resource subject /\ permitted_target self v) /\
  (it_resource subject <> [] -> out <> []).
Proof.
  unfold exchange_targets. intros (targets & Hv & Hk)%and_then_ok. destruct (Nat.ltb _ _); [done|].
  apply and_then_ok in Hk as (all & Hp & Hn). apply narrow_and_permit_ok in Hn as (Hsub & Hreq & Hnone).
  apply push_audiences_ok in Hp as [Hm Hpa]. apply validate_resources_sound in Hv as (_ & _ & _ & Hpt).
  destruct (decide (all = [])) as [Hz|Hz].
  - destruct (Hnone Hz) as [Hiff Hne]. split; [|done]. intros v Hv. by apply Hiff.
  - rewrite (Hreq Hz) in *. split; [|done]. intros v Hv. split; [auto|].
    apply Hm in Hv as [Hv|Hv]; [by apply Hpt|auto].
Qed.

(** Every access token an exchange writes is a narrowing of the subject token. *)
Lemma exchange_narrowed client request subject act scope resource t token family :
  (cfg_allow_sender_constrained_exchange (sv_config self) = true \/
   it_jkt subject = None /\ it_x5t_s256 subject = None) ->
  act_bounded act -> exchange_scope client subject request = Ok scope ->
  (it_authorization_details subject = [] \/ it_client_id subject = c_client_id client \/
   cfg_allow_authorization_details_exchange (sv_config self) = true) ->
  exchange_targets self subject request = Ok resource ->
  family = issue_family self (exchange_issuance client request subject act scope resource) token ->
  forall at_, narrowed client subject
    (let i := exchange_issuance client request subject act scope resource in
     access_record i t (access_expiry self i t) at_ family).
Proof.
  intros Hc Ha Hs Hd Ht -> at_. apply exchange_targets_ok in Ht as [Hin Hne].
  split; cbn; try done; [by eapply exchange_scope_ok| |apply Z.le_min_r].
  by destruct (it_authorization_details subject).
Qed.

Lemma sender_rule subject (b : bool) :
  is_some (it_jkt subject) && negb b = false -> is_some (it_x5t_s256 subject) && negb b = false ->
  b = true \/ it_jkt subject = None /\ it_x5t_s256 subject = None.
Proof. destruct b, (it_jkt subject), (it_x5t_s256 subject); cbn; auto. Qed.

Lemma details_rule client subject (b : bool) :
  negb (list_is_empty (it_authorization_details subject)) && (it_client_id subject != c_client_id client)
    && negb b = false ->
  it_authorization_details subject = [] \/ it_client_id subject = c_client_id client \/ b = true.
Proof.
  destruct (it_authorization_details subject); [auto|]. cbn. case_bool_decide; [auto|]. destruct b; auto.
Qed.

Lemma exchange_live_exec client request subject tr x :
  exec (exchange_live self client request subject) tr (Ok x) ->
  exists access, AStore (PutToken access) (Ok Applied) ∈ tr /\ narrowed client subject access /\
    it_access_token access = xr_access_token (xt_response x) /\ it_act access = xt_act x /\
    xr_refresh_token (xt_response x) = None /\
    xr_scope (xt_response x) = scope_text (it_scope access) /\
    exists tr', (forall y, y ∈ tr' -> y ∈ tr) /\
      exec (exchange_actor client subject request) tr' (Ok (xt_semantics x, xt_act x)).
Proof.
  unfold exchange_live. intros Hex.
  destruct (is_some (it_jkt subject) && _) eqn:Hj; [by exec_inv|].
  destruct (is_some (it_x5t_s256 subject) && _) eqn:Hx; [by exec_inv|].
  pose proof (sender_rule _ _ Hj Hx) as Hsc.
  apply exec_bind_ok in Hex as [(tr1 & tr2 & [semantics act] & -> & Hact & Hex)|(? & [=] & _)].
  apply exec_lift_ok in Hex as [(scope & Hs & Hex)|(? & _ & [=] & _)].
  match type of Hex with exec (if ?b then _ else _) _ _ => destruct b eqn:Hd; [by exec_inv|] end.
  apply details_rule in Hd.
  apply exec_lift_ok in Hex as [(resource & Hr & Hex)|(? & _ & [=] & _)].
  apply exec_bind_ok in Hex as [(tr3 & tr4 & issued & -> & Hi & Hex)|(? & [=] & _)].
  destruct Hex as [-> [= ->]]. cbn [fst snd] in *.
  apply issue_exec in Hi as [Hi|(? & ? & [=] & _)].
  destruct Hi as (access & refresh & (t & entropy & -> & _ & Hresp) & Hput & _).
  pose proof (proj1 (exchange_actor_exec _ _ _ _ _ _ Hact)) as Hb.
  eexists. split; [apply elem_of_app; right; apply elem_of_app; left; exact Hput|].
  split; [by eapply exchange_narrowed|]. cbn. split_and!; [done|done|done|by rewrite Hresp|]. exists tr1. split; [|done]. intros y Hy. in_trace.
Qed.

(** C15. An exchange never produces more than was presented.  In every execution of the
    exchange that answers with a token: the client proved its identity, is confidential
    and registered for the grant; the subject token was live; and the token the store
    accepted belongs to that client, names the same subject and the same grant, and is
    inside the subject token in scope, resources, details and lifetime, and inside the
    client's registered scopes; it is neither bound to a key nor part of a family, no
    refresh token comes with it, a subject token bound to a key was exchanged only where
    the configuration allows that, and its details left their client only where the
    configuration allows that.  Without an actor token it is an impersonation and no actor
    is recorded; a delegation names the actor of the request's own actor token: that token
    was read from the store, was unexpired at a time the server read, belongs to the
    exchanging client, and its subject heads the chain the subject token carried. *)
Theorem exchange_never_widens request tr x :
  exec (exchange self request) tr (Ok x) ->
  exists client subject access t,
    AStore (GetClient (te_client_id request)) (Ok (Some client)) ∈ tr /\
    credential_proven self client (b_cred (exchange_bound request)) tr /\
    is_confidential (c_auth client) = true /\ allows_grant client TokenExchange = true /\
    AStore (GetToken (te_subject_token request)) (Ok (Some subject)) ∈ tr /\
    ANow t ∈ tr /\ t < it_expires_at subject /\
    AStore (PutToken access) (Ok Applied) ∈ tr /\ narrowed client subject access /\
    it_access_token access = xr_access_token (xt_response x) /\
    xr_refresh_token (xt_response x) = None /\ it_act access = xt_act x /\
    match xt_semantics x with
    | Impersonation => xt_act x = None /\ te_actor_token request = None
    | Delegation => exists actor_token actor t', te_actor_token request = Some actor_token /\
        AStore (GetToken actor_token) (Ok (Some actor)) ∈ tr /\ ANow t' ∈ tr /\ t' < it_expires_at actor /\
        it_client_id actor = c_client_id client /\
        xt_act x = Some (mkActClaim (unwrap_or (it_subject actor) (it_client_id actor))
                           (Some (it_client_id actor)) (it_act subject))
    end.
Proof.
  unfold exchange. intros Hex. exec_step; [by exec_inv|].
  apply exec_bind_ok in Hex as [(tr1 & tr2 & client & -> & Hauth & Hex)|(? & [=] & _)].
  destruct (is_confidential (c_auth client)) eqn:Hc; cbn [negb] in Hex; [|by exec_inv].
  destruct (allows_grant client TokenExchange) eqn:Hg; cbn [negb] in Hex; [|by exec_inv].
  exec_step; [by exec_inv|].
  apply exec_bind_ok in Hex as [(tr3 & tr4 & subject & -> & Hl & Hex)|(? & [=] & _)].
  apply live_token_exec in Hl as (t & -> & Ht).
  apply exchange_live_exec in Hex as (access & Hput & Hn & Hat & Hact & Hrt & _ & tr' & Hsub & Hx).
  apply authenticate_client_exec in Hauth as (Hget & Hproven & _).
  apply exchange_actor_exec in Hx as [_ Hx].
  exists client, subject, access, t. split_and!; try done; [in_trace| |in_trace..|].
  - eapply credential_proven_mono; [|done]. intros y Hy. in_trace.
  - destruct (xt_semantics x); [done|].
    destruct Hx as (actor_token & actor & t' & Hreq & Hlook & Hnow & Hlt & Hid & Ha).
    exists actor_token, actor, t'. apply Hsub in Hlook, Hnow. split_and!; [done|in_trace|in_trace|done..].
Qed.

(** Whatever the answers, nothing else is written. *)
Lemma issue_writes P i :
  (forall t token entropy, P (access_record i t (access_expiry self i t) token (issue_family self i entropy))) ->
  all_ops (writes_access P) (issue self i).
Proof.
  intros HP. unfold issue, finish_signing, commit_issuance, undo_issuance, commit_refresh_retry,
    refresh_retry_response, introspect. ops.
  all: exact (HP _ _ _).
Qed.

Lemma authenticate_client_writes P client_id cred :
  all_ops (writes_access P) (authenticate_client self client_id cred).
Proof.
  unfold authenticate_client, admit_client_authentication, classify_client_credential, secret_expired,
    authenticate_by_assertion, settle_credential_cost, dummy_verify, dummy_assertion_verify.
  ops.
Qed.

Lemma live_token_writes P token e : all_ops (writes_access P) (live_token token e).
Proof. unfold live_token, introspect. ops. Qed.

Lemma exchange_live_writes client request subject :
  all_ops (writes_access (narrowed client subject)) (exchange_live self client request subject).
Proof.
  unfold exchange_live.
  destruct (is_some (it_jkt subject) && _) eqn:Hj; [exact I|].
  destruct (is_some (it_x5t_s256 subject) && _) eqn:Hx; [exact I|].
  apply (all_ops_bind_ok_exec _ _ _).
  { unfold exchange_actor. ops. apply live_token_writes. }
  intros [semantics act] tr Hact. apply exchange_actor_exec in Hact as [Hb _].
  destruct (exchange_scope client subject request) eqn:Hs; cbn [lift_ok]; [|exact I].
  match goal with |- all_ops _ (if ?b then _ else _) => destruct b eqn:Hd; [exact I|] end.
  destruct (exchange_targets self subject request) eqn:Hr; cbn [lift_ok]; [|exact I].
  ops. apply issue_writes. intros t token entropy.
  eapply exchange_narrowed; [by apply sender_rule|done|done|by apply details_rule|done|done].
Qed.

(** [b] was written by an exchange of the subject token [a]. *)
Definition exchanged (a b : IssuedToken) : Prop :=
  exists client request tr x answer, exec (exchange_live self client request a) tr x /\
    AStore (PutToken b) answer ∈ tr.

(** Exchanging again and again gains nothing.  A token at the end of any chain of
    exchanges, through any clients, is for the subject and the grant of the token the chain
    started from, inside its scope, its resources and its details; it is for some resource
    if the first one was; and it expires no later than that one. *)
Theorem exchange_chain_narrows a b : rtc exchanged a b ->
  it_subject b = it_subject a /\ it_grant_established_at b = it_grant_established_at a /\
  (forall s, s ∈ it_scope b -> s ∈ it_scope a) /\
  (forall v, v ∈ it_resource b -> v ∈ it_resource a) /\ (it_resource a <> [] -> it_resource b <> []) /\
  it_authorization_details b = it_authorization_details a /\
  it_expires_at b <= it_expires_at a.
Proof.
  induction 1 as [a|a b c (client & request & tr & x & ans & Hex & Hput) _ IH]; [split_and!; (done || lia)|].
  assert (Hn : narrowed client a b).
  { exact (exec_all_ops _ _ _ _ (exchange_live_writes client request a) Hex _ _ _ Hput). }
  destruct IH as (-> & -> & Hs & Hr & Hne & -> & He), Hn.
  split_and!; [done|done| | |auto|done|lia].
  - intros s Hin. by apply nw_scope0, Hs.
  - intros v Hin. by destruct (nw_resource0 v (Hr v Hin)).
Qed.

(** Every write of an exchange keeps delegation chains bounded. *)
Lemma exchange_writes request :
  all_ops (writes_access (fun t => act_bounded (it_act t))) (exchange_token self request).
Proof.
  unfold exchange_token, exchange. ops.
  - apply authenticate_client_writes.
  - apply live_token_writes.
  - eapply all_ops_mono; [|apply exchange_live_writes]. intros [X []]; cbn; try done; apply nw_act.
Qed.
End facts.

(** Revoking a grant by its token family does not reach what was exchanged out of it: a
    token an exchange wrote belongs to no family, so it survives the revocation of every
    family, the subject token's own included. *)
Theorem exchanged_survives_family `{HashOrder, Crypto, Backends} self a b g family window :
  exchanged self a b -> mi_tokens g !! it_access_token b = Some b ->
  mi_tokens (run_op (any (RevokeTokenFamily family window)) g) !! it_access_token b = Some b.
Proof.
  intros (client & request & tr & x & ans & Hex & Hput) Hb.
  assert (Hn : narrowed self client a b).
  { exact (exec_all_ops _ _ _ _ (exchange_live_writes self client request a) Hex _ _ _ Hput). }
  destruct (nw_bare _ _ _ _ Hn) as (_ & _ & Hfam & _).
  unfold run_op. cbn. unfold MemoryStorage.revoke_token_family. case_match; [|done]. cbn.
  rewrite lookup_retain, Hb. cbn. by rewrite Hfam.
Qed.

(** ** Evaluation *)
Definition exchange_client : Client := {|
  c_client_id := "gateway"; c_auth := ConfidentialSecret "s3cret"; c_grant_types := [TokenExchange];
  c_redirect_uris := []; c_allowed_scopes := ["read"]; c_default_scopes := []; c_name := None;
  c_registration := None |}.
Definition actor_access : IssuedToken := {|
  it_access_token := "actor"; it_client_id := "gateway"; it_subject := None; it_scope := [];
  it_resource := []; it_authorization_details := []; it_issued_at := from_secs 90;
  it_grant_established_at := from_secs 90; it_expires_at := from_secs 5000; it_jkt := None;
  it_x5t_s256 := None; it_family_id := None; it_act := None; it_authentication := None |}.
Definition demo_exchange : TokenExchangeRequest := {|
  te_client_id := "gateway"; te_client_secret := Some "s3cret"; te_client_assertion_type := None;
  te_client_assertion := None; te_subject_token := "at"; te_subject_token_type := TTAccessToken;
  te_actor_token := Some "actor"; te_actor_token_type := Some TTAccessToken;
  te_resource := []; te_audience := []; te_scope := None; te_requested_token_type := None |}.
Definition demo_exchange_store : MemoryInner :=
  run_ops [any (PutClient exchange_client); any (PutToken demo_access); any (PutToken actor_access)] mi_empty.

Lemma exchange_never_widens_witness : exists (tr : list Act) client subject access,
  AStore (PutToken access) (Ok Applied) ∈ tr /\ narrowed demo_server client subject access.
Proof.
  destruct (run_exec_ok demo_env (@exchange plain_crypto assertion_serde no_backends demo_server demo_exchange)
              (world_of demo_exchange_store)) as (tr & x & Htr); [vm_compute; reflexivity|].
  destruct (@exchange_never_widens plain_crypto assertion_serde no_backends demo_server demo_exchange tr x Htr)
    as (client & subject & access & t & _ & _ & _ & _ & _ & _ & _ & Hput & Hn & _).
  exists tr, client, subject, access. split; [exact Hput|exact Hn].
Defined.

Lemma demo_exchanged : exists b,
  @exchanged plain_crypto no_backends demo_server demo_access b.
Proof.
  destruct (run_exec_ok demo_env (@exchange_live plain_crypto no_backends demo_server
    exchange_client demo_exchange demo_access) (world_of demo_exchange_store)) as (tr & x & Htr);
    [vm_compute; reflexivity|].
  destruct (exchange_live_exec _ _ _ _ _ _ Htr) as (b & Hput & _).
  exists b, exchange_client, demo_exchange, tr, (Ok x), (Ok Applied). split; [exact Htr|exact Hput].
Qed.

Lemma exchange_chain_narrows_witness : exists b, rtc (@exchanged plain_crypto no_backends demo_server)
    demo_access b /\ it_subject b = Some "alice" /\ it_expires_at b <= from_secs 5000.
Proof.
  destruct demo_exchanged as [b Hb]. exists b.
  pose proof (rtc_once (R := @exchanged plain_crypto no_backends demo_server) _ _ Hb) as Hrtc.
  split; [exact Hrtc|].
  destruct (@exchange_chain_narrows plain_crypto no_backends demo_server demo_access b Hrtc)
    as (Hs & _ & _ & _ & _ & _ & He). split; [exact Hs|exact He].
Defined.

Lemma exchanged_survives_family_witness : exists b,
  mi_tokens (run_op (any (RevokeTokenFamily "family" demo_window))
    (set_tokens (<[it_access_token b := b]> (mi_tokens demo_exchange_store)) demo_exchange_store))
    !! it_access_token b = Some b.
Proof.
  destruct demo_exchanged as [b Hb]. exists b.
  apply (@exchanged_survives_family listing_order plain_crypto no_backends demo_server
    demo_access b _ "family" demo_window Hb). apply lookup_insert_eq.
Defined.
