(* ===== verification/Endpoints.v ===== *)
(** * Introspection, revocation and consent (server.rs)

    RFC 7662 introspection with its per-caller view, RFC 7009 revocation, and the
    recording and withdrawal of consent. *)
From S2P Require Import Prelude Time Codec Scope Types Store StoreFacts Effects Trace Rar Consent Jws.
From S2P Require Import Credentials Config ClientAuthn Issue.
Local Open Scope Z_scope.

Inductive IntrospectionView : Type :=
| OwningClient
| ResourceServer (mine : list string).

(** The details a resource server may see: those with no location, and those that
    name one of its identifiers, cut down to these. *)
Definition detail_for_resource_server (mine : list string) (detail : AuthorizationDetail)
  : option AuthorizationDetail :=
  if list_is_empty (ad_locations detail) then Some detail
  else
    let locations := List.filter (fun at_ => existsb (fun id => id == at_) mine) (ad_locations detail) in
    then_some (negb (list_is_empty locations))
      {| ad_type := ad_type detail; ad_locations := locations; ad_actions := ad_actions detail;
         ad_datatypes := ad_datatypes detail; ad_identifier := ad_identifier detail;
         ad_privileges := ad_privileges detail; ad_other := ad_other detail |}.

Definition details_for_resource_server (details : AuthorizationDetails) (mine : list string)
  : AuthorizationDetails := omap (detail_for_resource_server mine) details.

Section endpoints.
Context `{Crypto, Serde, Backends} (self : AuthorizationServer).
Let cfg := sv_config self.
Let hooks := sv_hooks self.

(** The fold that keeps the first occurrence of each identifier. *)
Definition push_new (acc : list string) (id : string) : list string :=
  if existsb (fun x => x == id) acc then acc else acc ++ [id].

Definition introspection_view (client : Client) (token : IssuedToken) : option IntrospectionView :=
  if it_client_id token == c_client_id client then Some OwningClient
  else
    let registrations := List.filter (fun rs => rsr_client_id rs == c_client_id client)
                           (unwrap_or (cfg_resource_servers cfg) []) in
    let ids := List.filter (fun id => existsb (fun r => r == id) (it_resource token))
                 (flat_map rsr_resources registrations) in
    let mine := foldl push_new [] ids in
    then_some (negb (list_is_empty mine)) (ResourceServer mine).

Definition active_response (t : IssuedToken) (view : IntrospectionView) : IntrospectionResponse := {|
  ir_active := true;
  ir_scope := scope_text (it_scope t);
  ir_client_id := Some (it_client_id t);
  ir_sub := it_subject t;
  ir_token_type := Some (match it_jkt t with Some _ => Dpop | None => Bearer end);
  ir_exp := unix_seconds (it_expires_at t);
  ir_iat := unix_seconds (it_issued_at t);
  ir_iss := Some (issuer_identifier self);
  ir_aud := match view with
            | OwningClient => then_some (negb (list_is_empty (it_resource t))) (it_resource t)
            | ResourceServer mine => Some mine
            end;
  ir_auth_time := it_authentication t ≫= (fun a => unix_seconds (auth_time a));
  ir_acr := it_authentication t ≫= acr;
  ir_authorization_details := match view with
                              | OwningClient => it_authorization_details t
                              | ResourceServer mine =>
                                  details_for_resource_server (it_authorization_details t) mine
                              end;
  ir_cnf := confirmation (it_jkt t) (it_x5t_s256 t);
  ir_act := it_act t |}.

Definition introspection_response (client_id : ClientId) (cred : ClientCredential) (token : string)
  : prog (result IntrospectionResponse ErrorResponse) :=
  let?* client := authenticate_client self client_id cred in
  if is_public (c_auth client) then
    let* _ := emit hooks (ClientAuthenticationFailed client_id NotConfidential) in
    Ret (Err (error_new InvalidClient))
  else
    let* found := introspect token in
    let?! record := map_err storage_error found in
    Ret (Ok (match record with
             | Some t => match introspection_view client t with
                         | Some view => active_response t view
                         | None => inactive
                         end
             | None => inactive
             end)).

(** ** Revocation *)
Definition try_refresh (client : Client) (token : string) : prog (result bool ErrorResponse) :=
  let* found := store (GetRefreshToken token) in
  match found with
  | Ok (Some record) =>
      if rt_client_id record == c_client_id client then
        let* window := revocation_window self in
        let* revoked := store (RevokeTokenFamily (rt_family_id record) window) in
        let cascade_failed := negb (is_ok revoked) in
        let?* _ := store_or storage_error (TakeRefreshToken token) in
        let* _ := emit hooks (TokenRevoked (c_client_id client) HintRefreshToken cascade_failed) in
        Ret (Ok true)
      else Ret (Ok false)
  | Ok None => Ret (Ok false)
  | Err e => Ret (Err (storage_error e))
  end.

Definition try_access (client : Client) (token : string) : prog (result bool ErrorResponse) :=
  let* found := store (GetToken token) in
  match found with
  | Ok (Some t) =>
      if it_client_id t == c_client_id client then
        let?* _ := store_or storage_error (DeleteToken token) in
        let* _ := emit hooks (TokenRevoked (c_client_id client) HintAccessToken false) in
        Ret (Ok true)
      else Ret (Ok false)
  | Ok None => Ret (Ok false)
  | Err e => Ret (Err (storage_error e))
  end.

Definition revoke (client_id : ClientId) (cred : ClientCredential) (token : string)
    (hint : option TokenTypeHint) : prog (result unit ErrorResponse) :=
  let?* client := authenticate_client self client_id cred in
  match hint with
  | Some HintAccessToken =>
      let?* hit := try_access client token in
      if negb hit then let?* _ := try_refresh client token in Ret (Ok tt) else Ret (Ok tt)
  | _ =>
      let?* hit := try_refresh client token in
      if negb hit then let?* _ := try_access client token in Ret (Ok tt) else Ret (Ok tt)
  end.

(** ** Registration by the host *)

(** [{uri:?}]: quoted, with the escapes of [str]'s [Debug]; bytes outside ASCII, which
    [Debug] prints as they are when printable, are left as they are. *)
Definition debug_char (c : ascii) : string :=
  let esc s := String (ascii_of_nat 92) s in
  let n := u8 c in
  if (n =? 34)%N || (n =? 92)%N then esc (String c EmptyString)
  else if (n =? 10)%N then esc "n"
  else if (n =? 13)%N then esc "r"
  else if (n =? 9)%N then esc "t"
  else if (n =? 0)%N then esc "0"
  else if (n <? 16)%N then esc ("u{" +:+ String (Hex.digit n) "}")
  else if (n <? 32)%N || (n =? 127)%N
  then esc ("u{" +:+ String (Hex.digit (N.shiftr n 4)) (String (Hex.digit (N.land n 15)) "}"))
  else String c EmptyString.
Definition debug_str (s : string) : string :=
  let quote := String (ascii_of_nat 34) EmptyString in
  quote +:+ foldr (fun c acc => debug_char c +:+ acc) EmptyString (bytes s) +:+ quote.

Definition register_client (client : Client) : prog (result unit StorageError) :=
  match List.find (fun uri => negb (Uri.is_valid_resource_indicator uri)) (c_redirect_uris client) with
  | Some uri =>
      Ret (Err {| se_message := "redirect_uri " +:+ debug_str uri +:+ " is not registerable: RFC 6749 s3.1.2 requires an absolute URI with no fragment, and the authorization endpoint matches it by exact string, so a registration this server cannot reproduce is a client that can never complete a flow" |})
  | None => store (PutClient client)
  end.

(** ** Consent *)
Definition new_consent (consent_id : string) (client_id : ClientId) (subject : string) (t : SystemTime)
  : ConsentRecord := {|
  cr_consent_id := consent_id; cr_client_id := client_id; cr_subject := subject;
  cr_scope := ScopeSet.empty; cr_resource := []; cr_granted_at := t; cr_authentication := None |}.

Definition with_authentication (r : ConsentRecord) (a : option Authentication) : ConsentRecord := {|
  cr_consent_id := cr_consent_id r; cr_client_id := cr_client_id r; cr_subject := cr_subject r;
  cr_scope := cr_scope r; cr_resource := cr_resource r; cr_granted_at := cr_granted_at r;
  cr_authentication := option_or a (cr_authentication r) |}.

(** The loop [for attempt in 0..2]; [started_as_widen] is set by the first turn. *)
Fixpoint record_consent_loop (attempts : nat) (started_as_widen : option bool) (t : SystemTime)
    (client_id : ClientId) (subject : string) (scope : ScopeSet) (resource : list string)
    (authentication : option Authentication) : prog (result ConsentRecord StorageError) :=
  match attempts with
  | O => Ret (Err {| se_message := "consent record changed concurrently twice; not recorded" |})
  | S attempts' =>
      let?* expected := store (FindConsent client_id subject) in
      if (started_as_widen == Some true) && is_none expected then
        Ret (Err {| se_message := "the consent was withdrawn while it was being recorded" |})
      else
        let started := Some (unwrap_or started_as_widen (is_some expected)) in
        let?* base :=
          (match expected with
           | Some existing => Ret (Ok existing)
           | None =>
               let* drawn := try_random_hex 16 in
               Ret (match drawn with
                    | Some id => Ok (new_consent id client_id subject t)
                    | None => Err {| se_message := "the OS would not provide randomness for a consent id" |}
                    end)
           end) in
        let record := with_authentication (extend base scope resource) authentication in
        let?* swapped := store (CompareAndSwapConsent expected record) in
        if swapped then Ret (Ok record)
        else record_consent_loop attempts' started t client_id subject scope resource authentication
  end.

Definition record_consent (client_id : ClientId) (subject : string) (scope : ScopeSet)
    (resource : list string) (authentication : option Authentication)
  : prog (result ConsentRecord StorageError) :=
  if str_is_empty subject then
    Ret (Err {| se_message := "a consent must name a subject; an empty subject cannot be withdrawn" |})
  else
    let* t := now in
    record_consent_loop 2 None t client_id subject scope resource authentication.

Definition withdraw_consent (consent_id : string) : prog (result Z StorageError) :=
  let?* record := store (GetConsent consent_id) in
  let* window := revocation_window self in
  let?* records_revoked := store (RevokeConsent consent_id window) in
  let* _ := (match record with
             | Some r => emit hooks (ConsentWithdrawn (cr_client_id r) (cr_subject r) records_revoked)
             | None => Ret tt
             end) in
  Ret (Ok records_revoked).

(** ** What introspection discloses *)

(** The identifiers a resource server may introspect for: its own, among the token's. *)
Definition entitled (client : Client) (t : IssuedToken) (id : string) : Prop :=
  id ∈ it_resource t /\
  exists rs, rs ∈ unwrap_or (cfg_resource_servers cfg) [] /\ rsr_client_id rs = c_client_id client /\
    id ∈ rsr_resources rs.

Lemma foldl_push_new ids : forall acc, NoDup acc ->
  NoDup (foldl push_new acc ids) /\ forall x, x ∈ foldl push_new acc ids <-> x ∈ acc \/ x ∈ ids.
Proof.
  induction ids as [|id ids IH]; intros acc Hnd; cbn [foldl]; [split; [done|set_solver]|].
  unfold push_new at 2 4. destruct (existsb (fun x => x == id) acc) eqn:He.
  - destruct (IH acc Hnd) as [? Hm]. split; [done|]. apply existsb_elem in He. set_solver.
  - assert (Hni : id ∉ acc) by (intros Hin%existsb_elem; congruence).
    destruct (IH (acc ++ [id])) as [? Hm]; [apply NoDup_app; split_and!; [done|set_solver|by apply NoDup_singleton]|].
    split; [done|]. set_solver.
Qed.

Lemma introspection_view_spec client t view : introspection_view client t = Some view ->
  match view with
  | OwningClient => it_client_id t = c_client_id client
  | ResourceServer mine =>
      it_client_id t <> c_client_id client /\ NoDup mine /\ mine <> [] /\
      forall id, id ∈ mine <-> entitled client t id
  end.
Proof.
  unfold introspection_view. case_bool_decide as Hown; [by intros [= <-]|].
  set (ids := List.filter _ (flat_map _ _)). destruct (foldl_push_new ids []) as [Hnd Hm]; [constructor|].
  set (mine := foldl push_new [] ids) in *. destruct (list_is_empty mine) eqn:He; [done|]. intros [= <-].
  split_and!; [done|done|by intros ->|]. intros id. rewrite Hm, elem_of_nil. unfold ids, entitled.
  rewrite list_elem_of_In, filter_In, in_flat_map, existsb_elem.
  setoid_rewrite filter_In. setoid_rewrite bool_decide_eq_true. setoid_rewrite <- list_elem_of_In. naive_solver.
Qed.

Lemma details_for_resource_server_spec details mine d :
  d ∈ details_for_resource_server details mine -> forall l, l ∈ ad_locations d -> l ∈ mine.
Proof.
  unfold details_for_resource_server. intros (d0 & Hin & Hd)%list_elem_of_omap l Hl.
  unfold detail_for_resource_server in Hd. destruct (list_is_empty (ad_locations d0)) eqn:He.
  - injection Hd as <-. destruct (ad_locations d0); [by apply elem_of_nil in Hl|done].
  - unfold then_some in Hd. destruct (negb _); [|done]. injection Hd as <-. cbn in Hl.
    apply list_elem_of_In, filter_In in Hl as [_ Hl]. by apply existsb_elem.
Qed.

(** C22. Introspection tells a token's state only to those it concerns.  Every successful
    answer is the bare [active: false], or the caller proved to be a confidential client,
    the token is in the store and unexpired, and either the caller owns it or is a
    registered resource server of at least one of the token's resources; a resource server
    sees as audience exactly the identifiers of its own among the token's, and no
    authorization detail naming a location that is not one of these. *)
Theorem introspection_discloses_to_entitled client_id cred token tr r :
  exec (introspection_response client_id cred token) tr (Ok r) ->
  r = inactive \/
  exists client t now view,
    AStore (GetClient client_id) (Ok (Some client)) ∈ tr /\ credential_proven self client cred tr /\
    is_public (c_auth client) = false /\
    AStore (GetToken token) (Ok (Some t)) ∈ tr /\ ANow now ∈ tr /\ now < it_expires_at t /\
    r = active_response t view /\
    match view with
    | OwningClient => it_client_id t = c_client_id client
    | ResourceServer mine =>
        mine <> [] /\ (forall id, id ∈ mine <-> entitled client t id) /\ ir_aud r = Some mine /\
        (forall d l, d ∈ ir_authorization_details r -> l ∈ ad_locations d -> l ∈ mine)
    end.
Proof.
  unfold introspection_response. intros Hex.
  apply exec_bind_ok in Hex as [(tr1 & tr2 & client & -> & Hauth & Hex)|(? & [=] & _)].
  destruct (is_public (c_auth client)) eqn:Hpub; [by exec_inv|].
  apply exec_bind in Hex as (tr3 & tr4 & found & -> & Hi & Hex).
  apply exec_lift_ok in Hex as [(record & Hf%map_err_ok & [-> [= ->]])|(? & _ & [=] & _)]. subst found.
  destruct record as [t|]; [|by left]. destruct (introspection_view client t) as [view|] eqn:Hv; [|by left].
  right. apply introspect_exec in Hi as (now & Hget' & Hnow & Hlt). apply authenticate_client_exec in Hauth as (Hget & Hproven & _).
  exists client, t, now, view. split_and!; [in_trace| |done|in_trace|in_trace|done|done|].
  - eapply credential_proven_mono; [|done]. intros x Hx. in_trace.
  - apply introspection_view_spec in Hv. destruct view as [|mine]; [done|].
    destruct Hv as (_ & _ & Hne & Hent). split_and!; [done|done|done|]. cbn. intros d l Hd.
    by eapply details_for_resource_server_spec.
Qed.
End endpoints.

(** ** Evaluation *)
Lemma introspection_discloses_to_entitled_witness : exists (tr : list Act) client t view,
  AStore (GetToken "at") (Ok (Some t)) ∈ tr /\
  active_response demo_server demo_access OwningClient = active_response demo_server t view /\
  @credential_proven plain_crypto assertion_serde no_backends demo_server client (demo_cred (Some "s3cret")) tr.
Proof.
  destruct (run_exec demo_env (@introspection_response plain_crypto assertion_serde no_backends demo_server
    "app" (demo_cred (Some "s3cret")) "at") (world_of (demo_token_store Active))) as [tr Htr].
  destruct (@introspection_discloses_to_entitled plain_crypto assertion_serde no_backends demo_server "app"
    (demo_cred (Some "s3cret")) "at" tr (active_response demo_server demo_access OwningClient) Htr)
    as [He|(client & t & now & view & _ & Hp & _ & Hget & _ & _ & Hr & _)]; [discriminate He|].
  by exists tr, client, t, view.
Defined.
