(* ===== verification/Http.v ===== *)
(** * The HTTP surface

    [http.rs]: an [AuthorizationService] takes a request to a response.  The paths are
    those of the published endpoints; each handler decodes its request, calls the server
    and renders the answer, as a program over the same effects.  A resolver or a token
    hook the host supplies is a function of the request's headers.  Serialization is
    [serde_json]'s: a JSON body is kept as the value to be written. *)
From S2P Require Import Prelude Time Codec Scope Types Store Effects Rar Consent Jws Keys Credentials Config ClientAuthn.
From S2P Require Import Registration Issue Device Redirect Authorize Par Grants TokenExchange Endpoints Metadata Form.
Local Open Scope Z_scope.

(** ** Responses *)
Inductive Json : Type :=
| JToken (r : TokenResponse)
| JExchange (r : TokenExchangeResponse)
| JDevice (r : DeviceAuthorizationResponse)
| JPushed (r : PushedAuthorizationResponse)
| JIntrospection (r : IntrospectionResponse)
| JInformation (r : ClientInformation)
| JError (e : ErrorResponse)
| JRegistrationError (e : RegistrationErrorResponse).

(** [serde_json] on what a handler writes and on a registration request. *)
Class HttpSerde := {
  json_to_vec : Json -> option string;
  metadata_to_vec : AuthorizationServerMetadata -> result string string;
  jwks_to_vec : Value -> result string string;
  metadata_from_slice : string -> option ClientMetadata;
}.

Inductive Body : Type := EmptyBody | JsonBody (v : Json) | TextBody (s : string).

Record Response : Type := { rs_status : Z; rs_headers : list (string * string); rs_body : Body }.

(** [HeaderMap::insert]: a value already there is replaced. *)
Definition header_insert (name value : string) (headers : list (string * string)) : list (string * string) :=
  List.filter (fun h => negb (fst h == name)) headers ++ [(name, value)].
Definition response_header (r : Response) (name : string) : option string :=
  snd <$> List.find (fun h => fst h == name) (rs_headers r).

Definition respond (status : Z) (body : Body) : Response :=
  {| rs_status := status; rs_headers := []; rs_body := body |}.
Definition with_header (name value : string) (r : Response) : Response :=
  {| rs_status := rs_status r; rs_headers := header_insert name value (rs_headers r); rs_body := rs_body r |}.

Definition json_content_type : string := "application/json;charset=UTF-8".
Definition jwks_content_type : string := "application/jwk-set+json".
Definition html_content_type : string := "text/html;charset=UTF-8".

Definition no_store (r : Response) : Response :=
  with_header "pragma" "no-cache" (with_header "cache-control" "no-store, no-cache, max-age=0" r).

Definition json_response (status : Z) (v : Json) : Response :=
  no_store (with_header "content-type" json_content_type (respond status (JsonBody v))).
Definition ok_json (v : Json) : Response := json_response 200 v.

Definition error_response (err : ErrorResponse) (via_header : bool) (challenge : string) : Response :=
  let status := error_http_status (error err) in
  let status := if (status =? 401) && negb via_header then 400 else status in
  let resp := json_response status (JError err) in
  if status =? 401 then with_header "www-authenticate" challenge resp else resp.

Definition html_response (status : Z) (body : string) : Response :=
  with_header "referrer-policy" "no-referrer"
    (with_header "x-content-type-options" "nosniff"
      (with_header "x-frame-options" "DENY"
        (with_header "content-security-policy"
           "default-src 'none'; form-action 'self'; base-uri 'none'; frame-ancestors 'none'"
          (no_store (with_header "content-type" html_content_type (respond status (TextBody body))))))).

Definition text_response (status : Z) (body : string) : Response :=
  with_header "content-type" "text/plain;charset=UTF-8" (respond status (TextBody body)).
Definition too_many_parameters : Response := text_response 413 "request carries too many parameters".

(** ** Bodies *)
Definition MAX_BODY_BYTES : Z := 64 * 1024.

(** A frame of a request body: data, trailers, or an error of the transport. *)
Inductive Frame : Type := DataFrame (data : string) | TrailersFrame | FailedFrame.
Record BodyStream : Type := { bs_lower : Z; bs_frames : list Frame }.
Inductive BodyError : Type := TooLarge | Incomplete.

Definition body_error (e : BodyError) : Response :=
  match e with
  | TooLarge => text_response 413 "request body exceeds this server's limit"
  | Incomplete => text_response 400 "request body was not received"
  end.

(** The loop of [collect_body]. *)
Fixpoint collect_frames (limit : Z) (collected : string) (frames : list Frame) : result string BodyError :=
  match frames with
  | [] => Ok collected
  | FailedFrame :: _ => Err Incomplete
  | TrailersFrame :: rest => collect_frames limit collected rest
  | DataFrame data :: rest =>
      if Z.of_nat (str_len collected) + Z.of_nat (str_len data) >? limit then Err TooLarge
      else collect_frames limit (collected +:+ data) rest
  end.
Definition collect_body (body : BodyStream) (limit : Z) : result string BodyError :=
  if bs_lower body >? limit then Err TooLarge else collect_frames limit EmptyString (bs_frames body).

(** ** Routes *)
Inductive ServiceError : Type :=
| EndpointOutsideIssuer (endpoint url : string)
| DuplicatePath (path : string)
| MetadataNotSerializable (detail : string)
| JwksNotSerializable (detail : string).

Definition endpoint_path (issuer endpoint url : string) : result string ServiceError :=
  match strip_prefix issuer url with
  | Some (String "/" _ as rest) => Ok (encode_route_path (issuer_path issuer +:+ rest))
  | _ => Err (EndpointOutsideIssuer endpoint url)
  end.

(** The index just past the scheme separator. *)
Definition authority_at (issuer : string) : nat :=
  match after_first "://" issuer with
  | Some rest => str_len issuer - str_len rest
  | None => 0
  end.
Definition issuer_origin (issuer : string) : string :=
  match find_char "/" (drop_str (authority_at issuer) issuer) with
  | Some i => take_str (authority_at issuer + i) issuer
  | None => issuer
  end.

Record Routes : Type := {
  ro_well_known : string;
  ro_authorize : string;
  ro_token : string;
  ro_device : string;
  ro_introspect : option string;
  ro_revoke : option string;
  ro_verification : option string;
  ro_register : option string;
  ro_manage : option string;
  ro_par : option string;
  ro_jwks : option string;
}.

Inductive Route : Type :=
| RouteMetadata | RouteAuthorize | RouteToken | RouteDevice | RouteIntrospect | RouteRevoke | RouteVerification
| RouteRegister | RouteManage (client_id : string) | RoutePar | RouteJwks.
#[global] Instance Route_eq_dec : EqDecision Route. Proof. solve_decision. Defined.

Definition resolve (self : Routes) (path : string) : option Route :=
  if path == ro_well_known self then Some RouteMetadata
  else if path == ro_authorize self then Some RouteAuthorize
  else if path == ro_token self then Some RouteToken
  else if path == ro_device self then Some RouteDevice
  else if ro_introspect self == Some path then Some RouteIntrospect
  else if ro_revoke self == Some path then Some RouteRevoke
  else if ro_verification self == Some path then Some RouteVerification
  else if ro_register self == Some path then Some RouteRegister
  else if ro_par self == Some path then Some RoutePar
  else if ro_jwks self == Some path then Some RouteJwks
  else match ro_manage self with
       | None => None
       | Some prefix =>
           match strip_prefix prefix path with
           | None => None
           | Some rest =>
               if negb (str_is_empty rest) && negb (contains_char "/" rest) then Some (RouteManage rest) else None
           end
       end.

Definition allowed (route : Route) : string :=
  match route with
  | RouteMetadata | RouteAuthorize | RouteJwks => "GET, HEAD"
  | RouteToken | RouteDevice | RouteIntrospect | RouteRevoke | RouteRegister | RoutePar => "POST"
  | RouteVerification => "GET, HEAD, POST"
  | RouteManage _ => "GET, HEAD, PUT, DELETE"
  end.

(** ** The service *)
Record Uri : Type := { uri_path : string; uri_query : option string }.

Section service.
Context `{HttpLib}.

(** [Respond] carries the host's own response: its status, headers and body. *)
Inductive ApprovalDecision : Type :=
| Approve
| DenyApproval
| ApproveAndRemember
| Respond (status : Z) (headers : list (string * string)) (body : string).

Record ApprovalRequest : Type := {
  apr_headers : HeaderMap;
  apr_subject : string;
  apr_client_id : ClientId;
  apr_scope : ScopeSet;
  apr_redirect_uri : string;
  apr_state : option string;
  apr_resource : list string;
  apr_authorization_details : AuthorizationDetails;
  apr_uri : Uri;
  apr_remembered : option ConsentRecord;
}.

Inductive VerificationProtection : Type :=
| Unwired
| CsrfTokens (issue consume : HeaderMap -> option string)
| Disabled.

Record ServiceBuilder : Type := {
  sb_server : AuthorizationServer;
  sb_subject : option (HeaderMap -> option string);
  sb_approval : option (ApprovalRequest -> ApprovalDecision);
  sb_authentication : option (HeaderMap -> option Authentication);
  sb_verification : VerificationProtection;
}.

Record Inner : Type := {
  in_server : AuthorizationServer;
  in_metadata : string;
  in_jwks : option string;
  in_challenge : string;
  in_origin : string;
  in_subject : option (HeaderMap -> option string);
  in_approval : option (ApprovalRequest -> ApprovalDecision);
  in_authentication : option (HeaderMap -> option Authentication);
  in_verification : VerificationProtection;
  in_routes : Routes;
}.

Definition inner_subject (self : Inner) (headers : HeaderMap) : option string :=
  in_subject self ≫= (fun f => f headers).

Definition builder_new (server : AuthorizationServer) : ServiceBuilder := {|
  sb_server := server; sb_subject := None; sb_approval := None; sb_authentication := None;
  sb_verification := Unwired |}.
Definition with_subject_resolver (resolver : HeaderMap -> option string) (b : ServiceBuilder) : ServiceBuilder := {|
  sb_server := sb_server b; sb_subject := Some resolver; sb_approval := sb_approval b;
  sb_authentication := sb_authentication b; sb_verification := sb_verification b |}.
Definition with_approval_resolver (resolver : ApprovalRequest -> ApprovalDecision) (b : ServiceBuilder)
  : ServiceBuilder := {|
  sb_server := sb_server b; sb_subject := sb_subject b; sb_approval := Some resolver;
  sb_authentication := sb_authentication b; sb_verification := sb_verification b |}.
Definition with_authentication_reporter (reporter : HeaderMap -> option Authentication) (b : ServiceBuilder)
  : ServiceBuilder := {|
  sb_server := sb_server b; sb_subject := sb_subject b; sb_approval := sb_approval b;
  sb_authentication := Some reporter; sb_verification := sb_verification b |}.
Definition with_csrf_tokens (issue consume : HeaderMap -> option string) (b : ServiceBuilder) : ServiceBuilder := {|
  sb_server := sb_server b; sb_subject := sb_subject b; sb_approval := sb_approval b;
  sb_authentication := sb_authentication b; sb_verification := CsrfTokens issue consume |}.
Definition dangerously_disable_verification_protections (b : ServiceBuilder) : ServiceBuilder := {|
  sb_server := sb_server b; sb_subject := sb_subject b; sb_approval := sb_approval b;
  sb_authentication := sb_authentication b; sb_verification := Disabled |}.
End service.

(** ** Building the service *)
Definition q : string := String QUOTE EmptyString.
Definition basic_challenge (realm : string) : string := "Basic realm=" +:+ q +:+ realm +:+ q.

(** The document the router serves: it terminates no TLS, so it offers no certificates. *)
Definition without_mtls (m : AuthorizationServerMetadata) : AuthorizationServerMetadata := {|
  md_issuer := md_issuer m; md_authorization_endpoint := md_authorization_endpoint m;
  md_token_endpoint := md_token_endpoint m;
  md_device_authorization_endpoint := md_device_authorization_endpoint m;
  md_introspection_endpoint := md_introspection_endpoint m;
  md_revocation_endpoint := md_revocation_endpoint m; md_registration_endpoint := md_registration_endpoint m;
  md_jwks_uri := md_jwks_uri m; md_scopes_supported := md_scopes_supported m;
  md_pushed_authorization_request_endpoint := md_pushed_authorization_request_endpoint m;
  md_require_pushed_authorization_requests := md_require_pushed_authorization_requests m;
  md_request_object_signing_alg_values_supported := md_request_object_signing_alg_values_supported m;
  md_require_signed_request_object := md_require_signed_request_object m;
  md_response_types_supported := md_response_types_supported m;
  md_response_modes_supported := md_response_modes_supported m;
  md_grant_types_supported := md_grant_types_supported m;
  md_token_endpoint_auth_methods_supported :=
    List.filter (fun x => (x != "tls_client_auth") && (x != "self_signed_tls_client_auth"))
      (md_token_endpoint_auth_methods_supported m);
  md_token_endpoint_auth_signing_alg_values_supported := md_token_endpoint_auth_signing_alg_values_supported m;
  md_dpop_signing_alg_values_supported := md_dpop_signing_alg_values_supported m;
  md_code_challenge_methods_supported := md_code_challenge_methods_supported m;
  md_service_documentation := md_service_documentation m; md_protected_resources := md_protected_resources m;
  md_authorization_details_types_supported := md_authorization_details_types_supported m;
  md_client_id_metadata_document_supported := md_client_id_metadata_document_supported m;
  md_authorization_response_iss_parameter_supported := md_authorization_response_iss_parameter_supported m;
  md_tls_client_certificate_bound_access_tokens := false |}.

(** The path of an endpoint that may not be published. *)
Definition optional_path (issuer endpoint : string) (url : option string) : result (option string) ServiceError :=
  match url with
  | Some u => let? p := endpoint_path issuer endpoint u in Ok (Some p)
  | None => Ok None
  end.

(** The first path that comes again later in the list. *)
Fixpoint first_duplicate (paths : list string) : option string :=
  match paths with
  | [] => None
  | p :: rest => if existsb (fun x => x == p) rest then Some p else first_duplicate rest
  end.

Definition of_option {A} (o : option A) : list A := match o with Some a => [a] | None => [] end.

(** The paths of a configuration, before they are checked against each other. *)
Definition build_routes (config : ServerConfig) (meta : AuthorizationServerMetadata)
  : result (Routes * option string) ServiceError :=
  let issuer := md_issuer meta in
  let? authorize := endpoint_path issuer "authorization_endpoint" (md_authorization_endpoint meta) in
  let? token := endpoint_path issuer "token_endpoint" (md_token_endpoint meta) in
  let? device := endpoint_path issuer "device_authorization_endpoint" (md_device_authorization_endpoint meta) in
  let? introspect := endpoint_path issuer "introspection_endpoint"
                       (unwrap_or (cfg_introspection_endpoint config) (issuer +:+ "/introspect")) in
  let? revoke := optional_path issuer "revocation_endpoint" (md_revocation_endpoint meta) in
  let? register := optional_path issuer "registration_endpoint" (md_registration_endpoint meta) in
  let manage_prefix :=
    if is_some_and (cfg_registration config) rc_management_enabled then (fun p => p +:+ "/") <$> register else None in
  let manage := (fun p => p +:+ "{client_id}") <$> manage_prefix in
  let verification := match endpoint_path issuer "verification_uri" (cfg_verification_uri config) with
                      | Ok p => Some p
                      | Err _ => None
                      end in
  let? par := optional_path issuer "pushed_authorization_request_endpoint"
                (md_pushed_authorization_request_endpoint meta) in
  let? jwks_path := optional_path issuer "jwks_uri" (md_jwks_uri meta) in
  Ok ({| ro_well_known := encode_route_path (well_known_path issuer); ro_authorize := authorize;
         ro_token := token; ro_device := device; ro_introspect := Some introspect; ro_revoke := revoke;
         ro_verification := verification; ro_register := register; ro_manage := manage_prefix;
         ro_par := par; ro_jwks := jwks_path |}, manage).

Definition route_paths (routes : Routes) (manage : option string) : list string :=
  [ro_well_known routes; ro_authorize routes; ro_token routes; ro_device routes]
  ++ of_option (ro_introspect routes) ++ of_option (ro_revoke routes) ++ of_option (ro_verification routes)
  ++ of_option (ro_register routes) ++ of_option manage ++ of_option (ro_par routes) ++ of_option (ro_jwks routes).

Section build.
Context `{Backends, HttpLib, HttpSerde}.

Definition build (self : ServiceBuilder) : result Inner ServiceError :=
  let config := sv_config (sb_server self) in
  let meta := without_mtls (metadata (sb_server self)) in
  let issuer := md_issuer meta in
  let? routed := build_routes config meta in
  let (routes, manage) := routed : Routes * option string in
  let? jwks := match ro_jwks routes, cfg_access_token_format config with
               | Some _, JwtFormat jwt =>
                   let? keys := map_err JwksNotSerializable (jwks_to_vec (jwks_to_value (jwks jwt))) in Ok (Some keys)
               | _, _ => Ok None
               end in
  let? document := map_err MetadataNotSerializable (metadata_to_vec meta) in
  match first_duplicate (route_paths routes manage) with
  | Some path => Err (DuplicatePath path)
  | None =>
      Ok {| in_server := sb_server self; in_metadata := document; in_jwks := jwks;
            in_challenge := unwrap_or (header_from_str (basic_challenge (escape_quoted_string issuer)))
                              (basic_challenge "oauth");
            in_origin := issuer_origin issuer; in_subject := sb_subject self; in_approval := sb_approval self;
            in_authentication := sb_authentication self; in_verification := sb_verification self;
            in_routes := routes |}
  end.
End build.

(** ** Handlers *)
Definition token_hint_parse (s : string) : option TokenTypeHint :=
  if s == "access_token" then Some HintAccessToken
  else if s == "refresh_token" then Some HintRefreshToken
  else None.

Section handlers.
Context `{Crypto, Serde, Backends, HttpLib, HttpSerde} (state : Inner).
Let server := in_server state.
Let hooks := sv_hooks server.

Definition refuse (e : ErrorResponse) (via_header : bool) : Response :=
  error_response e via_header (in_challenge state).

(** The form of a body, or the refusal of one with too many parameters. *)
Definition with_form (text : string) (k : list Pair -> prog Response) : prog Response :=
  match parse_pairs text with
  | Err _ => Ret too_many_parameters
  | Ok form => k form
  end.
(** [match r { Ok(v) => v, Err(e) => return error_response(..) }] *)
Definition or_refuse {A} (r : result A ErrorResponse) (via_header : bool) (k : A -> prog Response) : prog Response :=
  match r with
  | Err e => Ret (refuse e via_header)
  | Ok a => k a
  end.
Definition render {A} (r : result A ErrorResponse) (ok : A -> Response) (via_header : bool) : Response :=
  match r with
  | Ok a => ok a
  | Err e => refuse e via_header
  end.

Definition metadata_handler : Response :=
  with_header "content-type" json_content_type (respond 200 (TextBody (in_metadata state))).
Definition jwks_handler : Response :=
  match in_jwks state with
  | Some keys => with_header "content-type" jwks_content_type (respond 200 (TextBody keys))
  | None => respond 404 EmptyBody
  end.

Definition dpop_proof_header (headers : HeaderMap) (via_header : bool) : prog (result (option string) Response) :=
  let refused why :=
    let* _ := emit hooks (DpopProofRefused DFMalformed) in
    Ret (Err (refuse (with_description (error_new InvalidDpopProof) why) via_header)) in
  match header_get_all headers "dpop" with
  | [] => Ret (Ok None)
  | [v] => match header_to_str v with
           | Some value => Ret (Ok (Some value))
           | None => refused "the DPoP header is not a compact JWS"
           end
  | _ => refused "more than one DPoP header (RFC 9449 s4.3)"
  end.

Definition token_type (refusal value : string) : result TokenTypeIdentifier ErrorResponse :=
  ok_or (token_type_parse value) (with_description (error_new InvalidRequest) refusal).
(** [param(..).map(..).transpose()] *)
Definition optional_token_type (refusal : string) (value : option string)
  : result (option TokenTypeIdentifier) ErrorResponse :=
  match value with
  | None => Ok None
  | Some v => let? t := token_type refusal v in Ok (Some t)
  end.

Definition exchange_request (form : list Pair) (client_id : ClientId) (creds : Credentials)
  : result TokenExchangeRequest ErrorResponse :=
  let? _ := match refuse_authorization_details form with Some refusal => Err refusal | None => Ok tt end in
  let? subject_token := required form "subject_token" in
  let? subject_token_type :=
    let? v := required form "subject_token_type" in
    token_type "subject_token_type is not a token type RFC 8693 s3 registers" v in
  let? actor_token_type := optional_token_type "actor_token_type is not a token type RFC 8693 s3 registers"
                             (param form "actor_token_type") in
  let? requested_token_type :=
    optional_token_type "requested_token_type is not a token type RFC 8693 s3 registers"
      (param form "requested_token_type") in
  let? scope := optional_scope form in
  Ok {| te_client_id := client_id; te_client_secret := hc_client_secret creds;
        te_client_assertion_type := hc_client_assertion_type creds;
        te_client_assertion := hc_client_assertion creds; te_subject_token := subject_token;
        te_subject_token_type := subject_token_type; te_actor_token := param form "actor_token";
        te_actor_token_type := actor_token_type; te_resource := resource_indicators form;
        te_audience := all_params form "audience"; te_scope := scope;
        te_requested_token_type := requested_token_type |}.

Definition token_exchange_response (form : list Pair) (client_id : ClientId) (creds : Credentials)
    (via_header : bool) : prog Response :=
  or_refuse (exchange_request form client_id creds) via_header (fun request =>
    let* outcome := exchange_token server request in
    Ret (render outcome (fun x => ok_json (JExchange (xt_response x))) via_header)).

(** The request of a grant, [None] for the token exchange. *)
Definition token_request (grant : GrantType) (form : list Pair) (client_id : ClientId)
  : result (option TokenRequest) ErrorResponse :=
  match grant with
  | AuthorizationCode =>
      let? code := required form "code" in
      Ok (Some (TRAuthorizationCode client_id None code (param form "redirect_uri") (param form "code_verifier")))
  | ClientCredentials =>
      let? scope := optional_scope form in
      Ok (Some (TRClientCredentials client_id None scope))
  | DeviceCode =>
      let? device_code := required form "device_code" in
      Ok (Some (TRDeviceCode client_id None device_code))
  | RefreshToken =>
      let? refresh_token := required form "refresh_token" in
      let? scope := optional_scope form in
      Ok (Some (TRRefreshToken client_id None refresh_token scope))
  | TokenExchange => Ok None
  end.

(** The grant a token request names. *)
Definition requested_grant (form : list Pair) : result GrantType ErrorResponse :=
  match param form "grant_type" with
  | None => Err (with_description (error_new InvalidRequest) "missing required parameter grant_type")
  | Some value => ok_or (grant_parse value) (with_description (error_new UnsupportedGrantType)
                    "this server does not implement the requested grant")
  end.

Definition token_handler (headers : HeaderMap) (body : string) : prog Response :=
  let via_header := basic_attempted headers in
  with_form (from_utf8_lossy body) (fun form =>
  or_refuse (requested_grant form) via_header (fun grant =>
  or_refuse (credentials headers form) via_header (fun creds =>
  let client_id := hc_client_id creds in
  let* proof := dpop_proof_header headers via_header in
  match proof with
  | Err response => Ret response
  | Ok dpop_proof =>
      or_refuse (token_request grant form client_id) via_header (fun request =>
      match request with
      | None =>
          if is_some dpop_proof then
            let* _ := emit hooks (DpopProofRefused DFNotAcceptedHere) in
            Ret (refuse (with_description (error_new InvalidDpopProof)
              "this server does not issue sender-constrained tokens through RFC 8693 token exchange") via_header)
          else token_exchange_response form client_id creds via_header
      | Some request =>
          let context := {| ctx_credential := credential creds; ctx_resources := resource_indicators form;
                            ctx_authorization_details := param form "authorization_details";
                            ctx_dpop_proof := dpop_proof |} in
          let* outcome := token_with_context server request context in
          Ret (render outcome (fun r => ok_json (JToken r)) via_header)
      end)
  end))).

Definition device_authorization_handler (headers : HeaderMap) (body : string) : prog Response :=
  let via_header := basic_attempted headers in
  with_form (from_utf8_lossy body) (fun form =>
  match refuse_authorization_details form with
  | Some refusal => Ret (refuse refusal via_header)
  | None =>
      or_refuse (credentials headers form) via_header (fun creds =>
      or_refuse (optional_scope form) via_header (fun scope =>
      let* outcome := device_authorization server (hc_client_id creds) (credential creds) scope in
      Ret (render outcome (fun r => ok_json (JDevice r)) via_header)))
  end).

Definition pushed_authorization_handler (headers : HeaderMap) (body : string) : prog Response :=
  let via_header := basic_attempted headers in
  with_form (from_utf8_lossy body) (fun form =>
  or_refuse (pushed_request_credentials headers form) via_header (fun creds =>
  let* proof := dpop_proof_header headers via_header in
  match proof with
  | Err response => Ret response
  | Ok dpop_proof =>
      let* outcome := pushed_authorization_request_with_credential_and_proof server (hc_client_id creds)
                        (credential creds) form dpop_proof in
      Ret (render outcome (fun r => json_response 201 (JPushed r)) via_header)
  end)).

Definition introspect_handler (headers : HeaderMap) (body : string) : prog Response :=
  let via_header := basic_attempted headers in
  with_form (from_utf8_lossy body) (fun form =>
  or_refuse (credentials headers form) via_header (fun creds =>
  or_refuse (required form "token") via_header (fun token =>
  let* outcome := introspection_response server (hc_client_id creds) (credential creds) token in
  Ret (render outcome (fun r => ok_json (JIntrospection r)) via_header)))).

Definition revoke_handler (headers : HeaderMap) (body : string) : prog Response :=
  let via_header := basic_attempted headers in
  with_form (from_utf8_lossy body) (fun form =>
  or_refuse (credentials headers form) via_header (fun creds =>
  or_refuse (required form "token") via_header (fun token =>
  let hint := param form "token_type_hint" ≫= token_hint_parse in
  let* outcome := revoke server (hc_client_id creds) (credential creds) token hint in
  Ret (render outcome (fun _ => no_store (respond 200 EmptyBody)) via_header)))).
End handlers.
