(* ===== verification/Surface.v ===== *)
(** * The HTTP surface: registration, authorization, the verification page and dispatch

    The rest of [http.rs]: the dynamic registration handlers, [authorize_handler], the page a
    user enters a device code on, and [AuthorizationService::handle], which routes a request
    to its handler. *)
From S2P Require Import Prelude Time Codec Scope Types Store StoreFacts Effects Trace Ops Rar Consent Jws Credentials.
From S2P Require Import Config ClientAuthn Registration Issue Device Redirect Authorize Par Grants TokenExchange.
From S2P Require Import Endpoints Metadata Form Http.
Local Open Scope Z_scope.

(** A literal of the source, written with an apostrophe for each double quote. *)
Definition dq (s : string) : string :=
  of_bytes (map (fun c => if Ascii.eqb c "'" then QUOTE else c) (bytes s)).

(** ** Pages *)
Definition PAGE_HEAD : string :=
  dq "<!DOCTYPE html><html lang='en'><head><meta charset='utf-8'>" +:+
  dq "<meta name='viewport' content='width=device-width,initial-scale=1'>" +:+
  "<title>Device authorization</title></head><body><h1>Device authorization</h1>".

Definition verification_message (message : string) : string :=
  dq "<!DOCTYPE html><html lang='en'><head><meta charset='utf-8'>" +:+
  "<title>Device authorization</title></head><body><p>" +:+
  escape_html message +:+ "</p></body></html>".

Definition verification_page (prefill : string) (message : option string)
    (grant : option (DeviceGrant * option string)) (csrf : option string) : string :=
  PAGE_HEAD +:+
  (match message with
   | Some message => "<p>" +:+ escape_html message +:+ "</p>"
   | None => EmptyString
   end) +:+
  dq "<form method='post'>" +:+
  (match csrf with
   | Some token => dq "<input type='hidden' name='csrf_token' value='" +:+ escape_html token +:+ dq "'>"
   | None => EmptyString
   end) +:+
  (match grant with
   | None =>
       dq "<label for='user_code'>Code shown on your device</label>" +:+
       dq "<input id='user_code' name='user_code' autocomplete='off' spellcheck='false' value='" +:+
       escape_html prefill +:+ dq "'><button type='submit'>Continue</button>"
   | Some (grant, name) =>
       "<p>The application <strong>" +:+ escape_html (unwrap_or name (dg_client_id grant)) +:+
       "</strong> (<code>" +:+ escape_html (dg_client_id grant) +:+
       "</code>) is asking to access your account.</p><p>It will be allowed: " +:+
       (let scope := ScopeSet.display (dg_scope grant) in
        if str_is_empty scope then "no scopes" else escape_html scope) +:+
       "</p><p>Code on your device: <code>" +:+ escape_html (dg_user_code grant) +:+
       dq "</code></p><input type='hidden' name='user_code' value='" +:+ escape_html (dg_user_code grant) +:+
       dq "'><button type='submit' name='action' value='approve'>Approve</button>" +:+
       dq "<button type='submit' name='action' value='deny'>Deny</button>"
   end) +:+
  "</form></body></html>".

Definition THROTTLED_MESSAGE : string := "Too many attempts. Wait and try again.".
Definition NOT_CONFIGURED : string :=
  "This server is not configured to accept device approvals. The host must supply CSRF tokens (RFC 6749 s10.12).".

(** How a code came to be looked up: not yet charged to the limiter, charged, or refused. *)
Inductive CodeEntry : Type := Uncharged | AlreadyCharged | Refused.
#[global] Instance CodeEntry_eq_dec : EqDecision CodeEntry. Proof. solve_decision. Defined.

(** ** Registration responses *)
Definition registration_error (failure : RegistrationFailure) : Response :=
  let status := registration_http_status failure in
  let resp := no_store (match failure with
                        | RFInvalid body =>
                            with_header "content-type" json_content_type
                              (respond status (JsonBody (JRegistrationError body)))
                        | _ => respond status EmptyBody
                        end) in
  if status =? 401 then with_header "www-authenticate" "Bearer" resp else resp.

Definition unwired (why : string) : Response :=
  no_store (with_header "content-type" json_content_type
    (respond 403 (JsonBody (JError (with_description (error_new AccessDenied) why))))).

Definition get_query (uri : Uri) : string := unwrap_or (uri_query uri) EmptyString.

Section surface.
Context `{Crypto, Serde, Backends, HttpLib, HttpSerde}.

Definition redirect (location : string) : Response :=
  match header_from_str location with
  | Some value => no_store (with_header "location" value (respond 302 EmptyBody))
  | None => error_response (error_new ServerError) false (basic_challenge "oauth")
  end.

Definition constant_time_eq (a b : string) : bool :=
  (xor_acc 0 (bytes (sha256 a)) (bytes (sha256 b)) =? 0)%N.

Definition client_metadata (body : string) : result ClientMetadata Response :=
  ok_or (metadata_from_slice body)
    (registration_error (RFInvalid (registration_error_new InvalidClientMetadata
       "the request body is not an RFC 7591 s2 client metadata JSON object"))).

Section handlers.
Context (state : Inner).
Let server := in_server state.
Let hooks := sv_hooks server.

(** ** Dynamic registration *)
Definition information_response (status : Z) (r : result ClientInformation RegistrationFailure) : Response :=
  match r with
  | Ok info => json_response status (JInformation info)
  | Err e => registration_error e
  end.

Definition register_handler (headers : HeaderMap) (body : string) : prog Response :=
  let* admitted := admit_registration server in
  match admitted with
  | Err e => Ret (registration_error e)
  | Ok _ =>
      match client_metadata body with
      | Err response => Ret response
      | Ok metadata =>
          let* registered := register_admitted_client server metadata (bearer_token headers) in
          Ret (information_response 201 registered)
      end
  end.

Definition read_registration_handler (headers : HeaderMap) (client_id : string) : prog Response :=
  let token := unwrap_or (bearer_token headers) EmptyString in
  let* read := read_registration server client_id token in
  Ret (information_response 200 read).

Definition update_registration_handler (headers : HeaderMap) (client_id body : string) : prog Response :=
  let token := unwrap_or (bearer_token headers) EmptyString in
  let* authenticated := authenticate_registration server client_id token in
  match authenticated with
  | Err e => Ret (registration_error e)
  | Ok _ =>
      match client_metadata body with
      | Err response => Ret response
      | Ok metadata =>
          let* updated := update_registration server client_id token metadata in
          Ret (information_response 200 updated)
      end
  end.

Definition delete_registration_handler (headers : HeaderMap) (client_id : string) : prog Response :=
  let token := unwrap_or (bearer_token headers) EmptyString in
  let* deleted := delete_registration server client_id token in
  Ret (match deleted with
       | Ok _ => no_store (respond 204 EmptyBody)
       | Err e => registration_error e
       end).

(** ** Authorization *)
Definition resolve_authorization_request (pairs : list Pair)
  : prog (result ValidatedAuthorizationRequest AuthorizationError) :=
  let by_reference := param pairs "request_uri" in
  let by_value := param pairs "request" in
  if is_some by_reference && is_some by_value then
    Ret (Err (direct InvalidRequest "request and request_uri must not both be sent (RFC 9101 s5)"))
  else if is_some by_reference || is_some by_value then
    match param pairs "client_id" with
    | None => Ret (Err (direct InvalidRequest "client_id is required (RFC 9126 s4, RFC 9101 s5)"))
    | Some client_id =>
        match by_reference, by_value with
        | Some request_uri, _ => validate_pushed_authorization_request server client_id request_uri
        | None, Some request_object => validate_signed_authorization_request server client_id request_object
        | None, None => validate_authorization_request server (from_pairs pairs)
        end
    end
  else validate_authorization_request server (from_pairs pairs).

Definition authorization_error (e : AuthorizationError) : Response :=
  match e with
  | Direct e => error_response e false (in_challenge state)
  | Redirect r => redirect (error_location r)
  end.

(** [UserApproval::granted_at] *)
Definition granted_at (request : ValidatedAuthorizationRequest) (subject : string) (decided_at : SystemTime)
  : UserApproval := {| ua_request := request; ua_subject := subject; ua_decided_at := Some decided_at |}.

(** [AuthorizationServer::remembered_consent] *)
Definition remembered_consent (client_id : ClientId) (subject : string)
  : prog (result (option ConsentRecord) StorageError) := store (FindConsent client_id subject).

(** The code of an approved request, and the consent when the user asked to be remembered. *)
Definition approved (validated : ValidatedAuthorizationRequest) (subject : string) (received_at : SystemTime)
    (remember : bool) (headers : HeaderMap) : prog Response :=
  let authentication := in_authentication state ≫= (fun f => f headers) in
  let* issued := issue_authorization_code_with_authentication server (granted_at validated subject received_at)
                   (va_authentication_requirement validated) authentication in
  let* _ := (if remember && is_ok issued then
               let* _ := record_consent (va_client_id validated) subject (va_scope validated)
                           (va_resource validated) authentication in
               Ret tt
             else Ret tt) in
  Ret (match issued with
       | Ok response => redirect (response_location response (va_redirect_uri validated))
       | Err e => authorization_error e
       end).

(** What the approval step is shown. *)
Definition approval_request (headers : HeaderMap) (uri : Uri) (subject : string)
    (validated : ValidatedAuthorizationRequest) (remembered : option ConsentRecord) : ApprovalRequest := {|
  apr_headers := headers; apr_subject := subject; apr_client_id := va_client_id validated;
  apr_scope := va_scope validated; apr_redirect_uri := va_redirect_uri validated;
  apr_state := va_state validated; apr_resource := va_resource validated;
  apr_authorization_details := va_authorization_details validated; apr_uri := uri;
  apr_remembered := remembered |}.

Definition authorize_handler (headers : HeaderMap) (uri : Uri) : prog Response :=
  let* received_at := now in
  with_form (get_query uri) (fun pairs =>
  let* resolved := resolve_authorization_request pairs in
  match resolved with
  | Err e => Ret (authorization_error e)
  | Ok validated =>
      match inner_subject state headers with
      | None =>
          Ret (unwired (if is_some (in_subject state)
                        then "no authenticated resource owner: nobody is signed in for this request"
                        else "no authenticated resource owner; the host must supply a subject resolver"))
      | Some subject =>
          let* looked_up := remembered_consent (va_client_id validated) subject in
          let remembered := match looked_up with Ok r => r | Err _ => None end in
          match in_approval state with
          | None => Ret (unwired
              "no approval step is configured; the host must supply an approval resolver (RFC 6749 s10.12)")
          | Some resolver =>
              match resolver (approval_request headers uri subject validated remembered) with
              | Approve => approved validated subject received_at false headers
              | ApproveAndRemember => approved validated subject received_at true headers
              | DenyApproval => Ret (redirect (error_location (denied validated)))
              | Respond status host_headers body =>
                  Ret {| rs_status := status; rs_headers := host_headers; rs_body := TextBody body |}
              end
          end
      end
  end).

(** ** The verification page *)
Definition pending_grant (entered_user_code : string) (entry : CodeEntry)
  : prog (option (option (DeviceGrant * option string))) :=
  let* admitted := (match entry with
                    | Refused => Ret false
                    | Uncharged => let* d := hook_check hooks DeviceUserCodeEntry in Ret (d != Deny)
                    | AlreadyCharged => Ret true
                    end) in
  if negb admitted then Ret None
  else
    let normalized := UserCode.normalize_user_code entered_user_code in
    let* found := store (FindDeviceGrantByUserCode normalized) in
    let grant := match found with
                 | Ok (Some g) => then_some (dg_state g == Pending) g
                 | _ => None
                 end in
    let* _ := (if entry == Uncharged
               then hook_record hooks DeviceUserCodeEntry (if is_some grant then Succeeded else Failed)
               else Ret tt) in
    match grant with
    | None => Ret (Some None)
    | Some grant =>
        let* client := store (GetClient (dg_client_id grant)) in
        let name := match client with
                    | Ok (Some c) => c_name c
                    | _ => None
                    end in
        Ret (Some (Some (grant, name)))
    end.

Definition page_status (entered : string) (status : Z) (message : option string)
    (looked_up : option (option (DeviceGrant * option string))) : Z * option string :=
  match message, looked_up with
  | Some m, _ => (status, Some m)
  | None, None => (429, Some THROTTLED_MESSAGE)
  | None, Some None => if negb (str_is_empty entered) then (status, Some "That code was not recognised.")
                       else (status, None)
  | None, Some (Some _) => (status, None)
  end.

(** The rest of [render_verification], once the form may be shown. *)
Definition render_form (entered : string) (status : Z) (message : option string) (entry : CodeEntry)
    (csrf : option string) : prog Response :=
  let* looked_up := (if str_is_empty entered then Ret (Some None) else pending_grant entered entry) in
  let (status, message) := page_status entered status message looked_up in
  let grant := unwrap_or looked_up None in
  Ret (html_response status (verification_page entered message grant csrf)).

Definition render_verification (headers : HeaderMap) (entered : string) (status : Z) (message : option string)
    (entry : CodeEntry) : prog Response :=
  match in_verification state with
  | Unwired => Ret (html_response 500 (verification_message NOT_CONFIGURED))
  | CsrfTokens issue _ =>
      match issue headers with
      | Some token => render_form entered status message entry (Some token)
      | None => Ret (html_response 403 (verification_message "You are not signed in."))
      end
  | Disabled => render_form entered status message entry None
  end.

Definition verification_page_handler (headers : HeaderMap) (uri : Uri) : prog Response :=
  with_form (get_query uri) (fun pairs =>
    render_verification headers (unwrap_or (param pairs "user_code") EmptyString) 200 None Uncharged).

(** The protections of a submission: its refusal, if any. *)
Definition protected : bool := match in_verification state with Disabled => false | _ => true end.
Definition submission_refusal (headers : HeaderMap) (form : list Pair) : option Response :=
  if negb protected then None
  else if negb (request_same_origin headers (in_origin state)) then
    Some (html_response 403 (verification_message "That request did not come from this site."))
  else
    match in_verification state with
    | Unwired => Some (html_response 500 (verification_message NOT_CONFIGURED))
    | CsrfTokens _ consume =>
        let presented := unwrap_or (param form "csrf_token") EmptyString in
        if is_some_and (consume headers) (fun e => constant_time_eq e presented) then None
        else Some (html_response 403 (verification_message "That form has expired. Start again."))
    | Disabled => Some (html_response 403 (verification_message "That form has expired. Start again."))
    end.

Definition decision_error (e : DeviceApprovalError) : string * Z * CodeEntry :=
  match e with
  | UnknownUserCode => ("That code was not recognised.", 400, AlreadyCharged)
  | Expired => ("That code has expired. Start again on the device.", 400, AlreadyCharged)
  | NotPending => ("That code has already been used.", 400, AlreadyCharged)
  | DeviceStorage _ => ("Something went wrong. Try again.", 500, AlreadyCharged)
  | DeviceRateLimited => (THROTTLED_MESSAGE, 429, Refused)
  end.

(** The decision of a protected submission. *)
Definition decide_device (headers : HeaderMap) (form : list Pair) : prog Response :=
  let user_code := unwrap_or (param form "user_code") EmptyString in
  if str_is_empty user_code then
    render_verification headers EmptyString 400 (Some "Enter the code shown on your device.") Uncharged
  else
  let action := unwrap_or (param form "action") EmptyString in
  let denied := action == "deny" in
  let approved := (action == "approve") || negb protected in
  if negb denied && negb approved then render_verification headers user_code 200 None Uncharged
  else
  match inner_subject state headers with
  | None => Ret (html_response 403 (verification_message "You are not signed in."))
  | Some subject =>
      let* outcome := (if denied then deny_device server user_code else approve_device server user_code subject) in
      match outcome with
      | Ok _ =>
          Ret (html_response 200 (verification_message
            (if denied then "Request denied." else "Approved. You can return to your device.")))
      | Err e =>
          let '(message, status, entry) := decision_error e in
          render_verification headers user_code status (Some message) entry
      end
  end.

Definition verification_submit_handler (headers : HeaderMap) (body : string) : prog Response :=
  if negb (is_form_urlencoded headers) then
    Ret (html_response 415
      (verification_message "Expected an application/x-www-form-urlencoded submission."))
  else
    with_form (from_utf8_lossy body) (fun form =>
    match submission_refusal headers form with
    | Some refusal => Ret refusal
    | None => decide_device headers form
    end).

(** ** Dispatch *)
Record HttpRequest : Type := {
  rq_method : string;
  rq_uri : Uri;
  rq_headers : HeaderMap;
  rq_body : BodyStream;
}.

(** [form_body!()] *)
Definition form_body (body : BodyStream) (k : string -> prog Response) : prog Response :=
  match collect_body body MAX_BODY_BYTES with
  | Ok bytes => k bytes
  | Err e => Ret (body_error e)
  end.

Definition method_not_allowed (route : Route) : Response :=
  with_header "allow" (allowed route) (respond 405 EmptyBody).

Definition dispatch (route : Route) (method : string) (headers : HeaderMap) (uri : Uri) (body : BodyStream)
  : prog Response :=
  match route with
  | RouteMetadata => if method == "GET" then Ret (metadata_handler state) else Ret (method_not_allowed route)
  | RouteJwks => if method == "GET" then Ret (jwks_handler state) else Ret (method_not_allowed route)
  | RouteAuthorize =>
      if method == "GET" then authorize_handler headers uri else Ret (method_not_allowed route)
  | RouteToken =>
      if method == "POST" then form_body body (token_handler state headers) else Ret (method_not_allowed route)
  | RouteDevice =>
      if method == "POST" then form_body body (device_authorization_handler state headers)
      else Ret (method_not_allowed route)
  | RouteIntrospect =>
      if method == "POST" then form_body body (introspect_handler state headers)
      else Ret (method_not_allowed route)
  | RouteRevoke =>
      if method == "POST" then form_body body (revoke_handler state headers) else Ret (method_not_allowed route)
  | RoutePar =>
      if method == "POST" then form_body body (pushed_authorization_handler state headers)
      else Ret (method_not_allowed route)
  | RouteVerification =>
      if method == "GET" then verification_page_handler headers uri
      else if method == "POST" then form_body body (verification_submit_handler headers)
      else Ret (method_not_allowed route)
  | RouteRegister =>
      if method == "POST" then form_body body (register_handler headers) else Ret (method_not_allowed route)
  | RouteManage client_id =>
      if method == "GET" then read_registration_handler headers (decode_path_segment client_id)
      else if method == "PUT" then
        form_body body (update_registration_handler headers (decode_path_segment client_id))
      else if method == "DELETE" then delete_registration_handler headers (decode_path_segment client_id)
      else Ret (method_not_allowed route)
  end.

(** [json_body] and the length of a body *)
Definition json_body (v : Json) : string :=
  unwrap_or (json_to_vec v) (dq "{'error':'server_error'}").
Definition body_bytes (b : Body) : string :=
  match b with
  | EmptyBody => EmptyString
  | JsonBody v => json_body v
  | TextBody s => s
  end.

(** The answer to a [HEAD]: the headers of the [GET], the length of its body and no body. *)
Definition head_response (r : Response) : Response :=
  let length := nat_display (str_len (body_bytes (rs_body r))) in
  let r := {| rs_status := rs_status r; rs_headers := rs_headers r; rs_body := EmptyBody |} in
  match header_from_str length with
  | Some value => with_header "content-length" value r
  | None => r
  end.

Definition handle (request : HttpRequest) : prog Response :=
  match resolve (in_routes state) (uppercase_escapes (uri_path (rq_uri request))) with
  | None => Ret (respond 404 EmptyBody)
  | Some route =>
      let head := rq_method request == "HEAD" in
      let method := if head then "GET" else rq_method request in
      let* response := dispatch route method (rq_headers request) (rq_uri request) (rq_body request) in
      Ret (if head then head_response response else response)
  end.
End handlers.
End surface.
