(* ===== verification/Routing.v ===== *)
(** * Routing: the published URLs reach their handlers

    Paths are compared after the escapes of the request are written in upper case
    ([uppercase_escapes]); the paths of the service are written that way when it is built
    ([encode_route_path]).  The theorems of this file say that the two agree, that a service
    that builds has no path that hides another, and what every response carries. *)
From S2P Require Import Prelude Time Codec Scope Types Store Effects Trace Ops Config Registration Metadata Form Http.
From S2P Require Import StoreFacts Jws Credentials Surface.
Local Open Scope Z_scope.

(** ** Escapes *)

(** Induction over a string from its suffixes. *)
Lemma str_suffix_ind (P : string -> Prop) :
  (forall s, (forall t, (str_len t < str_len s)%nat -> P t) -> P s) -> forall s, P s.
Proof. intros HP. apply (induction_ltof1 _ str_len). exact HP. Qed.

Ltac shorter := unfold str_len; cbn [String.length]; lia.

Lemma upper_of_not_lower c : is_ascii_lowercase c = false -> to_upper c = c.
Proof. unfold is_ascii_lowercase, to_upper. by intros ->. Qed.

Lemma needs_upper_tail c s : needs_upper (String c s) = false -> needs_upper s = false.
Proof. cbn [needs_upper]. destruct s as [|h [|l s]]; [done..|]. by intros [_ ?]%orb_false_iff. Qed.

Lemma upper_loop_id s : needs_upper s = false -> upper_loop s = s.
Proof.
  induction s as [s IH] using str_suffix_ind. destruct s as [|c s]; [done|]. intros Hn.
  pose proof (needs_upper_tail _ _ Hn) as Hs. cbn [upper_loop].
  destruct s as [|h [|l s]]; [by rewrite IH by first [done|shorter]..|].
  destruct (Ascii.eqb c "%" && is_some (hex_value h) && is_some (hex_value l)) eqn:He.
  - cbn [needs_upper] in Hn. rewrite He in Hn. cbn [andb orb] in Hn. apply orb_false_iff in Hn as [Hl _].
    apply orb_false_iff in Hl as [? ?]. rewrite !upper_of_not_lower by done.
    rewrite IH; [|shorter|by do 2 eapply needs_upper_tail]. bools. by apply Ascii.eqb_eq in H1 as ->.
  - rewrite IH; [done|shorter|done].
Qed.

(** Writing the escapes in upper case, whether or not there is anything to do. *)
Lemma uppercase_escapes_loop s : uppercase_escapes s = upper_loop s.
Proof. unfold uppercase_escapes. destruct (needs_upper s) eqn:Hn; [done|]. by rewrite upper_loop_id. Qed.

(** On the characters of a path it is what the service does to its own paths. *)
Lemma uppercase_escapes_route s : str_forall route_char s = true -> uppercase_escapes s = encode_route_path s.
Proof.
  rewrite uppercase_escapes_loop. induction s as [s IH] using str_suffix_ind. destruct s as [|c s]; [done|].
  rewrite str_forall_cons. intros [Hc Hs]%andb_true_iff. cbn [upper_loop encode_route_path]. rewrite Hc.
  destruct s as [|h [|l s]]; [by rewrite IH by first [done|shorter]..|].
  case_match; rewrite IH; try (shorter); try done.
  rewrite !str_forall_cons in Hs. by bools.
Qed.

Definition starts_escape (s : string) : bool :=
  match s with
  | String c (String h (String l _)) => Ascii.eqb c "%" && is_some (hex_value h) && is_some (hex_value l)
  | _ => false
  end.
Lemma upper_loop_step c t : starts_escape (String c t) = false -> upper_loop (String c t) = String c (upper_loop t).
Proof. cbn [upper_loop starts_escape]. destruct t as [|h [|l t]]; [done..|]. by intros ->. Qed.
Lemma upper_loop_escape c h l t : starts_escape (String c (String h (String l t))) = true ->
  upper_loop (String c (String h (String l t))) =
  String "%" (String (to_upper h) (String (to_upper l) (upper_loop t))).
Proof. cbn [upper_loop starts_escape]. by intros ->. Qed.
Lemma upper_loop_plain c t : Ascii.eqb c "%" = false -> upper_loop (String c t) = String c (upper_loop t).
Proof. intros Hc. apply upper_loop_step. cbn [starts_escape]. rewrite Hc. by destruct t as [|? [|? ?]]. Qed.

Lemma upper_loop_slash s t : upper_loop (s +:+ String "/" t) = upper_loop s +:+ String "/" (upper_loop t).
Proof.
  induction s as [s IH] using str_suffix_ind.
  destruct s as [|c [|h [|l s]]]; cbn [String.append].
  - change (EmptyString +:+ ?x) with x. by rewrite upper_loop_plain.
  - change (String c EmptyString +:+ String "/" t) with (String c (String "/" t)).
    rewrite upper_loop_step by (destruct t; [done|]; cbn; by rewrite andb_false_r). by rewrite upper_loop_plain.
  - change (String c (String h EmptyString) +:+ String "/" t) with (String c (String h (String "/" t))).
    rewrite upper_loop_step by (cbn; by rewrite !andb_false_r).
    rewrite upper_loop_step by (destruct t; [done|]; cbn; by rewrite andb_false_r). by rewrite upper_loop_plain.
  - change (String c (String h (String l s)) +:+ ?x) with (String c (String h (String l (s +:+ x)))).
    destruct (starts_escape (String c (String h (String l s)))) eqn:He.
    + rewrite !upper_loop_escape by exact He. by rewrite IH by shorter.
    + rewrite (upper_loop_step c (String h (String l s))), upper_loop_step by exact He.
      change (String h (String l (s +:+ ?x))) with (String h (String l s) +:+ x).
      rewrite IH by shorter. done.
Qed.

Lemma upper_loop_encoded s : upper_loop (Uri.percent_encode s) = Uri.percent_encode s.
Proof.
  induction s as [|b s IH]; [done|]. cbn [Uri.percent_encode]. destruct (Uri.unreserved b) eqn:Hu.
  - rewrite upper_loop_plain by (by apply unreserved_plain). by rewrite IH.
  - cbn [upper_loop]. destruct (hex_value_upper b) as (-> & -> & _). cbn [Ascii.eqb is_some andb Bool.eqb].
    rewrite IH. by destruct b as [[] [] [] [] [] [] [] []].
Qed.

Lemma encoded_no_slash s : contains_char "/" (Uri.percent_encode s) = false.
Proof.
  induction s as [|b s IH]; [done|]. cbn [Uri.percent_encode].
  destruct (Uri.unreserved b) eqn:Hu; by destruct b as [[] [] [] [] [] [] [] []].
Qed.

(** ** The table of routes *)
Definition entry (p : option string) (r : Route) : list (string * Route) := (fun x => (x, r)) <$> of_option p.
Definition route_table (self : Routes) : list (string * Route) :=
  [(ro_well_known self, RouteMetadata); (ro_authorize self, RouteAuthorize); (ro_token self, RouteToken);
   (ro_device self, RouteDevice)]
  ++ entry (ro_introspect self) RouteIntrospect ++ entry (ro_revoke self) RouteRevoke
  ++ entry (ro_verification self) RouteVerification ++ entry (ro_register self) RouteRegister
  ++ entry (ro_par self) RoutePar ++ entry (ro_jwks self) RouteJwks.

Definition find_route (table : list (string * Route)) (path : string) : option Route :=
  snd <$> List.find (fun e => path == fst e) table.

Lemma find_route_cons p r table path :
  find_route ((p, r) :: table) path = if path == p then Some r else find_route table path.
Proof. unfold find_route. cbn. by destruct (path == p). Qed.
Lemma find_route_entry p r table path :
  find_route (entry p r ++ table) path = if p == Some path then Some r else find_route table path.
Proof.
  destruct p as [p|]; cbn [entry of_option fmap list_fmap app]; [|done]. rewrite find_route_cons.
  destruct (decide (path = p)) as [->|]; [by rewrite !bool_decide_eq_true_2|].
  rewrite !bool_decide_eq_false_2 by congruence. done.
Qed.

Definition managed_route (self : Routes) (path : string) : option Route :=
  match ro_manage self ≫= (fun prefix => strip_prefix prefix path) with
  | Some rest => then_some (negb (str_is_empty rest) && negb (contains_char "/" rest)) (RouteManage rest)
  | None => None
  end.

(** [resolve] looks the path up in the table and then under the management prefix. *)
Lemma resolve_table self path :
  resolve self path = match find_route (route_table self) path with
                      | Some r => Some r
                      | None => managed_route self path
                      end.
Proof.
  unfold resolve, route_table. cbn [app]. rewrite !find_route_cons.
  rewrite <- (app_nil_r (entry (ro_jwks self) RouteJwks)), !find_route_entry.
  repeat (match goal with |- (if ?b then _ else _) = _ => destruct b end; [done|]).
  unfold managed_route. destruct (ro_manage self); [|done]. cbn. destruct (strip_prefix _ path); [|done].
  by destruct (_ && _).
Qed.

Lemma find_route_in table p r : NoDup (map fst table) -> (p, r) ∈ table -> find_route table p = Some r.
Proof.
  induction table as [|[p' r'] table IH]; [by intros _ ?%elem_of_nil|]. cbn [map fst].
  intros [Hnew Hnd]%NoDup_cons [[= -> ->]|Hin]%elem_of_cons; rewrite find_route_cons.
  - by rewrite bool_decide_eq_true_2.
  - rewrite bool_decide_eq_false_2; [auto|]. intros ->. apply Hnew.
    apply list_elem_of_fmap. by exists (p', r).
Qed.
Lemma find_route_out table p : p ∉ map fst table -> find_route table p = None.
Proof.
  induction table as [|[p' r'] table IH]; [done|]. cbn [map fst]. rewrite not_elem_of_cons. intros [Hne Hin].
  rewrite find_route_cons, bool_decide_eq_false_2 by done. auto.
Qed.

Lemma resolve_managed self prefix segment :
  prefix +:+ segment ∉ map fst (route_table self) -> ro_manage self = Some prefix ->
  segment <> EmptyString -> contains_char "/" segment = false ->
  resolve self (prefix +:+ segment) = Some (RouteManage segment).
Proof.
  intros Hfree Hp Hne Hslash. rewrite resolve_table, find_route_out by done.
  unfold managed_route. rewrite Hp. cbn. rewrite strip_prefix_app, Hslash. by destruct segment.
Qed.

(** A service that builds serves no path twice. *)
Lemma first_duplicate_none paths : first_duplicate paths = None -> NoDup paths.
Proof.
  induction paths as [|p paths IH]; cbn; [constructor|]. destruct (existsb _ _) eqn:He; [done|].
  intros Hd. constructor; [|auto]. intros Hin. apply not_true_iff_false in He. apply He, existsb_exists.
  exists p. split; [by apply list_elem_of_In|]. by apply bool_decide_eq_true_2.
Qed.

Lemma table_paths_sublist routes manage : map fst (route_table routes) `sublist_of` route_paths routes manage.
Proof.
  unfold route_table, route_paths. rewrite !map_app.
  assert (He : forall o r, map fst (entry o r) = of_option o) by by intros [] ?.
  rewrite !He. apply sublist_app; [done|]. repeat (apply sublist_app; [done|]).
  change (of_option (ro_par routes) ++ of_option (ro_jwks routes)) with
    ([] ++ of_option (ro_par routes) ++ of_option (ro_jwks routes)).
  apply sublist_app; [apply sublist_nil_l|done].
Qed.

(** ** The endpoints of a built service *)
Lemma endpoint_path_ok issuer endpoint url p : endpoint_path issuer endpoint url = Ok p ->
  exists rest, url = issuer +:+ "/" +:+ rest /\ p = encode_route_path (issuer_path issuer +:+ "/" +:+ rest).
Proof.
  unfold endpoint_path. destruct (strip_prefix issuer url) as [[|c rest]|] eqn:Hs; [done| |done].
  apply Loopback.strip_prefix_Some in Hs as ->. intros Hp. exists rest.
  destruct c as [[] [] [] [] [] [] [] []]; try discriminate Hp. by injection Hp as <-.
Qed.

(** What a service publishes: the URLs of its metadata and its introspection endpoint. *)
Definition published (config : ServerConfig) (meta : AuthorizationServerMetadata) : list (string * Route) :=
  [(md_authorization_endpoint meta, RouteAuthorize); (md_token_endpoint meta, RouteToken);
   (md_device_authorization_endpoint meta, RouteDevice);
   (unwrap_or (cfg_introspection_endpoint config) (md_issuer meta +:+ "/introspect"), RouteIntrospect)]
  ++ entry (md_revocation_endpoint meta) RouteRevoke ++ entry (md_registration_endpoint meta) RouteRegister
  ++ entry (md_pushed_authorization_request_endpoint meta) RoutePar ++ entry (md_jwks_uri meta) RouteJwks.

Lemma elem_of_entry p r url route : (url, route) ∈ entry p r <-> p = Some url /\ route = r.
Proof. destruct p; cbn; set_solver. Qed.

Lemma optional_path_ok issuer endpoint url p : optional_path issuer endpoint url = Ok p ->
  forall u, url = Some u -> exists x, endpoint_path issuer endpoint u = Ok x /\ p = Some x.
Proof. intros Hp u ->. apply and_then_ok in Hp as (x & Hx & [= <-]). eauto. Qed.

Lemma build_routes_ok config meta routes manage : build_routes config meta = Ok (routes, manage) ->
  ro_well_known routes = encode_route_path (well_known_path (md_issuer meta)) /\
  (is_some_and (cfg_registration config) rc_management_enabled = true ->
     ro_manage routes = (fun p => p +:+ "/") <$> ro_register routes) /\
  forall url route, (url, route) ∈ published config meta ->
    exists endpoint p, endpoint_path (md_issuer meta) endpoint url = Ok p /\ (p, route) ∈ route_table routes.
Proof.
  unfold build_routes. intros Hb.
  apply and_then_ok in Hb as (authorize & Ha & Hb). apply and_then_ok in Hb as (token & Ht & Hb).
  apply and_then_ok in Hb as (device & Hd & Hb). apply and_then_ok in Hb as (introspect & Hi & Hb).
  apply and_then_ok in Hb as (revoke & Hrev & Hb). apply and_then_ok in Hb as (register & Hreg & Hb).
  apply and_then_ok in Hb as (par & Hpar & Hb). apply and_then_ok in Hb as (jwks & Hjwks & Hb).
  injection Hb as <- _. split; [done|]. split; [by intros ->|].
  intros url route. unfold published, route_table. cbn [ro_well_known ro_authorize ro_token ro_device ro_introspect
    ro_revoke ro_verification ro_register ro_par ro_jwks].
  rewrite !elem_of_app, !elem_of_cons, !elem_of_entry, elem_of_nil.
  intros [[[= -> ->]|[[= -> ->]|[[= -> ->]|[[= -> ->]|[]]]]]|[[Hu ->]|[[Hu ->]|[[Hu ->]|[Hu ->]]]]].
  1-4: do 2 eexists; split; [eassumption|].
  5: destruct (optional_path_ok _ _ _ _ Hrev _ Hu) as (x & Hx & ->).
  6: destruct (optional_path_ok _ _ _ _ Hreg _ Hu) as (x & Hx & ->).
  7: destruct (optional_path_ok _ _ _ _ Hpar _ Hu) as (x & Hx & ->).
  8: destruct (optional_path_ok _ _ _ _ Hjwks _ Hu) as (x & Hx & ->).
  5-8: do 2 eexists; split; [eassumption|].
  all: rewrite !elem_of_app, !elem_of_cons, !elem_of_entry; auto 15.
Qed.

Lemma elem_of_route_register routes p : (p, RouteRegister) ∈ route_table routes -> ro_register routes = Some p.
Proof. unfold route_table. rewrite !elem_of_app, !elem_of_entry, !elem_of_cons, elem_of_nil. naive_solver. Qed.

Section built.
Context `{Backends, HttpLib, HttpSerde} (b : ServiceBuilder) (inner : Inner).
Let config := sv_config (sb_server b).
Let meta := without_mtls (metadata (sb_server b)).
Let issuer := md_issuer meta.

Lemma build_ok : build b = Ok inner -> exists manage,
  build_routes config meta = Ok (in_routes inner, manage) /\ NoDup (route_paths (in_routes inner) manage).
Proof.
  unfold build. fold config meta. intros ([routes manage] & Hr & Hb)%and_then_ok.
  apply and_then_ok in Hb as (jwks & _ & Hb). apply and_then_ok in Hb as (document & _ & Hb).
  destruct (first_duplicate _) eqn:Hd; [done|]. injection Hb as <-. exists manage.
  split; [done|by apply first_duplicate_none].
Qed.

Lemma build_table : build b = Ok inner -> NoDup (map fst (route_table (in_routes inner))).
Proof. intros (manage & _ & Hnd)%build_ok. eapply sublist_NoDup; [done|apply table_paths_sublist]. Qed.

Lemma table_resolves p route : build b = Ok inner -> (p, route) ∈ route_table (in_routes inner) ->
  resolve (in_routes inner) p = Some route.
Proof. intros Hnd%build_table Hin. by rewrite resolve_table, (find_route_in _ _ _ Hnd Hin). Qed.

(** C24. Every URL a service publishes reaches the handler that serves it.  If a service
    builds, each endpoint of its metadata (and the introspection endpoint) is under the
    issuer, and a request for its path, with its escapes in either case, is dispatched to
    that endpoint and no other; the metadata document itself is at the well-known path.  The
    spelling of the path as published is one of those accepted whenever it is made of the
    characters of a path. *)
Theorem published_endpoints_routed url route : build b = Ok inner -> (url, route) ∈ published config meta ->
  resolve (in_routes inner) (encode_route_path (well_known_path issuer)) = Some RouteMetadata /\
  exists rest, url = issuer +:+ "/" +:+ rest /\
    let path := issuer_path issuer +:+ "/" +:+ rest in
    (forall sent, uppercase_escapes sent = encode_route_path path ->
       resolve (in_routes inner) (uppercase_escapes sent) = Some route) /\
    (str_forall route_char path = true -> resolve (in_routes inner) (uppercase_escapes path) = Some route).
Proof.
  intros Hb Hin. destruct (build_ok Hb) as (manage & Hr & _).
  apply build_routes_ok in Hr as (Hwk & _ & Hpub). split.
  - apply table_resolves; [done|]. unfold issuer. rewrite <- Hwk. unfold route_table. set_solver.
  - destruct (Hpub _ _ Hin) as (endpoint & p & (rest & Hurl & Hp)%endpoint_path_ok & Htab).
    exists rest. split; [done|]. cbn zeta.
    assert (Hres : resolve (in_routes inner) p = Some route) by by apply table_resolves.
    rewrite Hp in Hres. split; [by intros sent ->|]. intros Hc. by rewrite uppercase_escapes_route.
Qed.

Lemma metadata_registration : md_registration_endpoint meta =
  (fun r => registration_endpoint r (cfg_issuer config)) <$> cfg_registration config.
Proof.
  destruct (marked_fields (sb_server b) ALL (from_config config) _ _ eq_refl eq_refl) as (_ & _ & _ & H4 & _).
  { cbn. by destruct (cfg_jar config). }
  change (md_registration_endpoint (marked_from (sb_server b) (from_config config) ALL))
    with (md_registration_endpoint meta) in H4.
  rewrite H4. cbn. destruct (cfg_registration config) as [r|]; [|done]. cbn.
  unfold registration_endpoint, endpoint_or, under_issuer. rewrite trim_end_idem.
  by destruct (rc_registration_endpoint r).
Qed.

(** The management URI a registration hands out leads back to that registration.  If a
    service with management builds, then for every identifier that is text, a request for the
    path of its [registration_client_uri] is dispatched to the management handlers, and the
    identifier they decode from the last segment is the one the URI was made for, whatever
    characters it holds; unless the path is that of another endpoint. *)
Theorem registration_uri_leads_back r client_id : build b = Ok inner ->
  cfg_registration config = Some r -> rc_management_enabled r = true ->
  client_id <> EmptyString -> utf8_valid client_id = true ->
  exists rest, registration_client_uri r config client_id = issuer +:+ "/" +:+ rest /\
    let path := issuer_path issuer +:+ "/" +:+ rest in
    (str_forall route_char path = true -> uppercase_escapes path ∉ map fst (route_table (in_routes inner)) ->
     exists segment, resolve (in_routes inner) (uppercase_escapes path) = Some (RouteManage segment) /\
       decode_path_segment segment = client_id).
Proof.
  intros Hb Hr Hm Hne Hutf. destruct (build_ok Hb) as (manage & Hrt & _).
  apply build_routes_ok in Hrt as (_ & Hman & Hpub). rewrite Hr in Hman. specialize (Hman Hm).
  set (url := registration_endpoint r (cfg_issuer config)).
  assert (Hreg : md_registration_endpoint meta = Some url) by (rewrite metadata_registration, Hr; done).
  destruct (Hpub url RouteRegister) as (endpoint & p & (rest & Hurl & Hp)%endpoint_path_ok & Htab).
  { unfold published. rewrite !elem_of_app, !elem_of_entry. auto. }
  exists (rest +:+ "/" +:+ Uri.percent_encode client_id). split.
  { unfold registration_client_uri. fold url. rewrite Hurl, !str_app_assoc. done. }
  cbn zeta. set (base := issuer_path issuer +:+ "/" +:+ rest).
  assert (Hpath : issuer_path issuer +:+ "/" +:+ rest +:+ "/" +:+ Uri.percent_encode client_id =
                  base +:+ String "/" (Uri.percent_encode client_id)).
  { unfold base. by rewrite !str_app_assoc. }
  rewrite Hpath, str_forall_app. intros [Hc _]%andb_true_iff.
  rewrite uppercase_escapes_loop, upper_loop_slash, upper_loop_encoded, <- uppercase_escapes_loop,
    uppercase_escapes_route by exact Hc.
  change (md_issuer meta) with issuer in Hp. fold base in Hp. rewrite <- Hp.
  change (String "/" ?x) with ("/" +:+ x). rewrite <- str_app_assoc. intros Hfree.
  exists (Uri.percent_encode client_id). split; [|by apply percent_decode_encode_utf8].
  apply resolve_managed; [done| | |apply encoded_no_slash].
  - rewrite Hman. apply elem_of_route_register in Htab as ->. done.
  - destruct client_id as [|c s]; [done|]. cbn. by destruct (Uri.unreserved c).
Qed.
End built.

(** ** What every response carries *)
Definition uncached (r : Response) : Prop :=
  response_header r "cache-control" = Some "no-store, no-cache, max-age=0" /\
  response_header r "pragma" = Some "no-cache".
Definition framed (r : Response) : Prop :=
  response_header r "x-frame-options" = Some "DENY" /\
  response_header r "content-security-policy" =
    Some "default-src 'none'; form-action 'self'; base-uri 'none'; frame-ancestors 'none'".

Definition marked (r : Response) : Prop :=
  (forall v, rs_body r = JsonBody v -> uncached r /\ response_header r "content-type" = Some json_content_type) /\
  (rs_status r = 302 -> uncached r) /\
  (rs_status r = 401 -> response_header r "www-authenticate" <> None) /\
  (response_header r "content-type" = Some html_content_type -> uncached r /\ framed r).

Lemma with_header_other name value r other : other <> name ->
  response_header (with_header name value r) other = response_header r other.
Proof.
  intros Hne. unfold response_header, with_header, header_insert. cbn [rs_headers].
  induction (rs_headers r) as [|[n v] headers IH]; cbn.
  - by rewrite bool_decide_eq_false_2.
  - destruct (decide (n = name)) as [->|Hn].
    + rewrite bool_decide_eq_true_2 by done. cbn. by rewrite IH, (bool_decide_eq_false_2 (name = other)).
    + rewrite (bool_decide_eq_false_2 (n = name)) by done. cbn. by destruct (n == other).
Qed.

Ltac marks := split_and!; cbn; try done; repeat split; try done; naive_solver.

Lemma marked_respond status : status <> 302 -> status <> 401 -> marked (respond status EmptyBody).
Proof. intros ? ?. marks. Qed.
Lemma marked_text status text : status <> 302 -> status <> 401 -> marked (text_response status text).
Proof. intros ? ?. marks. Qed.
Lemma marked_html status text : status <> 401 -> marked (html_response status text).
Proof. intros ?. marks. Qed.
Lemma marked_json status v : status <> 401 -> marked (json_response status v).
Proof. intros ?. marks. Qed.
Lemma marked_error e via challenge : marked (error_response e via challenge).
Proof.
  unfold error_response. destruct (Z.eqb_spec (if (error_http_status (error e) =? 401) && negb via then 400
    else error_http_status (error e)) 401) as [Hs|Hs].
  - rewrite Hs. marks.
  - by apply marked_json.
Qed.
Lemma marked_registration_error e : marked (registration_error e).
Proof. destruct e; cbn; marks. Qed.

Definition returns {A} (P : A -> Prop) (p : prog A) : Prop := forall tr a, exec p tr a -> P a.
Lemma returns_ret {A} (P : A -> Prop) a : P a -> returns P (Ret a).
Proof. intros HP tr a' [_ ->]. exact HP. Qed.
Lemma returns_bind {A B} (P : B -> Prop) (Q : A -> Prop) (p : prog A) (f : A -> prog B) :
  returns Q p -> (forall a, Q a -> returns P (f a)) -> returns P (bind p f).
Proof. intros Hp Hf tr b (tr1 & tr2 & a & _ & Ha & Hb)%exec_bind. exact (Hf a (Hp _ _ Ha) _ _ Hb). Qed.
Lemma returns_any {A} (p : prog A) : returns (fun _ => True) p.
Proof. by intros tr a _. Qed.
Lemma returns_after {A B} (P : B -> Prop) (p : prog A) (f : A -> prog B) :
  (forall a, returns P (f a)) -> returns P (bind p f).
Proof. intros Hf. eapply returns_bind; [apply returns_any|]. intros a _. apply Hf. Qed.

Section responses.
Context `{Crypto, Serde, Backends, HttpLib, HttpSerde} (state : Inner).

(** A response the host's own approval step made. *)
Definition host_made (r : Response) : Prop :=
  exists resolver shown status headers body, in_approval state = Some resolver /\
    resolver shown = Respond status headers body /\
    r = {| rs_status := status; rs_headers := headers; rs_body := TextBody body |}.
Definition carried (r : Response) : Prop := marked r \/ host_made r.

Lemma carried_marked r : marked r -> carried r.
Proof. by left. Qed.
Lemma marked_redirect location : marked (redirect location).
Proof. unfold redirect. case_match; [marks|apply marked_error]. Qed.
Ltac mark := first [assumption|try apply carried_marked; cbv beta; lazymatch goal with
  | |- marked (error_response _ _ _) => apply marked_error
  | |- marked (refuse _ _ _) => apply marked_error
  | |- marked (registration_error _) => apply marked_registration_error
  | |- marked (respond _ _) => by apply marked_respond
  | |- marked (text_response _ _) => by apply marked_text
  | |- marked (html_response _ _) => by apply marked_html
  | |- marked (json_response _ _) => by apply marked_json
  | |- marked (ok_json _) => by apply marked_json
  | |- marked (redirect _) => apply marked_redirect
  | |- marked (match ?x with _ => _ end) => destruct x; mark
  | |- marked _ => marks
  | _ => done
  end].

Lemma returns_form text k : (forall form, returns carried (k form)) -> returns carried (with_form text k).
Proof. intros Hk. unfold with_form. case_match; [apply Hk|]. apply returns_ret. mark. Qed.
Lemma returns_refuse {A} (r : result A ErrorResponse) via k : (forall a, returns carried (k a)) ->
  returns carried (or_refuse state r via k).
Proof. intros Hk. destruct r; cbn; [apply Hk|]. apply returns_ret. mark. Qed.
Lemma carried_render {A} (r : result A ErrorResponse) ok via : (forall a, marked (ok a)) ->
  carried (render state r ok via).
Proof. intros Hok. destruct r; cbn; [by left|mark]. Qed.

Lemma returns_proof headers via (k : _ -> prog Response) :
  (forall r, carried r -> returns carried (k (Err r))) -> (forall p, returns carried (k (Ok p))) ->
  returns carried (let* proof := dpop_proof_header state headers via in k proof).
Proof.
  intros He Hk. eapply returns_bind with (Q := fun x => match x with Err r => carried r | Ok _ => True end).
  - unfold dpop_proof_header. repeat case_match; try (apply returns_after; intros); apply returns_ret; try mark; done.
  - intros [p|r]; auto.
Qed.

Ltac returning := repeat match goal with
  | |- returns _ (Ret _) => apply returns_ret
  | |- returns _ (with_form _ _) => apply returns_form; intros
  | |- returns _ (or_refuse _ _ _ _) => apply returns_refuse; intros
  | |- returns _ (bind (dpop_proof_header _ _ _) _) => apply returns_proof; intros
  | |- returns _ (bind _ _) => apply returns_after; intros
  | |- returns _ (if ?b then _ else _) => destruct b
  | |- returns _ (match ?x with _ => _ end) => destruct x eqn:?
  | |- carried (render _ _ _ _) => apply carried_render; intros
  end.

Ltac returned := returning; mark.

Lemma render_returns headers entered status message entry : status <> 401 ->
  returns carried (render_verification state headers entered status message entry).
Proof.
  intros Hs. unfold render_verification, render_form. returning; try mark.
  all: unfold page_status in *; repeat case_match; simplify_eq; apply carried_marked; by apply marked_html.
Qed.

Lemma authorize_returns headers uri : returns carried (authorize_handler state headers uri).
Proof.
  unfold authorize_handler, approved, authorization_error, unwired. returning; try mark. right.
  repeat eexists; eassumption.
Qed.

Lemma submit_returns headers body : returns carried (verification_submit_handler state headers body).
Proof.
  unfold verification_submit_handler. returning; try mark.
  - unfold submission_refusal in *. repeat case_match; simplify_eq; mark.
  - unfold decide_device. returning; try mark; try (by apply render_returns).
    rename select (decision_error _ = _) into He. apply render_returns. unfold decision_error in He.
    case_match; by simplify_eq.
Qed.

Lemma dispatch_returns route method headers uri body :
  returns carried (dispatch state route method headers uri body).
Proof.
  destruct route; cbn [dispatch]; unfold form_body, metadata_handler, jwks_handler, method_not_allowed, body_error;
    returning; try mark.
  - apply authorize_returns.
  - unfold token_handler, token_exchange_response. returned.
  - unfold device_authorization_handler. returned.
  - unfold introspect_handler. returned.
  - unfold revoke_handler. returned.
  - unfold verification_page_handler. returning. by apply render_returns.
  - apply submit_returns.
  - unfold register_handler, client_metadata, ok_or, information_response. returning; try mark.
    all: case_match; simplify_eq; mark.
  - unfold read_registration_handler, information_response. returned.
  - unfold update_registration_handler, client_metadata, ok_or, information_response. returning; try mark.
    all: case_match; simplify_eq; mark.
  - unfold delete_registration_handler. returned.
  - unfold pushed_authorization_handler. returned.
Qed.

Lemma marked_head r : marked r -> marked (head_response r).
Proof.
  intros (_ & H302 & H401 & Hhtml). unfold head_response. cbn zeta.
  assert (Hsame : forall name, name <> "content-length" ->
    response_header (match header_from_str (nat_display (str_len (body_bytes (rs_body r)))) with
      | Some value => with_header "content-length" value
          {| rs_status := rs_status r; rs_headers := rs_headers r; rs_body := EmptyBody |}
      | None => {| rs_status := rs_status r; rs_headers := rs_headers r; rs_body := EmptyBody |}
      end) name = response_header r name).
  { intros name Hn. case_match; [|done]. by rewrite with_header_other. }
  unfold marked, uncached, framed. rewrite !Hsame by done. split_and!; try by case_match.
Qed.

(** Every response carries what it must, whatever the request and whatever happened: JSON
    and redirects are never to be stored by a cache, JSON is declared as JSON, a 401 names the
    scheme to authenticate with, and a page is never stored, framed or able to load anything.
    The only exception is a response the host's own approval step returned. *)
Theorem responses_marked request tr resp : exec (handle state request) tr resp ->
  marked resp \/
  exists r, host_made r /\ (resp = r \/ rq_method request = "HEAD" /\ resp = head_response r).
Proof.
  unfold handle. destruct (resolve _ _) as [route|].
  - intros (tr1 & tr2 & r & _ & Hr & [_ ->])%exec_bind.
    destruct (dispatch_returns _ _ _ _ _ _ _ Hr) as [Hm|Hh].
    + left. case_match; [by apply marked_head|done].
    + right. exists r. split; [done|]. destruct (rq_method request == "HEAD") eqn:Hd; [|by left]. bools. by right.
  - intros [_ ->]. left. by apply marked_respond.
Qed.
End responses.

(** ** Bodies are bounded *)
Definition frame_data (f : Frame) : string := match f with DataFrame d => d | _ => EmptyString end.
Definition stream_data (frames : list Frame) : string := foldr (fun f s => frame_data f +:+ s) EmptyString frames.

Lemma collect_frames_spec limit frames : forall collected s, Z.of_nat (str_len collected) <= limit ->
  collect_frames limit collected frames = Ok s <->
  FailedFrame ∉ frames /\ s = collected +:+ stream_data frames /\ Z.of_nat (str_len s) <= limit.
Proof.
  induction frames as [|f frames IH]; intros collected s Hc; cbn [collect_frames stream_data foldr].
  { rewrite str_app_nil_r. split; [|by intros (_ & -> & _)]. intros [= <-]. split; [apply not_elem_of_nil|done]. }
  fold (stream_data frames). rewrite not_elem_of_cons. destruct f as [data| |]; cbn [frame_data].
  - rewrite <- str_app_assoc. destruct (_ >? limit) eqn:Hl.
    + split; [done|]. intros (_ & -> & Hs). rewrite Z.gtb_lt in Hl. rewrite !str_len_app in Hs. lia.
    + rewrite Z.gtb_ltb, Z.ltb_ge in Hl. rewrite IH by (rewrite str_len_app; lia). naive_solver.
  - rewrite IH by done. naive_solver.
  - split; [done|]. naive_solver.
Qed.

(** C26. What a request can make the service hold is bounded.  A body is collected exactly when
    the transport announces no more than the limit, no frame of it fails and its data,
    frame after frame, is no longer than the limit, and then it is that data; and no form or
    query is read as more than [MAX_FORM_PARAMETERS] parameters. *)
Theorem request_bodies_bounded body bytes :
  (collect_body body MAX_BODY_BYTES = Ok bytes <->
   bs_lower body <= MAX_BODY_BYTES /\ FailedFrame ∉ bs_frames body /\ bytes = stream_data (bs_frames body) /\
   Z.of_nat (str_len bytes) <= MAX_BODY_BYTES) /\
  match parse_pairs (from_utf8_lossy bytes) with
  | Ok form => (List.length form <= MAX_FORM_PARAMETERS)%nat
  | Err _ => True
  end.
Proof.
  split.
  - unfold collect_body. destruct (bs_lower body >? MAX_BODY_BYTES) eqn:Hl; bools.
    + split; [done|]. intros [? _]. lia.
    + rewrite (collect_frames_spec MAX_BODY_BYTES) by done. change (EmptyString +:+ ?x) with x. naive_solver.
  - destruct (parse_pairs _) eqn:Hp; [by eapply parse_pairs_bounded|done].
Qed.

(** ** Evaluation *)
Definition plain_http_serde : HttpSerde := {|
  json_to_vec _ := None; metadata_to_vec m := Ok (md_issuer m); jwks_to_vec _ := Ok EmptyString;
  metadata_from_slice _ := None |}.
Definition registration_builder : @ServiceBuilder plain_http := @builder_new plain_http registration_server.
Local Notation demo_build := (@build no_backends plain_http plain_http_serde registration_builder).
Definition demo_routes : result Routes ServiceError :=
  match demo_build with Ok i => Ok (in_routes i) | Err e => Err e end.
Lemma demo_built_ok : exists i, demo_build = Ok i.
Proof.
  assert (Hok : is_ok demo_build = true) by (vm_compute; reflexivity). destruct demo_build; [eauto|discriminate Hok].
Qed.

Lemma published_endpoints_routed_witness :
  exists i, demo_build = Ok i /\
    resolve (in_routes i) "/token" = Some RouteToken.
Proof.
  destruct demo_built_ok as [i Hi]. exists i. split; [exact Hi|].
  destruct (@published_endpoints_routed no_backends plain_http plain_http_serde registration_builder i
              "https://as/token" RouteToken Hi) as [_ (rest & Hurl & _ & Hroute)].
  - vm_compute. right. left.
  - assert (Hr : rest = "token") by (vm_compute in Hurl; congruence). rewrite Hr in Hroute. apply Hroute. vm_compute. reflexivity.
Defined.

(** An identifier with characters of every kind. *)
Definition odd_id : string := "a/b c%".
Lemma odd_id_free i : demo_build = Ok i -> "/register/a%2Fb%20c%25" ∉ map fst (route_table (in_routes i)).
Proof.
  intros Hi. assert (Hfree : match demo_routes with
                             | Ok r => bool_decide ("/register/a%2Fb%20c%25" ∉ map fst (route_table r))
                             | Err _ => true
                             end = true) by (vm_compute; reflexivity).
  unfold demo_routes in Hfree. rewrite Hi in Hfree. by apply bool_decide_eq_true in Hfree.
Qed.

Lemma registration_uri_leads_back_witness :
  exists i segment, demo_build = Ok i /\
    resolve (in_routes i) "/register/a%2Fb%20c%25" = Some (RouteManage segment) /\
    decode_path_segment segment = odd_id.
Proof.
  destruct demo_built_ok as [i Hi].
  destruct (@registration_uri_leads_back no_backends plain_http plain_http_serde registration_builder i
              registration_config_new odd_id Hi) as (rest & Huri & Hroute);
    [reflexivity|reflexivity|discriminate|reflexivity|].
  assert (Hr : rest = "register/a%2Fb%20c%25") by (vm_compute in Huri; congruence). rewrite Hr in Hroute.
  destruct Hroute as (segment & Hseg & Hid); [vm_compute; reflexivity|exact (odd_id_free i Hi)|].
  exists i, segment. split; [exact Hi|]. split; [exact Hseg|exact Hid].
Defined.

(** A client that does not authenticate. *)
Definition demo_unauthenticated : @HttpRequest plain_http :=
  @Build_HttpRequest plain_http "POST" {| uri_path := "/token"; uri_query := None |} demo_basic
    {| bs_lower := 0; bs_frames := [DataFrame "grant_type=client_credentials"] |}.
Definition demo_answer (i : @Inner plain_http) : Response :=
  fst (run demo_env (@handle plain_crypto assertion_serde no_backends plain_http plain_http_serde i demo_unauthenticated)
         (world_of mi_empty)).

Lemma responses_marked_witness : exists i, demo_build = Ok i /\ rs_status (demo_answer i) = 401 /\
  response_header (demo_answer i) "www-authenticate" <> None.
Proof.
  assert (Hok : match demo_build with
                | Ok i => (rs_status (demo_answer i) =? 401) && negb (is_some (in_approval i))
                | Err _ => false
                end = true) by (vm_compute; reflexivity).
  destruct demo_build as [i|]; [|discriminate Hok]. apply andb_true_iff in Hok as [Hs Ha].
  exists i. split; [reflexivity|]. apply Z.eqb_eq in Hs. split; [exact Hs|].
  destruct (run_exec demo_env (@handle plain_crypto assertion_serde no_backends plain_http plain_http_serde
              i demo_unauthenticated) (world_of mi_empty)) as [tr Htr].
  destruct (@responses_marked plain_crypto assertion_serde no_backends plain_http plain_http_serde
              i demo_unauthenticated tr _ Htr) as [(_ & _ & H401 & _)|(r & (f & ? & ? & ? & ? & Hf & _) & _)].
  - apply H401. exact Hs.
  - rewrite Hf in Ha. discriminate Ha.
Defined.
