(* ===== verification/RateLimit.v ===== *)
(** * The rate limiter (rate_limit.rs)

    [FixedWindowRateLimiter]: counters that a window's end resets, one per kind of
    attempt, and for client authentication and authorization requests one per client
    identifier, in a table of bounded size with a shared counter for the rest.

    The second half states what the limiter promises as a limiter that keeps no counters
    at all, only the log of the current window, and proves that the counters decide as
    the log does. *)
From S2P Require Import Prelude Time Types.
Local Open Scope Z_scope.

Definition ATTEMPT_COST : Z := 1.
Definition DEFAULT_WINDOW : Duration := from_secs 60.
Definition MIN_WINDOW : Duration := 1000000.
Definition CLIENT_AUTHENTICATION_FAILURE_CEILING_DIVISOR : Z := 2.
Definition MAX_TRACKED_CLIENT_ID_LEN : nat := 128.

Record RateLimitConfig : Type := {
  window : Duration;
  device_user_code_capacity : Z;
  device_user_code_failure_cost : Z;
  client_authentication_capacity : Z;
  client_authentication_capacity_overrides : gmap string Z;
  client_authentication_failure_cost : Z;
  authorization_request_capacity : Z;
  authorization_request_failure_cost : Z;
  client_registration_capacity : Z;
  client_registration_failure_cost : Z;
  max_tracked_clients : nat;
}.

(** [RateLimitConfig::default] *)
Definition default_config : RateLimitConfig := {|
  window := DEFAULT_WINDOW;
  device_user_code_capacity := 200; device_user_code_failure_cost := 9;
  client_authentication_capacity := 6000; client_authentication_capacity_overrides := ∅;
  client_authentication_failure_cost := 199;
  authorization_request_capacity := 3000; authorization_request_failure_cost := 9;
  client_registration_capacity := 60; client_registration_failure_cost := 9;
  max_tracked_clients := Z.to_nat 4096 |}.

(** The fields are [u64]s. *)
Definition is_u64 (z : Z) : Prop := 0 <= z <= U64_MAX.
Record config_ok (c : RateLimitConfig) : Prop := {
  ok_window : 0 <= window c;
  ok_device : is_u64 (device_user_code_capacity c) /\ is_u64 (device_user_code_failure_cost c);
  ok_client : is_u64 (client_authentication_capacity c) /\ is_u64 (client_authentication_failure_cost c);
  ok_overrides : forall id v, client_authentication_capacity_overrides c !! id = Some v -> is_u64 v;
  ok_authorization : is_u64 (authorization_request_capacity c) /\ is_u64 (authorization_request_failure_cost c);
  ok_registration : is_u64 (client_registration_capacity c) /\ is_u64 (client_registration_failure_cost c);
}.

Definition with_client_authentication_capacity_for (self : RateLimitConfig) (client_id : string) (capacity : Z)
  : RateLimitConfig := {|
  window := window self;
  device_user_code_capacity := device_user_code_capacity self;
  device_user_code_failure_cost := device_user_code_failure_cost self;
  client_authentication_capacity := client_authentication_capacity self;
  client_authentication_capacity_overrides :=
    <[client_id := capacity]> (client_authentication_capacity_overrides self);
  client_authentication_failure_cost := client_authentication_failure_cost self;
  authorization_request_capacity := authorization_request_capacity self;
  authorization_request_failure_cost := authorization_request_failure_cost self;
  client_registration_capacity := client_registration_capacity self;
  client_registration_failure_cost := client_registration_failure_cost self;
  max_tracked_clients := max_tracked_clients self |}.

Definition effective_window (self : RateLimitConfig) : Duration := Z.max (window self) MIN_WINDOW.
Definition client_authentication_failure_ceiling (self : RateLimitConfig) : Z :=
  client_authentication_capacity self / CLIENT_AUTHENTICATION_FAILURE_CEILING_DIVISOR.
Definition client_authentication_capacity_for (self : RateLimitConfig) (client_id : string) : Z :=
  unwrap_or (client_authentication_capacity_overrides self !! client_id) (client_authentication_capacity self).
Definition client_authentication_failure_ceiling_for (self : RateLimitConfig) (client_id : string) : Z :=
  client_authentication_capacity_for self client_id / CLIENT_AUTHENTICATION_FAILURE_CEILING_DIVISOR.
Definition authorization_request_failure_ceiling (self : RateLimitConfig) : Z :=
  authorization_request_capacity self / CLIENT_AUTHENTICATION_FAILURE_CEILING_DIVISOR.

(** ** The window *)
Record ClientBudget : Type := { cb_attempts : Z; cb_failures : Z }.
Definition no_budget : ClientBudget := {| cb_attempts := 0; cb_failures := 0 |}.

Record Window : Type := {
  wn_index : Z;
  wn_device_user_code : Z;
  wn_clients : gmap string ClientBudget;
  wn_overflow : ClientBudget;
  wn_authorization : gmap string ClientBudget;
  wn_authorization_overflow : ClientBudget;
  wn_registration : Z;
}.
Definition empty_window (index : Z) : Window := {|
  wn_index := index; wn_device_user_code := 0; wn_clients := ∅; wn_overflow := no_budget;
  wn_authorization := ∅; wn_authorization_overflow := no_budget; wn_registration := 0 |}.

Definition roll_to (index : Z) (w : Window) : Window :=
  if wn_index w =? index then w else empty_window index.

Definition with_device (n : Z) (w : Window) : Window := {|
  wn_index := wn_index w; wn_device_user_code := n; wn_clients := wn_clients w;
  wn_overflow := wn_overflow w; wn_authorization := wn_authorization w;
  wn_authorization_overflow := wn_authorization_overflow w; wn_registration := wn_registration w |}.
Definition with_registration (n : Z) (w : Window) : Window := {|
  wn_index := wn_index w; wn_device_user_code := wn_device_user_code w; wn_clients := wn_clients w;
  wn_overflow := wn_overflow w; wn_authorization := wn_authorization w;
  wn_authorization_overflow := wn_authorization_overflow w; wn_registration := n |}.
Definition with_clients (t : gmap string ClientBudget * ClientBudget) (w : Window) : Window := {|
  wn_index := wn_index w; wn_device_user_code := wn_device_user_code w; wn_clients := fst t;
  wn_overflow := snd t; wn_authorization := wn_authorization w;
  wn_authorization_overflow := wn_authorization_overflow w; wn_registration := wn_registration w |}.
Definition with_authorization (t : gmap string ClientBudget * ClientBudget) (w : Window) : Window := {|
  wn_index := wn_index w; wn_device_user_code := wn_device_user_code w; wn_clients := wn_clients w;
  wn_overflow := wn_overflow w; wn_authorization := fst t;
  wn_authorization_overflow := snd t; wn_registration := wn_registration w |}.

(** A table of budgets and its overflow; a place in it is what [&mut ClientBudget]
    points to: an entry, or the overflow. *)
Definition Table : Type := gmap string ClientBudget * ClientBudget.
Definition Place : Type := option string.
Definition budget_at (p : Place) (t : Table) : ClientBudget :=
  match p with Some id => unwrap_or (fst t !! id) no_budget | None => snd t end.
Definition set_budget_at (p : Place) (b : ClientBudget) (t : Table) : Table :=
  match p with Some id => (<[id := b]> (fst t), snd t) | None => (fst t, b) end.

(** The body that [client_counter] and [authorization_counter] share: find the place
    of a client, making an entry when there is room. *)
Definition counter (client_id : string) (max_tracked : nat) (t : Table) : Place * Table :=
  if Nat.ltb MAX_TRACKED_CLIENT_ID_LEN (str_len client_id) then (None, t)
  else if is_some (fst t !! client_id) then (Some client_id, t)
  else if Nat.leb max_tracked (size (fst t)) then (None, t)
  else (Some client_id, (<[client_id := no_budget]> (fst t), snd t)).

Definition client_counter (client_id : string) (max_tracked : nat) (w : Window) : Place * Table :=
  counter client_id max_tracked (wn_clients w, wn_overflow w).
Definition authorization_counter (client_id : string) (max_tracked : nat) (w : Window) : Place * Table :=
  counter client_id max_tracked (wn_authorization w, wn_authorization_overflow w).

(** [charge] and [penalise] on [&mut u64]: the answer and the counter left. *)
Definition charge (n capacity cost : Z) : RateLimitDecision * Z :=
  if cost >? u64_saturating_sub capacity n then (Deny, n) else (Allow, n + cost).
Definition penalise (n capacity cost : Z) : Z := Z.min (u64_saturating_add n cost) capacity.

Definition charge_at (p : Place) (capacity : Z) (t : Table) : RateLimitDecision * Table :=
  let budget := budget_at p t in
  let headroom := u64_saturating_sub capacity (cb_failures budget) in
  let (d, n) := charge (cb_attempts budget) headroom ATTEMPT_COST in
  (d, set_budget_at p {| cb_attempts := n; cb_failures := cb_failures budget |} t).
Definition penalise_at (p : Place) (ceiling cost : Z) (t : Table) : Table :=
  let budget := budget_at p t in
  set_budget_at p {| cb_attempts := cb_attempts budget;
                     cb_failures := penalise (cb_failures budget) ceiling cost |} t.

(** ** The limiter *)
Section limiter.
Context (config : RateLimitConfig) (base : Z).

Definition window_index (instant : Z) : Z :=
  Z.min (Z.max (instant - base) 0 / effective_window config) U64_MAX.

Definition check_at (attempt : Attempt) (instant : Z) (state : Window) : RateLimitDecision * Window :=
  let state := roll_to (window_index instant) state in
  match attempt with
  | DeviceUserCodeEntry =>
      let (d, n) := charge (wn_device_user_code state) (device_user_code_capacity config) ATTEMPT_COST in
      (d, with_device n state)
  | ClientAuthentication client_id =>
      let (place, t) := client_counter client_id (max_tracked_clients config) state in
      let capacity := if is_some place then client_authentication_capacity_for config client_id
                      else client_authentication_capacity config in
      let (d, t) := charge_at place capacity t in
      (d, with_clients t state)
  | AuthorizationRequestAttempt client_id =>
      let (place, t) := authorization_counter client_id (max_tracked_clients config) state in
      let (d, t) := charge_at place (authorization_request_capacity config) t in
      (d, with_authorization t state)
  | ClientRegistration =>
      let (d, n) := charge (wn_registration state) (client_registration_capacity config) ATTEMPT_COST in
      (d, with_registration n state)
  end.

Definition record_at (attempt : Attempt) (outcome : AttemptOutcome) (instant : Z) (state : Window) : Window :=
  match outcome with
  | Succeeded => state
  | Failed =>
      let state := roll_to (window_index instant) state in
      match attempt with
      | DeviceUserCodeEntry =>
          with_device (penalise (wn_device_user_code state) (device_user_code_capacity config)
                         (device_user_code_failure_cost config)) state
      | ClientAuthentication client_id =>
          let (place, t) := client_counter client_id (max_tracked_clients config) state in
          let ceiling := if is_some place then client_authentication_failure_ceiling_for config client_id
                         else client_authentication_failure_ceiling config in
          with_clients (penalise_at place ceiling (client_authentication_failure_cost config) t) state
      | AuthorizationRequestAttempt client_id =>
          let (place, t) := authorization_counter client_id (max_tracked_clients config) state in
          with_authorization (penalise_at place (authorization_request_failure_ceiling config)
                                (authorization_request_failure_cost config) t) state
      | ClientRegistration =>
          with_registration (penalise (wn_registration state) (client_registration_capacity config)
                               (client_registration_failure_cost config)) state
      end
  end.

(** Calls of the two methods, in the order their locks are taken. *)
Inductive Call : Type :=
| CheckCall (attempt : Attempt) (instant : Z)
| RecordCall (attempt : Attempt) (outcome : AttemptOutcome) (instant : Z).

Fixpoint run_calls (calls : list Call) (w : Window) : list RateLimitDecision * Window :=
  match calls with
  | [] => ([], w)
  | CheckCall a t :: rest =>
      let (d, w1) := check_at a t w in
      let (ds, w2) := run_calls rest w1 in
      (d :: ds, w2)
  | RecordCall a o t :: rest => run_calls rest (record_at a o t w)
  end.
End limiter.

(** ** The limiter that keeps a log

    What the counters stand for.  The log of a window says of each attempt whether it
    was allowed, refused, or recorded as a failure; every decision is read off it. *)
Inductive Verdict : Type := VAllowed | VRefused | VFailed.
#[global] Instance Verdict_eq_dec : EqDecision Verdict. Proof. solve_decision. Defined.

Definition tally {A} (p : A -> bool) (l : list A) : Z := Z.of_nat (List.length (List.filter p l)).

(** *** A table's log *)
Definition TableLog : Type := list (string * Verdict).

(** The first [max] clients seen, of those with an identifier that may be kept. *)
Definition track (max : nat) (s : gset string) (id : string) : gset string :=
  if Nat.ltb MAX_TRACKED_CLIENT_ID_LEN (str_len id) then s
  else if bool_decide (id ∈ s) then s
  else if Nat.leb max (size s) then s
  else {[ id ]} ∪ s.
Definition tracked (max : nat) (log : TableLog) : gset string := foldl (track max) ∅ log.*1.
Definition place (max : nat) (log : TableLog) (id : string) : Place :=
  if bool_decide (id ∈ tracked max log) then Some id else None.
(** How often the clients that share a place got a verdict. *)
Definition counted (max : nat) (log : TableLog) (v : Verdict) (p : Place) : Z :=
  tally (fun e => (snd e == v) && (place max log (fst e) == p)) log.

(** One more attempt fits when it and the weight of the failures, capped at the
    ceiling, stay within the capacity. *)
Definition table_allows (max : nat) (capacity ceiling : Place -> Z) (cost : Z) (log : TableLog) (id : string) : bool :=
  let log := log ++ [(id, VRefused)] in
  let p := place max log id in
  counted max log VAllowed p + 1 + Z.min (ceiling p) (cost * counted max log VFailed p) <=? capacity p.

(** *** The whole log *)
Definition Log : Type := list (Attempt * Verdict).
Definition client_log (log : Log) : TableLog :=
  omap (fun e => match fst e with ClientAuthentication id => Some (id, snd e) | _ => None end) log.
Definition authorization_log (log : Log) : TableLog :=
  omap (fun e => match fst e with AuthorizationRequestAttempt id => Some (id, snd e) | _ => None end) log.
Definition single_count (log : Log) (a : Attempt) (v : Verdict) : Z := tally (fun e => e == (a, v)) log.

Section log_limiter.
Context (config : RateLimitConfig) (base : Z).

Definition client_capacity (p : Place) : Z :=
  match p with Some id => client_authentication_capacity_for config id | None => client_authentication_capacity config end.
Definition client_ceiling (p : Place) : Z := client_capacity p / CLIENT_AUTHENTICATION_FAILURE_CEILING_DIVISOR.

Definition log_allows (log : Log) (a : Attempt) : bool :=
  match a with
  | DeviceUserCodeEntry =>
      single_count log a VAllowed + 1 + device_user_code_failure_cost config * single_count log a VFailed
        <=? device_user_code_capacity config
  | ClientRegistration =>
      single_count log a VAllowed + 1 + client_registration_failure_cost config * single_count log a VFailed
        <=? client_registration_capacity config
  | ClientAuthentication id =>
      table_allows (max_tracked_clients config) client_capacity client_ceiling
        (client_authentication_failure_cost config) (client_log log) id
  | AuthorizationRequestAttempt id =>
      table_allows (max_tracked_clients config) (fun _ => authorization_request_capacity config)
        (fun _ => authorization_request_failure_ceiling config)
        (authorization_request_failure_cost config) (authorization_log log) id
  end.

Record LogState : Type := { ls_index : Z; ls_log : Log }.
Definition log_roll (index : Z) (s : LogState) : LogState :=
  if ls_index s =? index then s else {| ls_index := index; ls_log := [] |}.
Definition log_add (e : Attempt * Verdict) (s : LogState) : LogState :=
  {| ls_index := ls_index s; ls_log := ls_log s ++ [e] |}.

Definition log_check (a : Attempt) (instant : Z) (s : LogState) : RateLimitDecision * LogState :=
  let s := log_roll (window_index config base instant) s in
  if log_allows (ls_log s) a then (Allow, log_add (a, VAllowed) s) else (Deny, log_add (a, VRefused) s).
Definition log_record (a : Attempt) (o : AttemptOutcome) (instant : Z) (s : LogState) : LogState :=
  match o with
  | Succeeded => s
  | Failed => log_add (a, VFailed) (log_roll (window_index config base instant) s)
  end.

Fixpoint log_calls (calls : list Call) (s : LogState) : list RateLimitDecision * LogState :=
  match calls with
  | [] => ([], s)
  | CheckCall a t :: rest =>
      let (d, s1) := log_check a t s in
      let (ds, s2) := log_calls rest s1 in
      (d :: ds, s2)
  | RecordCall a o t :: rest => log_calls rest (log_record a o t s)
  end.
End log_limiter.

(** ** The counters are the log's *)
Lemma tally_app {A} (p : A -> bool) l k : tally p (l ++ k) = tally p l + tally p k.
Proof. unfold tally. rewrite List.filter_app, length_app. lia. Qed.
Lemma tally_nonneg {A} (p : A -> bool) l : 0 <= tally p l.
Proof. unfold tally. lia. Qed.
Lemma tally_one {A} (p : A -> bool) x : tally p [x] = if p x then 1 else 0.
Proof. unfold tally. cbn. by destruct (p x). Qed.
Lemma tally_ext {A} (p q : A -> bool) l : (forall x, x ∈ l -> p x = q x) -> tally p l = tally q l.
Proof.
  unfold tally. intros Hpq. f_equal. f_equal. apply List.filter_ext_in. intros x Hx. by apply Hpq, list_elem_of_In.
Qed.
#[export] Hint Resolve tally_nonneg : oauth.

Section tables.
Context (max : nat).

Lemma tracked_snoc log id v : tracked max (log ++ [(id, v)]) = track max (tracked max log) id.
Proof. unfold tracked. by rewrite fmap_app, foldl_app. Qed.
Lemma track_mono s id : s ⊆ track max s id.
Proof. unfold track. repeat case_match; set_solver. Qed.

(** A client the table refused once is refused for the window. *)
Definition settled (s : gset string) (id : string) : Prop :=
  id ∈ s \/ (MAX_TRACKED_CLIENT_ID_LEN < str_len id)%nat \/ (max <= size s)%nat.

Lemma track_settles s id : settled (track max s id) id.
Proof.
  unfold settled, track. destruct (Nat.ltb_spec MAX_TRACKED_CLIENT_ID_LEN (str_len id)); [auto|].
  case_bool_decide; [auto|]. destruct (Nat.leb_spec max (size s)); [auto|]. left. set_solver.
Qed.
Lemma settled_track s id id' : settled s id -> settled (track max s id') id /\ (id ∈ track max s id' <-> id ∈ s).
Proof.
  intros Hs. pose proof (track_mono s id') as Hmono. pose proof (subseteq_size _ _ Hmono).
  destruct Hs as [Hin|Hout]; [split; [left; set_solver|set_solver]|].
  split; [unfold settled; intuition lia|]. split; [|set_solver].
  unfold track. destruct (Nat.ltb_spec MAX_TRACKED_CLIENT_ID_LEN (str_len id')); [done|].
  case_bool_decide; [done|]. destruct (Nat.leb_spec max (size s)); [done|].
  intros [->%elem_of_singleton|?]%elem_of_union; [lia|done].
Qed.
Lemma logged_settled log id : id ∈ log.*1 -> settled (tracked max log) id.
Proof.
  induction log as [|[id' v] log IH] using rev_ind; [by intros ?%elem_of_nil|].
  rewrite tracked_snoc, fmap_app. intros [Hin|Hin]%elem_of_app; [by apply settled_track, IH|].
  apply list_elem_of_singleton in Hin as ->. apply track_settles.
Qed.
Lemma place_stable log e id : id ∈ log.*1 -> place max (log ++ [e]) id = place max log id.
Proof.
  intros Hin%logged_settled. destruct e as [id' v]. unfold place. rewrite tracked_snoc.
  apply (settled_track _ _ id') in Hin as [_ Hin]. by rewrite (bool_decide_ext _ _ Hin).
Qed.

Lemma counted_snoc log id v v' p :
  counted max (log ++ [(id, v)]) v' p =
  counted max log v' p + (if (v == v') && (place max (log ++ [(id, v)]) id == p) then 1 else 0).
Proof.
  unfold counted at 1. rewrite tally_app, tally_one. f_equal. apply tally_ext. intros [id' v''] Hin.
  cbn. rewrite place_stable; [done|]. by apply (list_elem_of_fmap_2' _ _ (id', v'')).
Qed.
Lemma place_snoc_verdict log id v v' : place max (log ++ [(id, v)]) = place max (log ++ [(id, v')]).
Proof. unfold place. by rewrite !tracked_snoc. Qed.

(** The table's counters are those of its log. *)
Definition table_rel (ceiling : Place -> Z) (cost : Z) (log : TableLog) (t : Table) : Prop :=
  dom (fst t) = tracked max log /\
  forall p, budget_at p t = {| cb_attempts := counted max log VAllowed p;
                               cb_failures := Z.min (ceiling p) (cost * counted max log VFailed p) |}.

Context (capacity ceiling : Place -> Z) (cost : Z).
Hypothesis ceiling_ok : forall p, is_u64 (ceiling p).
Hypothesis cost_ok : 0 <= cost.

Lemma tracked_bounds log :
  (size (tracked max log) <= max)%nat /\
  forall id, id ∈ tracked max log -> (str_len id <= MAX_TRACKED_CLIENT_ID_LEN)%nat.
Proof.
  induction log as [|[id v] log [IHs IHl]] using rev_ind; [split; [apply Nat.le_0_l|unfold tracked; set_solver]|].
  rewrite tracked_snoc. unfold track.
  destruct (Nat.ltb_spec MAX_TRACKED_CLIENT_ID_LEN (str_len id)); [done|].
  case_bool_decide; [done|]. destruct (Nat.leb_spec max (size (tracked max log))); [done|].
  split; [rewrite size_union, size_singleton; [lia|set_solver]|].
  intros id' [->%elem_of_singleton|?]%elem_of_union; auto.
Qed.

Lemma counter_rel log t id v : table_rel ceiling cost log t ->
  fst (counter id max t) = place max (log ++ [(id, v)]) id /\
  dom (fst (snd (counter id max t))) = tracked max (log ++ [(id, v)]) /\
  (forall q, budget_at q (snd (counter id max t)) = budget_at q t).
Proof.
  intros [Hdom _]. unfold counter, place. rewrite tracked_snoc. unfold track. rewrite <- Hdom.
  assert (Hin : is_some (fst t !! id) = bool_decide (id ∈ dom (fst t))).
  { destruct (fst t !! id) eqn:Ht; cbn; symmetry.
    - by apply bool_decide_eq_true, elem_of_dom.
    - by apply bool_decide_eq_false, not_elem_of_dom. }
  rewrite Hin, <- size_dom. destruct (Nat.ltb_spec MAX_TRACKED_CLIENT_ID_LEN (str_len id)) as [Hl|Hl].
  { cbn. split; [|done]. rewrite bool_decide_eq_false_2; [done|]. rewrite Hdom. intros ?%tracked_bounds. lia. }
  destruct (bool_decide_reflect (id ∈ dom (fst t))) as [Hi|Hi]; [by rewrite bool_decide_eq_true_2|].
  destruct (Nat.leb_spec max (size (dom (fst t)))); [by rewrite bool_decide_eq_false_2|].
  rewrite bool_decide_eq_true_2 by set_solver. cbn. split_and!; [done|by rewrite dom_insert_L|].
  intros [i|]; [|done]. cbn. destruct (decide (i = id)) as [->|]; [|by rewrite lookup_insert_ne].
  rewrite lookup_insert_eq. by apply not_elem_of_dom in Hi as ->.
Qed.

Lemma budget_at_set p q b t : budget_at q (set_budget_at p b t) = if p == q then b else budget_at q t.
Proof.
  destruct p as [i|], q as [j|]; cbn; try done.
  destruct (decide (i = j)) as [->|]; [rewrite lookup_insert_eq|rewrite lookup_insert_ne by done];
    case_bool_decide; try done; exfalso; congruence.
Qed.
Lemma dom_set_budget_at p b t : (forall i, p = Some i -> i ∈ dom (fst t)) ->
  dom (fst (set_budget_at p b t)) = dom (fst t).
Proof. destruct p as [i|]; [|done]. intros Hi. cbn. rewrite dom_insert_L. specialize (Hi i eq_refl). set_solver. Qed.

Lemma place_Some log id i : place max log id = Some i -> i ∈ tracked max log.
Proof. unfold place. case_bool_decide; [by intros [= <-]|done]. Qed.

(** Writing a budget at the place of [id] brings the table to the log with one more entry. *)
Lemma write_rel log t id v b : table_rel ceiling cost log t ->
  let p := place max (log ++ [(id, v)]) id in
  b = {| cb_attempts := counted max (log ++ [(id, v)]) VAllowed p;
         cb_failures := Z.min (ceiling p) (cost * counted max (log ++ [(id, v)]) VFailed p) |} ->
  table_rel ceiling cost (log ++ [(id, v)]) (set_budget_at p b (snd (counter id max t))).
Proof.
  intros Hrel p ->. pose proof (counter_rel log t id v Hrel) as (_ & Hdom & Hb). destruct Hrel as [_ Hrel]. split.
  - rewrite dom_set_budget_at; [done|]. intros i Hi. rewrite Hdom. by eapply place_Some.
  - intros q. rewrite budget_at_set. case_bool_decide as Hq; [by subst q|].
    rewrite Hb, Hrel, !counted_snoc. fold p. rewrite (bool_decide_eq_false_2 (p = q)) by done.
    by rewrite !andb_false_r, !Z.add_0_r.
Qed.

Lemma charge_rel log t id : table_rel ceiling cost log t ->
  let p := fst (counter id max t) in
  let (d, t') := charge_at p (capacity p) (snd (counter id max t)) in
  d = (if table_allows max capacity ceiling cost log id then Allow else Deny) /\
  table_rel ceiling cost (log ++ [(id, if table_allows max capacity ceiling cost log id then VAllowed else VRefused)]) t'.
Proof.
  intros Hrel p. destruct (counter_rel log t id VRefused Hrel) as (Hp & _ & Hb).
  pose proof (proj2 Hrel p) as Hbud. rewrite <- Hb in Hbud. unfold charge_at. rewrite Hbud. cbn [cb_attempts cb_failures].
  unfold table_allows. rewrite <- Hp. fold p. rewrite !counted_snoc. cbn [bool_decide decide_rel].
  rewrite !(bool_decide_eq_false_2 (VRefused = _)) by done. cbn [andb]. rewrite !Z.add_0_r.
  set (n := counted max log VAllowed p). set (f := Z.min (ceiling p) (cost * counted max log VFailed p)).
  assert (Hn : 0 <= n) by apply tally_nonneg.
  assert (Hf : 0 <= f) by (unfold f; pose proof (ceiling_ok p); assert (0 <= counted max log VFailed p) by apply tally_nonneg; unfold is_u64 in *; nia).
  unfold charge, u64_saturating_sub, ATTEMPT_COST.
  destruct (Z.leb_spec (n + 1 + f) (capacity p)); destruct (Z.gtb_spec 1 (Z.max (Z.max (capacity p - f) 0 - n) 0)); try lia.
  all: split; [done|].
  all: match goal with |- table_rel _ _ (_ ++ [(_, ?v)]) _ =>
         pose proof (write_rel log t id v) as Hw; try rewrite (place_snoc_verdict log id v VRefused) in Hw; rewrite <- Hp in Hw; fold p in Hw;
         apply Hw; [done|]; rewrite !counted_snoc; try rewrite (place_snoc_verdict log id v VRefused); rewrite <- Hp; fold p end.
  all: rewrite !(bool_decide_eq_true_2 (p = p)), !andb_true_r by done; cbn; fold n; rewrite ?Z.add_0_r; done.
Qed.

Lemma penalise_rel log t id : table_rel ceiling cost log t ->
  let p := fst (counter id max t) in
  table_rel ceiling cost (log ++ [(id, VFailed)]) (penalise_at p (ceiling p) cost (snd (counter id max t))).
Proof.
  intros Hrel p. destruct (counter_rel log t id VFailed Hrel) as (Hp & _ & Hb). fold p in Hp.
  pose proof (proj2 Hrel p) as Hbud. rewrite <- Hb in Hbud. unfold penalise_at. rewrite Hbud. cbn [cb_attempts cb_failures].
  pose proof (write_rel log t id VFailed) as Hw. rewrite <- Hp in Hw. apply Hw; [done|].
  rewrite !counted_snoc, <- Hp, !(bool_decide_eq_true_2 (p = p)), !andb_true_r by done.
  rewrite bool_decide_eq_false_2, bool_decide_eq_true_2, Z.add_0_r, Z.mul_add_distr_l by done.
  unfold penalise, u64_saturating_add. f_equal. pose proof (ceiling_ok p). unfold is_u64 in *.
  assert (0 <= counted max log VFailed p) by apply tally_nonneg. lia.
Qed.
End tables.

(** *** The whole limiter *)
Section refinement.
Context (config : RateLimitConfig) (base : Z) (Hok : config_ok config).

Lemma half_u64 z : is_u64 z -> is_u64 (z / CLIENT_AUTHENTICATION_FAILURE_CEILING_DIVISOR).
Proof.
  unfold is_u64, CLIENT_AUTHENTICATION_FAILURE_CEILING_DIVISOR. intros [? ?]. split; [by apply Z.div_pos|].
  pose proof (Z.div_le_upper_bound z 2 z). lia.
Qed.
Lemma client_ceiling_u64 p : is_u64 (client_ceiling config p).
Proof.
  apply half_u64. destruct Hok as [_ _ [Hc _] Ho _ _]. destruct p as [id|]; [|done]. cbn.
  unfold client_authentication_capacity_for. destruct (_ !! id) eqn:Hid; cbn; eauto.
Qed.

(** One counter that attempts and failures share. *)
Definition single_rel (capacity cost : Z) (a : Attempt) (log : Log) (n : Z) : Prop :=
  n = Z.min capacity (single_count log a VAllowed + cost * single_count log a VFailed).

Lemma single_count_snoc log b v a v' :
  single_count (log ++ [(b, v)]) a v' = single_count log a v' + (if (b, v) == (a, v') then 1 else 0).
Proof. unfold single_count. by rewrite tally_app, tally_one. Qed.
Lemma single_rel_other capacity cost a log n b v :
  b <> a -> single_rel capacity cost a log n -> single_rel capacity cost a (log ++ [(b, v)]) n.
Proof.
  intros Hne ->. unfold single_rel. rewrite !single_count_snoc, !(bool_decide_eq_false_2 (_ = _)) by congruence.
  by rewrite !Z.add_0_r.
Qed.

Lemma charge_single capacity cost a log n : is_u64 capacity -> 0 <= cost -> single_rel capacity cost a log n ->
  let fits := single_count log a VAllowed + 1 + cost * single_count log a VFailed <=? capacity in
  let (d, n') := charge n capacity ATTEMPT_COST in
  d = (if fits then Allow else Deny) /\
  single_rel capacity cost a (log ++ [(a, if fits then VAllowed else VRefused)]) n'.
Proof.
  intros [Hc _] Hk Hn fits. unfold single_rel in *. unfold charge, u64_saturating_sub, ATTEMPT_COST.
  assert (0 <= single_count log a VAllowed) by apply tally_nonneg.
  assert (0 <= single_count log a VFailed) by apply tally_nonneg.
  assert (0 <= cost * single_count log a VFailed) by nia.
  unfold fits. destruct (Z.leb_spec (single_count log a VAllowed + 1 + cost * single_count log a VFailed) capacity);
    destruct (Z.gtb_spec 1 (Z.max (capacity - n) 0)); try lia.
  all: split; [done|]; rewrite !single_count_snoc, ?(bool_decide_eq_true_2 (_ = _)), ?(bool_decide_eq_false_2 (_ = _)) by congruence; lia.
Qed.
Lemma penalise_single capacity cost a log n : is_u64 capacity -> 0 <= cost -> single_rel capacity cost a log n ->
  single_rel capacity cost a (log ++ [(a, VFailed)]) (penalise n capacity cost).
Proof.
  intros [Hc Hm] Hk Hn. unfold single_rel in *. unfold penalise, u64_saturating_add.
  assert (0 <= single_count log a VAllowed) by apply tally_nonneg.
  assert (0 <= single_count log a VFailed) by apply tally_nonneg.
  rewrite !single_count_snoc, (bool_decide_eq_false_2 ((a, VFailed) = (a, VAllowed))), bool_decide_eq_true_2 by congruence.
  rewrite Z.mul_add_distr_l. assert (0 <= cost * single_count log a VFailed) by nia. lia.
Qed.

Record limiter_rel (s : LogState) (w : Window) : Prop := {
  lr_index : wn_index w = ls_index s;
  lr_device : single_rel (device_user_code_capacity config) (device_user_code_failure_cost config)
                DeviceUserCodeEntry (ls_log s) (wn_device_user_code w);
  lr_registration : single_rel (client_registration_capacity config) (client_registration_failure_cost config)
                      ClientRegistration (ls_log s) (wn_registration w);
  lr_clients : table_rel (max_tracked_clients config) (client_ceiling config)
                 (client_authentication_failure_cost config) (client_log (ls_log s)) (wn_clients w, wn_overflow w);
  lr_authorization : table_rel (max_tracked_clients config) (fun _ => authorization_request_failure_ceiling config)
                       (authorization_request_failure_cost config) (authorization_log (ls_log s))
                       (wn_authorization w, wn_authorization_overflow w);
}.

Lemma table_rel_empty ceiling cost : (forall p, is_u64 (ceiling p)) ->
  table_rel (max_tracked_clients config) ceiling cost [] (∅, no_budget).
Proof.
  intros Hc. split; [done|]. intros p. unfold counted, tally. cbn [List.filter List.length].
  replace (budget_at p (∅, no_budget)) with no_budget by (by destruct p).
  specialize (Hc p). unfold is_u64 in Hc. unfold no_budget. f_equal. lia.
Qed.
Lemma limiter_rel_empty index : limiter_rel {| ls_index := index; ls_log := [] |} (empty_window index).
Proof.
  destruct Hok as [_ [[? _] _] _ _ [Ha _] [[? _] _]].
  split; cbn; [done|unfold single_rel, single_count, tally; cbn; lia..| |]; apply table_rel_empty.
  - apply client_ceiling_u64.
  - intros _. by apply half_u64.
Qed.
Lemma limiter_rel_roll index s w : limiter_rel s w -> limiter_rel (log_roll index s) (roll_to index w).
Proof.
  intros Hr. unfold log_roll, roll_to. rewrite (lr_index _ _ Hr). destruct (_ =? _); [done|]. apply limiter_rel_empty.
Qed.

Lemma client_log_snoc log e : client_log (log ++ [e]) =
  client_log log ++ match fst e with ClientAuthentication id => [(id, snd e)] | _ => [] end.
Proof. unfold client_log. rewrite omap_app. by destruct e as [[] ?]. Qed.
Lemma authorization_log_snoc log e : authorization_log (log ++ [e]) =
  authorization_log log ++ match fst e with AuthorizationRequestAttempt id => [(id, snd e)] | _ => [] end.
Proof. unfold authorization_log. rewrite omap_app. by destruct e as [[] ?]. Qed.

(** What an entry does not concern stays as it is. *)
Ltac unrelated := first
  [ done
  | apply single_rel_other; [done|assumption]
  | rewrite ?client_log_snoc, ?authorization_log_snoc; cbn [fst]; rewrite app_nil_r; assumption ].

Lemma counter_place id t : fst (counter id (max_tracked_clients config) t) = Some id \/
  fst (counter id (max_tracked_clients config) t) = None.
Proof. unfold counter. repeat case_match; auto. Qed.
Lemma client_capacity_place id t : let p := fst (counter id (max_tracked_clients config) t) in
  (if is_some p then client_authentication_capacity_for config id else client_authentication_capacity config)
    = client_capacity config p /\
  (if is_some p then client_authentication_failure_ceiling_for config id else client_authentication_failure_ceiling config)
    = client_ceiling config p.
Proof. intros p. destruct (counter_place id t) as [Hp|Hp]; fold p in Hp; by rewrite Hp. Qed.

Ltac fields := cbn [snd with_clients with_authorization with_device with_registration wn_index wn_device_user_code
  wn_registration wn_clients wn_overflow wn_authorization wn_authorization_overflow ls_log ls_index log_add].

Lemma check_refines a instant s w : limiter_rel s w ->
  fst (check_at config base a instant w) = fst (log_check config base a instant s) /\
  limiter_rel (snd (log_check config base a instant s)) (snd (check_at config base a instant w)).
Proof.
  intros Hr%(limiter_rel_roll (window_index config base instant)). unfold check_at, log_check.
  set (w0 := roll_to _ w) in *. set (s0 := log_roll _ s) in *.
  destruct Hr as [Hi Hd Hg Hc Ha]. destruct Hok as [_ [Hdc [Hdk _]] [Hcc [Hck _]] _ [Hac [Hak _]] [Hgc [Hgk _]]].
  assert (Hf : forall (b : bool) e e', (if b then (Allow, log_add (a, e) s0) else (Deny, log_add (a, e') s0)) =
    (if b then Allow else Deny, log_add (a, if b then e else e') s0)) by (by intros []).
  rewrite Hf. clear Hf. destruct a as [id| |id|]; cbn [log_allows].
  - pose proof (charge_rel _ (client_capacity config) _ _ client_ceiling_u64 Hck _ _ id Hc) as Hx.
    pose proof (client_capacity_place id (wn_clients w0, wn_overflow w0)) as [Hcap _]. unfold client_counter.
    destruct (counter id _ _) as [p t]. cbn [fst snd] in Hx, Hcap. rewrite Hcap.
    destruct (charge_at p _ t) as [d [m o]]. destruct Hx as [-> Hx]. split; [done|].
    split; fields; try unrelated. by rewrite client_log_snoc.
  - pose proof (charge_single _ _ _ _ _ Hdc Hdk Hd) as Hx. destruct (charge _ _ _) as [d n].
    destruct Hx as [-> Hx]. split; [done|]. split; fields; unrelated.
  - pose proof (charge_rel _ (fun _ => authorization_request_capacity config) _ _ (fun _ => half_u64 _ Hac) Hak _ _ id Ha) as Hx. unfold authorization_counter.
    destruct (counter id _ _) as [p t]. cbn [fst snd] in Hx.
    destruct (charge_at p _ t) as [d [m o]]. destruct Hx as [-> Hx]. split; [done|].
    split; fields; try unrelated. by rewrite authorization_log_snoc.
  - pose proof (charge_single _ _ _ _ _ Hgc Hgk Hg) as Hx. destruct (charge _ _ _) as [d n].
    destruct Hx as [-> Hx]. split; [done|]. split; fields; unrelated.
Qed.

Lemma record_refines a o instant s w : limiter_rel s w ->
  limiter_rel (log_record config base a o instant s) (record_at config base a o instant w).
Proof.
  destruct o; [done|]. intros Hr%(limiter_rel_roll (window_index config base instant)). unfold record_at, log_record.
  set (w0 := roll_to _ w) in *. set (s0 := log_roll _ s) in *.
  destruct Hr as [Hi Hd Hg Hc Ha]. destruct Hok as [_ [Hdc [Hdk _]] [Hcc [Hck _]] _ [Hac [Hak _]] [Hgc [Hgk _]]].
  destruct a as [id| |id|].
  - pose proof (penalise_rel _ _ _ client_ceiling_u64 Hck _ _ id Hc) as Hx.
    pose proof (client_capacity_place id (wn_clients w0, wn_overflow w0)) as [_ Hcap]. unfold client_counter.
    destruct (counter id _ _) as [p t]. cbn [fst snd] in Hx, Hcap. rewrite Hcap.
    destruct (penalise_at p _ _ t) as [m o]. split; fields; try unrelated. by rewrite client_log_snoc.
  - pose proof (penalise_single _ _ _ _ _ Hdc Hdk Hd) as Hx. split; fields; unrelated.
  - pose proof (penalise_rel _ _ _ (fun _ => half_u64 _ Hac) Hak _ _ id Ha) as Hx.
    unfold authorization_counter. destruct (counter id _ _) as [p t]. cbn [fst snd] in Hx.
    destruct (penalise_at p _ _ t) as [m o]. split; fields; try unrelated. by rewrite authorization_log_snoc.
  - pose proof (penalise_single _ _ _ _ _ Hgc Hgk Hg) as Hx. split; fields; unrelated.
Qed.

Lemma calls_refine calls : forall s w, limiter_rel s w ->
  fst (run_calls config base calls w) = fst (log_calls config base calls s) /\
  limiter_rel (snd (log_calls config base calls s)) (snd (run_calls config base calls w)).
Proof.
  induction calls as [|[a t|a o t] calls IH]; intros s w Hr; cbn [run_calls log_calls]; [done| |by apply IH, record_refines].
  destruct (check_refines a t s w Hr) as [Hd Hr'].
  destruct (check_at config base a t w) as [d w1], (log_check config base a t s) as [d' s1]. cbn [fst snd] in *.
  destruct (IH _ _ Hr') as [Hds Hr''].
  destruct (run_calls config base calls w1), (log_calls config base calls s1). cbn [fst snd] in *. by subst.
Qed.

(** C34. The counters decide as the log does.  In every sequence of calls of [check] and
    [record], at any instants, in any order, the limiter with its counters, its bounded
    table, its overflow and its saturating arithmetic answers exactly as the limiter that
    keeps the whole log of the current window: an attempt is allowed when the attempts
    allowed so far on its counter, this one, and the weight of the recorded failures
    (capped at half the capacity for a client's counter) fit in the capacity. *)
Theorem limiter_refines_log calls :
  fst (run_calls config base calls (empty_window 0)) =
  fst (log_calls config base calls {| ls_index := 0; ls_log := [] |}).
Proof. apply calls_refine, limiter_rel_empty. Qed.
End refinement.

(** ** Bounds *)
Section bounds.
Context (config : RateLimitConfig) (base : Z) (Hok : config_ok config).

Definition budget_ok (capacity ceiling : Z) (b : ClientBudget) : Prop :=
  0 <= cb_attempts b <= capacity /\ 0 <= cb_failures b <= ceiling.
Definition table_ok (capacity ceiling : Place -> Z) (t : Table) : Prop :=
  (size (fst t) <= max_tracked_clients config)%nat /\
  (forall id b, fst t !! id = Some b ->
     (str_len id <= MAX_TRACKED_CLIENT_ID_LEN)%nat /\ budget_ok (capacity (Some id)) (ceiling (Some id)) b) /\
  budget_ok (capacity None) (ceiling None) (snd t).
Definition authorization_ceiling (p : Place) : Z := authorization_request_failure_ceiling config.

Record window_ok (w : Window) : Prop := {
  wo_device : 0 <= wn_device_user_code w <= device_user_code_capacity config;
  wo_registration : 0 <= wn_registration w <= client_registration_capacity config;
  wo_clients : table_ok (client_capacity config) (client_ceiling config) (wn_clients w, wn_overflow w);
  wo_authorization : table_ok (fun _ => authorization_request_capacity config) authorization_ceiling
                       (wn_authorization w, wn_authorization_overflow w);
}.

Lemma charge_ok n capacity : 0 <= n <= capacity -> 0 <= snd (charge n capacity ATTEMPT_COST) <= capacity.
Proof.
  unfold charge, u64_saturating_sub, ATTEMPT_COST. intros ?.
  destruct (Z.gtb_spec 1 (Z.max (capacity - n) 0)); cbn; lia.
Qed.
Lemma penalise_ok n capacity cost : 0 <= n <= capacity -> 0 <= cost -> 0 <= penalise n capacity cost <= capacity.
Proof. unfold penalise, u64_saturating_add, U64_MAX. lia. Qed.

Section table.
Context (capacity ceiling : Place -> Z).
Hypothesis nonneg : forall p, 0 <= capacity p /\ 0 <= ceiling p.

Lemma no_budget_ok p : budget_ok (capacity p) (ceiling p) no_budget.
Proof. unfold budget_ok; cbn. specialize (nonneg p). lia. Qed.

Lemma counter_ok id t : table_ok capacity ceiling t ->
  let '(p, t') := counter id (max_tracked_clients config) t in
  table_ok capacity ceiling t' /\ budget_ok (capacity p) (ceiling p) (budget_at p t') /\
  (forall i, p = Some i -> is_Some (fst t' !! i)).
Proof.
  intros Ht. pose proof Ht as (Hs & Hm & Ho). unfold counter.
  destruct (Nat.ltb_spec MAX_TRACKED_CLIENT_ID_LEN (str_len id)); [done|].
  destruct (fst t !! id) as [b|] eqn:Hid; cbn [is_some].
  { split_and!; [done| |intros ? [= <-]; by rewrite Hid]. cbn. rewrite Hid. by apply Hm. }
  destruct (Nat.leb_spec (max_tracked_clients config) (size (fst t))); [done|].
  split_and!; cbn.
  - split_and!; cbn; [rewrite map_size_insert_None by done; lia| |done].
    intros i b [[<- <-]|[? ?]]%lookup_insert_Some; [|by apply Hm]. split; [done|apply no_budget_ok].
  - rewrite lookup_insert_eq. apply no_budget_ok.
  - intros ? [= <-]. by rewrite lookup_insert_eq.
Qed.

Lemma set_budget_ok p b t : table_ok capacity ceiling t -> (forall i, p = Some i -> is_Some (fst t !! i)) ->
  budget_ok (capacity p) (ceiling p) b -> table_ok capacity ceiling (set_budget_at p b t).
Proof.
  intros (Hs & Hm & Ho) Hp Hb. destruct p as [i|]; [|done]. destruct (Hp i eq_refl) as [b0 Hb0].
  split_and!; cbn; [by rewrite map_size_insert_Some by eauto| |done].
  intros j b' [[<- <-]|[? ?]]%lookup_insert_Some; [|by apply Hm]. split; [by apply (Hm i b0)|done].
Qed.

Lemma charge_at_ok id t : table_ok capacity ceiling t ->
  let '(p, t') := counter id (max_tracked_clients config) t in
  table_ok capacity ceiling (snd (charge_at p (capacity p) t')).
Proof.
  intros Ht%(counter_ok id). destruct (counter id _ t) as [p t']. destruct Ht as (Ht & Hb & Hp).
  unfold charge_at. destruct Hb as [Ha Hf]. set (h := u64_saturating_sub _ _).
  assert (Hc : 0 <= snd (charge (cb_attempts (budget_at p t')) h ATTEMPT_COST) <= capacity p).
  { unfold charge, h, u64_saturating_sub, ATTEMPT_COST. destruct (Z.gtb_spec 1 (Z.max (Z.max (capacity p - cb_failures (budget_at p t')) 0 - cb_attempts (budget_at p t')) 0)); cbn; lia. }
  destruct (charge _ _ _) as [d n]. apply set_budget_ok; [done|done|]. by split.
Qed.
Lemma penalise_at_ok id t cost : 0 <= cost -> table_ok capacity ceiling t ->
  let '(p, t') := counter id (max_tracked_clients config) t in
  table_ok capacity ceiling (penalise_at p (ceiling p) cost t').
Proof.
  intros Hk Ht%(counter_ok id). destruct (counter id _ t) as [p t']. destruct Ht as (Ht & [Ha Hf] & Hp).
  apply set_budget_ok; [done|done|]. split; [done|]. by apply penalise_ok.
Qed.
End table.

Lemma client_nonneg p : 0 <= client_capacity config p /\ 0 <= client_ceiling config p.
Proof.
  split; [|apply (client_ceiling_u64 config Hok p)]. destruct Hok as [_ _ [[? _] _] Ho _ _]. destruct p as [id|]; [|done].
  cbn. unfold client_authentication_capacity_for. destruct (_ !! id) as [v|] eqn:Hid; cbn; [|done].
  by apply Ho in Hid as [? _].
Qed.
Lemma authorization_nonneg (p : Place) :
  0 <= authorization_request_capacity config /\ 0 <= authorization_ceiling p.
Proof. destruct Hok as [_ _ _ _ [Ha _] _]. split; [apply Ha|apply (half_u64 _ Ha)]. Qed.

Lemma window_ok_empty index : window_ok (empty_window index).
Proof.
  destruct Hok as [_ [[? _] _] _ _ _ [[? _] _]]. split; cbn; [lia|lia|..]; split_and!; cbn; try apply Nat.le_0_l.
  all: try (intros ? ? Hb; by rewrite lookup_empty in Hb).
  all: unfold budget_ok; cbn; pose proof (client_nonneg None); pose proof (authorization_nonneg None); cbn in *; lia.
Qed.
Lemma window_ok_roll index w : window_ok w -> window_ok (roll_to index w).
Proof. unfold roll_to. destruct (_ =? _); [done|]. intros _. apply window_ok_empty. Qed.

Lemma check_ok a instant w : window_ok w -> window_ok (snd (check_at config base a instant w)).
Proof.
  intros [Hd Hg Hc Ha]%(window_ok_roll (window_index config base instant)). unfold check_at. set (w0 := roll_to _ w) in *.
  destruct a as [id| |id|].
  - pose proof (charge_at_ok _ _ client_nonneg id _ Hc) as Hx.
    pose proof (client_capacity_place config id (wn_clients w0, wn_overflow w0)) as [Hcap _]. unfold client_counter.
    destruct (counter id _ _) as [p t]. cbn [fst] in Hcap. rewrite Hcap. destruct (charge_at p _ t) as [d [m o]]. by split.
  - pose proof (charge_ok _ _ Hd) as Hx. destruct (charge _ _ _). by split.
  - pose proof (charge_at_ok _ _ authorization_nonneg id _ Ha) as Hx. unfold authorization_counter.
    destruct (counter id _ _) as [p t]. destruct (charge_at p _ t) as [d [m o]]. by split.
  - pose proof (charge_ok _ _ Hg) as Hx. destruct (charge _ _ _). by split.
Qed.
Lemma record_ok a o instant w : window_ok w -> window_ok (record_at config base a o instant w).
Proof.
  destruct o; [done|]. intros [Hd Hg Hc Ha]%(window_ok_roll (window_index config base instant)). unfold record_at.
  set (w0 := roll_to _ w) in *. destruct Hok as [_ [_ [Hdk _]] [_ [Hck _]] _ [_ [Hak _]] [_ [Hgk _]]].
  destruct a as [id| |id|].
  - pose proof (penalise_at_ok _ _ client_nonneg id _ _ Hck Hc) as Hx.
    pose proof (client_capacity_place config id (wn_clients w0, wn_overflow w0)) as [_ Hcap]. unfold client_counter.
    destruct (counter id _ _) as [p t]. cbn [fst] in Hcap. rewrite Hcap. destruct (penalise_at p _ _ t) as [m o]. by split.
  - split; [by apply penalise_ok|done..].
  - pose proof (penalise_at_ok _ _ authorization_nonneg id _ _ Hak Ha) as Hx. unfold authorization_counter.
    destruct (counter id _ _) as [p t]. destruct (penalise_at p _ _ t) as [m o]. by split.
  - split; [done|by apply penalise_ok|done..].
Qed.
Lemma calls_ok calls : forall w, window_ok w -> window_ok (snd (run_calls config base calls w)).
Proof.
  induction calls as [|[a t|a o t] calls IH]; intros w Hw; cbn [run_calls]; [done| |by apply IH, record_ok].
  pose proof (check_ok a t w Hw) as H1. destruct (check_at _ _ _ _ _) as [d w1]. specialize (IH _ H1). cbn [snd] in IH.
  by destruct (run_calls _ _ calls w1).
Qed.

(** The limiter's memory and counters are bounded.  After any calls at any instants
    each of the two tables holds at most [max_tracked_clients] clients, none with an
    identifier longer than 128 bytes; every counter is within its capacity, and what
    failures have spent of a client's budget within half of it.  No addition of the code
    overflows: a counter within its capacity is a [u64]. *)
Theorem limiter_bounded calls : window_ok (snd (run_calls config base calls (empty_window 0))).
Proof. apply calls_ok, window_ok_empty. Qed.

(** The attempts a client's counter has in the current window. *)
Definition attempts_of (client_id : string) (instant : Z) (w : Window) : Z :=
  let (p, t) := client_counter client_id (max_tracked_clients config) (roll_to (window_index config base instant) w) in
  cb_attempts (budget_at p t).
Definition is_tracked (client_id : string) (instant : Z) (w : Window) : bool :=
  is_some (fst (client_counter client_id (max_tracked_clients config) (roll_to (window_index config base instant) w))).

(** C35. Failures cannot lock a client out.  Whatever calls came before, and however many
    of them recorded failures for it, a tracked client that has used less than the
    reserved half of its capacity in the current window is allowed. *)
Theorem failures_cannot_lock_out calls client_id instant :
  let w := snd (run_calls config base calls (empty_window 0)) in
  let capacity := client_authentication_capacity_for config client_id in
  is_tracked client_id instant w = true ->
  attempts_of client_id instant w < capacity - capacity / CLIENT_AUTHENTICATION_FAILURE_CEILING_DIVISOR ->
  fst (check_at config base (ClientAuthentication client_id) instant w) = Allow.
Proof.
  intros w capacity. subst capacity. unfold is_tracked, attempts_of, check_at. set (w0 := roll_to _ w).
  assert (Hw : window_ok w0) by apply window_ok_roll, limiter_bounded. destruct Hw as [_ _ Hc _].
  pose proof (counter_ok _ _ client_nonneg client_id _ Hc) as Hx.
  pose proof (client_capacity_place config client_id (wn_clients w0, wn_overflow w0)) as [Hcap Hceil].
  unfold client_counter. destruct (counter client_id _ _) as [p t]. cbn [fst] in *. intros Hp Hlt.
  rewrite Hp in *. destruct Hx as (_ & [Ha Hf] & _). rewrite <- Hcap, <- Hceil in *.
  unfold client_authentication_failure_ceiling_for in Hf.
  set (capacity := client_authentication_capacity_for config client_id) in *.
  unfold charge_at, charge, u64_saturating_sub, ATTEMPT_COST.
  destruct (Z.gtb_spec 1 (Z.max (Z.max (capacity - cb_failures (budget_at p t)) 0 - cb_attempts (budget_at p t)) 0)); [|done].
  lia.
Qed.

(** ** Guessing user codes

    One guess as the verification page makes it: ask, look the code up, record the miss. *)
Definition guess (instant : Z) (w : Window) : RateLimitDecision * Window :=
  let (d, w) := check_at config base DeviceUserCodeEntry instant w in
  match d with
  | Allow => (Allow, record_at config base DeviceUserCodeEntry Failed instant w)
  | Deny => (Deny, w)
  end.
Fixpoint guesses (instants : list Z) (w : Window) : nat * Window :=
  match instants with
  | [] => (0%nat, w)
  | t :: rest =>
      let (d, w) := guess t w in
      let (n, w) := guesses rest w in
      ((if d == Allow then S n else n), w)
  end.

Lemma roll_same index w : wn_index w = index -> roll_to index w = w.
Proof. unfold roll_to. intros ->. by rewrite Z.eqb_refl. Qed.

Lemma guess_device i t w : window_index config base t = i -> wn_index w = i -> window_ok w ->
  let c := wn_device_user_code w in let capacity := device_user_code_capacity config in
  let cost := device_user_code_failure_cost config in
  wn_index (snd (guess t w)) = i /\ window_ok (snd (guess t w)) /\
  (c < capacity -> fst (guess t w) = Allow /\ wn_device_user_code (snd (guess t w)) = Z.min (c + 1 + cost) capacity) /\
  (c = capacity -> fst (guess t w) = Deny /\ wn_device_user_code (snd (guess t w)) = c).
Proof.
  intros Ht Hi Hw c capacity cost. subst capacity cost. pose proof (check_ok DeviceUserCodeEntry t w Hw) as H1. unfold guess.
  assert (Hd : check_at config base DeviceUserCodeEntry t w =
    (if c <? device_user_code_capacity config then (Allow, with_device (c + 1) w) else (Deny, with_device c w))).
  { unfold check_at. rewrite Ht, roll_same by done. fold c. unfold charge, u64_saturating_sub, ATTEMPT_COST.
    destruct (Z.gtb_spec 1 (Z.max (device_user_code_capacity config - c) 0)), (Z.ltb_spec c (device_user_code_capacity config));
      try lia; done. }
  rewrite Hd in *. destruct (Z.ltb_spec c (device_user_code_capacity config)) as [Hlt|Hge]; cbn [fst snd].
  - pose proof (record_ok DeviceUserCodeEntry Failed t _ H1) as H2. cbn [snd] in H2. unfold record_at in *.
    rewrite Ht, roll_same in * by done. destruct Hok as [_ [[_ Hm] [Hk Hk']] _ _ _ _].
    split_and!; [done|done| |lia]. intros _. split; [done|]. cbn. unfold penalise, u64_saturating_add.
    unfold is_u64 in *. lia.
  - split_and!; [done|done|lia|done].
Qed.

(** Wrong user codes are bounded.  Of any number of wrong guesses made one after the
    other in one window, exactly as many are let through as it takes to spend the capacity
    at one attempt and one failure each, rounded up: twenty at the default configuration. *)
Theorem sequential_guesses_bounded i instants :
  Forall (fun t => window_index config base t = i) instants ->
  let capacity := device_user_code_capacity config in let cost := device_user_code_failure_cost config in
  Z.of_nat (fst (guesses instants (empty_window i))) =
    Z.min (Z.of_nat (List.length instants)) ((capacity + cost) / (1 + cost)).
Proof.
  intros Hall. cbv zeta. set (capacity := device_user_code_capacity config). set (cost := device_user_code_failure_cost config).
  assert (Hk : 0 <= cost) by (destruct Hok as [_ [_ [? _]] _ _ _ _]; done).
  enough (Hgen : forall w, wn_index w = i -> window_ok w ->
    Z.of_nat (fst (guesses instants w)) =
      Z.min (Z.of_nat (List.length instants)) ((capacity - wn_device_user_code w + cost) / (1 + cost))).
  { rewrite Hgen; [|done|apply window_ok_empty]. cbn. by rewrite Z.sub_0_r. }
  induction Hall as [|t instants Ht Hall IH]; intros w Hi Hw; cbn [guesses fst List.length].
  - destruct (wo_device _ Hw) as [_ ?]. fold capacity in H. rewrite Z.min_l; [done|]. apply Z.div_pos; lia.
  - destruct (guess_device i t w Ht Hi Hw) as (Hi' & Hw' & Hlt & Heq). cbv zeta in Hlt, Heq. fold capacity cost in Hlt, Heq.
    specialize (IH _ Hi' Hw'). destruct (guess t w) as [d w']. cbn [fst snd] in *.
    destruct (guesses instants w') as [n w2]. cbn [fst] in *.
    destruct (wo_device _ Hw) as [H0 H1]. fold capacity in H1. set (c := wn_device_user_code w) in *.
    destruct (decide (c < capacity)) as [Hc|Hc].
    + destruct (Hlt Hc) as [-> Hc']. rewrite Hc' in IH. rewrite bool_decide_eq_true_2 by done.
      assert (Hdiv : (capacity - c + cost) / (1 + cost) = (capacity - Z.min (c + 1 + cost) capacity + cost) / (1 + cost) + 1).
      { destruct (Z.le_ge_cases (c + 1 + cost) capacity).
        - rewrite Z.min_l by lia. replace (capacity - c + cost) with (capacity - (c + 1 + cost) + cost + 1 * (1 + cost)) by ring.
          rewrite Z.div_add by lia. lia.
        - rewrite Z.min_r by lia. replace (capacity - capacity + cost) with cost by ring. rewrite (Z.div_small cost) by lia.
          symmetry. apply (Z.div_unique _ _ _ (capacity - c - 1)); lia. }
      rewrite Hdiv. lia.
    + destruct (Heq ltac:(lia)) as [-> Hc']. rewrite Hc' in IH. rewrite bool_decide_eq_false_2 by done.
      replace (capacity - c + cost) with cost in * by lia. rewrite (Z.div_small cost) in * by lia. lia.
Qed.

(** The bound is on guesses made one at a time.  When the checks of several guesses
    come before the first of their misses is recorded, as they do when requests run beside
    each other, the window lets the whole capacity of wrong codes through. *)
Theorem interleaved_guesses_exceed n t :
  Z.of_nat n <= device_user_code_capacity config ->
  fst (run_calls config base (repeat (CheckCall DeviceUserCodeEntry t) n ++
         repeat (RecordCall DeviceUserCodeEntry Failed t) n) (empty_window (window_index config base t))) = repeat Allow n.
Proof.
  intros Hn. set (i := window_index config base t).
  assert (Hrec : forall m w, fst (run_calls config base (repeat (RecordCall DeviceUserCodeEntry Failed t) m) w) = [])
    by (intros m; induction m as [|m IH]; intros w; [done|apply IH]).
  enough (Hgen : forall k w, wn_index w = i -> wn_device_user_code w + Z.of_nat k <= device_user_code_capacity config ->
    fst (run_calls config base (repeat (CheckCall DeviceUserCodeEntry t) k ++
         repeat (RecordCall DeviceUserCodeEntry Failed t) n) w) = repeat Allow k) by (apply Hgen; [done|cbn; lia]).
  induction k as [|k IH]; intros w Hi Hc; cbn [repeat app run_calls]; [apply Hrec|].
  unfold check_at. fold i. rewrite roll_same by done. unfold charge, u64_saturating_sub, ATTEMPT_COST.
  destruct (Z.gtb_spec 1 (Z.max (device_user_code_capacity config - wn_device_user_code w) 0)); [lia|].
  specialize (IH (with_device (wn_device_user_code w + 1) w) Hi ltac:(cbn; lia)).
  destruct (run_calls _ _ _ _) as [ds w']. cbn [fst] in *. by rewrite IH.
Qed.
End bounds.

(** ** Evaluation *)
Lemma default_config_ok : config_ok default_config.
Proof.
  split; unfold is_u64, U64_MAX; cbn -[from_secs Z.pow]; try lia; [done|].
  intros id v Hv. by rewrite lookup_empty in Hv.
Qed.

Definition demo_calls : list Call :=
  [CheckCall (ClientAuthentication "app") 0; RecordCall (ClientAuthentication "app") Failed 5;
   CheckCall DeviceUserCodeEntry 7].

Lemma limiter_refines_log_witness :
  fst (run_calls default_config 0 demo_calls (empty_window 0)) = [Allow; Allow].
Proof. rewrite (limiter_refines_log default_config 0 default_config_ok demo_calls). vm_compute. reflexivity. Defined.
Lemma limiter_bounded_witness :
  (size (wn_clients (snd (run_calls default_config 0 demo_calls (empty_window 0)))) <= Z.to_nat 4096)%nat.
Proof. destruct (limiter_bounded default_config 0 default_config_ok demo_calls) as [_ _ [Hs _] _]. exact Hs. Defined.
Lemma failures_cannot_lock_out_witness :
  fst (check_at default_config 0 (ClientAuthentication "app") 9
         (snd (run_calls default_config 0 demo_calls (empty_window 0)))) = Allow.
Proof.
  apply (failures_cannot_lock_out default_config 0 default_config_ok demo_calls); vm_compute; reflexivity.
Defined.
Lemma sequential_guesses_bounded_witness :
  Z.of_nat (fst (guesses default_config 0 (repeat 0 300) (empty_window 0))) = 20.
Proof.
  rewrite (sequential_guesses_bounded default_config 0 default_config_ok 0).
  - vm_compute. reflexivity.
  - apply Forall_forall. intros t ->%list_elem_of_In%repeat_spec. vm_compute. reflexivity.
Defined.
Lemma interleaved_guesses_exceed_witness :
  fst (run_calls default_config 0 (repeat (CheckCall DeviceUserCodeEntry 0) 200 ++
         repeat (RecordCall DeviceUserCodeEntry Failed 0) 200) (empty_window 0)) = repeat Allow 200.
Proof. apply (interleaved_guesses_exceed default_config 0 200 0). vm_compute. discriminate. Defined.
