(* ===== verification/Server.v ===== *)
(** * The server under concurrency

    Every entry point of [AuthorizationServer] modelled here as one type of requests
    served by one function, the operations each of them asks of the store, and the
    theorems that hold of any number of requests in any interleaving, wherever the
    storage fails. *)
From S2P Require Import Prelude Time Codec Scope Types Store StoreFacts Effects Trace Ops Linear Rar Consent Jws.
From S2P Require Import Credentials Config ClientAuthn Issue Device Redirect Authorize Grants TokenExchange Endpoints.
From S2P Require Import Par Registration.
Local Open Scope Z_scope.

Section ops.
Context `{Crypto, Serde, Backends} (self : AuthorizationServer).

Lemma authenticate_client_ops client_id cred :
  all_ops (within [ReadOp; ReplayClaim]) (authenticate_client self client_id cred).
Proof.
  unfold authenticate_client, admit_client_authentication, classify_client_credential, secret_expired,
    authenticate_by_assertion, settle_credential_cost, dummy_verify, dummy_assertion_verify.
  ops.
Qed.

Lemma verify_dpop_inner_ops proof htm htu :
  all_ops (within [ReadOp; ReplayClaim]) (verify_dpop_inner self proof htm htu).
Proof. unfold verify_dpop_inner. ops. Qed.

Lemma verify_dpop_ops proof : all_ops (within [ReadOp; ReplayClaim]) (verify_dpop self proof).
Proof. apply verify_dpop_inner_ops. Qed.

(** An issuance that rotates a refresh token stays within its grant. *)
Definition chain_ok (i : Issuance) : Prop :=
  forall c e, is_chain i = Some c -> rc_retry c = Some e ->
    c_client_id (is_client i) = rt_client_id e /\ rc_family_id c = rt_family_id e /\
    is_subject i = rt_subject e /\ is_grant_established_at i = rt_grant_established_at e.

Lemma introspect_ops token : all_ops (within [ReadOp; TokenWrite]) (introspect token).
Proof. unfold introspect. ops. Qed.

Lemma refresh_retry_response_ops record client bound scope resources details :
  all_ops (within [ReadOp; TokenWrite])
    (refresh_retry_response self record client bound scope resources details).
Proof. unfold refresh_retry_response. ops. apply introspect_ops. Qed.

Lemma commit_refresh_retry_ops expected access next response client bound :
  same_grant_access expected access -> (forall n, next = Some n -> same_grant_refresh expected n) ->
  all_ops (within [ReadOp; TokenWrite])
    (commit_refresh_retry self expected access next response client bound).
Proof.
  intros Ha Hn. unfold commit_refresh_retry. ops; [|apply refresh_retry_response_ops].
  split; [|cbn; set_solver]. cbn. split_and!; [done..|]. intros r (n & Hr & ->)%fmap_Some.
  specialize (Hn n Hr). done.
Qed.

Lemma commit_issuance_ops access refresh :
  all_ops (within [ReadOp; TokenWrite]) (commit_issuance access refresh).
Proof. unfold commit_issuance, undo_issuance. ops. Qed.

Lemma issue_ops i : chain_ok i -> all_ops (within [ReadOp; TokenWrite]) (issue self i).
Proof.
  intros Hc. unfold issue, finish_signing. ops; [|apply commit_issuance_ops].
  destruct (is_chain i) as [c|] eqn:Hi; [|done].
  rename select (Some c ≫= rc_retry = Some _) into He. cbn in He.
  destruct (Hc c _ Hi He) as (H2 & H3 & H4 & H5).
  apply commit_refresh_retry_ops; unfold issue_family; rewrite Hi; cbn.
  - split_and!; cbn; congruence.
  - intros n Hn. unfold then_some in Hn. destruct (issues_refresh self i); simplify_eq. split_and!; cbn; done.
Qed.

Lemma revocation_window_ops ks : all_ops (within ks) (revocation_window self).
Proof. unfold revocation_window. ops. Qed.

(** ** The token endpoint *)
Definition token_kinds : list OpKind := [ReadOp; ReplayClaim; TokenWrite].

Ltac called :=
  first [ eapply within_mono; [|apply authenticate_client_ops]; set_solver
        | eapply within_mono; [|apply verify_dpop_ops]; set_solver
        | eapply within_mono; [|apply verify_dpop_inner_ops]; set_solver
        | eapply within_mono; [|apply refresh_retry_response_ops]; set_solver
        | eapply within_mono; [|apply issue_ops]; [set_solver|]
        | apply revocation_window_ops ].

Lemma client_credentials_ops client_id bound scope resource details :
  all_ops (within token_kinds) (client_credentials_token self client_id bound scope resource details).
Proof. unfold client_credentials_token. ops; called. by intros ? ?. Qed.

Lemma device_token_ops client_id bound device_code :
  all_ops (within (DeviceWrite :: token_kinds)) (device_token self client_id bound device_code).
Proof. unfold device_token. ops; called. by intros ? ?. Qed.

Lemma authorization_code_ops client_id bound code uri verifier resources details :
  all_ops (within (CodeWrite :: token_kinds))
    (authorization_code_token self client_id bound code uri verifier resources details).
Proof.
  unfold authorization_code_token, contain_replay, check_code, redeem_code, restore_code, undo_issuance.
  ops; called. by intros ? ?.
Qed.

Lemma spend_and_issue_ops client bound token record scope resource details :
  rt_client_id record = c_client_id client ->
  all_ops (within token_kinds) (spend_and_issue self client bound token record scope resource details).
Proof.
  intros Hid. unfold spend_and_issue. ops; called; intros c e [= <-] He; cbn in He; by simplify_eq.
Qed.

Lemma refresh_token_ops client_id bound token scope resources details :
  all_ops (within token_kinds) (refresh_token_grant self client_id bound token scope resources details).
Proof.
  unfold refresh_token_grant, contain_reuse, check_refresh, restore_and_refuse, restore_refresh_token.
  ops; try called.
  all: apply spend_and_issue_ops; by bools.
Qed.

(** ** The other endpoints *)
Lemma random_user_code_ops ks draws len : forall out, all_ops (within ks) (random_user_code draws len out).
Proof. induction draws as [|draws IH]; intros out; cbn [random_user_code]; ops. Qed.

Lemma unique_user_code_ops ks attempts len : ReadOp ∈ ks ->
  all_ops (within ks) (unique_user_code_loop attempts len).
Proof.
  intros Hk. induction attempts as [|n IH]; cbn [unique_user_code_loop]; ops.
  apply random_user_code_ops.
Qed.

Lemma device_authorization_ops client_id cred scope :
  all_ops (within [ReadOp; ReplayClaim; DeviceWrite]) (device_authorization self client_id cred scope).
Proof.
  unfold device_authorization, try_random_hex, unique_user_code. ops; [called|].
  apply unique_user_code_ops. set_solver.
Qed.

Lemma approve_device_ops user_code subject :
  all_ops (within [ReadOp; DeviceWrite]) (approve_device self user_code subject).
Proof. unfold approve_device, pending_grant_by_user_code, lookup_pending_grant_by_user_code. ops. Qed.

Lemma deny_device_ops user_code : all_ops (within [ReadOp; DeviceWrite]) (deny_device self user_code).
Proof. unfold deny_device, pending_grant_by_user_code, lookup_pending_grant_by_user_code. ops. Qed.

Lemma validate_direct_ops request :
  all_ops (within [ReadOp]) (validate_direct_authorization_request self request).
Proof. unfold validate_direct_authorization_request, validate_direct_authorization_request_inner. ops. Qed.

Lemma validate_ops request : all_ops (within [ReadOp]) (validate_authorization_request self request).
Proof. unfold validate_authorization_request. ops; apply validate_direct_ops. Qed.

Lemma issue_authorization_code_ops approval requirement authentication :
  all_ops (within [CodeWrite])
    (issue_authorization_code_with_authentication self approval requirement authentication).
Proof.
  unfold issue_authorization_code_with_authentication, issue_authorization_code_inner, try_random_hex. ops.
Qed.

Lemma introspection_ops client_id cred token :
  all_ops (within token_kinds) (introspection_response self client_id cred token).
Proof.
  unfold introspection_response. ops; [called|]. eapply within_mono; [|apply introspect_ops]. set_solver.
Qed.

Lemma revoke_ops client_id cred token hint : all_ops (within token_kinds) (revoke self client_id cred token hint).
Proof. unfold revoke, try_access, try_refresh. ops; called. Qed.

Lemma record_consent_loop_ops attempts : forall started t client_id subject scope resource authentication,
  all_ops (within [ReadOp; ConsentWrite])
    (record_consent_loop attempts started t client_id subject scope resource authentication).
Proof.
  induction attempts as [|n IH]; intros; cbn [record_consent_loop]; unfold try_random_hex; ops.
Qed.

Lemma record_consent_ops client_id subject scope resource authentication :
  all_ops (within [ReadOp; ConsentWrite]) (record_consent client_id subject scope resource authentication).
Proof. unfold record_consent. ops. apply record_consent_loop_ops. Qed.

Lemma withdraw_consent_ops consent_id :
  all_ops (within [ReadOp; ConsentWrite]) (withdraw_consent self consent_id).
Proof. unfold withdraw_consent. ops. apply revocation_window_ops. Qed.

(** ** Token exchange, pushed requests and dynamic registration *)
Lemma live_token_ops token e : all_ops (within token_kinds) (live_token token e).
Proof. unfold live_token. ops. eapply within_mono; [|apply introspect_ops]. set_solver. Qed.

Lemma exchange_token_ops request : all_ops (within token_kinds) (exchange_token self request).
Proof.
  unfold exchange_token, exchange, exchange_live, exchange_actor. ops; try apply live_token_ops; called.
  by intros ? ?.
Qed.

Lemma verified_request_object_ops ks client_id object :
  all_ops (within ks) (verified_request_object self client_id object).
Proof. unfold verified_request_object. ops. Qed.

Lemma validate_signed_ops client_id object :
  all_ops (within [ReadOp]) (validate_signed_authorization_request self client_id object).
Proof.
  unfold validate_signed_authorization_request. ops; [apply verified_request_object_ops|apply validate_direct_ops].
Qed.

Definition push_kinds : list OpKind := [ReadOp; ReplayClaim; PushedWrite].

Lemma validate_direct_push_ops request :
  all_ops (within push_kinds) (validate_direct_authorization_request self request).
Proof. eapply within_mono; [|apply validate_direct_ops]. set_solver. Qed.

Lemma pushed_parameters_ops client parameters :
  all_ops (within push_kinds) (pushed_parameters self client parameters).
Proof. unfold pushed_parameters. ops. apply verified_request_object_ops. Qed.

Lemma bind_par_dpop_ops request proof : all_ops (within push_kinds) (bind_par_dpop self request proof).
Proof. unfold bind_par_dpop. ops. called. Qed.

Lemma store_pushed_ops client_id request pushed_at :
  all_ops (within push_kinds) (store_pushed_request self client_id request pushed_at).
Proof. unfold store_pushed_request, try_random_hex. ops. apply validate_direct_push_ops. Qed.

Lemma push_ops client_id cred parameters proof :
  all_ops (within push_kinds) (pushed_authorization_request_inner self client_id cred parameters proof).
Proof.
  unfold pushed_authorization_request_inner.
  ops; [called|apply pushed_parameters_ops|apply bind_par_dpop_ops|apply store_pushed_ops].
Qed.

Lemma validate_pushed_ops client_id uri :
  all_ops (within push_kinds) (validate_pushed_authorization_request self client_id uri).
Proof. unfold validate_pushed_authorization_request. ops. apply validate_direct_push_ops. Qed.

Lemma register_dynamic_ops metadata iat :
  all_ops (within [ClientWrite]) (register_dynamic_client self metadata iat).
Proof.
  unfold register_dynamic_client, admit_registration, register_admitted_client, draw_hex, try_random_hex. ops.
Qed.

Lemma read_registration_ops client_id token :
  all_ops (within [ReadOp]) (read_registration self client_id token).
Proof. unfold read_registration. ops. apply authenticate_registration_ops. Qed.

Lemma update_registration_ops client_id token metadata :
  all_ops (within [ReadOp; ClientWrite]) (update_registration self client_id token metadata).
Proof.
  unfold update_registration. ops; [|apply updated_secret_ops].
  eapply within_mono; [|apply authenticate_registration_ops]. set_solver.
Qed.

Lemma delete_registration_ops client_id token :
  all_ops (within [ReadOp; ClientWrite]) (delete_registration self client_id token).
Proof.
  unfold delete_registration. ops; [|apply revocation_window_ops].
  eapply within_mono; [|apply authenticate_registration_ops]. set_solver.
Qed.

Lemma register_client_ops client : all_ops (within [ClientWrite]) (register_client client).
Proof. unfold register_client. ops. Qed.
End ops.

(** ** Requests *)
Inductive Request : Type :=
| RToken (request : TokenRequest) (context : TokenRequestContext)
| RDeviceAuthorization (client_id : ClientId) (cred : ClientCredential) (scope : option ScopeSet)
| RApproveDevice (user_code subject : string)
| RDenyDevice (user_code : string)
| RValidate (request : AuthorizationRequest)
| RIssueCode (approval : UserApproval) (requirement : AuthenticationRequirement)
    (authentication : option Authentication)
| RIntrospect (client_id : ClientId) (cred : ClientCredential) (token : string)
| RRevoke (client_id : ClientId) (cred : ClientCredential) (token : string) (hint : option TokenTypeHint)
| RRecordConsent (client_id : ClientId) (subject : string) (scope : ScopeSet) (resource : list string)
    (authentication : option Authentication)
| RWithdrawConsent (consent_id : string)
| RRegisterClient (client : Client)
| RExchange (request : TokenExchangeRequest)
| RPush (client_id : ClientId) (cred : ClientCredential) (parameters : list (string * string))
    (proof : option string)
| RValidatePushed (client_id request_uri : string)
| RValidateSigned (client_id request_object : string)
| RRegisterDynamic (metadata : ClientMetadata) (initial_access_token : option string)
| RReadRegistration (client_id : ClientId) (token : string)
| RUpdateRegistration (client_id : ClientId) (token : string) (metadata : ClientMetadata)
| RDeleteRegistration (client_id : ClientId) (token : string).

Inductive Reply : Type :=
| PToken (r : result TokenResponse ErrorResponse)
| PDeviceAuthorization (r : result DeviceAuthorizationResponse ErrorResponse)
| PDecision (r : result unit DeviceApprovalError)
| PValidated (r : result ValidatedAuthorizationRequest AuthorizationError)
| PCode (r : result AuthorizationResponse AuthorizationError)
| PIntrospection (r : result IntrospectionResponse ErrorResponse)
| PRevoked (r : result unit ErrorResponse)
| PConsent (r : result ConsentRecord StorageError)
| PWithdrawn (r : result Z StorageError)
| PRegistered (r : result unit StorageError)
| PExchanged (r : result ExchangedToken ErrorResponse)
| PPushed (r : result PushedAuthorizationResponse ErrorResponse)
| PInformation (r : result ClientInformation RegistrationFailure)
| PDeleted (r : result unit RegistrationFailure).

(** Every kind of request, the grants of the token endpoint apart. *)
Ltac by_request r :=
  destruct r; try match goal with request : TokenRequest |- _ => destruct request end.

Section serve.
Context `{Crypto, Serde, Backends} (self : AuthorizationServer).

Definition answer (request : Request) : prog Reply :=
  match request with
  | RToken r c => let* x := token_with_context self r c in Ret (PToken x)
  | RDeviceAuthorization c cred s => let* x := device_authorization self c cred s in Ret (PDeviceAuthorization x)
  | RApproveDevice u s => let* x := approve_device self u s in Ret (PDecision x)
  | RDenyDevice u => let* x := deny_device self u in Ret (PDecision x)
  | RValidate r => let* x := validate_authorization_request self r in Ret (PValidated x)
  | RIssueCode a q w => let* x := issue_authorization_code_with_authentication self a q w in Ret (PCode x)
  | RIntrospect c cred t => let* x := introspection_response self c cred t in Ret (PIntrospection x)
  | RRevoke c cred t h => let* x := revoke self c cred t h in Ret (PRevoked x)
  | RRecordConsent c s sc r a => let* x := record_consent c s sc r a in Ret (PConsent x)
  | RWithdrawConsent i => let* x := withdraw_consent self i in Ret (PWithdrawn x)
  | RRegisterClient c => let* x := register_client c in Ret (PRegistered x)
  | RExchange r => let* x := exchange_token self r in Ret (PExchanged x)
  | RPush c cred ps proof =>
      let* x := pushed_authorization_request_with_credential_and_proof self c cred ps proof in Ret (PPushed x)
  | RValidatePushed c uri => let* x := validate_pushed_authorization_request self c uri in Ret (PValidated x)
  | RValidateSigned c o => let* x := validate_signed_authorization_request self c o in Ret (PValidated x)
  | RRegisterDynamic m iat => let* x := register_dynamic_client self m iat in Ret (PInformation x)
  | RReadRegistration c t => let* x := read_registration self c t in Ret (PInformation x)
  | RUpdateRegistration c t m => let* x := update_registration self c t m in Ret (PInformation x)
  | RDeleteRegistration c t => let* x := delete_registration self c t in Ret (PDeleted x)
  end.

(** A request with its reply, so that a finished pool says who got what. *)
Definition serve (request : Request) : prog (Request * Reply) :=
  let* reply := answer request in Ret (request, reply).

(** What each request may touch. *)
Definition request_kinds (r : Request) : list OpKind :=
  match r with
  | RToken (TRAuthorizationCode _ _ _ _ _) _ => CodeWrite :: token_kinds
  | RToken (TRDeviceCode _ _ _) _ => DeviceWrite :: token_kinds
  | RToken _ _ | RIntrospect _ _ _ | RRevoke _ _ _ _ | RExchange _ => token_kinds
  | RDeviceAuthorization _ _ _ => [ReadOp; ReplayClaim; DeviceWrite]
  | RApproveDevice _ _ | RDenyDevice _ => [ReadOp; DeviceWrite]
  | RValidate _ | RValidateSigned _ _ | RReadRegistration _ _ => [ReadOp]
  | RIssueCode _ _ _ => [CodeWrite]
  | RRecordConsent _ _ _ _ _ | RWithdrawConsent _ => [ReadOp; ConsentWrite]
  | RRegisterClient _ | RRegisterDynamic _ _ => [ClientWrite]
  | RUpdateRegistration _ _ _ | RDeleteRegistration _ _ => [ReadOp; ClientWrite]
  | RPush _ _ _ _ | RValidatePushed _ _ => push_kinds
  end.

Lemma token_with_context_ops request context :
  all_ops (within (request_kinds (RToken request context))) (token_with_context self request context).
Proof.
  unfold token_with_context, audited, emit_refusal. ops; cbn [request_kinds].
  1: eapply within_mono; [|apply verify_dpop_ops]; destruct request; set_solver.
  - apply authorization_code_ops.
  - apply client_credentials_ops.
  - apply device_token_ops.
  - apply refresh_token_ops.
Qed.

Lemma serve_ops request : all_ops (within (request_kinds request)) (serve request).
Proof.
  unfold serve. apply all_ops_bind; [|by intros; exact I].
  destruct request; cbn [answer]; (apply all_ops_bind; [|by intros; exact I]).
  - apply token_with_context_ops.
  - apply device_authorization_ops.
  - apply approve_device_ops.
  - apply deny_device_ops.
  - apply validate_ops.
  - apply issue_authorization_code_ops.
  - apply introspection_ops.
  - apply revoke_ops.
  - apply record_consent_ops.
  - apply withdraw_consent_ops.
  - apply register_client_ops.
  - apply exchange_token_ops.
  - apply push_ops.
  - apply validate_pushed_ops.
  - apply validate_signed_ops.
  - apply register_dynamic_ops.
  - apply read_registration_ops.
  - apply update_registration_ops.
  - apply delete_registration_ops.
Qed.
End serve.

(** ** Revocation is final *)
Section concurrency.
Context `{Crypto, Serde, Backends, HashOrder} (self : AuthorizationServer) (env : Env).

Lemma step1_all_ops P {A} (p p' : prog A) w w' :
  all_ops P p -> step1 env p w = Some (p', w') -> all_ops P p'.
Proof.
  destruct p; cbn; intros Hp Hs; simplify_eq; auto. destruct (store_call env op w). simplify_eq. by apply Hp.
Qed.

Lemma run_pool_all_ops P {A} schedule : forall (pool : list (prog A)) w,
  Forall (all_ops P) pool -> Forall (all_ops P) (fst (run_pool env schedule pool w)).
Proof.
  induction schedule as [|i rest IH]; intros pool w Hp; [done|]. cbn [run_pool].
  destruct (pool !! i) as [p|] eqn:Hi; [|auto].
  destruct (step1 env p w) as [[p' w']|] eqn:Hs; [|auto].
  apply IH, Forall_insert; [done|]. eapply step1_all_ops; [|done]. by eapply Forall_lookup_1.
Qed.

Lemma serve_permitted until request :
  all_ops (fun o => coherent o /\ sweeps_before until o) (serve self request).
Proof.
  eapply all_ops_mono; [|apply serve_ops]. intros o [Hc Hk]. split; [done|].
  unfold sweeps_before. destruct o as [X op]. destruct op; try done. exfalso. cbn in Hk.
  by_request request; set_solver.
Qed.

Lemma serve_pool_permitted until requests :
  Forall (all_ops (fun o => coherent o /\ sweeps_before until o)) (map (serve self) requests).
Proof. apply Forall_forall. intros p (r & -> & _)%list_elem_of_fmap. apply serve_permitted. Qed.

(** C5. A revocation is final for the whole server.  Let any number of requests run in any
    interleaving; at any point a client is deleted, a token family is revoked or a
    consent is withdrawn; then let the requests still in flight and any number of new
    ones run on, in any interleaving, with any answers of the world and any storage
    failures: at no later point does the store hold an access token or a refresh token
    the revocation covers. *)
Theorem revocation_final_under_concurrency s1 s2 requests later w o b window :
  let (pool, w1) := run_pool env s1 (map (serve self) requests) w in
  revokes o (w_store w1) b window ->
  let w2 := snd (run_pool env s2 (pool ++ map (serve self) later)
                   (with_store (run_op o (w_store w1)) w1)) in
  (forall k t, mi_tokens (w_store w2) !! k = Some t -> ~ covered_token b (rw_recorded_at window) t) /\
  (forall k r, mi_refresh (w_store w2) !! k = Some r -> ~ covered_refresh b (rw_recorded_at window) r).
Proof.
  pose proof (run_pool_all_ops _ s1 _ w (serve_pool_permitted (rw_until window) requests)) as Hpool.
  destruct (run_pool env s1 (map (serve self) requests) w) as [pool w1]. cbn [fst] in Hpool. intros Hrev.
  apply (run_pool_invariant env (final_after b window)
    (fun o => coherent o /\ sweeps_before (rw_until window) o)).
  - intros o' g [Hc Hs]. by apply final_after_op.
  - apply Forall_app. split; [done|apply serve_pool_permitted].
  - by apply revokes_establishes.
Qed.
End concurrency.

(** ** The tables stay well-formed *)
Section tables.
Context `{Crypto, Serde, Backends, HashOrder} (self : AuthorizationServer) (env : Env).

(** C40. The tables of the store stay well-formed: whatever requests run beside each other,
    in whatever interleaving and wherever the storage fails, at every point each record is
    under its own key, and the index of user codes and the device grants agree. *)
Theorem tables_stay_well_formed schedule requests w :
  store_wf (w_store w) ->
  store_wf (w_store (snd (run_pool env schedule (map (serve self) requests) w))).
Proof.
  apply (run_pool_invariant env store_wf (fun _ => True)); [intros o g _; apply store_wf_op|].
  apply Forall_forall. intros p (r & -> & _)%list_elem_of_fmap.
  eapply all_ops_mono; [|apply serve_ops]. done.
Qed.
End tables.

(** ** Delegation chains *)
Section chains.
Context `{Crypto, Serde, Backends, HashOrder} (self : AuthorizationServer) (env : Env).

Definition chain_bounded (t : IssuedToken) : Prop := act_bounded (it_act t).
Notation writes_bounded := (all_ops (writes_access chain_bounded)).

(** A handler that touches no token writes none. *)
Lemma quiet_writes P ks {A} (p : prog A) :
  TokenWrite ∉ ks -> all_ops (within ks) p -> all_ops (writes_access P) p.
Proof. intros Hnot. apply all_ops_mono. intros [X op] [_ Hk]. by destruct op. Qed.

(** What is issued without an actor starts no chain. *)
Lemma issue_without_actor i : is_actor i = None -> writes_bounded (issue self i).
Proof. intros Hi. apply issue_writes. intros. unfold chain_bounded. cbn. by rewrite Hi. Qed.

Lemma token_writes request context : writes_bounded (token_with_context self request context).
Proof.
  unfold token_with_context, audited, emit_refusal, verify_dpop, verify_dpop_inner, authorization_code_token,
    client_credentials_token, device_token, refresh_token_grant, contain_replay, check_code, redeem_code,
    restore_code, contain_reuse, check_refresh, restore_and_refuse, restore_refresh_token, spend_and_issue,
    refresh_retry_response, introspect, undo_issuance, revocation_window.
  ops; first [apply authenticate_client_writes|by apply issue_without_actor].
Qed.

Lemma serve_writes request : writes_bounded (serve self request).
Proof.
  destruct (decide (TokenWrite ∈ request_kinds request)) as [Hk|Hk].
  2:{ eapply quiet_writes; [exact Hk|apply serve_ops]. }
  unfold serve. apply all_ops_bind; [|by intros; exact I].
  destruct request; try (exfalso; set_solver); cbn [answer]; (apply all_ops_bind; [|by intros; exact I]).
  - apply token_writes.
  - unfold introspection_response, introspect. ops. apply authenticate_client_writes.
  - unfold revoke, try_access, try_refresh, revocation_window. ops. apply authenticate_client_writes.
  - apply exchange_writes.
Qed.

(** No delegation chain outgrows its bound.  Whatever requests run beside each other, in
    whatever interleaving, whatever the world answers and wherever the storage fails: at
    every point, every access token in the store names at most [MAX_ACT_CHAIN_DEPTH]
    actors, if that held of the tokens stored at the start. *)
Theorem delegation_chains_bounded schedule requests w k t :
  every_token chain_bounded (w_store w) ->
  let w' := snd (run_pool env schedule (map (serve self) requests) w) in
  mi_tokens (w_store w') !! k = Some t ->
  forall act, it_act t = Some act -> (act_length act <= MAX_ACT_CHAIN_DEPTH)%nat.
Proof.
  intros Hw w' Hk. refine (run_pool_invariant env (every_token chain_bounded) (writes_access chain_bounded)
    schedule _ _ w _ Hw k t Hk).
  - intros o g. apply every_token_op.
  - apply Forall_forall. intros p (r & -> & _)%list_elem_of_fmap. apply serve_writes.
Qed.
End chains.

(** ** Evaluation *)
Definition demo_grant : DeviceGrant := {|
  dg_device_code := "device"; dg_user_code := "BCDF-GHJK"; dg_client_id := "app"; dg_scope := ["read"];
  dg_state := Approved "alice"; dg_created_at := from_secs 90; dg_expires_at := from_secs 1000;
  dg_interval := from_secs 5; dg_last_poll_at := None |}.
Definition assertion_client : Client := {|
  c_client_id := "app"; c_auth := ConfidentialAssertion (AKClientSecret "a-secret-of-22-letters");
  c_grant_types := [ClientCredentials]; c_redirect_uris := []; c_allowed_scopes := ["read"];
  c_default_scopes := ["read"]; c_name := None; c_registration := None |}.
Definition demo_server_store (client : Client) : MemoryInner :=
  run_ops [any (PutClient client); any (PutAuthorizationCode demo_issued_code); any (PutDeviceGrant demo_grant)]
    mi_empty.

Definition demo_context (assertion proof : option string) : TokenRequestContext := {|
  ctx_credential := {| cred_client_secret := None;
                       cred_client_assertion_type := (fun _ => Assertion.CLIENT_ASSERTION_TYPE) <$> assertion;
                       cred_client_assertion := assertion; cred_certificate := None |};
  ctx_resources := []; ctx_authorization_details := None; ctx_dpop_proof := proof |}.
Definition demo_redeem : Request :=
  RToken (TRAuthorizationCode "app" (Some "s3cret") "code" (Some "https://app/cb") (Some demo_verifier_text))
    (demo_context None None).
Definition demo_poll : Request :=
  RToken (TRDeviceCode "app" (Some "s3cret") "device") (demo_context None None).

(** Two requests taking turns. *)
Definition turns (n : nat) : list nat := concat (repeat [0; 1]%nat n).
Definition fixed_env (at_ : Z) : Env := {|
  env_clock _ := from_secs at_; env_rand := env_rand demo_env; env_check := env_check demo_env;
  env_fault := env_fault demo_env; env_sign := env_sign demo_env |}.
Definition demo_run (at_ : Z) (client : Client) (server : AuthorizationServer) (requests : list Request)
  : list (prog (Request * Reply)) :=
  fst (run_pool (fixed_env at_) (turns 40)
         (map (@serve plain_crypto assertion_serde no_backends server) requests)
         (world_of (demo_server_store client))).

(** Two redemptions, stopped half way by the deletion of their client, then run on. *)
Definition demo_interrupted : list (prog (Request * Reply)) * World :=
  run_pool (fixed_env 100) (turns 3)
    (map (@serve plain_crypto assertion_serde no_backends demo_server) [demo_redeem; demo_redeem])
    (world_of (demo_server_store demo_client)).
Definition demo_after_deletion : World :=
  snd (run_pool (fixed_env 100) (turns 40)
    (fst demo_interrupted ++ map (@serve plain_crypto assertion_serde no_backends demo_server) [])
    (with_store (run_op (any (DeleteClient "app" demo_window)) (w_store (snd demo_interrupted)))
       (snd demo_interrupted))).

Lemma revocation_final_under_concurrency_witness :
  List.length (fst demo_interrupted) = 2%nat /\
  (forall k t, mi_tokens (w_store demo_after_deletion) !! k = Some t -> ~ covered_token (BClient "app") (from_secs 20) t).
Proof.
  split; [vm_compute; reflexivity|].
  pose proof (@revocation_final_under_concurrency plain_crypto assertion_serde no_backends listing_order
    demo_server (fixed_env 100) (turns 3) (turns 40) [demo_redeem; demo_redeem] []
    (world_of (demo_server_store demo_client)) (any (DeleteClient "app" demo_window)) (BClient "app") demo_window)
    as Hfinal.
  unfold demo_after_deletion, demo_interrupted. destruct (run_pool (fixed_env 100) (turns 3) _ _) as [pool w1].
  cbn [fst snd]. apply Hfinal. done.
Defined.

(** Two exchanges with an actor, side by side, and the token one of them issued. *)
Definition demo_delegated : World :=
  snd (run_pool (fixed_env 100) (turns 40)
    (map (@serve plain_crypto assertion_serde no_backends demo_server) [RExchange demo_exchange; RExchange demo_exchange])
    (world_of demo_exchange_store)).
Definition demo_issued_name : string := Hex.encode (repeat_char (ascii_of_nat 16) 32).

Lemma no_actors k t : mi_tokens demo_exchange_store !! k = Some t -> forall act, it_act t = Some act -> False.
Proof.
  intros Hk. apply elem_of_map_to_list in Hk. revert Hk. vm_compute. intros Hk act Ha.
  repeat (apply elem_of_cons in Hk as [Hk|Hk]; [by simplify_eq|]). by apply not_elem_of_nil in Hk.
Qed.

Lemma delegation_chains_bounded_witness :
  exists k t act, mi_tokens (w_store demo_delegated) !! k = Some t /\ it_act t = Some act /\
    (act_length act <= MAX_ACT_CHAIN_DEPTH)%nat.
Proof.
  destruct (mi_tokens (w_store demo_delegated) !! demo_issued_name) as [t|] eqn:Ht; [|vm_compute in Ht; discriminate Ht].
  destruct (it_act t) as [act|] eqn:Ha.
  - exists demo_issued_name, t, act. split; [exact Ht|]. split; [exact Ha|].
    refine (@delegation_chains_bounded plain_crypto assertion_serde no_backends listing_order demo_server
      (fixed_env 100) (turns 40) [RExchange demo_exchange; RExchange demo_exchange] (world_of demo_exchange_store)
      demo_issued_name t _ Ht act Ha).
    intros k' t' Hk' a Hact. exfalso. revert k' t' Hk' a Hact. apply no_actors.
  - exfalso. vm_compute in Ht. injection Ht as <-. discriminate Ha.
Defined.

Lemma tables_stay_well_formed_witness : store_wf (w_store demo_delegated).
Proof.
  apply (@tables_stay_well_formed plain_crypto assertion_serde no_backends listing_order demo_server
    (fixed_env 100) (turns 40) [RExchange demo_exchange; RExchange demo_exchange] (world_of demo_exchange_store)).
  apply store_wf_reachable.
Defined.
