(* ===== verification/Exposure.v ===== *)
(** * What the HTTP surface exposes

    [handle] against the server's own entry points: every execution of it is a sequence of
    calls of the requests of [Server], each asked for on the authority the request carries,
    and every answer it renders is the reply to one of them. *)
From S2P Require Import Prelude Time Codec Scope Types Store StoreFacts Effects Trace Ops Linear Rar Consent Jws.
From S2P Require Import Credentials Config ClientAuthn Registration Issue Device Redirect Authorize Par Grants.
From S2P Require Import TokenExchange Endpoints Metadata Form Http Surface Routing Server.
Local Open Scope Z_scope.

(** ** Sessions: executions as calls of the server *)

(** An action that writes nothing to the store. *)
Definition quiet (act : Act) : Prop :=
  match act with
  | AStore op _ => op_kind (any op) = ReadOp
  | _ => True
  end.

Definition Calls : Type := list (Request * Reply).

Section session.
Context `{Crypto, Serde, Backends} (self : AuthorizationServer).
(** What may be asked, after the calls already answered. *)
Context (may : Calls -> Request -> Prop).

Inductive session : Calls -> Calls -> list Act -> Prop :=
| session_done pre : session pre [] []
| session_quiet pre calls act tr : quiet act -> session pre calls tr -> session pre calls (act :: tr)
| session_call pre r reply calls tr tr' :
    may pre r -> exec (answer self r) tr reply -> session (pre ++ [(r, reply)]) calls tr' ->
    session pre ((r, reply) :: calls) (tr ++ tr').

Lemma session_quiet_app pre calls tr tr' :
  Forall quiet tr -> session pre calls tr' -> session pre calls (tr ++ tr').
Proof. induction 1; [done|]. intros. cbn. constructor; auto. Qed.

Lemma exec_quiet {A} (p : prog A) tr a : all_ops (within [ReadOp]) p -> exec p tr a -> Forall quiet tr.
Proof.
  intros Hp Hex. apply Forall_forall. intros act Hin. destruct act; try exact I.
  destruct (exec_all_ops _ _ _ _ Hp Hex _ _ _ Hin) as [_ Hk]. by apply list_elem_of_singleton in Hk.
Qed.

(** [p] serves [resp]s that satisfy [ok] of the calls made before it and by it. *)
Definition serves {A} (ok : Calls -> A -> Prop) (pre : Calls) (p : prog A) : Prop :=
  forall tr a, exec p tr a -> exists calls, session pre calls tr /\ ok (pre ++ calls) a.

Section serves.
Context {A : Type} (ok : Calls -> A -> Prop).

Lemma serves_ret pre a : ok pre a -> serves ok pre (Ret a).
Proof. intros Hok tr a' [-> ->]. exists []. rewrite app_nil_r. split; [constructor|done]. Qed.

Lemma serves_quiet {X} pre (p : prog X) (f : X -> prog A) :
  all_ops (within [ReadOp]) p -> (forall x tr, exec p tr x -> serves ok pre (f x)) -> serves ok pre (bind p f).
Proof.
  intros Hp Hf tr a (tr1 & tr2 & x & -> & Hx & Ha)%exec_bind.
  destruct (Hf x tr1 Hx tr2 a Ha) as (calls & Hs & Hok). exists calls. split; [|done].
  apply session_quiet_app; [|done]. by eapply exec_quiet.
Qed.

(** A call of the server, seen as the request it is. *)
Lemma serves_call {X} pre r (p : prog X) (reply : X -> Reply) (f : X -> prog A) :
  answer self r = (let* x := p in Ret (reply x)) -> may pre r ->
  (forall x, serves ok (pre ++ [(r, reply x)]) (f x)) -> serves ok pre (bind p f).
Proof.
  intros Hr Hmay Hf tr a (tr1 & tr2 & x & -> & Hx & Ha)%exec_bind.
  destruct (Hf x tr2 a Ha) as (calls & Hs & Hok). exists ((r, reply x) :: calls). split.
  - constructor; [done| |done]. rewrite Hr. apply exec_bind. exists tr1, [], x. by rewrite app_nil_r.
  - by rewrite <- app_assoc in Hok.
Qed.

Lemma serves_assoc {X Y} pre (p : prog X) (f : X -> prog Y) (g : Y -> prog A) :
  serves ok pre (let* x := p in let* y := f x in g y) -> serves ok pre (let* y := (let* x := p in f x) in g y).
Proof.
  intros Hs tr a Hex. apply Hs. clear Hs.
  apply exec_bind in Hex as (tr' & tr3 & y & -> & (tr1 & tr2 & x & -> & Hx & Hy)%exec_bind & Ha).
  rewrite <- app_assoc. apply exec_bind. exists tr1, (tr2 ++ tr3), x. split; [done|]. split; [done|].
  apply exec_bind. eauto 10.
Qed.

Lemma serves_mono (ok' : Calls -> A -> Prop) pre p :
  (forall calls a, ok calls a -> ok' calls a) -> serves ok pre p -> serves ok' pre p.
Proof. intros Hok Hp tr a (calls & Hs & Ha)%Hp. eauto. Qed.
End serves.

Lemma serves_bind_pure {A B} ok ok' pre (p : prog A) (g : A -> B) :
  (forall calls a, ok calls a -> ok' calls (g a)) -> serves ok pre p ->
  serves ok' pre (let* a := p in Ret (g a)).
Proof.
  intros Hg Hp tr b (tr1 & tr2 & a & -> & Ha & [-> ->])%exec_bind. rewrite app_nil_r.
  destruct (Hp _ _ Ha) as (calls & Hs & Hok). eauto.
Qed.
End session.

Lemma session_mono `{Crypto, Serde, Backends} self (may may' : Calls -> Request -> Prop) pre calls tr :
  (forall pre r, may pre r -> may' pre r) -> session self may pre calls tr -> session self may' pre calls tr.
Proof. intros Hm. induction 1; [constructor|by constructor|econstructor; eauto]. Qed.

(** ** The authority of a request *)
Section authority.
Context `{Crypto, Serde, Backends, HttpLib, HttpSerde} (state : Inner) (headers : HeaderMap) (uri : Uri).
(** The forms the body may be read as. *)
Context (submitted : list Pair -> Prop).

Definition token_client (t : TokenRequest) : ClientId :=
  match t with
  | TRAuthorizationCode c _ _ _ _ | TRClientCredentials c _ _ | TRDeviceCode c _ _ | TRRefreshToken c _ _ _ => c
  end.
Definition exchange_credential (t : TokenExchangeRequest) : ClientCredential := {|
  cred_client_secret := te_client_secret t; cred_client_assertion_type := te_client_assertion_type t;
  cred_client_assertion := te_client_assertion t; cred_certificate := None |}.

(** The credential is the one the request presents. *)
Definition presented (client_id : ClientId) (cred : ClientCredential) : Prop :=
  exists form creds, submitted form /\
    (credentials headers form = Ok creds \/ pushed_request_credentials headers form = Ok creds) /\
    client_id = hc_client_id creds /\ cred = credential creds.

(** Each request the server is asked is made with the credential of the HTTP request; a
    host's own operations are never reached. *)
Definition asked (r : Request) : Prop :=
  match r with
  | RToken t ctx => presented (token_client t) (ctx_credential ctx)
  | RExchange t => presented (te_client_id t) (exchange_credential t)
  | RDeviceAuthorization c cred _ | RIntrospect c cred _ | RRevoke c cred _ _ | RPush c cred _ _ =>
      presented c cred
  | RRegisterDynamic _ initial => initial = bearer_token headers
  | RReadRegistration _ token | RUpdateRegistration _ token _ | RDeleteRegistration _ token =>
      token = unwrap_or (bearer_token headers) EmptyString
  | RRegisterClient _ | RWithdrawConsent _ => False
  | RValidate _ | RValidatePushed _ _ | RValidateSigned _ _
  | RIssueCode _ _ _ | RRecordConsent _ _ _ _ _ | RApproveDevice _ _ | RDenyDevice _ => True
  end.

Definition approves (d : ApprovalDecision) : Prop := d = Approve \/ d = ApproveAndRemember.
Definition asked_user (validated : ValidatedAuthorizationRequest) (subject : string) (d : ApprovalDecision) : Prop :=
  exists resolver remembered, in_approval state = Some resolver /\
    d = resolver (approval_request headers uri subject validated remembered).

(** The form was submitted from this site with the token it was given, or the host has
    switched the protection off. *)
Definition form_protected (form : list Pair) : Prop :=
  submitted form /\ is_form_urlencoded headers = true /\
  (in_verification state = Disabled \/
   request_same_origin headers (in_origin state) = true /\
   exists issue consume expected, in_verification state = CsrfTokens issue consume /\
     consume headers = Some expected /\
     constant_time_eq expected (unwrap_or (param form "csrf_token") EmptyString) = true).

(** What is done in a user's name is done for the user the host resolved, on what that
    user was shown. *)
Definition authorized (pre : Calls) (r : Request) : Prop :=
  match r with
  | RIssueCode a requirement authentication =>
      inner_subject state headers = Some (ua_subject a) /\
      (exists by_request, (by_request, PValidated (Ok (ua_request a))) ∈ pre) /\
      (exists d, asked_user (ua_request a) (ua_subject a) d /\ approves d) /\
      requirement = va_authentication_requirement (ua_request a) /\
      authentication = (in_authentication state ≫= fun f => f headers)
  | RRecordConsent client_id subject scope resource _ =>
      inner_subject state headers = Some subject /\
      exists a requirement authentication response,
        (RIssueCode a requirement authentication, PCode (Ok response)) ∈ pre /\
        ua_subject a = subject /\ va_client_id (ua_request a) = client_id /\
        va_scope (ua_request a) = scope /\ va_resource (ua_request a) = resource /\
        asked_user (ua_request a) subject ApproveAndRemember
  | RApproveDevice user_code subject =>
      inner_subject state headers = Some subject /\
      exists form, form_protected form /\ param form "user_code" = Some user_code /\
        (param form "action" = Some "approve" \/ in_verification state = Disabled)
  | RDenyDevice user_code =>
      is_Some (inner_subject state headers) /\
      exists form, form_protected form /\ param form "user_code" = Some user_code /\
        param form "action" = Some "deny"
  | _ => True
  end.

Definition permitted (pre : Calls) (r : Request) : Prop := asked r /\ authorized pre r.

(** ** What a response may hold *)

(** An error that may be redirected: one the server answered with, or the user's refusal. *)
Definition redirectable (calls : Calls) (e : AuthorizationErrorRedirect) : Prop :=
  (exists r, (r, PValidated (Err (Redirect e))) ∈ calls \/ (r, PCode (Err (Redirect e))) ∈ calls) \/
  exists r v subject, (r, PValidated (Ok v)) ∈ calls /\ asked_user v subject DenyApproval /\ e = denied v.

Definition redirected (calls : Calls) (resp : Response) : Prop :=
  exists location, header_from_str location = response_header resp "location" /\
    ((exists a q w r, (RIssueCode a q w, PCode (Ok r)) ∈ calls /\
        location = response_location r (va_redirect_uri (ua_request a))) \/
     (exists e, redirectable calls e /\ location = error_location e)).

(** A response that reports something done or discloses something is a reply of the server. *)
Definition answered (calls : Calls) (resp : Response) : Prop :=
  match rs_body resp with
  | JsonBody (JToken t) => exists r c, (RToken r c, PToken (Ok t)) ∈ calls
  | JsonBody (JExchange x) => exists r t, (RExchange r, PExchanged (Ok t)) ∈ calls /\ xt_response t = x
  | JsonBody (JDevice d) => exists c cred s, (RDeviceAuthorization c cred s, PDeviceAuthorization (Ok d)) ∈ calls
  | JsonBody (JPushed p) => exists c cred ps proof, (RPush c cred ps proof, PPushed (Ok p)) ∈ calls
  | JsonBody (JIntrospection i) => exists c cred t, (RIntrospect c cred t, PIntrospection (Ok i)) ∈ calls
  | JsonBody (JInformation i) => exists r, (r, PInformation (Ok i)) ∈ calls
  | JsonBody (JError _) | JsonBody (JRegistrationError _) => 400 <= rs_status resp
  | EmptyBody =>
      (rs_status resp = 200 /\ exists c cred t h, (RRevoke c cred t h, PRevoked (Ok tt)) ∈ calls) \/
      (rs_status resp = 204 /\ exists c t, (RDeleteRegistration c t, PDeleted (Ok tt)) ∈ calls) \/
      (rs_status resp = 302 /\ redirected calls resp) \/
      400 <= rs_status resp
  | TextBody _ => True
  end.

(** ** Handlers *)
Let serving := serves (in_server state) permitted answered.

Lemma error_status_refuses e : 400 <= error_http_status e.
Proof. destruct e; done. Qed.

Lemma error_response_answered calls e via challenge : answered calls (error_response e via challenge).
Proof.
  unfold error_response, answered. pose proof (error_status_refuses (error e)).
  destruct via; repeat case_match; cbn in *; simplify_eq/=; lia.
Qed.
Lemma refuse_answered calls e via : answered calls (refuse state e via).
Proof. apply error_response_answered. Qed.
Lemma registration_error_answered calls e : answered calls (registration_error e).
Proof. destruct e; cbn; auto; lia. Qed.

Lemma serving_form pre text k : (forall form, parse_pairs text = Ok form -> serving pre (k form)) ->
  serving pre (with_form text k).
Proof. intros Hk. unfold with_form. case_match; [by apply Hk|]. by apply serves_ret. Qed.
Lemma serving_or_refuse {A} pre (r : result A ErrorResponse) via k : (forall a, r = Ok a -> serving pre (k a)) ->
  serving pre (or_refuse state r via k).
Proof. intros Hk. destruct r; cbn; [by apply Hk|]. apply serves_ret, refuse_answered. Qed.
Lemma answered_render {A} calls (r : result A ErrorResponse) via ok :
  (forall a, r = Ok a -> answered calls (ok a)) -> answered calls (render state r ok via).
Proof. intros Hok. destruct r; cbn; [by apply Hok|apply refuse_answered]. Qed.

Lemma dpop_proof_header_ops via : all_ops (within [ReadOp]) (dpop_proof_header state headers via).
Proof. unfold dpop_proof_header. ops. Qed.
Lemma dpop_proof_header_refusal via tr r calls : exec (dpop_proof_header state headers via) tr (Err r) ->
  answered calls r.
Proof. unfold dpop_proof_header. intros Hex. exec_inv; apply refuse_answered. Qed.

(** The last call is among the calls. *)
Local Hint Extern 1 (_ ∈ _ ++ _) => (apply elem_of_app; right; by apply list_elem_of_singleton) : core.
Local Ltac reply := apply serves_ret, answered_render; intros ? [= ->]; cbn; eauto 10.

Section bodies.
Context (body : string) (Hbody : forall form, parse_pairs (from_utf8_lossy body) = Ok form -> submitted form).

Lemma device_authorization_serving pre : serving pre (device_authorization_handler state headers body).
Proof.
  apply serving_form. intros form Hform. destruct (refuse_authorization_details form).
  { apply serves_ret, refuse_answered. }
  apply serving_or_refuse. intros creds Hcreds. apply serving_or_refuse. intros scope _.
  eapply serves_call with (r := RDeviceAuthorization _ _ _); [done| |intros x; reply].
  split; [|done]. exists form, creds. auto.
Qed.

Lemma introspect_serving pre : serving pre (introspect_handler state headers body).
Proof.
  apply serving_form. intros form Hform. apply serving_or_refuse. intros creds Hcreds.
  apply serving_or_refuse. intros token _.
  eapply serves_call with (r := RIntrospect _ _ _); [done| |intros x; reply].
  split; [|done]. exists form, creds. auto.
Qed.

Lemma revoke_serving pre : serving pre (revoke_handler state headers body).
Proof.
  apply serving_form. intros form Hform. apply serving_or_refuse. intros creds Hcreds.
  apply serving_or_refuse. intros token _.
  eapply serves_call with (r := RRevoke _ _ _ _); [done| |intros x; reply].
  - split; [|done]. exists form, creds. auto.
  - left. destruct a. eauto 10.
Qed.

Lemma pushed_serving pre : serving pre (pushed_authorization_handler state headers body).
Proof.
  apply serving_form. intros form Hform. apply serving_or_refuse. intros creds Hcreds.
  apply serves_quiet; [apply dpop_proof_header_ops|]. intros [proof|r] tr Hex.
  2: { apply serves_ret. by eapply dpop_proof_header_refusal. }
  eapply serves_call with (r := RPush _ _ _ _); [done| |intros x; reply].
  split; [|done]. exists form, creds. auto.
Qed.

Lemma token_request_client grant form client_id request :
  token_request grant form client_id = Ok (Some request) -> token_client request = client_id.
Proof.
  intros Hr. destruct grant; cbn in Hr; repeat (apply and_then_ok in Hr as (? & _ & Hr)); by simplify_eq.
Qed.

Lemma exchange_request_client form client_id creds request :
  exchange_request form client_id creds = Ok request ->
  te_client_id request = client_id /\ exchange_credential request = credential creds.
Proof.
  unfold exchange_request. intros Hr. repeat (apply and_then_ok in Hr as (? & _ & Hr)). by simplify_eq.
Qed.

Lemma token_serving pre : serving pre (token_handler state headers body).
Proof.
  apply serving_form. intros form Hform. apply serving_or_refuse. intros grant _.
  apply serving_or_refuse. intros creds Hcreds.
  apply serves_quiet; [apply dpop_proof_header_ops|]. intros [proof|r] tr Hex.
  2: { apply serves_ret. by eapply dpop_proof_header_refusal. }
  apply serving_or_refuse. intros [request|] Hreq.
  - eapply serves_call with (r := RToken _ _); [done| |intros x; reply].
    split; [|done]. exists form, creds. apply token_request_client in Hreq. auto.
  - destruct (is_some proof).
    + apply serves_quiet; [ops|]. intros. apply serves_ret, refuse_answered.
    + apply serving_or_refuse. intros request Hx.
      eapply serves_call with (r := RExchange _); [done| |intros x; reply].
      split; [|done]. apply exchange_request_client in Hx as [Hc Hcred]. exists form, creds. auto 10.
Qed.

(** Registration and its management. *)
Lemma information_answered calls r status x :
  (r, PInformation x) ∈ calls -> answered calls (information_response status x).
Proof. intros Hin. destruct x; cbn; [eauto|apply registration_error_answered]. Qed.

Lemma client_metadata_refusal calls response : client_metadata body = Err response -> answered calls response.
Proof. unfold client_metadata, ok_or. case_match; intros [= <-]. apply registration_error_answered. Qed.

(** The body is read between the two halves of a registration. *)
Lemma serves_dynamic {A} ok pre metadata (f : _ -> prog A) tr1 u :
  exec (admit_registration (in_server state)) tr1 (Ok u) ->
  (forall x, serves (in_server state) permitted ok
     (pre ++ [(RRegisterDynamic metadata (bearer_token headers), PInformation x)]) (f x)) ->
  forall tr2 a, exec (bind (register_admitted_client (in_server state) metadata (bearer_token headers)) f) tr2 a ->
  exists calls, session (in_server state) permitted pre calls (tr1 ++ tr2) /\ ok (pre ++ calls) a.
Proof.
  intros Hadmit Hf tr2 a Hex.
  eapply (serves_call (in_server state) permitted ok pre (RRegisterDynamic metadata (bearer_token headers)) _
            PInformation); [done|by split|exact Hf|].
  apply exec_bind in Hex as (tr3 & tr4 & x & -> & Hx & Hex). rewrite app_assoc.
  apply exec_bind. exists (tr1 ++ tr3), tr4, x. split; [done|]. split; [|done].
  apply exec_bind_ok. left. eauto 10.
Qed.

Lemma register_serving pre : serving pre (register_handler state headers body).
Proof.
  intros tr resp Hex. apply exec_bind in Hex as (tr1 & tr2 & admitted & -> & Hadmit & Hex).
  assert (Hquiet : forall r, answered pre r -> exec (Ret r) tr2 resp ->
            exists calls, session (in_server state) permitted pre calls (tr1 ++ tr2) /\ answered (pre ++ calls) resp).
  { intros r Hr [-> ->]. exists []. split; [|by rewrite app_nil_r].
    apply session_quiet_app; [|constructor]. eapply exec_quiet; [|done]. unfold admit_registration. ops. }
  destruct admitted as [[]|e]; [|eapply Hquiet, Hex; apply registration_error_answered].
  destruct (client_metadata body) as [metadata|response] eqn:Hm.
  - eapply serves_dynamic; [done| |done]. intros x. apply serves_ret. eapply information_answered. auto.
  - eapply Hquiet, Hex. by apply client_metadata_refusal.
Qed.

Lemma read_registration_serving pre client_id : serving pre (read_registration_handler state headers client_id).
Proof.
  eapply serves_call with (r := RReadRegistration _ _); [done|by split|].
  intros x. apply serves_ret. eapply information_answered. auto.
Qed.

Lemma update_registration_serving pre client_id :
  serving pre (update_registration_handler state headers client_id body).
Proof.
  apply serves_quiet; [apply authenticate_registration_ops|]. intros [x|e] tr Hex.
  2: { apply serves_ret, registration_error_answered. }
  destruct (client_metadata body) as [metadata|response] eqn:Hm.
  - eapply serves_call with (r := RUpdateRegistration _ _ _); [done|by split|].
    intros y. apply serves_ret. eapply information_answered. auto.
  - apply serves_ret. by apply client_metadata_refusal.
Qed.

Lemma delete_registration_serving pre client_id :
  serving pre (delete_registration_handler state headers client_id).
Proof.
  eapply serves_call with (r := RDeleteRegistration _ _); [done|by split|].
  intros [[]|e]; apply serves_ret; [|apply registration_error_answered]. right. left. split; [done|]. eauto 10.
Qed.
End bodies.

(** The authorization endpoint. *)
Lemma redirect_answered calls location :
  (exists a q w r, (RIssueCode a q w, PCode (Ok r)) ∈ calls /\
     location = response_location r (va_redirect_uri (ua_request a))) \/
  (exists e, redirectable calls e /\ location = error_location e) ->
  answered calls (redirect location).
Proof.
  intros Hl. unfold redirect. destruct (header_from_str location) as [value|] eqn:Hv.
  - right. right. left. split; [done|]. exists location. split; [done|exact Hl].
  - apply error_response_answered.
Qed.

Lemma authorization_error_answered calls e :
  (forall x, e = Redirect x -> redirectable calls x) -> answered calls (authorization_error state e).
Proof.
  intros He. destruct e as [e|x]; cbn; [apply error_response_answered|].
  apply redirect_answered. right. eauto.
Qed.

Lemma resolve_serving {A} ok pre pairs (k : _ -> prog A) :
  (forall r x, asked r -> serves (in_server state) permitted ok (pre ++ [(r, PValidated x)]) (k x)) ->
  (forall e, serves (in_server state) permitted ok pre (k (Err (Direct e)))) ->
  serves (in_server state) permitted ok pre (bind (resolve_authorization_request state pairs) k).
Proof.
  intros Hcall Hret. unfold resolve_authorization_request. repeat case_match; try apply Hret.
  1: eapply serves_call with (r := RValidatePushed _ _); [done|by split|by intros; apply Hcall].
  1: eapply serves_call with (r := RValidateSigned _ _); [done|by split|by intros; apply Hcall].
  all: eapply serves_call with (r := RValidate _); [done|by split|by intros; apply Hcall].
Qed.

Lemma approved_serving pre validated subject received_at remember d r :
  inner_subject state headers = Some subject -> (r, PValidated (Ok validated)) ∈ pre ->
  asked_user validated subject d -> approves d -> (remember = true -> d = ApproveAndRemember) ->
  serving pre (approved state validated subject received_at remember headers).
Proof.
  intros Hs Hin Hd Happ Hrem. unfold approved.
  eapply serves_call with (r := RIssueCode _ _ _); [done|split; [done|cbn; eauto 10]|]. intros issued.
  destruct (remember && is_ok issued) eqn:Hr.
  - apply andb_true_iff in Hr as [-> Hok]. destruct issued as [response|]; [|done].
    specialize (Hrem eq_refl). subst d.
    apply serves_assoc.
    eapply serves_call with (r := RRecordConsent _ _ _ _ _); [done|split; [done|cbn; eauto 15]|].
    intros x. apply serves_ret, redirect_answered. left.
    do 4 eexists. split; [apply elem_of_app; left; auto|done].
  - apply serves_ret. destruct issued as [response|e].
    + apply redirect_answered. left. eauto 10.
    + apply authorization_error_answered. intros x ->. left. eexists. right. auto.
Qed.

Lemma authorize_serving pre : serving pre (authorize_handler state headers uri).
Proof.
  apply serves_quiet; [ops|]. intros received_at _ _. apply serving_form. intros pairs _.
  apply resolve_serving.
  2: { intros e. apply serves_ret, authorization_error_answered. done. }
  intros r [validated|e] _.
  2: { apply serves_ret, authorization_error_answered. intros x ->. left. exists r. left. auto. }
  destruct (inner_subject state headers) as [subject|] eqn:Hs; [|by apply serves_ret].
  apply serves_quiet; [unfold remembered_consent; ops|]. intros looked_up _ _.
  destruct (in_approval state) as [resolver|] eqn:Hres; [|by apply serves_ret].
  cbv beta zeta. destruct (resolver _) eqn:Hd.
  - eapply approved_serving with (d := Approve); [done|auto| |by left|done]. exists resolver. eauto.
  - apply serves_ret, redirect_answered. right. exists (denied validated). split; [|done].
    right. exists r, validated, subject. split; [auto|]. split; [|done]. exists resolver. eauto.
  - eapply approved_serving with (d := ApproveAndRemember); [done|auto| |by right|done]. exists resolver. eauto.
  - by apply serves_ret.
Qed.

(** The verification page. *)
Lemma pending_grant_ops user_code entry : all_ops (within [ReadOp]) (pending_grant state user_code entry).
Proof. unfold pending_grant. ops. Qed.

Lemma render_verification_serving pre entered status message entry :
  serving pre (render_verification state headers entered status message entry).
Proof.
  assert (Hform : forall csrf, serving pre (render_form state entered status message entry csrf)).
  { intros csrf. unfold render_form. apply serves_quiet; [ops; apply pending_grant_ops|].
    intros looked_up _ _. destruct (page_status _ _ _ _). by apply serves_ret. }
  unfold render_verification. repeat case_match; auto; by apply serves_ret.
Qed.

Lemma verification_page_serving pre : serving pre (verification_page_handler state headers uri).
Proof. apply serving_form. intros pairs _. apply render_verification_serving. Qed.

Lemma submission_refusal_answered calls form r : submission_refusal state headers form = Some r -> answered calls r.
Proof. unfold submission_refusal. intros Hr. branches. Qed.

Lemma submission_refusal_none form : submission_refusal state headers form = None ->
  in_verification state = Disabled \/
  request_same_origin headers (in_origin state) = true /\
  exists issue consume expected, in_verification state = CsrfTokens issue consume /\
    consume headers = Some expected /\
    constant_time_eq expected (unwrap_or (param form "csrf_token") EmptyString) = true.
Proof.
  unfold submission_refusal, protected. destruct (in_verification state) as [|issue consume|] eqn:Hv; cbn;
    destruct (request_same_origin _ _); try done; [|by left..].
  destruct (consume headers) as [e|] eqn:He; cbn; [|done]. case_match; [|done]. eauto 10.
Qed.

Lemma unwrap_nonempty (o : option string) : str_is_empty (unwrap_or o EmptyString) = false ->
  o = Some (unwrap_or o EmptyString).
Proof. by destruct o. Qed.
Lemma unwrap_is (o : option string) c s : (unwrap_or o EmptyString == String c s) = true -> o = Some (String c s).
Proof. intros Hb. bools. by destruct o as [x|]; cbn in *; subst. Qed.

Lemma decide_device_serving pre form : form_protected form -> serving pre (decide_device state headers form).
Proof.
  intros Hform. unfold decide_device. destruct (str_is_empty _) eqn:Hcode; [apply render_verification_serving|].
  apply unwrap_nonempty in Hcode. set (user_code := unwrap_or (param form "user_code") _) in *.
  destruct (negb _ && negb _) eqn:Hact; [apply render_verification_serving|].
  destruct (inner_subject state headers) as [subject|] eqn:Hs; [|by apply serves_ret].
  destruct (_ == "deny") eqn:Hdeny.
  - eapply serves_call with (r := RDenyDevice _); [done|split; [done|]|].
    { cbn. rewrite Hs. split; [done|]. exists form. split; [done|]. split; [done|]. by apply unwrap_is. }
    intros [[]|e]; [by apply serves_ret|]. destruct (decision_error e) as [[m st] en].
    apply render_verification_serving.
  - eapply serves_call with (r := RApproveDevice _ _); [done|split; [done|]|].
    { cbn. rewrite Hs. split; [done|]. exists form. split; [done|]. split; [done|].
      cbn in Hact. apply negb_false_iff, orb_true_iff in Hact as [Ha|Hp]; [left; by apply unwrap_is|].
      right. unfold protected in Hp. by destruct (in_verification state). }
    intros [[]|e]; [by apply serves_ret|]. destruct (decision_error e) as [[m st] en].
    apply render_verification_serving.
Qed.

Lemma verification_submit_serving pre body :
  (forall form, parse_pairs (from_utf8_lossy body) = Ok form -> submitted form) ->
  serving pre (verification_submit_handler state headers body).
Proof.
  intros Hbody. unfold verification_submit_handler. destruct (is_form_urlencoded headers) eqn:Hu; cbn [negb].
  2: { by apply serves_ret. }
  apply serving_form. intros form Hform. destruct (submission_refusal state headers form) as [r|] eqn:Hr.
  - apply serves_ret. by eapply submission_refusal_answered.
  - apply decide_device_serving. split; [auto|]. split; [done|]. by apply submission_refusal_none.
Qed.
End authority.

(** ** The whole surface *)
Section surface.
Context `{Crypto, Serde, Backends, HttpLib, HttpSerde} (state : Inner) (request : HttpRequest).

(** The form the body of the request is read as. *)
Definition body_form (form : list Pair) : Prop :=
  exists bytes, collect_body (rq_body request) MAX_BODY_BYTES = Ok bytes /\
    parse_pairs (from_utf8_lossy bytes) = Ok form.

Let may := permitted state (rq_headers request) (rq_uri request) body_form.
Let ok := answered state (rq_headers request) (rq_uri request).

Lemma form_body_serving pre k :
  (forall body, (forall form, parse_pairs (from_utf8_lossy body) = Ok form -> body_form form) ->
     serves (in_server state) may ok pre (k body)) ->
  serves (in_server state) may ok pre (form_body (rq_body request) k).
Proof.
  intros Hk. unfold form_body. destruct (collect_body _ _) as [bytes|e] eqn:Hb.
  - apply Hk. intros form Hf. exists bytes. auto.
  - apply serves_ret. by destruct e.
Qed.

Lemma not_allowed_answered calls route : ok calls (method_not_allowed route).
Proof. right. right. right. done. Qed.

Lemma dispatch_serving pre route method :
  serves (in_server state) may ok pre
    (dispatch state route method (rq_headers request) (rq_uri request) (rq_body request)).
Proof.
  destruct route; cbn [dispatch]; repeat case_match; try (apply serves_ret, not_allowed_answered);
    try (apply form_body_serving; intros body Hbody).
  - by apply serves_ret.
  - apply authorize_serving.
  - by apply token_serving.
  - by apply device_authorization_serving.
  - by apply introspect_serving.
  - by apply revoke_serving.
  - apply verification_page_serving.
  - by apply verification_submit_serving.
  - apply register_serving.
  - apply read_registration_serving.
  - apply update_registration_serving.
  - apply delete_registration_serving.
  - by apply pushed_serving.
  - apply serves_ret. unfold jwks_handler. case_match; [done|]. right. right. right. done.
Qed.

(** The response is the handler's, without its body when the request is a [HEAD]. *)
Definition delivers (r resp : Response) : Prop :=
  resp = r \/ rq_method request = "HEAD" /\ resp = head_response r.

Lemma handle_session tr resp : exec (handle state request) tr resp ->
  exists calls r, session (in_server state) may [] calls tr /\ ok calls r /\ delivers r resp.
Proof.
  unfold handle. destruct (resolve _ _) as [route|].
  - intros (tr1 & tr2 & r & -> & Hr & [-> ->])%exec_bind. rewrite app_nil_r.
    destruct (dispatch_serving [] _ _ _ _ Hr) as (calls & Hs & Hok). exists calls, r. split; [done|]. split; [done|].
    destruct (rq_method request == "HEAD") eqn:Hm; [|by left]. bools. by right.
  - intros [-> ->]. exists [], (respond 404 EmptyBody). split; [constructor|]. split; [by right; right; right|by left].
Qed.

(** C4. The HTTP surface refines the server: whatever the request and however the world
    answers, an execution of [handle] is a sequence of calls of the server's entry points
    with reads between them; each call is made with the credential, the bearer token or the
    identifier the request itself presents, and the operations of the host (registering a
    client, withdrawing a consent) are never reached.  And every response that discloses or
    reports something is the reply to one of those calls: tokens, exchanged tokens, device and
    pushed-request handles, introspections, registrations, a revocation, a deletion, and every
    redirect, to the location of the code or of the error the server answered with. *)
Theorem http_refines_server tr resp : exec (handle state request) tr resp ->
  exists calls r,
    session (in_server state) (fun _ => asked (rq_headers request) body_form) [] calls tr /\
    answered state (rq_headers request) (rq_uri request) calls r /\ delivers r resp.
Proof.
  intros (calls & r & Hs & Hok & Hd)%handle_session. exists calls, r. split; [|done].
  eapply session_mono; [|exact Hs]. by intros pre x [? ?].
Qed.

(** C3. Nothing is done in a user's name without the user.  In every execution of [handle] a
    code is issued only for a request the server has just validated, to the subject the host
    resolved from the headers, and only after the host's approval step, shown that very
    client, scope, redirect URI, resources and details, approved it; a consent is recorded
    only after such a code was issued and only when the user asked to be remembered; and a
    device is approved or denied only for a form posted from the server's own origin with the
    token it was given (unless the host switched that off), with the action the form names,
    while somebody is signed in, and an approval is for that subject. *)
Theorem http_acts_on_authority tr resp : exec (handle state request) tr resp ->
  exists calls,
    session (in_server state) (authorized state (rq_headers request) (rq_uri request) body_form) [] calls tr.
Proof.
  intros (calls & r & Hs & _ & _)%handle_session. exists calls.
  eapply session_mono; [|exact Hs]. by intros pre x [? ?].
Qed.
End surface.

(** ** Evaluation *)
(** The host keeps the subject and the token of the form in a cookie. *)
Definition cookie (headers : list (string * string)) : option string := @header_get plain_http headers "cookie".
Definition demo_builder : @ServiceBuilder plain_http :=
  @with_csrf_tokens plain_http cookie cookie
    (@with_approval_resolver plain_http (fun _ => @ApproveAndRemember)
      (@with_subject_resolver plain_http cookie (@builder_new plain_http demo_server))).
Definition demo_inner : option (@Inner plain_http) :=
  match @build no_backends plain_http plain_http_serde demo_builder with Ok i => Some i | Err _ => None end.

Definition demo_http (method path : string) (headers : list (string * string)) (body : string)
  : @HttpRequest plain_http :=
  @Build_HttpRequest plain_http method {| uri_path := path; uri_query := None |} headers
    {| bs_lower := 0; bs_frames := [DataFrame body] |}.
Definition demo_handle (i : @Inner plain_http) (request : @HttpRequest plain_http) : prog Response :=
  @handle plain_crypto assertion_serde no_backends plain_http plain_http_serde i request.
Definition demo_run_http (i : @Inner plain_http) (request : @HttpRequest plain_http) (g : MemoryInner)
  : Response * World := run (fixed_env 100) (demo_handle i request) (world_of g).

(** A redemption of the code of [demo_server_store]. *)
Definition demo_token_request : @HttpRequest plain_http :=
  demo_http "POST" "/token" demo_basic
    ("grant_type=authorization_code&code=code&redirect_uri=https%3A%2F%2Fapp%2Fcb&code_verifier=" +:+ demo_verifier_text).

(** The approval of a pending device by the form the page shows. *)
Definition pending_store : MemoryInner :=
  run_ops [any (PutClient demo_client); any (PutDeviceGrant (with_state demo_grant Pending))] mi_empty.
Definition demo_approval : @HttpRequest plain_http :=
  demo_http "POST" "/device"
    [("cookie", "alice"); ("content-type", "application/x-www-form-urlencoded"); ("sec-fetch-site", "same-origin")]
    "user_code=BCDF-GHJK&action=approve&csrf_token=alice".

Definition demo_body (i : @Inner plain_http) : Body :=
  rs_body (fst (demo_run_http i demo_token_request (demo_server_store demo_client))).
Definition demo_decided (i : @Inner plain_http) : option DeviceGrantState :=
  dg_state <$> (mi_device_by_code (w_store (snd (demo_run_http i demo_approval pending_store))) !! "device").
Lemma demo_token_body : exists t, demo_body <$> demo_inner = Some (JsonBody (JToken t)).
Proof. eexists. vm_compute. reflexivity. Qed.
Lemma demo_device_decided : demo_decided <$> demo_inner = Some (Some (Approved "alice")).
Proof. vm_compute. reflexivity. Qed.

(** The tokens of the response are the server's reply to a redemption. *)
Lemma http_refines_server_witness :
  exists i calls t tr r c, demo_inner = Some i /\
    @session plain_crypto assertion_serde no_backends (in_server i)
      (fun _ => @asked plain_crypto assertion_serde plain_http demo_basic
                  (@body_form plain_http demo_token_request)) [] calls tr /\
    demo_body i = JsonBody (JToken t) /\ (RToken r c, PToken (Ok t)) ∈ calls.
Proof.
  destruct demo_token_body as [t Ht]. destruct demo_inner as [i|]; [|discriminate Ht]. injection Ht as Ht.
  destruct (run_exec (fixed_env 100) (demo_handle i demo_token_request)
              (world_of (demo_server_store demo_client))) as [tr Htr].
  destruct (@http_refines_server plain_crypto assertion_serde no_backends plain_http plain_http_serde
              i demo_token_request _ _ Htr) as (calls & r & Hs & Ha & [Hr|[Hm _]]); [|discriminate Hm].
  rewrite <- Hr in Ha. unfold answered in Ha.
  change (rs_body (fst (run _ _ _))) with (demo_body i) in Ha. rewrite Ht in Ha.
  destruct Ha as (tr' & c & Hin).
  exists i, calls, t, tr, tr', c. split; [reflexivity|]. split; [exact Hs|]. split; [exact Ht|exact Hin].
Defined.

Lemma http_acts_on_authority_witness :
  exists i calls tr, demo_inner = Some i /\
    demo_decided i = Some (Approved "alice") /\
    @session plain_crypto assertion_serde no_backends (in_server i)
      (@authorized plain_crypto plain_http i (@rq_headers plain_http demo_approval) (rq_uri demo_approval)
         (@body_form plain_http demo_approval)) [] calls tr.
Proof.
  pose proof demo_device_decided as Hd. destruct demo_inner as [i|]; [|discriminate Hd]. injection Hd as Hd.
  destruct (run_exec (fixed_env 100) (demo_handle i demo_approval) (world_of pending_store)) as [tr Htr].
  destruct (@http_acts_on_authority plain_crypto assertion_serde no_backends plain_http plain_http_serde
              i demo_approval _ _ Htr) as [calls Hs].
  exists i, calls, tr. split; [reflexivity|]. split; [exact Hd|exact Hs].
Defined.
