(* ===== verification/Once.v ===== *)
(** * Things handed out once

    An authorization code, a device grant, a pushed request, a DPoP proof and a client
    assertion are each good for one answer: of any number of requests run beside each
    other in any interleaving, wherever the storage fails, at most one succeeds on the
    strength of it. *)
From S2P Require Import Prelude Time Codec Scope Types Store StoreFacts Effects Trace Ops Linear Rar Consent Jws.
From S2P Require Import Credentials Config ClientAuthn Issue Device Redirect Authorize Grants TokenExchange Endpoints.
From S2P Require Import Par Registration Server.
Local Open Scope Z_scope.

(** Follows the shape of a program down to the calls that touch the thing. *)
Ltac owns_step :=
  match goal with
  | |- owns _ (bind_ok _ _) _ => apply owns_bind_ok; [done|]
  | |- owns _ (lift_ok ?r _) _ => destruct r eqn:?; cbn [lift_ok]
  | |- owns _ (bind _ _) _ => apply owns_bind
  | |- owns _ (Ret _) _ => cbn [owns]
  | |- owns _ (if ?b then _ else _) _ => destruct b eqn:?
  | |- owns _ (match ?x with _ => _ end) _ => destruct x eqn:?
  | |- forall _, _ => intros ?
  | |- True => exact I
  end.

Section codes.
Context `{Crypto, Serde, Backends, HashOrder} (self : AuthorizationServer) (env : Env) (code : string).
#[local] Existing Instance code_linear | 0.

Lemma code_neutral ks o : CodeWrite ∉ ks -> within ks o -> @neutral _ (code_linear code) o.
Proof.
  intros Hnot [_ Hk]. destruct o as [X op]. unfold neutral; cbn in *. unfold code_needs; cbn.
  destruct op; cbn in Hk |- *; done.
Qed.

Lemma owns_quiet ks {A} (p : prog A) Q h :
  CodeWrite ∉ ks -> all_ops (within ks) p -> (forall a, Q h a) -> @owns _ (code_linear code) A h p Q.
Proof. intros Hnot Hp. apply owns_neutral. eapply all_ops_mono; [|exact Hp]. intros o. by apply code_neutral. Qed.

Definition spends (c : string) (r : result TokenResponse ErrorResponse) : bool := is_ok r && (c == code).

Definition spent_by (c : string) (h : nat) (r : result TokenResponse ErrorResponse) : Prop :=
  (Nat.b2n (spends c r) <= h)%nat.
Notation code_owns := (@owns _ (code_linear code) _).

Lemma spent_by_err c h e : spent_by c h (Err e).
Proof. unfold spent_by, spends. cbn. lia. Qed.
Hint Resolve spent_by_err : oauth.

(** A write of a code that is not an unspent [code] asks for nothing. *)
Lemma spent_write_neutral record : unspent record = false ->
  @neutral _ (code_linear code) (any (PutAuthorizationCode record)) /\
  forall e, @neutral _ (code_linear code) (any (CompareAndSwapAuthorizationCode e record)).
Proof. intros Hu. unfold neutral. cbn. unfold code_needs. cbn. by rewrite Hu, andb_false_r. Qed.

Lemma restore_code_owns c record e h : h = Nat.b2n (ac_code record == code) -> unspent record = true ->
  code_owns h (restore_code record e) (spent_by c).
Proof.
  intros -> Hu. cbn. unfold code_needs; cbn. rewrite Hu, andb_true_r. split; [lia|].
  intros r _. apply spent_by_err.
Qed.

Lemma no_code_write : CodeWrite ∉ token_kinds.
Proof. set_solver. Qed.

Lemma redeem_code_owns client bound record resource details h :
  h = Nat.b2n (ac_code record == code) ->
  code_owns h (redeem_code self client bound record resource details) (spent_by (ac_code record)).
Proof.
  intros Hh. unfold redeem_code. apply owns_bind_ok; [intros; apply spent_by_err|].
  apply owns_neutral; [split; [by apply spent_write_neutral|done]|]. intros [u|e]; [|done].
  apply owns_bind_ok; [intros; apply spent_by_err|].
  apply (owns_quiet token_kinds); [apply no_code_write|eapply within_mono; [|apply issue_ops]|].
  { set_solver. } { by intros ? ?. }
  intros [issued|e]; [|done]. apply owns_store; [by apply spent_write_neutral|].
  assert (Hundo : forall e, code_owns h
    (let* _ := undo_issuance (tr_access_token issued) in
     let* _ := (match tr_refresh_token issued with
                | Some rt => let* _ := store (TakeRefreshToken rt) in Ret tt
                | None => Ret tt
                end) in Ret (Err e)) (spent_by (ac_code record))).
  { intros e. unfold undo_issuance.
    do 2 (apply owns_bind, (owns_quiet token_kinds); [apply no_code_write|ops|intros _]). apply spent_by_err. }
  intros [[]|]; [|apply Hundo|apply Hundo]. unfold spent_by, spends. cbn. lia.
Qed.

(** A successful redemption holds the unspent code it took. *)
Lemma check_code_owns client bound record uri verifier resources details h :
  h = Nat.b2n (ac_code record == code) -> unspent record = true ->
  code_owns h (check_code self client bound record uri verifier resources details) (spent_by (ac_code record)).
Proof.
  intros Hh Hu. unfold check_code. apply owns_bind. intros t.
  repeat owns_step; auto using restore_code_owns, redeem_code_owns with oauth.
Qed.

Lemma contain_replay_owns c client record access refresh h :
  code_owns h (contain_replay self client record access refresh) (spent_by c).
Proof.
  unfold contain_replay. apply owns_bind, (owns_quiet token_kinds); [apply no_code_write|ops; apply revocation_window_ops|].
  intros [[x y] z]. apply owns_bind, (owns_quiet token_kinds); [apply no_code_write|ops|].
  intros failed. apply owns_store; [by apply spent_write_neutral|]. intros r.
  apply owns_bind, (owns_quiet token_kinds); [apply no_code_write|ops|]. intros; apply spent_by_err.
Qed.

Lemma authorization_code_owns client_id bound c uri verifier resources details :
  code_owns 0 (authorization_code_token self client_id bound c uri verifier resources details) (spent_by c).
Proof.
  unfold authorization_code_token. apply owns_bind_ok; [intros; apply spent_by_err|].
  apply (owns_quiet token_kinds);
    [apply no_code_write|eapply within_mono; [|apply authenticate_client_ops]; set_solver|].
  intros [client|]; [|done]. owns_step; [apply spent_by_err|].
  apply owns_bind_ok; [intros; apply spent_by_err|].
  cbn. split; [lia|]. intros [[record|]|e] Hans; cbn; [|apply spent_by_err|done].
  specialize (Hans record eq_refl). cbn in Hans. subst c.
  owns_step.
  - cbn. unfold code_needs; cbn. split; [lia|]. intros [] _; cbn; apply spent_by_err.
  - unfold unspent at 1. destruct (minted (ac_state record)) as [[at_ rt]|] eqn:Hm.
    + apply contain_replay_owns.
    + apply check_code_owns; [by rewrite andb_true_r|]. unfold unspent. by rewrite Hm.
Qed.

(** The replies that spend the code. *)
Definition redeemed (r : Request * Reply) : bool :=
  match r with
  | (RToken (TRAuthorizationCode _ _ c _ _) _, PToken r) => spends c r
  | _ => false
  end.
Definition issues_no_code (r : Request) : Prop := match r with RIssueCode _ _ _ => False | _ => True end.

Lemma serve_honest request : issues_no_code request ->
  @honest _ (code_linear code) _ redeemed 0 (serve self request).
Proof.
  intros Hi. unfold honest, serve. apply owns_bind.
  destruct (decide (CodeWrite ∈ request_kinds request)) as [Hk|Hk].
  - by_request request; try (exfalso; set_solver); try done.
    cbn [answer]. apply owns_bind. unfold token_with_context.
    repeat (owns_step; try (unfold redeemed, spends; cbn; lia)).
    apply owns_bind_ok; [intros; cbn; lia|].
    apply (owns_quiet token_kinds); [apply no_code_write|eapply within_mono; [|apply verify_dpop_ops]; set_solver|].
    intros [jkt|]; [|done]. unfold audited. apply owns_bind.
    eapply owns_mono; [|apply authorization_code_owns]. intros h r Hr.
    apply owns_bind, (owns_quiet token_kinds); [apply no_code_write|unfold emit_refusal; ops|].
    intros _. exact Hr.
  - apply (owns_quiet (request_kinds request)); [done| |].
    + pose proof (serve_ops self request) as Hs. unfold serve in Hs. by apply all_ops_bind_inv in Hs.
    + intros reply. cbn. by_request request; cbn; try lia. exfalso. set_solver.
Qed.

(** C1. An authorization code is good for one token response.  Whatever requests run beside
    each other (any number of redemptions of the same code, revocations, introspections,
    withdrawals; everything but the issuing of new codes), in whatever interleaving,
    whatever the world answers and wherever the storage fails, at most one of them is
    answered with tokens for the code. *)
Theorem code_yields_one_response schedule requests w i j ri rj :
  store_wf (w_store w) -> Forall issues_no_code requests ->
  let pool := fst (run_pool env schedule (map (serve self) requests) w) in
  pool !! i = Some (Ret ri) -> pool !! j = Some (Ret rj) ->
  redeemed ri = true -> redeemed rj = true -> i = j.
Proof.
  intros Hwf Hno pool Hi Hj Hri Hrj.
  eapply (@at_most_one _ (code_linear code) _ env redeemed); [done| |done..].
  apply Forall_forall. intros p (r & -> & Hr)%list_elem_of_fmap. apply serve_honest.
  rewrite Forall_forall in Hno. by apply Hno.
Qed.
End codes.

Section grants_once.
Context `{Crypto, Serde, Backends, HashOrder} (self : AuthorizationServer) (env : Env) (device_code : string).
Notation grant_owns := (@owns _ (grant_linear device_code) _).

Lemma device_quiet ks {A} (p : prog A) Q h :
  DeviceWrite ∉ ks -> all_ops (within ks) p -> (forall a, Q h a) -> grant_owns h p Q.
Proof.
  intros Hnot Hp. apply owns_neutral. eapply all_ops_mono; [|exact Hp]. intros [X op] [_ Hk].
  unfold neutral; cbn in *. unfold grant_needs; cbn. by destruct op; cbn in Hk |- *.
Qed.

Definition granted_by (d : string) (h : nat) (r : result TokenResponse ErrorResponse) : Prop :=
  (Nat.b2n (is_ok r && (d == device_code)) <= h)%nat.

Lemma granted_by_err d h e : granted_by d h (Err e).
Proof. unfold granted_by. cbn. lia. Qed.

Lemma device_swap_neutral e d :
  @neutral _ (grant_linear device_code) (any (CompareAndSwapDeviceGrant e d)).
Proof. done. Qed.

(** A successful poll holds the grant it took. *)
Lemma device_token_owns client_id bound d :
  grant_owns 0 (device_token self client_id bound d) (granted_by d).
Proof.
  assert (Hswap : forall h e x (f : bool -> prog (result TokenResponse ErrorResponse)) err,
    (forall b, f b = Ret (Err err)) ->
    grant_owns h (bind_ok (store_or storage_error (CompareAndSwapDeviceGrant e x)) f) (granted_by d)).
  { intros h e x f err Hf. apply owns_bind_ok; [intros; apply granted_by_err|].
    apply owns_neutral; [by split; [apply device_swap_neutral|]|]. intros [b|]; [|done].
    rewrite Hf. apply granted_by_err. }
  unfold device_token. apply owns_bind_ok; [intros; apply granted_by_err|].
  apply (device_quiet token_kinds); [set_solver|eapply within_mono; [|apply authenticate_client_ops]; set_solver|].
  intros [client|]; [|done]. owns_step; [apply granted_by_err|].
  apply owns_bind_ok; [intros; apply granted_by_err|]. apply owns_neutral; [by split|]. intros [found|]; [|done].
  owns_step; [|apply granted_by_err]. owns_step; [apply granted_by_err|].
  apply owns_bind. intros t. do 2 owns_step.
  { cbn. split; [lia|]. intros r _. apply granted_by_err. }
  owns_step; [by eapply Hswap|]. owns_step; [by eapply Hswap| |].
  - apply owns_bind_ok; [intros; apply granted_by_err|]. cbn [owns store_or]. split; [cbn; lia|].
    intros [[taken|]|e] _; cbn [map_err ok_or lift_ok owns]; [|apply granted_by_err|done].
    apply (device_quiet token_kinds); [set_solver|eapply within_mono; [|apply issue_ops]|].
    { set_solver. } { by intros ? ?. }
    intros r. unfold granted_by. cbn. destruct (is_ok r); cbn; lia.
  - cbn. split; [lia|]. intros r _. apply granted_by_err.
Qed.

(** The replies that spend the grant. *)
Definition polled (r : Request * Reply) : bool :=
  match r with
  | (RToken (TRDeviceCode _ _ d) _, PToken r) => is_ok r && (d == device_code)
  | _ => false
  end.
Definition starts_no_grant (r : Request) : Prop :=
  match r with RDeviceAuthorization _ _ _ => False | _ => True end.

Lemma serve_honest_device request : starts_no_grant request ->
  @honest _ (grant_linear device_code) _ polled 0 (serve self request).
Proof.
  intros Hi. unfold honest, serve. apply owns_bind.
  by_request request; try done.
  3: { cbn [answer]. apply owns_bind. unfold token_with_context.
    repeat (owns_step; try (unfold polled; cbn; lia)).
    apply owns_bind_ok; [intros; cbn; lia|].
    apply (device_quiet token_kinds); [set_solver|eapply within_mono; [|apply verify_dpop_ops]; set_solver|].
    intros [jkt|]; [|done]. owns_step; [cbn; lia|]. owns_step; [cbn; lia|]. unfold audited. apply owns_bind.
    eapply owns_mono; [|apply device_token_owns]. intros h r Hr.
    apply owns_bind, (device_quiet token_kinds); [set_solver|unfold emit_refusal; ops|]. intros _. exact Hr. }
  all: apply owns_affine; [|intros; cbn; lia].
  all: try (solve [unfold answer, approve_device, deny_device, pending_grant_by_user_code,
                     lookup_pending_grant_by_user_code; ops; done]).
  all: match goal with |- all_ops _ (answer self ?r) =>
         pose proof (serve_ops self r) as Hs; unfold serve in Hs; apply all_ops_bind_inv in Hs;
         eapply all_ops_mono; [|exact Hs] end.
  all: intros [X op] [_ Hk]; destruct op; try done; cbn in Hk; try (exfalso; set_solver).
Qed.

(** A device grant is good for one token response: however many polls of the same device
    code run beside each other and beside any other requests (everything but new device
    authorizations), in whatever interleaving and wherever the storage fails, at most one
    poll is answered with tokens. *)
Theorem device_grant_yields_one_response schedule requests w i j ri rj :
  store_wf (w_store w) -> Forall starts_no_grant requests ->
  let pool := fst (run_pool env schedule (map (serve self) requests) w) in
  pool !! i = Some (Ret ri) -> pool !! j = Some (Ret rj) ->
  polled ri = true -> polled rj = true -> i = j.
Proof.
  intros Hwf Hno pool Hi Hj Hri Hrj.
  eapply (@at_most_one _ (grant_linear device_code) _ env polled); [done| |done..].
  apply Forall_forall. intros p (r & -> & Hr)%list_elem_of_fmap. apply serve_honest_device.
  rewrite Forall_forall in Hno. by apply Hno.
Qed.
End grants_once.

(** ** Pushed requests *)
Section pushed_once.
Context `{Crypto, Serde, Backends, HashOrder} (self : AuthorizationServer) (env : Env) (uri : string).
Notation uri_owns := (@owns _ (pushed_linear uri) _).

Lemma pushed_quiet ks {A} (p : prog A) Q h :
  PushedWrite ∉ ks -> all_ops (within ks) p -> (forall a, Q h a) -> uri_owns h p Q.
Proof.
  intros Hnot Hp. apply owns_neutral. eapply all_ops_mono; [|exact Hp]. intros [X op] [_ Hk].
  unfold neutral; cbn in *. unfold pushed_needs; cbn. by destruct op; cbn in Hk |- *.
Qed.

(** A success holds the request it took; a handle of another client is put back. *)
Lemma validate_pushed_owns client_id u :
  uri_owns 0 (validate_pushed_authorization_request self client_id u)
    (fun h r => Nat.b2n (is_ok r && (u == uri)) <= h)%nat.
Proof.
  unfold validate_pushed_authorization_request. apply owns_bind_ok; [intros; cbn; lia|].
  cbn. split; [lia|]. intros [[record|]|e] Hans; cbn; [|lia|done].
  specialize (Hans record eq_refl). cbn in Hans. subst u. owns_step.
  - cbn. unfold pushed_needs; cbn. split; [lia|]. intros [] _; cbn; lia.
  - intros t. owns_step; [cbn; lia|].
    apply (pushed_quiet [ReadOp]); [set_solver|apply validate_direct_ops|]. intros []; cbn; lia.
Qed.

(** The replies that honour the handle. *)
Definition uri_honoured (r : Request * Reply) : bool :=
  match r with
  | (RValidatePushed _ u, PValidated r) => is_ok r && (u == uri)
  | _ => false
  end.
Definition pushes_nothing (r : Request) : Prop := match r with RPush _ _ _ _ => False | _ => True end.

Lemma serve_honest_pushed request : pushes_nothing request ->
  @honest _ (pushed_linear uri) _ uri_honoured 0 (serve self request).
Proof.
  intros Hi. unfold honest, serve. apply owns_bind.
  destruct (decide (PushedWrite ∈ request_kinds request)) as [Hk|Hk].
  - by_request request; try (exfalso; set_solver); try done.
    cbn [answer]. apply owns_bind. eapply owns_mono; [|apply validate_pushed_owns]. intros h r Hr. exact Hr.
  - apply (pushed_quiet (request_kinds request)); [done| |].
    + pose proof (serve_ops self request) as Hs. unfold serve in Hs. by apply all_ops_bind_inv in Hs.
    + intros reply. cbn. by_request request; cbn; try lia. exfalso. set_solver.
Qed.

(** A request URI is honoured once: however many authorization requests present the same
    one, from its own client or another's, beside any other requests (everything but new
    pushes), in whatever interleaving and wherever the storage fails, at most one of them
    is accepted. *)
Theorem request_uri_used_once schedule requests w i j ri rj :
  store_wf (w_store w) -> Forall pushes_nothing requests ->
  let pool := fst (run_pool env schedule (map (serve self) requests) w) in
  pool !! i = Some (Ret ri) -> pool !! j = Some (Ret rj) ->
  uri_honoured ri = true -> uri_honoured rj = true -> i = j.
Proof.
  intros Hwf Hno pool Hi Hj Hri Hrj.
  eapply (@at_most_one _ (pushed_linear uri) _ env uri_honoured); [done| |done..].
  apply Forall_forall. intros p (r & -> & Hr)%list_elem_of_fmap. apply serve_honest_pushed.
  rewrite Forall_forall in Hno. by apply Hno.
Qed.
End pushed_once.

Section proofs_once.
Context `{Crypto, Serde, Backends, HashOrder} (self : AuthorizationServer) (env : Env).

Definition no_sweep (o : AnyOp) : Prop := id_needs o = false.

Lemma within_no_sweep ks {A} (p : prog A) : SweepOp ∉ ks -> all_ops (within ks) p -> all_ops no_sweep p.
Proof. intros Hnot. apply all_ops_mono. intros [X op] [_ Hk]. unfold no_sweep. by destruct op. Qed.

Lemma request_no_sweep request : SweepOp ∉ request_kinds request.
Proof. by_request request; set_solver. Qed.

(** ** DPoP proofs *)

(** The replay identifier of a proof: its key and its [jti]. *)
Definition proof_id (proof : string) : string :=
  match jws_parse proof with
  | Ok j => match map_get "jwk" (jws_header j) ≫= (fun v => match from_json v with Ok k => Some k | Err _ => None end),
                  claim_str j "jti" with
            | Some jwk, Some jti => Replay.replay_key "dpop" (thumbprint jwk) jti
            | _, _ => EmptyString
            end
  | Err _ => EmptyString
  end.

Lemma proof_ok_id verifiers proof htm htu t v : DpopProof.proof_ok verifiers proof htm htu t v ->
  Replay.replay_key "dpop" (DpopProof.vp_jkt v) (DpopProof.vp_jti v) = proof_id proof.
Proof.
  intros (j & alg & value & jwk & ver & iat & Hj & _ & _ & Hjwk & Hkey & _ & _ & _ & _ & _ & _ & _ & _ & Hjti & _ & Hjkt).
  unfold proof_id. rewrite Hj, Hjwk. cbn. by rewrite Hkey, Hjti, Hjkt.
Qed.

Lemma verify_dpop_owns proof htm htu h :
  @owns _ (id_linear (proof_id proof)) _ h (verify_dpop_inner self (Some proof) htm htu)
    (fun h' r => Nat.b2n (is_ok r) <= h')%nat.
Proof.
  unfold verify_dpop_inner.
  assert (Hemit : forall h x e, @owns _ (id_linear (proof_id proof)) (result (option string) ErrorResponse) h
    (let* _ := emit (sv_hooks self) x in Ret (Err e)) (fun h' r => Nat.b2n (is_ok r) <= h')%nat).
  { intros h' x e. apply owns_bind, owns_affine; [apply all_ops_emit|]. intros. cbn. lia. }
  owns_step; [apply Hemit|]. apply owns_bind. intros t. cbn [owns].
  destruct (DpopProof.verify_proof _ _ _ _ _) as [v|] eqn:Hv; [|apply Hemit].
  apply DpopProof.verify_proof_ok, proof_ok_id in Hv. apply owns_bind_ok; [intros; cbn; lia|].
  rewrite Hv. split; [cbn; lia|]. intros [[]|e] _; [|apply Hemit|done].
  cbn. rewrite bool_decide_eq_true_2 by done. cbn. lia.
Qed.

(** The replies granted on the strength of [proof]. *)
Definition granted_on_proof (proof : string) (r : Request * Reply) : bool :=
  match r with
  | (RToken _ context, PToken r) => is_ok r && (ctx_dpop_proof context == Some proof)
  | (RPush _ _ _ presented, PPushed r) => is_ok r && (presented == Some proof)
  | _ => false
  end.

Lemma push_no_sweep {A} (p : prog A) : all_ops (within push_kinds) p -> all_ops no_sweep p.
Proof. apply within_no_sweep. set_solver. Qed.

(** A push with a proof claims it before the request is stored. *)
Lemma push_owns proof client_id cred parameters h :
  @owns _ (id_linear (proof_id proof)) _ h
    (pushed_authorization_request_inner self client_id cred parameters (Some proof))
    (fun h' r => Nat.b2n (is_ok r) <= h')%nat.
Proof.
  unfold pushed_authorization_request_inner. owns_step; [cbn; lia|]. apply owns_bind. intros t.
  apply owns_bind_ok; [intros; cbn; lia|]. apply owns_affine.
  { eapply (within_no_sweep [ReadOp; ReplayClaim]); [set_solver|apply authenticate_client_ops]. }
  intros h1 [client|] _; [|done]. owns_step; [cbn; lia|].
  apply owns_bind_ok; [intros; cbn; lia|]. apply owns_affine; [apply push_no_sweep, pushed_parameters_ops|].
  intros h2 [request|] _; [|done]. apply owns_then_affine.
  { apply all_ops_bind_ok; [apply push_no_sweep, bind_par_dpop_ops|]. intros r. apply push_no_sweep, store_pushed_ops. }
  unfold bind_par_dpop. owns_step; [|cbn; lia]. apply owns_then_affine; [|apply verify_dpop_owns].
  apply all_ops_bind_ok; [|ops].
  eapply (within_no_sweep [ReadOp; ReplayClaim]); [set_solver|apply verify_dpop_inner_ops].
Qed.

Lemma serve_honest_dpop proof request :
  @honest _ (id_linear (proof_id proof)) _ (granted_on_proof proof) 0 (serve self request).
Proof.
  unfold honest. pose proof (within_no_sweep _ _ (request_no_sweep request) (serve_ops self request)) as Hops.
  assert (Haff : (forall reply, granted_on_proof proof (request, reply) = false) ->
    @owns _ (id_linear (proof_id proof)) _ 0 (serve self request)
      (fun h a => Nat.b2n (granted_on_proof proof a) <= h)%nat).
  { intros Hno. unfold serve in *. apply owns_bind, owns_affine; [by apply all_ops_bind_inv in Hops|].
    intros h reply _. cbn [owns]. rewrite Hno. cbn. lia. }
  destruct request as [request context| | | | | | | | | | | |c cred ps presented| | | | | |]; try by apply Haff.
  - destruct (decide (ctx_dpop_proof context = Some proof)) as [Hp|Hp].
    2:{ apply Haff. intros []; cbn; try done. by rewrite bool_decide_eq_false_2, andb_false_r. }
    unfold serve, answer in *. apply owns_bind, owns_bind.
    apply owns_mono with (Q := fun h r => (Nat.b2n (is_ok r) <= h)%nat).
    { intros h r Hr. cbn. by rewrite bool_decide_eq_true_2, andb_true_r. }
    apply all_ops_bind_inv, all_ops_bind_inv in Hops. unfold token_with_context in *.
    do 2 (match goal with |- owns _ (lift_ok ?r _) _ => destruct r eqn:? end; cbn [lift_ok] in *; [|cbn; lia]).
    apply owns_then_affine; [done|]. rewrite Hp. apply verify_dpop_owns.
  - destruct (decide (presented = Some proof)) as [->|Hp].
    2:{ apply Haff. intros []; cbn; try done. by rewrite bool_decide_eq_false_2, andb_false_r. }
    unfold serve, answer. apply owns_bind, owns_bind.
    apply owns_mono with (Q := fun h r => (Nat.b2n (is_ok r) <= h)%nat).
    { intros h r Hr. cbn. by rewrite bool_decide_eq_true_2, andb_true_r. }
    apply push_owns.
Qed.

(** C13. A DPoP proof is good for one request: of any number of token requests and pushed
    authorization requests that present the same proof, run beside each other and beside
    any other requests, in any interleaving and wherever the storage fails, at most one is
    answered with tokens or a request URI. *)
Theorem dpop_proof_used_once proof schedule requests w i j ri rj :
  store_wf (w_store w) ->
  let pool := fst (run_pool env schedule (map (serve self) requests) w) in
  pool !! i = Some (Ret ri) -> pool !! j = Some (Ret rj) ->
  granted_on_proof proof ri = true -> granted_on_proof proof rj = true -> i = j.
Proof.
  intros Hwf pool Hi Hj Hri Hrj.
  eapply (@at_most_one _ (id_linear (proof_id proof)) _ env (granted_on_proof proof)); [done| |done..].
  apply Forall_forall. intros p (r & -> & Hr)%list_elem_of_fmap. apply serve_honest_dpop.
Qed.

(** ** Client assertions *)
Definition assertion_id (client_id : ClientId) (assertion : string) : string :=
  match jws_parse assertion with
  | Ok j => Replay.replay_key "ca" client_id (unwrap_or (claim_str j "jti") EmptyString)
  | Err _ => EmptyString
  end.

Lemma assertion_ok_id verifier keys assertion client_id audience t v :
  Assertion.verify_assertion verifier keys assertion client_id audience t = Ok v ->
  Replay.replay_key "ca" client_id (Assertion.vas_jti v) = assertion_id client_id assertion.
Proof.
  intros (j & Hj & _ & _ & _ & _ & _ & _ & Hjti & _)%Assertion.verify_assertion_ok.
  unfold assertion_id. by rewrite Hj, Hjti.
Qed.

Section assertion.
Context (client_id : ClientId) (assertion : string).
Notation id_owns := (@owns _ (id_linear (assertion_id client_id assertion)) _).

Lemma by_assertion_owns client cred paid h :
  c_client_id client = client_id -> cred_client_assertion cred = Some assertion ->
  id_owns h (authenticate_by_assertion self client cred paid)
    (fun h' r => Nat.b2n (is_ok (fst r)) <= h')%nat.
Proof.
  intros Hid Ha. unfold authenticate_by_assertion. owns_step; [cbn; lia|]. rewrite Ha.
  destruct (c_auth client) as [| | |keys|] eqn:Hk; try (cbn; lia).
  apply owns_bind. intros t. cbn [owns].
  destruct (Assertion.verify_assertion _ _ _ _ _ _) as [v|] eqn:Hv; [|cbn; lia].
  rewrite Hid in Hv |- *. apply assertion_ok_id in Hv. apply owns_bind. rewrite Hv.
  split; [cbn; lia|]. intros [[]|e] _; cbn; try lia.
  rewrite bool_decide_eq_true_2 by done. cbn. lia.
Qed.

Lemma classify_owns cred h : cred_client_assertion cred = Some assertion ->
  id_owns h (classify_client_credential self client_id cred no_cost)
    (fun h' r => forall client cost, r = Ok (Authenticated client, cost) -> 1 <= h')%nat.
Proof.
  intros Ha. unfold classify_client_credential. apply owns_bind_ok; [done|].
  split; [cbn; lia|]. intros [[client|]|e] Hans; cbn [map_err owns]; [|done|done].
  specialize (Hans client eq_refl). cbn in Hans.
  replace (h - _ + _)%nat with h by (cbn; lia).
  apply owns_bind. apply (owns_mono _ (fun h' _ => h' = h)).
  2:{ unfold secret_expired. apply owns_neutral; [ops|done]. }
  intros h' expired ->. owns_step; [done|]. rewrite Ha. cbn [is_some].
  apply owns_bind. eapply owns_mono; [|by apply by_assertion_owns].
  intros h' [r cost] Hr client' cost' He. cbn in *. destruct r; [|done]. cbn in Hr. lia.
Qed.

Lemma authenticate_owns cred h : cred_client_assertion cred = Some assertion ->
  id_owns h (authenticate_client self client_id cred) (fun h' r => Nat.b2n (is_ok r) <= h')%nat.
Proof.
  intros Ha. unfold authenticate_client. apply owns_bind_ok; [intros; cbn; lia|].
  apply owns_affine; [unfold admit_client_authentication; ops|].
  intros h1 [u|] _; [|done]. apply owns_bind_ok; [intros; cbn; lia|].
  eapply owns_mono; [|by apply classify_owns]. intros h2 [[verdict cost]|] Hv; [|done]. cbn [fst snd].
  destruct verdict as [client|failure].
  - specialize (Hv _ _ eq_refl). apply owns_bind, owns_affine; [apply all_ops_hook_record|].
    intros h3 r Hle. cbn. lia.
  - apply owns_bind, owns_affine.
    { unfold settle_credential_cost, dummy_verify, dummy_assertion_verify. ops. }
    intros h3 r3 _. apply owns_bind, owns_affine; [apply all_ops_hook_record|]. intros h4 r4 _.
    apply owns_bind, owns_affine; [apply all_ops_emit|]. intros. cbn. lia.
Qed.
End assertion.

(** The client and the assertion a request presents, and whether it was served. *)
Definition token_client (request : TokenRequest) : ClientId :=
  match request with
  | TRAuthorizationCode c _ _ _ _ | TRClientCredentials c _ _ | TRDeviceCode c _ _
  | TRRefreshToken c _ _ _ => c
  end.
Definition presents (request : Request) : option (ClientId * string) :=
  match request with
  | RToken request context =>
      (fun a => (token_client request, a)) <$> cred_client_assertion (ctx_credential context)
  | RDeviceAuthorization c cred _ | RIntrospect c cred _ | RRevoke c cred _ _ =>
      pair c <$> cred_client_assertion cred
  | RPush c cred _ _ => pair c <$> cred_client_assertion cred
  | RExchange request => pair (te_client_id request) <$> te_client_assertion request
  | _ => None
  end.
Definition served (reply : Reply) : bool :=
  match reply with
  | PToken r => is_ok r
  | PDeviceAuthorization r => is_ok r
  | PIntrospection r => is_ok r
  | PRevoked r => is_ok r
  | PExchanged r => is_ok r
  | PPushed r => is_ok r
  | _ => false
  end.
Definition served_on_assertion (client_id : ClientId) (assertion : string) (r : Request * Reply) : bool :=
  (presents (fst r) == Some (client_id, assertion)) && served (snd r).

(** Every endpoint that authenticates a client by an assertion claims it before it serves. *)
Section endpoint.
Context (client_id : ClientId) (assertion : string).
Notation served_owns h p :=
  (@owns _ (id_linear (assertion_id client_id assertion)) _ h p (fun h' r => Nat.b2n (is_ok r) <= h')%nat).

Lemma authenticated_owns cred {B} (f : Client -> prog (result B ErrorResponse)) h :
  cred_client_assertion cred = Some assertion ->
  all_ops no_sweep (bind_ok (authenticate_client self client_id cred) f) ->
  served_owns h (bind_ok (authenticate_client self client_id cred) f).
Proof. intros Ha Hops. apply owns_then_affine; [done|]. by apply authenticate_owns. Qed.

Lemma audited_owns c g p h : served_owns h p -> served_owns h (audited self c g p).
Proof.
  intros Hp. unfold audited. apply owns_bind. eapply owns_mono; [|exact Hp]. intros h' r Hr.
  apply owns_bind, owns_affine; [unfold emit_refusal; ops|]. intros h'' u Hle. cbn [owns].
  cbn in Hr. lia.
Qed.

Lemma exchange_owns request :
  te_client_id request = client_id -> te_client_assertion request = Some assertion ->
  served_owns 0 (exchange_token self request).
Proof.
  intros Hc Ha. pose proof (within_no_sweep token_kinds _ ltac:(set_solver) (exchange_token_ops self request)) as Hops.
  unfold exchange_token in *. apply owns_bind. apply all_ops_bind_inv in Hops.
  apply (owns_mono _ (fun h' r => Nat.b2n (is_ok r) <= h')%nat).
  - intros h r Hr. apply owns_bind, owns_affine; [ops|]. intros h' u Hle. cbn [owns]. cbn in Hr. lia.
  - unfold exchange in *. owns_step; [cbn; lia|]. rewrite Hc in *. by apply authenticated_owns.
Qed.

Lemma token_with_context_owns request context :
  token_client request = client_id ->
  cred_client_assertion (ctx_credential context) = Some assertion ->
  served_owns 0 (token_with_context self request context).
Proof.
  intros Hc Ha. unfold token_with_context.
  do 2 (match goal with |- owns _ (lift_ok ?r _) _ => destruct r eqn:? end; cbn [lift_ok]; [|cbn; lia]).
  apply owns_bind_ok; [intros; cbn; lia|].
  apply owns_affine; [eapply (within_no_sweep [ReadOp; ReplayClaim]); [set_solver|apply verify_dpop_ops]|].
  intros h [jkt|] _; [|done].
  destruct request; cbn in Hc; subst; [| |do 2 (owns_step; [cbn; lia|])|]; apply audited_owns.
  - apply authenticated_owns; [done|]. eapply within_no_sweep; [|apply authorization_code_ops]. set_solver.
  - assert (Hops : all_ops no_sweep (client_credentials_token self client_id
      {| b_cred := or_secret (ctx_credential context) client_secret; b_jkt := jkt |} scope a a0))
      by (eapply within_no_sweep; [|apply client_credentials_ops]; set_solver).
    unfold client_credentials_token in *. apply owns_bind. intros t. apply authenticated_owns; [done|apply Hops].
  - apply authenticated_owns; [done|]. eapply within_no_sweep; [|apply device_token_ops]. set_solver.
  - apply authenticated_owns; [done|]. eapply within_no_sweep; [|apply refresh_token_ops]. set_solver.
Qed.
End endpoint.

Lemma answer_owns client_id assertion request :
  presents request = Some (client_id, assertion) ->
  @owns _ (id_linear (assertion_id client_id assertion)) _ 0 (answer self request)
    (fun h reply => Nat.b2n (served reply) <= h)%nat.
Proof.
  pose proof (within_no_sweep _ _ (request_no_sweep request) (serve_ops self request)) as Hops.
  unfold serve in Hops. apply all_ops_bind_inv in Hops.
  destruct request;
    cbn [presents]; try done; intros (a & Ha & [= -> ->])%fmap_Some; cbn [answer] in *;
    apply all_ops_bind_inv in Hops; apply owns_bind;
    apply (owns_mono _ (fun h r => Nat.b2n (is_ok r) <= h)%nat); try done.
  - by apply token_with_context_owns.
  - unfold device_authorization in *. apply owns_bind. intros t. apply authenticated_owns; [done|apply Hops].
  - by apply authenticated_owns.
  - by apply authenticated_owns.
  - by apply exchange_owns.
  - unfold pushed_authorization_request_with_credential_and_proof, pushed_authorization_request_inner in *.
    owns_step; [cbn; lia|]. apply owns_bind. intros t. apply authenticated_owns; [done|apply Hops].
Qed.

(** C14. A client assertion authenticates one request: of any number of requests, to any of
    the endpoints that authenticate clients, that present the same assertion for the same
    client, at most one is served, in any interleaving with any other requests and
    wherever the storage fails. *)
Theorem assertion_used_once client_id assertion schedule requests w i j ri rj :
  store_wf (w_store w) ->
  let pool := fst (run_pool env schedule (map (serve self) requests) w) in
  pool !! i = Some (Ret ri) -> pool !! j = Some (Ret rj) ->
  served_on_assertion client_id assertion ri = true ->
  served_on_assertion client_id assertion rj = true -> i = j.
Proof.
  intros Hwf pool Hi Hj Hri Hrj.
  eapply (@at_most_one _ (id_linear (assertion_id client_id assertion)) _ env
            (served_on_assertion client_id assertion)); [done| |done..].
  apply Forall_forall. intros p (r & -> & _)%list_elem_of_fmap. unfold honest, serve. apply owns_bind.
  destruct (decide (presents r = Some (client_id, assertion))) as [Hp|Hp].
  - eapply owns_mono; [|by apply answer_owns]. intros h reply Hr. cbn [owns]. unfold served_on_assertion. cbn [fst snd].
    by rewrite bool_decide_eq_true_2.
  - apply owns_affine.
    + pose proof (within_no_sweep _ _ (request_no_sweep r) (serve_ops self r)) as Hops.
      by apply all_ops_bind_inv in Hops.
    + intros h reply _. cbn [owns]. unfold served_on_assertion. cbn [fst snd].
      rewrite bool_decide_eq_false_2 by done. cbn. lia.
Qed.
End proofs_once.

(** ** Evaluation *)
Lemma code_yields_one_response_witness :
  exists r, demo_run 100 demo_client demo_server [demo_redeem; demo_redeem] !! 0%nat = Some (Ret r) /\
    redeemed "code" r = true /\
    (forall j rj, demo_run 100 demo_client demo_server [demo_redeem; demo_redeem] !! j = Some (Ret rj) ->
       redeemed "code" rj = true -> 0%nat = j).
Proof.
  eexists. split; [vm_compute; reflexivity|]. split; [vm_compute; reflexivity|]. intros j rj Hj Hrj.
  eapply (@code_yields_one_response plain_crypto assertion_serde no_backends listing_order demo_server
            (fixed_env 100) "code" (turns 40) [demo_redeem; demo_redeem]
            (world_of (demo_server_store demo_client)));
    [apply store_wf_reachable|trace_ok|vm_compute; reflexivity|exact Hj|vm_compute; reflexivity|exact Hrj].
Defined.

Lemma device_grant_yields_one_response_witness :
  exists r, demo_run 100 demo_client demo_server [demo_poll; demo_poll] !! 0%nat = Some (Ret r) /\
    polled "device" r = true /\
    (forall j rj, demo_run 100 demo_client demo_server [demo_poll; demo_poll] !! j = Some (Ret rj) ->
       polled "device" rj = true -> 0%nat = j).
Proof.
  eexists. split; [vm_compute; reflexivity|]. split; [vm_compute; reflexivity|]. intros j rj Hj Hrj.
  eapply (@device_grant_yields_one_response plain_crypto assertion_serde no_backends listing_order demo_server
            (fixed_env 100) "device" (turns 40) [demo_poll; demo_poll]
            (world_of (demo_server_store demo_client)));
    [apply store_wf_reachable|trace_ok|vm_compute; reflexivity|exact Hj|vm_compute; reflexivity|exact Hrj].
Defined.

Definition dpop_server : AuthorizationServer := {|
  sv_config := sv_config demo_server; sv_hooks := sv_hooks demo_server; sv_secret_verifier := None;
  sv_jws_verifiers := Some (install demo_verifier no_verifiers);
  sv_registration_policy := None; sv_request_object_keys := None |}.
Definition demo_with_proof : Request :=
  RToken (TRClientCredentials "app" (Some "s3cret") None) (demo_context None (Some demo_proof)).
Definition demo_with_assertion : Request :=
  RToken (TRClientCredentials "app" None None) (demo_context (Some demo_assertion) None).

Lemma dpop_proof_used_once_witness :
  exists r, demo_run 100 demo_client dpop_server [demo_with_proof; demo_with_proof] !! 0%nat = Some (Ret r) /\
    granted_on_proof demo_proof r = true /\
    (forall j rj, demo_run 100 demo_client dpop_server [demo_with_proof; demo_with_proof] !! j = Some (Ret rj) ->
       granted_on_proof demo_proof rj = true -> 0%nat = j).
Proof.
  eexists. split; [vm_compute; reflexivity|]. split; [vm_compute; reflexivity|]. intros j rj Hj Hrj.
  eapply (@dpop_proof_used_once plain_crypto assertion_serde no_backends listing_order dpop_server
            (fixed_env 100) demo_proof (turns 40) [demo_with_proof; demo_with_proof]
            (world_of (demo_server_store demo_client)));
    [apply store_wf_reachable|vm_compute; reflexivity|exact Hj|vm_compute; reflexivity|exact Hrj].
Defined.

Lemma assertion_used_once_witness :
  exists r, demo_run 50 assertion_client demo_server [demo_with_assertion; demo_with_assertion] !! 0%nat
              = Some (Ret r) /\
    served_on_assertion "app" demo_assertion r = true /\
    (forall j rj, demo_run 50 assertion_client demo_server [demo_with_assertion; demo_with_assertion] !! j
                    = Some (Ret rj) ->
       served_on_assertion "app" demo_assertion rj = true -> 0%nat = j).
Proof.
  eexists. split; [vm_compute; reflexivity|]. split; [vm_compute; reflexivity|]. intros j rj Hj Hrj.
  eapply (@assertion_used_once plain_crypto assertion_serde no_backends listing_order demo_server
            (fixed_env 50) "app" demo_assertion (turns 40) [demo_with_assertion; demo_with_assertion]
            (world_of (demo_server_store assertion_client)));
    [apply store_wf_reachable|vm_compute; reflexivity|exact Hj|vm_compute; reflexivity|exact Hrj].
Defined.

(** The same handle presented twice by its client. *)
Definition demo_handle : Request := RValidatePushed "app" "urn:demo".
Definition demo_handles : list (prog (Request * Reply)) :=
  fst (run_pool (fixed_env 100) (turns 10)
         (map (@serve plain_crypto object_serde no_backends par_server) [demo_handle; demo_handle])
         (world_of demo_pushed_store)).

Lemma request_uri_used_once_witness :
  exists r, demo_handles !! 0%nat = Some (Ret r) /\ uri_honoured "urn:demo" r = true /\
    (forall j rj, demo_handles !! j = Some (Ret rj) -> uri_honoured "urn:demo" rj = true -> 0%nat = j).
Proof.
  eexists. split; [vm_compute; reflexivity|]. split; [vm_compute; reflexivity|]. intros j rj Hj Hrj.
  eapply (@request_uri_used_once plain_crypto object_serde no_backends listing_order par_server
            (fixed_env 100) "urn:demo" (turns 10) [demo_handle; demo_handle] (world_of demo_pushed_store));
    [do 2 apply store_wf_op; apply store_wf_empty|trace_ok|vm_compute; reflexivity|exact Hj|vm_compute; reflexivity|exact Hrj].
Defined.
