(* ===== verification/Delivery.v ===== *)
(** * Delivery: one answer per grant, over HTTP

    The theorems of [Once] for whole HTTP requests: any number of them, taken up by [handle]
    in any interleaving, deliver the tokens of a code or of a device grant at most once. *)
From S2P Require Import Prelude Time Codec Scope Types Store StoreFacts Effects Trace Ops Linear Rar Consent Jws.
From S2P Require Import Credentials Config ClientAuthn Registration Issue Device Redirect Authorize Par Grants.
From S2P Require Import TokenExchange Endpoints Metadata Form Http Surface Routing Server Exposure Once.
Local Open Scope Z_scope.

(** ** What each route asks of the store *)
Section ops.
Context `{Crypto, Serde, Backends, HttpLib, HttpSerde} (state : Inner).

Definition route_kinds (route : Route) : list OpKind :=
  match route with
  | RouteMetadata | RouteJwks => []
  | RouteAuthorize => [ReadOp; ReplayClaim; PushedWrite; CodeWrite; ConsentWrite]
  | RouteToken => [ReadOp; ReplayClaim; TokenWrite; CodeWrite; DeviceWrite]
  | RouteDevice => [ReadOp; ReplayClaim; DeviceWrite]
  | RouteIntrospect | RouteRevoke => token_kinds
  | RoutePar => push_kinds
  | RouteVerification => [ReadOp; DeviceWrite]
  | RouteRegister => [ClientWrite]
  | RouteManage _ => [ReadOp; ClientWrite]
  end.

Lemma with_form_ops P text k : (forall form, all_ops P (k form)) -> all_ops P (with_form text k).
Proof. intros Hk. unfold with_form. case_match; [apply Hk|exact I]. Qed.
Lemma or_refuse_ops {A} P (r : result A ErrorResponse) via k : (forall a, all_ops P (k a)) ->
  all_ops P (or_refuse state r via k).
Proof. intros Hk. destruct r; [apply Hk|exact I]. Qed.
Lemma proof_header_ops ks headers via : all_ops (within ks) (dpop_proof_header state headers via).
Proof. unfold dpop_proof_header. ops. Qed.

Ltac form_step := lazymatch goal with
  | |- all_ops _ (with_form _ _) => apply with_form_ops; intros
  | |- all_ops _ (or_refuse _ _ _ _) => apply or_refuse_ops; intros
  | |- all_ops _ (dpop_proof_header _ _ _) => apply proof_header_ops
  end.
Ltac form_ops := repeat first [form_step | ops_step]; auto with oauth.
Ltac sub L := eapply within_mono; [|apply L]; set_solver.

Lemma token_route_ops headers body : all_ops (within (route_kinds RouteToken)) (token_handler state headers body).
Proof.
  unfold token_handler, token_exchange_response. form_ops.
  - eapply within_mono; [|apply token_with_context_ops].
    match goal with |- request_kinds (RToken ?r _) ⊆ _ => destruct r end; cbn; set_solver.
  - sub exchange_token_ops.
Qed.

Lemma authorize_route_ops headers uri :
  all_ops (within (route_kinds RouteAuthorize)) (authorize_handler state headers uri).
Proof.
  unfold authorize_handler, approved, resolve_authorization_request, remembered_consent. form_ops.
  all: first [sub validate_pushed_ops | sub validate_signed_ops | sub validate_ops
             | sub issue_authorization_code_ops | sub record_consent_ops].
Qed.

Lemma verification_ops headers entered status message entry :
  all_ops (within [ReadOp]) (render_verification state headers entered status message entry).
Proof. unfold render_verification, render_form. form_ops; apply pending_grant_ops. Qed.

Lemma submit_ops headers body :
  all_ops (within (route_kinds RouteVerification)) (verification_submit_handler state headers body).
Proof.
  unfold verification_submit_handler, decide_device. form_ops.
  all: first [sub verification_ops | sub deny_device_ops | sub approve_device_ops].
Qed.

Lemma dispatch_ops route method headers uri body :
  all_ops (within (route_kinds route)) (dispatch state route method headers uri body).
Proof.
  destruct route; cbn [dispatch]; unfold form_body; form_ops.
  - apply authorize_route_ops.
  - apply token_route_ops.
  - unfold device_authorization_handler. form_ops. sub device_authorization_ops.
  - unfold introspect_handler. form_ops. sub introspection_ops.
  - unfold revoke_handler. form_ops. sub revoke_ops.
  - unfold verification_page_handler. form_ops. sub verification_ops.
  - apply submit_ops.
  - unfold register_handler, admit_registration, register_admitted_client, draw_hex, try_random_hex. form_ops.
  - unfold read_registration_handler. form_ops. sub read_registration_ops.
  - unfold update_registration_handler. form_ops; [sub authenticate_registration_ops|sub update_registration_ops].
  - unfold delete_registration_handler. form_ops. sub delete_registration_ops.
  - unfold pushed_authorization_handler. form_ops. sub push_ops.
Qed.
End ops.

(** ** Tokens delivered on a grant *)
Section delivered.
Context `{HttpLib} (state : Inner).

(** The route of a request and the form of its body. *)
Definition request_route (request : HttpRequest) : option Route :=
  resolve (in_routes state) (uppercase_escapes (uri_path (rq_uri request))).
Definition request_form (request : HttpRequest) : option (list Pair) :=
  match collect_body (rq_body request) MAX_BODY_BYTES with
  | Ok bytes => match parse_pairs (from_utf8_lossy bytes) with Ok form => Some form | Err _ => None end
  | Err _ => None
  end.

(** The form asks for the grant on the strength of the value in its field. *)
Definition names_grant (grant : GrantType) (field value : string) (form : list Pair) : bool :=
  match requested_grant form with Ok g => g == grant | Err _ => false end && (param form field == Some value).

Definition holds_tokens (r : Response) : bool :=
  match rs_body r with JsonBody (JToken _) => true | _ => false end.

(** A request to the token endpoint for the grant, answered with tokens. *)
Definition delivered (grant : GrantType) (field value : string) (exchange : HttpRequest * Response) : bool :=
  let (request, resp) := exchange in
  match request_route request, request_form request with
  | Some RouteToken, Some form => names_grant grant field value form && holds_tokens resp
  | _, _ => false
  end.
End delivered.

Lemma owns_ret_inv `{Linear} {A B} (p : prog A) (g : A -> B) (Q : nat -> B -> Prop) : forall h,
  owns h (let* a := p in Ret (g a)) Q -> owns h p (fun h a => Q h (g a)).
Proof. induction p; cbn; intros h' Hp; auto. destruct Hp as [? Hp]. split; auto. Qed.

Section linear.
Context `{Crypto, Serde, Backends, HttpLib, HttpSerde} `{L : Linear} (state : Inner).
Context (grant : GrantType) (field value : string) (spends : TokenRequest -> bool).
(** The server's own answer holds what it spends. *)
Hypothesis Htoken : forall request context,
  owns 0 (token_with_context (in_server state) request context) (fun h x => Nat.b2n (is_ok x && spends request) <= h)%nat.
Hypothesis Hexchange : forall request, all_ops neutral (exchange_token (in_server state) request).
Hypothesis Hspends : forall g form client_id request,
  requested_grant form = Ok g -> token_request g form client_id = Ok (Some request) ->
  names_grant grant field value form = true -> spends request = true.

Let good (form : list Pair) (r : Response) : bool := names_grant grant field value form && holds_tokens r.

Lemma no_tokens_owns form h r : holds_tokens r = false -> owns h (Ret r) (fun h r => Nat.b2n (good form r) <= h)%nat.
Proof. intros Hr. cbn. unfold good. rewrite Hr, andb_false_r. cbn. lia. Qed.
Lemma refuse_no_tokens e via : holds_tokens (refuse state e via) = false.
Proof. unfold refuse, error_response, holds_tokens. by destruct (_ =? 401). Qed.

Lemma refused_owns {A} form h (r : result A ErrorResponse) via (k : A -> prog Response) :
  (forall a, r = Ok a -> owns h (k a) (fun h r => Nat.b2n (good form r) <= h)%nat) ->
  owns h (or_refuse state r via k) (fun h r => Nat.b2n (good form r) <= h)%nat.
Proof. intros Hk. destruct r; cbn; [by apply Hk|]. apply no_tokens_owns, refuse_no_tokens. Qed.

Lemma emit_owns {A} h e (k : prog A) Q :
  owns h k Q -> owns h (let* _ := emit (sv_hooks (in_server state)) e in k) Q.
Proof. unfold emit. by destruct (h_events _). Qed.

Lemma proof_owns form headers via (k : _ -> prog Response) :
  (forall p, owns 0 (k (Ok p)) (fun h r => Nat.b2n (good form r) <= h)%nat) ->
  (forall r, k (Err r) = Ret r) ->
  owns 0 (let* proof := dpop_proof_header state headers via in k proof) (fun h r => Nat.b2n (good form r) <= h)%nat.
Proof.
  intros Hk Hr. unfold dpop_proof_header.
  assert (Hrefused : forall why, owns 0 (let* proof :=
      (let* _ := emit (sv_hooks (in_server state)) (DpopProofRefused DFMalformed) in
       Ret (Err (refuse state (with_description (error_new InvalidDpopProof) why) via))) in k proof)
      (fun h r => Nat.b2n (good form r) <= h)%nat).
  { intros why. unfold emit. destruct (h_events _); cbn [bind owns]; rewrite Hr; apply no_tokens_owns, refuse_no_tokens. }
  destruct (header_get_all headers "dpop") as [|v [|? ?]]; [apply Hk| |apply Hrefused].
  destruct (header_to_str v); [apply Hk|apply Hrefused].
Qed.

Lemma token_handler_owns headers body form : parse_pairs (from_utf8_lossy body) = Ok form ->
  owns 0 (token_handler state headers body) (fun h r => Nat.b2n (good form r) <= h)%nat.
Proof.
  intros Hform. unfold token_handler, with_form. rewrite Hform.
  apply refused_owns. intros g Hg. apply refused_owns. intros creds _. apply proof_owns; [|done].
  intros proof. apply refused_owns. intros [request|] Hreq.
  - apply owns_bind. eapply owns_mono; [|apply Htoken]. intros h x Hx. cbn.
    unfold good. destruct (names_grant grant field value form) eqn:Hn; [|cbn; lia].
    rewrite (Hspends g form _ request Hg Hreq Hn), andb_true_r in Hx. cbn [andb].
    destruct x; cbn in Hx |- *; [done|]. rewrite refuse_no_tokens. cbn. lia.
  - destruct (is_some proof); [apply emit_owns, no_tokens_owns, refuse_no_tokens|].
    unfold token_exchange_response. apply refused_owns. intros request _.
    apply owns_bind, owns_neutral; [apply Hexchange|]. intros [x|e]; apply no_tokens_owns; [done|apply refuse_no_tokens].
Qed.

(** A request taken up, with its response. *)
Definition deliver (request : HttpRequest) : prog (HttpRequest * Response) :=
  let* resp := handle state request in Ret (request, resp).

Lemma deliver_honest request :
  (forall route, request_route state request = Some route -> route <> RouteToken ->
     forall method, all_ops (fun o => needs o = false)
       (dispatch state route method (rq_headers request) (rq_uri request) (rq_body request))) ->
  honest (delivered state grant field value) 0 (deliver request).
Proof.
  intros Hother. unfold honest, deliver. apply owns_bind. unfold handle. cbn [owns].
  fold (request_route state request). destruct (request_route state request) as [route|] eqn:Hr.
  2: { cbn. rewrite Hr. cbn. lia. }
  apply owns_bind. destruct (decide (route = RouteToken)) as [->|Hne].
  - assert (Hsilent : forall h resp, holds_tokens resp = false ->
      (Nat.b2n (delivered state grant field value (request, resp)) <= h)%nat).
    { intros h resp Hs. cbn. rewrite Hr. destruct (request_form request); [|cbn; lia].
      rewrite Hs, andb_false_r. cbn. lia. }
    cbn [dispatch]. destruct (rq_method request == "HEAD") eqn:Hm.
    { rewrite (bool_decide_eq_false_2 ("GET" = "POST")) by done. cbn [owns]. apply Hsilent.
      unfold head_response. by case_match. }
    destruct (rq_method request == "POST"); [|by apply Hsilent].
    unfold form_body. destruct (collect_body _ _) as [bytes|e] eqn:Hb; [|by destruct e; apply Hsilent].
    destruct (parse_pairs (from_utf8_lossy bytes)) as [form|[]] eqn:Hp.
    + eapply owns_mono; [|by apply token_handler_owns]. intros h resp Hresp. cbn. rewrite Hr.
      unfold request_form. rewrite Hb, Hp. exact Hresp.
    + unfold token_handler, with_form. rewrite Hp. by apply Hsilent.
  - eapply owns_affine; [by apply Hother|]. intros h resp _. cbn. rewrite Hr. destruct route; cbn; try lia. done.
Qed.
End linear.

(** ** The grants that are good once *)

(** The grants redeemed on a value that is handed out once, the field it is sent in, and the
    endpoint that hands such values out. *)
Inductive one_time : GrantType -> string -> Route -> Prop :=
| once_code : one_time AuthorizationCode "code" RouteAuthorize
| once_device : one_time DeviceCode "device_code" RouteDevice.

Section once.
Context `{Crypto, Serde, Backends, HttpLib, HttpSerde, HashOrder} (state : Inner) (env : Env) (value : string).

Lemma requested_value g form client_id request grant field :
  requested_grant form = Ok g -> token_request g form client_id = Ok (Some request) ->
  names_grant grant field value form = true ->
  g = grant /\ param form field = Some value /\ token_request grant form client_id = Ok (Some request).
Proof. unfold names_grant. intros Hg Hr. rewrite Hg. intros Hn. bools. subst. done. Qed.

Lemma deliver_code request : request_route state request <> Some RouteAuthorize ->
  @honest _ (code_linear value) _ (delivered state AuthorizationCode "code" value) 0 (deliver state request).
Proof.
  intros Hroute.
  apply (@deliver_honest _ _ _ _ _ _ (code_linear value) state AuthorizationCode "code" value
           (fun r => match r with TRAuthorizationCode _ _ c _ _ => c == value | _ => false end)).
  - intros r ctx. pose proof (serve_honest (in_server state) value (RToken r ctx) I) as Hs.
    unfold honest, serve in Hs. apply owns_ret_inv in Hs. cbn [answer] in Hs. apply owns_ret_inv in Hs.
    eapply owns_mono; [|exact Hs]. intros h x Hx. destruct r; cbn in Hx |- *; rewrite ?andb_false_r; done.
  - intros r. eapply all_ops_mono; [|apply exchange_token_ops]. intros o. apply code_neutral. set_solver.
  - intros g form client_id r Hg Hr Hn. destruct (requested_value _ _ _ _ _ _ Hg Hr Hn) as (_ & Hp & Ht).
    cbn in Ht. unfold required in Ht. rewrite Hp in Ht. cbn in Ht. simplify_eq. by apply bool_decide_eq_true_2.
  - intros route Hr Hne method. eapply all_ops_mono; [|apply dispatch_ops].
    intros o Ho. apply (code_neutral value (route_kinds route)); [|done].
    destruct route; try (cbn; set_solver); congruence.
Qed.

Lemma verification_no_grant method headers uri body :
  all_ops (fun o => @needs _ (grant_linear value) o = false) (dispatch state RouteVerification method headers uri body).
Proof.
  assert (Hrender : forall entered status message entry, all_ops (fun o => @needs _ (grant_linear value) o = false)
            (render_verification state headers entered status message entry)).
  { intros. eapply all_ops_mono; [|apply verification_ops]. intros [X op] [_ Hk].
    apply list_elem_of_singleton in Hk. by destruct op. }
  cbn [dispatch]. unfold form_body, verification_page_handler, verification_submit_handler, decide_device,
    approve_device, deny_device, pending_grant_by_user_code, lookup_pending_grant_by_user_code.
  repeat first [apply with_form_ops | ops_step | apply Hrender]; done.
Qed.

Lemma deliver_device request : request_route state request <> Some RouteDevice ->
  @honest _ (grant_linear value) _ (delivered state DeviceCode "device_code" value) 0 (deliver state request).
Proof.
  intros Hroute.
  assert (Hkinds : forall ks {A} (p : prog A), DeviceWrite ∉ ks -> all_ops (within ks) p ->
            all_ops (@neutral _ (grant_linear value)) p).
  { intros ks A p Hnot. apply all_ops_mono. intros [X op] [_ Hk]. unfold neutral; cbn in *.
    unfold grant_needs; cbn. by destruct op; cbn in Hk |- *. }
  apply (@deliver_honest _ _ _ _ _ _ (grant_linear value) state DeviceCode "device_code" value
           (fun r => match r with TRDeviceCode _ _ d => d == value | _ => false end)).
  - intros r ctx. pose proof (serve_honest_device (in_server state) value (RToken r ctx) I) as Hs.
    unfold honest, serve in Hs. apply owns_ret_inv in Hs. cbn [answer] in Hs. apply owns_ret_inv in Hs.
    eapply owns_mono; [|exact Hs]. intros h x Hx. destruct r; cbn in Hx |- *; rewrite ?andb_false_r; done.
  - intros r. eapply Hkinds, exchange_token_ops. set_solver.
  - intros g form client_id r Hg Hr Hn. destruct (requested_value _ _ _ _ _ _ Hg Hr Hn) as (_ & Hp & Ht).
    cbn in Ht. unfold required in Ht. rewrite Hp in Ht. cbn in Ht. simplify_eq. by apply bool_decide_eq_true_2.
  - intros route Hr Hne method.
    assert (Hquiet : DeviceWrite ∉ route_kinds route -> all_ops (fun o => @needs _ (grant_linear value) o = false)
              (dispatch state route method (rq_headers request) (rq_uri request) (rq_body request))).
    { intros Hk. eapply all_ops_mono; [|eapply Hkinds; [exact Hk|apply dispatch_ops]]. by intros o [? _]. }
    destruct route; try (apply Hquiet; cbn; set_solver); [congruence..|]. apply verification_no_grant.
Qed.

(** C2. The tokens of a grant are delivered once.  Let any number of HTTP requests be taken up
    beside each other, whatever they ask and whatever their headers and bodies, in any
    interleaving of everything they do, whatever the world answers and wherever the storage
    fails; of all the requests to the token endpoint for the same authorization code, or for
    the same device code, at most one gets a response with tokens.  (Requests to the endpoint
    that hands out new codes are left out, since a random source might repeat a value.) *)
Theorem http_delivers_once grant field source schedule requests w i j ri rj :
  one_time grant field source -> store_wf (w_store w) ->
  Forall (fun r => request_route state r <> Some source) requests ->
  let pool := fst (run_pool env schedule (map (deliver state) requests) w) in
  pool !! i = Some (Ret ri) -> pool !! j = Some (Ret rj) ->
  delivered state grant field value ri = true -> delivered state grant field value rj = true -> i = j.
Proof.
  intros Hgrant Hwf Hno pool Hi Hj Hri Hrj.
  assert (Hpool : forall L : Linear,
    (forall r, request_route state r <> Some source -> honest (delivered state grant field value) 0 (deliver state r)) ->
    i = j).
  { intros L Hhonest. eapply (@at_most_one _ L _ env (delivered state grant field value)); [done| |done..].
    apply Forall_forall. intros p (r & -> & Hr)%list_elem_of_fmap. apply Hhonest.
    rewrite Forall_forall in Hno. by apply Hno. }
  destruct Hgrant; [apply (Hpool (code_linear value)), deliver_code|apply (Hpool (grant_linear value)), deliver_device].
Qed.
End once.

(** ** Evaluation *)

(** Two clients send the same code at the same time. *)
Definition demo_pool (i : @Inner plain_http) : list (prog (@HttpRequest plain_http * Response)) :=
  fst (run_pool (fixed_env 100) (turns 40)
    (map (@deliver plain_crypto assertion_serde no_backends plain_http plain_http_serde i)
       [demo_token_request; demo_token_request])
    (world_of (demo_server_store demo_client))).
Definition demo_winner (i : @Inner plain_http) : bool :=
  match demo_pool i !! 0%nat with
  | Some (Ret r) => @delivered plain_http i AuthorizationCode "code" "code" r
  | _ => false
  end.
Definition demo_elsewhere (i : @Inner plain_http) : bool :=
  bool_decide (@request_route plain_http i demo_token_request = Some RouteToken).
Lemma demo_delivery : (fun i => demo_winner i && demo_elsewhere i) <$> demo_inner = Some true.
Proof. vm_compute. reflexivity. Qed.

Lemma http_delivers_once_witness :
  exists i r, demo_inner = Some i /\ demo_pool i !! 0%nat = Some (Ret r) /\
    @delivered plain_http i AuthorizationCode "code" "code" r = true /\
    (forall j rj, demo_pool i !! j = Some (Ret rj) ->
       @delivered plain_http i AuthorizationCode "code" "code" rj = true -> 0%nat = j).
Proof.
  pose proof demo_delivery as Hd. destruct demo_inner as [i|]; [|discriminate Hd]. injection Hd as Hd.
  apply andb_true_iff in Hd as [Hw He]. apply bool_decide_eq_true in He. unfold demo_winner in Hw.
  destruct (demo_pool i !! 0%nat) as [p|] eqn:Hp; [|discriminate Hw].
  destruct p as [r| | | | | | | |]; try discriminate Hw.
  exists i, r. split; [reflexivity|]. split; [exact Hp|]. split; [exact Hw|]. intros j rj Hj Hrj.
  refine (@http_delivers_once plain_crypto assertion_serde no_backends plain_http plain_http_serde listing_order
            i (fixed_env 100) "code" AuthorizationCode "code" RouteAuthorize (turns 40)
            [demo_token_request; demo_token_request] (world_of (demo_server_store demo_client)) 0%nat j r rj
            once_code _ _ Hp Hj Hw Hrj).
  - apply store_wf_reachable.
  - repeat (apply Forall_cons_2; [rewrite He; discriminate|]). apply Forall_nil_2.
Defined.
