(* ===== verification/Containment.v ===== *)
(** * Containment of replay and the reach of a revocation

    What happens to a grant when a spent code or a spent refresh token is presented
    again, and what the revocation endpoint may touch. *)
From S2P Require Import Prelude Time Codec Scope Types Store StoreFacts Effects Trace Ops Rar Consent Jws.
From S2P Require Import Credentials Config ClientAuthn Issue Device Grants Endpoints Server.
Local Open Scope Z_scope.

(** No storage call fails. *)
Definition storage_answers (env : Env) : Prop := forall n, env_fault env n = None.

(** ** Runs of authentication *)
Section containment.
Context `{Crypto, Serde, Backends, HashOrder} (self : AuthorizationServer) (env : Env).

(** Reading and claiming leave every table but the replay identifiers alone. *)
Definition same_tables (g g' : MemoryInner) : Prop := exists ids, g' = set_replay_ids ids g.

Lemma same_tables_op o g0 g : within [ReadOp; ReplayClaim] o -> same_tables g0 g -> same_tables g0 (run_op o g).
Proof.
  intros [_ Hk] [ids ->]. destruct o as [X op]; unfold run_op; cbn [projT1 projT2].
  destruct op; cbn in Hk |- *; try (exfalso; set_solver); try (by exists ids).
  unfold MemoryStorage.claim_replay_id. case_match; cbn; [by exists ids|]. by eexists.
Qed.

Lemma authenticate_same_tables client_id cred w :
  same_tables (w_store w) (w_store (snd (run env (authenticate_client self client_id cred) w))).
Proof.
  eapply (run_invariant env (same_tables (w_store w))); [|apply authenticate_client_ops|].
  - intros o g. apply same_tables_op.
  - exists (mi_replay_ids (w_store w)). by destruct (w_store w).
Qed.

Hypothesis Hanswers : storage_answers env.

Lemma run_store {X A} (op : StoreOp X) (k : result X StorageError -> prog A) w :
  run env (bind (store op) k) w =
    let (r, g) := MemoryStorage.step X op (w_store w) in run env (k r) (with_store g w).
Proof. cbn. unfold store_call. rewrite (Hanswers _). by destruct (MemoryStorage.step _ _ _). Qed.

Lemma run_store_or_bind {X A E} (f : StorageError -> E) (op : StoreOp X) (k : X -> prog (result A E)) w :
  run env (bind_ok (store_or f op) k) w =
    let (r, g) := MemoryStorage.step X op (w_store w) in
    match r with Ok x => run env (k x) (with_store g w) | Err e => (Err (f e), with_store g w) end.
Proof.
  cbn. unfold store_call. rewrite (Hanswers _). destruct (MemoryStorage.step _ _ _) as [[]]; done.
Qed.

Lemma run_emit_then {A} h e (k : prog A) w : exists w0,
  w_store w0 = w_store w /\ run env (let* _ := emit h e in k) w = run env k w0.
Proof. unfold emit. destruct (h_events h); cbn; eexists; (split; [|reflexivity]); reflexivity. Qed.

Lemma run_window {A} (k : RevocationWindow -> prog A) w : exists window w0,
  w_store w0 = w_store w /\ run env (bind (revocation_window self) k) w = run env (k window) w0.
Proof. unfold revocation_window. cbn. do 2 eexists. split; [|reflexivity]. reflexivity. Qed.

(** The family of a revoked grant: nothing of it is left, and a barrier stands. *)
Definition family_gone (family : string) (g : MemoryInner) : Prop :=
  (forall k t, mi_tokens g !! k = Some t -> it_family_id t <> Some family) /\
  (forall k r, mi_refresh g !! k = Some r -> rt_family_id r <> family) /\
  is_Some (barrier_at g (BTokenFamily family)).

Lemma final_after_family_gone family window g :
  final_after (BTokenFamily family) window g -> family_gone family g.
Proof.
  intros [(t & Ht & _) [Hn Hr]]. split_and!; [..|by eexists].
  - intros k t' Hk Hf. by apply (Hn k t' Hk).
  - intros k r Hk Hf. apply (Hr k r Hk). unfold covered_refresh; cbn. congruence.
Qed.

(** The grant is revoked: the call answers, and the family is gone. *)
Lemma revoke_family_run {A} family (k : result Z StorageError -> prog A) w : family <> EmptyString ->
  exists n w', family_gone family (w_store w') /\
    run env (let* window := revocation_window self in
             let* revoked := store (RevokeTokenFamily family window) in k revoked) w = run env (k (Ok n)) w'.
Proof.
  intros Hne.
  destruct (run_window (fun window => let* revoked := store (RevokeTokenFamily family window) in k revoked) w)
    as (window & w0 & Hw & ->).
  rewrite run_store.
  pose proof (revokes_establishes (any (RevokeTokenFamily family window)) (w_store w0)
    (BTokenFamily family) window (conj Hne (conj eq_refl eq_refl))) as Hfin.
  unfold run_op in Hfin. cbn [any projT1 projT2] in Hfin.
  destruct (MemoryStorage.step Z _ (w_store w0)) as [r g] eqn:Hs. cbn [snd] in Hfin.
  cbn in Hs. unfold MemoryStorage.revoke_token_family in Hs. rewrite reject_empty_scope_ok in Hs by done.
  injection Hs as <- _. do 2 eexists. split; [|reflexivity].
  by apply (final_after_family_gone _ window).
Qed.

Lemma contain_reuse_run client record w : rt_family_id record <> EmptyString ->
  exists e w', run env (contain_reuse self client record) w = (Err e, w') /\ error e = InvalidGrant /\
    family_gone (rt_family_id record) (w_store w').
Proof.
  intros Hne. unfold contain_reuse.
  edestruct (revoke_family_run (A := result TokenResponse ErrorResponse) (rt_family_id record)) as (n & w0 & Hg & ->); [done|]. cbn [bind].
  edestruct (run_emit_then (A := result TokenResponse ErrorResponse) (sv_hooks self)) as (w1 & Hw1 & ->). cbn [run].
  do 2 eexists. split_and!; [done|done|]. by rewrite Hw1.
Qed.

(** What is left of the tokens minted from a replayed code. *)
Definition minted_gone (before after : MemoryInner) (access refresh : option string) : Prop :=
  match (rt ← refresh; mi_refresh before !! rt) with
  | Some r => family_gone (rt_family_id r) after
  | None => forall at_, access = Some at_ -> mi_tokens after !! at_ = None
  end.

(** With no family to revoke, the access token is deleted and the record kept. *)
Lemma delete_minted_run (access : option string) (failed : bool) record e w :
  exists w', run env
    (let* failed := (match access with
                     | None => Ret failed
                     | Some at_ => let* deleted := store (DeleteToken at_) in Ret (failed || negb (is_ok deleted))
                     end) in
     let* written := store (PutAuthorizationCode record) in
     let failed := failed || negb (is_ok written) in
     let* _ := emit (sv_hooks self) (e failed) in
     Ret (Err (A := TokenResponse) invalid_grant)) w = (Err invalid_grant, w') /\
    (forall at_, access = Some at_ -> mi_tokens (w_store w') !! at_ = None) /\
    mi_codes (w_store w') !! ac_code record = Some record.
Proof.
  rewrite run_bind. destruct access as [at_|].
  - rewrite run_store. cbn [MemoryStorage.step run]. unfold MemoryStorage.delete_token. rewrite run_store.
    cbn [MemoryStorage.step]. unfold MemoryStorage.put_authorization_code.
    edestruct (run_emit_then (A := result TokenResponse ErrorResponse) (sv_hooks self)) as (w1 & Hw1 & ->).
    cbn [run]. eexists. split_and!; [done|intros ? [= <-]|]; rewrite Hw1;
      [apply lookup_delete_eq|apply lookup_insert_eq].
  - cbn [run]. rewrite run_store. cbn [MemoryStorage.step]. unfold MemoryStorage.put_authorization_code.
    edestruct (run_emit_then (A := result TokenResponse ErrorResponse) (sv_hooks self)) as (w1 & Hw1 & ->).
    cbn [run]. eexists. split_and!; [done|done|]. rewrite Hw1. apply lookup_insert_eq.
Qed.

Lemma contain_replay_run client record access refresh w :
  (forall rt r, refresh = Some rt -> mi_refresh (w_store w) !! rt = Some r -> rt_family_id r <> EmptyString) ->
  exists w', run env (contain_replay self client record access refresh) w = (Err invalid_grant, w') /\
    minted_gone (w_store w) (w_store w') access refresh /\
    mi_codes (w_store w') !! ac_code record = Some (ac_with_state record (Replayed access refresh)).
Proof.
  intros Hfam. unfold contain_replay, minted_gone. destruct refresh as [rt|]; cbn [mbind option_bind].
  - rewrite run_bind, run_store. cbn [MemoryStorage.step]. unfold MemoryStorage.get_refresh_token.
    destruct (mi_refresh (w_store w) !! rt) as [r|] eqn:Hr.
    + edestruct (revoke_family_run (A := bool * bool * option string) (rt_family_id r)) as (n & w0 & Hg & ->); [by eapply Hfam|].
      cbn [run is_ok bind]. rewrite run_store. cbn [MemoryStorage.step]. unfold MemoryStorage.put_authorization_code.
      edestruct (run_emit_then (A := result TokenResponse ErrorResponse) (sv_hooks self)) as (w1 & Hw1 & ->). cbn [run].
      eexists. split_and!; [done|by rewrite Hw1|]. rewrite Hw1. apply lookup_insert_eq.
    + cbn [run bind]. exact (delete_minted_run access false (ac_with_state record (Replayed access (Some rt)))
        (AuthorizationCodeReplayDetected (c_client_id client) None false) _).
  - cbn [bind]. exact (delete_minted_run access false (ac_with_state record (Replayed access None))
        (AuthorizationCodeReplayDetected (c_client_id client) None false) _).
Qed.

(** ** What the revocation endpoint achieves *)
Definition owns_refresh (client : Client) (token : string) (g : MemoryInner) : bool :=
  is_some_and (mi_refresh g !! token) (fun r => rt_client_id r == c_client_id client).
Definition owns_access (client : Client) (token : string) (g : MemoryInner) : bool :=
  is_some_and (mi_tokens g !! token) (fun t => it_client_id t == c_client_id client).

Definition refresh_revoked (token : string) (g g' : MemoryInner) : Prop :=
  mi_refresh g' !! token = None /\
  forall r, mi_refresh g !! token = Some r -> family_gone (rt_family_id r) g'.

Lemma try_refresh_run client token w :
  (forall r, mi_refresh (w_store w) !! token = Some r -> rt_family_id r <> EmptyString) ->
  exists w', run env (try_refresh self client token) w = (Ok (owns_refresh client token (w_store w)), w') /\
    if owns_refresh client token (w_store w) then refresh_revoked token (w_store w) (w_store w')
    else w_store w' = w_store w.
Proof.
  intros Hne. unfold try_refresh, owns_refresh, refresh_revoked. rewrite run_store. cbn [MemoryStorage.step].
  unfold MemoryStorage.get_refresh_token.
  destruct (mi_refresh (w_store w) !! token) as [r|]; cbn [is_some_and]; [|by eexists].
  case_bool_decide; [|by eexists].
  edestruct (revoke_family_run (A := result bool ErrorResponse) (rt_family_id r)) as (n & w0 & Hg & ->); [by apply Hne|].
  rewrite run_store_or_bind. cbn [MemoryStorage.step]. unfold MemoryStorage.take_refresh_token.
  edestruct (run_emit_then (A := result bool ErrorResponse) (sv_hooks self)) as (w1 & Hw1 & ->). cbn [run].
  eexists. split; [done|]. rewrite Hw1. cbn. split; [apply lookup_delete_eq|]. intros ? [= <-].
  destruct Hg as (? & Hr & ?). split_and!; [done|intros k r' Hk; cbn in Hk; apply lookup_delete_Some in Hk as [_ ?]; eauto|done].
Qed.

Lemma try_access_run client token w :
  exists w', run env (try_access self client token) w = (Ok (owns_access client token (w_store w)), w') /\
    if owns_access client token (w_store w) then mi_tokens (w_store w') !! token = None
    else w_store w' = w_store w.
Proof.
  unfold try_access, owns_access. rewrite run_store. cbn [MemoryStorage.step]. unfold MemoryStorage.get_token.
  destruct (mi_tokens (w_store w) !! token) as [t|]; cbn [is_some_and]; [|by eexists].
  case_bool_decide; [|by eexists]. rewrite run_store_or_bind. cbn [MemoryStorage.step]. unfold MemoryStorage.delete_token.
  edestruct (run_emit_then (A := result bool ErrorResponse) (sv_hooks self)) as (w1 & Hw1 & ->). cbn [run].
  eexists. split; [done|]. rewrite Hw1. apply lookup_delete_eq.
Qed.

Lemma tries_run (p q : prog (result bool ErrorResponse)) w w1 w2 hit hit' :
  run env p w = (Ok hit, w1) -> run env q w1 = (Ok hit', w2) ->
  run env (let?* hit := p in if negb hit then let?* _ := q in Ret (Ok tt) else Ret (Ok tt)) w
    = (Ok (E := ErrorResponse) tt, if hit then w1 else w2).
Proof.
  intros Hp Hq. unfold bind_ok at 1. rewrite run_bind, Hp. destruct hit; [done|]. cbn [negb].
  unfold bind_ok. by rewrite run_bind, Hq.
Qed.

(** The outcome by whose the token is; a string that names both a refresh and an access
    token of the client loses at least the one the hint looks up first. *)
Definition revoked_as (client : Client) (token : string) (g g' : MemoryInner) : Prop :=
  match owns_refresh client token g, owns_access client token g with
  | true, false => refresh_revoked token g g'
  | false, true => mi_tokens g' !! token = None
  | true, true => refresh_revoked token g g' \/ mi_tokens g' !! token = None
  | false, false => same_tables g g'
  end.

Lemma same_tables_refl g : same_tables g g.
Proof. exists (mi_replay_ids g). by destruct g. Qed.

Lemma refresh_first_run client token w :
  (forall r, mi_refresh (w_store w) !! token = Some r -> rt_family_id r <> EmptyString) ->
  exists w', run env (let?* hit := try_refresh self client token in
      if negb hit then let?* _ := try_access self client token in Ret (Ok tt) else Ret (Ok tt)) w = (Ok tt, w') /\
    revoked_as client token (w_store w) (w_store w').
Proof.
  intros Hne. unfold revoked_as. destruct (try_refresh_run client token w Hne) as (w1 & Hr1 & Hs1).
  destruct (try_access_run client token w1) as (w2 & Hr2 & Hs2).
  eexists. split; [exact (tries_run _ _ _ _ _ _ _ Hr1 Hr2)|].
  destruct (owns_refresh client token (w_store w)); [destruct (owns_access client token (w_store w)); auto|].
  rewrite Hs1 in Hs2. destruct (owns_access client token (w_store w)); [done|].
  rewrite Hs2. apply same_tables_refl.
Qed.

Lemma access_first_run client token w :
  (forall r, mi_refresh (w_store w) !! token = Some r -> rt_family_id r <> EmptyString) ->
  exists w', run env (let?* hit := try_access self client token in
      if negb hit then let?* _ := try_refresh self client token in Ret (Ok tt) else Ret (Ok tt)) w = (Ok tt, w') /\
    revoked_as client token (w_store w) (w_store w').
Proof.
  intros Hne. unfold revoked_as. destruct (try_access_run client token w) as (w1 & Hr1 & Hs1).
  destruct (owns_access client token (w_store w)) eqn:Ha.
  - exists w1. unfold bind_ok. rewrite run_bind, Hr1. split; [done|].
    destruct (owns_refresh client token (w_store w)); auto.
  - destruct (try_refresh_run client token w1) as (w2 & Hr2 & Hs2); [by rewrite Hs1|].
    eexists. split; [exact (tries_run _ _ _ _ _ _ _ Hr1 Hr2)|]. rewrite Hs1 in Hs2.
    destruct (owns_refresh client token (w_store w)); [done|]. rewrite Hs2. apply same_tables_refl.
Qed.

End containment.

(** ** When storage calls may fail

    The revocation of the family is best effort: its failure does not fail the request, and
    is what [cascade_failed] tells the host. *)
Section acknowledged.
Context `{Crypto, Serde, Backends, HashOrder} (self : AuthorizationServer) (env : Env).

(** The token is gone; and its family is, or the host was told that it may not be. *)
Definition refresh_acknowledged (client : Client) (token : string) (g : MemoryInner) (w : World) : Prop :=
  mi_refresh (w_store w) !! token = None /\
  ((forall r, mi_refresh g !! token = Some r -> family_gone (rt_family_id r) (w_store w)) \/
   (h_events (sv_hooks self) = true ->
    TokenRevoked (c_client_id client) HintRefreshToken true ∈ w_events w)).

Lemma run_store_answered {X} (op : StoreOp X) w x w' : run env (store op) w = (Ok x, w') ->
  MemoryStorage.step X op (w_store w) = (Ok x, w_store w').
Proof.
  cbn. unfold store_call. destruct (env_fault env (w_step w)) as [[]|]; [done..|].
  destruct (MemoryStorage.step X op (w_store w)) as [r g]. by intros [= -> <-].
Qed.

Lemma run_store_or_answered {X E} (f : StorageError -> E) (op : StoreOp X) w x w' :
  run env (store_or f op) w = (Ok x, w') -> MemoryStorage.step X op (w_store w) = (Ok x, w_store w').
Proof.
  cbn. unfold store_call. destruct (env_fault env (w_step w)) as [[]|]; [done..|].
  destruct (MemoryStorage.step X op (w_store w)) as [[] g]; [|done]. by intros [= -> <-].
Qed.

Lemma run_emit_events h e w u w' : run env (emit h e) w = (u, w') ->
  w_store w' = w_store w /\ (h_events h = true -> e ∈ w_events w').
Proof. unfold emit. destruct (h_events h); cbn; intros [= _ <-]; split; set_solver. Qed.

(** The removal of the family, when the call answers. *)
Lemma revoke_family_answered family window w n w' :
  run env (store (RevokeTokenFamily family window)) w = (Ok n, w') -> family_gone family (w_store w').
Proof.
  intros Hs%run_store_answered. assert (Hne : family <> EmptyString).
  { intros ->. cbn in Hs. by unfold MemoryStorage.revoke_token_family in Hs. }
  apply (final_after_family_gone _ window).
  pose proof (revokes_establishes (any (RevokeTokenFamily family window)) (w_store w)
    (BTokenFamily family) window (conj Hne (conj eq_refl eq_refl))) as Hfin.
  unfold run_op in Hfin. cbn [any projT1 projT2] in Hfin. by rewrite Hs in Hfin.
Qed.

Lemma family_gone_take family token g :
  family_gone family g -> family_gone family (set_refresh (delete token (mi_refresh g)) g).
Proof.
  intros (Ht & Hr & Hb). split_and!; [done| |done]. intros k r Hk. cbn in Hk.
  apply lookup_delete_Some in Hk as [_ Hk]. eauto.
Qed.

Lemma try_refresh_acknowledged client token w hit w' :
  run env (try_refresh self client token) w = (Ok hit, w') ->
  hit = owns_refresh client token (w_store w) /\
  if hit then refresh_acknowledged client token (w_store w) w' else w_store w' = w_store w.
Proof.
  unfold try_refresh, owns_refresh. intros (found & w1 & Hget & Hrun)%run_bind_inv.
  destruct found as [found|]; [|done].
  apply run_store_answered in Hget. cbn in Hget. unfold MemoryStorage.get_refresh_token in Hget.
  injection Hget as Hrec Hw1. rewrite Hrec.
  destruct found as [record|]; [|injection Hrun as <- <-; by rewrite Hw1]. cbn [is_some_and].
  case_bool_decide; [|injection Hrun as <- <-; by rewrite Hw1].
  apply run_bind_inv in Hrun as (window & w2 & Hwin & Hrun).
  assert (Hw2 : w_store w2 = w_store w1) by (by injection Hwin as _ <-).
  apply run_bind_inv in Hrun as (revoked & w3 & Hrevoke & Hrun).
  apply run_bind_ok_inv in Hrun as (taken & w4 & Htake%run_store_or_answered & Hrun). cbn in Htake.
  unfold MemoryStorage.take_refresh_token in Htake. injection Htake as _ Hw4.
  apply run_bind_inv in Hrun as (u & w5 & [Hw5 Hev]%run_emit_events & Hrun). injection Hrun as <- <-.
  split; [done|]. unfold refresh_acknowledged. rewrite Hw5, <- Hw4. split; [apply lookup_delete_eq|].
  destruct revoked as [n|e]; [left|right; exact Hev]. intros r Hr. rewrite Hrec in Hr. injection Hr as <-.
  apply family_gone_take. by eapply revoke_family_answered.
Qed.

Lemma try_access_acknowledged client token w hit w' :
  run env (try_access self client token) w = (Ok hit, w') ->
  hit = owns_access client token (w_store w) /\
  if hit then mi_tokens (w_store w') !! token = None else w_store w' = w_store w.
Proof.
  unfold try_access, owns_access. intros (found & w1 & Hget & Hrun)%run_bind_inv.
  destruct found as [found|]; [|done].
  apply run_store_answered in Hget. cbn in Hget. unfold MemoryStorage.get_token in Hget.
  injection Hget as Hrec Hw1. rewrite Hrec.
  destruct found as [t|]; [|injection Hrun as <- <-; by rewrite Hw1]. cbn [is_some_and].
  case_bool_decide; [|injection Hrun as <- <-; by rewrite Hw1].
  apply run_bind_ok_inv in Hrun as (u & w2 & Hdel%run_store_or_answered & Hrun). cbn in Hdel.
  unfold MemoryStorage.delete_token in Hdel. injection Hdel as _ Hw2.
  apply run_bind_inv in Hrun as (u' & w3 & [Hw3 _]%run_emit_events & Hrun). injection Hrun as <- <-.
  split; [done|]. rewrite Hw3, <- Hw2. apply lookup_delete_eq.
Qed.

(** What an acknowledgement stands for, storage failures included. *)
Definition acknowledged_as (client : Client) (token : string) (g : MemoryInner) (w : World) : Prop :=
  match owns_refresh client token g, owns_access client token g with
  | true, false => refresh_acknowledged client token g w
  | false, true => mi_tokens (w_store w) !! token = None
  | true, true => refresh_acknowledged client token g w \/ mi_tokens (w_store w) !! token = None
  | false, false => same_tables g (w_store w)
  end.

Lemma refresh_first_acknowledged client token w w' :
  run env (let?* hit := try_refresh self client token in
      if negb hit then let?* _ := try_access self client token in Ret (Ok tt) else Ret (Ok tt)) w = (Ok tt, w') ->
  acknowledged_as client token (w_store w) w'.
Proof.
  intros (hit & w1 & [-> Hs1]%try_refresh_acknowledged & Hrun)%run_bind_ok_inv. unfold acknowledged_as.
  destruct (owns_refresh client token (w_store w)); cbn [negb] in Hrun.
  - injection Hrun as <-. destruct (owns_access client token (w_store w)); auto.
  - apply run_bind_ok_inv in Hrun as (hit & w2 & [-> Hs2]%try_access_acknowledged & Hrun). injection Hrun as <-.
    rewrite Hs1 in Hs2. destruct (owns_access client token (w_store w)); [done|]. rewrite Hs2. apply same_tables_refl.
Qed.

Lemma access_first_acknowledged client token w w' :
  run env (let?* hit := try_access self client token in
      if negb hit then let?* _ := try_refresh self client token in Ret (Ok tt) else Ret (Ok tt)) w = (Ok tt, w') ->
  acknowledged_as client token (w_store w) w'.
Proof.
  intros (hit & w1 & [-> Hs1]%try_access_acknowledged & Hrun)%run_bind_ok_inv. unfold acknowledged_as.
  destruct (owns_access client token (w_store w)); cbn [negb] in Hrun.
  - injection Hrun as <-. destruct (owns_refresh client token (w_store w)); auto.
  - apply run_bind_ok_inv in Hrun as (hit & w2 & [-> Hs2]%try_refresh_acknowledged & Hrun). injection Hrun as <-.
    rewrite Hs1 in Hs2. destruct (owns_refresh client token (w_store w)); [done|]. rewrite Hs2. apply same_tables_refl.
Qed.

Lemma revoke_acknowledged client_id cred token hint w client w' :
  fst (run env (authenticate_client self client_id cred) w) = Ok client ->
  run env (revoke self client_id cred token hint) w = (Ok tt, w') ->
  acknowledged_as client token (w_store w) w'.
Proof.
  unfold revoke. intros Hauth (c & w1 & Hrun1 & Hrun)%run_bind_ok_inv.
  destruct (authenticate_same_tables self env client_id cred w) as [ids Hids].
  rewrite Hrun1 in Hauth, Hids. cbn [fst snd] in Hauth, Hids. injection Hauth as ->.
  assert (Hack : acknowledged_as client token (w_store w1) w').
  { destruct hint as [[]|]; [by eapply access_first_acknowledged|by eapply refresh_first_acknowledged..]. }
  revert Hack. unfold acknowledged_as, owns_refresh, owns_access, refresh_acknowledged. rewrite Hids. cbn.
  destruct (is_some_and (mi_refresh _ !! _) _), (is_some_and (mi_tokens _ !! _) _); try done.
Qed.
End acknowledged.

(** ** What containment and revocation achieve *)
Section achieved.
Context `{Crypto, Serde, Backends, HashOrder} (self : AuthorizationServer) (env : Env).

(** C19. Presenting a code again takes back what it yielded.  The conditions: the storage
    answers every call, the caller authenticates as a client registered for the
    authorization code grant, the code it presents is its own and already redeemed, and
    the refresh token minted from it, where the store still has it, is of a (non-empty)
    family.  Then the answer is [invalid_grant]; afterwards the grant minted from it is revoked whole, by the family of its refresh
    token (or, when there is no refresh token left to name the family, by deleting its
    access token), and the record stands marked replayed, so that the next presentation
    is contained the same way. *)
Theorem code_replay_revokes_minted (Hanswers : storage_answers env) client_id bound code redirect verifier resources details w client record access refresh :
  fst (run env (authenticate_client self client_id (b_cred bound)) w) = Ok client ->
  allows_grant client AuthorizationCode = true ->
  mi_codes (w_store w) !! code = Some record -> ac_code record = code ->
  ac_client_id record = c_client_id client -> minted (ac_state record) = Some (access, refresh) ->
  (forall rt r, refresh = Some rt -> mi_refresh (w_store w) !! rt = Some r -> rt_family_id r <> EmptyString) ->
  exists w', run env (authorization_code_token self client_id bound code redirect verifier resources details) w
      = (Err invalid_grant, w') /\
    minted_gone (w_store w) (w_store w') access refresh /\
    mi_codes (w_store w') !! code = Some (ac_with_state record (Replayed access refresh)).
Proof.
  intros Hauth Hg Hrec <- Hid Hm Hfam. unfold authorization_code_token, bind_ok at 1. rewrite run_bind.
  destruct (authenticate_same_tables self env client_id (b_cred bound) w) as [ids Hids].
  destruct (run env (authenticate_client self client_id (b_cred bound)) w) as [r w1]. cbn [fst snd] in Hauth, Hids.
  subst r. rewrite Hg. cbn [negb]. rewrite run_store_or_bind by done. cbn [MemoryStorage.step].
  unfold MemoryStorage.take_authorization_code. rewrite Hids. cbn [mi_codes set_replay_ids]. rewrite Hrec.
  cbn [ok_or lift_ok]. rewrite bool_decide_eq_true_2 by done. cbn [negb]. rewrite Hm.
  exact (contain_replay_run self env Hanswers client record access refresh
    (with_store (set_codes _ (set_replay_ids ids (w_store w))) w1) Hfam).
Qed.
(** C20. Presenting a spent refresh token kills the grant.  The conditions: the server
    rotates refresh tokens and has no retry window, the storage answers every call, the
    caller authenticates as a client registered for the refresh grant, and the token it
    presents is its own, already spent, of a (non-empty) family.  Then the answer is
    [invalid_grant] and afterwards no access token and no refresh token of that family is in
    the store, with a barrier that keeps late writes of the family out.  (Inside a retry
    window a spent token may be answered, and under reuse no token is spent.) *)
Theorem refresh_reuse_revokes_family (Hanswers : storage_answers env) client_id bound token requested resources details w client record :
  fst (run env (authenticate_client self client_id (b_cred bound)) w) = Ok client ->
  allows_grant client RefreshToken = true ->
  cfg_refresh_rotation (sv_config self) = Rotate -> cfg_refresh_retry_window (sv_config self) = 0 ->
  mi_refresh (w_store w) !! token = Some record -> rt_client_id record = c_client_id client ->
  rt_state record = Spent -> rt_family_id record <> EmptyString ->
  exists e w', run env (refresh_token_grant self client_id bound token requested resources details) w = (Err e, w') /\
    error e = InvalidGrant /\ family_gone (rt_family_id record) (w_store w').
Proof.
  intros Hauth Hg Hrot Hretry Hrec Hid Hst Hne. unfold refresh_token_grant, bind_ok at 1. rewrite run_bind.
  destruct (authenticate_same_tables self env client_id (b_cred bound) w) as [ids Hids].
  destruct (run env (authenticate_client self client_id (b_cred bound)) w) as [r w1]. cbn [fst snd] in Hauth, Hids.
  subst r. rewrite Hg, Hrot, Hretry. cbn [negb]. rewrite bool_decide_eq_false_2 by done. cbn [negb andb Z.eqb].
  rewrite run_store_or_bind by done. cbn [MemoryStorage.step MemoryStorage.take_refresh_token]. unfold MemoryStorage.take_refresh_token.
  rewrite Hids. cbn [mi_refresh set_replay_ids]. rewrite Hrec. cbn [ok_or lift_ok].
  rewrite bool_decide_eq_true_2 by done. cbn [negb bind_ok bind].
  rewrite bool_decide_eq_true_2 by done. by apply contain_reuse_run.
Qed.

(** With the storage answering, a revocation is acknowledged and takes effect. *)
Lemma revoke_answered_run (Hanswers : storage_answers env) client_id cred token hint w client :
  fst (run env (authenticate_client self client_id cred) w) = Ok client ->
  (forall r, mi_refresh (w_store w) !! token = Some r -> rt_family_id r <> EmptyString) ->
  exists w', run env (revoke self client_id cred token hint) w = (Ok tt, w') /\
    revoked_as client token (w_store w) (w_store w').
Proof.
  intros Hauth Hne. unfold revoke, bind_ok at 1. rewrite run_bind.
  destruct (authenticate_same_tables self env client_id cred w) as [ids Hids].
  destruct (run env (authenticate_client self client_id cred) w) as [r w1]. cbn [fst snd] in Hauth, Hids. subst r.
  assert (Hne1 : forall r, mi_refresh (w_store w1) !! token = Some r -> rt_family_id r <> EmptyString)
    by (by rewrite Hids).
  assert (Hback : forall g', revoked_as client token (w_store w1) g' -> revoked_as client token (w_store w) g').
  { unfold revoked_as, owns_refresh, owns_access, refresh_revoked. rewrite Hids. cbn. intros g'.
    destruct (is_some_and (mi_refresh _ !! _) _), (is_some_and (mi_tokens _ !! _) _); done. }
  destruct hint as [[]|];
    [destruct (access_first_run self env Hanswers client token w1 Hne1) as (w' & Hrun & Hrev)
    |destruct (refresh_first_run self env Hanswers client token w1 Hne1) as (w' & Hrun & Hrev)..];
    exists w'; split; auto; exact Hrun.
Qed.

(** C21. A revocation the endpoint acknowledges has happened.  Whatever storage calls fail,
    when an authenticated client is answered with success, under any hint, then: a refresh
    token of the client's is gone, and its whole family is gone and barred from coming back
    or else the host is told by a [TokenRevoked] event that the cascade failed; an access
    token of the client's is gone; and when the string names neither, no table but the
    replay identifiers has changed.  With a storage that answers every call (and a
    non-empty family for the token), the request is acknowledged, and the family is gone. *)
Theorem revoke_takes_effect client_id cred token hint w client :
  fst (run env (authenticate_client self client_id cred) w) = Ok client ->
  (forall w', run env (revoke self client_id cred token hint) w = (Ok tt, w') ->
     acknowledged_as self client token (w_store w) w') /\
  (storage_answers env ->
   (forall r, mi_refresh (w_store w) !! token = Some r -> rt_family_id r <> EmptyString) ->
   exists w', run env (revoke self client_id cred token hint) w = (Ok tt, w') /\
     revoked_as client token (w_store w) (w_store w')).
Proof.
  intros Hauth. split; [intros w'; by apply revoke_acknowledged|]. intros Hanswers. by apply revoke_answered_run.
Qed.
End achieved.

(** ** The reach of the revocation endpoint *)
Section revocation_reach.
Context `{Crypto, Serde, Backends} (self : AuthorizationServer).

(** What a revocation of [token] may do once [client] is authenticated: read, and remove
    the presented token or revoke its family where the store said it is the client's. *)
Definition revocation_act (client : Client) (token : string) (tr : list Act) (x : Act) : Prop :=
  match x with
  | AStore op _ =>
      match op with
      | DeleteToken t => t = token /\ exists rec, AStore (GetToken token) (Ok (Some rec)) ∈ tr /\
                           it_client_id rec = c_client_id client
      | TakeRefreshToken t => t = token /\ exists rec, AStore (GetRefreshToken token) (Ok (Some rec)) ∈ tr /\
                                rt_client_id rec = c_client_id client
      | RevokeTokenFamily family _ => exists rec, AStore (GetRefreshToken token) (Ok (Some rec)) ∈ tr /\
                                        rt_client_id rec = c_client_id client /\ family = rt_family_id rec
      | _ => op_kind (any op) ∈ [ReadOp; ReplayClaim]
      end
  | _ => True
  end.

Definition harmless (x : Act) : Prop :=
  match x with AStore op _ => op_kind (any op) ∈ [ReadOp; ReplayClaim] | _ => True end.

Lemma revocation_act_mono client token tr tr' x :
  tr ⊆ tr' -> revocation_act client token tr x -> revocation_act client token tr' x.
Proof. intros Hsub. destruct x as [X op ?| | | | | | |]; cbn; try done. destruct op; naive_solver. Qed.

Lemma harmless_revocation_act client token tr x : harmless x -> revocation_act client token tr x.
Proof. destruct x as [X op ?| | | | | | |]; cbn; try done. destruct op; cbn; set_solver. Qed.

Lemma authenticate_harmless client_id cred tr r :
  exec (authenticate_client self client_id cred) tr r -> Forall harmless tr.
Proof.
  intros Hex. apply Forall_forall. intros [X op ans| | | | | | |] Hin; cbn; try done.
  by eapply (exec_all_ops _ _ _ _ (authenticate_client_ops self client_id cred) Hex).
Qed.

(** Inverts an execution and checks its actions one by one. *)
Ltac acts :=
  exec_inv; bools;
  repeat match goal with H : exec (emit _ _) _ _ |- _ => apply exec_emit in H as ->; destruct (h_events _) end;
  repeat first [apply Forall_nil; done | apply Forall_cons; split | apply Forall_app; split];
  cbn; try done; try set_solver.

Lemma try_access_acts client token tr r :
  exec (try_access self client token) tr r -> Forall (revocation_act client token tr) tr.
Proof. unfold try_access. intros Hex. acts. Qed.

Lemma try_refresh_acts client token tr r :
  exec (try_refresh self client token) tr r -> Forall (revocation_act client token tr) tr.
Proof. unfold try_refresh, revocation_window. intros Hex. acts. Qed.

Lemma revocation_acts_app client token tr1 tr2 :
  Forall (revocation_act client token tr1) tr1 -> Forall (revocation_act client token tr2) tr2 ->
  Forall (revocation_act client token (tr1 ++ tr2)) (tr1 ++ tr2).
Proof.
  intros H1' H2'. apply Forall_app; split; (eapply Forall_impl; [eassumption|]); intros x;
    apply revocation_act_mono; set_solver.
Qed.

(** One lookup after the other, whichever the hint puts first. *)
Lemma tries_acts client token (p q : prog (result bool ErrorResponse)) tr r :
  (forall tr r, exec p tr r -> Forall (revocation_act client token tr) tr) ->
  (forall tr r, exec q tr r -> Forall (revocation_act client token tr) tr) ->
  exec (let?* hit := p in if negb hit then let?* _ := q in Ret (Ok tt) else Ret (Ok tt)) tr r ->
  Forall (revocation_act client token tr) tr.
Proof.
  intros Hp Hq Hex. exec_inv; eauto; rewrite ?app_nil_r; eauto using revocation_acts_app.
Qed.

(** Revocation reaches the caller's own tokens and nothing else.  Whatever the store
    answers, an execution of [revoke] either stops at authentication, having only read
    the store and claimed assertion identifiers, or the caller was proved to be a client,
    and every further call that removes something is on the presented token, or on the
    family the store recorded for it, after the store answered that this token belongs to
    that client. *)
Theorem revoke_reaches_only_own client_id cred token hint tr r :
  exec (revoke self client_id cred token hint) tr r ->
  ((exists e, r = Err e) /\ Forall harmless tr) \/
  exists client, AStore (GetClient client_id) (Ok (Some client)) ∈ tr /\ credential_proven self client cred tr /\
    Forall (revocation_act client token tr) tr.
Proof.
  unfold revoke. intros Hex.
  apply exec_bind_ok in Hex as [(tr1 & tr2 & client & -> & Hauth & Hex)|(e & -> & Hauth)];
    [right|left; split; [by eexists|by eapply authenticate_harmless]].
  pose proof (authenticate_harmless _ _ _ _ Hauth) as Hh.
  apply authenticate_client_exec in Hauth as (Hget & Hproven & _).
  exists client. split_and!; [in_trace|eapply credential_proven_mono; [|done]; set_solver|].
  apply revocation_acts_app.
  - eapply Forall_impl; [exact Hh|]. intros x. apply harmless_revocation_act.
  - destruct hint as [[]|]; eapply tries_acts in Hex; eauto using try_access_acts, try_refresh_acts.
Qed.
End revocation_reach.

(** ** Evaluation *)
Lemma demo_families token state r :
  mi_refresh (demo_token_store state) !! token = Some r -> rt_family_id r <> EmptyString.
Proof.
  change (mi_refresh (demo_token_store state)) with ({[ "rt" := demo_refresh_record state ]} : gmap string RefreshTokenRecord).
  by intros [_ <-]%lookup_singleton_Some.
Qed.

Lemma refresh_reuse_revokes_family_witness : exists w',
  snd (run demo_env (@refresh_token_grant plain_crypto assertion_serde no_backends demo_server "app" demo_bound
    "rt" None [] (gd_of [])) (world_of (demo_token_store Spent))) = w' /\ family_gone "family" (w_store w').
Proof.
  destruct (@refresh_reuse_revokes_family plain_crypto assertion_serde no_backends listing_order demo_server demo_env
    (fun _ => eq_refl) "app" demo_bound "rt" None [] (gd_of []) (world_of (demo_token_store Spent)) demo_client
    (demo_refresh_record Spent)) as (e & w' & Hrun & _ & Hgone); try (vm_compute; reflexivity); [discriminate|].
  exists w'. rewrite Hrun. split; [reflexivity|exact Hgone].
Defined.

Definition demo_spent_code : AuthorizationCodeRecord :=
  ac_with_state demo_issued_code (Consumed (Some "at") (Some "rt")).
Definition demo_replay_store : MemoryInner :=
  run_op (any (PutAuthorizationCode demo_spent_code)) (demo_token_store Active).

Lemma code_replay_revokes_minted_witness : exists w',
  snd (run demo_env (@authorization_code_token plain_crypto assertion_serde no_backends demo_server "app" demo_bound
    "code" None None [] (gd_of [])) (world_of demo_replay_store)) = w' /\ family_gone "family" (w_store w').
Proof.
  destruct (@code_replay_revokes_minted plain_crypto assertion_serde no_backends listing_order demo_server demo_env
    (fun _ => eq_refl) "app" demo_bound "code" None None [] (gd_of []) (world_of demo_replay_store) demo_client
    demo_spent_code (Some "at") (Some "rt")) as (w' & Hrun & Hgone & _); try (vm_compute; reflexivity).
  - intros rt r [= <-] Hr. by apply (demo_families "rt" Active).
  - exists w'. rewrite Hrun. split; [reflexivity|exact Hgone].
Defined.

Lemma revoke_takes_effect_witness : exists w',
  run demo_env (@revoke plain_crypto assertion_serde no_backends demo_server "app" (demo_cred (Some "s3cret"))
    "rt" None) (world_of (demo_token_store Active)) = (Ok tt, w') /\ family_gone "family" (w_store w').
Proof.
  destruct (@revoke_takes_effect plain_crypto assertion_serde no_backends listing_order demo_server demo_env
    "app" (demo_cred (Some "s3cret")) "rt" None (world_of (demo_token_store Active)) demo_client)
    as [_ Heffect]; [vm_compute; reflexivity|].
  destruct Heffect as (w' & Hrun & _ & Hgone); [intros n; reflexivity|intros r; apply demo_families|].
  exists w'. split; [exact Hrun|]. by apply (Hgone (demo_refresh_record Active)).
Defined.

Lemma revoke_reaches_only_own_witness : exists (tr : list Act) client,
  AStore (GetClient "app") (Ok (Some client)) ∈ tr /\ Forall (revocation_act client "at" tr) tr.
Proof.
  destruct (run_exec demo_env (@revoke plain_crypto assertion_serde no_backends demo_server "app"
    (demo_cred (Some "s3cret")) "at" (Some HintAccessToken)) (world_of (demo_token_store Active))) as [tr Htr].
  destruct (@revoke_reaches_only_own plain_crypto assertion_serde no_backends demo_server "app"
    (demo_cred (Some "s3cret")) "at" (Some HintAccessToken) tr (Ok tt) Htr) as [[[e He] _]|(client & Hget & _ & Hall)];
    [discriminate He|]. by exists tr, client.
Defined.
