(* ===== verification/Sql.v ===== *)
(** * The database under the PostgreSQL store

    The tables the migrations of [oauth-as-postgres] create, the shapes of
    statement [store.rs] issues, and the two ways it issues them: alone on the pool,
    or inside a transaction.  PostgreSQL runs at READ COMMITTED, so a statement is a
    function of two views of the database: the snapshot it took when it started
    ([sn_then]) and the versions it finds when it reaches a row it has to change
    ([sn_now]).  A [SELECT] answers from the first; an [UPDATE] or [DELETE] picks its
    rows in the first and checks them again in the second; an [INSERT] meets its
    conflicts in the second.  [run_sql] executes a program alone, where the two views
    are one; [PgRaces] interleaves many. *)
From S2P Require Import Prelude Time Types Store.
Local Open Scope Z_scope.

(** ** What PostgreSQL and the driver provide *)

(** [jsonb] with its equality and the [->] operator. *)
Class PgJson := {
  jsonb : Type;
  jsonb_eqb : jsonb -> jsonb -> bool;
  json_arrow : jsonb -> string -> option jsonb;
}.

(** [serde_json::to_value] into a jsonb parameter and [serde_json::from_value] of a
    jsonb column, for one record type. *)
Class Jsonb `{PgJson} (T : Type) := {
  to_value : T -> option jsonb;
  from_value : jsonb -> option T;
}.

(** The order a scan without [ORDER BY] meets the rows of a table, the order of
    [text], and [hashtextextended(k, 0)]. *)
Class PgOrder := {
  scan : forall {K V : Type} `{Countable K}, gmap K V -> list (K * V);
  scan_perm : forall (K V : Type) `{Countable K} (m : gmap K V), scan m ≡ₚ map_to_list m;
  text_le : string -> string -> bool;
  text_le_total : forall a b, text_le a b = true \/ text_le b a = true;
  text_le_trans : forall a b c, text_le a b = true -> text_le b c = true -> text_le a c = true;
  text_le_anti : forall a b, text_le a b = true -> text_le b a = true -> a = b;
  hashtext : string -> Z;
}.

(** [sqlx::Error], as far as [error.rs] tells its cases apart. *)
Inductive SqlxError : Type :=
| Database (code constraint : option string)
| Configuration | Io | Tls | Protocol | RowNotFound | ColumnDecode | Decode
| PoolTimedOut | PoolClosed | WorkerCrashed | OtherDriver.

Section tables.
Context `{PgJson}.

(** ** The tables *)
Record ClientRow : Type := { cl_payload : jsonb }.
Record DeviceRow : Type := {
  dv_user_code_normalized : string;
  dv_client_id : string;
  dv_approved_subject : option string;
  dv_expires_at_ns : Z;
  dv_payload : jsonb;
}.
Record CodeRow : Type := {
  co_client_id : string;
  co_subject : string;
  co_expires_at_ns : Z;
  co_payload : jsonb;
}.
Record TokenRow : Type := {
  tk_client_id : string;
  tk_subject : option string;
  tk_family_id : option string;
  tk_expires_at_ns : Z;
  tk_payload : jsonb;
}.
Record RefreshRow : Type := {
  rf_client_id : string;
  rf_subject : option string;
  rf_family_id : string;
  rf_expires_at_ns : option Z;
  rf_payload : jsonb;
}.
Record PushedRow : Type := {
  pu_client_id : string;
  pu_expires_at_ns : Z;
  pu_payload : jsonb;
}.
Record ConsentRow : Type := {
  cs_client_id : string;
  cs_subject : string;
  cs_granted_at_ns : Z;
  cs_payload : jsonb;
}.
(** [UNIQUE (scope, client_id, family_id, subject)] *)
Record BarrierKey : Type := {
  bk_scope : string;
  bk_client_id : string;
  bk_family_id : string;
  bk_subject : string;
}.
Record BarrierRow : Type := { br_expires_at_ns : Z; br_recorded_at_ns : Z }.

#[global] Instance BarrierKey_eq_dec : EqDecision BarrierKey. Proof. solve_decision. Defined.
#[global] Instance BarrierKey_countable : Countable BarrierKey.
Proof.
  refine (inj_countable'
    (fun k => (bk_scope k, bk_client_id k, bk_family_id k, bk_subject k))
    (fun '(a, b, c, d) => {| bk_scope := a; bk_client_id := b; bk_family_id := c; bk_subject := d |}) _).
  by intros [].
Defined.

Record Db : Type := {
  oauth_as_clients : gmap string ClientRow;
  oauth_as_device_grants : gmap string DeviceRow;
  oauth_as_authorization_codes : gmap string CodeRow;
  oauth_as_access_tokens : gmap string TokenRow;
  oauth_as_refresh_tokens : gmap string RefreshRow;
  oauth_as_pushed_requests : gmap string PushedRow;
  oauth_as_consents : gmap string ConsentRow;
  oauth_as_replay_ids : gmap string Z;
  oauth_as_revocation_barriers : gmap BarrierKey BarrierRow;
}.

(** After the migrations, and after [truncate_all]. *)
Definition db_empty : Db := {|
  oauth_as_clients := ∅; oauth_as_device_grants := ∅; oauth_as_authorization_codes := ∅;
  oauth_as_access_tokens := ∅; oauth_as_refresh_tokens := ∅; oauth_as_pushed_requests := ∅;
  oauth_as_consents := ∅; oauth_as_replay_ids := ∅; oauth_as_revocation_barriers := ∅ |}.

Inductive TableId : Type :=
| TClients | TDevices | TCodes | TTokens | TRefresh | TPushed | TConsents | TReplay | TBarriers.
#[global] Instance TableId_eq_dec : EqDecision TableId. Proof. solve_decision. Defined.

(** A table: where its rows are, and the constraint a new version of a row is held
    against. *)
Record Table (K R : Type) `{Countable K} : Type := {
  t_id : TableId;
  t_rows : Db -> gmap K R;
  t_with : gmap K R -> Db -> Db;
  t_constraint : K -> R -> gmap K R -> option SqlxError;
}.
Arguments t_id {K R _ _} t.
Arguments t_rows {K R _ _} t d.
Arguments t_with {K R _ _} t m d.
Arguments t_constraint {K R _ _} t k r m.

Definition unconstrained {K R} `{Countable K} : K -> R -> gmap K R -> option SqlxError :=
  fun _ _ _ => None.

Definition clients : Table string ClientRow := {|
  t_id := TClients; t_rows := oauth_as_clients; t_constraint := unconstrained;
  t_with m d := Build_Db m (oauth_as_device_grants d) (oauth_as_authorization_codes d)
    (oauth_as_access_tokens d) (oauth_as_refresh_tokens d) (oauth_as_pushed_requests d)
    (oauth_as_consents d) (oauth_as_replay_ids d) (oauth_as_revocation_barriers d) |}.

(** [CREATE UNIQUE INDEX oauth_as_device_grants_user_code_key] *)
Definition USER_CODE_KEY : string := "oauth_as_device_grants_user_code_key".
Definition user_code_unique (k : string) (r : DeviceRow) (m : gmap string DeviceRow)
  : option SqlxError :=
  if existsb (fun '(k', r') => (k' != k)
                && (dv_user_code_normalized r' == dv_user_code_normalized r)) (map_to_list m)
  then Some (Database (Some "23505") (Some USER_CODE_KEY)) else None.
Definition device_grants : Table string DeviceRow := {|
  t_id := TDevices; t_rows := oauth_as_device_grants; t_constraint := user_code_unique;
  t_with m d := Build_Db (oauth_as_clients d) m (oauth_as_authorization_codes d)
    (oauth_as_access_tokens d) (oauth_as_refresh_tokens d) (oauth_as_pushed_requests d)
    (oauth_as_consents d) (oauth_as_replay_ids d) (oauth_as_revocation_barriers d) |}.

Definition authorization_codes : Table string CodeRow := {|
  t_id := TCodes; t_rows := oauth_as_authorization_codes; t_constraint := unconstrained;
  t_with m d := Build_Db (oauth_as_clients d) (oauth_as_device_grants d) m
    (oauth_as_access_tokens d) (oauth_as_refresh_tokens d) (oauth_as_pushed_requests d)
    (oauth_as_consents d) (oauth_as_replay_ids d) (oauth_as_revocation_barriers d) |}.

Definition access_tokens : Table string TokenRow := {|
  t_id := TTokens; t_rows := oauth_as_access_tokens; t_constraint := unconstrained;
  t_with m d := Build_Db (oauth_as_clients d) (oauth_as_device_grants d)
    (oauth_as_authorization_codes d) m (oauth_as_refresh_tokens d) (oauth_as_pushed_requests d)
    (oauth_as_consents d) (oauth_as_replay_ids d) (oauth_as_revocation_barriers d) |}.

Definition refresh_tokens : Table string RefreshRow := {|
  t_id := TRefresh; t_rows := oauth_as_refresh_tokens; t_constraint := unconstrained;
  t_with m d := Build_Db (oauth_as_clients d) (oauth_as_device_grants d)
    (oauth_as_authorization_codes d) (oauth_as_access_tokens d) m (oauth_as_pushed_requests d)
    (oauth_as_consents d) (oauth_as_replay_ids d) (oauth_as_revocation_barriers d) |}.

Definition pushed_requests : Table string PushedRow := {|
  t_id := TPushed; t_rows := oauth_as_pushed_requests; t_constraint := unconstrained;
  t_with m d := Build_Db (oauth_as_clients d) (oauth_as_device_grants d)
    (oauth_as_authorization_codes d) (oauth_as_access_tokens d) (oauth_as_refresh_tokens d) m
    (oauth_as_consents d) (oauth_as_replay_ids d) (oauth_as_revocation_barriers d) |}.

Definition consents : Table string ConsentRow := {|
  t_id := TConsents; t_rows := oauth_as_consents; t_constraint := unconstrained;
  t_with m d := Build_Db (oauth_as_clients d) (oauth_as_device_grants d)
    (oauth_as_authorization_codes d) (oauth_as_access_tokens d) (oauth_as_refresh_tokens d)
    (oauth_as_pushed_requests d) m (oauth_as_replay_ids d) (oauth_as_revocation_barriers d) |}.

Definition replay_ids : Table string Z := {|
  t_id := TReplay; t_rows := oauth_as_replay_ids; t_constraint := unconstrained;
  t_with m d := Build_Db (oauth_as_clients d) (oauth_as_device_grants d)
    (oauth_as_authorization_codes d) (oauth_as_access_tokens d) (oauth_as_refresh_tokens d)
    (oauth_as_pushed_requests d) (oauth_as_consents d) m (oauth_as_revocation_barriers d) |}.

(** The four [CHECK]s of [0005_revocation_barriers.sql]. *)
Definition barrier_check (k : BarrierKey) : bool :=
  existsb (fun s => bk_scope k == s) ["client"; "family"; "consent"]
  && ((bk_scope k != "client") || (bk_client_id k != ""))
  && ((bk_scope k != "family") || (bk_family_id k != ""))
  && ((bk_scope k != "consent") || ((bk_client_id k != "") && (bk_subject k != ""))).
Definition revocation_barriers : Table BarrierKey BarrierRow := {|
  t_id := TBarriers; t_rows := oauth_as_revocation_barriers;
  t_constraint k _ _ :=
    if barrier_check k then None
    else Some (Database (Some "23514") (Some "oauth_as_revocation_barriers_check"));
  t_with m d := Build_Db (oauth_as_clients d) (oauth_as_device_grants d)
    (oauth_as_authorization_codes d) (oauth_as_access_tokens d) (oauth_as_refresh_tokens d)
    (oauth_as_pushed_requests d) (oauth_as_consents d) (oauth_as_replay_ids d) m |}.

(** ** Writes

    What a statement does to the rows it reaches: a new version, a removal, or only
    the row lock of [FOR UPDATE].  Each of the three holds the row until the
    transaction ends. *)
Inductive Write : Type :=
| Upsert {K R : Type} `{Countable K} (t : Table K R) (k : K) (r : R)
| Remove {K R : Type} `{Countable K} (t : Table K R) (k : K)
| Hold {K R : Type} `{Countable K} (t : Table K R) (k : K).

Definition apply_write (w : Write) (d : Db) : Db :=
  match w with
  | Upsert t k r => t_with t (<[k := r]> (t_rows t d)) d
  | Remove t k => t_with t (delete k (t_rows t d)) d
  | Hold _ _ => d
  end.
Fixpoint apply_writes (ws : list Write) (d : Db) : Db :=
  match ws with [] => d | w :: ws => apply_writes ws (apply_write w d) end.

(** The name of a row across tables. *)
Definition RowId : Type := TableId * positive.
Definition row_id {K R} `{Countable K} (t : Table K R) (k : K) : RowId := (t_id t, encode k).
Definition locked_row (w : Write) : RowId :=
  match w with Upsert t k _ | Remove t k | Hold t k => row_id t k end.
Definition removed_row (w : Write) : option RowId :=
  match w with Remove t k => Some (row_id t k) | _ => None end.
Definition removes (ws : list Write) (i : RowId) : bool :=
  existsb (fun w => removed_row w == Some i) ws.
Definition locks_row (ws : list Write) (i : RowId) : bool :=
  existsb (fun w => locked_row w == i) ws.

(** ** Statements *)
Record Snapshot : Type := {
  sn_then : Db;
  sn_now : Db;
  sn_gone : RowId -> bool;    (** rows some transaction removed in between *)
  sn_locked : RowId -> bool;  (** rows another transaction holds *)
}.

Definition Stmt (X : Type) : Type := Snapshot -> result (X * list Write) SqlxError.

Section statements.
Context `{PgOrder} {K R : Type} `{Countable K} (t : Table K R).

(** [SELECT .. WHERE pk = $1] *)
Definition select_pk (k : K) : Stmt (option R) := fun s => Ok (t_rows t (sn_then s) !! k, []).

(** [SELECT .. WHERE p] *)
Definition select_where (p : K -> R -> bool) : Stmt (list (K * R)) := fun s =>
  Ok (List.filter (fun '(k, r) => p k r) (scan (t_rows t (sn_then s))), []).

(** The version a row of the snapshot has when a statement reaches it, if it is
    still the same row and still satisfies the condition. *)
Definition recheck (s : Snapshot) (p : K -> R -> bool) (k : K) : option R :=
  if sn_gone s (row_id t k) then None
  else match t_rows t (sn_now s) !! k with
       | Some r => if p k r then Some r else None
       | None => None
       end.
Definition reached (s : Snapshot) (p : K -> R -> bool) (rows : list (K * R)) : list (K * R) :=
  omap (fun '(k, r) => if p k r then (fun r' => (k, r')) <$> recheck s p k else None) rows.

(** [DELETE .. WHERE p RETURNING ..] *)
Definition delete_where (p : K -> R -> bool) : Stmt (list (K * R)) := fun s =>
  let rows := reached s p (scan (t_rows t (sn_then s))) in
  Ok (rows, map (fun '(k, _) => Remove t k) rows).

(** [DELETE .. WHERE pk = $1 RETURNING ..], [fetch_optional] *)
Definition delete_pk (k : K) : Stmt (option R) := fun s =>
  match t_rows t (sn_then s) !! k ≫= (fun _ => recheck s (fun _ _ => true) k) with
  | Some r => Ok (Some r, [Remove t k])
  | None => Ok (None, [])
  end.

(** [SELECT .. WHERE pk = $1 FOR UPDATE] *)
Definition select_pk_for_update (k : K) : Stmt (option R) := fun s =>
  match t_rows t (sn_then s) !! k ≫= (fun _ => recheck s (fun _ _ => true) k) with
  | Some r => Ok (Some r, [Hold t k])
  | None => Ok (None, [])
  end.

(** [UPDATE .. SET .. WHERE pk = $1 AND p], every column but the key set: the number of
    rows affected. *)
Definition update_pk (k : K) (p : R -> bool) (r : R) : Stmt Z := fun s =>
  match t_rows t (sn_then s) !! k with
  | Some old =>
      if p old then
        match recheck s (fun _ => p) k with
        | Some _ =>
            match t_constraint t k r (t_rows t (sn_now s)) with
            | Some e => Err e
            | None => Ok (1, [Upsert t k r])
            end
        | None => Ok (0, [])
        end
      else Ok (0, [])
  | None => Ok (0, [])
  end.

(** [INSERT .. VALUES .. ON CONFLICT (pk) DO UPDATE SET ..]: the row written is
    [merge] of the one in the way, if there is one. *)
Definition upsert (k : K) (merge : option R -> R) : Stmt unit := fun s =>
  let r := merge (t_rows t (sn_now s) !! k) in
  match t_constraint t k r (t_rows t (sn_now s)) with
  | Some e => Err e
  | None => Ok (tt, [Upsert t k r])
  end.

(** [INSERT .. ON CONFLICT (pk) DO NOTHING RETURNING ..]: whether a row came back. *)
Definition insert_or_nothing (k : K) (r : R) : Stmt bool := fun s =>
  match t_rows t (sn_now s) !! k with
  | Some _ => Ok (false, [])
  | None =>
      match t_constraint t k r (t_rows t (sn_now s)) with
      | Some e => Err e
      | None => Ok (true, [Upsert t k r])
      end
  end.

(** [DELETE .. WHERE ctid IN (SELECT ctid .. WHERE p LIMIT $2 FOR UPDATE SKIP LOCKED)] *)
Definition delete_batch (p : K -> R -> bool) (limit : nat) : Stmt Z := fun s =>
  let free := List.filter (fun '(k, _) => negb (sn_locked s (row_id t k)))
                (scan (t_rows t (sn_then s))) in
  let rows := firstn limit (reached s p free) in
  Ok (Z.of_nat (List.length rows), map (fun '(k, _) => Remove t k) rows).

(** [SELECT .. WHERE p ORDER BY .. LIMIT 1], [le] being the order of the clause. *)
Fixpoint first_by (le : K * R -> K * R -> bool) (rows : list (K * R)) : option (K * R) :=
  match rows with
  | [] => None
  | x :: rows =>
      match first_by le rows with
      | Some y => if le x y then Some x else Some y
      | None => Some x
      end
  end.
Definition select_first (p : K -> R -> bool) (le : K * R -> K * R -> bool)
  : Stmt (option (K * R)) := fun s =>
  Ok (first_by le (List.filter (fun '(k, r) => p k r) (scan (t_rows t (sn_then s)))), []).

(** The same with [FOR UPDATE]: the order is that of the snapshot, a row that no longer
    qualifies is passed over, the others are met as they are now. *)
Definition select_first_for_update (p : K -> R -> bool) (le : K * R -> K * R -> bool)
  : Stmt (option (K * R)) := fun s =>
  let qualifies '(k, r) := p k r && is_some (recheck s p k) in
  match first_by le (List.filter qualifies (scan (t_rows t (sn_then s)))) with
  | Some (k, _) => Ok ((fun r => (k, r)) <$> recheck s p k, [Hold t k])
  | None => Ok (None, [])
  end.
End statements.

(** ** Programs *)
Inductive LockMode : Type := Shared | Exclusive.
#[global] Instance LockMode_eq_dec : EqDecision LockMode. Proof. solve_decision. Defined.

(** The rest of a transaction.  [TReturn] drops the handle, which rolls back. *)
Inductive txn (A : Type) : Type :=
| TReturn (a : A)
| TExec {X : Type} (st : Stmt X) (k : result X SqlxError -> txn A)
| TLocks (mode : LockMode) (keys : list string) (k : result unit SqlxError -> txn A)
| TCommit (k : result unit SqlxError -> A)
| TRollback (k : result unit SqlxError -> A).
Arguments TReturn {A} a.
Arguments TExec {A X} st k.
Arguments TLocks {A} mode keys k.
Arguments TCommit {A} k.
Arguments TRollback {A} k.

(** A method: statements on the pool, each its own transaction, or one transaction.
    [SSpin] stands for a loop that was given too few turns. *)
Inductive sql (A : Type) : Type :=
| SRet (a : A)
| SAuto {X : Type} (st : Stmt X) (k : result X SqlxError -> sql A)
| SBegin (failed : SqlxError -> A) (body : txn A)
| SSpin.
Arguments SRet {A} a.
Arguments SAuto {A X} st k.
Arguments SBegin {A} failed body.
Arguments SSpin {A}.

(** ** A program alone

    [fault n] is the driver failure the [n]th round trip meets, if any.  A failed
    statement aborts the transaction it is part of: the statements after it fail and
    its commit rolls back. *)
Definition still (d : Db) : Snapshot :=
  {| sn_then := d; sn_now := d; sn_gone := fun _ => false; sn_locked := fun _ => false |}.

Section run.
Context (fault : nat -> option SqlxError).

Definition run_stmt {X} (n : nat) (st : Stmt X) (d : Db) : result (X * list Write) SqlxError :=
  match fault n with Some e => Err e | None => st (still d) end.

Definition IN_FAILED_TRANSACTION : SqlxError := Database (Some "25P02") None.

(** The database the transaction started from, and the one it sees. *)
Fixpoint run_txn {A} (n : nat) (p : txn A) (start seen : Db) (aborted : bool) : A * Db :=
  match p with
  | TReturn a => (a, start)
  | TExec st k =>
      if aborted then run_txn (S n) (k (Err IN_FAILED_TRANSACTION)) start seen true
      else match run_stmt n st seen with
           | Ok (x, ws) => run_txn (S n) (k (Ok x)) start (apply_writes ws seen) false
           | Err e => run_txn (S n) (k (Err e)) start seen true
           end
  | TLocks _ _ k =>
      if aborted then run_txn (S n) (k (Err IN_FAILED_TRANSACTION)) start seen true
      else match fault n with
           | Some e => run_txn (S n) (k (Err e)) start seen true
           | None => run_txn (S n) (k (Ok tt)) start seen false
           end
  | TCommit k =>
      match fault n with
      | Some e => (k (Err e), start)
      | None => (k (Ok tt), if aborted then start else seen)
      end
  | TRollback k =>
      match fault n with Some e => (k (Err e), start) | None => (k (Ok tt), start) end
  end.

Fixpoint run_sql {A} (n : nat) (p : sql A) (d : Db) : option (A * Db) :=
  match p with
  | SRet a => Some (a, d)
  | SAuto st k =>
      match run_stmt n st d with
      | Ok (x, ws) => run_sql (S n) (k (Ok x)) (apply_writes ws d)
      | Err e => run_sql (S n) (k (Err e)) d
      end
  | SBegin failed body =>
      match fault n with
      | Some e => Some (failed e, d)
      | None => Some (run_txn (S n) body d d false)
      end
  | SSpin => None
  end.
End run.
End tables.
Arguments Db {_}.
Arguments t_id {_ K R _ _} t.
Arguments t_rows {_ K R _ _} t d.
Arguments t_with {_ K R _ _} t m d.
Arguments t_constraint {_ K R _ _} t k r m.
Arguments TReturn {_ A} a.
Arguments TExec {_ A X} st k.
Arguments TLocks {_ A} mode keys k.
Arguments TCommit {_ A} k.
Arguments TRollback {_ A} k.
Arguments SRet {_ A} a.
Arguments SAuto {_ A X} st k.
Arguments SBegin {_ A} failed body.
Arguments SSpin {_ A}.
