(* ===== verification/Postgres.v ===== *)
(** * The PostgreSQL store (oauth-as-postgres)

    Every method of [impl Storage for PostgresStorage] as the statements it issues,
    in order, with the transaction they run in and what each failure becomes; the
    helpers of [store.rs], [time.rs] and [error.rs]; and the three wrong
    implementations [naive.rs] keeps. *)
From S2P Require Import Prelude Time Codec Types Store Sql.
Local Open Scope Z_scope.

(** ** time.rs *)
Definition I64_MAX : Z := 2 ^ 63 - 1.
Definition I64_MIN : Z := - 2 ^ 63.
Definition i64_try_from (n : Z) : option Z :=
  if (I64_MIN <=? n) && (n <=? I64_MAX) then Some n else None.

Definition to_nanos (t : SystemTime) : Z :=
  match duration_since t UNIX_EPOCH with
  | Some d => unwrap_or (i64_try_from d) I64_MAX
  | None => unwrap_or (Z.opp <$> i64_try_from (UNIX_EPOCH - t)) I64_MIN
  end.

Definition from_nanos (ns : Z) : SystemTime :=
  if ns >=? 0 then UNIX_EPOCH + ns else UNIX_EPOCH - Z.abs ns.

(** ** error.rs *)
Definition kind (e : SqlxError) : string :=
  match e with
  | Database (Some code) _ => "database, sqlstate " +:+ code
  | Database None _ => "database"
  | Configuration => "configuration"
  | Io => "io"
  | Tls => "tls"
  | Protocol => "protocol"
  | RowNotFound => "no row"
  | ColumnDecode | Decode => "decode"
  | PoolTimedOut => "pool timed out"
  | PoolClosed => "pool closed"
  | WorkerCrashed => "worker crashed"
  | OtherDriver => "driver"
  end.

Definition db (op : string) (e : SqlxError) : StorageError :=
  {| se_message := "oauth-as-postgres: " +:+ op +:+ " failed (" +:+ kind e +:+ ")" |}.

Definition is_unique_violation (e : SqlxError) (constraint : string) : bool :=
  match e with
  | Database code named => (code == Some "23505") && (named == Some constraint)
  | _ => false
  end.

Definition payload_error (op : string) : StorageError :=
  {| se_message := "oauth-as-postgres: " +:+ op +:+
       " read a stored record this build of oauth-as cannot decode "
       +:+ "(schema or crate version mismatch)" |}.

Definition encode_error (op : string) : StorageError :=
  {| se_message := "oauth-as-postgres: " +:+ op +:+
       " could not serialize the record it was given" |}.

(** ** The scopes a revocation names *)
Definition scope_key (scope first second : string) : string :=
  scope +:+ ":" +:+ nat_display (str_len first) +:+ ":" +:+ first
  +:+ ":" +:+ nat_display (str_len second) +:+ ":" +:+ second.

Definition barrier_scope_keys (client_id : string) (family_id subject : option string)
  : list string :=
  [scope_key "client" client_id ""]
  ++ match family_id with Some f => [scope_key "family" f ""] | None => [] end
  ++ match subject with Some s => [scope_key "consent" client_id s] | None => [] end.

Definition approved_subject (state : DeviceGrantState) : option string :=
  match state with
  | Approved subject => Some subject
  | Pending | Denied => None
  end.

(** [lib.rs] *)
Definition SWEEP_BATCH_ROWS : Z := 5000.

(** ** Records and their columns *)
Class PgRecords `{PgJson} := {
  rec_client :: Jsonb Client;
  rec_grant :: Jsonb DeviceGrant;
  rec_grant_state :: Jsonb DeviceGrantState;
  rec_code :: Jsonb AuthorizationCodeRecord;
  rec_code_state :: Jsonb AuthorizationCodeState;
  rec_pushed :: Jsonb PushedAuthorizationRequest;
  rec_token :: Jsonb IssuedToken;
  rec_refresh :: Jsonb RefreshTokenRecord;
  rec_consent :: Jsonb ConsentRecord;
}.

Section rows.
Context `{PgRecords}.

Definition device_row (grant : DeviceGrant) (payload : jsonb) : DeviceRow := {|
  dv_user_code_normalized := UserCode.normalize_user_code (dg_user_code grant);
  dv_client_id := dg_client_id grant;
  dv_approved_subject := approved_subject (dg_state grant);
  dv_expires_at_ns := to_nanos (dg_expires_at grant);
  dv_payload := payload |}.
Definition code_row (record : AuthorizationCodeRecord) (payload : jsonb) : CodeRow := {|
  co_client_id := ac_client_id record;
  co_subject := ac_subject record;
  co_expires_at_ns := to_nanos (ac_expires_at record);
  co_payload := payload |}.
Definition token_row (token : IssuedToken) (payload : jsonb) : TokenRow := {|
  tk_client_id := it_client_id token;
  tk_subject := it_subject token;
  tk_family_id := it_family_id token;
  tk_expires_at_ns := to_nanos (it_expires_at token);
  tk_payload := payload |}.
Definition refresh_row (record : RefreshTokenRecord) (payload : jsonb) : RefreshRow := {|
  rf_client_id := rt_client_id record;
  rf_subject := rt_subject record;
  rf_family_id := rt_family_id record;
  rf_expires_at_ns := to_nanos <$> rt_expires_at record;
  rf_payload := payload |}.
Definition pushed_row (record : PushedAuthorizationRequest) (payload : jsonb) : PushedRow := {|
  pu_client_id := par_client_id record;
  pu_expires_at_ns := to_nanos (par_expires_at record);
  pu_payload := payload |}.
Definition consent_row (record : ConsentRecord) (payload : jsonb) : ConsentRow := {|
  cs_client_id := cr_client_id record;
  cs_subject := cr_subject record;
  cs_granted_at_ns := to_nanos (cr_granted_at record);
  cs_payload := payload |}.
End rows.

(** ** Steps of a method

    A step inside a transaction is written in continuation-passing style: an error
    leaves the method, dropping the transaction. *)
Section steps.
Context `{PgJson}.

Definition Tx (X : Type) : Type :=
  forall A, (X -> txn (result A StorageError)) -> txn (result A StorageError).

(** [.execute(&mut *tx).await.map_err(|e| error::db(op, e))?] *)
Definition exec {X} (op : string) (st : Stmt X) : Tx X := fun A k =>
  TExec st (fun r => match r with Ok x => k x | Err e => TReturn (Err (db op e)) end).
(** [r?] *)
Definition try {X} (r : result X StorageError) : Tx X := fun A k =>
  match r with Ok x => k x | Err e => TReturn (Err e) end.
(** [tx.commit().await.map_err(..)?; Ok(a)] and the same with [rollback]. *)
Definition commit {A} (op : string) (a : A) : txn (result A StorageError) :=
  TCommit (fun r => match r with Ok _ => Ok a | Err e => Err (db op e) end).
Definition rollback {A} (op : string) (a : A) : txn (result A StorageError) :=
  TRollback (fun r => match r with Ok _ => Ok a | Err e => Err (db op e) end).

(** [.execute(&self.pool).await.map_err(|e| error::db(op, e))?] *)
Definition on_pool {X A} (op : string) (st : Stmt X) (k : X -> sql (result A StorageError))
  : sql (result A StorageError) :=
  SAuto st (fun r => match r with Ok x => k x | Err e => SRet (Err (db op e)) end).
(** [self.begin(op).await?] *)
Definition begin {A} (op : string) (body : txn (result A StorageError))
  : sql (result A StorageError) := SBegin (fun e => Err (db op e)) body.
Definition or_return {X A} (r : result X StorageError) (k : X -> sql (result A StorageError))
  : sql (result A StorageError) :=
  match r with Ok x => k x | Err e => SRet (Err e) end.
End steps.

Notation "'let@' x ':=' p 'in' k" :=
  (p _ (fun x => k)) (at level 10, x name, p at level 100, k at level 200).
Notation "'let$' x ':=' p 'in' k" :=
  (p (fun x => k)) (at level 10, x name, p at level 100, k at level 200).

Module PostgresStorage.
Section methods.
Context `{PgRecords, PgOrder}.

(** ** The helpers of store.rs *)
Definition pg_encode {T} `{!Jsonb T} (op : string) (value : T) : result jsonb StorageError :=
  ok_or (to_value value) (encode_error op).
Definition pg_decode {T} `{!Jsonb T} (op : string) (value : jsonb) : result T StorageError :=
  ok_or (from_value value) (payload_error op).
Definition payload_of {T} `{!Jsonb T} (op : string) (row : option jsonb)
  : result (option T) StorageError :=
  match row with
  | Some raw => match pg_decode op raw with Ok x => Ok (Some x) | Err e => Err e end
  | None => Ok None
  end.

Definition lock_barrier_scopes (op client_id : string) (family_id subject : option string)
  : Tx unit := fun A k =>
  TLocks Shared (barrier_scope_keys client_id family_id subject)
    (fun r => match r with Ok _ => k tt | Err e => TReturn (Err (db op e)) end).

Definition lock_barrier_scope_exclusive (op key : string) : Tx unit := fun A k =>
  TLocks Exclusive [key]
    (fun r => match r with Ok _ => k tt | Err e => TReturn (Err (db op e)) end).

Definition pg_record_barrier (op scope : string) (client_id family_id subject : option string)
    (window : RevocationWindow) : Tx unit :=
  let key := {| bk_scope := scope; bk_client_id := unwrap_or client_id "";
                bk_family_id := unwrap_or family_id ""; bk_subject := unwrap_or subject "" |} in
  let excluded := {| br_expires_at_ns := to_nanos (rw_until window);
                     br_recorded_at_ns := to_nanos (rw_recorded_at window) |} in
  exec op (upsert revocation_barriers key (fun standing =>
    match standing with
    | None => excluded
    | Some b => {| br_expires_at_ns := Z.max (br_expires_at_ns b) (br_expires_at_ns excluded);
                   br_recorded_at_ns := Z.max (br_recorded_at_ns b) (br_recorded_at_ns excluded) |}
    end)).

(** The [SELECT EXISTS] of [barrier_covers]: one barrier row against the three clauses. *)
Definition pg_covers (clients : gmap string ClientRow) (client_id family_id subject : string)
    (grant_established_at : Z) (k : BarrierKey) (b : BarrierRow) : bool :=
  ((bk_scope k == "client") && (bk_client_id k == client_id)
     && ((br_recorded_at_ns b >=? grant_established_at) || is_none (clients !! client_id)))
  || ((bk_scope k == "family") && (bk_family_id k == family_id))
  || ((bk_scope k == "consent") && (bk_client_id k == client_id) && (bk_subject k == subject)
        && (br_recorded_at_ns b >=? grant_established_at)).

Definition exists_covering (client_id family_id subject : string) (grant_established_at : Z)
  : Stmt bool := fun s =>
  let d := sn_then s in
  Ok (existsb (fun '(k, b) =>
        pg_covers (oauth_as_clients d) client_id family_id subject grant_established_at k b)
        (map_to_list (oauth_as_revocation_barriers d)), []).

Definition barrier_covers (op client_id : string) (family_id subject : option string)
    (grant_established_at : SystemTime) : Tx bool :=
  exec op (exists_covering client_id (unwrap_or family_id "") (unwrap_or subject "")
             (to_nanos grant_established_at)).

Definition write_token (token : IssuedToken) : Tx unit := fun A k =>
  let OP := "write_token" in
  let@ payload := try (pg_encode OP token) in
  let@ _ := exec OP (upsert access_tokens (it_access_token token)
                       (fun _ => token_row token payload)) in
  k tt.

Definition write_record (record : RefreshTokenRecord) : Tx unit := fun A k =>
  let OP := "write_record" in
  let@ payload := try (pg_encode OP record) in
  let@ _ := exec OP (upsert refresh_tokens (rt_refresh_token record)
                       (fun _ => refresh_row record payload)) in
  k tt.

(** [for stmt in [..]] over deletes, the rows affected added up. *)
Definition affected {K R} (rows : list (K * R)) : Z := Z.of_nat (List.length rows).
Fixpoint delete_each (op : string) (stmts : list (Stmt Z)) (removed : Z) : Tx Z := fun A k =>
  match stmts with
  | [] => k removed
  | st :: stmts => let@ n := exec op st in delete_each op stmts (removed + n) A k
  end.
Definition rows_affected {K R} (st : Stmt (list (K * R))) : Stmt Z := fun s =>
  match st s with Ok (rows, ws) => Ok (affected rows, ws) | Err e => Err e end.

(** ** Clients *)
Definition pg_get_client (client_id : ClientId) : sql (result (option Client) StorageError) :=
  let OP := "get_client" in
  let$ row := on_pool OP (select_pk clients client_id) in
  SRet (payload_of OP (cl_payload <$> row)).

Definition pg_put_client (client : Client) : sql (result unit StorageError) :=
  let OP := "put_client" in
  let$ payload := or_return (pg_encode OP client) in
  let$ _ := on_pool OP (upsert clients (c_client_id client) (fun _ => {| cl_payload := payload |})) in
  SRet (Ok tt).

Definition pg_compare_and_swap_client (expected updated : Client) : sql (result bool StorageError) :=
  let OP := "compare_and_swap_client" in
  let$ expected_payload := or_return (pg_encode OP expected) in
  let$ updated_payload := or_return (pg_encode OP updated) in
  let$ n := on_pool OP (update_pk clients (c_client_id updated)
              (fun row => jsonb_eqb (cl_payload row) expected_payload)
              {| cl_payload := updated_payload |}) in
  SRet (Ok (n =? 1)).

Definition pg_delete_client (client_id : ClientId) (window : RevocationWindow)
  : sql (result bool StorageError) :=
  let OP := "delete_client" in
  let id := client_id in
  begin OP (
  let@ _ := lock_barrier_scope_exclusive OP (scope_key "client" id "") in
  let@ _ := pg_record_barrier OP "client" (Some id) None None window in
  let@ _ := exec OP (delete_where consents (fun _ r => cs_client_id r == id)) in
  let@ _ := delete_each OP
    [rows_affected (delete_where access_tokens (fun _ r => tk_client_id r == id));
     rows_affected (delete_where refresh_tokens (fun _ r => rf_client_id r == id));
     rows_affected (delete_where authorization_codes (fun _ r => co_client_id r == id));
     rows_affected (delete_where device_grants (fun _ r => dv_client_id r == id))] 0 in
  let@ _ := exec OP (delete_where pushed_requests (fun _ r => pu_client_id r == id)) in
  let@ row := exec OP (delete_pk clients id) in
  commit OP (is_some row)).

(** ** Device grants *)
Definition pg_user_code_taken : StorageError :=
  {| se_message := "oauth-as-postgres: user code is already indexed for a different device_code" |}.
Definition device_error (op : string) (e : SqlxError) : StorageError :=
  if is_unique_violation e "oauth_as_device_grants_user_code_key" then pg_user_code_taken else db op e.

Definition pg_put_device_grant (grant : DeviceGrant) : sql (result unit StorageError) :=
  let OP := "put_device_grant" in
  let$ payload := or_return (pg_encode OP grant) in
  SAuto (upsert device_grants (dg_device_code grant) (fun _ => device_row grant payload))
    (fun r => SRet (match r with Ok _ => Ok tt | Err e => Err (device_error OP e) end)).

Definition pg_get_device_grant (device_code : string)
  : sql (result (option DeviceGrant) StorageError) :=
  let OP := "get_device_grant" in
  let$ row := on_pool OP (select_pk device_grants device_code) in
  SRet (payload_of OP (dv_payload <$> row)).

Definition pg_find_device_grant_by_user_code (normalized_user_code : string)
  : sql (result (option DeviceGrant) StorageError) :=
  let OP := "find_device_grant_by_user_code" in
  let$ rows := on_pool OP (select_where device_grants
                 (fun _ r => dv_user_code_normalized r == normalized_user_code)) in
  SRet (payload_of OP ((fun kr => dv_payload (snd kr)) <$> head rows)).

Definition pg_compare_and_swap_device_grant (expected : DeviceGrantState) (updated : DeviceGrant)
  : sql (result bool StorageError) :=
  let OP := "compare_and_swap_device_grant" in
  let$ expected_json := or_return (pg_encode OP expected) in
  let$ payload := or_return (pg_encode OP updated) in
  SAuto (update_pk device_grants (dg_device_code updated)
           (fun r => is_some_and (json_arrow (dv_payload r) "state")
                       (fun state => jsonb_eqb state expected_json))
           (device_row updated payload))
    (fun r => SRet (match r with Ok n => Ok (n >? 0) | Err e => Err (device_error OP e) end)).

Definition pg_take_device_grant (device_code : string)
  : sql (result (option DeviceGrant) StorageError) :=
  let OP := "take_device_grant" in
  let$ row := on_pool OP (delete_pk device_grants device_code) in
  SRet (payload_of OP (dv_payload <$> row)).

(** ** Authorization codes *)
Definition pg_put_authorization_code (record : AuthorizationCodeRecord)
  : sql (result unit StorageError) :=
  let OP := "put_authorization_code" in
  let$ payload := or_return (pg_encode OP record) in
  let$ _ := on_pool OP (upsert authorization_codes (ac_code record)
                          (fun _ => code_row record payload)) in
  SRet (Ok tt).

Definition pg_take_authorization_code (code : string)
  : sql (result (option AuthorizationCodeRecord) StorageError) :=
  let OP := "take_authorization_code" in
  let$ row := on_pool OP (delete_pk authorization_codes code) in
  SRet (payload_of OP (co_payload <$> row)).

Definition pg_compare_and_swap_authorization_code (expected : AuthorizationCodeState)
    (updated : AuthorizationCodeRecord) : sql (result bool StorageError) :=
  let OP := "compare_and_swap_authorization_code" in
  let$ expected_state := or_return (pg_encode OP expected) in
  let$ payload := or_return (pg_encode OP updated) in
  let$ n := on_pool OP (update_pk authorization_codes (ac_code updated)
              (fun r => is_some_and (json_arrow (co_payload r) "state")
                          (fun state => jsonb_eqb state expected_state))
              (code_row updated payload)) in
  SRet (Ok (n =? 1)).

(** ** Pushed requests *)
Definition pg_put_pushed_authorization_request (record : PushedAuthorizationRequest)
  : sql (result WriteOutcome StorageError) :=
  let OP := "put_pushed_authorization_request" in
  let$ payload := or_return (pg_encode OP record) in
  begin OP (
  let@ _ := lock_barrier_scopes OP (par_client_id record) None None in
  let@ covered := barrier_covers OP (par_client_id record) None None (par_pushed_at record) in
  if covered then rollback OP RefusedRevoked
  else
    let@ _ := exec OP (upsert pushed_requests (par_request_uri record)
                         (fun _ => pushed_row record payload)) in
    commit OP Applied).

Definition pg_take_pushed_authorization_request (request_uri : string)
  : sql (result (option PushedAuthorizationRequest) StorageError) :=
  let OP := "take_pushed_authorization_request" in
  let$ row := on_pool OP (delete_pk pushed_requests request_uri) in
  SRet (payload_of OP (pu_payload <$> row)).

(** ** Access tokens *)
Definition pg_put_token (token : IssuedToken) : sql (result WriteOutcome StorageError) :=
  let OP := "put_token" in
  begin OP (
  let@ _ := lock_barrier_scopes OP (it_client_id token) (it_family_id token) (it_subject token) in
  let@ covered := barrier_covers OP (it_client_id token) (it_family_id token) (it_subject token)
                    (it_grant_established_at token) in
  if covered then rollback OP RefusedRevoked
  else
    let@ _ := write_token token in
    commit OP Applied).

Definition pg_get_token (access_token : string) : sql (result (option IssuedToken) StorageError) :=
  let OP := "get_token" in
  let$ row := on_pool OP (select_pk access_tokens access_token) in
  SRet (payload_of OP (tk_payload <$> row)).

Definition pg_delete_token (access_token : string) : sql (result unit StorageError) :=
  let OP := "delete_token" in
  let$ _ := on_pool OP (delete_pk access_tokens access_token) in
  SRet (Ok tt).

(** ** Refresh tokens *)
Definition pg_put_refresh_token (record : RefreshTokenRecord)
  : sql (result WriteOutcome StorageError) :=
  let OP := "put_refresh_token" in
  begin OP (
  let@ _ := lock_barrier_scopes OP (rt_client_id record) (Some (rt_family_id record))
              (rt_subject record) in
  let@ covered := barrier_covers OP (rt_client_id record) (Some (rt_family_id record))
                    (rt_subject record) (rt_grant_established_at record) in
  if covered then rollback OP RefusedRevoked
  else
    let@ _ := write_record record in
    commit OP Applied).

Definition pg_get_refresh_token (refresh_token : string)
  : sql (result (option RefreshTokenRecord) StorageError) :=
  let OP := "get_refresh_token" in
  let$ row := on_pool OP (select_pk refresh_tokens refresh_token) in
  SRet (payload_of OP (rf_payload <$> row)).

Definition pg_rotate_refresh_token (expected spent : RefreshTokenRecord) (access : IssuedToken)
    (next : option RefreshTokenRecord) : sql (result bool StorageError) :=
  let OP := "rotate_refresh_token" in
  begin OP (
  let@ _ := lock_barrier_scopes OP (rt_client_id expected) (Some (rt_family_id expected))
              (rt_subject expected) in
  let@ covered := barrier_covers OP (rt_client_id expected) (Some (rt_family_id expected))
                    (rt_subject expected) (rt_grant_established_at expected) in
  if covered then rollback OP false
  else
    let@ row := exec OP (select_pk_for_update refresh_tokens (rt_refresh_token expected)) in
    let@ current := try (payload_of OP (rf_payload <$> row)) in
    if current != Some expected then rollback OP false
    else
      let@ _ := write_record spent in
      let@ _ := write_token access in
      match next with
      | Some next => let@ _ := write_record next in commit OP true
      | None => commit OP true
      end).

Definition pg_take_refresh_token (refresh_token : string)
  : sql (result (option RefreshTokenRecord) StorageError) :=
  let OP := "take_refresh_token" in
  let$ row := on_pool OP (delete_pk refresh_tokens refresh_token) in
  SRet (payload_of OP (rf_payload <$> row)).

Definition pg_revoke_token_family (family_id : string) (window : RevocationWindow)
  : sql (result Z StorageError) :=
  let OP := "revoke_token_family" in
  begin OP (
  let@ _ := lock_barrier_scope_exclusive OP (scope_key "family" family_id "") in
  let@ _ := pg_record_barrier OP "family" None (Some family_id) None window in
  let@ removed := delete_each OP
    [rows_affected (delete_where access_tokens (fun _ r => tk_family_id r == Some family_id));
     rows_affected (delete_where refresh_tokens (fun _ r => rf_family_id r == family_id))] 0 in
  commit OP removed).

(** ** Consents *)
Definition pg_put_consent (record : ConsentRecord) : sql (result unit StorageError) :=
  let OP := "put_consent" in
  let$ payload := or_return (pg_encode OP record) in
  let$ _ := on_pool OP (upsert consents (cr_consent_id record) (fun _ => consent_row record payload)) in
  SRet (Ok tt).

(** [WHERE client_id = $1 AND subject = $2] and
    [ORDER BY granted_at_ns DESC, consent_id DESC] *)
Definition of_pair (client_id subject : string) (_ : string) (r : ConsentRow) : bool :=
  (cs_client_id r == client_id) && (cs_subject r == subject).
Definition newest (a b : string * ConsentRow) : bool :=
  (cs_granted_at_ns (snd a) >? cs_granted_at_ns (snd b))
  || ((cs_granted_at_ns (snd a) =? cs_granted_at_ns (snd b)) && text_le (fst b) (fst a)).

Definition pg_compare_and_swap_consent (expected : option ConsentRecord) (updated : ConsentRecord)
  : sql (result bool StorageError) :=
  let OP := "compare_and_swap_consent" in
  begin OP (
  let@ _ := lock_barrier_scope_exclusive OP
              (scope_key "consent_cas" (cr_client_id updated) (cr_subject updated)) in
  let@ live := exec OP (select_first_for_update consents
                 (of_pair (cr_client_id updated) (cr_subject updated)) newest) in
  let@ live_record := try (payload_of OP ((fun kr => cs_payload (snd kr)) <$> live)) in
  if match live_record, expected with
     | Some current, Some expected => current == expected
     | None, None => true
     | _, _ => false
     end
  then
    let@ payload := try (pg_encode OP updated) in
    let@ _ := exec OP (upsert consents (cr_consent_id updated)
                         (fun _ => consent_row updated payload)) in
    commit OP true
  else rollback OP false).

Definition pg_get_consent (consent_id : string) : sql (result (option ConsentRecord) StorageError) :=
  let OP := "get_consent" in
  let$ row := on_pool OP (select_pk consents consent_id) in
  SRet (payload_of OP (cs_payload <$> row)).

Definition pg_find_consent (client_id : ClientId) (subject : string)
  : sql (result (option ConsentRecord) StorageError) :=
  let OP := "find_consent" in
  let$ row := on_pool OP (select_first consents (of_pair client_id subject) newest) in
  SRet (payload_of OP ((fun kr => cs_payload (snd kr)) <$> row)).

Fixpoint decode_all (op : string) (rows : list (string * ConsentRow))
  : result (list ConsentRecord) StorageError :=
  match rows with
  | [] => Ok []
  | (_, row) :: rows =>
      let? x := pg_decode op (cs_payload row) in
      let? xs := decode_all op rows in
      Ok (x :: xs)
  end.

Definition pg_consents_for_subject (subject : string) : sql (result (list ConsentRecord) StorageError) :=
  let OP := "consents_for_subject" in
  let$ rows := on_pool OP (select_where consents (fun _ r => cs_subject r == subject)) in
  SRet (decode_all OP rows).

Definition pg_revoke_consent (consent_id : string) (window : RevocationWindow)
  : sql (result Z StorageError) :=
  let OP := "revoke_consent" in
  begin OP (
  let@ row := exec OP (delete_pk consents consent_id) in
  match row with
  | None => commit OP 0
  | Some row =>
      let client_id := cs_client_id row in
      let subject := cs_subject row in
      let@ _ := lock_barrier_scope_exclusive OP (scope_key "consent" client_id subject) in
      let@ _ := pg_record_barrier OP "consent" (Some client_id) None (Some subject) window in
      let@ removed := delete_each OP
        [rows_affected (delete_where access_tokens
           (fun _ r => (tk_client_id r == client_id) && (tk_subject r == Some subject)));
         rows_affected (delete_where refresh_tokens
           (fun _ r => (rf_client_id r == client_id) && (rf_subject r == Some subject)));
         rows_affected (delete_where authorization_codes
           (fun _ r => (co_client_id r == client_id) && (co_subject r == subject)));
         rows_affected (delete_where device_grants
           (fun _ r => (dv_client_id r == client_id) && (dv_approved_subject r == Some subject)))] 0 in
      commit OP removed
  end).

(** ** Replay ids *)
Definition pg_claim_replay_id (id : string) (expires_at : SystemTime) : sql (result bool StorageError) :=
  let OP := "claim_replay_id" in
  let$ inserted := on_pool OP (insert_or_nothing replay_ids id (to_nanos expires_at)) in
  SRet (Ok inserted).

(** ** The sweep *)
Definition sweep_statements (cutoff : Z) : list (Stmt Z) :=
  let limit := Z.to_nat SWEEP_BATCH_ROWS in
  [delete_batch device_grants (fun _ r => dv_expires_at_ns r <=? cutoff) limit;
   delete_batch authorization_codes (fun _ r => co_expires_at_ns r <=? cutoff) limit;
   delete_batch access_tokens (fun _ r => tk_expires_at_ns r <=? cutoff) limit;
   delete_batch refresh_tokens
     (fun _ r => is_some_and (rf_expires_at_ns r) (fun e => e <=? cutoff)) limit;
   delete_batch pushed_requests (fun _ r => pu_expires_at_ns r <=? cutoff) limit;
   delete_batch replay_ids (fun _ e => e <=? cutoff) limit;
   delete_batch revocation_barriers (fun _ r => br_expires_at_ns r <=? cutoff) limit].

(** [loop { batch; removed += batch; if batch < SWEEP_BATCH_ROWS { break } }] *)
Fixpoint sweep_loop (fuel : nat) (st : Stmt Z) (removed : Z)
    (k : Z -> sql (result Z StorageError)) : sql (result Z StorageError) :=
  match fuel with
  | O => SSpin
  | S fuel =>
      let$ batch := on_pool "sweep_expired" st in
      let removed := removed + batch in
      if batch <? SWEEP_BATCH_ROWS then k removed else sweep_loop fuel st removed k
  end.
Fixpoint sweep_tables (fuel : nat) (stmts : list (Stmt Z)) (removed : Z)
  : sql (result Z StorageError) :=
  match stmts with
  | [] => SRet (Ok removed)
  | st :: stmts => sweep_loop fuel st removed (fun removed => sweep_tables fuel stmts removed)
  end.
Definition pg_sweep_expired (fuel : nat) (now : SystemTime) : sql (result Z StorageError) :=
  sweep_tables fuel (sweep_statements (to_nanos now)) 0.

(** [impl Storage for PostgresStorage]; [fuel] bounds the turns of the sweep's loops. *)
Definition method (fuel : nat) {X} (op : StoreOp X) : sql (result X StorageError) :=
  match op with
  | GetClient c => pg_get_client c
  | PutClient c => pg_put_client c
  | CompareAndSwapClient e u => pg_compare_and_swap_client e u
  | DeleteClient c w => pg_delete_client c w
  | PutDeviceGrant d => pg_put_device_grant d
  | GetDeviceGrant d => pg_get_device_grant d
  | FindDeviceGrantByUserCode u => pg_find_device_grant_by_user_code u
  | TakeDeviceGrant d => pg_take_device_grant d
  | CompareAndSwapDeviceGrant e u => pg_compare_and_swap_device_grant e u
  | PutAuthorizationCode r => pg_put_authorization_code r
  | CompareAndSwapAuthorizationCode e u => pg_compare_and_swap_authorization_code e u
  | TakeAuthorizationCode c => pg_take_authorization_code c
  | PutPushedAuthorizationRequest r => pg_put_pushed_authorization_request r
  | TakePushedAuthorizationRequest u => pg_take_pushed_authorization_request u
  | PutToken t => pg_put_token t
  | GetToken t => pg_get_token t
  | DeleteToken t => pg_delete_token t
  | PutRefreshToken r => pg_put_refresh_token r
  | GetRefreshToken r => pg_get_refresh_token r
  | RotateRefreshToken e s a n => pg_rotate_refresh_token e s a n
  | TakeRefreshToken r => pg_take_refresh_token r
  | RevokeTokenFamily f w => pg_revoke_token_family f w
  | PutConsent c => pg_put_consent c
  | CompareAndSwapConsent e u => pg_compare_and_swap_consent e u
  | GetConsent c => pg_get_consent c
  | FindConsent c s => pg_find_consent c s
  | ConsentsForSubject s => pg_consents_for_subject s
  | RevokeConsent c w => pg_revoke_consent c w
  | ClaimReplayId i e => pg_claim_replay_id i e
  | SweepExpired n => pg_sweep_expired fuel n
  end.

(** ** naive.rs *)
Definition take_refresh_token_read_then_delete (refresh_token : string)
  : sql (result (option RefreshTokenRecord) StorageError) :=
  let OP := "naive take_refresh_token" in
  let$ row := on_pool OP (select_pk refresh_tokens refresh_token) in
  match row with
  | None => SRet (Ok None)
  | Some row =>
      let$ _ := on_pool OP (delete_pk refresh_tokens refresh_token) in
      SRet (match from_value (rf_payload row) with
            | Some record => Ok (Some record)
            | None => Err (payload_error OP)
            end)
  end.

Definition claim_replay_id_read_then_write (id : string) (expires_at : SystemTime)
  : sql (result bool StorageError) :=
  let OP := "naive claim_replay_id" in
  let$ seen := on_pool OP (select_pk replay_ids id) in
  if is_some seen then SRet (Ok false)
  else
    let$ _ := on_pool OP (insert_or_nothing replay_ids id (to_nanos expires_at)) in
    SRet (Ok true).

Definition compare_and_swap_device_grant_read_then_write (expected : DeviceGrantState)
    (updated : DeviceGrant) : sql (result bool StorageError) :=
  let OP := "naive compare_and_swap_device_grant" in
  let write :=
    let$ payload := or_return (ok_or (to_value updated) (encode_error OP)) in
    let$ _ := on_pool OP (upsert device_grants (dg_device_code updated)
                            (fun _ => device_row updated payload)) in
    SRet (Ok true) in
  let$ row := on_pool OP (select_pk device_grants (dg_device_code updated)) in
  match row with
  | None => write
  | Some row =>
      let$ current := or_return (ok_or (from_value (dv_payload row)) (payload_error OP)) in
      if dg_state current != expected then SRet (Ok false) else write
  end.

End methods.
End PostgresStorage.
