(* ===== verification/SqlFacts.v ===== *)
(** * What one statement does when nothing else runs

    Each shape of statement of [Sql], evaluated on a database no other transaction
    touches, as an equation on the map of its table; and the relation between two
    maps that agree row by row. *)
From S2P Require Import Prelude Time Types Store StoreFacts Sql Postgres.
Local Open Scope Z_scope.

(** ** Tables *)
Class GoodTable `{PgJson} {K R : Type} `{Countable K} (t : Table K R) := {
  rows_with : forall m d, t_rows t (t_with t m d) = m;
  with_with : forall m m' d, t_with t m (t_with t m' d) = t_with t m d;
  with_rows : forall d, t_with t (t_rows t d) d = d;
}.
Section good.
Context `{PgJson}.
#[global] Instance good_clients : GoodTable clients. Proof. by split; intros; destruct d. Qed.
#[global] Instance good_devices : GoodTable device_grants. Proof. by split; intros; destruct d. Qed.
#[global] Instance good_codes : GoodTable authorization_codes.
Proof. by split; intros; destruct d. Qed.
#[global] Instance good_tokens : GoodTable access_tokens. Proof. by split; intros; destruct d. Qed.
#[global] Instance good_refresh : GoodTable refresh_tokens. Proof. by split; intros; destruct d. Qed.
#[global] Instance good_pushed : GoodTable pushed_requests. Proof. by split; intros; destruct d. Qed.
#[global] Instance good_consents : GoodTable consents. Proof. by split; intros; destruct d. Qed.
#[global] Instance good_replay : GoodTable replay_ids. Proof. by split; intros; destruct d. Qed.
#[global] Instance good_barriers : GoodTable revocation_barriers.
Proof. by split; intros; destruct d. Qed.
End good.

(** ** Removing rows *)
Section removal.
Context {K R : Type} `{Countable K}.

(** The rows a condition spares. *)
Definition spare (p : K -> R -> bool) (m : gmap K R) : gmap K R :=
  filter (fun kr => p (fst kr) (snd kr) = false) m.

Lemma lookup_spare p (m : gmap K R) k :
  spare p m !! k = m !! k ≫= (fun r => if p k r then None else Some r).
Proof.
  unfold spare. destruct (m !! k) as [r|] eqn:Hk; cbn.
  - destruct (p k r) eqn:Hp.
    + apply map_lookup_filter_None. right. intros r' Hr'. cbn. congruence.
    + by apply map_lookup_filter_Some.
  - apply map_lookup_filter_None. by left.
Qed.

Lemma fold_delete_lookup (ks : list K) : forall (m : gmap K R) k,
  foldl (fun m k => delete k m) m ks !! k = if decide (k ∈ ks) then None else m !! k.
Proof.
  induction ks as [|k' ks IH]; intros m k; cbn.
  - by rewrite decide_False by set_solver.
  - rewrite IH. destruct (decide (k ∈ ks)).
    + by rewrite decide_True by set_solver.
    + destruct (decide (k = k')) as [->|].
      * rewrite decide_True by set_solver. apply lookup_delete_eq.
      * rewrite decide_False by set_solver. by apply lookup_delete_ne.
Qed.

Lemma size_delete_in (m : gmap K R) k r :
  m !! k = Some r -> size m = S (size (delete k m)).
Proof.
  intros Hk. rewrite <- (insert_delete_id m k r Hk) at 1.
  apply map_size_insert_None, lookup_delete_eq.
Qed.

Lemma size_fold_delete (rows : list (K * R)) : forall m : gmap K R,
  NoDup rows.*1 -> (forall k r, (k, r) ∈ rows -> m !! k = Some r) ->
  size m = (List.length rows + size (foldl (fun m k => delete k m) m rows.*1))%nat.
Proof.
  induction rows as [|[k r] rows IH]; intros m Hnd Hin; cbn; [done|].
  apply NoDup_cons in Hnd as [Hk Hnd].
  rewrite (size_delete_in m k r) by (apply Hin; set_solver).
  rewrite (IH (delete k m)); [lia|done|].
  intros k' r' Hk'. rewrite lookup_delete_ne; [apply Hin; set_solver|].
  intros <-. apply Hk. apply list_elem_of_fmap. by exists (k, r').
Qed.
End removal.

Section alone.
Context `{PgJson, PgOrder} {K R : Type} `{Countable K} (t : Table K R) `{!GoodTable t}.

Lemma elem_of_scan (m : gmap K R) k r : (k, r) ∈ scan m <-> m !! k = Some r.
Proof. by rewrite scan_perm, elem_of_map_to_list. Qed.
Lemma NoDup_scan (m : gmap K R) : NoDup (scan m).*1.
Proof. rewrite scan_perm. apply NoDup_fst_map_to_list. Qed.
Lemma length_scan (m : gmap K R) : List.length (scan m) = size m.
Proof. by rewrite (Permutation_length (scan_perm K R m)), length_map_to_list. Qed.

Lemma recheck_still d p k r : t_rows t d !! k = Some r -> p k r = true ->
  recheck t (still d) p k = Some r.
Proof. intros Hk Hp. unfold recheck; cbn. by rewrite Hk, Hp. Qed.

Lemma reached_still d p rows : (forall k r, (k, r) ∈ rows -> t_rows t d !! k = Some r) ->
  reached t (still d) p rows = List.filter (fun '(k, r) => p k r) rows.
Proof.
  unfold reached. induction rows as [|[k r] rows IH]; intros Hin; [done|]. csimpl.
  rewrite IH by (intros; apply Hin; set_solver).
  destruct (p k r) eqn:Hp; [|done].
  by rewrite (recheck_still d p k r) by (done || apply Hin; set_solver).
Qed.

Lemma apply_removes (rows : list (K * R)) : forall d,
  apply_writes (map (fun '(k, _) => Remove t k) rows) d =
    t_with t (foldl (fun m k => delete k m) (t_rows t d) rows.*1) d.
Proof.
  induction rows as [|[k r] rows IH]; intros d; cbn; [by rewrite with_rows|].
  by rewrite IH, rows_with, with_with.
Qed.

(** [rows] are rows of the table, each once, all satisfying [p]; when they are all
    of them, removing them leaves what [p] spares. *)
Lemma remove_matching d p (rows : list (K * R)) :
  (forall k r, (k, r) ∈ rows <-> t_rows t d !! k = Some r /\ p k r = true) ->
  foldl (fun m k => delete k m) (t_rows t d) rows.*1 = spare p (t_rows t d).
Proof.
  intros Hrows. apply map_eq. intros k. rewrite fold_delete_lookup, lookup_spare.
  destruct (t_rows t d !! k) as [r|] eqn:Hk; cbn.
  - destruct (p k r) eqn:Hp.
    + apply decide_True. apply list_elem_of_fmap. exists (k, r). by rewrite Hrows.
    + apply decide_False. intros ([k' r'] & -> & Hin)%list_elem_of_fmap.
      apply Hrows in Hin as [Hk' Hp']. cbn in *. congruence.
  - by destruct (decide _).
Qed.

Lemma filter_elem {A} (q : A -> bool) (l : list A) x :
  x ∈ List.filter q l <-> x ∈ l /\ q x = true.
Proof. by rewrite !list_elem_of_In, filter_In. Qed.

Lemma NoDup_filter_fst (q : K * R -> bool) (rows : list (K * R)) :
  NoDup rows.*1 -> NoDup (List.filter q rows).*1.
Proof.
  induction rows as [|x rows IH]; intros Hnd; [done|]. csimpl in *.
  apply NoDup_cons in Hnd as [Hx Hnd]. destruct (q x); csimpl; [|by apply IH].
  apply NoDup_cons. split; [|by apply IH].
  intros (y & Hxy & Hy)%list_elem_of_fmap. apply filter_elem in Hy as [Hy _].
  apply Hx, list_elem_of_fmap. by exists y.
Qed.

Definition matching (p : K -> R -> bool) (m : gmap K R) : list (K * R) :=
  List.filter (fun '(k, r) => p k r) (scan m).

Lemma elem_of_matching p m k r : (k, r) ∈ matching p m <-> m !! k = Some r /\ p k r = true.
Proof. unfold matching. by rewrite filter_elem, elem_of_scan. Qed.

Lemma NoDup_matching p m : NoDup (matching p m).*1.
Proof. apply NoDup_filter_fst, NoDup_scan. Qed.

Lemma size_matching p (m : gmap K R) : (size m = List.length (matching p m) + size (spare p m))%nat.
Proof.
  rewrite (size_fold_delete (matching p m) m); [|apply NoDup_matching|].
  - do 2 f_equal. apply map_eq. intros k. rewrite fold_delete_lookup, lookup_spare.
    destruct (m !! k) as [r|] eqn:Hk; cbn; [|by destruct (decide _)].
    destruct (p k r) eqn:Hp.
    + apply decide_True, list_elem_of_fmap. exists (k, r). by rewrite elem_of_matching.
    + apply decide_False. intros ([k' r'] & -> & Hin)%list_elem_of_fmap.
      apply elem_of_matching in Hin as [Hk' Hp']. cbn in *. congruence.
  - by intros k r [? _]%elem_of_matching.
Qed.

Lemma delete_where_alone p d :
  delete_where t p (still d) =
    Ok (matching p (t_rows t d), map (fun '(k, _) => Remove t k) (matching p (t_rows t d))) /\
  apply_writes (map (fun '(k, _) => Remove t k) (matching p (t_rows t d))) d =
    t_with t (spare p (t_rows t d)) d.
Proof.
  split.
  - unfold delete_where. cbn [still sn_then].
    rewrite reached_still; [done|]. intros k r. by rewrite elem_of_scan.
  - rewrite apply_removes. f_equal. apply remove_matching. intros. by rewrite elem_of_matching.
Qed.

Lemma delete_pk_alone k d :
  exists ws, delete_pk t k (still d) = Ok (t_rows t d !! k, ws) /\
             apply_writes ws d = t_with t (delete k (t_rows t d)) d.
Proof.
  unfold delete_pk, recheck. cbn. destruct (t_rows t d !! k) as [r|] eqn:Hk; cbn.
  - eexists. split; [done|]. done.
  - eexists. split; [done|]. cbn. by rewrite delete_id, with_rows by done.
Qed.

Lemma select_pk_for_update_alone k d :
  exists ws, select_pk_for_update t k (still d) = Ok (t_rows t d !! k, ws) /\ apply_writes ws d = d.
Proof.
  unfold select_pk_for_update, recheck. cbn. destruct (t_rows t d !! k) as [r|] eqn:Hk; cbn; eauto.
Qed.

Lemma update_pk_alone k p r d :
  update_pk t k p r (still d) =
    match t_rows t d !! k with
    | Some old =>
        if p old then
          match t_constraint t k r (t_rows t d) with
          | Some e => Err e
          | None => Ok (1, [Upsert t k r])
          end
        else Ok (0, [])
    | None => Ok (0, [])
    end.
Proof.
  unfold update_pk, recheck. cbn. destruct (t_rows t d !! k) as [old|]; [|done].
  destruct (p old) eqn:Hp; cbn; by rewrite ?Hp.
Qed.

(** A batch is the first [limit] rows that match. *)
Lemma delete_batch_alone p limit d :
  delete_batch t p limit (still d) =
    let rows := firstn limit (matching p (t_rows t d)) in
    Ok (Z.of_nat (List.length rows), map (fun '(k, _) => Remove t k) rows).
Proof.
  unfold delete_batch. cbn.
  assert (Hall : forall l : list (K * R), List.filter (fun '(_, _) => true) l = l).
  { induction l as [|[] l IH]; csimpl; [done|by rewrite IH]. }
  rewrite Hall, reached_still; [done|]. intros k r. by rewrite elem_of_scan.
Qed.

(** What is left to match once some matching rows are gone. *)
Lemma matching_after p (m : gmap K R) limit :
  let m' := foldl (fun m k => delete k m) m (firstn limit (matching p m)).*1 in
  spare p m' = spare p m /\
  List.length (matching p m') = (List.length (matching p m) - limit)%nat.
Proof.
  cbn zeta. set (rows := firstn limit (matching p m)).
  assert (Hsub : forall k r, (k, r) ∈ rows -> m !! k = Some r /\ p k r = true).
  { intros k r Hin. apply elem_of_matching.
    rewrite <- (firstn_skipn limit (matching p m)). apply elem_of_app. by left. }
  assert (Hsp : spare p (foldl (fun m k => delete k m) m rows.*1) = spare p m).
  { apply map_eq. intros k. rewrite !lookup_spare, fold_delete_lookup.
    destruct (decide (k ∈ rows.*1)) as [Hin|]; [|done]. cbn.
    apply list_elem_of_fmap in Hin as ([k' r'] & -> & [Hk Hp]%Hsub). cbn. rewrite Hk. cbn.
    by rewrite Hp. }
  split; [done|].
  assert (Hnd : NoDup rows.*1).
  { pose proof (NoDup_matching p m) as Hnd.
    rewrite <- (firstn_skipn limit (matching p m)), fmap_app in Hnd.
    by apply NoDup_app in Hnd as (Hnd & _ & _). }
  pose proof (size_fold_delete rows m Hnd (fun k r Hin => proj1 (Hsub k r Hin))) as Hs.
  pose proof (size_matching p m) as Hm1.
  pose proof (size_matching p (foldl (fun m k => delete k m) m rows.*1)) as Hm2.
  rewrite Hsp in Hm2. unfold rows in Hs at 1. rewrite length_firstn in Hs. lia.
Qed.
End alone.

(** ** Two maps that agree row by row *)
Section rel.
Context {V W : Type} (S : V -> W -> Prop).
Definition trel {K} `{Countable K} (m : gmap K V) (n : gmap K W) : Prop :=
  forall k, option_Forall2 S (m !! k) (n !! k).
End rel.

Section trel.
Context {K V W : Type} `{Countable K} (S : V -> W -> Prop).
Implicit Types (m : gmap K V) (n : gmap K W).

Lemma trel_insert m n k v w : trel S m n -> S v w -> trel S (<[k := v]> m) (<[k := w]> n).
Proof.
  intros Hm Hv k'. destruct (decide (k = k')) as [->|].
  - rewrite !lookup_insert_eq. by constructor.
  - by rewrite !lookup_insert_ne.
Qed.
Lemma trel_delete m n k : trel S m n -> trel S (delete k m) (delete k n).
Proof.
  intros Hm k'. destruct (decide (k = k')) as [->|].
  - rewrite !lookup_delete_eq. constructor.
  - by rewrite !lookup_delete_ne.
Qed.
Lemma trel_Some_l m n k v : trel S m n -> m !! k = Some v -> exists w, n !! k = Some w /\ S v w.
Proof. intros Hm Hk. specialize (Hm k). rewrite Hk in Hm. inversion Hm; eauto. Qed.
Lemma trel_Some_r m n k w : trel S m n -> n !! k = Some w -> exists v, m !! k = Some v /\ S v w.
Proof. intros Hm Hk. specialize (Hm k). rewrite Hk in Hm. inversion Hm; eauto. Qed.
Lemma trel_None m n k : trel S m n -> m !! k = None <-> n !! k = None.
Proof. intros Hm. specialize (Hm k). inversion Hm; naive_solver. Qed.

(** Sparing rows on one side and retaining records on the other. *)
Lemma trel_spare p q m n :
  trel S m n -> (forall k v w, m !! k = Some v -> S v w -> p k v = negb (q w)) ->
  trel S (spare p m) (filter (fun kw => q (snd kw) = true) n).
Proof.
  intros Hm Hpq k. rewrite lookup_spare.
  pose proof (Hm k) as Hk. destruct (m !! k) as [v|] eqn:Hv; cbn.
  - inversion Hk as [? w Hs Hv' Hw|]; subst. rewrite (Hpq k v w) by done.
    destruct (q w) eqn:Hq; cbn.
    + rewrite (proj2 (map_lookup_filter_Some _ n k w)); [by constructor|]. by rewrite <- Hw.
    + rewrite (proj2 (map_lookup_filter_None _ n k)); [constructor|].
      right. intros w' Hw'. cbn. congruence.
  - inversion Hk as [|Hn Hw]. rewrite (proj2 (map_lookup_filter_None _ n k)); [constructor|by left].
Qed.

Lemma trel_size m n : trel S m n -> size m = size n.
Proof.
  revert n. induction m as [|k v m Hk IH] using map_ind; intros n Hm.
  - assert (n = ∅) as ->; [|by rewrite !map_size_empty]. apply map_empty. intros k.
    specialize (Hm k). rewrite lookup_empty in Hm. by inversion Hm.
  - destruct (trel_Some_l _ _ k v Hm) as (w & Hw & _); [apply lookup_insert_eq|].
    rewrite map_size_insert_None by done. rewrite (size_delete_in n k w Hw).
    f_equal. apply IH. intros k'. destruct (decide (k = k')) as [->|].
    + rewrite Hk, lookup_delete_eq. constructor.
    + rewrite lookup_delete_ne by done. specialize (Hm k'). by rewrite lookup_insert_ne in Hm.
Qed.
End trel.

(** ** The writes of a statement *)
Section writes.
Context `{PgJson, PgOrder}.
Implicit Types (W : Write -> Prop).

(** Every write the statement can make satisfies [W], whatever it finds. *)
Definition stmt_writes {X} W (st : Stmt X) : Prop := forall s x ws, st s = Ok (x, ws) -> Forall W ws.

Lemma writes_silent {X} W (st : Stmt X) : (forall s x ws, st s = Ok (x, ws) -> ws = []) -> stmt_writes W st.
Proof. intros Hst s x ws Hok. by rewrite (Hst s x ws Hok). Qed.

Context {K R : Type} `{Countable K} (t : Table K R).
Lemma writes_select W k : stmt_writes W (select_pk t k).
Proof. apply writes_silent. by intros s x ws [= _ <-]. Qed.
Lemma writes_select_where W p : stmt_writes W (select_where t p).
Proof. apply writes_silent. by intros s x ws [= _ <-]. Qed.
Lemma writes_select_first W p le : stmt_writes W (select_first t p le).
Proof. apply writes_silent. by intros s x ws [= _ <-]. Qed.
Lemma writes_delete_pk W k : W (Remove t k) -> stmt_writes W (delete_pk t k).
Proof. intros Hw s x ws. unfold delete_pk. case_match; intros [= _ <-]; auto. Qed.
Lemma writes_removes W (rows : list (K * R)) : (forall k, W (Remove t k)) ->
  Forall W (map (fun '(k, _) => Remove t k) rows).
Proof. intros Hw. apply Forall_forall. intros w ([k r] & -> & _)%list_elem_of_fmap. apply Hw. Qed.
Lemma writes_delete_batch W p n : (forall k, W (Remove t k)) -> stmt_writes W (delete_batch t p n).
Proof. intros Hw s x ws [= _ <-]. by apply writes_removes. Qed.
Lemma writes_delete_where W p : (forall k, W (Remove t k)) -> stmt_writes W (delete_where t p).
Proof. intros Hw s x ws [= _ <-]. by apply writes_removes. Qed.
Lemma writes_rows_affected W (st : Stmt (list (K * R))) : stmt_writes W st ->
  stmt_writes W (PostgresStorage.rows_affected st).
Proof.
  intros Hst s x ws. unfold PostgresStorage.rows_affected.
  destruct (st s) as [[rows ws0]|] eqn:Hok; [|done]. intros [= _ <-]. by eapply Hst.
Qed.
Lemma writes_update W k p r : W (Upsert t k r) -> stmt_writes W (update_pk t k p r).
Proof. intros Hw s x ws. unfold update_pk. repeat case_match; intros [= _ <-]; auto. Qed.
Lemma writes_upsert W k f : (forall o, W (Upsert t k (f o))) -> stmt_writes W (upsert t k f).
Proof. intros Hw s x ws. unfold upsert. case_match; intros [= _ <-]; auto. Qed.
Lemma writes_insert W k r : W (Upsert t k r) -> stmt_writes W (insert_or_nothing t k r).
Proof. intros Hw s x ws. unfold insert_or_nothing. repeat case_match; intros [= _ <-]; auto. Qed.
Lemma writes_first_for_update W p le : (forall k, W (Hold t k)) -> stmt_writes W (select_first_for_update t p le).
Proof.
  intros Hw s x ws. unfold select_first_for_update. repeat case_match; intros [= _ <-]; auto.
Qed.
Lemma writes_pk_for_update W k : W (Hold t k) -> stmt_writes W (select_pk_for_update t k).
Proof. intros Hw s x ws. unfold select_pk_for_update. case_match; intros [= _ <-]; auto. Qed.
End writes.
