(* ===== verification/PgRep.v ===== *)
(** * Rows that represent records

    [represents d g]: the rows of the database [d] are the records of the in-memory
    store [g], column by column and payload by payload.  Here are the relation, the
    equations that run a method of [PostgresStorage] alone, one statement at a time,
    and the barriers: what [barrier_covers] asks and what [record_barrier] writes.

    What a column is given must survive it: an instant within the [BIGINT] of
    nanoseconds, a record jsonb gives back as it was. *)
From S2P Require Import Prelude Time Codec Types Store StoreFacts Sql Postgres SqlFacts.
Local Open Scope Z_scope.

(** ** Instants in a [BIGINT] *)
Definition in_range (t : SystemTime) : Prop := I64_MIN <= t <= I64_MAX.

Lemma to_nanos_clamp t : to_nanos t = Z.max I64_MIN (Z.min t I64_MAX).
Proof.
  unfold to_nanos, duration_since, i64_try_from, UNIX_EPOCH, I64_MIN, I64_MAX.
  destruct (Z.leb_spec 0 t).
  - destruct (Z.leb_spec (- 2 ^ 63) (t - 0)); destruct (Z.leb_spec (t - 0) (2 ^ 63 - 1));
      cbn [andb unwrap_or]; lia.
  - destruct (Z.leb_spec (- 2 ^ 63) (0 - t)); destruct (Z.leb_spec (0 - t) (2 ^ 63 - 1));
      cbn [andb unwrap_or fmap option_fmap option_map]; lia.
Qed.

Lemma to_nanos_exact t : in_range t -> to_nanos t = t.
Proof. unfold in_range. rewrite to_nanos_clamp. lia. Qed.

Lemma to_nanos_range t : in_range (to_nanos t).
Proof. unfold in_range. rewrite to_nanos_clamp. unfold I64_MIN, I64_MAX. lia. Qed.

(** The column never leaves [i64], keeps the order of instants, holds every instant of
    its range exactly, and [from_nanos] reads those back. *)
Theorem nanos_column t u :
  in_range (to_nanos t) /\
  (t <= u -> to_nanos t <= to_nanos u) /\
  (in_range t -> from_nanos (to_nanos t) = t).
Proof.
  split_and!; [apply to_nanos_range|rewrite !to_nanos_clamp; lia|].
  intros Ht. rewrite to_nanos_exact by done. unfold from_nanos, UNIX_EPOCH.
  destruct (Z.geb_spec t 0); lia.
Qed.

(** ** Records in a [jsonb] column *)
Section survive.
Context `{PgJson} {T : Type} `{!Jsonb T}.
(** [v] is what [x] is stored as: it, and whatever compares equal to it, decodes to
    [x]. *)
Definition keeps (x : T) (v : jsonb) : Prop :=
  to_value x = Some v /\ forall w, jsonb_eqb v w = true -> from_value w = Some x.
Definition storable (x : T) : Prop := exists v, keeps x v.

Lemma encode_keeps op (x : T) v : keeps x v -> PostgresStorage.pg_encode op x = Ok v.
Proof. intros [Hv _]. unfold PostgresStorage.pg_encode. by rewrite Hv. Qed.
End survive.

(** What the code relies on: equality of jsonb is reflexive, and the derived
    serialization of the two records with a state has it under the key ["state"]. *)
Class PgLaws `{PgRecords} : Prop := {
  jsonb_refl : forall v, jsonb_eqb v v = true;
  grant_state_field : forall (g : DeviceGrant) v,
    to_value g = Some v -> json_arrow v "state" = to_value (dg_state g);
  code_state_field : forall (c : AuthorizationCodeRecord) v,
    to_value c = Some v -> json_arrow v "state" = to_value (ac_state c);
}.

(** ** A program alone *)
Section alone.
Context `{PgJson}.
Definition no_fault : nat -> option SqlxError := fun _ => None.
Definition alone {A} (p : sql A) (d : Db) : option (A * Db) := run_sql no_fault 0 p d.
Definition in_txn {A} (p : txn A) (start seen : Db) : A * Db := run_txn no_fault 0 p start seen false.

Lemma run_txn_any {A} (p : txn A) : forall n n' start seen b,
  run_txn no_fault n p start seen b = run_txn no_fault n' p start seen b.
Proof.
  induction p as [a|X st k IH|mode keys k IH|k|k]; intros n n' start seen b; cbn; try done.
  - destruct b; [apply IH|]. unfold run_stmt; cbn.
    destruct (st (still seen)) as [[x ws]|e]; apply IH.
  - destruct b; apply IH.
Qed.
Lemma run_sql_any {A} (p : sql A) : forall n n' d, run_sql no_fault n p d = run_sql no_fault n' p d.
Proof.
  induction p as [a|X st k IH|f body|]; intros n n' d; cbn; try done.
  - unfold run_stmt; cbn. destruct (st (still d)) as [[x ws]|e]; apply IH.
  - f_equal. apply run_txn_any.
Qed.

Lemma alone_pool {X A} op (st : Stmt X) (k : X -> sql (result A StorageError)) d x ws :
  st (still d) = Ok (x, ws) -> alone (on_pool op st k) d = alone (k x) (apply_writes ws d).
Proof. intros Hst. unfold alone, on_pool. cbn. rewrite Hst. apply run_sql_any. Qed.
Lemma alone_begin {A} op (body : txn (result A StorageError)) d :
  alone (begin op body) d = Some (in_txn body d d).
Proof. unfold alone; cbn. f_equal. apply run_txn_any. Qed.
Lemma in_txn_exec {X A} op (st : Stmt X) (k : X -> txn (result A StorageError)) start seen x ws :
  st (still seen) = Ok (x, ws) ->
  in_txn (exec op st A k) start seen = in_txn (k x) start (apply_writes ws seen).
Proof. intros Hst. unfold in_txn, exec. cbn. unfold run_stmt; cbn. rewrite Hst. apply run_txn_any. Qed.
Lemma in_txn_exec_err {X A} op (st : Stmt X) (k : X -> txn (result A StorageError)) start seen e :
  st (still seen) = Err e -> in_txn (exec op st A k) start seen = (Err (db op e), start).
Proof. intros Hst. unfold in_txn, exec. cbn. unfold run_stmt; cbn. by rewrite Hst. Qed.
Lemma in_txn_shared `{!PgRecords, !PgOrder} {A} op c f s
    (k : unit -> txn (result A StorageError)) start seen :
  in_txn (PostgresStorage.lock_barrier_scopes op c f s A k) start seen = in_txn (k tt) start seen.
Proof. unfold in_txn, PostgresStorage.lock_barrier_scopes. cbn. apply run_txn_any. Qed.
Lemma in_txn_exclusive `{!PgRecords, !PgOrder} {A} op key
    (k : unit -> txn (result A StorageError)) start seen :
  in_txn (PostgresStorage.lock_barrier_scope_exclusive op key A k) start seen
    = in_txn (k tt) start seen.
Proof. unfold in_txn, PostgresStorage.lock_barrier_scope_exclusive. cbn. apply run_txn_any. Qed.
Lemma in_txn_commit {A} op (a : A) start seen : in_txn (commit op a) start seen = (Ok a, seen).
Proof. done. Qed.
Lemma in_txn_rollback {A} op (a : A) start seen : in_txn (rollback op a) start seen = (Ok a, start).
Proof. done. Qed.

Lemma in_txn_delete_each_nil `{!PgRecords, !PgOrder} {A} op n
    (k : Z -> txn (result A StorageError)) start seen :
  in_txn (PostgresStorage.delete_each op [] n A k) start seen = in_txn (k n) start seen.
Proof. done. Qed.

Lemma in_txn_delete_each_cons `{!PgRecords, !PgOrder} {K R A} `{Countable K} op
    (t : Table K R) `{!GoodTable t} p stmts n (k : Z -> txn (result A StorageError)) start seen :
  in_txn (PostgresStorage.delete_each op
            (PostgresStorage.rows_affected (delete_where t p) :: stmts) n A k) start seen =
  in_txn (PostgresStorage.delete_each op stmts
            (n + (Z.of_nat (size (t_rows t seen)) - Z.of_nat (size (spare p (t_rows t seen))))) A k)
    start (t_with t (spare p (t_rows t seen)) seen).
Proof.
  destruct (delete_where_alone t p seen) as [Hst Hws]. cbn [PostgresStorage.delete_each].
  erewrite in_txn_exec by (unfold PostgresStorage.rows_affected; by rewrite Hst).
  rewrite Hws. repeat f_equal. unfold PostgresStorage.affected.
  rewrite (size_matching p (t_rows t seen)). lia.
Qed.

Lemma in_txn_delete {K R A} `{PgOrder, Countable K} op (t : Table K R) `{!GoodTable t} p
    (k : list (K * R) -> txn (result A StorageError)) start seen :
  in_txn (exec op (delete_where t p) A k) start seen =
  in_txn (k (matching p (t_rows t seen))) start (t_with t (spare p (t_rows t seen)) seen).
Proof.
  destruct (delete_where_alone t p seen) as [Hst Hws].
  by rewrite (in_txn_exec _ _ _ _ _ _ _ Hst), Hws.
Qed.
End alone.

(** ** The representation *)
Section represents.
Context `{PgRecords, PgOrder, !PgLaws}.

Definition client_stored (r : ClientRow) (c : Client) : Prop := keeps c (cl_payload r).
Definition device_stored (r : DeviceRow) (g : DeviceGrant) : Prop :=
  r = device_row g (dv_payload r) /\ keeps g (dv_payload r) /\ storable (dg_state g)
  /\ in_range (dg_expires_at g).
Definition code_stored (r : CodeRow) (c : AuthorizationCodeRecord) : Prop :=
  r = code_row c (co_payload r) /\ keeps c (co_payload r) /\ storable (ac_state c)
  /\ in_range (ac_expires_at c).
Definition token_stored (r : TokenRow) (t : IssuedToken) : Prop :=
  r = token_row t (tk_payload r) /\ keeps t (tk_payload r) /\ in_range (it_expires_at t).
Definition refresh_stored (r : RefreshRow) (t : RefreshTokenRecord) : Prop :=
  r = refresh_row t (rf_payload r) /\ keeps t (rf_payload r)
  /\ (forall e, rt_expires_at t = Some e -> in_range e).
Definition pushed_stored (r : PushedRow) (p : PushedAuthorizationRequest) : Prop :=
  r = pushed_row p (pu_payload r) /\ keeps p (pu_payload r) /\ in_range (par_expires_at p).
Definition consent_stored (r : ConsentRow) (c : ConsentRecord) : Prop :=
  r = consent_row c (cs_payload r) /\ keeps c (cs_payload r) /\ in_range (cr_granted_at c).

(** The row a barrier is recorded in. *)
Definition barrier_key (b : RevocationBarrier) : BarrierKey :=
  match b with
  | BClient c => Build_BarrierKey "client" c "" ""
  | BTokenFamily f => Build_BarrierKey "family" "" f ""
  | BConsent c s => Build_BarrierKey "consent" c "" s
  end.
Definition barrier_row (t : BarrierTimes) : BarrierRow :=
  {| br_expires_at_ns := bt_until t; br_recorded_at_ns := bt_recorded_at t |}.

Record represents (d : Db) (g : MemoryInner) : Prop := {
  rep_clients : trel client_stored (oauth_as_clients d) (mi_clients g);
  rep_devices : trel device_stored (oauth_as_device_grants d) (mi_device_by_code g);
  rep_codes : trel code_stored (oauth_as_authorization_codes d) (mi_codes g);
  rep_tokens : trel token_stored (oauth_as_access_tokens d) (mi_tokens g);
  rep_refresh : trel refresh_stored (oauth_as_refresh_tokens d) (mi_refresh g);
  rep_pushed : trel pushed_stored (oauth_as_pushed_requests d) (mi_pushed g);
  rep_consents : trel consent_stored (oauth_as_consents d) (mi_consents g);
  rep_replay : oauth_as_replay_ids d = mi_replay_ids g;
  rep_barriers : forall b,
    oauth_as_revocation_barriers d !! barrier_key b = barrier_row <$> barrier_at g b;
  rep_barrier_keys : forall k r, oauth_as_revocation_barriers d !! k = Some r ->
    barrier_check k = true /\ exists b, k = barrier_key b;
}.

Lemma barrier_key_inj b b' : barrier_key b = barrier_key b' -> b = b'.
Proof. destruct b, b'; cbn; congruence. Qed.

Lemma represents_empty : represents db_empty mi_empty.
Proof.
  split; cbn; try (by intros k; rewrite !lookup_empty; constructor); try done.
  intros [c|f|c s]; cbn; by rewrite !lookup_empty.
Qed.

Lemma barrier_named d g b t :
  represents d g -> barrier_at g b = Some t -> barrier_check (barrier_key b) = true.
Proof.
  intros Hr Hb. apply (rep_barrier_keys _ _ Hr _ (barrier_row t)).
  by rewrite (rep_barriers _ _ Hr), Hb.
Qed.

(** The three clauses of [barrier_covers], one per kind of barrier. *)
Lemma covers_key cl c f s t b r :
  PostgresStorage.pg_covers cl c f s t (barrier_key b) r =
    match b with
    | BClient c' => (c' == c) && ((br_recorded_at_ns r >=? t) || is_none (cl !! c))
    | BTokenFamily f' => f' == f
    | BConsent c' s' => (c' == c) && (s' == s) && (br_recorded_at_ns r >=? t)
    end.
Proof.
  destruct b; unfold PostgresStorage.pg_covers; cbn [barrier_key bk_scope bk_client_id bk_family_id
    bk_subject]; repeat (rewrite bool_decide_true by done); repeat (rewrite bool_decide_false by done);
    cbn [andb orb]; by rewrite ?orb_false_r.
Qed.

(** [barrier_covers] asks what [is_revoked] asks. *)
Lemma exists_covering_revoked d g c f s t :
  represents d g -> in_range t ->
  PostgresStorage.exists_covering c (unwrap_or f "") (unwrap_or s "") (to_nanos t) (still d) =
    Ok (is_revoked g c f s t, []).
Proof.
  intros Hr Ht. unfold PostgresStorage.exists_covering. cbn. rewrite to_nanos_exact by done.
  do 2 f_equal. apply Bool.eq_iff_eq_true.
  rewrite is_revoked_spec, existsb_exists.
  setoid_rewrite <- list_elem_of_In.
  assert (Hcl : is_none (oauth_as_clients d !! c) = true <-> mi_clients g !! c = None).
  { rewrite <- (trel_None _ _ _ c (rep_clients _ _ Hr)). unfold is_none.
    destruct (oauth_as_clients d !! c); cbn; naive_solver. }
  split.
  - intros ([k b] & Hin & Hcov). apply elem_of_map_to_list in Hin.
    destruct (rep_barrier_keys _ _ Hr k b Hin) as [Hck [br ->]].
    rewrite (rep_barriers _ _ Hr br) in Hin.
    destruct (barrier_at g br) as [bt|] eqn:Hbt; cbn in Hin; [|done]. simplify_eq.
    rewrite covers_key in Hcov. destruct br as [c'|f'|c' s']; cbn [barrier_row br_recorded_at_ns] in Hcov.
    + left. rewrite andb_true_iff, orb_true_iff, Hcl in Hcov. destruct Hcov as [Heq Hor].
      bools. subst. exists bt. split; [done|]. destruct Hor; bools; auto.
    + right; right. bools. subst f'. destruct f as [f0|]; cbn in Hck; [|done]. exists f0. split; [done|].
      cbn [unwrap_or] in Hbt. by rewrite Hbt.
    + right; left. bools. subst. destruct s as [s0|]; [|by destruct c; vm_compute in Hck].
      exists s0, bt. split_and!; [done|done|lia].
  - intros [(bt & Hbt & Hor)|[(s0 & bt & -> & Hbt & Hle)|(f0 & -> & [bt Hbt])]].
    + exists (barrier_key (BClient c), barrier_row bt). split.
      { apply elem_of_map_to_list. by rewrite (rep_barriers _ _ Hr), Hbt. }
      rewrite covers_key, bool_decide_true by done. apply orb_true_iff. destruct Hor; [left|right; by apply Hcl].
      rewrite Z.geb_leb. by apply Z.leb_le.
    + exists (barrier_key (BConsent c s0), barrier_row bt). split.
      { apply elem_of_map_to_list. by rewrite (rep_barriers _ _ Hr), Hbt. }
      rewrite covers_key. cbn [unwrap_or]. rewrite !bool_decide_true by done. cbn.
      rewrite Z.geb_leb. by apply Z.leb_le.
    + exists (barrier_key (BTokenFamily f0), barrier_row bt). split.
      { apply elem_of_map_to_list. by rewrite (rep_barriers _ _ Hr), Hbt. }
      rewrite covers_key. cbn. by rewrite bool_decide_true by done.
Qed.

(** Recording a barrier: the upsert of [record_barrier]. *)
Lemma record_barrier_represents d g b w :
  represents d g -> in_range (rw_recorded_at w) -> in_range (rw_until w) ->
  barrier_check (barrier_key b) = true ->
  represents
    (t_with revocation_barriers
       (<[barrier_key b := match oauth_as_revocation_barriers d !! barrier_key b with
                           | None => {| br_expires_at_ns := to_nanos (rw_until w);
                                        br_recorded_at_ns := to_nanos (rw_recorded_at w) |}
                           | Some r =>
                               {| br_expires_at_ns := Z.max (br_expires_at_ns r) (to_nanos (rw_until w));
                                  br_recorded_at_ns :=
                                    Z.max (br_recorded_at_ns r) (to_nanos (rw_recorded_at w)) |}
                           end]> (oauth_as_revocation_barriers d)) d)
    (Store.record_barrier b (rw_recorded_at w) (rw_until w) g).
Proof.
  intros Hr Hrec Hunt Hck. rewrite !to_nanos_exact by done.
  destruct (record_barrier_tables b (rw_recorded_at w) (rw_until w) g)
    as (Hc & Ht & Hrt & Hco & Hp & Hcs & Hd & _ & Hre).
  destruct Hr as [R1 R2 R3 R4 R5 R6 R7 R8 R9 R10].
  split; cbn [t_with revocation_barriers oauth_as_clients oauth_as_device_grants
    oauth_as_authorization_codes oauth_as_access_tokens oauth_as_refresh_tokens
    oauth_as_pushed_requests oauth_as_consents oauth_as_replay_ids oauth_as_revocation_barriers].
  all: rewrite ?Hc, ?Ht, ?Hrt, ?Hco, ?Hp, ?Hcs, ?Hd, ?Hre; try done.
  - intros b'. rewrite barrier_at_record_barrier. destruct (decide (b = b')) as [->|Hne].
    + rewrite lookup_insert_eq, R9. destruct (barrier_at g b') as [bt|]; cbn; [|done].
      unfold barrier_row, bt_merge; cbn. do 2 f_equal; case_match; bools; lia.
    + rewrite lookup_insert_ne; [apply R9|]. by intros ?%barrier_key_inj.
  - intros k r [[<- _]|[_ Hk]]%lookup_insert_Some; eauto.
Qed.

Lemma in_txn_record_barrier {A} op b scope c f s w (k : unit -> txn (result A StorageError))
    start d g :
  represents d g -> in_range (rw_recorded_at w) -> in_range (rw_until w) ->
  barrier_key b = {| bk_scope := scope; bk_client_id := unwrap_or c ""; bk_family_id := unwrap_or f "";
                     bk_subject := unwrap_or s "" |} ->
  (barrier_check (barrier_key b) = false /\
   exists e, in_txn (PostgresStorage.pg_record_barrier op scope c f s w A k) start d = (Err e, start)) \/
  (barrier_check (barrier_key b) = true /\
   exists d', in_txn (PostgresStorage.pg_record_barrier op scope c f s w A k) start d = in_txn (k tt) start d'
     /\ represents d' (Store.record_barrier b (rw_recorded_at w) (rw_until w) g)).
Proof.
  intros Hr Hrec Hunt Hkey. unfold PostgresStorage.pg_record_barrier. rewrite <- Hkey.
  destruct (barrier_check (barrier_key b)) eqn:Hck; [right|left]; split; try done.
  - eexists. split; [|by apply record_barrier_represents].
    erewrite in_txn_exec; [|unfold upsert; cbn; rewrite Hck; done]. cbn.
    by destruct (oauth_as_revocation_barriers d !! barrier_key b).
  - eexists. apply in_txn_exec_err. unfold upsert; cbn. by rewrite Hck.
Qed.

(** ** As many rows as barriers *)
Lemma slot_size (B : gmap BarrierKey BarrierRow) k (slot : option BarrierTimes) :
  B !! k = barrier_row <$> slot ->
  Z.of_nat (size B) = slot_count slot + Z.of_nat (size (delete k B)).
Proof.
  destruct slot as [t|]; cbn; intros Hk.
  - rewrite (size_delete_in B k _ Hk). unfold slot_count; cbn. lia.
  - by rewrite delete_id.
Qed.

Lemma consents_size c (cs : gmap string BarrierTimes) (B : gmap BarrierKey BarrierRow) :
  (forall s, B !! barrier_key (BConsent c s) = barrier_row <$> cs !! s) ->
  let keys := (fun s => barrier_key (BConsent c s)) <$> (map_to_list cs).*1 in
  Z.of_nat (size B) = hlen cs + Z.of_nat (size (foldl (fun m k => delete k m) B keys)).
Proof.
  intros HB keys.
  set (rows := (fun '(s, t) => (barrier_key (BConsent c s), barrier_row t)) <$> map_to_list cs).
  assert (Hkeys : rows.*1 = keys).
  { unfold rows, keys. rewrite <- !list_fmap_compose. apply list_fmap_ext. by intros i [s t] ?. }
  rewrite (size_fold_delete rows B).
  - rewrite Hkeys. unfold rows, hlen. rewrite length_fmap, length_map_to_list. lia.
  - rewrite Hkeys. apply NoDup_fmap_2; [|apply NoDup_fst_map_to_list].
    intros s s'. cbn. congruence.
  - intros k r ([s t] & [-> ->]%pair_eq & Hin)%list_elem_of_fmap. rewrite HB.
    apply elem_of_map_to_list in Hin. by rewrite Hin.
Qed.

Lemma barrier_rows_count (m : gmap string ScopeBarriers) : forall B : gmap BarrierKey BarrierRow,
  (forall b, B !! barrier_key b = barrier_row <$> barrier_at (set_barriers m mi_empty) b) ->
  (forall k r, B !! k = Some r -> exists b, k = barrier_key b) ->
  Z.of_nat (size B) = barrier_count m.
Proof.
  induction m as [|k e m Hk IH] using map_ind; intros B HB Hkeys.
  - assert (B = ∅) as ->; [|done]. apply map_empty. intros k.
    destruct (B !! k) as [r|] eqn:Hb; [|done]. exfalso.
    destruct (Hkeys k r Hb) as [b ->]. rewrite HB in Hb.
    destruct b; cbn in Hb; by rewrite lookup_empty in Hb.
  - unfold barrier_count. rewrite map_fold_sum_insert by done. fold (barrier_count m).
    pose proof (HB (BClient k)) as H1'. cbn [barrier_at set_barriers mi_barriers] in H1'.
    rewrite lookup_insert_eq in H1'. cbn in H1'. rewrite (slot_size B _ _ H1').
    pose proof (HB (BTokenFamily k)) as H2'. cbn [barrier_at set_barriers mi_barriers] in H2'.
    rewrite lookup_insert_eq in H2'. cbn in H2'.
    rewrite (slot_size (delete _ B) (barrier_key (BTokenFamily k)) (sb_family e))
      by (by rewrite lookup_delete_ne).
    rewrite (consents_size k (sb_consents e)); cycle 1.
    { intros s. rewrite !lookup_delete_ne by done. rewrite HB. cbn. by rewrite lookup_insert_eq. }
    rewrite IH; [unfold scope_count; lia| |].
    + intros b. rewrite fold_delete_lookup. destruct (decide _) as [Hin|Hin].
      * apply list_elem_of_fmap in Hin as (s & Hbs & _). apply barrier_key_inj in Hbs as ->.
        cbn. by rewrite Hk.
      * destruct (decide (b = BTokenFamily k)) as [->|Hf].
        { rewrite lookup_delete_eq. cbn. by rewrite Hk. }
        destruct (decide (b = BClient k)) as [->|Hc].
        { rewrite lookup_delete_ne, lookup_delete_eq by done. cbn. by rewrite Hk. }
        rewrite lookup_delete_ne by (intros ?%barrier_key_inj; congruence).
        rewrite lookup_delete_ne by (intros ?%(barrier_key_inj (BClient k)); congruence). rewrite HB.
        destruct b as [c|f|c s]; cbn.
        all: try (rewrite lookup_insert_ne by congruence; done).
        destruct (decide (c = k)) as [->|]; [|by rewrite lookup_insert_ne].
        rewrite lookup_insert_eq, Hk. cbn. destruct (sb_consents e !! s) as [t|] eqn:Hs; [|done].
        exfalso. apply Hin. apply (list_elem_of_fmap_2 (fun s => barrier_key (BConsent k s))).
        apply list_elem_of_fmap. exists (s, t). split; [done|]. by apply elem_of_map_to_list.
    + intros k' r. rewrite fold_delete_lookup. destruct (decide _); [done|].
      intros [_ [_ ?]%lookup_delete_Some]%lookup_delete_Some. eauto.
Qed.

Lemma represents_barrier_count d g :
  represents d g ->
  Z.of_nat (size (oauth_as_revocation_barriers d)) = barrier_count (mi_barriers g).
Proof.
  intros Hr. apply barrier_rows_count.
  - intros b. rewrite (rep_barriers _ _ Hr). by destruct b.
  - intros k r Hk. by destruct (rep_barrier_keys _ _ Hr k r Hk) as [_ ?].
Qed.
End represents.

(** ** A jsonb that stores records as they are

    An instance of everything the development asks of PostgreSQL, on which programs
    evaluate. *)
Inductive Boxed : Type :=
| BxClient (x : Client)
| BxGrant (x : DeviceGrant)
| BxGrantState (x : DeviceGrantState)
| BxCode (x : AuthorizationCodeRecord)
| BxCodeState (x : AuthorizationCodeState)
| BxPushed (x : PushedAuthorizationRequest)
| BxToken (x : IssuedToken)
| BxRefresh (x : RefreshTokenRecord)
| BxConsent (x : ConsentRecord).
#[global] Instance Boxed_eq_dec : EqDecision Boxed. Proof. solve_decision. Defined.

Definition boxed_arrow (v : Boxed) (field : string) : option Boxed :=
  if field == "state" then
    match v with
    | BxGrant g => Some (BxGrantState (dg_state g))
    | BxCode c => Some (BxCodeState (ac_state c))
    | _ => None
    end
  else None.

Definition boxed_json : PgJson :=
  {| jsonb := Boxed; jsonb_eqb := fun v w => v == w; json_arrow := boxed_arrow |}.

Definition boxed_records : @PgRecords boxed_json := @Build_PgRecords boxed_json
  (@Build_Jsonb boxed_json _ (fun x => Some (BxClient x))
     (fun v => match v with BxClient x => Some x | _ => None end))
  (@Build_Jsonb boxed_json _ (fun x => Some (BxGrant x))
     (fun v => match v with BxGrant x => Some x | _ => None end))
  (@Build_Jsonb boxed_json _ (fun x => Some (BxGrantState x))
     (fun v => match v with BxGrantState x => Some x | _ => None end))
  (@Build_Jsonb boxed_json _ (fun x => Some (BxCode x))
     (fun v => match v with BxCode x => Some x | _ => None end))
  (@Build_Jsonb boxed_json _ (fun x => Some (BxCodeState x))
     (fun v => match v with BxCodeState x => Some x | _ => None end))
  (@Build_Jsonb boxed_json _ (fun x => Some (BxPushed x))
     (fun v => match v with BxPushed x => Some x | _ => None end))
  (@Build_Jsonb boxed_json _ (fun x => Some (BxToken x))
     (fun v => match v with BxToken x => Some x | _ => None end))
  (@Build_Jsonb boxed_json _ (fun x => Some (BxRefresh x))
     (fun v => match v with BxRefresh x => Some x | _ => None end))
  (@Build_Jsonb boxed_json _ (fun x => Some (BxConsent x))
     (fun v => match v with BxConsent x => Some x | _ => None end)).

Definition boxed_order : PgOrder.
Proof.
  refine {| scan := fun K V _ _ m => map_to_list m;
            text_le := fun a b => (encode a <=? encode b)%positive;
            hashtext := fun s => Zpos (encode s) |}.
  - done.
  - intros a b. rewrite !Pos.leb_le. lia.
  - intros a b c. rewrite !Pos.leb_le. lia.
  - intros a b. rewrite !Pos.leb_le. intros. apply (inj encode). lia.
Defined.

Lemma boxed_laws : @PgLaws boxed_json boxed_records.
Proof.
  split; cbn.
  - intros v. by apply bool_decide_true.
  - by intros g v [= <-].
  - by intros c v [= <-].
Qed.

Lemma boxed_keeps {T} (J : @Jsonb boxed_json T) (box : T -> Boxed) (x : T) :
  @to_value boxed_json T J x = Some (box x) -> @from_value boxed_json T J (box x) = Some x ->
  @storable boxed_json T J x.
Proof.
  intros Ht Hf. exists (box x). split; [done|]. intros w Hw. cbn in Hw. apply bool_decide_eq_true in Hw.
  by subst.
Qed.
