(* ===== verification/PgRefines.v ===== *)
(** * The PostgreSQL store refines the in-memory one

    Every method of [PostgresStorage], run alone on a database that represents a
    store, answers what [MemoryStorage] answers on that store and leaves a database
    that represents the store [MemoryStorage] leaves; the sweep's loops end. *)
From S2P Require Import Prelude Time Codec Types Store StoreFacts Sql Postgres SqlFacts PgRep.
From stdpp Require Import sorting.
Local Open Scope Z_scope.
Create HintDb pg.

(** ** The order PostgreSQL gives the consents

    [MemoryStorage] meets its consents in the order of a hash map, which is any order;
    [ORDER BY granted_at_ns DESC, consent_id DESC] is one. *)
Section order.
Context `{PgOrder}.

Definition newer (a b : string * ConsentRecord) : Prop :=
  (cr_granted_at (snd b) < cr_granted_at (snd a)) \/
  (cr_granted_at (snd a) = cr_granted_at (snd b) /\ text_le (fst b) (fst a) = true).
#[global] Instance newer_dec : RelDecision newer.
Proof. intros a b. unfold newer. apply _. Defined.
#[global] Instance newer_trans : Transitive newer.
Proof.
  intros [a x] [b y] [c z] [H1|[H1 T1]] [H2|[H2 T2]]; cbn in *; unfold newer; cbn; try (left; lia).
  right. split; [lia|]. by eapply text_le_trans.
Qed.
#[global] Instance newer_total : Total newer.
Proof.
  intros [a x] [b y]. unfold newer; cbn.
  destruct (Z.lt_total (cr_granted_at x) (cr_granted_at y)) as [|[->|]]; [by right; left| |by left; left].
  destruct (text_le_total a b); [right|left]; right; auto.
Qed.

Definition newest_first (m : gmap string ConsentRecord) : list ConsentRecord :=
  (merge_sort newer (map_to_list m)).*2.
Definition newest_order : HashOrder.
Proof.
  refine {| hash_values := newest_first |}.
  intros m. unfold newest_first. by rewrite merge_sort_Permutation.
Defined.

Lemma find_map_snd {A B} (p : B -> bool) (l : list (A * B)) :
  List.find p l.*2 = snd <$> List.find (fun kv => p (snd kv)) l.
Proof. induction l as [|[a b] l IH]; csimpl; [done|]. by destruct (p b). Qed.

Lemma find_sorted {A} (R : relation A) (p : A -> bool) (l : list A) :
  StronglySorted R l ->
  match List.find p l with
  | Some x => x ∈ l /\ p x = true /\ (forall y, y ∈ l -> p y = true -> y = x \/ R x y)
  | None => forall y, y ∈ l -> p y = false
  end.
Proof.
  induction 1 as [|x l Hl IH Hx]; csimpl; [intros ? []%elem_of_nil|].
  destruct (p x) eqn:Hp.
  - split_and!; [set_solver|done|]. rewrite Forall_forall in Hx.
    intros y [->|Hy]%elem_of_cons _; auto.
  - destruct (List.find p l) as [z|].
    + destruct IH as (Hz & Hpz & Hall). split_and!; [set_solver|done|].
      intros y [->|Hy]%elem_of_cons Hpy; [congruence|eauto].
    + intros y [->|Hy]%elem_of_cons; eauto.
Qed.

Lemma first_by_spec {K R} (le : K * R -> K * R -> bool) (l : list (K * R)) :
  (forall a b c, le a b = true -> le b c = true -> le a c = true) ->
  (forall a b, le a b = true \/ le b a = true) ->
  match first_by le l with
  | Some x => x ∈ l /\ (forall y, y ∈ l -> le x y = true)
  | None => l = []
  end.
Proof.
  intros Htr Htot. induction l as [|x l IH]; csimpl; [done|].
  destruct (first_by le l) as [z|].
  - destruct IH as [Hz Hall]. destruct (le x z) eqn:Hxz; split; [set_solver| |set_solver|].
    + intros y [->|Hy]%elem_of_cons; [by destruct (Htot x x)|]. eapply Htr; eauto.
    + intros y [->|Hy]%elem_of_cons; [|eauto]. destruct (Htot x z) as [?|?]; [congruence|done].
  - subst. split; [set_solver|]. intros y [->|[]%elem_of_nil]%elem_of_cons. by destruct (Htot x x).
Qed.
End order.
#[local] Existing Instance newest_order | 0.

Section newest.
Context `{PgRecords, PgOrder, !PgLaws}.

Lemma newest_trans a b c :
  PostgresStorage.newest a b = true -> PostgresStorage.newest b c = true ->
  PostgresStorage.newest a c = true.
Proof.
  unfold PostgresStorage.newest. intros Hab Hbc. bools; apply orb_true_iff.
  all: try (left; rewrite Z.gtb_ltb; apply Z.ltb_lt; lia).
  right. apply andb_true_iff. split; [apply Z.eqb_eq; rewrite Z.eqb_eq in *; lia|].
  by eapply text_le_trans.
Qed.
Lemma newest_total a b : PostgresStorage.newest a b = true \/ PostgresStorage.newest b a = true.
Proof.
  unfold PostgresStorage.newest. rewrite !Z.gtb_ltb.
  destruct (Z.lt_total (cs_granted_at_ns (snd a)) (cs_granted_at_ns (snd b))) as [Hl|[He|Hl]].
  - right. by rewrite (proj2 (Z.ltb_lt _ _) Hl).
  - rewrite He, Z.eqb_refl. destruct (text_le_total (fst a) (fst b)) as [->| ->]; [right|left];
      by rewrite orb_true_r.
  - left. by rewrite (proj2 (Z.ltb_lt _ _) Hl).
Qed.

(** The newest row of a pair is the record [MemoryStorage] finds under that order. *)
Lemma newest_of_pair d g c s (rows := List.filter (fun '(k, r) => PostgresStorage.of_pair c s k r)
    (scan (oauth_as_consents d))) :
  represents d g ->
  match first_by PostgresStorage.newest rows, MemoryStorage.find_values c s g with
  | Some (k, r), Some rec => oauth_as_consents d !! k = Some r /\ consent_stored r rec
  | None, None => True
  | _, _ => False
  end.
Proof.
  intros Hr. unfold MemoryStorage.find_values. change (hash_values (mi_consents g)) with (newest_first (mi_consents g)). unfold newest_first.
  rewrite find_map_snd.
  set (q := fun kv : string * ConsentRecord =>
              (cr_client_id (snd kv) == c) && (cr_subject (snd kv) == s)).
  assert (Hpq : forall k r rec, consent_stored r rec -> PostgresStorage.of_pair c s k r = q (k, rec)).
  { intros k r rec [-> _]. done. }
  assert (Hrows : forall k r, (k, r) ∈ rows <->
            oauth_as_consents d !! k = Some r /\ PostgresStorage.of_pair c s k r = true).
  { intros k r. unfold rows. by rewrite filter_elem, elem_of_scan. }
  assert (Hsort : forall k v, (k, v) ∈ merge_sort newer (map_to_list (mi_consents g)) <->
            mi_consents g !! k = Some v).
  { intros k v. by rewrite merge_sort_Permutation, elem_of_map_to_list. }
  pose proof (find_sorted newer q _ (StronglySorted_merge_sort newer (map_to_list (mi_consents g))))
    as Hfind.
  pose proof (first_by_spec PostgresStorage.newest rows newest_trans newest_total) as Hfirst.
  destruct (first_by PostgresStorage.newest rows) as [[k r]|].
  - destruct Hfirst as [Hin Hbest]. apply Hrows in Hin as [Hk Hp].
    destruct (trel_Some_l _ _ _ _ _ (rep_consents _ _ Hr) Hk) as (rec & Hrec & Hst).
    destruct (List.find q _) as [[k' rec']|]; cbn.
    + destruct Hfind as (Hin' & Hq' & Hall). apply Hsort in Hin'.
      destruct (trel_Some_r _ _ _ _ _ (rep_consents _ _ Hr) Hin') as (r' & Hk' & Hst').
      assert (Hbest' := Hbest (k', r')). rewrite Hrows, (Hpq _ _ _ Hst') in Hbest'.
      specialize (Hbest' (conj Hk' Hq')).
      destruct (Hall (k, rec)) as [Heq|Hnew].
      { by apply Hsort. } { by rewrite <- (Hpq k r). }
      { by simplify_eq. }
      assert (k = k') as <-; [|by simplify_eq].
      destruct Hst as (Hr1 & _ & Hg1), Hst' as (Hr2 & _ & Hg2). rewrite Hr1, Hr2 in Hbest'.
      unfold PostgresStorage.newest in Hbest'; cbn in Hbest'. rewrite !to_nanos_exact in Hbest' by done.
      destruct Hnew as [Hnew|[Heq Ht]]; cbn in *; bools; try lia.
      by apply text_le_anti.
    + specialize (Hfind (k, rec)). rewrite <- (Hpq k r rec Hst), Hp in Hfind.
      discriminate Hfind. by apply Hsort.
  - destruct (List.find q _) as [[k' rec']|]; cbn; [|done].
    destruct Hfind as (Hin' & Hq' & _). apply Hsort in Hin'.
    destruct (trel_Some_r _ _ _ _ _ (rep_consents _ _ Hr) Hin') as (r' & Hk' & Hst').
    assert (Hin : (k', r') ∈ rows) by (apply Hrows; split; [done|by rewrite (Hpq _ _ _ Hst')]).
    rewrite Hfirst in Hin. by apply elem_of_nil in Hin.
Qed.
End newest.

(** ** Changing one table *)
Section frame.
Context `{PgRecords, PgOrder, !PgLaws}.
Implicit Types (d : Db) (g : MemoryInner).

Lemma rep_set_clients d g m n : represents d g -> trel client_stored m n ->
  represents (t_with clients m d) (set_clients n g).
Proof. intros [] Hm. split; done. Qed.
Lemma rep_set_devices d g m n i : represents d g -> trel device_stored m n ->
  represents (t_with device_grants m d) (set_devices n i g).
Proof. intros [] Hm. split; done. Qed.
Lemma rep_set_codes d g m n : represents d g -> trel code_stored m n ->
  represents (t_with authorization_codes m d) (set_codes n g).
Proof. intros [] Hm. split; done. Qed.
Lemma rep_set_pushed d g m n : represents d g -> trel pushed_stored m n ->
  represents (t_with pushed_requests m d) (set_pushed n g).
Proof. intros [] Hm. split; done. Qed.
Lemma rep_set_tokens d g m n : represents d g -> trel token_stored m n ->
  represents (t_with access_tokens m d) (set_tokens n g).
Proof. intros [] Hm. split; done. Qed.
Lemma rep_set_refresh d g m n : represents d g -> trel refresh_stored m n ->
  represents (t_with refresh_tokens m d) (set_refresh n g).
Proof. intros [] Hm. split; done. Qed.
Lemma rep_set_consents d g m n : represents d g -> trel consent_stored m n ->
  represents (t_with consents m d) (set_consents n g).
Proof. intros [] Hm. split; done. Qed.
Lemma rep_set_replay d g m : represents d g ->
  represents (t_with replay_ids m d) (set_replay_ids m g).
Proof. intros []. split; done. Qed.
(** The index of user codes is a column: it is represented whatever it holds. *)
Lemma rep_set_index d g i : represents d g -> represents d (set_devices (mi_device_by_code g) i g).
Proof. intros []. split; done. Qed.

Lemma payload_kept {T} `{!Jsonb T} op (x : T) v :
  keeps x v -> PostgresStorage.payload_of op (Some v) = Ok (Some x).
Proof.
  intros [_ Hv]. unfold PostgresStorage.payload_of, PostgresStorage.pg_decode.
  by rewrite (Hv v (jsonb_refl v)).
Qed.

(** A row looked up and decoded is the record looked up. *)
Lemma payload_lookup {T R K} `{!Jsonb T, Countable K} op (S : R -> T -> Prop) (payload : R -> jsonb)
    (m : gmap K R) (n : gmap K T) k :
  trel S m n -> (forall r x, S r x -> keeps x (payload r)) ->
  PostgresStorage.payload_of op (payload <$> m !! k) = Ok (n !! k).
Proof.
  intros Hm HS. pose proof (Hm k) as Hk.
  inversion Hk as [r x Hrx Hr Hx|Hr Hx]; cbn; [|done]. by apply payload_kept, HS.
Qed.
End frame.
#[export] Hint Resolve rep_set_clients rep_set_devices rep_set_codes rep_set_pushed rep_set_tokens
  rep_set_refresh rep_set_consents rep_set_replay rep_set_index trel_insert trel_delete : pg.

(** ** Methods *)
Definition agree {A} (r r' : result A StorageError) : Prop :=
  match r, r' with
  | Ok x, Ok y => x = y
  | Err _, Err _ => True
  | _, _ => False
  end.

Section methods.
Context `{PgRecords, PgOrder, !PgLaws}.
Implicit Types (d : Db) (g : MemoryInner).

(** The program on the database against the method on the store. *)
Definition simulates {X} (p : sql (result X StorageError)) (m : result X StorageError * MemoryInner) d
  : Prop :=
  exists r d', alone p d = Some (r, d') /\ agree r (fst m) /\ represents d' (snd m).

Lemma simulates_ret {X} (r : result X StorageError) m d :
  agree r (fst m) -> represents d (snd m) -> simulates (SRet r) m d.
Proof. intros Ha Hr. by exists r, d. Qed.
Lemma simulates_pool {X Y} op (st : Stmt Y) (k : Y -> sql (result X StorageError)) m d x ws :
  st (still d) = Ok (x, ws) -> simulates (k x) m (apply_writes ws d) -> simulates (on_pool op st k) m d.
Proof.
  intros Hst (r & d' & Hp & Hrest). exists r, d'. by rewrite (alone_pool _ _ _ _ _ _ Hst).
Qed.

(** Inside a transaction: [start] is what a rollback leaves, [seen] what it has done. *)
Definition simulates_txn {X} (p : txn (result X StorageError)) (m : result X StorageError * MemoryInner)
    (start seen : Db) : Prop :=
  agree (fst (in_txn p start seen)) (fst m) /\ represents (snd (in_txn p start seen)) (snd m).

Lemma simulates_begin {X} op (body : txn (result X StorageError)) m d :
  simulates_txn body m d d -> simulates (begin op body) m d.
Proof.
  intros [Ha Hr]. exists (fst (in_txn body d d)), (snd (in_txn body d d)).
  split; [|done]. rewrite alone_begin. by destruct (in_txn body d d).
Qed.
Lemma txn_shared {X} op c f s (k : unit -> txn (result X StorageError)) m start seen :
  simulates_txn (k tt) m start seen ->
  simulates_txn (PostgresStorage.lock_barrier_scopes op c f s _ k) m start seen.
Proof. unfold simulates_txn. by rewrite in_txn_shared. Qed.
Lemma txn_exclusive {X} op key (k : unit -> txn (result X StorageError)) m start seen :
  simulates_txn (k tt) m start seen ->
  simulates_txn (PostgresStorage.lock_barrier_scope_exclusive op key _ k) m start seen.
Proof. unfold simulates_txn. by rewrite in_txn_exclusive. Qed.
Lemma txn_exec {X Y} op (st : Stmt Y) (k : Y -> txn (result X StorageError)) m start seen x ws :
  st (still seen) = Ok (x, ws) -> simulates_txn (k x) m start (apply_writes ws seen) ->
  simulates_txn (exec op st _ k) m start seen.
Proof. intros Hst. unfold simulates_txn. by rewrite (in_txn_exec _ _ _ _ _ _ _ Hst). Qed.
Lemma txn_delete {X K R} `{Countable K} op (t : Table K R) `{!GoodTable t} p
    (k : list (K * R) -> txn (result X StorageError)) m start seen :
  simulates_txn (k (matching p (t_rows t seen))) m start (t_with t (spare p (t_rows t seen)) seen) ->
  simulates_txn (exec op (delete_where t p) _ k) m start seen.
Proof. unfold simulates_txn. by rewrite in_txn_delete. Qed.
Lemma txn_delete_pk {X K R} `{Countable K} op (t : Table K R) `{!GoodTable t} key
    (k : option R -> txn (result X StorageError)) m start seen :
  simulates_txn (k (t_rows t seen !! key)) m start (t_with t (delete key (t_rows t seen)) seen) ->
  simulates_txn (exec op (delete_pk t key) _ k) m start seen.
Proof.
  intros Hk. destruct (delete_pk_alone t key seen) as (ws & Hst & Hws).
  eapply txn_exec; [exact Hst|]. by rewrite Hws.
Qed.
Lemma txn_each_cons {X K R} `{Countable K} op (t : Table K R) `{!GoodTable t} p stmts n
    (k : Z -> txn (result X StorageError)) m start seen :
  simulates_txn (PostgresStorage.delete_each op stmts
      (n + (Z.of_nat (size (t_rows t seen)) - Z.of_nat (size (spare p (t_rows t seen))))) _ k)
    m start (t_with t (spare p (t_rows t seen)) seen) ->
  simulates_txn (PostgresStorage.delete_each op
    (PostgresStorage.rows_affected (delete_where t p) :: stmts) n _ k) m start seen.
Proof. unfold simulates_txn. by rewrite in_txn_delete_each_cons. Qed.
Lemma txn_each_nil {X} op n (k : Z -> txn (result X StorageError)) m start seen :
  simulates_txn (k n) m start seen ->
  simulates_txn (PostgresStorage.delete_each op [] n _ k) m start seen.
Proof. done. Qed.
Lemma txn_commit {X} op (a : X) m start seen :
  agree (Ok a) (fst m) -> represents seen (snd m) -> simulates_txn (commit op a) m start seen.
Proof. done. Qed.
Lemma txn_rollback {X} op (a : X) m start seen :
  agree (Ok a) (fst m) -> represents start (snd m) -> simulates_txn (rollback op a) m start seen.
Proof. done. Qed.
Lemma txn_record_barrier {X} op b scope c f s w (k : unit -> txn (result X StorageError)) m start d g :
  represents d g -> in_range (rw_recorded_at w) -> in_range (rw_until w) ->
  barrier_key b = {| bk_scope := scope; bk_client_id := unwrap_or c ""; bk_family_id := unwrap_or f "";
                     bk_subject := unwrap_or s "" |} ->
  (barrier_check (barrier_key b) = false -> is_ok (fst m) = false /\ represents start (snd m)) ->
  (barrier_check (barrier_key b) = true -> forall d',
     represents d' (Store.record_barrier b (rw_recorded_at w) (rw_until w) g) ->
     simulates_txn (k tt) m start d') ->
  simulates_txn (PostgresStorage.pg_record_barrier op scope c f s w _ k) m start d.
Proof.
  intros Hr Hrec Hunt Hkey Hbad Hgood. unfold simulates_txn.
  destruct (in_txn_record_barrier op b scope c f s w k start d g Hr Hrec Hunt Hkey)
    as [[Hck [e ->]]|[Hck (d' & -> & Hr')]]; [|by apply Hgood].
  destruct (Hbad Hck). cbn. split; [|done]. by destruct (fst m).
Qed.
Lemma txn_covered {X} op c f s t (k : bool -> txn (result X StorageError)) m start d g :
  represents d g -> in_range t -> simulates_txn (k (is_revoked g c f s t)) m start d ->
  simulates_txn (PostgresStorage.barrier_covers op c f s t _ k) m start d.
Proof. intros Hr Ht Hk. eapply txn_exec; [by apply exists_covering_revoked|done]. Qed.
Lemma txn_write_token {X} t v (k : unit -> txn (result X StorageError)) m start d :
  keeps t v ->
  simulates_txn (k tt) m start
    (t_with access_tokens (<[it_access_token t := token_row t v]> (oauth_as_access_tokens d)) d) ->
  simulates_txn (PostgresStorage.write_token t _ k) m start d.
Proof.
  intros Hv Hk. unfold PostgresStorage.write_token, try. rewrite (encode_keeps _ _ _ Hv).
  by eapply txn_exec.
Qed.
Lemma txn_write_record {X} r v (k : unit -> txn (result X StorageError)) m start d :
  keeps r v ->
  simulates_txn (k tt) m start
    (t_with refresh_tokens (<[rt_refresh_token r := refresh_row r v]> (oauth_as_refresh_tokens d)) d) ->
  simulates_txn (PostgresStorage.write_record r _ k) m start d.
Proof.
  intros Hv Hk. unfold PostgresStorage.write_record, try. rewrite (encode_keeps _ _ _ Hv).
  by eapply txn_exec.
Qed.
Lemma simulates_encode {X T} `{!Jsonb T} op (x : T) v (k : jsonb -> sql (result X StorageError)) m d :
  keeps x v -> simulates (k v) m d -> simulates (or_return (PostgresStorage.pg_encode op x) k) m d.
Proof. intros Hv Hk. by rewrite (encode_keeps _ _ _ Hv). Qed.

(** The reads by key. *)
Lemma simulates_select {T R K} `{!Jsonb T, Countable K} op (S : R -> T -> Prop)
    (payload : R -> jsonb) (t : Table K R) (n : gmap K T) k d g :
  represents d g -> trel S (t_rows t d) n -> (forall r x, S r x -> keeps x (payload r)) ->
  simulates (on_pool op (select_pk t k) (fun row =>
    SRet (PostgresStorage.payload_of op (payload <$> row)))) (Ok (n !! k), g) d.
Proof.
  intros Hr Hm HS. eapply simulates_pool; [done|]. cbn.
  apply simulates_ret; [|done]. by rewrite (payload_lookup op S payload _ n k Hm HS).
Qed.

(** [DELETE .. RETURNING payload] *)
Lemma simulates_take {T R K} `{!Jsonb T, Countable K} op (S : R -> T -> Prop)
    (payload : R -> jsonb) (t : Table K R) `{!GoodTable t} (n : gmap K T) k d g' :
  trel S (t_rows t d) n -> (forall r x, S r x -> keeps x (payload r)) ->
  represents (t_with t (delete k (t_rows t d)) d) g' ->
  simulates (on_pool op (delete_pk t k) (fun row =>
    SRet (PostgresStorage.payload_of op (payload <$> row)))) (Ok (n !! k), g') d.
Proof.
  intros Hm HS Hr. destruct (delete_pk_alone t k d) as (ws & Hst & Hws).
  eapply simulates_pool; [exact Hst|]. rewrite Hws. apply simulates_ret; [|done].
  by rewrite (payload_lookup op S payload _ n k Hm HS).
Qed.

(** An upsert on the pool into a table without constraints. *)
Lemma simulates_upsert {X K R} `{Countable K} op (t : Table K R) k r
    (next : unit -> sql (result X StorageError)) m d :
  t_constraint t = unconstrained ->
  simulates (next tt) m (t_with t (<[k := r]> (t_rows t d)) d) ->
  simulates (on_pool op (upsert t k (fun _ => r)) next) m d.
Proof. intros Hc Hn. eapply simulates_pool; [unfold upsert; cbn; by rewrite Hc|]. done. Qed.

Lemma keeps_device r x : device_stored r x -> keeps x (dv_payload r). Proof. by intros (_ & ? & _). Qed.
Lemma keeps_code r x : code_stored r x -> keeps x (co_payload r). Proof. by intros (_ & ? & _). Qed.
Lemma keeps_token r x : token_stored r x -> keeps x (tk_payload r). Proof. by intros (_ & ? & _). Qed.
Lemma keeps_refresh r x : refresh_stored r x -> keeps x (rf_payload r). Proof. by intros (_ & ? & _). Qed.
Lemma keeps_pushed r x : pushed_stored r x -> keeps x (pu_payload r). Proof. by intros (_ & ? & _). Qed.
Lemma keeps_consent r x : consent_stored r x -> keeps x (cs_payload r). Proof. by intros (_ & ? & _). Qed.
Hint Resolve keeps_device keeps_code keeps_token keeps_refresh keeps_pushed keeps_consent : pg.

(** *** Clients *)
Lemma put_client_simulates c d g : represents d g -> storable c ->
  simulates (PostgresStorage.pg_put_client c) (MemoryStorage.put_client c g) d.
Proof.
  intros Hr [v Hv]. eapply simulates_encode; [exact Hv|]. apply simulates_upsert; [done|].
  apply simulates_ret; [done|]. cbn. apply rep_set_clients; [done|].
  apply trel_insert; [apply Hr|done].
Qed.

Lemma jsonb_compare {T} `{!Jsonb T, !EqDecision T} (x y : T) v w :
  keeps x v -> keeps y w -> jsonb_eqb v w = (x == y).
Proof.
  intros [Hx Hxd] [Hy Hyd]. apply Bool.eq_iff_eq_true. rewrite bool_decide_eq_true. split.
  - intros Heq. specialize (Hxd w Heq). specialize (Hyd w (jsonb_refl w)). congruence.
  - intros ->. replace w with v by congruence. apply jsonb_refl.
Qed.

Lemma compare_and_swap_client_simulates e u d g : represents d g -> storable e -> storable u ->
  simulates (PostgresStorage.pg_compare_and_swap_client e u) (MemoryStorage.compare_and_swap_client e u g) d.
Proof.
  intros Hr [ve He] [vu Hu]. eapply simulates_encode; [exact He|].
  eapply simulates_encode; [exact Hu|]. unfold MemoryStorage.compare_and_swap_client.
  pose proof (rep_clients _ _ Hr (c_client_id u)) as Hk.
  destruct (mi_clients g !! c_client_id u) as [c|] eqn:Hc; inversion Hk as [r ? Hst Hrow|Hrow]; subst.
  - assert (Hcmp : jsonb_eqb (cl_payload r) ve = (c == e)) by (by apply jsonb_compare).
    destruct (c == e); eapply simulates_pool;
      try (rewrite update_pk_alone; cbn; rewrite <- Hrow, Hcmp; done).
    + apply simulates_ret; [done|]. apply rep_set_clients; [done|]. apply trel_insert; [apply Hr|done].
    + by apply simulates_ret.
  - eapply simulates_pool; [rewrite update_pk_alone; cbn; rewrite <- Hrow; done|]. by apply simulates_ret.
Qed.

Lemma spare_retain {R W} (S : R -> W -> Prop) (p : string -> R -> bool) (q : W -> bool)
    (m : gmap string R) (n : gmap string W) :
  trel S m n -> (forall k v w, S v w -> p k v = negb (q w)) -> trel S (spare p m) (retain q n).
Proof. intros Hm Hpq. apply trel_spare; [done|eauto]. Qed.

(** The two sides of each removal of a cascade agree on every row. *)
Lemma spare_tokens_client c m n : trel token_stored m n ->
  trel token_stored (spare (fun _ r => tk_client_id r == c) m) (retain (fun t => it_client_id t != c) n).
Proof. intros Hm. apply spare_retain; [done|]. intros k v w [-> _]; cbn. by rewrite negb_involutive. Qed.
Lemma spare_refresh_client c m n : trel refresh_stored m n ->
  trel refresh_stored (spare (fun _ r => rf_client_id r == c) m) (retain (fun t => rt_client_id t != c) n).
Proof. intros Hm. apply spare_retain; [done|]. intros k v w [-> _]; cbn. by rewrite negb_involutive. Qed.
Lemma spare_codes_client c m n : trel code_stored m n ->
  trel code_stored (spare (fun _ r => co_client_id r == c) m) (retain (fun t => ac_client_id t != c) n).
Proof. intros Hm. apply spare_retain; [done|]. intros k v w [-> _]; cbn. by rewrite negb_involutive. Qed.
Lemma spare_devices_client c m n : trel device_stored m n ->
  trel device_stored (spare (fun _ r => dv_client_id r == c) m) (retain (fun t => dg_client_id t != c) n).
Proof. intros Hm. apply spare_retain; [done|]. intros k v w [-> _]; cbn. by rewrite negb_involutive. Qed.
Lemma spare_pushed_client c m n : trel pushed_stored m n ->
  trel pushed_stored (spare (fun _ r => pu_client_id r == c) m) (retain (fun t => par_client_id t != c) n).
Proof. intros Hm. apply spare_retain; [done|]. intros k v w [-> _]; cbn. by rewrite negb_involutive. Qed.
Lemma spare_consents_client c m n : trel consent_stored m n ->
  trel consent_stored (spare (fun _ r => cs_client_id r == c) m) (retain (fun t => cr_client_id t != c) n).
Proof. intros Hm. apply spare_retain; [done|]. intros k v w [-> _]; cbn. by rewrite negb_involutive. Qed.
Hint Resolve spare_tokens_client spare_refresh_client spare_codes_client spare_devices_client
  spare_pushed_client spare_consents_client : pg.

Definition window_ok (w : RevocationWindow) : Prop := in_range (rw_recorded_at w) /\ in_range (rw_until w).

Lemma reject_empty_scope_check what v (b : bool) :
  b = negb (str_is_empty v) -> is_ok (reject_empty_scope what v) = b.
Proof. intros ->. unfold reject_empty_scope. by destruct (str_is_empty v). Qed.

Ltac cascade := repeat (first [eapply txn_delete | eapply txn_each_cons | eapply txn_delete_pk]; [apply _|]
  || apply txn_each_nil).

Lemma delete_client_simulates c w d g : represents d g -> window_ok w ->
  simulates (PostgresStorage.pg_delete_client c w) (MemoryStorage.delete_client c w g) d.
Proof.
  intros Hr [Hrec Hunt]. unfold PostgresStorage.pg_delete_client, MemoryStorage.delete_client.
  pose proof (rep_clients _ _ Hr c) as Hex.
  apply simulates_begin, txn_exclusive.
  eapply (txn_record_barrier _ (BClient c)); [exact Hr|done|done|done| |].
  { unfold reject_empty_scope. by destruct c. }
  intros Hck d1 Hr1. rewrite reject_empty_scope_ok by (by intros ->).
  cascade. apply txn_commit.
  - cbn. cbn in Hr1. pose proof (rep_clients _ _ Hr1 c) as Hc. cbn in Hc.
    inversion Hc; by rewrite ?lookup_delete_eq.
  - destruct Hr1 as [R1 R2 R3 R4 R5 R6 R7 R8 R9 R10]. split; cbn; auto with pg.
Qed.

(** *** Device grants *)
Lemma simulates_auto {X Y} (st : Stmt Y) (f : result Y SqlxError -> result X StorageError) m d :
  match st (still d) with
  | Ok (x, ws) => agree (f (Ok x)) (fst m) /\ represents (apply_writes ws d) (snd m)
  | Err e => agree (f (Err e)) (fst m) /\ represents d (snd m)
  end -> simulates (SAuto st (fun r => SRet (f r))) m d.
Proof.
  intros Hst. unfold simulates, alone. cbn. unfold run_stmt. cbn.
  destruct (st (still d)) as [[x ws]|e]; destruct Hst; eauto.
Qed.

(** The unique index refuses exactly the codes [MemoryStorage] refuses. *)
Lemma user_code_unique_spec d g grant v : represents d g -> store_wf g ->
  user_code_unique (dg_device_code grant) (device_row grant v) (oauth_as_device_grants d) =
    if is_some_and (mi_user_code_index g !! UserCode.normalize_user_code (dg_user_code grant))
         (fun owner => owner != dg_device_code grant)
    then Some (Database (Some "23505") (Some USER_CODE_KEY)) else None.
Proof.
  intros Hr Hwf. unfold user_code_unique.
  match goal with |- (if ?a then _ else _) = (if ?b then _ else _) => assert (Hab : a = b); [|by rewrite Hab] end.
  destruct (wf_index _ Hwf) as [Hix Hxi].
  apply Bool.eq_iff_eq_true. rewrite existsb_exists, is_some_and_true.
  setoid_rewrite <- list_elem_of_In. split.
  - intros ([k r] & Hin & Hp). apply elem_of_map_to_list in Hin. bools.
    destruct (trel_Some_l _ _ _ _ _ (rep_devices _ _ Hr) Hin) as (x & Hx & [Hst _]).
    exists k. split; [|by rewrite bool_decide_false].
    apply Hxi in Hx. rewrite Hst in *. cbn in *. unfold norm in Hx. congruence.
  - intros (owner & Ho & Hne). apply Hix in Ho as (x & Hx & Hn).
    destruct (trel_Some_r _ _ _ _ _ (rep_devices _ _ Hr) Hx) as (r & Hk & [Hst _]).
    exists (owner, r). split; [by apply elem_of_map_to_list|]. rewrite Hne. rewrite Hst. cbn.
    unfold norm in Hn. by rewrite bool_decide_true.
Qed.

Lemma write_device_grant_represents d g grant v g' :
  represents d g -> keeps grant v -> storable (dg_state grant) -> in_range (dg_expires_at grant) ->
  MemoryStorage.write_device_grant grant g = Some g' ->
  represents (t_with device_grants
    (<[dg_device_code grant := device_row grant v]> (oauth_as_device_grants d)) d) g'.
Proof.
  intros Hr Hv Hs Hx Hw. apply write_device_grant_frame in Hw as [index ->].
  apply rep_set_devices; [done|]. apply trel_insert; [apply Hr|done].
Qed.

Definition grant_ok (x : DeviceGrant) : Prop :=
  storable x /\ storable (dg_state x) /\ in_range (dg_expires_at x).

Lemma put_device_grant_simulates x d g : represents d g -> store_wf g -> grant_ok x ->
  simulates (PostgresStorage.pg_put_device_grant x) (MemoryStorage.put_device_grant x g) d.
Proof.
  intros Hr Hwf ([v Hv] & Hs & Hx). eapply simulates_encode; [exact Hv|]. apply simulates_auto.
  unfold upsert; cbn. rewrite (user_code_unique_spec d g) by done.
  unfold MemoryStorage.put_device_grant. destruct (MemoryStorage.write_device_grant x g) as [g'|] eqn:Hw.
  - pose proof (write_device_grant_represents d g x v g' Hr Hv Hs Hx Hw).
    unfold MemoryStorage.write_device_grant in Hw. by destruct (is_some_and _ _).
  - unfold MemoryStorage.write_device_grant in Hw. by destruct (is_some_and _ _).
Qed.

Lemma state_compare {T} `{!Jsonb T, !EqDecision T} (payload : jsonb) (x y : T) w :
  json_arrow payload "state" = to_value x -> storable x -> keeps y w ->
  is_some_and (json_arrow payload "state") (fun st => jsonb_eqb st w) = (x == y).
Proof.
  intros -> [v Hv] Hy. rewrite (proj1 Hv). cbn. by apply jsonb_compare.
Qed.

Lemma compare_and_swap_device_grant_simulates e x d g :
  represents d g -> store_wf g -> storable e -> grant_ok x ->
  simulates (PostgresStorage.pg_compare_and_swap_device_grant e x)
    (MemoryStorage.compare_and_swap_device_grant e x g) d.
Proof.
  intros Hr Hwf [ve He] ([v Hv] & Hs & Hx).
  eapply simulates_encode; [exact He|]. eapply simulates_encode; [exact Hv|]. apply simulates_auto.
  rewrite update_pk_alone; cbn. unfold MemoryStorage.compare_and_swap_device_grant.
  pose proof (rep_devices _ _ Hr (dg_device_code x)) as Hk.
  destruct (mi_device_by_code g !! dg_device_code x) as [c|] eqn:Hc;
    inversion Hk as [r ? (Hrow & [Hkv Hkd] & Hss & _) Hlk|Hlk]; subst; [|done].
  rewrite (state_compare _ (dg_state c) e) by (done || by apply grant_state_field).
  destruct (dg_state c == e); [|done].
  rewrite (user_code_unique_spec d g) by done.
  destruct (MemoryStorage.write_device_grant x g) as [g'|] eqn:Hw.
  - pose proof (write_device_grant_represents d g x v g' Hr Hv Hs Hx Hw).
    unfold MemoryStorage.write_device_grant in Hw. by destruct (is_some_and _ _).
  - unfold MemoryStorage.write_device_grant in Hw. by destruct (is_some_and _ _).
Qed.

Lemma take_device_grant_simulates k d g : represents d g ->
  simulates (PostgresStorage.pg_take_device_grant k) (MemoryStorage.take_device_grant k g) d.
Proof.
  intros Hr.
  assert (Hm : MemoryStorage.take_device_grant k g =
    (Ok (mi_device_by_code g !! k), snd (MemoryStorage.take_device_grant k g))).
  { unfold MemoryStorage.take_device_grant. by destruct (_ !! k). }
  rewrite Hm. eapply simulates_take; [apply _|apply Hr|eauto with pg|].
  unfold MemoryStorage.take_device_grant.
  destruct (mi_device_by_code g !! k) as [x|] eqn:Hk; cbn [snd].
  - apply rep_set_devices; [done|]. apply trel_delete, Hr.
  - rewrite delete_id, with_rows; [done|]. by apply (trel_None _ _ _ k (rep_devices _ _ Hr)).
Qed.

Lemma find_device_grant_by_user_code_simulates u d g : represents d g -> store_wf g ->
  simulates (PostgresStorage.pg_find_device_grant_by_user_code u)
    (MemoryStorage.find_device_grant_by_user_code u g) d.
Proof.
  intros Hr Hwf. eapply simulates_pool; [done|]. cbn. apply simulates_ret; [|done].
  destruct (wf_index _ Hwf) as [Hix Hxi].
  set (rows := List.filter _ _).
  assert (Hrows : forall k r, (k, r) ∈ rows <->
            oauth_as_device_grants d !! k = Some r /\ dv_user_code_normalized r = u).
  { intros k r. unfold rows. by rewrite filter_elem, elem_of_scan, bool_decide_eq_true. }
  destruct rows as [|[k r] rows']; cbn.
  - destruct (mi_user_code_index g !! u) as [dc|] eqn:Hu; cbn; [|done].
    destruct (Hix _ _ Hu) as (x & Hx & Hn). exfalso.
    destruct (trel_Some_r _ _ _ _ _ (rep_devices _ _ Hr) Hx) as (r & Hk & [Hst _]).
    apply (not_elem_of_nil (dc, r)). apply Hrows. split; [done|]. by rewrite Hst.
  - destruct (proj1 (Hrows k r)) as [Hk Hu]; [set_solver|].
    destruct (trel_Some_l _ _ _ _ _ (rep_devices _ _ Hr) Hk) as (x & Hx & Hst).
    assert (Hn : norm x = u) by (destruct Hst as [Hst _]; by rewrite Hst in Hu).
    rewrite <- Hn, (Hxi _ _ Hx). cbn. rewrite Hx.
    destruct Hst as (_ & [_ Hd] & _). unfold PostgresStorage.pg_decode. by rewrite (Hd _ (jsonb_refl _)).
Qed.

(** *** Authorization codes and pushed requests *)
Definition code_ok (x : AuthorizationCodeRecord) : Prop :=
  storable x /\ storable (ac_state x) /\ in_range (ac_expires_at x).

Lemma put_authorization_code_simulates x d g : represents d g -> code_ok x ->
  simulates (PostgresStorage.pg_put_authorization_code x) (MemoryStorage.put_authorization_code x g) d.
Proof.
  intros Hr ([v Hv] & Hs & Hx). eapply simulates_encode; [exact Hv|]. apply simulates_upsert; [done|].
  apply simulates_ret; [done|]. apply rep_set_codes; [done|]. apply trel_insert; [apply Hr|done].
Qed.

Lemma compare_and_swap_authorization_code_simulates e x d g :
  represents d g -> storable e -> code_ok x ->
  simulates (PostgresStorage.pg_compare_and_swap_authorization_code e x)
    (MemoryStorage.compare_and_swap_authorization_code e x g) d.
Proof.
  intros Hr [ve He] ([v Hv] & Hs & Hx).
  eapply simulates_encode; [exact He|]. eapply simulates_encode; [exact Hv|].
  unfold MemoryStorage.compare_and_swap_authorization_code.
  pose proof (rep_codes _ _ Hr (ac_code x)) as Hk.
  destruct (mi_codes g !! ac_code x) as [c|] eqn:Hc;
    inversion Hk as [r ? (Hrow & [Hkv Hkd] & Hss & _) Hlk|Hlk]; subst.
  - pose proof (state_compare (co_payload r) (ac_state c) e ve (code_state_field c _ Hkv) Hss He) as Hcmp.
    destruct (ac_state c == e); eapply simulates_pool;
      try (rewrite update_pk_alone; cbn; rewrite <- Hlk, Hcmp; done).
    + apply simulates_ret; [done|]. apply rep_set_codes; [done|]. apply trel_insert; [apply Hr|done].
    + by apply simulates_ret.
  - eapply simulates_pool; [rewrite update_pk_alone; cbn; rewrite <- Hlk; done|]. by apply simulates_ret.
Qed.

Definition pushed_ok (x : PushedAuthorizationRequest) : Prop :=
  storable x /\ in_range (par_pushed_at x) /\ in_range (par_expires_at x).

Lemma put_pushed_simulates x d g : represents d g -> pushed_ok x ->
  simulates (PostgresStorage.pg_put_pushed_authorization_request x)
    (MemoryStorage.put_pushed_authorization_request x g) d.
Proof.
  intros Hr ([v Hv] & Hp & Hx). eapply simulates_encode; [exact Hv|].
  apply simulates_begin, txn_shared. eapply txn_covered; [exact Hr|done|].
  unfold MemoryStorage.put_pushed_authorization_request.
  destruct (is_revoked _ _ _ _ _); [by apply txn_rollback|].
  eapply txn_exec; [done|]. apply txn_commit; [done|]. apply rep_set_pushed; [done|].
  apply trel_insert; [apply Hr|done].
Qed.

(** *** Tokens *)
Definition token_ok (x : IssuedToken) : Prop :=
  storable x /\ in_range (it_grant_established_at x) /\ in_range (it_expires_at x).
Definition refresh_ok (x : RefreshTokenRecord) : Prop :=
  storable x /\ in_range (rt_grant_established_at x) /\ (forall e, rt_expires_at x = Some e -> in_range e).

Lemma put_token_simulates x d g : represents d g -> token_ok x ->
  simulates (PostgresStorage.pg_put_token x) (MemoryStorage.put_token x g) d.
Proof.
  intros Hr ([v Hv] & Hp & Hx).
  apply simulates_begin, txn_shared. eapply txn_covered; [exact Hr|done|].
  unfold MemoryStorage.put_token. destruct (is_revoked _ _ _ _ _); [by apply txn_rollback|].
  eapply txn_write_token; [exact Hv|]. apply txn_commit; [done|]. apply rep_set_tokens; [done|].
  apply trel_insert; [apply Hr|done].
Qed.

Lemma put_refresh_token_simulates x d g : represents d g -> refresh_ok x ->
  simulates (PostgresStorage.pg_put_refresh_token x) (MemoryStorage.put_refresh_token x g) d.
Proof.
  intros Hr ([v Hv] & Hp & Hx).
  apply simulates_begin, txn_shared. eapply txn_covered; [exact Hr|done|].
  unfold MemoryStorage.put_refresh_token. destruct (is_revoked _ _ _ _ _); [by apply txn_rollback|].
  eapply txn_write_record; [exact Hv|]. apply txn_commit; [done|]. apply rep_set_refresh; [done|].
  apply trel_insert; [apply Hr|done].
Qed.

Lemma write_record_represents d g x v : represents d g -> keeps x v ->
  (forall e, rt_expires_at x = Some e -> in_range e) ->
  represents (t_with refresh_tokens (<[rt_refresh_token x := refresh_row x v]>
                (oauth_as_refresh_tokens d)) d)
    (set_refresh (<[rt_refresh_token x := x]> (mi_refresh g)) g).
Proof. intros Hr Hv Hx. apply rep_set_refresh; [done|]. apply trel_insert; [apply Hr|done]. Qed.

Lemma rotate_refresh_token_simulates e s a n d g : represents d g ->
  in_range (rt_grant_established_at e) -> refresh_ok s -> token_ok a ->
  (forall x, n = Some x -> refresh_ok x) ->
  simulates (PostgresStorage.pg_rotate_refresh_token e s a n)
    (MemoryStorage.rotate_refresh_token e s a n g) d.
Proof.
  intros Hr He ([vs Hvs] & _ & Hs) ([va Hva] & _ & Ha) Hn.
  apply simulates_begin, txn_shared. eapply txn_covered; [exact Hr|done|].
  unfold MemoryStorage.rotate_refresh_token.
  destruct (is_revoked _ _ _ _ _); [rewrite orb_true_r; by apply txn_rollback|]. rewrite orb_false_r.
  destruct (select_pk_for_update_alone refresh_tokens (rt_refresh_token e) d) as (ws & Hst & Hws).
  eapply txn_exec; [exact Hst|]. rewrite Hws. unfold try.
  rewrite (payload_lookup _ refresh_stored rf_payload _ (mi_refresh g)) by (apply Hr || eauto with pg).
  destruct (mi_refresh g !! rt_refresh_token e != Some e); [by apply txn_rollback|].
  eapply txn_write_record; [exact Hvs|]. eapply txn_write_token; [exact Hva|].
  pose proof (write_record_represents d g s vs Hr Hvs Hs) as Hr1.
  assert (Hr2 : represents
    (t_with access_tokens (<[it_access_token a := token_row a va]> (oauth_as_access_tokens d))
      (t_with refresh_tokens (<[rt_refresh_token s := refresh_row s vs]> (oauth_as_refresh_tokens d)) d))
    (set_tokens (<[it_access_token a := a]> (mi_tokens g))
      (set_refresh (<[rt_refresh_token s := s]> (mi_refresh g)) g))).
  { apply rep_set_tokens; [done|]. apply trel_insert; [apply Hr|done]. }
  destruct n as [x|]; [|by apply txn_commit].
  destruct (Hn x eq_refl) as ([vx Hvx] & _ & Hx).
  eapply txn_write_record; [exact Hvx|]. apply txn_commit; [done|].
  exact (write_record_represents _ _ x vx Hr2 Hvx Hx).
Qed.

Lemma spare_tokens_family f m n : trel token_stored m n ->
  trel token_stored (spare (fun _ r => tk_family_id r == Some f) m)
    (retain (fun t => it_family_id t != Some f) n).
Proof. intros Hm. apply spare_retain; [done|]. intros k v w [-> _]; cbn. by rewrite negb_involutive. Qed.
Lemma spare_refresh_family f m n : trel refresh_stored m n ->
  trel refresh_stored (spare (fun _ r => rf_family_id r == f) m) (retain (fun t => rt_family_id t != f) n).
Proof. intros Hm. apply spare_retain; [done|]. intros k v w [-> _]; cbn. by rewrite negb_involutive. Qed.
Hint Resolve spare_tokens_family spare_refresh_family : pg.

Lemma trel_hlen {R W} (S : R -> W -> Prop) (m : gmap string R) (n : gmap string W) :
  trel S m n -> Z.of_nat (size m) = hlen n.
Proof. intros Hm. unfold hlen. by rewrite (trel_size S m n Hm). Qed.

Lemma revoke_token_family_simulates f w d g : represents d g -> window_ok w ->
  simulates (PostgresStorage.pg_revoke_token_family f w) (MemoryStorage.revoke_token_family f w g) d.
Proof.
  intros Hr [Hrec Hunt]. unfold PostgresStorage.pg_revoke_token_family, MemoryStorage.revoke_token_family.
  apply simulates_begin, txn_exclusive.
  eapply (txn_record_barrier _ (BTokenFamily f)); [exact Hr|done|done|done| |].
  { unfold reject_empty_scope. by destruct f. }
  intros Hck d1 Hr1. rewrite reject_empty_scope_ok by (by intros ->).
  cascade. destruct Hr1 as [R1 R2 R3 R4 R5 R6 R7 R8 R9 R10]. apply txn_commit.
  - cbn. cbn in R4, R5.
    rewrite (trel_hlen _ _ _ R4), (trel_hlen _ _ _ R5), (trel_hlen _ _ _ (spare_tokens_family f _ _ R4)),
      (trel_hlen _ _ _ (spare_refresh_family f _ _ R5)). lia.
  - split; cbn; auto with pg.
Qed.

(** *** Consents *)
Definition consent_ok (x : ConsentRecord) : Prop := storable x /\ in_range (cr_granted_at x).

Lemma put_consent_simulates x d g : represents d g -> consent_ok x ->
  simulates (PostgresStorage.pg_put_consent x) (MemoryStorage.put_consent x g) d.
Proof.
  intros Hr ([v Hv] & Hx). eapply simulates_encode; [exact Hv|]. apply simulates_upsert; [done|].
  apply simulates_ret; [done|]. apply rep_set_consents; [done|]. apply trel_insert; [apply Hr|done].
Qed.

Lemma select_first_for_update_alone {K R} `{Countable K} (t : Table K R) p le d :
  (forall a b c, le a b = true -> le b c = true -> le a c = true) ->
  (forall a b, le a b = true \/ le b a = true) ->
  exists ws, select_first_for_update t p le (still d) =
               Ok (first_by le (List.filter (fun '(k, r) => p k r) (scan (t_rows t d))), ws) /\
             apply_writes ws d = d.
Proof.
  intros Htr Htot. unfold select_first_for_update. cbv zeta. change (sn_then (still d)) with d.
  assert (Hf : List.filter (fun '(k, r) => p k r && is_some (recheck t (still d) p k)) (scan (t_rows t d))
               = List.filter (fun '(k, r) => p k r) (scan (t_rows t d))).
  { apply filter_ext_in. intros [k r] Hin%list_elem_of_In%elem_of_scan.
    destruct (p k r) eqn:Hp; [|done]. by rewrite (recheck_still t d p k r). }
  rewrite Hf. pose proof (first_by_spec le (List.filter (fun '(k, r) => p k r) (scan (t_rows t d))) Htr Htot)
    as Hs.
  destruct (first_by le _) as [[k r]|]; [|eauto].
  destruct Hs as [[Hin%elem_of_scan Hp]%filter_elem _].
  rewrite (recheck_still t d p k r) by done. eauto.
Qed.

Lemma newest_payload op d g c s : represents d g ->
  PostgresStorage.payload_of op ((fun kr => cs_payload (snd kr)) <$>
    first_by PostgresStorage.newest (List.filter (fun '(k, r) => PostgresStorage.of_pair c s k r)
      (scan (oauth_as_consents d)))) = Ok (MemoryStorage.find_values c s g).
Proof.
  intros Hr. pose proof (newest_of_pair d g c s Hr) as Hn.
  destruct (first_by PostgresStorage.newest _) as [[k r]|];
    destruct (MemoryStorage.find_values c s g) as [x|]; try done.
  destruct Hn as [_ Hst]. cbn [fmap option_fmap option_map snd]. by apply payload_kept, keeps_consent.
Qed.

Lemma compare_and_swap_consent_simulates e x d g : represents d g -> consent_ok x ->
  simulates (PostgresStorage.pg_compare_and_swap_consent e x) (MemoryStorage.compare_and_swap_consent e x g) d.
Proof.
  intros Hr ([v Hv] & Hx). apply simulates_begin, txn_exclusive.
  destruct (select_first_for_update_alone consents
    (PostgresStorage.of_pair (cr_client_id x) (cr_subject x)) PostgresStorage.newest d
    newest_trans newest_total) as (ws & Hst & Hws).
  eapply txn_exec; [exact Hst|]. rewrite Hws. unfold try.
  rewrite (newest_payload _ d g) by done. unfold MemoryStorage.compare_and_swap_consent.
  assert (Hwrite : forall m, m = (Ok true, set_consents (<[cr_consent_id x := x]> (mi_consents g)) g) ->
    simulates_txn
      (match PostgresStorage.pg_encode "compare_and_swap_consent" x with
       | Ok payload =>
           exec "compare_and_swap_consent"
             (upsert consents (cr_consent_id x) (fun _ => consent_row x payload)) _
             (fun _ => commit "compare_and_swap_consent" true)
       | Err e => TReturn (Err e)
       end) m d d).
  { intros m ->. rewrite (encode_keeps _ _ _ Hv). eapply txn_exec; [done|]. apply txn_commit; [done|].
    apply rep_set_consents; [done|]. apply trel_insert; [apply Hr|done]. }
  destruct (MemoryStorage.find_values _ _ g) as [live|], e as [e|];
    [destruct (live == e)|..]; (apply Hwrite; done) || by apply txn_rollback.
Qed.

Lemma find_consent_simulates c s d g : represents d g ->
  simulates (PostgresStorage.pg_find_consent c s) (MemoryStorage.find_consent c s g) d.
Proof.
  intros Hr. eapply simulates_pool; [done|]. cbn [apply_writes]. apply simulates_ret; [|done].
  unfold agree. cbn [t_rows consents still sn_then]. by rewrite (newest_payload _ d g).
Qed.

(** The rows of a subject decode to its consents. *)
Lemma decode_all_stored op d g rows : represents d g ->
  (forall k r, (k, r) ∈ rows -> oauth_as_consents d !! k = Some r) ->
  PostgresStorage.decode_all op rows =
    Ok (omap (fun '(k, _) => (fun c => (k, c)) <$> mi_consents g !! k) rows).*2.
Proof.
  intros Hr. induction rows as [|[k r] rows IH]; intros Hin; csimpl; [done|].
  destruct (trel_Some_l _ _ _ _ _ (rep_consents _ _ Hr) (Hin k r ltac:(set_solver))) as (x & Hx & Hst).
  rewrite Hx. csimpl. rewrite IH by (intros; apply Hin; set_solver).
  destruct Hst as (_ & [_ Hd] & _). unfold PostgresStorage.pg_decode.
  by rewrite (Hd _ (jsonb_refl _)).
Qed.

Lemma omap_keys_NoDup {V W} (f : string -> option W) (rows : list (string * V)) :
  NoDup rows.*1 -> NoDup (omap (fun '(k, _) => (fun c => (k, c)) <$> f k) rows).*1.
Proof.
  induction rows as [|[k v] rows IH]; csimpl; [done|]. intros [Hk Hnd]%NoDup_cons.
  destruct (f k) as [w|]; csimpl; [|by apply IH]. apply NoDup_cons. split; [|by apply IH].
  intros ([k' w'] & Hkk & ([k2 v2] & Hin & Hf)%list_elem_of_omap)%list_elem_of_fmap.
  cbn in *. destruct (f k2); simplify_eq/=. apply Hk, list_elem_of_fmap. by exists (k', v2).
Qed.

Lemma consents_for_subject_agree s d g : represents d g ->
  exists l l', alone (PostgresStorage.pg_consents_for_subject s) d = Some (Ok l, d) /\
    MemoryStorage.consents_for_subject s g = (Ok l', g) /\ l ≡ₚ l'.
Proof.
  intros Hr. unfold PostgresStorage.pg_consents_for_subject.
  erewrite alone_pool by done. cbn [apply_writes].
  set (rows := List.filter _ _).
  assert (Hrows : forall k r, (k, r) ∈ rows <->
            oauth_as_consents d !! k = Some r /\ cs_subject r = s).
  { intros k r. unfold rows. rewrite filter_elem, elem_of_scan, bool_decide_eq_true. done. }
  rewrite (decode_all_stored _ d g rows Hr) by (intros ? ? ?%Hrows; naive_solver).
  do 2 eexists. split; [done|]. split; [done|].
  change (hash_values (mi_consents g)) with (newest_first (mi_consents g)).
  unfold newest_first.
  assert (Hf : forall l : list (string * ConsentRecord),
    List.filter (fun c => cr_subject c == s) l.*2 = (List.filter (fun kc => cr_subject (snd kc) == s) l).*2).
  { induction l as [|[k c] l IH]; csimpl; [done|]. destruct (cr_subject c == s); csimpl; by rewrite IH. }
  rewrite Hf. apply fmap_Permutation, NoDup_Permutation.
  - eapply NoDup_fmap_1, omap_keys_NoDup, NoDup_filter_fst, NoDup_scan.
  - apply (NoDup_fmap_1 fst). apply NoDup_filter_fst.
    rewrite merge_sort_Permutation. apply NoDup_fst_map_to_list.
  - intros [k c]. rewrite filter_elem, merge_sort_Permutation, elem_of_map_to_list, bool_decide_eq_true.
    rewrite list_elem_of_omap. cbn. split.
    + intros ([k' r] & Hin & Hx). apply Hrows in Hin as [Hk Hs].
      destruct (trel_Some_l _ _ _ _ _ (rep_consents _ _ Hr) Hk) as (x & Hx' & [Hst _]).
      rewrite Hx' in Hx. cbn in Hx. simplify_eq. split; [done|]. by rewrite Hst.
    + intros [Hk Hs]. destruct (trel_Some_r _ _ _ _ _ (rep_consents _ _ Hr) Hk) as (r & Hr' & [Hst _]).
      exists (k, r). split; [|by rewrite Hk]. apply Hrows. split; [done|]. by rewrite Hst.
Qed.

(** *** Withdrawal *)
Lemma spare_tokens_pair c s m n : trel token_stored m n ->
  trel token_stored (spare (fun _ r => (tk_client_id r == c) && (tk_subject r == Some s)) m)
    (retain (fun t => negb ((it_client_id t == c) && (it_subject t == Some s))) n).
Proof. intros Hm. apply spare_retain; [done|]. intros k v w [-> _]; cbn. by rewrite negb_involutive. Qed.
Lemma spare_refresh_pair c s m n : trel refresh_stored m n ->
  trel refresh_stored (spare (fun _ r => (rf_client_id r == c) && (rf_subject r == Some s)) m)
    (retain (fun t => negb ((rt_client_id t == c) && (rt_subject t == Some s))) n).
Proof. intros Hm. apply spare_retain; [done|]. intros k v w [-> _]; cbn. by rewrite negb_involutive. Qed.
Lemma spare_codes_pair c s m n : trel code_stored m n ->
  trel code_stored (spare (fun _ r => (co_client_id r == c) && (co_subject r == s)) m)
    (retain (fun t => negb ((ac_client_id t == c) && (ac_subject t == s))) n).
Proof. intros Hm. apply spare_retain; [done|]. intros k v w [-> _]; cbn. by rewrite negb_involutive. Qed.
Lemma approved_subject_by s st : (approved_subject st == Some s) = MemoryStorage.approved_by s st.
Proof. destruct st; cbn; try done. apply bool_decide_ext. naive_solver. Qed.
Lemma spare_devices_pair c s m n : trel device_stored m n ->
  trel device_stored (spare (fun _ r => (dv_client_id r == c) && (dv_approved_subject r == Some s)) m)
    (retain (fun t => negb ((dg_client_id t == c) && MemoryStorage.approved_by s (dg_state t))) n).
Proof.
  intros Hm. apply spare_retain; [done|]. intros k v w [-> _]; cbn.
  by rewrite approved_subject_by, negb_involutive.
Qed.
Hint Resolve spare_tokens_pair spare_refresh_pair spare_codes_pair spare_devices_pair : pg.

Lemma revoke_consent_simulates id w d g : represents d g -> window_ok w ->
  simulates (PostgresStorage.pg_revoke_consent id w) (MemoryStorage.revoke_consent id w g) d.
Proof.
  intros Hr [Hrec Hunt]. unfold PostgresStorage.pg_revoke_consent, MemoryStorage.revoke_consent.
  apply simulates_begin. eapply txn_delete_pk; [apply _|].
  pose proof (rep_consents _ _ Hr id) as Hk. cbn [t_rows consents].
  destruct (mi_consents g !! id) as [c|] eqn:Hc; inversion Hk as [r ? Hst Hrow|Hrow]; subst; cycle 1.
  { apply txn_commit; [done|]. rewrite delete_id by done. by destruct d. }
  destruct Hst as [-> _]. cbn [cs_client_id cs_subject consent_row].
  apply txn_exclusive.
  eapply (txn_record_barrier _ (BConsent (cr_client_id c) (cr_subject c)));
    [apply rep_set_consents; [exact Hr|apply trel_delete, Hr]|done|done|done| |].
  { unfold reject_empty_scope. by destruct (cr_client_id c), (cr_subject c). }
  intros Hck d1 Hr1.
  assert (cr_client_id c <> EmptyString /\ cr_subject c <> EmptyString) as [Hne1 Hne2].
  { split; intros He; rewrite He in Hck; [by vm_compute in Hck|].
    by destruct (cr_client_id c); vm_compute in Hck. }
  rewrite !reject_empty_scope_ok by done.
  cascade. destruct Hr1 as [R1 R2 R3 R4 R5 R6 R7 R8 R9 R10]. apply txn_commit.
  - cbn. cbn in R2, R3, R4, R5. erewrite !trel_hlen by eauto with pg. lia.
  - split; cbn; auto with pg.
Qed.

(** *** Replay ids *)
Lemma claim_replay_id_simulates id e d g : represents d g -> in_range e ->
  simulates (PostgresStorage.pg_claim_replay_id id e) (MemoryStorage.claim_replay_id id e g) d.
Proof.
  intros Hr He. unfold MemoryStorage.claim_replay_id. rewrite <- (rep_replay _ _ Hr).
  destruct (oauth_as_replay_ids d !! id) as [e0|] eqn:Hk.
  - eapply simulates_pool; [unfold insert_or_nothing; cbn; rewrite Hk; done|]. by apply simulates_ret.
  - eapply simulates_pool; [unfold insert_or_nothing; cbn; rewrite Hk; done|].
    apply simulates_ret; [done|]. cbn [apply_writes apply_write]. rewrite to_nanos_exact by done.
    by apply (rep_set_replay d g).
Qed.

(** *** The sweep *)

(** Enough turns drain a table: the loop answers the rows that matched and leaves the
    ones it spares. *)
Lemma sweep_loop_drains {K R} `{Countable K} (t : Table K R) `{!GoodTable t} p limit fuel
    (k : Z -> sql (result Z StorageError)) : Z.of_nat limit = SWEEP_BATCH_ROWS ->
  forall removed d,
  (List.length (matching p (t_rows t d)) < fuel * limit)%nat ->
  alone (PostgresStorage.sweep_loop fuel (delete_batch t p limit) removed k) d =
  alone (k (removed + (Z.of_nat (size (t_rows t d)) - Z.of_nat (size (spare p (t_rows t d))))))
    (t_with t (spare p (t_rows t d)) d).
Proof.
  intros Hlim. induction fuel as [|fuel IH]; intros removed d Hfuel; [lia|].
  cbn [PostgresStorage.sweep_loop]. erewrite alone_pool by apply delete_batch_alone, _.
  rewrite apply_removes by apply _. rewrite length_firstn.
  destruct (matching_after p (t_rows t d) limit) as [Hsp Hlen].
  pose proof (size_matching p (t_rows t d)) as Hsize.
  destruct (Z.ltb_spec (Z.of_nat (limit `min` List.length (matching p (t_rows t d))))
              SWEEP_BATCH_ROWS) as [Hlt|Hge].
  - rewrite firstn_all2 by lia.
    rewrite (remove_matching t d p) by (intros; by rewrite elem_of_matching).
    do 2 f_equal. lia.
  - rewrite IH by (rewrite rows_with; lia). rewrite !rows_with, with_with, Hsp.
    pose proof (size_matching p (foldl (fun m k => delete k m) (t_rows t d)
      (take limit (matching p (t_rows t d))).*1)) as Hsize'. rewrite Hsp in Hsize'.
    do 2 f_equal. lia.
Qed.

Definition db_rows (d : Db) : Z :=
  Z.of_nat (size (oauth_as_device_grants d)) + Z.of_nat (size (oauth_as_authorization_codes d))
  + Z.of_nat (size (oauth_as_access_tokens d)) + Z.of_nat (size (oauth_as_refresh_tokens d))
  + Z.of_nat (size (oauth_as_pushed_requests d)) + Z.of_nat (size (oauth_as_replay_ids d))
  + Z.of_nat (size (oauth_as_revocation_barriers d)).

Lemma leb_live e now : in_range e -> (to_nanos e <=? now) = negb (now <? e).
Proof. intros He. by rewrite to_nanos_exact, Z.leb_antisym. Qed.

Lemma sweep_expired_simulates fuel now d g : represents d g -> in_range now ->
  db_rows d < Z.of_nat fuel * SWEEP_BATCH_ROWS ->
  simulates (PostgresStorage.pg_sweep_expired fuel now) (MemoryStorage.sweep_expired now g) d.
Proof.
  intros Hr Hnow Hfuel. unfold PostgresStorage.pg_sweep_expired. rewrite to_nanos_exact by done.
  unfold PostgresStorage.sweep_statements.
  set (limit := Z.to_nat SWEEP_BATCH_ROWS).
  assert (Hlim : Z.of_nat limit = SWEEP_BATCH_ROWS) by (by apply Z2Nat.id).
  clearbody limit. rewrite <- Hlim, <- Nat2Z.inj_mul in Hfuel. unfold db_rows in Hfuel.
  unfold simulates. cbn zeta. cbn [PostgresStorage.sweep_tables].
  repeat match goal with
  | |- context [PostgresStorage.sweep_loop fuel (delete_batch ?t ?p limit) _ _] =>
      rewrite (sweep_loop_drains t p limit fuel _ Hlim)
        by (match goal with |- (List.length (matching ?q ?m) < _)%nat =>
              pose proof (size_matching q m); cbn in *; lia end)
  end.
  do 2 eexists. split; [done|].
  pose proof (barrier_at_sweep now g) as Hbar.
  pose proof (sweep_barriers_count now (mi_barriers g)) as Hcount.
  pose proof (represents_barrier_count d g Hr) as Hb1.
  destruct Hr as [R1 R2 R3 R4 R5 R6 R7 R8 R9 R10].
  assert (S2 : trel device_stored (spare (fun _ r => dv_expires_at_ns r <=? now) (oauth_as_device_grants d))
                 (retain (fun x => now <? dg_expires_at x) (mi_device_by_code g))).
  { apply spare_retain; [done|]. intros k r x (-> & _ & _ & Hx). cbn. by apply leb_live. }
  assert (S3 : trel code_stored (spare (fun _ r => co_expires_at_ns r <=? now) (oauth_as_authorization_codes d))
                 (retain (fun x => now <? ac_expires_at x) (mi_codes g))).
  { apply spare_retain; [done|]. intros k r x (-> & _ & _ & Hx). cbn. by apply leb_live. }
  assert (S4 : trel token_stored (spare (fun _ r => tk_expires_at_ns r <=? now) (oauth_as_access_tokens d))
                 (retain (fun x => now <? it_expires_at x) (mi_tokens g))).
  { apply spare_retain; [done|]. intros k r x (-> & _ & Hx). cbn. by apply leb_live. }
  assert (S5 : trel refresh_stored
                 (spare (fun _ r => is_some_and (rf_expires_at_ns r) (fun e => e <=? now))
                    (oauth_as_refresh_tokens d))
                 (retain (MemoryStorage.live_refresh now) (mi_refresh g))).
  { apply spare_retain; [done|]. intros k r x (-> & _ & Hx). unfold MemoryStorage.live_refresh. cbn.
    destruct (rt_expires_at x) as [e|]; cbn; [|done]. by apply leb_live, Hx. }
  assert (S6 : trel pushed_stored (spare (fun _ r => pu_expires_at_ns r <=? now) (oauth_as_pushed_requests d))
                 (retain (fun x => now <? par_expires_at x) (mi_pushed g))).
  { apply spare_retain; [done|]. intros k r x (-> & _ & Hx). cbn. by apply leb_live. }
  assert (S8 : spare (fun _ e => e <=? now) (oauth_as_replay_ids d) =
               retain (fun e => now <? e) (mi_replay_ids g)).
  { rewrite R8. apply map_eq. intros k. rewrite lookup_spare, lookup_retain.
    destruct (mi_replay_ids g !! k) as [e|]; cbn; [|done]. rewrite Z.leb_antisym.
    by destruct (now <? e). }
  set (g' := snd (MemoryStorage.sweep_expired now g)) in *.
  match goal with |- _ /\ represents ?dd _ => set (d' := dd) end.
  assert (Hr' : represents d' g').
  { split; try done.
    - intros b. cbn [d' t_with revocation_barriers oauth_as_revocation_barriers t_rows].
      rewrite Hbar. cbn. rewrite lookup_spare, R9.
      destruct (barrier_at g b) as [bt|]; cbn; [|done]. rewrite Z.leb_antisym.
      by destruct (now <? bt_until bt).
    - intros k r. cbn. rewrite lookup_spare.
      destruct (oauth_as_revocation_barriers d !! k) as [r0|] eqn:Hk; cbn; [|done]. eauto. }
  split; [|done].
  pose proof (represents_barrier_count d' g' Hr') as Hb2.
  change (mi_barriers g') with (fst (MemoryStorage.sweep_barriers now (mi_barriers g))) in Hb2.
  clearbody g'. unfold MemoryStorage.sweep_expired.
  destruct (MemoryStorage.sweep_barriers now (mi_barriers g)) as [bs reaped]. cbn in *.
  rewrite S8, R8, (trel_hlen _ _ _ R2), (trel_hlen _ _ _ R3), (trel_hlen _ _ _ R4),
    (trel_hlen _ _ _ R5), (trel_hlen _ _ _ R6), (trel_hlen _ _ _ S2), (trel_hlen _ _ _ S3),
    (trel_hlen _ _ _ S4), (trel_hlen _ _ _ S5), (trel_hlen _ _ _ S6).
  fold (hlen (mi_replay_ids g)) (hlen (retain (fun e => now <? e) (mi_replay_ids g))). lia.
Qed.

(** *** Every method *)

(** What the columns have to be able to hold. *)
Definition fits {X} (op : StoreOp X) : Prop :=
  match op with
  | PutClient c => storable c
  | CompareAndSwapClient e u => storable e /\ storable u
  | DeleteClient _ w | RevokeTokenFamily _ w | RevokeConsent _ w => window_ok w
  | PutDeviceGrant x => grant_ok x
  | CompareAndSwapDeviceGrant e u => storable e /\ grant_ok u
  | PutAuthorizationCode x => code_ok x
  | CompareAndSwapAuthorizationCode e u => storable e /\ code_ok u
  | PutPushedAuthorizationRequest x => pushed_ok x
  | PutToken x => token_ok x
  | PutRefreshToken x => refresh_ok x
  | RotateRefreshToken e s a n =>
      in_range (rt_grant_established_at e) /\ refresh_ok s /\ token_ok a
      /\ (forall x, n = Some x -> refresh_ok x)
  | PutConsent x | CompareAndSwapConsent _ x => consent_ok x
  | ClaimReplayId _ e => in_range e
  | SweepExpired now => in_range now
  | _ => True
  end.

(** Answers are compared by value; the order of [consents_for_subject] is nobody's
    promise; two failures agree whatever their text. *)
Definition same_answer {X} (op : StoreOp X) : result X StorageError -> result X StorageError -> Prop :=
  match op with
  | ConsentsForSubject _ => fun r r' =>
      match r, r' with Ok l, Ok l' => l ≡ₚ l' | Err _, Err _ => True | _, _ => False end
  | _ => agree
  end.

Ltac change_simulates :=
  match goal with
  | |- exists r d', alone ?p ?d = _ /\ _ /\ represents d' (snd ?m) => change (simulates p m d)
  end.

Lemma method_simulates {X} (op : StoreOp X) fuel d g :
  represents d g -> store_wf g -> fits op -> db_rows d < Z.of_nat fuel * SWEEP_BATCH_ROWS ->
  exists r d', alone (PostgresStorage.method fuel op) d = Some (r, d') /\
    same_answer op r (fst (MemoryStorage.step X op g)) /\
    represents d' (snd (MemoryStorage.step X op g)).
Proof.
  intros Hr Hwf Hfit Hfuel. destruct op; cbn [fits] in Hfit.
  27: { destruct (consents_for_subject_agree subject d g Hr) as (l & l' & Hp & Hm & Hl).
        cbn [PostgresStorage.method MemoryStorage.step]. rewrite Hm. exists (Ok l), d. done. }
  all: change_simulates; cbn [PostgresStorage.method MemoryStorage.step].
  - eapply simulates_select; [done|apply Hr|by intros r x Hx].
  - by apply put_client_simulates.
  - destruct Hfit. by apply compare_and_swap_client_simulates.
  - by apply delete_client_simulates.
  - by apply put_device_grant_simulates.
  - eapply simulates_select; [done|apply Hr|eauto with pg].
  - by apply find_device_grant_by_user_code_simulates.
  - by apply take_device_grant_simulates.
  - destruct Hfit. by apply compare_and_swap_device_grant_simulates.
  - by apply put_authorization_code_simulates.
  - destruct Hfit. by apply compare_and_swap_authorization_code_simulates.
  - eapply simulates_take; [apply _|apply Hr|eauto with pg|]. apply rep_set_codes; [done|apply trel_delete, Hr].
  - by apply put_pushed_simulates.
  - eapply simulates_take; [apply _|apply Hr|eauto with pg|]. apply rep_set_pushed; [done|apply trel_delete, Hr].
  - by apply put_token_simulates.
  - eapply simulates_select; [done|apply Hr|eauto with pg].
  - destruct (delete_pk_alone access_tokens access_token d) as (ws & Hst & Hws).
    eapply simulates_pool; [exact Hst|]. rewrite Hws. apply simulates_ret; [done|].
    apply rep_set_tokens; [done|apply trel_delete, Hr].
  - by apply put_refresh_token_simulates.
  - eapply simulates_select; [done|apply Hr|eauto with pg].
  - destruct Hfit as (? & ? & ? & ?). by apply rotate_refresh_token_simulates.
  - eapply simulates_take; [apply _|apply Hr|eauto with pg|]. apply rep_set_refresh; [done|apply trel_delete, Hr].
  - by apply revoke_token_family_simulates.
  - by apply put_consent_simulates.
  - by apply compare_and_swap_consent_simulates.
  - eapply simulates_select; [done|apply Hr|eauto with pg].
  - by apply find_consent_simulates.
  - by apply revoke_consent_simulates.
  - by apply claim_replay_id_simulates.
  - by apply sweep_expired_simulates.
Qed.
End methods.

(** ** Sequences of calls *)
Section sequences.
Context `{PgRecords, PgOrder, !PgLaws}.

(** Turns that are enough for the sweep's loops. *)
Definition turns (d : Db) : nat := S (Z.to_nat (db_rows d)).
Lemma turns_enough d : db_rows d < Z.of_nat (turns d) * SWEEP_BATCH_ROWS.
Proof. unfold turns, SWEEP_BATCH_ROWS. lia. Qed.

Fixpoint pg_run (ops : list AnyOp) (d : Db) : option Db :=
  match ops with
  | [] => Some d
  | o :: ops =>
      match alone (PostgresStorage.method (turns d) (projT2 o)) d with
      | Some (_, d') => pg_run ops d'
      | None => None
      end
  end.

Definition fits_any (o : AnyOp) : Prop := fits (projT2 o).

Lemma pg_run_represents ops : forall d g,
  represents d g -> store_wf g -> Forall fits_any ops ->
  exists d', pg_run ops d = Some d' /\ represents d' (run_ops ops g) /\ store_wf (run_ops ops g).
Proof.
  induction ops as [|[X op] ops IH]; intros d g Hr Hwf Hfit; cbn; [eauto|].
  inversion Hfit as [|? ? Hop Hops]; subst.
  destruct (method_simulates op (turns d) d g Hr Hwf Hop (turns_enough d)) as (r & d' & Hp & _ & Hr').
  rewrite Hp. apply IH; [done| |done]. exact (store_wf_op (existT X op) g Hwf).
Qed.

(** C7. The PostgreSQL store implements the storage contract the in-memory store
    implements.  From an empty schema, after any sequence of storage calls, each run to
    its end on PostgreSQL, the next call ends, answers what [MemoryStorage] answers
    after the same sequence (under the hash order that meets newer consents first), and
    the tables it leaves represent the store [MemoryStorage] leaves: every upsert,
    conditional update, [DELETE .. RETURNING], cascade, barrier and swept batch has the
    effect of the method it implements, whatever order PostgreSQL scans its rows in. *)
Theorem postgres_refines_memory ops X (op : StoreOp X) :
  Forall fits_any ops -> fits op ->
  exists d r d', pg_run ops db_empty = Some d /\
    alone (PostgresStorage.method (turns d) op) d = Some (r, d') /\
    same_answer op r (fst (MemoryStorage.step X op (run_ops ops mi_empty))) /\
    represents d' (snd (MemoryStorage.step X op (run_ops ops mi_empty))).
Proof.
  intros Hops Hop.
  destruct (pg_run_represents ops db_empty mi_empty represents_empty store_wf_empty Hops)
    as (d & Hd & Hr & Hwf).
  destruct (method_simulates op (turns d) d _ Hr Hwf Hop (turns_enough d)) as (r & d' & Hp & Ha & Hr').
  by exists d, r, d'.
Qed.

(** ** Failures of the driver *)

(** A method stops at the first error it is given. *)
Inductive stops {A} : txn (result A StorageError) -> Prop :=
| stops_return r : stops (TReturn r)
| stops_exec X (st : Stmt X) k :
    (forall e, exists e', k (Err e) = TReturn (Err e')) -> (forall x, stops (k (Ok x))) ->
    stops (TExec st k)
| stops_locks mode keys k :
    (forall e, exists e', k (Err e) = TReturn (Err e')) -> stops (k (Ok tt)) ->
    stops (TLocks mode keys k)
| stops_commit k : (forall e, exists e', k (Err e) = Err e') -> stops (TCommit k)
| stops_rollback k : (forall e, exists e', k (Err e) = Err e') -> stops (TRollback k).

Lemma stops_run {A} (p : txn (result A StorageError)) : stops p ->
  forall fault n start seen r d',
  run_txn fault n p start seen false = (r, d') ->
  (exists e, r = Err e /\ d' = start) \/ in_txn p start seen = (r, d').
Proof.
  unfold in_txn. induction 1 as [r|X st k Herr Hok IH|mode keys k Herr Hok IH|k Herr|k Herr];
    intros fault n start seen r' d'; cbn.
  - by right.
  - unfold run_stmt. destruct (fault n) as [e|].
    + destruct (Herr e) as [e' ->]. cbn. intros [= <- <-]. eauto.
    + cbn. destruct (st (still seen)) as [[x ws]|e].
      * intros [Hl|Hrun]%IH; [by left|right]. rewrite <- Hrun. apply run_txn_any.
      * destruct (Herr e) as [e' ->]. by right.
  - destruct (fault n) as [e|]; cbn.
    + destruct (Herr e) as [e' ->]. cbn. intros [= <- <-]. eauto.
    + intros [Hl|Hrun]%IH; [by left|right]. rewrite <- Hrun. apply run_txn_any.
  - destruct (fault n) as [e|]; cbn; [|by right]. destruct (Herr e) as [e' ->].
    intros [= <- <-]. eauto.
  - destruct (fault n) as [e|]; cbn; [|by right]. destruct (Herr e) as [e' ->].
    intros [= <- <-]. eauto.
Qed.

Lemma stops_exec' {X A} op (st : Stmt X) (k : X -> txn (result A StorageError)) :
  (forall x, stops (k x)) -> stops (exec op st A k).
Proof. intros Hk. constructor; eauto. Qed.
Lemma stops_shared {A} op c f s (k : unit -> txn (result A StorageError)) :
  stops (k tt) -> stops (PostgresStorage.lock_barrier_scopes op c f s A k).
Proof. intros Hk. constructor; eauto. Qed.
Lemma stops_exclusive {A} op key (k : unit -> txn (result A StorageError)) :
  stops (k tt) -> stops (PostgresStorage.lock_barrier_scope_exclusive op key A k).
Proof. intros Hk. constructor; eauto. Qed.
Lemma stops_try {X A} (r : result X StorageError) (k : X -> txn (result A StorageError)) :
  (forall x, stops (k x)) -> stops (try r A k).
Proof. intros Hk. destruct r; [apply Hk|constructor]. Qed.
Lemma stops_write_token {A} t (k : unit -> txn (result A StorageError)) :
  (forall x, stops (k x)) -> stops (PostgresStorage.write_token t A k).
Proof. intros Hk. apply stops_try. intros v. apply stops_exec'. auto. Qed.
Lemma stops_write_record {A} t (k : unit -> txn (result A StorageError)) :
  (forall x, stops (k x)) -> stops (PostgresStorage.write_record t A k).
Proof. intros Hk. apply stops_try. intros v. apply stops_exec'. auto. Qed.
Lemma stops_commit' {A} op (a : A) : stops (commit op a).
Proof. constructor. eauto. Qed.
Lemma stops_rollback' {A} op (a : A) : stops (rollback op a).
Proof. constructor. eauto. Qed.
Lemma stops_delete_each {A} op stmts : forall n (k : Z -> txn (result A StorageError)),
  (forall x, stops (k x)) -> stops (PostgresStorage.delete_each op stmts n A k).
Proof.
  induction stmts as [|st stmts IH]; intros n k Hk; cbn [PostgresStorage.delete_each]; [done|].
  apply stops_exec'. auto.
Qed.
Lemma stops_record_barrier {A} op sc c f s w (k : unit -> txn (result A StorageError)) :
  (forall x, stops (k x)) -> stops (PostgresStorage.pg_record_barrier op sc c f s w A k).
Proof. apply stops_exec'. Qed.
Lemma stops_covers {A} op c f s t (k : bool -> txn (result A StorageError)) :
  (forall x, stops (k x)) -> stops (PostgresStorage.barrier_covers op c f s t A k).
Proof. apply stops_exec'. Qed.
Hint Resolve stops_exec' stops_shared stops_exclusive stops_try stops_write_token stops_write_record
  stops_commit' stops_rollback' stops_delete_each stops_record_barrier stops_covers : pg.

Definition is_sweep {X} (op : StoreOp X) : bool := match op with SweepExpired _ => true | _ => false end.

(** Every method but the sweep is one statement, or one transaction that stops at the
    first error. *)
Definition one_event {A} (p : sql (result A StorageError)) : Prop :=
  match p with
  | SRet _ => True
  | SAuto st k => (forall e, exists e', k (Err e) = SRet (Err e')) /\ (forall x, exists r, k (Ok x) = SRet r)
  | SBegin failed body => (forall e, exists e', failed e = Err e') /\ stops body
  | SSpin => False
  end.

Lemma method_one_event {X} (op : StoreOp X) fuel :
  is_sweep op = false -> one_event (PostgresStorage.method fuel op).
Proof.
  intros Hs. destruct op; try done; cbn [PostgresStorage.method].
  all: try (unfold PostgresStorage.pg_put_client, PostgresStorage.pg_compare_and_swap_client,
    PostgresStorage.pg_put_device_grant, PostgresStorage.pg_compare_and_swap_device_grant,
    PostgresStorage.pg_put_authorization_code, PostgresStorage.pg_compare_and_swap_authorization_code,
    PostgresStorage.pg_put_pushed_authorization_request, PostgresStorage.pg_put_consent;
    repeat match goal with |- context [or_return ?r _] => destruct r; cbn [or_return]; [|done] end).
  all: try (split; [by eauto|eauto]).
  - repeat (apply stops_exclusive || apply stops_record_barrier || apply stops_exec' ||
      apply stops_delete_each || apply stops_commit' || intros ?).
  - apply stops_shared, stops_covers. intros []; auto with pg.
  - apply stops_shared, stops_covers. intros []; auto with pg.
  - apply stops_shared, stops_covers. intros []; auto with pg.
  - apply stops_shared, stops_covers. intros []; [auto with pg|]. apply stops_exec'. intros row.
    apply stops_try. intros cur. destruct (_ != _); [auto with pg|].
    apply stops_write_record. intros _. apply stops_write_token. intros _.
    destruct next; auto with pg.
  - apply stops_exclusive, stops_record_barrier. intros _. apply stops_delete_each. auto with pg.
  - apply stops_exclusive, stops_exec'. intros live. apply stops_try. intros rec.
    destruct rec, expected; try destruct (_ == _); auto with pg;
      apply stops_try; intros v; apply stops_exec'; auto with pg.
  - apply stops_exec'. intros [row|]; [|auto with pg]. apply stops_exclusive, stops_record_barrier.
    intros _. apply stops_delete_each. auto with pg.
Qed.

(** C32. A failure of the database or the driver at any round trip (connection, statement,
    advisory lock, commit or rollback) leaves no half of a storage call behind: a call
    of any method but the sweep either answers an error and leaves every table as it
    was, or has exactly the effect and the answer it has without failures. *)
Theorem failed_call_changes_nothing X (op : StoreOp X) fault fuel d r d' :
  is_sweep op = false ->
  run_sql fault 0 (PostgresStorage.method fuel op) d = Some (r, d') ->
  ((exists e, r = Err e) /\ d' = d) \/ alone (PostgresStorage.method fuel op) d = Some (r, d').
Proof.
  intros Hs Hrun. pose proof (method_one_event op fuel Hs) as Hev.
  destruct (PostgresStorage.method fuel op) as [a|Y st k|failed body|]; cbn in Hev, Hrun.
  - by right.
  - destruct Hev as [Herr Hok]. unfold run_stmt in Hrun. unfold alone; cbn. unfold run_stmt; cbn.
    destruct (fault 0%nat) as [e|].
    + destruct (Herr e) as [e' He]. rewrite He in Hrun. cbn in Hrun. simplify_eq. left. eauto.
    + right. destruct (st (still d)) as [[x ws]|e].
      * destruct (Hok x) as [r0 Hr0]. by rewrite Hr0 in Hrun |- *.
      * destruct (Herr e) as [e' He]. by rewrite He in Hrun |- *.
  - destruct Hev as [Hfail Hbody]. destruct (fault 0%nat) as [e|].
    + injection Hrun as <- <-. destruct (Hfail e) as [e' ->]. left. eauto.
    + injection Hrun as Hrun. apply stops_run in Hrun; [|done]. destruct Hrun as [(e & -> & ->)|Hrun].
      * left. eauto.
      * right. unfold alone. cbn. f_equal. rewrite <- Hrun. apply run_txn_any.
  - done.
Qed.
End sequences.

(** ** Witnesses *)
Section witnesses.
#[local] Existing Instances boxed_json boxed_records boxed_order boxed_laws.

Lemma boxed_token (t : IssuedToken) : storable t. Proof. by apply (boxed_keeps _ BxToken). Qed.
Lemma boxed_refresh (t : RefreshTokenRecord) : storable t. Proof. by apply (boxed_keeps _ BxRefresh). Qed.
Lemma boxed_consent (t : ConsentRecord) : storable t. Proof. by apply (boxed_keeps _ BxConsent). Qed.
Lemma boxed_client (t : Client) : storable t. Proof. by apply (boxed_keeps _ BxClient). Qed.

Definition demo_consent : ConsentRecord := {|
  cr_consent_id := "c1"; cr_client_id := "app"; cr_subject := "alice"; cr_scope := ["read"];
  cr_resource := []; cr_granted_at := from_secs 5; cr_authentication := None |}.

(** A consent, a token under it, the withdrawal, a sweep; then the token again. *)
Definition demo_calls : list AnyOp :=
  [any (PutConsent demo_consent); any (PutToken (demo_token "at1" "fam"));
   any (PutRefreshToken (demo_refresh "rt1" "fam")); any (RevokeConsent "c1" demo_window);
   any (SweepExpired (from_secs 100))].

Lemma demo_calls_fit : Forall fits_any demo_calls.
Proof.
  repeat constructor; try done; try apply boxed_consent; try apply boxed_token; apply boxed_refresh.
Qed.

Lemma postgres_refines_memory_witness :
  exists d r d', pg_run demo_calls db_empty = Some d /\
    alone (PostgresStorage.method (turns d) (PutToken (demo_token "at1" "fam"))) d = Some (r, d') /\
    same_answer (PutToken (demo_token "at1" "fam")) r (Ok RefusedRevoked) /\
    represents d' (snd (MemoryStorage.step WriteOutcome (PutToken (demo_token "at1" "fam"))
                          (run_ops demo_calls mi_empty))).
Proof.
  destruct (postgres_refines_memory demo_calls WriteOutcome (PutToken (demo_token "at1" "fam")) demo_calls_fit)
    as (d & r & d' & Hd & Hr & Ha & Hrep).
  { split; [apply boxed_token|done]. }
  exists d, r, d'. split_and!; [exact Hd|exact Hr| |exact Hrep].
  replace (fst (MemoryStorage.step _ (PutToken (demo_token "at1" "fam")) (run_ops demo_calls mi_empty)))
    with (Ok RefusedRevoked : result WriteOutcome StorageError) in Ha by (vm_compute; reflexivity).
  exact Ha.
Defined.

(** The third round trip of an issuance, the insert, times out. *)
Lemma failed_call_changes_nothing_witness :
  run_sql (fun n => if (n =? 3)%nat then Some PoolTimedOut else None) 0
    (PostgresStorage.method 1 (PutToken (demo_token "at1" "fam"))) db_empty =
    Some (Err (db "write_token" PoolTimedOut), db_empty) /\
  (((exists e, Err (db "write_token" PoolTimedOut) = Err (A := WriteOutcome) e) /\ db_empty = db_empty) \/
   alone (PostgresStorage.method 1 (PutToken (demo_token "at1" "fam"))) db_empty =
     Some (Err (db "write_token" PoolTimedOut), db_empty)).
Proof.
  assert (Hrun : run_sql (fun n => if (n =? 3)%nat then Some PoolTimedOut else None) 0
    (PostgresStorage.method 1 (PutToken (demo_token "at1" "fam"))) db_empty =
    Some (Err (db "write_token" PoolTimedOut), db_empty)) by reflexivity.
  split; [exact Hrun|].
  exact (failed_call_changes_nothing WriteOutcome (PutToken (demo_token "at1" "fam")) _ 1 db_empty _ db_empty
           eq_refl Hrun).
Defined.
End witnesses.
