(* ===== verification/PgRaces.v ===== *)
(** * Storage calls in flight together

    Many connections run methods of [PostgresStorage] against one database at READ
    COMMITTED.  A step of a connection is a round trip, or the moment a statement that
    was waiting reaches its rows: it starts with a snapshot of what is committed, and
    ends later, on what is committed then, once no other transaction holds a row it has
    to change.  A transaction's writes stay its own until it commits; advisory locks are
    taken one key at a time and are held to the end of the transaction.  Any round trip
    may fail, and the answer of a commit may be lost. *)
From S2P Require Import Prelude Time Types Store StoreFacts Sql Postgres SqlFacts PgRep.
Local Open Scope Z_scope.

Section machine.
Context `{PgJson, PgOrder} {A : Type}.

Definition Locks : Type := list (LockMode * string).

Inductive thread : Type :=
| Rest (p : sql A)
| Auto {X : Type} (st : Stmt X) (k : result X SqlxError -> sql A) (taken : Db) (gone : RowId -> bool)
| InTxn (p : txn A) (ws : list Write) (aborted : bool) (locks : Locks)
| Exec {X : Type} (st : Stmt X) (k : result X SqlxError -> txn A) (ws : list Write) (locks : Locks)
    (taken : Db) (gone : RowId -> bool)
| Done (a : A).

(** The rows and the advisory locks a connection holds. *)
Definition own_writes (th : thread) : list Write :=
  match th with InTxn _ ws _ _ | Exec _ _ ws _ _ _ => ws | _ => [] end.
Definition held (th : thread) : Locks :=
  match th with InTxn _ _ _ l | Exec _ _ _ l _ _ => l | _ => [] end.

Definition row_locked (others : list thread) (i : RowId) : bool :=
  existsb (fun th => locks_row (own_writes th) i) others.
Definition rows_free (others : list thread) (ws : list Write) : Prop :=
  Forall (fun w => row_locked others (locked_row w) = false) ws.

Definition conflicts (a b : LockMode * string) : bool :=
  (hashtext (snd a) =? hashtext (snd b)) && ((fst a == Exclusive) || (fst b == Exclusive)).
Definition lock_free (others : list thread) (l : LockMode * string) : Prop :=
  Forall (fun th => Forall (fun l' => conflicts l l' = false) (held th)) others.

Definition seen (taken : Db) (now : Db) (gone : RowId -> bool) (others : list thread) (ws : list Write)
  : Snapshot :=
  {| sn_then := apply_writes ws taken; sn_now := apply_writes ws now; sn_gone := gone;
     sn_locked := row_locked others |}.

Definition nothing_gone : RowId -> bool := fun _ => false.

(** One step of one connection beside [others]: the database before and after, the
    connection before and after, and the writes it committed. *)
Inductive thread_step (others : list thread) : Db -> thread -> Db -> thread -> list Write -> Prop :=
| st_ret d a : thread_step others d (Rest (SRet a)) d (Done a) []
| st_auto_start d X (st : Stmt X) k :
    thread_step others d (Rest (SAuto st k)) d (Auto st k d nothing_gone) []
| st_auto_run d X (st : Stmt X) k taken gone x ws :
    st (seen taken d gone others []) = Ok (x, ws) -> rows_free others ws ->
    thread_step others d (Auto st k taken gone) (apply_writes ws d) (Rest (k (Ok x))) ws
| st_auto_err d X (st : Stmt X) k taken gone e :
    st (seen taken d gone others []) = Err e ->
    thread_step others d (Auto st k taken gone) d (Rest (k (Err e))) []
| st_auto_fault d X (st : Stmt X) k taken gone e :
    thread_step others d (Auto st k taken gone) d (Rest (k (Err e))) []
| st_begin d f body : thread_step others d (Rest (SBegin f body)) d (InTxn body [] false []) []
| st_begin_fault d f body e : thread_step others d (Rest (SBegin f body)) d (Done (f e)) []
| st_exec_start d X (st : Stmt X) k ws l :
    thread_step others d (InTxn (TExec st k) ws false l) d (Exec st k ws l d nothing_gone) []
| st_exec_run d X (st : Stmt X) k ws l taken gone x ws' :
    st (seen taken d gone others ws) = Ok (x, ws') -> rows_free others ws' ->
    thread_step others d (Exec st k ws l taken gone) d (InTxn (k (Ok x)) (ws ++ ws') false l) []
| st_exec_err d X (st : Stmt X) k ws l taken gone e :
    st (seen taken d gone others ws) = Err e ->
    thread_step others d (Exec st k ws l taken gone) d (InTxn (k (Err e)) ws true l) []
| st_exec_fault d X (st : Stmt X) k ws l taken gone e :
    thread_step others d (Exec st k ws l taken gone) d (InTxn (k (Err e)) ws true l) []
| st_exec_aborted d X (st : Stmt X) k ws l :
    thread_step others d (InTxn (TExec st k) ws true l) d
      (InTxn (k (Err IN_FAILED_TRANSACTION)) ws true l) []
| st_lock d m key keys k ws l :
    lock_free others (m, key) ->
    thread_step others d (InTxn (TLocks m (key :: keys) k) ws false l) d
      (InTxn (TLocks m keys k) ws false ((m, key) :: l)) []
| st_locked d m k ws l :
    thread_step others d (InTxn (TLocks m [] k) ws false l) d (InTxn (k (Ok tt)) ws false l) []
| st_lock_fault d m keys k ws l e :
    thread_step others d (InTxn (TLocks m keys k) ws false l) d (InTxn (k (Err e)) ws true l) []
| st_lock_aborted d m keys k ws l :
    thread_step others d (InTxn (TLocks m keys k) ws true l) d
      (InTxn (k (Err IN_FAILED_TRANSACTION)) ws true l) []
| st_commit d k ws l :
    thread_step others d (InTxn (TCommit k) ws false l) (apply_writes ws d) (Done (k (Ok tt))) ws
| st_commit_lost d k ws l e :
    thread_step others d (InTxn (TCommit k) ws false l) (apply_writes ws d) (Done (k (Err e))) ws
| st_commit_aborted d k ws l :
    thread_step others d (InTxn (TCommit k) ws true l) d (Done (k (Ok tt))) []
| st_commit_fault d k ws ab l e :
    thread_step others d (InTxn (TCommit k) ws ab l) d (Done (k (Err e))) []
| st_rollback d k ws ab l r : thread_step others d (InTxn (TRollback k) ws ab l) d (Done (k r)) []
| st_drop d a ws ab l : thread_step others d (InTxn (TReturn a) ws ab l) d (Done a) [].

(** A statement in flight notices the rows a commit removes. *)
Definition notice (ws : list Write) (th : thread) : thread :=
  match th with
  | Auto st k taken gone => Auto st k taken (fun i => gone i || removes ws i)
  | Exec st k own l taken gone => Exec st k own l taken (fun i => gone i || removes ws i)
  | _ => th
  end.

Inductive pool_step : Db * list thread -> Db * list thread -> Prop :=
| pool_step_at d d' before th th' after ws :
    thread_step (before ++ after) d th d' th' ws ->
    pool_step (d, before ++ th :: after)
      (d', map (notice ws) before ++ th' :: map (notice ws) after).

Inductive reaches : Db * list thread -> Db * list thread -> Prop :=
| reaches_refl s : reaches s s
| reaches_step s1 s2 s3 : reaches s1 s2 -> pool_step s2 s3 -> reaches s1 s3.
End machine.
Arguments thread {_} A.

(** ** Reasoning about one connection at a time

    [Inv] is what every committed database satisfies.  [Rely L d gone d'] is what a
    connection holding the locks [L] may assume of what the others commit; [Guar L d ws]
    is what it owes them when it commits [ws]. *)
Section rely_guarantee.
Context `{PgJson, PgOrder} {A : Type}.
Context (Inv : Db -> Prop).
Context (Rely : Locks -> Db -> (RowId -> bool) -> Db -> Prop).
Context (Guar : Locks -> Db -> list Write -> Prop).
Implicit Types (d : Db) (L : Locks) (th : thread A).

Definition compatible (L L' : Locks) : Prop :=
  forall a b, a ∈ L -> b ∈ L' -> conflicts a b = false.

Class Protocol : Prop := {
  rely_refl : forall L d, Rely L d nothing_gone d;
  rely_trans : forall L d1 g1 d2 g2 d3, Rely L d1 g1 d2 -> Rely L d2 g2 d3 ->
    Rely L d1 (fun i => g1 i || g2 i) d3;
  rely_weaken : forall L L' d g d', L ⊆ L' -> Rely L' d g d' -> Rely L d g d';
  guar_inv : forall L d ws, Inv d -> Guar L d ws -> Inv (apply_writes ws d);
  guar_rely : forall L L' d ws, Inv d -> Guar L d ws -> compatible L L' ->
    Rely L' d (removes ws) (apply_writes ws d);
  guar_nil : forall L d, Guar L d [];
}.
Context `{!Protocol}.

(** What has to be shown of the rest of a transaction that has written [ws], holds [L]
    and was last known to be at [d]. *)
Fixpoint txn_safe {B} (p : txn B) (L : Locks) (ws : list Write) (d : Db) : Prop :=
  match p with
  | TReturn _ | TRollback _ => True
  | TExec st k =>
      forall d1 g1 d2 g2 locked x ws',
        Rely L d g1 d1 -> Inv d1 -> Rely L d1 g2 d2 -> Inv d2 ->
        st {| sn_then := apply_writes ws d1; sn_now := apply_writes ws d2; sn_gone := g2;
              sn_locked := locked |} = Ok (x, ws') ->
        txn_safe (k (Ok x)) L (ws ++ ws') d2
  | TLocks m keys k =>
      forall d1 g1, Rely L d g1 d1 -> Inv d1 ->
        txn_safe (k (Ok tt)) (rev (map (pair m) keys) ++ L) ws d1
  | TCommit _ => forall d1 g1, Rely L d g1 d1 -> Inv d1 -> Guar L d1 ws
  end.

Fixpoint sql_safe {B} (p : sql B) : Prop :=
  match p with
  | SRet _ | SSpin => True
  | SAuto st k =>
      (forall s x ws, Inv (sn_then s) -> Inv (sn_now s) -> st s = Ok (x, ws) -> Guar [] (sn_now s) ws) /\
      (forall r, sql_safe (k r))
  | SBegin _ body => forall d, Inv d -> txn_safe body [] [] d
  end.

Lemma txn_safe_stable {B} (p : txn B) L ws d g d' :
  txn_safe p L ws d -> Rely L d g d' -> txn_safe p L ws d'.
Proof.
  destruct p as [a|X st k|m keys k|k|k]; cbn; try done.
  - intros Hs Hd d1 g1 d2 g2 locked x ws' Hq1 I1 Hq2 I2 Hst.
    eapply (Hs d1); eauto using rely_trans.
  - intros Hs Hd d1 g1 Hq1 I1. eapply Hs; eauto using rely_trans.
  - intros Hs Hd d1 g1 Hq1 I1. eapply Hs; eauto using rely_trans.
Qed.

(** What a connection carries between two steps, at the committed database [d]. *)
Definition thread_safe (d : Db) (th : thread A) : Prop :=
  match th with
  | Rest p => sql_safe p
  | Auto st k taken gone => Inv taken /\ sql_safe (SAuto st k)
  | InTxn p ws true L => True
  | InTxn p ws false L => txn_safe p L ws d
  | Exec st k ws L taken gone => Inv taken /\ Rely L taken gone d /\ txn_safe (TExec st k) L ws taken
  | Done _ => True
  end.

Lemma seen_alone (st_then st_now : Db) g others :
  seen (A := A) st_then st_now g others [] =
    {| sn_then := st_then; sn_now := st_now; sn_gone := g; sn_locked := row_locked others |}.
Proof. done. Qed.

Lemma thread_step_safe others d th d' th' ws :
  Inv d -> thread_safe d th -> thread_step others d th d' th' ws ->
  Inv d' /\ thread_safe d' th' /\ Guar (held th) d ws /\ d' = apply_writes ws d.
Proof.
  intros Hi Hs Hstep.
  assert (Hnil : forall L, Guar L d []) by (intros; apply guar_nil).
  destruct Hstep; cbn in *; try (split_and!; done).
  - split_and!; try done; by destruct Hs.
  - destruct Hs as [Ht [Hg Hk]].
    assert (Hgu : Guar [] d ws) by (apply (Hg (seen taken d gone others []) x); done).
    split_and!; try done. by eapply guar_inv.
  - destruct Hs as [_ [_ Hk]]. split_and!; done.
  - destruct Hs as [_ [_ Hk]]. split_and!; done.
  - split_and!; try done. by apply Hs.
  - split_and!; try done. apply rely_refl.
  - destruct Hs as (Ht & Hr & Hsafe). split_and!; try done.
    eapply (Hsafe taken nothing_gone d gone); eauto using rely_refl.
  - split_and!; try done. intros d1 g1 Hq1 I1. cbn [map rev] in Hs.
    specialize (Hs d1 g1). rewrite <- app_assoc in Hs. apply Hs; [|done].
    eapply rely_weaken; [|exact Hq1]. intros y Hy. set_solver.
  - split_and!; try done. eapply (Hs d nothing_gone); [apply rely_refl|done].
  - assert (Hgu : Guar l d ws) by (apply (Hs d nothing_gone); [apply rely_refl|done]).
    split_and!; try done. by eapply guar_inv.
  - assert (Hgu : Guar l d ws) by (apply (Hs d nothing_gone); [apply rely_refl|done]).
    split_and!; try done. by eapply guar_inv.
Qed.

Lemma thread_safe_stable d ws th d' L :
  thread_safe d th -> Inv d -> Guar L d ws -> compatible L (held th) -> d' = apply_writes ws d ->
  thread_safe d' (notice ws th).
Proof.
  intros Hs Hi Hg Hc ->. pose proof (guar_rely L (held th) d ws Hi Hg Hc) as Hr.
  destruct th as [p|X st k taken gone|p own ab l|X st k own l taken gone|a]; cbn in *; try done.
  - destruct ab; [done|]. by eapply txn_safe_stable.
  - destruct Hs as (Ht & Hrel & Hsafe). split_and!; try done. by eapply rely_trans.
Qed.

Lemma conflicts_sym (a b : LockMode * string) : conflicts a b = conflicts b a.
Proof. unfold conflicts. rewrite Z.eqb_sym. f_equal. apply orb_comm. Qed.

(** No two connections hold locks that conflict. *)
Definition pool_compatible (pool : list (thread A)) : Prop :=
  forall i j th th', pool !! i = Some th -> pool !! j = Some th' -> i <> j ->
    compatible (held th) (held th').

Lemma thread_step_locks others d th d' th' ws :
  thread_step others d th d' th' ws ->
  held th' ⊆ held th \/ exists l, held th' = l :: held th /\ lock_free others l.
Proof. destruct 1; cbn; try (left; set_solver). right. eauto. Qed.

Lemma held_notice ws (th : thread A) : held (notice ws th) = held th.
Proof. by destruct th. Qed.

Lemma middle_lookup {B} (f : B -> B) (before after : list B) (x y : B) j z :
  (map f before ++ y :: map f after) !! j = Some z ->
  (j = List.length before /\ z = y) \/
  (j <> List.length before /\ exists z0, (before ++ x :: after) !! j = Some z0 /\ z = f z0 /\
     z0 ∈ before ++ after).
Proof.
  intros Hj. destruct (decide (j = List.length before)) as [->|Hne].
  - left. rewrite list_lookup_middle in Hj by (by rewrite length_map). naive_solver.
  - right. split; [done|]. apply lookup_app_Some in Hj as [Hb|[Hge Ha]].
    + rewrite list_lookup_fmap in Hb. destruct (before !! j) as [z0|] eqn:Hz; [|done].
      cbn in Hb. simplify_eq. exists z0. split_and!; [by apply lookup_app_l_Some|done|].
      apply elem_of_app. left. by eapply list_elem_of_lookup_2.
    + rewrite length_map in *. destruct (j - List.length before)%nat as [|n] eqn:Hn; [lia|].
      change ((f <$> after) !! n = Some z) in Ha. rewrite list_lookup_fmap in Ha. destruct (after !! n) as [z0|] eqn:Hz; [|done].
      cbn in Ha. simplify_eq. exists z0. split_and!; [|done|].
      * rewrite lookup_app_r by lia. rewrite Hn. done.
      * apply elem_of_app. right. by eapply list_elem_of_lookup_2.
Qed.

Lemma pool_step_compatible d pool d' pool' :
  pool_step (d, pool) (d', pool') -> pool_compatible pool -> pool_compatible pool'.
Proof.
  intros Hstep Hc. inversion Hstep as [? ? before th th' after ws Hth]; subst.
  apply thread_step_locks in Hth.
  assert (Hmid : (before ++ th :: after) !! List.length before = Some th)
    by (by apply list_lookup_middle).
  assert (Hnew : forall z0, z0 ∈ before ++ after -> (forall a, a ∈ held th -> forall b, b ∈ held z0 ->
            conflicts a b = false) -> compatible (held th') (held z0)).
  { intros z0 Hz0 Hold a b Ha Hb. destruct Hth as [Hsub|(l & Hl & Hfree)]; [set_solver|].
    rewrite Hl in Ha. apply elem_of_cons in Ha as [->|Ha]; [|eauto].
    unfold lock_free in Hfree. rewrite Forall_forall in Hfree. specialize (Hfree z0 Hz0).
    rewrite Forall_forall in Hfree. auto. }
  assert (Hsym : forall L1 L2, compatible L1 L2 -> compatible L2 L1).
  { intros L1 L2 H12 a b Ha Hb. rewrite conflicts_sym. by apply H12. }
  intros i j z1 z2 Hq1 Hq2 Hij.
  apply (middle_lookup _ _ _ th) in Hq1 as [[-> ->]|(Hi & y1 & Hy1 & -> & Hin1)];
    apply (middle_lookup _ _ _ th) in Hq2 as [[-> ->]|(Hj & y2 & Hy2 & -> & Hin2)].
  - done.
  - rewrite held_notice. apply Hnew; [done|]. intros a Ha b Hb. by eapply (Hc _ _ _ _ Hmid Hy2).
  - rewrite held_notice. apply Hsym, Hnew; [done|]. intros a Ha b Hb. by eapply (Hc _ _ _ _ Hmid Hy1).
  - rewrite !held_notice. by eapply Hc.
Qed.

Definition pool_safe (s : Db * list (thread A)) : Prop :=
  Inv (fst s) /\ Forall (thread_safe (fst s)) (snd s) /\ pool_compatible (snd s).

Lemma pool_step_safe s s' : pool_safe s -> pool_step s s' -> pool_safe s'.
Proof.
  intros (Hi & Hs & Hc) Hstep. destruct s as [d pool], s' as [d' pool']. cbn in *.
  pose proof (pool_step_compatible _ _ _ _ Hstep Hc) as Hc'.
  inversion Hstep as [? ? before th th' after ws Hth]; subst.
  apply Forall_app in Hs as [Hb [Hx Ha]%Forall_cons].
  destruct (thread_step_safe _ _ _ _ _ _ Hi Hx Hth) as (Hi' & Hx' & Hg & ->).
  split_and!; [done| |done]. cbn.
  assert (Hmid : (before ++ th :: after) !! List.length before = Some th)
    by (by apply list_lookup_middle).
  apply Forall_forall. intros z Hz. apply list_elem_of_lookup_1 in Hz as [j Hj].
  apply (middle_lookup _ _ _ th) in Hj as [[_ ->]|(Hne & z0 & Hz0 & -> & Hin)]; [done|].
  apply (thread_safe_stable d ws z0 _ (held th)); [|done|exact Hg| |done].
  - apply elem_of_app in Hin as [Hin|Hin]; rewrite Forall_forall in *; auto.
  - eapply Hc; eauto.
Qed.

(** Every database that calls in flight together can commit satisfies the invariant. *)
Lemma reaches_safe s s' : reaches s s' -> pool_safe s -> pool_safe s'.
Proof. induction 1; eauto using pool_step_safe. Qed.

Lemma start_safe d (programs : list (sql A)) :
  Inv d -> Forall sql_safe programs -> pool_safe (d, map Rest programs).
Proof.
  intros Hi Hp. split_and!; [done| |].
  - cbn. apply Forall_fmap. eapply Forall_impl; [exact Hp|]. done.
  - intros i j th th' Hth Hth' _. cbn in *. rewrite !list_lookup_fmap in *.
    destruct (programs !! i); [|done]. cbn in Hth. simplify_eq.
    intros a b Ha. cbn in Ha. by apply elem_of_nil in Ha.
Qed.
End rely_guarantee.

(** ** Schedules

    The steps without failures, as a function: which connection moves is the only
    choice. *)
Section schedules.
Context `{PgJson, PgOrder} {A : Type}.
Implicit Types (d : Db) (th : thread A).

Definition rows_freeb (others : list (thread A)) (ws : list Write) : bool :=
  forallb (fun w => negb (row_locked others (locked_row w))) ws.
Definition lock_freeb (others : list (thread A)) (l : LockMode * string) : bool :=
  forallb (fun th => forallb (fun l' => negb (conflicts l l')) (held th)) others.

Definition next_step (others : list (thread A)) d th : option (Db * thread A * list Write) :=
  match th with
  | Rest (SRet a) => Some (d, Done a, [])
  | Rest (SAuto st k) => Some (d, Auto st k d nothing_gone, [])
  | Rest (SBegin f body) => Some (d, InTxn body [] false [], [])
  | Rest SSpin => None
  | Auto st k taken gone =>
      match st (seen taken d gone others []) with
      | Ok (x, ws) => if rows_freeb others ws then Some (apply_writes ws d, Rest (k (Ok x)), ws) else None
      | Err e => Some (d, Rest (k (Err e)), [])
      end
  | InTxn (TExec st k) ws false l => Some (d, Exec st k ws l d nothing_gone, [])
  | InTxn (TExec st k) ws true l => Some (d, InTxn (k (Err IN_FAILED_TRANSACTION)) ws true l, [])
  | InTxn (TLocks m (key :: keys) k) ws false l =>
      if lock_freeb others (m, key) then Some (d, InTxn (TLocks m keys k) ws false ((m, key) :: l), [])
      else None
  | InTxn (TLocks m [] k) ws false l => Some (d, InTxn (k (Ok tt)) ws false l, [])
  | InTxn (TLocks m keys k) ws true l => Some (d, InTxn (k (Err IN_FAILED_TRANSACTION)) ws true l, [])
  | InTxn (TCommit k) ws false l => Some (apply_writes ws d, Done (k (Ok tt)), ws)
  | InTxn (TCommit k) ws true l => Some (d, Done (k (Ok tt)), [])
  | InTxn (TRollback k) ws ab l => Some (d, Done (k (Ok tt)), [])
  | InTxn (TReturn a) ws ab l => Some (d, Done a, [])
  | Exec st k ws l taken gone =>
      match st (seen taken d gone others ws) with
      | Ok (x, ws') => if rows_freeb others ws' then Some (d, InTxn (k (Ok x)) (ws ++ ws') false l, []) else None
      | Err e => Some (d, InTxn (k (Err e)) ws true l, [])
      end
  | Done _ => None
  end.

Lemma rows_freeb_spec others ws : rows_freeb others ws = true -> rows_free others ws.
Proof.
  unfold rows_freeb, rows_free. rewrite forallb_forall, Forall_forall. intros Hf w Hw%list_elem_of_In.
  specialize (Hf w Hw). by apply negb_true_iff in Hf.
Qed.
Lemma lock_freeb_spec others l : lock_freeb others l = true -> lock_free others l.
Proof.
  unfold lock_freeb, lock_free. rewrite forallb_forall, Forall_forall. intros Hf th Hth%list_elem_of_In.
  specialize (Hf th Hth). rewrite forallb_forall in Hf. apply Forall_forall. intros l' Hl'%list_elem_of_In.
  specialize (Hf l' Hl'). by apply negb_true_iff in Hf.
Qed.

Lemma next_step_sound others d th d' th' ws :
  next_step others d th = Some (d', th', ws) -> thread_step others d th d' th' ws.
Proof.
  unfold next_step. intros Hn.
  destruct th as [p|X st k taken gone|p own ab l|X st k own l taken gone|a].
  - destruct p; simplify_eq; constructor.
  - destruct (st _) as [[x w]|e] eqn:Hst; [destruct (rows_freeb others w) eqn:Hf; [|done]|];
      simplify_eq; econstructor; eauto using rows_freeb_spec.
  - destruct p as [a|X st k|m [|key keys] k|k|k]; destruct ab; simplify_eq; try constructor.
    destruct (lock_freeb others (m, key)) eqn:Hf; [|done]. simplify_eq. constructor.
    by apply lock_freeb_spec.
  - destruct (st _) as [[x w]|e] eqn:Hst; [destruct (rows_freeb others w) eqn:Hf; [|done]|];
      simplify_eq; econstructor; eauto using rows_freeb_spec.
  - done.
Qed.

(** The connection at each position of the schedule moves; one that has to wait stops
    the schedule. *)
Fixpoint run_schedule (schedule : list nat) (s : Db * list (thread A)) : option (Db * list (thread A)) :=
  match schedule with
  | [] => Some s
  | i :: schedule =>
      let (d, pool) := s in
      let before := take i pool in
      match drop i pool with
      | th :: after =>
          match next_step (before ++ after) d th with
          | Some (d', th', ws) =>
              run_schedule schedule (d', map (notice ws) before ++ th' :: map (notice ws) after)
          | None => None
          end
      | [] => None
      end
  end.

Lemma reaches_trans (s1 s2 s3 : Db * list (thread A)) : reaches s1 s2 -> reaches s2 s3 -> reaches s1 s3.
Proof. intros H12. induction 1; eauto using reaches. Qed.

Lemma run_schedule_reaches schedule : forall s s', run_schedule schedule s = Some s' -> reaches s s'.
Proof.
  induction schedule as [|i schedule IH]; intros [d pool] s'; cbn; [intros [= <-]; constructor|].
  destruct (drop i pool) as [|th after] eqn:Hd; [done|].
  destruct (next_step _ d th) as [[[d' th'] ws]|] eqn:Hn; [|done]. intros Hrun%IH.
  eapply reaches_trans; [|exact Hrun]. eapply reaches_step; [constructor|].
  rewrite <- (take_drop i pool) at 1. rewrite Hd. constructor. by apply next_step_sound.
Qed.
End schedules.

(** ** Answers of one type *)
Section maps.
Context `{PgJson}.
Fixpoint txn_map {A B} (f : A -> B) (p : txn A) : txn B :=
  match p with
  | TReturn a => TReturn (f a)
  | TExec st k => TExec st (fun r => txn_map f (k r))
  | TLocks m keys k => TLocks m keys (fun r => txn_map f (k r))
  | TCommit k => TCommit (fun r => f (k r))
  | TRollback k => TRollback (fun r => f (k r))
  end.
Fixpoint sql_map {A B} (f : A -> B) (p : sql A) : sql B :=
  match p with
  | SRet a => SRet (f a)
  | SAuto st k => SAuto st (fun r => sql_map f (k r))
  | SBegin failed body => SBegin (fun e => f (failed e)) (txn_map f body)
  | SSpin => SSpin
  end.
End maps.
