(* ===== verification/PgFinal.v ===== *)
(** * No interleaving brings a revoked credential back

    The invariant the advisory locks of [store.rs] protect: no committed access token,
    refresh token or pushed request is covered by a committed revocation barrier.  A
    guarded write holds the shared lock of every scope that could cover its record from
    before its check to its commit; a revocation holds the exclusive lock of its scope
    from before its barrier to its commit, so its cascade meets every row a write put
    there and no write commits behind it. *)
From S2P Require Import Prelude Time Codec Types Store StoreFacts Sql Postgres SqlFacts PgRep PgRaces.
Local Open Scope Z_scope.

Section final.
Context `{PgRecords, PgOrder, !PgLaws}.
Implicit Types (d : Db) (L : Locks) (ws : list Write).

(** ** Covering *)
Definition cov_client d (c : string) (t : Z) : bool :=
  is_some_and (oauth_as_revocation_barriers d !! barrier_key (BClient c)) (fun b =>
    (br_recorded_at_ns b >=? t) || is_none (oauth_as_clients d !! c)).
Definition cov_family d (f : string) : bool :=
  is_some (oauth_as_revocation_barriers d !! barrier_key (BTokenFamily f)).
Definition cov_consent d (c s : string) (t : Z) : bool :=
  is_some_and (oauth_as_revocation_barriers d !! barrier_key (BConsent c s)) (fun b =>
    br_recorded_at_ns b >=? t).

Definition revoked d (c : string) (f s : option string) (t : SystemTime) : Prop :=
  cov_client d c (to_nanos t) = true \/
  (exists f', f = Some f' /\ cov_family d f' = true) \/
  (exists s', s = Some s' /\ cov_consent d c s' (to_nanos t) = true).

Definition barriers_named d : Prop :=
  forall k r, oauth_as_revocation_barriers d !! k = Some r ->
    barrier_check k = true /\ exists b, k = barrier_key b.

Lemma exists_covering_spec d g locked now c f s t : barriers_named d ->
  exists b, PostgresStorage.exists_covering c (unwrap_or f "") (unwrap_or s "") (to_nanos t)
      {| sn_then := d; sn_now := now; sn_gone := g; sn_locked := locked |} = Ok (b, []) /\
    (b = true <-> revoked d c f s t).
Proof.
  intros Hn. eexists. split; [done|]. cbn. rewrite existsb_exists.
  setoid_rewrite <- list_elem_of_In. split.
  - intros ([k b] & Hin & Hcov). apply elem_of_map_to_list in Hin.
    destruct (Hn k b Hin) as [Hck [br ->]]. rewrite covers_key in Hcov.
    destruct br as [c'|f'|c' s'].
    + left. apply andb_true_iff in Hcov as [->%bool_decide_eq_true Hcov].
      unfold cov_client. by rewrite Hin.
    + right; left. bools. subst f'. destruct f as [f0|]; [|done]. exists f0. split; [done|].
      unfold cov_family. cbn [unwrap_or] in Hin. by rewrite Hin.
    + right; right. apply andb_true_iff in Hcov as [Hcov Ht]. bools. subst.
      destruct s as [s0|]; [|by destruct c; vm_compute in Hck]. exists s0. split; [done|].
      unfold cov_consent. cbn [unwrap_or] in Hin. rewrite Hin. by apply Z.geb_le.
  - intros [Hc|[(f0 & -> & Hc)|(s0 & -> & Hc)]].
    + apply is_some_and_true in Hc as (b & Hb & Hc).
      exists (barrier_key (BClient c), b). split; [by apply elem_of_map_to_list|].
      rewrite covers_key, bool_decide_true by done. done.
    + apply is_some_true in Hc as [b Hb].
      exists (barrier_key (BTokenFamily f0), b). split; [by apply elem_of_map_to_list|].
      rewrite covers_key. cbn. by rewrite bool_decide_true.
    + apply is_some_and_true in Hc as (b & Hb & Hc).
      exists (barrier_key (BConsent c s0), b). split; [by apply elem_of_map_to_list|].
      rewrite covers_key. cbn. by rewrite !bool_decide_true by done.
Qed.

(** ** The invariant *)
Definition token_kept d (r : TokenRow) : Prop :=
  exists x, r = token_row x (tk_payload r) /\ from_value (tk_payload r) = Some x /\
    ~ revoked d (it_client_id x) (it_family_id x) (it_subject x) (it_grant_established_at x).
Definition refresh_kept d (r : RefreshRow) : Prop :=
  exists x, r = refresh_row x (rf_payload r) /\ from_value (rf_payload r) = Some x /\
    ~ revoked d (rt_client_id x) (Some (rt_family_id x)) (rt_subject x) (rt_grant_established_at x).
Definition pushed_kept d (r : PushedRow) : Prop :=
  exists x, r = pushed_row x (pu_payload r) /\ from_value (pu_payload r) = Some x /\
    ~ revoked d (par_client_id x) None None (par_pushed_at x).

Record none_covered d : Prop := {
  nc_named : barriers_named d;
  nc_tokens : forall k r, oauth_as_access_tokens d !! k = Some r -> token_kept d r;
  nc_refresh : forall k r, oauth_as_refresh_tokens d !! k = Some r -> refresh_kept d r;
  nc_pushed : forall k r, oauth_as_pushed_requests d !! k = Some r -> pushed_kept d r;
}.

(** ** The locks *)
Definition ckey (c : string) : string := scope_key "client" c "".
Definition fkey (f : string) : string := scope_key "family" f "".
Definition skey (c s : string) : string := scope_key "consent" c s.

(** The rows of a scope. *)
Definition token_in (b : RevocationBarrier) (r : TokenRow) : Prop :=
  match b with
  | BClient c => tk_client_id r = c
  | BTokenFamily f => tk_family_id r = Some f
  | BConsent c s => tk_client_id r = c /\ tk_subject r = Some s
  end.
Definition refresh_in (b : RevocationBarrier) (r : RefreshRow) : Prop :=
  match b with
  | BClient c => rf_client_id r = c
  | BTokenFamily f => rf_family_id r = f
  | BConsent c s => rf_client_id r = c /\ rf_subject r = Some s
  end.
Definition pushed_in (b : RevocationBarrier) (r : PushedRow) : Prop :=
  match b with BClient c => pu_client_id r = c | _ => False end.
Definition bkey (b : RevocationBarrier) : string :=
  match b with BClient c => ckey c | BTokenFamily f => fkey f | BConsent c s => skey c s end.

(** Whether a barrier covers a grant established at [t]. *)
Definition cov d (b : RevocationBarrier) (t : Z) : bool :=
  match b with
  | BClient c => cov_client d c t
  | BTokenFamily f => cov_family d f
  | BConsent c s => cov_consent d c s t
  end.

(** The rows of [t] that satisfy [P] were there before, and were not removed since. *)
Definition kept {K R} `{Countable K} (t : Table K R) (P : R -> Prop) d (gone : RowId -> bool) d' : Prop :=
  forall k r, t_rows t d' !! k = Some r -> P r -> t_rows t d !! k = Some r /\ gone (row_id t k) = false.

(** What the others may do: under the lock of a scope, in any mode, nothing more is
    covered by it; under its exclusive lock, no row of it appears. *)
Record relies L d (gone : RowId -> bool) d' : Prop := {
  rl_cov : forall m b t, (m, bkey b) ∈ L -> cov d' b t = true -> cov d b t = true;
  rl_tokens : forall b, (Exclusive, bkey b) ∈ L -> kept access_tokens (token_in b) d gone d';
  rl_refresh : forall b, (Exclusive, bkey b) ∈ L -> kept refresh_tokens (refresh_in b) d gone d';
  rl_pushed : forall b, (Exclusive, bkey b) ∈ L -> kept pushed_requests (pushed_in b) d gone d';
}.

(** What a commit owes: what it newly covers it holds exclusively, and the rows it
    writes it holds the shared locks of. *)
Definition token_locked L (r : TokenRow) : Prop :=
  forall b, token_in b r -> (Shared, bkey b) ∈ L.
Definition refresh_locked L (r : RefreshRow) : Prop :=
  forall b, refresh_in b r -> (Shared, bkey b) ∈ L.
Definition pushed_locked L (r : PushedRow) : Prop :=
  forall b, pushed_in b r -> (Shared, bkey b) ∈ L.
Definition same_or {K R} `{Countable K} (t : Table K R) (P : R -> Prop) d ws : Prop :=
  forall k r, t_rows t (apply_writes ws d) !! k = Some r ->
    (t_rows t d !! k = Some r /\ removes ws (row_id t k) = false) \/ P r.

Record owes L d ws : Prop := {
  ow_inv : none_covered (apply_writes ws d);
  ow_cov : forall b t, cov (apply_writes ws d) b t = true ->
    cov d b t = true \/ (Exclusive, bkey b) ∈ L;
  ow_tokens : same_or access_tokens (token_locked L) d ws;
  ow_refresh : same_or refresh_tokens (refresh_locked L) d ws;
  ow_pushed : same_or pushed_requests (pushed_locked L) d ws;
}.
Definition guarantees L d ws : Prop := none_covered d -> owes L d ws.

Lemma kept_refl {K R} `{Countable K} (t : Table K R) P d : kept t P d nothing_gone d.
Proof. done. Qed.
Lemma kept_trans {K R} `{Countable K} (t : Table K R) P d1 g1 d2 g2 d3 :
  kept t P d1 g1 d2 -> kept t P d2 g2 d3 -> kept t P d1 (fun i => g1 i || g2 i) d3.
Proof.
  intros H12 H23 k r Hk HP. destruct (H23 k r Hk HP) as [Hk2 Hg2].
  destruct (H12 k r Hk2 HP) as [Hk1 Hg1]. split; [done|]. by rewrite Hg1.
Qed.

Lemma conflicts_exclusive (m : LockMode) k : conflicts (Exclusive, k) (m, k) = true.
Proof. unfold conflicts. cbn. by rewrite Z.eqb_refl. Qed.
Lemma conflicts_exclusive_r (m : LockMode) k : conflicts (m, k) (Exclusive, k) = true.
Proof. unfold conflicts. cbn. rewrite Z.eqb_refl. cbn. by destruct m. Qed.

Lemma same_or_kept {K R} `{Countable K} (t : Table K R) (P : R -> Prop) (Q : R -> Prop) d ws :
  same_or t P d ws -> (forall r, P r -> Q r -> False) ->
  kept t Q d (removes ws) (apply_writes ws d).
Proof. intros Hs HPQ k r Hk HQ. destruct (Hs k r Hk) as [?|?]; [done|naive_solver]. Qed.

#[global] Instance barrier_protocol : Protocol none_covered relies guarantees.
Proof.
  split.
  - intros L d. split; try done; intros; apply kept_refl.
  - intros L d1 g1 d2 g2 d3 [A1 A2 A3 A4] [B1 B2 B3 B4]. split; eauto using kept_trans.
  - intros L L' d g d' Hsub [A1 A2 A3 A4]. split; eauto.
  - intros L d ws Hi Hg. by apply Hg.
  - intros L L' d ws Hi Hg Hc. destruct (Hg Hi) as [_ Hcov Ht Hr Hp]. split.
    + intros m b t Hin Ht'. destruct (Hcov b t Ht') as [|Hex]; [done|].
      specialize (Hc _ _ Hex Hin). by rewrite conflicts_exclusive in Hc.
    + intros b Hin. eapply same_or_kept; [exact Ht|]. intros r Hl Hb.
      specialize (Hc _ _ (Hl b Hb) Hin). by rewrite conflicts_exclusive_r in Hc.
    + intros b Hin. eapply same_or_kept; [exact Hr|]. intros r Hl Hb.
      specialize (Hc _ _ (Hl b Hb) Hin). by rewrite conflicts_exclusive_r in Hc.
    + intros b Hin. eapply same_or_kept; [exact Hp|]. intros r Hl Hb.
      specialize (Hc _ _ (Hl b Hb) Hin). by rewrite conflicts_exclusive_r in Hc.
  - intros L d Hi. split; cbn; try done; by left.
Qed.

(** ** Commits *)
Lemma apply_writes_app ws ws' d : apply_writes (ws ++ ws') d = apply_writes ws' (apply_writes ws d).
Proof. revert d. induction ws as [|w ws IH]; intros d; cbn; [done|apply IH]. Qed.
Lemma removes_app ws ws' i : removes (ws ++ ws') i = removes ws i || removes ws' i.
Proof. apply existsb_app. Qed.

Lemma same_or_app {K R} `{Countable K} (t : Table K R) P d ws ws' :
  same_or t P d ws -> same_or t P (apply_writes ws d) ws' -> same_or t P d (ws ++ ws').
Proof.
  intros Hq1 Hq2 k r. rewrite apply_writes_app, removes_app. intros Hk.
  destruct (Hq2 k r Hk) as [[Hk1 Hg2]|]; [|by right].
  destruct (Hq1 k r Hk1) as [[Hk0 Hg1]|]; [|by right]. left. by rewrite Hg1, Hg2.
Qed.

(** Commits that keep the promise one after the other keep it together. *)
Lemma guarantees_app L d ws ws' :
  guarantees L d ws -> guarantees L (apply_writes ws d) ws' -> guarantees L d (ws ++ ws').
Proof.
  intros Hg Hg' Hi. destruct (Hg Hi) as [I1 C1 T1 R1 P1].
  destruct (Hg' I1) as [I2 C2 T2 R2 P2]. split.
  - by rewrite apply_writes_app.
  - intros b t. rewrite apply_writes_app. intros [Hc|Hc]%C2; auto.
  - by apply same_or_app.
  - by apply same_or_app.
  - by apply same_or_app.
Qed.

(** A database whose barriers cover less keeps what it had. *)
Lemma revoked_mono d d' c f s t :
  (forall b u, cov d' b u = true -> cov d b u = true) -> revoked d' c f s t -> revoked d c f s t.
Proof.
  intros Hc [Hcl|[(f' & -> & Hf)|(s' & -> & Hs)]].
  - left. by apply (Hc (BClient c)).
  - right; left. exists f'. split; [done|]. by apply (Hc (BTokenFamily f') 0).
  - right; right. exists s'. split; [done|]. by apply (Hc (BConsent c s')).
Qed.

(** A commit that covers nothing new and only removes guarded rows. *)
Lemma owes_quiet L d ws :
  barriers_named (apply_writes ws d) ->
  (forall b t, cov (apply_writes ws d) b t = true -> cov d b t = true) ->
  same_or access_tokens (fun _ => False) d ws -> same_or refresh_tokens (fun _ => False) d ws ->
  same_or pushed_requests (fun _ => False) d ws -> guarantees L d ws.
Proof.
  intros Hn Hc Ht Hr Hp Hi. split.
  - split; [done|..].
    + intros k r Hk. destruct (Ht k r Hk) as [[Hk0 _]|[]].
      destruct (nc_tokens _ Hi k r Hk0) as (x & ? & ? & Hx). exists x. split_and!; try done.
      intros Hrev. apply Hx. by eapply revoked_mono.
    + intros k r Hk. destruct (Hr k r Hk) as [[Hk0 _]|[]].
      destruct (nc_refresh _ Hi k r Hk0) as (x & ? & ? & Hx). exists x. split_and!; try done.
      intros Hrev. apply Hx. by eapply revoked_mono.
    + intros k r Hk. destruct (Hp k r Hk) as [[Hk0 _]|[]].
      destruct (nc_pushed _ Hi k r Hk0) as (x & ? & ? & Hx). exists x. split_and!; try done.
      intros Hrev. apply Hx. by eapply revoked_mono.
  - intros b t Hb. left. by apply Hc.
  - intros k r Hk. left. by destruct (Ht k r Hk).
  - intros k r Hk. left. by destruct (Hr k r Hk).
  - intros k r Hk. left. by destruct (Hp k r Hk).
Qed.

(** The writes that never cover anything new: rows no barrier looks at, and removals. *)
Inductive harmless : Write -> Prop :=
| hl_client k r : harmless (Upsert clients k r)
| hl_device k r : harmless (Upsert device_grants k r)
| hl_code k r : harmless (Upsert authorization_codes k r)
| hl_consent k r : harmless (Upsert consents k r)
| hl_replay k r : harmless (Upsert replay_ids k r)
| hl_no_device k : harmless (Remove device_grants k)
| hl_no_code k : harmless (Remove authorization_codes k)
| hl_no_token k : harmless (Remove access_tokens k)
| hl_no_refresh k : harmless (Remove refresh_tokens k)
| hl_no_pushed k : harmless (Remove pushed_requests k)
| hl_no_consent k : harmless (Remove consents k)
| hl_no_replay k : harmless (Remove replay_ids k)
| hl_no_barrier k : harmless (Remove revocation_barriers k)
| hl_hold K R `{Countable K} (t : Table K R) k : harmless (Hold t k).
Hint Constructors harmless : pg.

Lemma cov_fewer d d' :
  (forall k r, oauth_as_revocation_barriers d' !! k = Some r ->
     oauth_as_revocation_barriers d !! k = Some r) ->
  (forall c, oauth_as_clients d' !! c = None -> oauth_as_clients d !! c = None) ->
  forall b t, cov d' b t = true -> cov d b t = true.
Proof.
  intros Hb Hc [c|f|c s] t; cbn.
  - unfold cov_client. intros (r & Hr & Hor)%is_some_and_true. rewrite (Hb _ _ Hr). cbn.
    apply orb_true_iff. apply orb_true_iff in Hor as [|Hn]; [by left|right].
    unfold is_none in *. destruct (oauth_as_clients d' !! c) eqn:Hcl; [done|]. by rewrite (Hc c Hcl).
  - unfold cov_family. intros [r Hr]%is_some_true. by rewrite (Hb _ _ Hr).
  - unfold cov_consent. intros (r & Hr & Hge)%is_some_and_true. by rewrite (Hb _ _ Hr).
Qed.

Lemma row_id_ne {K R K' R'} `{Countable K, Countable K'} (t : Table K R) (t' : Table K' R') k k' :
  t_id t <> t_id t' -> removes [Remove t k] (row_id t' k') = false.
Proof.
  intros Hne. unfold removes. cbn. rewrite bool_decide_false; [done|].
  unfold row_id. congruence.
Qed.

Lemma removes_key_ne {K R} `{Countable K} (t : Table K R) k k' :
  k <> k' -> removes [Remove t k] (row_id t k') = false.
Proof.
  intros Hne. unfold removes. cbn. rewrite bool_decide_false; [done|].
  unfold row_id. intros [= He]. by apply (inj encode) in He.
Qed.

Ltac same_rows :=
  intros k' r' Hk'; left; cbn in Hk';
  first [ split; [exact Hk'|]; first [reflexivity | by apply row_id_ne]
        | apply lookup_delete_Some in Hk' as [? ?]; split; [done|by apply removes_key_ne] ].

Lemma harmless_guarantees L d w : harmless w -> guarantees L d [w].
Proof.
  intros Hw. assert (Hb : forall k r, oauth_as_revocation_barriers (apply_write w d) !! k = Some r ->
    oauth_as_revocation_barriers d !! k = Some r).
  { destruct Hw; cbn; try done. by intros k' r [_ ?]%lookup_delete_Some. }
  intros Hi. apply owes_quiet; [..|done]; cbn.
  - intros k r Hk. apply (nc_named _ Hi k r). auto.
  - apply cov_fewer; [done|]. destruct Hw; cbn; try done. by intros c [? ?]%lookup_insert_None.
  - destruct Hw; same_rows.
  - destruct Hw; same_rows.
  - destruct Hw; same_rows.
Qed.

Lemma all_harmless_guarantees L ws : Forall harmless ws -> forall d, guarantees L d ws.
Proof.
  induction 1 as [|w ws Hw Hws IH]; intros d; [exact (guar_nil none_covered relies guarantees L d)|].
  apply (guarantees_app L d [w] ws); [by apply harmless_guarantees|apply IH].
Qed.

(** A guarded row, under the locks of its scopes, of a record nothing covers. *)
Lemma cov_same d d' : oauth_as_revocation_barriers d' = oauth_as_revocation_barriers d ->
  oauth_as_clients d' = oauth_as_clients d -> forall b t, cov d' b t = cov d b t.
Proof. intros Hb Hc [c|f|c s] t; cbn; unfold cov_client, cov_family, cov_consent; by rewrite Hb, ?Hc. Qed.

Lemma put_token_guarantees L d x v :
  from_value v = Some x -> token_locked L (token_row x v) ->
  ~ revoked d (it_client_id x) (it_family_id x) (it_subject x) (it_grant_established_at x) ->
  guarantees L d [Upsert access_tokens (it_access_token x) (token_row x v)].
Proof.
  intros Hv Hl Hx [In It Ir Ip]. set (d' := apply_writes [Upsert access_tokens (it_access_token x) (token_row x v)] d).
  assert (Hc : forall b t, cov d' b t = cov d b t) by (by apply cov_same).
  split.
  - split; [done|..]; cbn.
    + intros k r [[<- <-]|[_ Hk]]%lookup_insert_Some.
      * by exists x.
      * destruct (It k r Hk) as (y & ? & ? & Hy). by exists y.
    + intros k r Hk. destruct (Ir k r Hk) as (y & ? & ? & Hy). by exists y.
    + intros k r Hk. destruct (Ip k r Hk) as (y & ? & ? & Hy). by exists y.
  - intros b t. rewrite Hc. by left.
  - intros k r Hk. cbn in Hk. apply lookup_insert_Some in Hk as [[<- <-]|[_ Hk]]; [by right|by left].
  - by left.
  - by left.
Qed.

Lemma put_refresh_guarantees L d x v :
  from_value v = Some x -> refresh_locked L (refresh_row x v) ->
  ~ revoked d (rt_client_id x) (Some (rt_family_id x)) (rt_subject x) (rt_grant_established_at x) ->
  guarantees L d [Upsert refresh_tokens (rt_refresh_token x) (refresh_row x v)].
Proof.
  intros Hv Hl Hx [In It Ir Ip]. set (d' := apply_writes [Upsert refresh_tokens (rt_refresh_token x) (refresh_row x v)] d).
  assert (Hc : forall b t, cov d' b t = cov d b t) by (by apply cov_same).
  split.
  - split; [done|..]; cbn.
    + intros k r Hk. destruct (It k r Hk) as (y & ? & ? & Hy). by exists y.
    + intros k r [[<- <-]|[_ Hk]]%lookup_insert_Some.
      * by exists x.
      * destruct (Ir k r Hk) as (y & ? & ? & Hy). by exists y.
    + intros k r Hk. destruct (Ip k r Hk) as (y & ? & ? & Hy). by exists y.
  - intros b t. rewrite Hc. by left.
  - by left.
  - intros k r Hk. cbn in Hk. apply lookup_insert_Some in Hk as [[<- <-]|[_ Hk]]; [by right|by left].
  - by left.
Qed.

Lemma put_pushed_guarantees L d x v :
  from_value v = Some x -> pushed_locked L (pushed_row x v) ->
  ~ revoked d (par_client_id x) None None (par_pushed_at x) ->
  guarantees L d [Upsert pushed_requests (par_request_uri x) (pushed_row x v)].
Proof.
  intros Hv Hl Hx [In It Ir Ip]. set (d' := apply_writes [Upsert pushed_requests (par_request_uri x) (pushed_row x v)] d).
  assert (Hc : forall b t, cov d' b t = cov d b t) by (by apply cov_same).
  split.
  - split; [done|..]; cbn.
    + intros k r Hk. destruct (It k r Hk) as (y & ? & ? & Hy). by exists y.
    + intros k r Hk. destruct (Ir k r Hk) as (y & ? & ? & Hy). by exists y.
    + intros k r [[<- <-]|[_ Hk]]%lookup_insert_Some.
      * by exists x.
      * destruct (Ip k r Hk) as (y & ? & ? & Hy). by exists y.
  - intros b t. rewrite Hc. by left.
  - by left.
  - by left.
  - intros k r Hk. cbn in Hk. apply lookup_insert_Some in Hk as [[<- <-]|[_ Hk]]; [by right|by left].
Qed.

(** ** A revocation *)

(** The rows a cascade removes. *)
Inductive cascades : Write -> Prop :=
| ca_token k : cascades (Remove access_tokens k)
| ca_refresh k : cascades (Remove refresh_tokens k)
| ca_pushed k : cascades (Remove pushed_requests k)
| ca_code k : cascades (Remove authorization_codes k)
| ca_device k : cascades (Remove device_grants k)
| ca_consent k : cascades (Remove consents k).
Hint Constructors cascades : pg.

Lemma cascades_harmless w : cascades w -> harmless w.
Proof. destruct 1; constructor. Qed.

Lemma cascades_frame ws : Forall cascades ws -> forall d,
  oauth_as_revocation_barriers (apply_writes ws d) = oauth_as_revocation_barriers d /\
  oauth_as_clients (apply_writes ws d) = oauth_as_clients d.
Proof.
  induction 1 as [|w ws Hw Hws IH]; intros d; [done|]. cbn. destruct (IH (apply_write w d)) as [-> ->].
  by destruct Hw.
Qed.

Lemma cascades_shrink {K R} `{Countable K} (t : Table K R) ws :
  (forall w d, cascades w -> same_or t (fun _ => False) d [w]) ->
  Forall cascades ws -> forall d, same_or t (fun _ => False) d ws.
Proof.
  intros Hone. induction 1 as [|w ws Hw Hws IH]; intros d; [by left|].
  apply (same_or_app t _ d [w] ws); [by apply Hone|apply IH].
Qed.
Lemma cascades_tokens w d : cascades w -> same_or access_tokens (fun _ => False) d [w].
Proof. destruct 1; same_rows. Qed.
Lemma cascades_refresh w d : cascades w -> same_or refresh_tokens (fun _ => False) d [w].
Proof. destruct 1; same_rows. Qed.
Lemma cascades_pushed w d : cascades w -> same_or pushed_requests (fun _ => False) d [w].
Proof. destruct 1; same_rows. Qed.

(** Every row of the scope in [d] is among the removals [ws]. *)
Definition cleared {K R} `{Countable K} (t : Table K R) (P : R -> Prop) ws d : Prop :=
  forall k r, t_rows t d !! k = Some r -> P r -> removes ws (row_id t k) = true.

(** The barrier covers what it is about and nothing else that was not covered before;
    with the client row gone, the same of the client's own barrier. *)
Definition drops_client (b : RevocationBarrier) ws : Prop :=
  ws = [] \/ exists c, b = BClient c /\ ws = [Remove clients c].

Lemma revocation_cov d b r ws wsc : Forall cascades ws -> drops_client b wsc -> forall b' t,
  cov (apply_writes (Upsert revocation_barriers (barrier_key b) r :: ws ++ wsc) d) b' t = true ->
  cov d b' t = true \/ b' = b.
Proof.
  intros Hws Hwsc b' t Hcov. destruct (decide (b' = b)) as [->|Hne]; [by right|left].
  revert Hcov. cbn [apply_writes]. rewrite apply_writes_app. set (d1 := apply_write _ d).
  destruct (cascades_frame ws Hws d1) as [Hb Hc].
  assert (Hd1 : cov d1 b' t = cov d b' t).
  { destruct b' as [c|f|c s]; cbn; unfold cov_client, cov_family, cov_consent, d1;
      cbn [apply_write t_with t_rows revocation_barriers oauth_as_revocation_barriers oauth_as_clients];
      by rewrite lookup_insert_ne by (intros He; apply Hne; symmetry; by apply barrier_key_inj). }
  destruct Hwsc as [->|(c & -> & ->)]; cbn.
  - by rewrite (cov_same d1 _ Hb Hc), Hd1.
  - rewrite <- Hd1, <- (cov_same d1 _ Hb Hc). set (d2 := apply_writes ws d1).
    destruct b' as [c'|f|c' s]; cbn; try done. unfold cov_client; cbn.
    rewrite lookup_delete_ne; [done|]. congruence.
Qed.

(** A record is revoked when a barrier of a scope its row is in covers it. *)
Lemma revoked_token d x v :
  revoked d (it_client_id x) (it_family_id x) (it_subject x) (it_grant_established_at x) <->
  exists b, token_in b (token_row x v) /\ cov d b (to_nanos (it_grant_established_at x)) = true.
Proof.
  split.
  - intros [Hc|[(f & Hf & Hc)|(s & Hs & Hc)]].
    + by exists (BClient (it_client_id x)).
    + by exists (BTokenFamily f).
    + by exists (BConsent (it_client_id x) s).
  - intros ([c|f|c s] & Hin & Hc); cbn in *.
    + left. by subst.
    + right; left. eauto.
    + right; right. destruct Hin as [-> Hs]. eauto.
Qed.
Lemma revoked_refresh d x v :
  revoked d (rt_client_id x) (Some (rt_family_id x)) (rt_subject x) (rt_grant_established_at x) <->
  exists b, refresh_in b (refresh_row x v) /\ cov d b (to_nanos (rt_grant_established_at x)) = true.
Proof.
  split.
  - intros [Hc|[(f & [= <-] & Hc)|(s & Hs & Hc)]].
    + by exists (BClient (rt_client_id x)).
    + by exists (BTokenFamily (rt_family_id x)).
    + by exists (BConsent (rt_client_id x) s).
  - intros ([c|f|c s] & Hin & Hc); cbn in *.
    + left. by subst.
    + right; left. subst. eauto.
    + right; right. destruct Hin as [-> Hs]. eauto.
Qed.
Lemma revoked_pushed d x v :
  revoked d (par_client_id x) None None (par_pushed_at x) <->
  exists b, pushed_in b (pushed_row x v) /\ cov d b (to_nanos (par_pushed_at x)) = true.
Proof.
  split.
  - intros [Hc|[(f & Hf & _)|(s & Hs & _)]]; [|done|done]. by exists (BClient (par_client_id x)).
  - intros ([c|f|c s] & Hin & Hc); cbn in *; [|done|done]. left. by subst.
Qed.

Lemma same_or_frame {K R} `{Countable K} (t : Table K R) P d w :
  removed_row w = None -> t_rows t (apply_write w d) = t_rows t d -> same_or t P d [w].
Proof.
  intros Hw Ht k r Hk. left. cbn in Hk. rewrite Ht in Hk. split; [done|].
  unfold removes. cbn. rewrite Hw. done.
Qed.

Lemma drops_client_rows {K R} `{Countable K} (t : Table K R) b wsc d :
  drops_client b wsc -> t_id t <> TClients ->
  (forall m, t_rows t (t_with clients m d) = t_rows t d) -> same_or t (fun _ => False) d wsc.
Proof.
  intros [->|(c & _ & ->)] Hid Ht k r Hk; left; [done|].
  change (t_rows t (t_with clients (delete c (t_rows clients d)) d) !! k = Some r) in Hk.
  rewrite Ht in Hk. split; [done|]. apply row_id_ne. cbn. congruence.
Qed.

Lemma revocation_rows {K R} `{Countable K} (t : Table K R) b r ws wsc d :
  Forall cascades ws -> drops_client b wsc -> t_id t <> TClients ->
  (forall m d, t_rows t (t_with clients m d) = t_rows t d) ->
  (forall m d, t_rows t (t_with revocation_barriers m d) = t_rows t d) ->
  (forall w d, cascades w -> same_or t (fun _ => False) d [w]) ->
  same_or t (fun _ => False) d (Upsert revocation_barriers (barrier_key b) r :: ws ++ wsc).
Proof.
  intros Hws Hwsc Hid Hcl Hba Hone.
  apply (same_or_app t _ d [Upsert revocation_barriers (barrier_key b) r]).
  { apply same_or_frame; [done|]. apply Hba. }
  apply same_or_app; [by apply cascades_shrink|]. by eapply drops_client_rows.
Qed.

(** A barrier committed with the removal of every row of its scope, under its exclusive
    lock. *)
Lemma revocation_guarantees L d b r ws wsc :
  barrier_check (barrier_key b) = true -> (Exclusive, bkey b) ∈ L ->
  Forall cascades ws -> drops_client b wsc ->
  cleared access_tokens (token_in b) ws d -> cleared refresh_tokens (refresh_in b) ws d ->
  cleared pushed_requests (pushed_in b) ws d ->
  guarantees L d (Upsert revocation_barriers (barrier_key b) r :: ws ++ wsc).
Proof.
  intros Hck Hex Hws Hwsc Ct Cr Cp [In It Ir Ip].
  pose proof (revocation_rows access_tokens b r ws wsc d Hws Hwsc) as St.
  pose proof (revocation_rows refresh_tokens b r ws wsc d Hws Hwsc) as Sr.
  pose proof (revocation_rows pushed_requests b r ws wsc d Hws Hwsc) as Sp.
  specialize (St ltac:(done) ltac:(done) ltac:(done) cascades_tokens).
  specialize (Sr ltac:(done) ltac:(done) ltac:(done) cascades_refresh).
  specialize (Sp ltac:(done) ltac:(done) ltac:(done) cascades_pushed).
  pose proof (revocation_cov d b r ws wsc Hws Hwsc) as Hcov.
  assert (Hrm : forall i, removes (Upsert revocation_barriers (barrier_key b) r :: ws ++ wsc) i = false ->
            removes ws i = false).
  { intros i Hi. change (removes (ws ++ wsc) i = false) in Hi. rewrite removes_app in Hi.
    by apply orb_false_iff in Hi as [? _]. }
  set (d' := apply_writes (Upsert revocation_barriers (barrier_key b) r :: ws ++ wsc) d) in *.
  split; fold d'.
  - split.
    + intros k r0 Hk.
      assert (Hbar : oauth_as_revocation_barriers d' =
                <[barrier_key b := r]> (oauth_as_revocation_barriers d)).
      { unfold d'. cbn [apply_writes]. rewrite apply_writes_app.
        destruct (cascades_frame ws Hws
          (apply_write (Upsert revocation_barriers (barrier_key b) r) d)) as [Hb _].
        assert (Hdrop : forall d0, oauth_as_revocation_barriers (apply_writes wsc d0) =
                  oauth_as_revocation_barriers d0) by (by destruct Hwsc as [->|(c & _ & ->)]).
        by rewrite Hdrop, Hb. }
      rewrite Hbar in Hk. apply lookup_insert_Some in Hk as [[<- _]|[_ Hk]]; eauto.
    + intros k row Hk. destruct (St k row Hk) as [[Hk0 Hg]|[]].
      destruct (It k row Hk0) as (x & Hrow & Hdec & Hx). exists x. split_and!; try done.
      rewrite (revoked_token d' x (tk_payload row)). rewrite <- Hrow. intros (b' & Hin & Hc).
      apply Hcov in Hc as [Hc| ->].
      * apply Hx. apply (revoked_token d x (tk_payload row)). rewrite <- Hrow. eauto.
      * specialize (Ct k row Hk0 Hin). by rewrite (Hrm _ Hg) in Ct.
    + intros k row Hk. destruct (Sr k row Hk) as [[Hk0 Hg]|[]].
      destruct (Ir k row Hk0) as (x & Hrow & Hdec & Hx). exists x. split_and!; try done.
      rewrite (revoked_refresh d' x (rf_payload row)). rewrite <- Hrow. intros (b' & Hin & Hc).
      apply Hcov in Hc as [Hc| ->].
      * apply Hx. apply (revoked_refresh d x (rf_payload row)). rewrite <- Hrow. eauto.
      * specialize (Cr k row Hk0 Hin). by rewrite (Hrm _ Hg) in Cr.
    + intros k row Hk. destruct (Sp k row Hk) as [[Hk0 Hg]|[]].
      destruct (Ip k row Hk0) as (x & Hrow & Hdec & Hx). exists x. split_and!; try done.
      rewrite (revoked_pushed d' x (pu_payload row)). rewrite <- Hrow. intros (b' & Hin & Hc).
      apply Hcov in Hc as [Hc| ->].
      * apply Hx. apply (revoked_pushed d x (pu_payload row)). rewrite <- Hrow. eauto.
      * specialize (Cp k row Hk0 Hin). by rewrite (Hrm _ Hg) in Cp.
  - intros b' t [Hc| ->]%Hcov; auto.
  - intros k row Hk. left. by destruct (St k row Hk).
  - intros k row Hk. left. by destruct (Sr k row Hk).
  - intros k row Hk. left. by destruct (Sp k row Hk).
Qed.

(** ** Methods *)
Abbreviation safe := (txn_safe none_covered relies guarantees).
Abbreviation method_safe := (sql_safe none_covered relies guarantees).

(** *** Statements that only do harmless things *)
Abbreviation harmless_stmt := (stmt_writes harmless).
Hint Resolve writes_select writes_select_where writes_select_first writes_delete_pk writes_delete_batch
  writes_delete_where writes_update writes_upsert writes_insert writes_first_for_update : pg.

Lemma safe_pool {X A} op (st : Stmt X) (k : X -> sql (result A StorageError)) :
  harmless_stmt st -> (forall x, method_safe (k x)) -> method_safe (on_pool op st k).
Proof.
  intros Hst Hk. split.
  - intros s x ws _ _ Hok. eapply all_harmless_guarantees, Hst, Hok.
  - intros [x|e]; [apply Hk|done].
Qed.
Lemma safe_auto {X A} (st : Stmt X) (f : result X SqlxError -> result A StorageError) :
  harmless_stmt st -> method_safe (SAuto st (fun r => SRet (f r))).
Proof. intros Hst. split; [|done]. intros s x ws _ _ Hok. eapply all_harmless_guarantees, Hst, Hok. Qed.
Lemma safe_or_return {X A} (r : result X StorageError) (k : X -> sql (result A StorageError)) :
  (forall x, r = Ok x -> method_safe (k x)) -> method_safe (or_return r k).
Proof. intros Hk. destruct r; cbn; [by apply Hk|done]. Qed.

(** *** Steps of a transaction *)
Lemma safe_exec {X A} op (st : Stmt X) (k : X -> txn (result A StorageError)) L ws d :
  (forall d1 g1 d2 g2 locked x ws', relies L d g1 d1 -> none_covered d1 -> relies L d1 g2 d2 ->
     none_covered d2 ->
     st {| sn_then := apply_writes ws d1; sn_now := apply_writes ws d2; sn_gone := g2;
           sn_locked := locked |} = Ok (x, ws') -> safe (k x) L (ws ++ ws') d2) ->
  safe (exec op st A k) L ws d.
Proof. done. Qed.
Lemma safe_exec_harmless {X A} op (st : Stmt X) (k : X -> txn (result A StorageError)) L ws d :
  harmless_stmt st -> (forall x ws' d', Forall harmless ws' -> safe (k x) L (ws ++ ws') d') ->
  safe (exec op st A k) L ws d.
Proof. intros Hst Hk. apply safe_exec. intros; eapply Hk, Hst; eauto. Qed.
Lemma safe_try {X A} (r : result X StorageError) (k : X -> txn (result A StorageError)) L ws d :
  (forall x, r = Ok x -> safe (k x) L ws d) -> safe (try r A k) L ws d.
Proof. intros Hk. destruct r; cbn; [by apply Hk|done]. Qed.
Lemma safe_commit {A} op (a : A) L ws d :
  (forall d' g, relies L d g d' -> none_covered d' -> guarantees L d' ws) -> safe (commit op a) L ws d.
Proof. done. Qed.
Lemma safe_commit_harmless {A} op (a : A) L ws d : Forall harmless ws -> safe (commit op a) L ws d.
Proof. intros Hws. apply safe_commit. intros. by apply all_harmless_guarantees. Qed.
Lemma safe_rollback {A} op (a : A) L ws d : safe (rollback op a) L ws d.
Proof. done. Qed.

(** *** A guarded write *)
Definition scopes (c : string) (f s : option string) : Locks :=
  rev (map (pair Shared) (barrier_scope_keys c f s)) ++ [].

Lemma elem_of_scopes b c f s : bkey b ∈ barrier_scope_keys c f s -> (Shared, bkey b) ∈ scopes c f s.
Proof.
  intros Hb. unfold scopes. rewrite app_nil_r. apply list_elem_of_In, in_rev. rewrite rev_involutive.
  by apply list_elem_of_In, (list_elem_of_fmap_2 (pair Shared)).
Qed.
Lemma client_scope c f s : bkey (BClient c) ∈ barrier_scope_keys c f s.
Proof. unfold barrier_scope_keys. set_solver. Qed.
Lemma family_scope c f s : bkey (BTokenFamily f) ∈ barrier_scope_keys c (Some f) s.
Proof. unfold barrier_scope_keys. set_solver. Qed.
Lemma consent_scope c f s : bkey (BConsent c s) ∈ barrier_scope_keys c f (Some s).
Proof. unfold barrier_scope_keys. set_solver. Qed.
Hint Resolve client_scope family_scope consent_scope elem_of_scopes : pg.

(** Under the shared locks of its scopes, what was not revoked stays so. *)
Lemma not_revoked_stable c f s t d g d' :
  relies (scopes c f s) d g d' -> ~ revoked d c f s t -> ~ revoked d' c f s t.
Proof.
  intros Hr Hn [Hc|[(f' & -> & Hf)|(s' & -> & Hs)]]; apply Hn.
  - left. eapply (rl_cov _ _ _ _ Hr Shared (BClient c)); [auto with pg|done].
  - right; left. exists f'. split; [done|].
    eapply (rl_cov _ _ _ _ Hr Shared (BTokenFamily f') 0); [auto with pg|done].
  - right; right. exists s'. split; [done|].
    eapply (rl_cov _ _ _ _ Hr Shared (BConsent c s')); [auto with pg|done].
Qed.

(** The opening of every guarded write: the locks, then the check. *)
Lemma safe_guard {A} op c f s t (refused : A) (k : txn (result A StorageError)) d :
  (forall d', ~ revoked d' c f s t -> safe k (scopes c f s) [] d') ->
  safe (PostgresStorage.lock_barrier_scopes op c f s _ (fun _ =>
    PostgresStorage.barrier_covers op c f s t _ (fun covered =>
      if covered then rollback op refused else k))) [] [] d.
Proof.
  intros Hk d0 g0 _ Hi0. fold (scopes c f s). apply safe_exec.
  intros d1 g1 d2 g2 locked x ws' Hr1 Hi1 Hr2 Hi2 Hst. cbn [apply_writes] in Hst.
  destruct (exists_covering_spec d1 g2 locked d2 c f s t (nc_named _ Hi1)) as (b & Hb & Hspec).
  rewrite Hst in Hb. simplify_eq. cbn [app]. destruct b; [done|].
  apply Hk. eapply not_revoked_stable; [exact Hr2|]. intros Hrev. by apply Hspec in Hrev.
Qed.

(** What the payload column is asked to give back. *)
Definition decodes {T} `{!Jsonb T} (x : T) : Prop := forall v, to_value x = Some v -> from_value v = Some x.

Lemma encode_value {T} `{!Jsonb T} op (x : T) v : PostgresStorage.pg_encode op x = Ok v -> to_value x = Some v.
Proof. unfold PostgresStorage.pg_encode. by rewrite ok_or_ok. Qed.

Lemma token_scopes x v : token_locked (scopes (it_client_id x) (it_family_id x) (it_subject x)) (token_row x v).
Proof.
  intros b Hin. apply elem_of_scopes. destruct b as [c|f|c s]; cbn in Hin.
  - rewrite <- Hin. apply client_scope.
  - rewrite Hin. apply family_scope.
  - destruct Hin as [<- ->]. apply consent_scope.
Qed.
Lemma refresh_scopes x v :
  refresh_locked (scopes (rt_client_id x) (Some (rt_family_id x)) (rt_subject x)) (refresh_row x v).
Proof.
  intros b Hin. apply elem_of_scopes. destruct b as [c|f|c s]; cbn in Hin.
  - rewrite <- Hin. apply client_scope.
  - rewrite Hin. apply family_scope.
  - destruct Hin as [<- ->]. apply consent_scope.
Qed.
Lemma pushed_scopes x v : pushed_locked (scopes (par_client_id x) None None) (pushed_row x v).
Proof.
  intros b Hin. apply elem_of_scopes. destruct b as [c|f|c s]; cbn in Hin; [|done|done].
  rewrite <- Hin. apply client_scope.
Qed.

Lemma put_token_safe x : decodes x -> method_safe (PostgresStorage.pg_put_token x).
Proof.
  intros Hx d _. apply safe_guard. intros d' Hn. apply safe_try. intros v Hv%encode_value.
  apply safe_exec. intros d1 g1 d2 g2 locked [] ws' Hr1 Hi1 Hr2 Hi2 [= <-].
  apply safe_commit. intros d3 g3 Hr3 Hi3. apply put_token_guarantees; [by apply Hx|apply token_scopes|].
  do 3 (eapply not_revoked_stable; [eassumption|]). done.
Qed.

Lemma put_refresh_token_safe x : decodes x -> method_safe (PostgresStorage.pg_put_refresh_token x).
Proof.
  intros Hx d _. apply safe_guard. intros d' Hn. apply safe_try. intros v Hv%encode_value.
  apply safe_exec. intros d1 g1 d2 g2 locked [] ws' Hr1 Hi1 Hr2 Hi2 [= <-].
  apply safe_commit. intros d3 g3 Hr3 Hi3.
  apply put_refresh_guarantees; [by apply Hx|apply refresh_scopes|].
  do 3 (eapply not_revoked_stable; [eassumption|]). done.
Qed.

Lemma put_pushed_safe x : decodes x -> method_safe (PostgresStorage.pg_put_pushed_authorization_request x).
Proof.
  intros Hx. apply safe_or_return. intros v Hv%encode_value d _. apply safe_guard. intros d' Hn.
  apply safe_exec. intros d1 g1 d2 g2 locked [] ws' Hr1 Hi1 Hr2 Hi2 [= <-].
  apply safe_commit. intros d3 g3 Hr3 Hi3. apply put_pushed_guarantees; [by apply Hx|apply pushed_scopes|].
  do 3 (eapply not_revoked_stable; [eassumption|]). done.
Qed.

(** A rotation holds the row it compares and writes up to three records of one grant. *)
Inductive grant_write (e : RefreshTokenRecord) : Write -> Prop :=
| gw_hold K R `{Countable K} (t : Table K R) k : grant_write e (Hold t k)
| gw_refresh x v : same_grant_refresh e x -> from_value v = Some x ->
    grant_write e (Upsert refresh_tokens (rt_refresh_token x) (refresh_row x v))
| gw_access x v : same_grant_access e x -> from_value v = Some x ->
    grant_write e (Upsert access_tokens (it_access_token x) (token_row x v)).

Definition grant_scopes (e : RefreshTokenRecord) : Locks :=
  scopes (rt_client_id e) (Some (rt_family_id e)) (rt_subject e).
Definition grant_revoked d (e : RefreshTokenRecord) : Prop :=
  revoked d (rt_client_id e) (Some (rt_family_id e)) (rt_subject e) (rt_grant_established_at e).

Lemma grant_writes_guarantee e ws : Forall (grant_write e) ws -> forall d,
  ~ grant_revoked d e -> guarantees (grant_scopes e) d ws.
Proof.
  induction 1 as [|w ws Hw Hws IH]; intros d Hn; [exact (guar_nil none_covered relies guarantees _ d)|].
  apply (guarantees_app _ d [w] ws).
  - destruct Hw as [K R ? ? t k|x v (Hc & Hf & Hs & Ht) Hv|x v (Hc & Hf & Hs & Ht) Hv].
    + apply harmless_guarantees. constructor.
    + apply put_refresh_guarantees; [done| |].
      * unfold grant_scopes. rewrite <- Hc, <- Hf, <- Hs. apply refresh_scopes.
      * by rewrite Hc, Hf, Hs, Ht.
    + apply put_token_guarantees; [done| |].
      * unfold grant_scopes. rewrite <- Hc, <- Hf, <- Hs. apply token_scopes.
      * by rewrite Hc, Hf, Hs, Ht.
  - apply IH. by destruct Hw.
Qed.

Lemma grant_stable e d g d' : relies (grant_scopes e) d g d' -> ~ grant_revoked d e -> ~ grant_revoked d' e.
Proof. apply not_revoked_stable. Qed.

Lemma rotate_refresh_token_safe e s a n :
  same_grant_refresh e s -> same_grant_access e a -> (forall x, n = Some x -> same_grant_refresh e x) ->
  decodes s -> decodes a -> (forall x, n = Some x -> decodes x) ->
  method_safe (PostgresStorage.pg_rotate_refresh_token e s a n).
Proof.
  intros Gs Ga Gn Ds Da Dn d _. apply safe_guard. intros d' Hn. fold (grant_scopes e).
  apply safe_exec. intros d1 g1 d2 g2 locked row ws1 Hr1 _ Hr2 _ Hst1.
  assert (Hw1 : Forall (grant_write e) ([] ++ ws1)).
  { revert Hst1. unfold select_pk_for_update. case_match; intros [= _ <-]; repeat constructor. }
  clear Hst1. apply safe_try. intros cur _. case_match; [done|].
  apply safe_try. intros vs Hvs%encode_value%Ds.
  apply safe_exec. intros d3 g3 d4 g4 locked' [] ws' Hr3 _ Hr4 _ [= <-].
  apply safe_try. intros va Hva%encode_value%Da.
  apply safe_exec. intros d5 g5 d6 g6 locked'' [] ws' Hr5 _ Hr6 _ [= <-].
  assert (Hw : Forall (grant_write e) ((([] ++ ws1) ++ [Upsert refresh_tokens (rt_refresh_token s)
    (refresh_row s vs)]) ++ [Upsert access_tokens (it_access_token a) (token_row a va)])).
  { apply Forall_app_2; [apply Forall_app_2; [done|]|].
    - apply Forall_singleton. by apply gw_refresh.
    - apply Forall_singleton. by apply gw_access. }
  assert (Hn6 : ~ grant_revoked d6 e) by (do 6 (eapply grant_stable; [eassumption|]); done).
  destruct n as [x|].
  - apply safe_try. intros vx Hvx%encode_value%(Dn x eq_refl).
    apply safe_exec. intros d7 g7 d8 g8 locked3 [] ws' Hr7 _ Hr8 _ [= <-].
    apply safe_commit. intros d9 g9 Hr9 _. apply grant_writes_guarantee.
    + apply Forall_app_2; [done|]. apply Forall_singleton. apply gw_refresh; [by apply Gn|done].
    + do 3 (eapply grant_stable; [eassumption|]). done.
  - apply safe_commit. intros d9 g9 Hr9 _. apply grant_writes_guarantee; [done|]. by eapply grant_stable.
Qed.

(** *** Revocations *)
Lemma removes_elem {K R} `{Countable K} (t : Table K R) (rows : list (K * R)) k r :
  (k, r) ∈ rows -> removes (map (fun '(k, _) => Remove t k) rows) (row_id t k) = true.
Proof.
  intros Hin. unfold removes. apply existsb_exists. exists (Remove t k). split.
  - apply in_map_iff. exists (k, r). split; [done|]. by apply list_elem_of_In.
  - by apply bool_decide_true.
Qed.

(** Under the exclusive lock of a scope the [DELETE] of its rows misses none. *)
Lemma delete_where_clears {K R} `{Countable K} (t : Table K R) p (P : R -> Prop) ws d1 g d2 locked rows ws' :
  (forall k r, P r -> p k r = true) -> (forall d, t_rows t (apply_writes ws d) = t_rows t d) ->
  kept t P d1 g d2 ->
  delete_where t p {| sn_then := apply_writes ws d1; sn_now := apply_writes ws d2; sn_gone := g;
                      sn_locked := locked |} = Ok (rows, ws') ->
  ws' = map (fun '(k, _) => Remove t k) rows /\ cleared t P ws' d2.
Proof.
  intros Hp Hws Hk [= <- <-]. split; [done|].
  intros k r Hk2 HP. destruct (Hk k r Hk2 HP) as [Hk1 Hg]. eapply (removes_elem t _ k r).
  unfold reached. apply list_elem_of_omap. exists (k, r).
  split; [apply elem_of_scan; cbn; by rewrite Hws|]. rewrite (Hp k r HP). unfold recheck. cbn. rewrite Hg, Hws, Hk2.
  by rewrite (Hp k r HP).
Qed.

Lemma cleared_app_l {K R} `{Countable K} (t : Table K R) (P : R -> Prop) ws ws' d :
  cleared t P ws d -> cleared t P (ws ++ ws') d.
Proof. intros Hc k r Hk HP. rewrite removes_app. by rewrite (Hc k r Hk HP). Qed.
Lemma cleared_app_r {K R} `{Countable K} (t : Table K R) (P : R -> Prop) ws ws' d :
  cleared t P ws' d -> cleared t P (ws ++ ws') d.
Proof. intros Hc k r Hk HP. rewrite removes_app, (Hc k r Hk HP). by rewrite orb_true_r. Qed.
Lemma cleared_stable {K R} `{Countable K} (t : Table K R) (P : R -> Prop) ws d g d' :
  kept t P d g d' -> cleared t P ws d -> cleared t P ws d'.
Proof. intros Hk Hc k r Hk' HP. destruct (Hk k r Hk' HP). eauto. Qed.

(** The state of a revocation between its statements: the barrier and the removals so
    far, and the tables that are cleared. *)
Record revoking (b : RevocationBarrier) (ts rs ps : bool) ws d : Prop := {
  rv_shape : exists pre r cas, ws = pre ++ Upsert revocation_barriers (barrier_key b) r :: cas /\
    Forall cascades pre /\ Forall cascades cas /\
    (ts = true -> cleared access_tokens (token_in b) cas d) /\
    (rs = true -> cleared refresh_tokens (refresh_in b) cas d) /\
    (ps = true -> cleared pushed_requests (pushed_in b) cas d);
}.

(** The tables a list of writes leaves alone. *)
Definition untouched {K R} `{Countable K} (t : Table K R) ws : Prop :=
  forall d, t_rows t (apply_writes ws d) = t_rows t d.
Lemma untouched_app {K R} `{Countable K} (t : Table K R) ws ws' :
  untouched t ws -> untouched t ws' -> untouched t (ws ++ ws').
Proof. intros Hq1 Hq2 d. by rewrite apply_writes_app, Hq2, Hq1. Qed.
Lemma untouched_removes {K R K' R'} `{Countable K, Countable K'} (t : Table K R) (t' : Table K' R')
    `{!GoodTable t'} (rows : list (K' * R')) :
  (forall m d, t_rows t (t_with t' m d) = t_rows t d) ->
  untouched t (map (fun '(k, _) => Remove t' k) rows).
Proof. intros Ht d. rewrite apply_removes by apply _. apply Ht. Qed.
Lemma untouched_one {K R K' R'} `{Countable K, Countable K'} (t : Table K R) (t' : Table K' R') k r :
  (forall m d, t_rows t (t_with t' m d) = t_rows t d) -> untouched t [Upsert t' k r].
Proof. intros Ht d. apply Ht. Qed.
Lemma untouched_nil {K R} `{Countable K} (t : Table K R) : untouched t [].
Proof. done. Qed.

Lemma cascade_rows {K R} `{Countable K} (t : Table K R) (rows : list (K * R)) :
  (forall k, cascades (Remove t k)) -> Forall cascades (map (fun '(k, _) => Remove t k) rows).
Proof. intros Hw. apply Forall_forall. intros w ([k r] & -> & _)%list_elem_of_fmap. apply Hw. Qed.

Lemma revoking_start b r pre d : Forall cascades pre ->
  revoking b false false false (pre ++ [Upsert revocation_barriers (barrier_key b) r]) d.
Proof. intros Hp. split. exists pre, r, []. split_and!; done. Qed.

Lemma revoking_step b ts rs ps ws ws' L d g d' :
  (Exclusive, bkey b) ∈ L -> relies L d g d' -> Forall cascades ws' ->
  revoking b ts rs ps ws d -> revoking b ts rs ps (ws ++ ws') d'.
Proof.
  intros Hex Hr Hw [(pre & r & cas & -> & Hp & Hc & Ht & Hrf & Hpu)]. split.
  exists pre, r, (cas ++ ws'). rewrite <- app_assoc. split_and!; try done.
  - by apply Forall_app_2.
  - intros Hq. eapply cleared_app_l, cleared_stable; [by eapply rl_tokens|auto].
  - intros Hq. eapply cleared_app_l, cleared_stable; [by eapply rl_refresh|auto].
  - intros Hq. eapply cleared_app_l, cleared_stable; [by eapply rl_pushed|auto].
Qed.

Lemma revoking_clear b ts rs ps ws ws' L d g d' :
  (Exclusive, bkey b) ∈ L -> relies L d g d' -> Forall cascades ws' -> revoking b ts rs ps ws d ->
  (cleared access_tokens (token_in b) ws' d' -> revoking b true rs ps (ws ++ ws') d') /\
  (cleared refresh_tokens (refresh_in b) ws' d' -> revoking b ts true ps (ws ++ ws') d') /\
  (cleared pushed_requests (pushed_in b) ws' d' -> revoking b ts rs true (ws ++ ws') d').
Proof.
  intros Hex Hr Hw Hrv.
  assert (Happ : forall pre (u : Write) cas, (pre ++ u :: cas) ++ ws' = pre ++ u :: (cas ++ ws'))
    by (intros; by rewrite <- app_assoc).
  pose proof (fun Q => cleared_stable access_tokens (token_in b) Q d g d' ltac:(by eapply rl_tokens)) as Kt.
  pose proof (fun Q => cleared_stable refresh_tokens (refresh_in b) Q d g d' ltac:(by eapply rl_refresh)) as Kr.
  pose proof (fun Q => cleared_stable pushed_requests (pushed_in b) Q d g d' ltac:(by eapply rl_pushed)) as Kp.
  destruct Hrv as [(pre & r & cas & -> & Hp & Hc & Ht & Hrf & Hpu)].
  split_and!; intros Hcl; split; exists pre, r, (cas ++ ws'); rewrite Happ; split_and!; try done;
    try (by apply Forall_app_2); intros Hq;
    (apply cleared_app_r; exact Hcl) || (apply cleared_app_l; auto).
Qed.

Lemma revoking_weaken b ts rs ps ts' rs' ps' ws d :
  (ts' = true -> ts = true) -> (rs' = true -> rs = true) -> (ps' = true -> ps = true) ->
  revoking b ts rs ps ws d -> revoking b ts' rs' ps' ws d.
Proof.
  intros Hq1 Hq2 Hq3 [(pre & r & cas & -> & Hp & Hc & Ht & Hrf & Hpu)]. split.
  exists pre, r, cas. split_and!; auto.
Qed.

Lemma cleared_shrink {K R} `{Countable K} (t : Table K R) (P : R -> Prop) pre ws d :
  same_or t (fun _ => False) d pre -> cleared t P ws d -> cleared t P ws (apply_writes pre d).
Proof. intros Hs Hc k r Hk HP. destruct (Hs k r Hk) as [[Hk0 _]|[]]. eauto. Qed.

Lemma revoking_commit b ws wsc L d :
  barrier_check (barrier_key b) = true -> (Exclusive, bkey b) ∈ L -> drops_client b wsc ->
  revoking b true true true ws d -> guarantees L d (ws ++ wsc).
Proof.
  intros Hck Hex Hwsc [(pre & r & cas & -> & Hp & Hc & Ht & Hrf & Hpu)].
  rewrite <- app_assoc. apply guarantees_app.
  - apply all_harmless_guarantees. eapply Forall_impl; [exact Hp|]. apply cascades_harmless.
  - apply revocation_guarantees; try done.
    + eapply cleared_shrink; [by apply cascades_shrink; [apply cascades_tokens|]|auto].
    + eapply cleared_shrink; [by apply cascades_shrink; [apply cascades_refresh|]|auto].
    + eapply cleared_shrink; [by apply cascades_shrink; [apply cascades_pushed|]|auto].
Qed.

(** The exec of a revocation's barrier: the [CHECK]s passed. *)
Lemma safe_record_barrier {A} op b sc c f s w (k : unit -> txn (result A StorageError)) L pre d :
  barrier_key b = {| bk_scope := sc; bk_client_id := unwrap_or c ""; bk_family_id := unwrap_or f "";
                     bk_subject := unwrap_or s "" |} ->
  Forall cascades pre ->
  (forall r d', barrier_check (barrier_key b) = true ->
     revoking b false false false (pre ++ [Upsert revocation_barriers (barrier_key b) r]) d' ->
     safe (k tt) L (pre ++ [Upsert revocation_barriers (barrier_key b) r]) d') ->
  safe (PostgresStorage.pg_record_barrier op sc c f s w A k) L pre d.
Proof.
  intros Hkey Hpre Hk. unfold PostgresStorage.pg_record_barrier. rewrite <- Hkey. apply safe_exec.
  intros d1 g1 d2 g2 locked [] ws' _ _ _ _. unfold upsert. cbn [t_constraint revocation_barriers].
  destruct (barrier_check (barrier_key b)) eqn:Hck; intros [= <-].
  apply Hk; [done|]. by apply revoking_start.
Qed.

Lemma rows_affected_ok {K R} (st : Stmt (list (K * R))) s n ws :
  PostgresStorage.rows_affected st s = Ok (n, ws) -> exists rows, st s = Ok (rows, ws).
Proof. unfold PostgresStorage.rows_affected. destruct (st s) as [[rows ws0]|]; [|done]. intros [= _ <-]. eauto. Qed.

(** The statements of a cascade. *)
Section cascade.
Context {A : Type} (op : string) (b : RevocationBarrier) (L : Locks) (Hex : (Exclusive, bkey b) ∈ L).
Implicit Types (k : Z -> txn (result A StorageError)).

Lemma cascade_step {K R X} `{Countable K} (t : Table K R) p ts rs ps ws d (st : Stmt X)
    (k : X -> txn (result A StorageError)) :
  (forall s x ws', st s = Ok (x, ws') -> exists rows, delete_where t p s = Ok (rows, ws')) ->
  revoking b ts rs ps ws d ->
  (forall x d1 g1 d2 g2 locked rows, relies L d g1 d1 -> relies L d1 g2 d2 ->
     delete_where t p {| sn_then := apply_writes ws d1; sn_now := apply_writes ws d2; sn_gone := g2;
                         sn_locked := locked |} = Ok (rows, map (fun '(k, _) => Remove t k) rows) ->
     revoking b ts rs ps ws d1 ->
     safe (k x) L (ws ++ map (fun '(k, _) => Remove t k) rows) d2) ->
  safe (exec op st A k) L ws d.
Proof.
  intros Hst Hrv Hk. apply safe_exec. intros d1 g1 d2 g2 locked x ws' Hr1 _ Hr2 _ Hok.
  destruct (Hst _ _ _ Hok) as [rows Hrows]. assert (Hws : ws' = map (fun '(k, _) => Remove t k) rows).
  { by injection Hrows as <- <-. }
  subst ws'. eapply Hk; eauto. rewrite <- (app_nil_r ws).
  eapply revoking_step; [exact Hex|exact Hr1|done|done].
Qed.

Lemma cascade_plain {K R X} `{Countable K} (t : Table K R) p ts rs ps ws d (st : Stmt X)
    (k : X -> txn (result A StorageError)) :
  (forall s x ws', st s = Ok (x, ws') -> exists rows, delete_where t p s = Ok (rows, ws')) ->
  (forall key, cascades (Remove t key)) -> revoking b ts rs ps ws d ->
  (forall x (rows : list (K * R)) d', revoking b ts rs ps (ws ++ map (fun '(k, _) => Remove t k) rows) d' ->
     safe (k x) L (ws ++ map (fun '(k, _) => Remove t k) rows) d') ->
  safe (exec op st A k) L ws d.
Proof.
  intros Hst Hca Hrv Hk. eapply cascade_step; [exact Hst|exact Hrv|].
  intros x d1 g1 d2 g2 locked rows _ Hr2 _ Hrv1. apply Hk.
  eapply revoking_step; [exact Hex|exact Hr2|by apply cascade_rows|done].
Qed.

Lemma cascade_tokens {X} p ts rs ps ws d (st : Stmt X) (k : X -> txn (result A StorageError)) :
  (forall s x ws', st s = Ok (x, ws') -> exists rows, delete_where access_tokens p s = Ok (rows, ws')) ->
  (forall key r, token_in b r -> p key r = true) -> untouched access_tokens ws ->
  revoking b ts rs ps ws d ->
  (forall x (rows : list (string * TokenRow)) d',
     revoking b true rs ps (ws ++ map (fun '(k, _) => Remove access_tokens k) rows) d' ->
     safe (k x) L (ws ++ map (fun '(k, _) => Remove access_tokens k) rows) d') ->
  safe (exec op st A k) L ws d.
Proof.
  intros Hst Hp Hu Hrv Hk. eapply cascade_step; [exact Hst|exact Hrv|].
  intros x d1 g1 d2 g2 locked rows _ Hr2 Hdel Hrv1. apply Hk.
  eapply (revoking_clear b ts rs ps ws); [exact Hex|exact Hr2|apply cascade_rows; constructor|done|].
  eapply delete_where_clears; [exact Hp|exact Hu|by eapply rl_tokens|exact Hdel].
Qed.
Lemma cascade_refresh {X} p ts rs ps ws d (st : Stmt X) (k : X -> txn (result A StorageError)) :
  (forall s x ws', st s = Ok (x, ws') -> exists rows, delete_where refresh_tokens p s = Ok (rows, ws')) ->
  (forall key r, refresh_in b r -> p key r = true) -> untouched refresh_tokens ws ->
  revoking b ts rs ps ws d ->
  (forall x (rows : list (string * RefreshRow)) d',
     revoking b ts true ps (ws ++ map (fun '(k, _) => Remove refresh_tokens k) rows) d' ->
     safe (k x) L (ws ++ map (fun '(k, _) => Remove refresh_tokens k) rows) d') ->
  safe (exec op st A k) L ws d.
Proof.
  intros Hst Hp Hu Hrv Hk. eapply cascade_step; [exact Hst|exact Hrv|].
  intros x d1 g1 d2 g2 locked rows _ Hr2 Hdel Hrv1. apply Hk.
  eapply (revoking_clear b ts rs ps ws); [exact Hex|exact Hr2|apply cascade_rows; constructor|done|].
  eapply delete_where_clears; [exact Hp|exact Hu|by eapply rl_refresh|exact Hdel].
Qed.
Lemma cascade_pushed {X} p ts rs ps ws d (st : Stmt X) (k : X -> txn (result A StorageError)) :
  (forall s x ws', st s = Ok (x, ws') -> exists rows, delete_where pushed_requests p s = Ok (rows, ws')) ->
  (forall key r, pushed_in b r -> p key r = true) -> untouched pushed_requests ws ->
  revoking b ts rs ps ws d ->
  (forall x (rows : list (string * PushedRow)) d',
     revoking b ts rs true (ws ++ map (fun '(k, _) => Remove pushed_requests k) rows) d' ->
     safe (k x) L (ws ++ map (fun '(k, _) => Remove pushed_requests k) rows) d') ->
  safe (exec op st A k) L ws d.
Proof.
  intros Hst Hp Hu Hrv Hk. eapply cascade_step; [exact Hst|exact Hrv|].
  intros x d1 g1 d2 g2 locked rows _ Hr2 Hdel Hrv1. apply Hk.
  eapply (revoking_clear b ts rs ps ws); [exact Hex|exact Hr2|apply cascade_rows; constructor|done|].
  eapply delete_where_clears; [exact Hp|exact Hu|by eapply rl_pushed|exact Hdel].
Qed.

(** The scopes other than a client's have no pushed requests. *)
Lemma revoking_no_pushed ws d : (forall r, ~ pushed_in b r) ->
  revoking b true true false ws d -> revoking b true true true ws d.
Proof.
  intros Hno [(pre & r & cas & -> & Hp & Hc & Ht & Hrf & Hpu)]. split.
  exists pre, r, cas. split_and!; auto. intros _ k row _ Hin. by destruct (Hno row).
Qed.
End cascade.

Ltac left_alone :=
  repeat first [apply untouched_nil | apply untouched_app | apply untouched_removes; [apply _|done]
               | apply untouched_one; done].
Lemma rows_of {K R} (st : Stmt (list (K * R))) s x ws : st s = Ok (x, ws) -> exists rows, st s = Ok (rows, ws).
Proof. eauto. Qed.

Lemma delete_client_safe c w : method_safe (PostgresStorage.pg_delete_client c w).
Proof.
  intros d _ d0 g0 _ _. cbn [rev map app].
  assert (Hex : (Exclusive, bkey (BClient c)) ∈ [(Exclusive, scope_key "client" c "")]) by set_solver.
  eapply (safe_record_barrier _ (BClient c)); [done|constructor|]. intros r d' Hck Hrv.
  eapply (cascade_plain _ _ _ Hex consents); [apply rows_of|constructor|exact Hrv|].
  intros x1 rows1 d1 Hrv1. clear Hrv. cbn [PostgresStorage.delete_each].
  eapply (cascade_tokens _ _ _ Hex); [apply rows_affected_ok|intros k row Hin; apply bool_decide_true; exact Hin| |exact Hrv1|].
  { left_alone. }
  intros x2 rows2 d2 Hrv2. clear Hrv1.
  eapply (cascade_refresh _ _ _ Hex); [apply rows_affected_ok|intros k row Hin; apply bool_decide_true; exact Hin| |exact Hrv2|].
  { left_alone. }
  intros x3 rows3 d3 Hrv3. clear Hrv2.
  eapply (cascade_plain _ _ _ Hex authorization_codes); [apply rows_affected_ok|constructor|exact Hrv3|].
  intros x4 rows4 d4 Hrv4. clear Hrv3.
  eapply (cascade_plain _ _ _ Hex device_grants); [apply rows_affected_ok|constructor|exact Hrv4|].
  intros x5 rows5 d5 Hrv5. clear Hrv4.
  eapply (cascade_pushed _ _ _ Hex); [apply rows_of|intros k row Hin; apply bool_decide_true; exact Hin| |exact Hrv5|].
  { left_alone. }
  intros x6 rows6 d6 Hrv6. clear Hrv5.
  apply safe_exec. intros d7 g7 d8 g8 locked row ws' Hr7 _ Hr8 _ Hst.
  apply safe_commit. intros d9 g9 Hr9 _. eapply (revoking_commit (BClient c)); [done|done| |].
  - revert Hst. unfold delete_pk. case_match; intros [= _ <-]; [right; eauto|by left].
  - rewrite <- (app_nil_r (_ ++ _)).
    eapply revoking_step; [exact Hex|exact Hr9|done|]. rewrite <- (app_nil_r (_ ++ _)).
    eapply revoking_step; [exact Hex|exact Hr8|done|]. rewrite <- (app_nil_r (_ ++ _)).
    eapply revoking_step; [exact Hex|exact Hr7|done|exact Hrv6].
Qed.

Lemma revoke_token_family_safe f w : method_safe (PostgresStorage.pg_revoke_token_family f w).
Proof.
  intros d _ d0 g0 _ _. cbn [rev map app].
  assert (Hex : (Exclusive, bkey (BTokenFamily f)) ∈ [(Exclusive, scope_key "family" f "")]) by set_solver.
  eapply (safe_record_barrier _ (BTokenFamily f)); [done|constructor|]. intros r d' Hck Hrv.
  cbn [PostgresStorage.delete_each].
  eapply (cascade_tokens _ _ _ Hex); [apply rows_affected_ok|intros k row Hin; apply bool_decide_true; exact Hin| |exact Hrv|].
  { left_alone. }
  intros x2 rows2 d2 Hrv2. clear Hrv.
  eapply (cascade_refresh _ _ _ Hex); [apply rows_affected_ok|intros k row Hin; apply bool_decide_true; exact Hin| |exact Hrv2|].
  { left_alone. }
  intros x3 rows3 d3 Hrv3. clear Hrv2. apply safe_commit. intros d9 g9 Hr9 _.
  rewrite <- (app_nil_r (_ ++ _)). eapply (revoking_commit (BTokenFamily f)); [done|done|by left|].
  apply revoking_no_pushed; [intros row0 Hf; exact Hf|].
  rewrite <- (app_nil_r (_ ++ _)). eapply revoking_step; [exact Hex|exact Hr9|done|exact Hrv3].
Qed.

Lemma revoke_consent_safe id w : method_safe (PostgresStorage.pg_revoke_consent id w).
Proof.
  intros d _. apply safe_exec. intros d1 g1 d2 g2 locked row ws0 _ _ _ _ Hst.
  assert (Hw0 : Forall cascades ([] ++ ws0) /\ untouched access_tokens ([] ++ ws0)
                /\ untouched refresh_tokens ([] ++ ws0)).
  { revert Hst. unfold delete_pk. case_match; intros [= _ <-]; repeat constructor. }
  destruct Hw0 as (Hw0 & Hu1 & Hu2). clear Hst. revert Hw0 Hu1 Hu2. generalize ([] ++ ws0). clear ws0.
  intros ws0 Hw0 Hu1 Hu2. destruct row as [row|]; cycle 1.
  { apply safe_commit_harmless. eapply Forall_impl; [exact Hw0|]. apply cascades_harmless. }
  intros d3 g3 _ _. cbn [rev map app].
  set (c := cs_client_id row). set (s := cs_subject row).
  assert (Hex : (Exclusive, bkey (BConsent c s)) ∈ [(Exclusive, scope_key "consent" c s)]) by set_solver.
  eapply (safe_record_barrier _ (BConsent c s)); [done|done|]. intros r d' Hck Hrv.
  cbn [PostgresStorage.delete_each].
  eapply (cascade_tokens _ _ _ Hex); [apply rows_affected_ok| | |exact Hrv|].
  { intros k row' [-> ->]. by rewrite !bool_decide_true. }
  { apply untouched_app; [done|left_alone]. }
  intros x2 rows2 d4 Hrv2. clear Hrv.
  eapply (cascade_refresh _ _ _ Hex); [apply rows_affected_ok| | |exact Hrv2|].
  { intros k row' [-> ->]. by rewrite !bool_decide_true. }
  { apply untouched_app; [apply untouched_app; [done|left_alone]|left_alone]. }
  intros x3 rows3 d5 Hrv3. clear Hrv2.
  eapply (cascade_plain _ _ _ Hex authorization_codes); [apply rows_affected_ok|constructor|exact Hrv3|].
  intros x4 rows4 d6 Hrv4. clear Hrv3.
  eapply (cascade_plain _ _ _ Hex device_grants); [apply rows_affected_ok|constructor|exact Hrv4|].
  intros x5 rows5 d7 Hrv5. clear Hrv4. apply safe_commit. intros d9 g9 Hr9 _.
  rewrite <- (app_nil_r (_ ++ _)). eapply (revoking_commit (BConsent c s)); [done|done|by left|].
  apply revoking_no_pushed; [intros row0 Hf; exact Hf|].
  rewrite <- (app_nil_r (_ ++ _)). eapply revoking_step; [exact Hex|exact Hr9|done|exact Hrv5].
Qed.

Lemma compare_and_swap_consent_safe e x : method_safe (PostgresStorage.pg_compare_and_swap_consent e x).
Proof.
  intros d _ d0 g0 _ _. cbn [rev map app].
  apply safe_exec_harmless; [auto with pg|]. intros live ws1 d1 Hw1. cbn [app].
  apply safe_try. intros rec _. case_match; [|done].
  apply safe_try. intros v _. apply safe_exec_harmless; [auto with pg|]. intros [] ws2 d2 Hw2.
  apply safe_commit_harmless. by apply Forall_app_2.
Qed.

Lemma sweep_loop_safe fuel st removed k : harmless_stmt st -> (forall n, method_safe (k n)) ->
  method_safe (PostgresStorage.sweep_loop fuel st removed k).
Proof.
  intros Hst Hk. revert removed. induction fuel as [|fuel IH]; intros removed; [done|].
  cbn [PostgresStorage.sweep_loop]. apply safe_pool; [done|]. intros n. case_match; auto.
Qed.
Lemma sweep_expired_safe fuel now : method_safe (PostgresStorage.pg_sweep_expired fuel now).
Proof.
  unfold PostgresStorage.pg_sweep_expired, PostgresStorage.sweep_statements.
  set (limit := Z.to_nat _). clearbody limit. cbn zeta. cbn [PostgresStorage.sweep_tables].
  repeat (apply sweep_loop_safe; [apply writes_delete_batch; auto with pg|intros ?]). done.
Qed.

(** What a call has to satisfy: the records it writes decode, and a rotation stays within
    its grant. *)
Definition well_formed {X} (op : StoreOp X) : Prop :=
  match op with
  | PutToken x => decodes x
  | PutRefreshToken x => decodes x
  | PutPushedAuthorizationRequest x => decodes x
  | RotateRefreshToken e s a n =>
      same_grant_refresh e s /\ same_grant_access e a /\ (forall x, n = Some x -> same_grant_refresh e x)
      /\ decodes s /\ decodes a /\ (forall x, n = Some x -> decodes x)
  | _ => True
  end.

Ltac pool_statement :=
  repeat (apply safe_or_return; intros ? _);
  first [ apply safe_pool; [auto with pg|intros ?; exact I] | apply safe_auto; auto with pg ].

Lemma method_is_safe {X} (op : StoreOp X) fuel : well_formed op ->
  method_safe (PostgresStorage.method fuel op).
Proof.
  intros Hop. destruct op; cbn [PostgresStorage.method well_formed] in *.
  - pool_statement.
  - pool_statement.
  - pool_statement.
  - apply delete_client_safe.
  - pool_statement.
  - pool_statement.
  - pool_statement.
  - pool_statement.
  - pool_statement.
  - pool_statement.
  - pool_statement.
  - pool_statement.
  - by apply put_pushed_safe.
  - pool_statement.
  - by apply put_token_safe.
  - pool_statement.
  - pool_statement.
  - by apply put_refresh_token_safe.
  - pool_statement.
  - destruct Hop as (? & ? & ? & ? & ? & ?). by apply rotate_refresh_token_safe.
  - pool_statement.
  - apply revoke_token_family_safe.
  - pool_statement.
  - apply compare_and_swap_consent_safe.
  - pool_statement.
  - pool_statement.
  - pool_statement.
  - apply revoke_consent_safe.
  - pool_statement.
  - apply sweep_expired_safe.
Qed.

(** ** Calls of every kind in one pool *)
Definition Answer : Type := { X : Type & result X StorageError }.

Lemma txn_map_safe {A B} (f : A -> B) (p : txn A) : forall L ws d, safe p L ws d -> safe (txn_map f p) L ws d.
Proof. induction p; intros L ws d Hs; cbn in *; eauto. Qed.
Lemma sql_map_safe {A B} (f : A -> B) (p : sql A) : method_safe p -> method_safe (sql_map f p).
Proof.
  induction p as [a|X st k IH|failed body|]; cbn; try done.
  - intros [Hst Hk]. split; [done|]. intros r. by apply IH.
  - intros Hb d Hd. by apply txn_map_safe, Hb.
Qed.

Definition call (fuel : nat) (o : AnyOp) : sql Answer :=
  sql_map (existT (projT1 o)) (PostgresStorage.method fuel (projT2 o)).
Definition start (fuel : nat) (ops : list AnyOp) : list (thread Answer) := map Rest (map (call fuel) ops).

Lemma none_covered_empty : none_covered db_empty.
Proof. split; intros k r Hk; cbn in Hk; by rewrite lookup_empty in Hk. Qed.

(** C6. Under every interleaving of any number of storage calls on PostgreSQL at READ
    COMMITTED (issuances, rotations, pushes, revocations, deletions, sweeps and reads, each
    a sequence of statements and locks, any of which may fail at any point), no committed
    access token, refresh token or pushed request is ever covered by a committed
    revocation barrier: a write whose check ran before a revocation either commits before
    the revocation's removals, which take it along, or is refused. *)
Theorem no_interleaving_resurrects fuel ops d pool :
  Forall (fun o => well_formed (projT2 o)) ops ->
  reaches (db_empty, start fuel ops) (d, pool) ->
  (forall k r, oauth_as_access_tokens d !! k = Some r -> exists x,
     from_value (tk_payload r) = Some x /\
     ~ revoked d (it_client_id x) (it_family_id x) (it_subject x) (it_grant_established_at x)) /\
  (forall k r, oauth_as_refresh_tokens d !! k = Some r -> exists x,
     from_value (rf_payload r) = Some x /\
     ~ revoked d (rt_client_id x) (Some (rt_family_id x)) (rt_subject x) (rt_grant_established_at x)) /\
  (forall k r, oauth_as_pushed_requests d !! k = Some r -> exists x,
     from_value (pu_payload r) = Some x /\ ~ revoked d (par_client_id x) None None (par_pushed_at x)).
Proof.
  intros Hops Hreach.
  destruct (reaches_safe none_covered relies guarantees _ _ Hreach) as [Hi _].
  { apply start_safe; [apply none_covered_empty|]. apply Forall_fmap. eapply Forall_impl; [exact Hops|].
    intros o Ho. by apply sql_map_safe, method_is_safe. }
  destruct Hi as [_ It Ir Ip]. split_and!.
  - intros k r Hk. destruct (It k r Hk) as (x & _ & ? & ?). eauto.
  - intros k r Hk. destruct (Ir k r Hk) as (x & _ & ? & ?). eauto.
  - intros k r Hk. destruct (Ip k r Hk) as (x & _ & ? & ?). eauto.
Qed.
End final.

(** ** Witnesses *)
Section witnesses.
#[local] Existing Instances boxed_json boxed_records boxed_order boxed_laws.

(** An issuance has checked its barriers when a revocation of its family starts. *)
Definition racing : list AnyOp :=
  [any (PutToken (demo_token "at1" "fam")); any (RevokeTokenFamily "fam" demo_window)].
Definition racing_schedule : list nat :=
  [0; 0; 0; 0; 0; 0; 0; 1; 0; 0; 0; 1; 1; 1; 1; 1; 1; 1; 1; 1]%nat.

Lemma no_interleaving_resurrects_witness :
  exists d pool, reaches (db_empty, start 1 racing) (d, pool) /\
    is_some (oauth_as_revocation_barriers d !! barrier_key (BTokenFamily "fam")) = true /\
    (forall k r, oauth_as_access_tokens d !! k = Some r -> exists x,
       from_value (tk_payload r) = Some x /\
       ~ revoked d (it_client_id x) (it_family_id x) (it_subject x) (it_grant_established_at x)).
Proof.
  assert (Hb : match run_schedule racing_schedule (db_empty, start 1 racing) with
               | Some (d, _) => is_some (oauth_as_revocation_barriers d !! barrier_key (BTokenFamily "fam"))
               | None => false
               end = true) by (vm_compute; reflexivity).
  destruct (run_schedule racing_schedule (db_empty, start 1 racing)) as [[d pool]|] eqn:Hrun; [|done].
  exists d, pool.
  assert (Hreach : reaches (db_empty, start 1 racing) (d, pool)) by (by eapply run_schedule_reaches).
  split; [exact Hreach|]. split; [exact Hb|].
  apply (no_interleaving_resurrects 1 racing d pool); [|exact Hreach].
  clear. repeat constructor. intros v [= <-]. reflexivity.
Defined.
End witnesses.
