(* ===== verification/PgOnce.v ===== *)
(** * Single use, decided by the database

    What [store.rs] says of its [take_*] methods, of [claim_replay_id] and of the swap of
    an authorization code: of any number of calls in flight that would redeem one thing,
    at most one is told it did, because the statement that decides removes or changes the
    row it decided on in the same step.  The implementations [naive.rs] keeps, which read
    first and write after, are run on the schedule that breaks them. *)
From S2P Require Import Prelude Time Codec Types Store StoreFacts Sql Postgres SqlFacts PgRep PgRefines PgRaces PgFinal.
Local Open Scope Z_scope.

(** ** A resource that can be consumed *)
Section resource.
Context `{PgJson, PgOrder}.
Context (avail : Db -> bool).
Implicit Types (d : Db) (th : thread bool).

(** A statement whose answer, when it is a win, consumed the resource. *)
Record consumes {X} (st : Stmt X) (k : result X SqlxError -> sql bool) : Prop := {
  cn_ret : forall r, exists b, k r = SRet b;
  cn_err : forall e, k (Err e) = SRet false;
  cn_win : forall s x ws, st s = Ok (x, ws) -> k (Ok x) = SRet true ->
    avail (sn_now s) = true /\ avail (apply_writes ws (sn_now s)) = false;
  cn_lose : forall s x ws, st s = Ok (x, ws) -> k (Ok x) = SRet false ->
    avail (apply_writes ws (sn_now s)) = true -> avail (sn_now s) = true;
}.

(** A write that cannot bring the resource back. *)
Definition spares (w : Write) : Prop := forall d, avail (apply_write w d) = true -> avail d = true.

Fixpoint txn_spares (p : txn bool) : Prop :=
  match p with
  | TReturn b => b = false
  | TExec st k => stmt_writes spares st /\ (forall r, txn_spares (k r))
  | TLocks _ _ k => forall r, txn_spares (k r)
  | TCommit k | TRollback k => forall r, k r = false
  end.
Fixpoint sql_spares (p : sql bool) : Prop :=
  match p with
  | SRet b => b = false
  | SAuto st k => stmt_writes spares st /\ (forall r, sql_spares (k r))
  | SBegin f body => (forall e, f e = false) /\ txn_spares body
  | SSpin => True
  end.

Definition contender (p : sql bool) : Prop :=
  match p with
  | SAuto st k => consumes st k \/ sql_spares p
  | SRet _ => True
  | _ => sql_spares p
  end.

Definition thread_fine th : Prop :=
  match th with
  | Rest p => contender p
  | Auto st k _ _ => consumes st k \/ sql_spares (SAuto st k)
  | InTxn p ws _ _ => txn_spares p /\ Forall spares ws
  | Exec st k ws _ _ _ => txn_spares (TExec st k) /\ Forall spares ws
  | Done _ => True
  end.
Definition winner th : nat :=
  match th with Rest (SRet true) | Done true => 1 | _ => 0 end.
Definition units (d : Db) : nat := if avail d then 1 else 0.

Lemma spares_all ws : Forall spares ws -> forall d, (units (apply_writes ws d) <= units d)%nat.
Proof.
  induction 1 as [|w ws Hw Hws IH]; intros d; [done|]. cbn. etransitivity; [apply IH|].
  unfold units. specialize (Hw d). destruct (avail (apply_write w d)); [by rewrite Hw|lia].
Qed.

Lemma spares_rest p : sql_spares p -> contender p.
Proof. destruct p; cbn; auto. Qed.
Lemma spares_no_win p : sql_spares p -> winner (Rest p) = 0%nat.
Proof. by destruct p; cbn; try done; intros ->. Qed.

(** A step moves the unit from the database to a winner, or drops it. *)
Lemma step_units others d th d' th' ws :
  thread_fine th -> thread_step others d th d' th' ws ->
  thread_fine th' /\ (winner th' + units d' <= winner th + units d)%nat.
Proof.
  intros Hf Hstep. destruct Hstep; cbn in Hf |- *.
  - split; [done|]. by destruct a.
  - by split.
  - destruct Hf as [Hc|[Hst Hk]].
    + destruct (cn_ret _ _ Hc (Ok x)) as [b Hb]. rewrite Hb. split; [done|].
      unfold units. destruct b; cbn.
      * destruct (cn_win _ _ Hc _ _ _ H1 Hb) as [Hn Ha]. cbn in Hn, Ha. by rewrite Hn, Ha.
      * pose proof (cn_lose _ _ Hc _ _ _ H1 Hb) as Hl. cbn in Hl.
        destruct (avail (apply_writes ws d)); [by rewrite Hl|lia].
    + split; [by apply spares_rest|]. pose proof (spares_no_win _ (Hk (Ok x))) as Hw. cbn in Hw. rewrite Hw.
      apply spares_all. by eapply Hst.
  - destruct Hf as [Hc|[Hst Hk]]; [by rewrite (cn_err _ _ Hc)|].
    split; [by apply spares_rest|]. pose proof (spares_no_win _ (Hk (Err e))) as Hw. cbn in Hw. by rewrite Hw.
  - destruct Hf as [Hc|[Hst Hk]]; [by rewrite (cn_err _ _ Hc)|].
    split; [by apply spares_rest|]. pose proof (spares_no_win _ (Hk (Err e))) as Hw. cbn in Hw. by rewrite Hw.
  - destruct Hf. split; [|done]. by split.
  - destruct Hf as [Hf _]. by rewrite Hf.
  - done.
  - destruct Hf as [[Hst Hk] Hws]. split; [|done]. split; [done|]. apply Forall_app_2; [done|]. by eapply Hst.
  - destruct Hf as [[Hst Hk] Hws]. done.
  - destruct Hf as [[Hst Hk] Hws]. done.
  - destruct Hf as [[Hst Hk] Hws]. done.
  - destruct Hf. done.
  - destruct Hf. done.
  - destruct Hf. done.
  - destruct Hf. done.
  - destruct Hf as [Hk Hws]. rewrite Hk. split; [done|]. by apply spares_all.
  - destruct Hf as [Hk Hws]. rewrite Hk. split; [done|]. by apply spares_all.
  - destruct Hf as [Hk Hws]. by rewrite Hk.
  - destruct Hf as [Hk Hws]. by rewrite Hk.
  - destruct Hf as [Hk Hws]. by rewrite Hk.
  - destruct Hf as [-> Hws]. done.
Qed.

Definition winners (pool : list (thread bool)) : nat := sum_list (map winner pool).

Lemma winner_notice ws th : winner (notice ws th) = winner th.
Proof. by destruct th. Qed.
Lemma winners_notice ws pool : winners (map (notice ws) pool) = winners pool.
Proof. unfold winners. rewrite map_map. f_equal. apply map_ext. apply winner_notice. Qed.
Lemma winners_app p q : winners (p ++ q) = (winners p + winners q)%nat.
Proof. unfold winners. by rewrite map_app, sum_list_with_app || (rewrite map_app; apply sum_list_app). Qed.

Lemma pool_units d0 pool0 d pool :
  reaches (d0, pool0) (d, pool) -> Forall thread_fine pool0 ->
  Forall thread_fine pool /\ (winners pool + units d <= winners pool0 + units d0)%nat.
Proof.
  intros Hr Hf. remember (d0, pool0) as s0 eqn:Hs0. remember (d, pool) as s eqn:Hs.
  revert d pool Hs. induction Hr as [s|s1 s2 s3 Hr IH Hstep]; intros d pool ->.
  - by simplify_eq.
  - destruct s2 as [d2 pool2]. destruct (IH Hs0 d2 pool2 eq_refl) as [Hf2 Hle].
    inversion Hstep as [? ? before th th' after ws Hth]; subst.
    apply Forall_app in Hf2 as [Hb [Hx Ha]%Forall_cons].
    destruct (step_units _ _ _ _ _ _ Hx Hth) as [Hx' Hu].
    split.
    + assert (Hn : forall l, Forall thread_fine l -> Forall thread_fine (map (notice ws) l)).
      { intros l Hl. apply Forall_fmap. eapply Forall_impl; [exact Hl|]. by intros []. }
      apply Forall_app_2; [by apply Hn|]. constructor; [done|by apply Hn].
    + rewrite winners_app in *. unfold winners in *. cbn in *. fold (winners before) in *.
      pose proof (winners_notice ws before) as Hw1. pose proof (winners_notice ws after) as Hw2.
      unfold winners in *. lia.
Qed.
End resource.

(** ** What each method can write *)
Section footprints.
Context `{PgRecords, PgOrder, !PgLaws}.

Definition upserts {K R} `{Countable K} (t : Table K R) (k : K) (w : Write) : Prop :=
  exists r, w = Upsert t k r.
Inductive swept : Write -> Prop :=
| sw_device k : swept (Remove device_grants k)
| sw_code k : swept (Remove authorization_codes k)
| sw_token k : swept (Remove access_tokens k)
| sw_refresh k : swept (Remove refresh_tokens k)
| sw_pushed k : swept (Remove pushed_requests k)
| sw_replay k : swept (Remove replay_ids k)
| sw_barrier k : swept (Remove revocation_barriers k).

Definition may_write {X} (op : StoreOp X) (w : Write) : Prop :=
  match op with
  | PutClient c | CompareAndSwapClient _ c => upserts clients (c_client_id c) w
  | DeleteClient c _ =>
      cascades w \/ (exists k, upserts revocation_barriers k w) \/ w = Remove clients c
  | PutDeviceGrant x | CompareAndSwapDeviceGrant _ x => upserts device_grants (dg_device_code x) w
  | TakeDeviceGrant k => w = Remove device_grants k
  | PutAuthorizationCode x | CompareAndSwapAuthorizationCode _ x =>
      exists v, to_value x = Some v /\ w = Upsert authorization_codes (ac_code x) (code_row x v)
  | TakeAuthorizationCode k => w = Remove authorization_codes k
  | PutPushedAuthorizationRequest x => upserts pushed_requests (par_request_uri x) w
  | TakePushedAuthorizationRequest k => w = Remove pushed_requests k
  | PutToken x => upserts access_tokens (it_access_token x) w
  | DeleteToken k => w = Remove access_tokens k
  | PutRefreshToken x => upserts refresh_tokens (rt_refresh_token x) w
  | RotateRefreshToken e s a n =>
      w = Hold refresh_tokens (rt_refresh_token e) \/ upserts refresh_tokens (rt_refresh_token s) w
      \/ upserts access_tokens (it_access_token a) w
      \/ (exists x, n = Some x /\ upserts refresh_tokens (rt_refresh_token x) w)
  | TakeRefreshToken k => w = Remove refresh_tokens k
  | RevokeTokenFamily _ _ | RevokeConsent _ _ =>
      cascades w \/ (exists k, upserts revocation_barriers k w)
  | PutConsent x => upserts consents (cr_consent_id x) w
  | CompareAndSwapConsent _ x =>
      upserts consents (cr_consent_id x) w \/ (exists k, w = Hold consents k)
  | ClaimReplayId id _ => upserts replay_ids id w
  | SweepExpired _ => swept w
  | _ => False
  end.

Fixpoint txn_writes {A} (W : Write -> Prop) (p : txn A) : Prop :=
  match p with
  | TExec st k => stmt_writes W st /\ (forall r, txn_writes W (k r))
  | TLocks _ _ k => forall r, txn_writes W (k r)
  | _ => True
  end.
Fixpoint sql_writes {A} (W : Write -> Prop) (p : sql A) : Prop :=
  match p with
  | SAuto st k => stmt_writes W st /\ (forall r, sql_writes W (k r))
  | SBegin _ body => txn_writes W body
  | _ => True
  end.

Lemma exec_writes {X A} W op (st : Stmt X) (k : X -> txn (result A StorageError)) :
  stmt_writes W st -> (forall x, txn_writes W (k x)) -> txn_writes W (exec op st A k).
Proof. intros Hst Hk. split; [done|]. intros [x|e]; [apply Hk|done]. Qed.
Lemma try_writes {X A} W (r : result X StorageError) (k : X -> txn (result A StorageError)) :
  (forall x, r = Ok x -> txn_writes W (k x)) -> txn_writes W (try r A k).
Proof. intros Hk. destruct r; [by apply Hk|done]. Qed.
Lemma shared_writes {A} W op c f s (k : unit -> txn (result A StorageError)) :
  txn_writes W (k tt) -> txn_writes W (PostgresStorage.lock_barrier_scopes op c f s A k).
Proof. intros Hk [[]|e]; done. Qed.
Lemma exclusive_writes {A} W op key (k : unit -> txn (result A StorageError)) :
  txn_writes W (k tt) -> txn_writes W (PostgresStorage.lock_barrier_scope_exclusive op key A k).
Proof. intros Hk [[]|e]; done. Qed.
Lemma covers_writes {A} W op c f s t (k : bool -> txn (result A StorageError)) :
  (forall x, txn_writes W (k x)) -> txn_writes W (PostgresStorage.barrier_covers op c f s t A k).
Proof. apply exec_writes, writes_silent. by intros ? ? ? [= _ <-]. Qed.
Lemma record_writes {A} (W : Write -> Prop) op sc c f s w (k : unit -> txn (result A StorageError)) :
  (forall key r, W (Upsert revocation_barriers key r)) -> (forall x, txn_writes W (k x)) ->
  txn_writes W (PostgresStorage.pg_record_barrier op sc c f s w A k).
Proof. intros Hw. apply exec_writes, writes_upsert. auto. Qed.
Lemma each_writes {A} W op stmts : Forall (stmt_writes W) stmts -> forall n (k : Z -> txn (result A StorageError)),
  (forall x, txn_writes W (k x)) -> txn_writes W (PostgresStorage.delete_each op stmts n A k).
Proof.
  induction 1 as [|st stmts Hst Hs IH]; intros n k Hk; cbn [PostgresStorage.delete_each]; [done|].
  apply exec_writes; [done|]. auto.
Qed.
Lemma pool_writes {X A} W op (st : Stmt X) (k : X -> sql (result A StorageError)) :
  stmt_writes W st -> (forall x, sql_writes W (k x)) -> sql_writes W (on_pool op st k).
Proof. intros Hst Hk. split; [done|]. intros [x|e]; [apply Hk|done]. Qed.
Lemma auto_writes {X A} W (st : Stmt X) (f : result X SqlxError -> result A StorageError) :
  stmt_writes W st -> sql_writes W (SAuto st (fun r => SRet (f r))).
Proof. done. Qed.
Lemma or_return_writes {X A} W (r : result X StorageError) (k : X -> sql (result A StorageError)) :
  (forall x, r = Ok x -> sql_writes W (k x)) -> sql_writes W (or_return r k).
Proof. intros Hk. destruct r; cbn; [by apply Hk|done]. Qed.
Lemma sweep_writes W fuel st removed k : stmt_writes W st -> (forall n, sql_writes W (k n)) ->
  sql_writes W (PostgresStorage.sweep_loop fuel st removed k).
Proof.
  intros Hst Hk. revert removed. induction fuel as [|fuel IH]; intros removed; [done|].
  cbn [PostgresStorage.sweep_loop]. apply pool_writes; [done|]. intros n. case_match; auto.
Qed.

Ltac one_row := apply writes_update || apply writes_upsert || apply writes_delete_pk || apply writes_insert
  || apply writes_select || apply writes_select_where || apply writes_select_first.
Ltac pool_row :=
  repeat (apply or_return_writes; intros ? ?);
  first [ apply pool_writes; [one_row; unfold may_write, upserts; eauto|intros ?; exact I]
        | apply auto_writes; one_row; unfold may_write, upserts; eauto ].
Ltac cascade_row := apply writes_rows_affected, writes_delete_where; intros ?; left; constructor.

Lemma method_writes {X} (op : StoreOp X) fuel : sql_writes (may_write op) (PostgresStorage.method fuel op).
Proof.
  destruct op; cbn [PostgresStorage.method].
  - pool_row.
  - pool_row.
  - pool_row.
  - apply exclusive_writes, record_writes; [unfold may_write, upserts; eauto|]. intros _.
    apply exec_writes; [apply writes_delete_where; intros ?; left; constructor|]. intros _.
    apply each_writes; [repeat (constructor; [cascade_row|]); constructor|]. intros _.
    apply exec_writes; [apply writes_delete_where; intros ?; left; constructor|]. intros _.
    apply exec_writes; [apply writes_delete_pk; by right; right|done].
  - pool_row.
  - pool_row.
  - pool_row.
  - pool_row.
  - pool_row.
  - pool_row. all: intros _; eexists; split; [by eapply encode_value|done].
  - pool_row. all: eexists; split; [by eapply encode_value|done].
  - pool_row.
  - apply or_return_writes. intros v _. apply shared_writes, covers_writes. intros []; [done|].
    apply exec_writes; [apply writes_upsert; unfold may_write, upserts; eauto|done].
  - pool_row.
  - apply shared_writes, covers_writes. intros []; [done|]. apply try_writes. intros v _.
    apply exec_writes; [apply writes_upsert; unfold may_write, upserts; eauto|done].
  - pool_row.
  - pool_row.
  - apply shared_writes, covers_writes. intros []; [done|]. apply try_writes. intros v _.
    apply exec_writes; [apply writes_upsert; unfold may_write, upserts; eauto|done].
  - pool_row.
  - apply shared_writes, covers_writes. intros []; [done|].
    apply exec_writes; [apply writes_pk_for_update; by left|]. intros row.
    apply try_writes. intros cur _. case_match; [done|].
    apply try_writes. intros vs _. apply exec_writes; [apply writes_upsert; right; left; by eexists|]. intros _.
    apply try_writes. intros va _.
    apply exec_writes; [apply writes_upsert; right; right; left; by eexists|]. intros _.
    destruct next as [x|]; [|done]. apply try_writes. intros vx _.
    apply exec_writes; [apply writes_upsert; right; right; right; exists x; split; [done|by eexists]|done].
  - pool_row.
  - apply exclusive_writes, record_writes; [unfold may_write, upserts; eauto|]. intros _.
    apply each_writes; [repeat (constructor; [cascade_row|]); constructor|done].
  - pool_row.
  - apply exclusive_writes, exec_writes; [apply writes_first_for_update; intros k; right; by exists k|]. intros live.
    apply try_writes. intros rec _. case_match; [|done]. apply try_writes. intros v _.
    apply exec_writes; [apply writes_upsert; left; by eexists|done].
  - pool_row.
  - pool_row.
  - pool_row.
  - apply exec_writes; [apply writes_delete_pk; left; constructor|]. intros [row|]; [|done].
    apply exclusive_writes, record_writes; [unfold may_write, upserts; eauto|]. intros _.
    apply each_writes; [repeat (constructor; [cascade_row|]); constructor|done].
  - pool_row.
  - unfold PostgresStorage.pg_sweep_expired, PostgresStorage.sweep_statements.
    set (limit := Z.to_nat _). clearbody limit. cbn zeta. cbn [PostgresStorage.sweep_tables].
    repeat (apply sweep_writes; [apply writes_delete_batch; constructor|intros ?]). done.
Qed.
End footprints.

(** ** What can be redeemed *)
Section single_use.
Context `{PgRecords, PgOrder, !PgLaws}.
Implicit Types (d : Db).

Inductive Resource : Type :=
| RefreshTokenRow (refresh_token : string)
| DeviceGrantRow (device_code : string)
| CodeTaken (code : string)
| PushedRequestRow (request_uri : string)
| ReplayId (id : string)
| CodeIssued (code : string).

(** The state column of a code is the jsonb of [Issued]. *)
Definition is_issued (payload : jsonb) : bool :=
  match to_value Issued with
  | Some v => is_some_and (json_arrow payload "state") (fun st => jsonb_eqb st v)
  | None => false
  end.

Definition available (res : Resource) (d : Db) : bool :=
  match res with
  | RefreshTokenRow k => is_some (oauth_as_refresh_tokens d !! k)
  | DeviceGrantRow k => is_some (oauth_as_device_grants d !! k)
  | CodeTaken k => is_some (oauth_as_authorization_codes d !! k)
  | PushedRequestRow k => is_some (oauth_as_pushed_requests d !! k)
  | ReplayId k => is_none (oauth_as_replay_ids d !! k)
  | CodeIssued k => is_some_and (oauth_as_authorization_codes d !! k) (fun r => is_issued (co_payload r))
  end.

(** The calls that redeem it, and the answer that says they did. *)
Definition redeems_res (res : Resource) {X} (op : StoreOp X) : Prop :=
  match res, op with
  | RefreshTokenRow k, TakeRefreshToken k' => k' = k
  | DeviceGrantRow k, TakeDeviceGrant k' => k' = k
  | CodeTaken k, TakeAuthorizationCode k' => k' = k
  | PushedRequestRow k, TakePushedAuthorizationRequest k' => k' = k
  | ReplayId k, ClaimReplayId k' _ => k' = k
  | CodeIssued k, CompareAndSwapAuthorizationCode Issued u =>
      ac_code u = k /\ ac_state u <> Issued /\ storable (ac_state u) /\ storable Issued
  | _, _ => False
  end.

Definition took {T} (r : result (option T) StorageError) : bool :=
  match r with Ok (Some _) => true | _ => false end.
Definition answered_true (r : result bool StorageError) : bool :=
  match r with Ok true => true | _ => false end.
Definition won {X} (op : StoreOp X) : result X StorageError -> bool :=
  match op with
  | TakeRefreshToken _ => took
  | TakeDeviceGrant _ => took
  | TakeAuthorizationCode _ => took
  | TakePushedAuthorizationRequest _ => took
  | ClaimReplayId _ _ => answered_true
  | CompareAndSwapAuthorizationCode _ _ => answered_true
  | _ => fun _ => false
  end.

(** The calls that could bring it back. *)
Definition restores (res : Resource) {X} (op : StoreOp X) : Prop :=
  match res, op with
  | RefreshTokenRow k, PutRefreshToken x => rt_refresh_token x = k
  | RefreshTokenRow k, RotateRefreshToken _ s _ n =>
      rt_refresh_token s = k \/ exists x, n = Some x /\ rt_refresh_token x = k
  | DeviceGrantRow k, PutDeviceGrant x | DeviceGrantRow k, CompareAndSwapDeviceGrant _ x =>
      dg_device_code x = k
  | CodeTaken k, PutAuthorizationCode x | CodeTaken k, CompareAndSwapAuthorizationCode _ x => ac_code x = k
  | PushedRequestRow k, PutPushedAuthorizationRequest x => par_request_uri x = k
  | ReplayId k, SweepExpired _ => True
  | CodeIssued k, PutAuthorizationCode x | CodeIssued k, CompareAndSwapAuthorizationCode _ x => ac_code x = k
  | _, _ => False
  end.

Lemma some_deleted {V} (m : gmap string V) k k' : is_some (delete k m !! k') = true -> is_some (m !! k') = true.
Proof. rewrite !is_some_true. intros [v [_ Hv]%lookup_delete_Some]. eauto. Qed.
Lemma some_and_deleted {V} (m : gmap string V) k k' p :
  is_some_and (delete k m !! k') p = true -> is_some_and (m !! k') p = true.
Proof. rewrite !is_some_and_true. intros (v & [_ Hv]%lookup_delete_Some & Hp). eauto. Qed.
Lemma none_inserted {V} (m : gmap string V) k v k' :
  is_none (<[k := v]> m !! k') = true -> is_none (m !! k') = true.
Proof.
  unfold is_none. rewrite !negb_true_iff. destruct (decide (k = k')) as [->|].
  - by rewrite lookup_insert_eq.
  - by rewrite lookup_insert_ne.
Qed.
Hint Resolve some_deleted some_and_deleted none_inserted : pg.

Lemma cascades_spare res w : cascades w -> spares (available res) w.
Proof. intros Hw d. destruct Hw, res; cbn; eauto with pg. Qed.
Lemma swept_spare res w : swept w -> (forall k, res <> ReplayId k) -> spares (available res) w.
Proof. intros Hw Hres d. destruct Hw, res; cbn; eauto with pg. by destruct (Hres id). Qed.

(** The upserts that matter to no resource, and the four that matter to theirs. *)
Lemma client_spare res k r : spares (available res) (Upsert clients k r).
Proof. intros d. by destruct res. Qed.
Lemma token_spare res k r : spares (available res) (Upsert access_tokens k r).
Proof. intros d. by destruct res. Qed.
Lemma consent_spare res k r : spares (available res) (Upsert consents k r).
Proof. intros d. by destruct res. Qed.
Lemma barrier_spare res k r : spares (available res) (Upsert revocation_barriers k r).
Proof. intros d. by destruct res. Qed.
Lemma replay_spare res k r : spares (available res) (Upsert replay_ids k r).
Proof. intros d. destruct res; cbn; eauto with pg. Qed.
Lemma hold_spare res {K R} `{Countable K} (t : Table K R) k : spares (available res) (Hold t k).
Proof. by intros d. Qed.
Lemma device_spare res k r : res <> DeviceGrantRow k -> spares (available res) (Upsert device_grants k r).
Proof.
  intros Hne d. destruct res as [x|x|x|x|x|x]; cbn; try done. rewrite lookup_insert_ne; [done|]. congruence.
Qed.
Lemma refresh_spare res k r : res <> RefreshTokenRow k -> spares (available res) (Upsert refresh_tokens k r).
Proof.
  intros Hne d. destruct res as [x|x|x|x|x|x]; cbn; try done. rewrite lookup_insert_ne; [done|]. congruence.
Qed.
Lemma pushed_spare res k r : res <> PushedRequestRow k -> spares (available res) (Upsert pushed_requests k r).
Proof.
  intros Hne d. destruct res as [x|x|x|x|x|x]; cbn; try done. rewrite lookup_insert_ne; [done|]. congruence.
Qed.
Lemma code_spare res k r : res <> CodeTaken k -> res <> CodeIssued k ->
  spares (available res) (Upsert authorization_codes k r).
Proof.
  intros Hn1 Hn2 d. destruct res as [x|x|x|x|x|x]; cbn; try done; (rewrite lookup_insert_ne; [done|]); congruence.
Qed.

Lemma other_spares res {X} (op : StoreOp X) w : ~ restores res op -> may_write op w -> spares (available res) w.
Proof.
  intros Hno Hw. destruct op; cbn [may_write] in Hw; try (by destruct Hw).
  - destruct Hw as [r ->]. apply client_spare.
  - destruct Hw as [r ->]. apply client_spare.
  - destruct Hw as [Hw|[(k & r & ->)| ->]]; [by apply cascades_spare|apply barrier_spare|].
    intros d. by destruct res.
  - destruct Hw as [r ->]. apply device_spare. intros ->. by apply Hno.
  - subst w. apply cascades_spare. constructor.
  - destruct Hw as [r ->]. apply device_spare. intros ->. by apply Hno.
  - destruct Hw as (v & _ & ->). apply code_spare; intros ->; by apply Hno.
  - destruct Hw as (v & _ & ->). apply code_spare; intros ->; by apply Hno.
  - subst w. apply cascades_spare. constructor.
  - destruct Hw as [r ->]. apply pushed_spare. intros ->. by apply Hno.
  - subst w. apply cascades_spare. constructor.
  - destruct Hw as [r ->]. apply token_spare.
  - subst w. apply cascades_spare. constructor.
  - destruct Hw as [r ->]. apply refresh_spare. intros ->. by apply Hno.
  - destruct Hw as [->|[[r ->]|[[r ->]|(x & Hx & r & ->)]]].
    + apply hold_spare.
    + apply refresh_spare. intros ->. apply Hno. by left.
    + apply token_spare.
    + apply refresh_spare. intros ->. apply Hno. right. by exists x.
  - subst w. apply cascades_spare. constructor.
  - destruct Hw as [Hw|(k & r & ->)]; [by apply cascades_spare|apply barrier_spare].
  - destruct Hw as [r ->]. apply consent_spare.
  - destruct Hw as [[r ->]|[k ->]]; [apply consent_spare|apply hold_spare].
  - destruct Hw as [Hw|(k & r & ->)]; [by apply cascades_spare|apply barrier_spare].
  - destruct Hw as [r ->]. apply replay_spare.
  - apply swept_spare; [done|]. intros k ->. by apply Hno.
Qed.

(** ** The redeeming statements *)
Lemma consumes_take {K R T} `{Countable K, !Jsonb T} (avail : Db -> bool) (t : Table K R) `{!GoodTable t} k op
    (payload : R -> jsonb) :
  (forall d, avail d = is_some (t_rows t d !! k)) ->
  consumes avail (delete_pk t k) (fun r =>
    sql_map took (match r with
                  | Ok row => SRet (PostgresStorage.payload_of (T := T) op (payload <$> row))
                  | Err e => SRet (Err (db op e))
                  end)).
Proof.
  intros Ha. split.
  - intros [row|e]; cbn; eauto.
  - done.
  - intros s x ws Hst Hwin. rewrite !Ha.
    assert (Hx : is_Some x) by (destruct x; [by eexists|done]). destruct Hx as [row ->]. clear Hwin.
    unfold delete_pk, recheck in Hst.
    destruct (t_rows t (sn_then s) !! k); cbn in Hst; [|done].
    destruct (sn_gone s (row_id t k)); [done|].
    destruct (t_rows t (sn_now s) !! k) as [r'|]; [|done]. injection Hst as _ <-.
    cbn. by rewrite rows_with, lookup_delete_eq.
  - intros s x ws Hst _. rewrite !Ha. unfold delete_pk in Hst. case_match; simplify_eq; [|done].
    cbn. rewrite rows_with, !is_some_true. intros [v Hv]. by rewrite lookup_delete_eq in Hv.
Qed.

Lemma redeemer_consumes res {X} (op : StoreOp X) fuel : redeems_res res op ->
  contender (available res) (sql_map (won op) (PostgresStorage.method fuel op)).
Proof.
  intros Hred. destruct res, op; try done; cbn in Hred.
  - subst. left. by apply (consumes_take _ refresh_tokens).
  - subst. left. by apply (consumes_take _ device_grants).
  - subst. left. by apply (consumes_take _ authorization_codes).
  - subst. left. by apply (consumes_take _ pushed_requests).
  - subst. left. cbn. split.
    + intros [x|e]; eauto.
    + done.
    + intros s x ws Hst Hx. cbn in Hx. destruct x; [|done]. unfold insert_or_nothing in Hst. cbn in *.
      destruct (oauth_as_replay_ids (sn_now s) !! id); simplify_eq. cbn. by rewrite lookup_insert_eq.
    + intros s x ws Hst Hx. cbn in Hx. destruct x; [done|]. unfold insert_or_nothing in Hst. cbn in *.
      destruct (oauth_as_replay_ids (sn_now s) !! id) eqn:Hr; simplify_eq. cbn. by rewrite Hr.
  - destruct expected; try done. destruct Hred as (<- & Hne & Hs & [vi Hi]).
    cbn [PostgresStorage.method]. unfold PostgresStorage.pg_compare_and_swap_authorization_code.
    rewrite (encode_keeps _ _ _ Hi). cbn [or_return].
    destruct (PostgresStorage.pg_encode _ updated) as [v|e] eqn:Hv; cbn [or_return]; [|done].
    apply encode_value in Hv. left. cbn.
    assert (His : forall payload, is_issued payload =
              is_some_and (json_arrow payload "state") (fun st => jsonb_eqb st vi)).
    { intros payload. unfold is_issued. by rewrite (proj1 Hi). }
    split.
    + intros [x|e]; eauto.
    + done.
    + intros s x ws Hst Hx. cbn in Hx. destruct (x =? 1) eqn:Hx1; [|done]. apply Z.eqb_eq in Hx1 as ->.
      unfold update_pk, recheck in Hst. cbn in Hst |- *.
      destruct (oauth_as_authorization_codes (sn_then s) !! ac_code updated); [|done].
      destruct (is_some_and _ _); [|done]. destruct (sn_gone _ _); [done|].
      destruct (oauth_as_authorization_codes (sn_now s) !! ac_code updated) as [r|]; [|done].
      destruct (is_some_and (json_arrow (co_payload r) "state") _) eqn:Hc; [|done]. simplify_eq. cbn.
      rewrite lookup_insert_eq. cbn. rewrite !His. split; [done|].
      rewrite (state_compare v (ac_state updated) Issued vi (code_state_field updated v Hv) Hs Hi).
      by apply bool_decide_false.
    + intros s x ws Hst Hx. cbn in Hx. destruct (x =? 1) eqn:Hx1; [done|].
      unfold update_pk in Hst. cbn in Hst |- *. repeat case_match; by simplify_eq.
Qed.

Lemma spares_mapped avail {A} (f : A -> bool) (p : sql A) :
  (forall a, f a = false) -> sql_writes (spares avail) p -> sql_spares avail (sql_map f p).
Proof.
  intros Hf. assert (Htxn : forall q : txn A, txn_writes (spares avail) q -> txn_spares avail (txn_map f q)).
  { induction q; cbn; naive_solver. }
  induction p; cbn; naive_solver.
Qed.

(** Calls that redeem, told apart by their answers, and other calls beside them. *)
Definition contest (fuel : nat) (redeemers others : list AnyOp) : list (thread bool) :=
  map Rest (map (fun o => sql_map (won (projT2 o)) (PostgresStorage.method fuel (projT2 o))) redeemers)
  ++ map Rest (map (fun o => sql_map (fun _ => false) (PostgresStorage.method fuel (projT2 o))) others).

Lemma contest_fine res fuel redeemers others :
  Forall (fun o => redeems_res res (projT2 o)) redeemers ->
  Forall (fun o => ~ restores res (projT2 o)) others ->
  Forall (thread_fine (available res)) (contest fuel redeemers others).
Proof.
  intros Hr Ho. apply Forall_app_2; apply Forall_fmap, Forall_fmap.
  - eapply Forall_impl; [exact Hr|]. intros o Ho'. by apply redeemer_consumes.
  - eapply Forall_impl; [exact Ho|]. intros o Ho'. apply spares_rest, spares_mapped; [done|].
    pose proof (method_writes (projT2 o) fuel) as Hw. revert Hw.
    assert (Himp : forall w, may_write (projT2 o) w -> spares (available res) w)
      by (intros w; by apply other_spares).
    assert (Hst : forall X (st : Stmt X), stmt_writes (may_write (projT2 o)) st ->
              stmt_writes (spares (available res)) st).
    { intros X st Hst s x ws Hok. eapply Forall_impl; [by eapply Hst|exact Himp]. }
    assert (Htx : forall B (q : txn B), txn_writes (may_write (projT2 o)) q ->
              txn_writes (spares (available res)) q).
    { induction q; cbn; naive_solver. }
    generalize (PostgresStorage.method fuel (projT2 o)). intros p. induction p; cbn; naive_solver.
Qed.

Lemma not_won_yet {X} (op : StoreOp X) fuel : winner (Rest (sql_map (won op) (PostgresStorage.method fuel op))) = 0%nat.
Proof.
  assert (Hf : forall A (f : A -> bool) (p : sql A), (forall a, f a = false) -> winner (Rest (sql_map f p)) = 0%nat).
  { intros A f p Hf. destruct p; cbn; try done. by rewrite Hf. }
  destruct op; try (by apply Hf); try done. cbn [PostgresStorage.method].
  unfold PostgresStorage.pg_compare_and_swap_authorization_code.
  destruct (PostgresStorage.pg_encode _ expected); [|done]. cbn [or_return].
  by destruct (PostgresStorage.pg_encode _ updated).
Qed.

Lemma contest_starts fuel redeemers others : winners (contest fuel redeemers others) = 0%nat.
Proof.
  unfold contest. rewrite winners_app. unfold winners.
  assert (Hz : forall l : list (thread bool), Forall (fun th => winner th = 0%nat) l -> sum_list (map winner l) = 0%nat).
  { induction 1 as [|th l Hth Hl IH]; cbn; [done|]. by rewrite Hth. }
  rewrite !Hz; [done| |]; apply Forall_fmap, Forall_fmap, Forall_true; intros o.
  - cbn. by destruct (PostgresStorage.method fuel (projT2 o)).
  - apply not_won_yet.
Qed.

(** C8. Single use is decided by the database.  Under every interleaving at READ COMMITTED
    of any number of calls that would redeem one refresh token, device grant,
    authorization code, pushed request or replay id, or swap one issued code, beside any
    other storage calls that do not put it back, at most one is told that it did, none if
    it was not there to begin with; and once one was told, nothing is left to redeem. *)
Theorem single_use_has_one_winner res fuel redeemers others d0 d pool :
  Forall (fun o => redeems_res res (projT2 o)) redeemers ->
  Forall (fun o => ~ restores res (projT2 o)) others ->
  reaches (d0, contest fuel redeemers others) (d, pool) ->
  (winners pool <= (if available res d0 then 1 else 0))%nat /\
  (winners pool = 1%nat -> available res d = false).
Proof.
  intros Hr Ho Hreach.
  destruct (pool_units (available res) _ _ _ _ Hreach (contest_fine res fuel _ _ Hr Ho)) as [_ Hle].
  rewrite contest_starts in Hle. unfold units in Hle. cbn in Hle.
  split; [lia|]. intros Hone. destruct (available res d); [|done]. destruct (available res d0); lia.
Qed.
End single_use.

(** ** Witnesses and the wrong implementations *)
Section witnesses.
#[local] Existing Instances boxed_json boxed_records boxed_order boxed_laws.

Definition one_refresh : Db := t_with refresh_tokens
  {["rt1" := refresh_row (demo_refresh "rt1" "fam") (BxRefresh (demo_refresh "rt1" "fam"))]} db_empty.

(** Two takes of one refresh token, both past their snapshot before either removes it,
    beside a sweep. *)
Lemma single_use_has_one_winner_witness :
  exists d pool, reaches (one_refresh,
      contest 1 [any (TakeRefreshToken "rt1"); any (TakeRefreshToken "rt1")]
        [any (SweepExpired (from_secs 100))]) (d, pool) /\
    winners pool = 1%nat /\ available (RefreshTokenRow "rt1") d = false.
Proof.
  set (s0 := (one_refresh, contest 1 [any (TakeRefreshToken "rt1"); any (TakeRefreshToken "rt1")]
        [any (SweepExpired (from_secs 100))])).
  assert (Hw : match run_schedule [0; 1; 2; 1; 2; 0; 0; 1]%nat s0 with
               | Some (_, pool) => winners pool | None => 0%nat end = 1%nat) by (vm_compute; reflexivity).
  destruct (run_schedule [0; 1; 2; 1; 2; 0; 0; 1]%nat s0) as [[d pool]|] eqn:Hrun; [|discriminate Hw].
  exists d, pool. apply run_schedule_reaches in Hrun. split; [exact Hrun|]. split; [exact Hw|].
  destruct (single_use_has_one_winner (RefreshTokenRow "rt1") 1 [any (TakeRefreshToken "rt1"); any (TakeRefreshToken "rt1")]
    [any (SweepExpired (from_secs 100))] one_refresh d pool) as [_ Hgone].
  - clear. repeat constructor.
  - clear. constructor; [intros []|constructor].
  - exact Hrun.
  - exact (Hgone Hw).
Defined.

Definition demo_grant (state : DeviceGrantState) : DeviceGrant := {|
  dg_device_code := "dc"; dg_user_code := "WDJB-MJHT"; dg_client_id := "app"; dg_scope := ["read"];
  dg_state := state; dg_created_at := from_secs 10; dg_expires_at := from_secs 70;
  dg_interval := from_secs 5; dg_last_poll_at := None |}.
Definition one_grant : Db := t_with device_grants
  {["dc" := device_row (demo_grant Pending) (BxGrant (demo_grant Pending))]} db_empty.

Definition won_after (schedule : list nat) (d : Db) (programs : list (sql bool)) : nat :=
  match run_schedule schedule (d, map Rest programs) with Some (_, pool) => winners pool | None => 0 end.

(** The read-then-write implementations [naive.rs] keeps fail exactly as it says.  On
    two connections that both read before either writes, the read-then-delete take hands
    one refresh token to both callers and the read-then-write claim tells both they were
    first; and a read-then-write swap of a device grant, run around a redemption, puts the
    redeemed grant back so that it is redeemed a second time. *)
Theorem read_then_write_wins_twice :
  (exists schedule, won_after schedule one_refresh
     [sql_map took (PostgresStorage.take_refresh_token_read_then_delete "rt1");
      sql_map took (PostgresStorage.take_refresh_token_read_then_delete "rt1")] = 2%nat) /\
  (exists schedule, won_after schedule db_empty
     [sql_map answered_true (PostgresStorage.claim_replay_id_read_then_write "jti" (from_secs 60));
      sql_map answered_true (PostgresStorage.claim_replay_id_read_then_write "jti" (from_secs 60))] = 2%nat) /\
  (exists schedule, won_after schedule one_grant
     [sql_map took (PostgresStorage.pg_take_device_grant "dc");
      sql_map (fun _ => false) (PostgresStorage.compare_and_swap_device_grant_read_then_write Pending
                                  (demo_grant (Approved "alice")));
      sql_map took (PostgresStorage.pg_take_device_grant "dc")] = 2%nat).
Proof.
  split_and!.
  - exists [0; 0; 1; 1; 0; 0; 1; 1]%nat. vm_compute. reflexivity.
  - exists [0; 0; 1; 1; 0; 0; 1; 1]%nat. vm_compute. reflexivity.
  - exists [1; 1; 0; 0; 1; 1; 2; 2]%nat. vm_compute. reflexivity.
Qed.
End witnesses.
