(* ===== verification/Mtls.v ===== *)
(** * Certificates and their registrations (mtls.rs)

    Thumbprints from DER, PEM and their wire form, the builders of [ClientCertificate],
    the two kinds of registration a client makes (one expected subject, or certificates of
    its own) with the errors of building them, and the confirmation a bound token carries.
    The matching of a presented certificate is in [Credentials]. *)
From S2P Require Import Prelude Time Codec Scope Types Jws Keys Credentials Par.
Local Open Scope Z_scope.

(** The [base64] crate's [STANDARD] alphabet, with padding. *)
Class Base64 := {
  b64_encode : string -> string;
  b64_decode : string -> option string;
}.

(** [str::find] with a string. *)
Fixpoint find_str (p s : string) : option nat :=
  match strip_prefix p s with
  | Some _ => Some 0%nat
  | None => match s with
            | EmptyString => None
            | String _ s' => S <$> find_str p s'
            end
  end.

(** [char::is_ascii_whitespace] *)
Definition is_ascii_whitespace (c : ascii) : bool :=
  existsb (N.eqb (u8 c)) [32; 9; 10; 12; 13]%N.

Inductive MtlsRegistrationError : Type :=
| NoSubjectValue | MoreThanOneSubjectValue | EmptySubjectValue | MalformedJwks | NoCertificateInJwks
| NoCertificates | MalformedCertificate | MalformedThumbprint.
#[global] Instance MtlsRegistrationError_eq_dec : EqDecision MtlsRegistrationError.
Proof. solve_decision. Defined.

Definition registration_error_text (e : MtlsRegistrationError) : string :=
  match e with
  | NoSubjectValue => "tls_client_auth requires one of the RFC 8705 s2.1.1 subject parameters"
  | MoreThanOneSubjectValue => "RFC 8705 s2.1.2 permits exactly one tls_client_auth subject parameter"
  | EmptySubjectValue => "a tls_client_auth subject parameter was empty, which no certificate can match"
  | MalformedJwks => "the JWK Set could not be parsed"
  | NoCertificateInJwks => "the JWK Set carries no x5c certificate to match against"
  | NoCertificates => "a certificate registration must name at least one certificate"
  | MalformedCertificate => "the certificate is not DER or PEM-wrapped DER"
  | MalformedThumbprint => "an x5t#S256 value is base64url of exactly 32 bytes"
  end.

Definition TLS_CLIENT_AUTH : string := "tls_client_auth".
Definition SELF_SIGNED_TLS_CLIENT_AUTH : string := "self_signed_tls_client_auth".
Definition TLS_CLIENT_AUTH_SUBJECT_DN : string := "tls_client_auth_subject_dn".
Definition TLS_CLIENT_AUTH_SAN_DNS : string := "tls_client_auth_san_dns".
Definition TLS_CLIENT_AUTH_SAN_URI : string := "tls_client_auth_san_uri".
Definition TLS_CLIENT_AUTH_SAN_IP : string := "tls_client_auth_san_ip".
Definition TLS_CLIENT_AUTH_SAN_EMAIL : string := "tls_client_auth_san_email".

(** ** [CertificateThumbprint] *)
Definition BEGIN_CERTIFICATE : string := "-----BEGIN CERTIFICATE-----".
Definition END_CERTIFICATE : string := "-----END CERTIFICATE-----".

Section thumbprints.
Context `{Crypto, Base64}.

Definition thumbprint_from_der (der : string) : CertificateThumbprint := sha256 der.

Definition thumbprint_from_pem (pem : string) : result CertificateThumbprint MtlsRegistrationError :=
  let? body :=
    match find_str BEGIN_CERTIFICATE pem with
    | Some start =>
        let after := drop_str (start + str_len BEGIN_CERTIFICATE) pem in
        match find_str END_CERTIFICATE after with
        | Some e => Ok (take_str e after)
        | None => Err MalformedCertificate
        end
    | None => Err MalformedCertificate
    end in
  let compact := of_bytes (List.filter (fun c => negb (is_ascii_whitespace c)) (bytes body)) in
  let? der := ok_or (b64_decode compact) MalformedCertificate in
  Ok (thumbprint_from_der der).

Definition to_base64url (t : CertificateThumbprint) : string := b64url_encode t.
Definition from_base64url (text : string) : result CertificateThumbprint MtlsRegistrationError :=
  let? decoded := ok_or (b64url_decode text) MalformedThumbprint in
  if Nat.eqb (str_len decoded) 32 then Ok decoded else Err MalformedThumbprint.

(** ** [ClientCertificate] *)
Definition from_thumbprint (thumbprint : CertificateThumbprint) : ClientCertificate := {|
  cert_thumbprint := thumbprint; cert_subject_dn := None; cert_san_dns := []; cert_san_uri := [];
  cert_san_ip := []; cert_san_email := [] |}.
Definition certificate_from_der (der : string) : ClientCertificate :=
  from_thumbprint (thumbprint_from_der der).

Definition with_subject_dn (dn : string) (self : ClientCertificate) : ClientCertificate := {|
  cert_subject_dn := Some dn; cert_thumbprint := cert_thumbprint self; cert_san_dns := cert_san_dns self;
  cert_san_uri := cert_san_uri self; cert_san_ip := cert_san_ip self; cert_san_email := cert_san_email self |}.
Definition with_san_dns (entries : list string) (self : ClientCertificate) : ClientCertificate := {|
  cert_san_dns := entries; cert_thumbprint := cert_thumbprint self; cert_subject_dn := cert_subject_dn self;
  cert_san_uri := cert_san_uri self; cert_san_ip := cert_san_ip self; cert_san_email := cert_san_email self |}.
Definition with_san_uri (entries : list string) (self : ClientCertificate) : ClientCertificate := {|
  cert_san_uri := entries; cert_thumbprint := cert_thumbprint self; cert_subject_dn := cert_subject_dn self;
  cert_san_dns := cert_san_dns self; cert_san_ip := cert_san_ip self; cert_san_email := cert_san_email self |}.
Definition with_san_ip (entries : list string) (self : ClientCertificate) : ClientCertificate := {|
  cert_san_ip := entries; cert_thumbprint := cert_thumbprint self; cert_subject_dn := cert_subject_dn self;
  cert_san_dns := cert_san_dns self; cert_san_uri := cert_san_uri self; cert_san_email := cert_san_email self |}.
Definition with_san_email (entries : list string) (self : ClientCertificate) : ClientCertificate := {|
  cert_san_email := entries; cert_thumbprint := cert_thumbprint self; cert_subject_dn := cert_subject_dn self;
  cert_san_dns := cert_san_dns self; cert_san_uri := cert_san_uri self; cert_san_ip := cert_san_ip self |}.

(** ** [ExpectedSubject] *)
Definition subject_candidate (name value : string) : option ExpectedSubject :=
  if name == TLS_CLIENT_AUTH_SUBJECT_DN then Some (SubjectDn value)
  else if name == TLS_CLIENT_AUTH_SAN_DNS then Some (SanDns value)
  else if name == TLS_CLIENT_AUTH_SAN_URI then Some (SanUri value)
  else if name == TLS_CLIENT_AUTH_SAN_IP then Some (SanIp value)
  else if name == TLS_CLIENT_AUTH_SAN_EMAIL then Some (SanEmail value)
  else None.

Fixpoint subject_loop (parameters : list (string * string)) (found : option ExpectedSubject)
  : result ExpectedSubject MtlsRegistrationError :=
  match parameters with
  | [] => ok_or found NoSubjectValue
  | (name, value) :: parameters =>
      match subject_candidate name value with
      | None => subject_loop parameters found
      | Some candidate =>
          if str_is_empty value then Err EmptySubjectValue
          else if is_some found then Err MoreThanOneSubjectValue
          else subject_loop parameters (Some candidate)
      end
  end.
Definition from_registration_parameters (parameters : list (string * string))
  : result ExpectedSubject MtlsRegistrationError := subject_loop parameters None.

Definition parameter_name (self : ExpectedSubject) : string :=
  match self with
  | SubjectDn _ => TLS_CLIENT_AUTH_SUBJECT_DN
  | SanDns _ => TLS_CLIENT_AUTH_SAN_DNS
  | SanUri _ => TLS_CLIENT_AUTH_SAN_URI
  | SanIp _ => TLS_CLIENT_AUTH_SAN_IP
  | SanEmail _ => TLS_CLIENT_AUTH_SAN_EMAIL
  end.
Definition subject_value (self : ExpectedSubject) : string :=
  match self with SubjectDn v | SanDns v | SanUri v | SanIp v | SanEmail v => v end.

(** ** [RegisteredCertificates] *)
Definition from_thumbprints (thumbprints : list CertificateThumbprint)
  : result (list CertificateThumbprint) MtlsRegistrationError :=
  match thumbprints with [] => Err NoCertificates | _ => Ok thumbprints end.

Definition from_der_certificates (certificates : list string)
  : result (list CertificateThumbprint) MtlsRegistrationError :=
  from_thumbprints (map thumbprint_from_der certificates).

Definition as_array (v : Value) : option (list Value) := match v with VArray l => Some l | _ => None end.

Fixpoint jwks_loop (keys : list Value) (thumbprints : list CertificateThumbprint)
  : result (list CertificateThumbprint) MtlsRegistrationError :=
  match keys with
  | [] => Ok thumbprints
  | key :: keys =>
      match value_get "x5c" key ≫= as_array with
      | None => jwks_loop keys thumbprints
      | Some chain =>
          let? leaf := ok_or (head chain ≫= as_str) MalformedJwks in
          let? der := ok_or (b64_decode leaf) MalformedCertificate in
          jwks_loop keys (thumbprints ++ [thumbprint_from_der der])
      end
  end.

Context `{Serde}.
Definition from_jwks (jwks : string) : result (list CertificateThumbprint) MtlsRegistrationError :=
  let? document := ok_or (json_from_slice jwks) MalformedJwks in
  let? keys := ok_or (value_get "keys" document ≫= as_array) MalformedJwks in
  let? thumbprints := jwks_loop keys [] in
  match thumbprints with [] => Err NoCertificateInJwks | _ => Ok thumbprints end.

(** [MtlsClientRegistration::method_name] *)
Definition method_name (self : MtlsClientRegistration) : string :=
  match self with
  | TlsClientAuth _ => TLS_CLIENT_AUTH
  | SelfSignedTlsClientAuth _ => SELF_SIGNED_TLS_CLIENT_AUTH
  end.

(** ** [Confirmation] *)
Definition confirms_certificate (self : Confirmation) (der : string) : bool :=
  match cnf_x5t_s256 self with
  | Some bound => bound == thumbprint_from_der der
  | None => false
  end.
Definition for_certificate (certificate : ClientCertificate) : Confirmation :=
  {| cnf_jkt := None; cnf_x5t_s256 := Some (cert_thumbprint certificate) |}.
End thumbprints.

(** ** One expected subject *)

(** The parameters of a registration that name a subject, in order. *)
Definition subject_parameters (parameters : list (string * string)) : list ExpectedSubject :=
  omap (fun '(name, value) => subject_candidate name value) parameters.

(** What the rule of RFC 8705 section 2.1.2 says of them. *)
Definition one_subject (found : list ExpectedSubject) : result ExpectedSubject MtlsRegistrationError :=
  match found with
  | [] => Err NoSubjectValue
  | [e] => if str_is_empty (subject_value e) then Err EmptySubjectValue else Ok e
  | e :: e' :: _ =>
      if str_is_empty (subject_value e) || str_is_empty (subject_value e') then Err EmptySubjectValue
      else Err MoreThanOneSubjectValue
  end.

Lemma subject_candidate_Some name value e :
  subject_candidate name value = Some e <-> name = parameter_name e /\ value = subject_value e.
Proof.
  split.
  - unfold subject_candidate. repeat case_bool_decide; by intros [= <-].
  - intros [-> ->]. by destruct e.
Qed.

Lemma subject_loop_found parameters e :
  subject_loop parameters (Some e) =
    match subject_parameters parameters with
    | [] => Ok e
    | e' :: _ => if str_is_empty (subject_value e') then Err EmptySubjectValue
                 else Err MoreThanOneSubjectValue
    end.
Proof.
  induction parameters as [|[name value] parameters IH]; [done|]. cbn.
  destruct (subject_candidate name value) as [e'|] eqn:E; cbn; [|exact IH].
  by apply subject_candidate_Some in E as [_ ->].
Qed.

Lemma subject_parameters_named parameters :
  List.filter (fun p => is_some (subject_candidate p.1 p.2)) parameters =
    map (fun e => (parameter_name e, subject_value e)) (subject_parameters parameters).
Proof.
  induction parameters as [|[name value] ps IH]; [done|]. cbn.
  destruct (subject_candidate name value) as [e|] eqn:E; cbn; [|exact IH].
  apply subject_candidate_Some in E as [-> ->]. by rewrite IH.
Qed.

(** A [tls_client_auth] registration is accepted exactly when it names one subject: of
    the parameters it gives, in any order and among any others, those RFC 8705 section
    2.1.1 defines must be one, and not empty; the subject built has that parameter's name
    and value, so writing a subject as a parameter and reading it back gives it again.
    None, an empty value, and more than one are each refused as what they are. *)
Theorem one_subject_registered parameters :
  from_registration_parameters parameters = one_subject (subject_parameters parameters) /\
  (forall e, from_registration_parameters parameters = Ok e ->
     subject_value e <> "" /\ List.filter (fun p => is_some (subject_candidate p.1 p.2)) parameters
                              = [(parameter_name e, subject_value e)]) /\
  (forall e, subject_value e <> "" -> from_registration_parameters [(parameter_name e, subject_value e)] = Ok e).
Proof.
  assert (Hone : forall ps, from_registration_parameters ps = one_subject (subject_parameters ps)).
  { induction ps as [|[name value] ps IH]; [done|]. unfold from_registration_parameters in *. cbn.
    destruct (subject_candidate name value) as [e|] eqn:E; [|exact IH].
    apply subject_candidate_Some in E as [_ ->]. rewrite subject_loop_found. fold (subject_parameters ps).
    cbn [one_subject]. destruct (subject_parameters ps) as [|e' l], (str_is_empty (subject_value e)); done. }
  split_and!; [apply Hone| |].
  - intros e. rewrite Hone. intros He.
    assert (Hall : subject_parameters parameters = [e] /\ subject_value e <> "").
    { destruct (subject_parameters parameters) as [|e' [|e'' l]]; cbn in He; [done| |by case_match].
      destruct (str_is_empty (subject_value e')) eqn:Ee; [done|]. injection He as ->. split; [done|].
      intros Hv. by rewrite Hv in Ee. }
    destruct Hall as [Hl Hv]. split; [done|]. by rewrite subject_parameters_named, Hl.
  - intros e Hv. rewrite Hone. cbn. assert (Hc : subject_candidate (parameter_name e) (subject_value e) = Some e)
      by by apply subject_candidate_Some. rewrite Hc. cbn. by destruct (subject_value e).
Qed.

(** ** Certificates of the client's own *)
Lemma find_str_first c p s t :
  contains_char c s = false -> find_str (String c p) (s +:+ String c p +:+ t) = Some (str_len s).
Proof.
  induction s as [|x s IH]; intros Hc.
  - rewrite str_app_nil_l, str_app_cons. cbn [find_str]. by rewrite <- str_app_cons, strip_prefix_app.
  - unfold contains_char in Hc. cbn in Hc. apply orb_false_iff in Hc as [Hx Hs].
    rewrite str_app_cons. cbn [find_str strip_prefix]. rewrite Hx, IH by exact Hs. done.
Qed.

Lemma drop_str_app s t u : drop_str (str_len s + str_len t) (s +:+ t +:+ u) = u.
Proof.
  induction s as [|c s IH]; [|exact IH]. rewrite str_app_nil_l. cbn.
  induction t as [|c t IH]; [by destruct u|exact IH].
Qed.

Section certificates.
Context `{Crypto, Base64, Serde}.

(** The certificate a key of a JWK set carries: the first of its [x5c] chain. *)
Definition leaf_of (key : Value) (der : string) : Prop :=
  exists chain leaf, value_get "x5c" key = Some (VArray (VString leaf :: chain)) /\ b64_decode leaf = Some der.

Lemma jwks_loop_ok keys acc l : jwks_loop keys acc = Ok l ->
  exists ders, l = acc ++ map thumbprint_from_der ders /\
    (forall der, der ∈ ders <-> exists key, key ∈ keys /\ leaf_of key der).
Proof.
  revert acc. induction keys as [|key keys IH]; intros acc; cbn.
  - intros [= <-]. exists []. rewrite app_nil_r. split; [done|]. intros der.
    rewrite elem_of_nil. split; [done|]. by intros (key & Hk%elem_of_nil & _).
  - destruct (value_get "x5c" key ≫= as_array) as [chain|] eqn:Ex.
    + rewrite and_then_ok. intros (leaf & Hleaf%ok_or_ok & Hl). apply and_then_ok in Hl as (der & Hd%ok_or_ok & Hl).
      apply IH in Hl as (ders & -> & Hders). exists (der :: ders). split; [by rewrite <- app_assoc|].
      assert (Hkey : forall d, leaf_of key d <-> d = der).
      { apply bind_Some in Ex as (v & Hv & Ha). destruct v as [| | | |items|]; try done. injection Ha as ->.
        apply bind_Some in Hleaf as (w & Hw & Hs). destruct chain as [|w' chain]; [done|]. injection Hw as ->.
        destruct w as [| | |t| |]; try done. injection Hs as ->. unfold leaf_of. rewrite Hv. naive_solver. }
      intros d. rewrite elem_of_cons, Hders. setoid_rewrite elem_of_cons. rewrite <- Hkey. naive_solver.
    + intros Hl. apply IH in Hl as (ders & -> & Hders). exists ders. split; [done|]. intros d. rewrite Hders.
      setoid_rewrite elem_of_cons. split; [naive_solver|]. intros (k & [->|Hk] & Hleaf); [|naive_solver].
      destruct Hleaf as (c & lf & Hv & _). by rewrite Hv in Ex.
Qed.

Lemma str_in_elem v l : MtlsAuth.str_in v l = true <-> v ∈ l.
Proof.
  unfold MtlsAuth.str_in. rewrite existsb_exists. setoid_rewrite bool_decide_eq_true.
  rewrite list_elem_of_In. naive_solver.
Qed.

(** C33. A self-signed registration admits the holders of its certificates and no others.
    When a client registers a JWK set, the certificates that then authenticate it are those
    whose SHA-256 digest is that of the first certificate of some key's chain in the set,
    whatever else the set carries, and there is at least one; and a token issued over a
    certificate is confirmed by exactly the certificates of the same digest. *)
Theorem registered_certificates_exact jwks registered der presented :
  from_jwks jwks = Ok registered ->
  registered <> [] /\
  (MtlsAuth.accepts (SelfSignedTlsClientAuth registered) (certificate_from_der der) = true <->
     exists document keys key leaf,
       json_from_slice jwks = Some document /\ value_get "keys" document = Some (VArray keys) /\
       key ∈ keys /\ leaf_of key leaf /\ sha256 leaf = sha256 der) /\
  (confirms_certificate (for_certificate (certificate_from_der der)) presented = true <->
     sha256 der = sha256 presented).
Proof.
  unfold from_jwks. rewrite and_then_ok. intros (document & Hdoc%ok_or_ok & Hk).
  apply and_then_ok in Hk as (keys & Hkeys%ok_or_ok & Hl). apply and_then_ok in Hl as (l & Hloop & Hl).
  destruct l as [|t l]; [done|]. injection Hl as <-. apply jwks_loop_ok in Hloop as (ders & Hl & Hders).
  apply bind_Some in Hkeys as (v & Hv & Ha). destruct v as [| | | |items|]; try done. injection Ha as ->.
  split_and!; [done| |].
  - cbn [MtlsAuth.accepts]. rewrite str_in_elem, Hl. cbn [app]. rewrite list_elem_of_fmap.
    cbn. unfold thumbprint_from_der. setoid_rewrite Hders. split.
    + intros (leaf & Hs & key & Hkey & Hleaf). by exists document, keys, key, leaf.
    + intros (document' & keys' & key & leaf & Hd' & Hk' & Hkey & Hleaf & Hs). simplify_eq. eauto.
  - unfold confirms_certificate. cbn. by rewrite bool_decide_eq_true.
Qed.

(** The armour of a PEM file, whatever stands around it and however its lines are broken,
    is the certificate inside. *)
Lemma thumbprint_from_pem_armoured before body after der :
  contains_char "-" before = false -> contains_char "-" body = false ->
  b64_decode (of_bytes (List.filter (fun c => negb (is_ascii_whitespace c)) (bytes body))) = Some der ->
  thumbprint_from_pem (before +:+ BEGIN_CERTIFICATE +:+ body +:+ END_CERTIFICATE +:+ after)
    = Ok (thumbprint_from_der der).
Proof.
  intros Hb Hbody Hder. unfold thumbprint_from_pem.
  unfold BEGIN_CERTIFICATE at 1 2. rewrite (find_str_first "-") by done. fold BEGIN_CERTIFICATE.
  rewrite drop_str_app. unfold END_CERTIFICATE. rewrite (find_str_first "-") by done.
  rewrite take_str_app by done. cbn [and_then]. by rewrite Hder.
Qed.

(** The wire form of a thumbprint reads back. *)
Lemma thumbprint_roundtrip `{!CryptoLaws _} der :
  from_base64url (to_base64url (thumbprint_from_der der)) = Ok (thumbprint_from_der der).
Proof.
  unfold from_base64url, to_base64url. rewrite b64url_roundtrip. cbn. unfold thumbprint_from_der.
  by rewrite sha256_length.
Qed.
End certificates.

(** ** Witnesses *)
Section witnesses.
#[local] Existing Instance plain_crypto.
#[local] Instance plain_base64 : Base64 := {| b64_encode := Hex.encode; b64_decode := Hex.decode |}.

(** A set of two keys, one without a certificate and one with a chain of two. *)
Definition certificate_set : Value := VObject [("keys", VArray
  [VObject [("kty", VString "EC")];
   VObject [("x5c", VArray [VString (Hex.encode "leaf"); VString (Hex.encode "issuer")])]])].
#[local] Instance certificate_serde : Serde := {|
  json_from_slice text := if text == "jwks" then Some certificate_set else None;
  details_from_str _ := None; json_to_string _ := "" |}.

Lemma registered_certificates_exact_witness :
  MtlsAuth.accepts (SelfSignedTlsClientAuth [sha256 "leaf"]) (certificate_from_der "leaf") = true /\
  confirms_certificate (for_certificate (certificate_from_der "leaf")) "leaf" = true.
Proof.
  destruct (registered_certificates_exact "jwks" [sha256 "leaf"] "leaf" "leaf") as (_ & Haccept & Hconfirm).
  - vm_compute. reflexivity.
  - split; [apply Haccept|by apply Hconfirm].
    eexists certificate_set, _, _, "leaf". split; [reflexivity|]. split; [reflexivity|].
    split; [apply list_elem_of_further, list_elem_of_here|]. split; [|reflexivity].
    by eexists _, _.
Defined.

Example pem_example :
  thumbprint_from_pem ("subject=app" +:+ BEGIN_CERTIFICATE +:+ byte 10 +:+ "6c65" +:+ byte 10 +:+ "6166"
                       +:+ byte 10 +:+ END_CERTIFICATE) = Ok (sha256 "leaf").
Proof. reflexivity. Qed.
End witnesses.
