(* ===== verification/ResourceMeta.v ===== *)
(** * Protected resource metadata (resource_metadata.rs)

    The RFC 9728 document of a resource a host serves beside its authorization server:
    what it is derived from and where it is placed. *)
From S2P Require Import Prelude Time Codec Scope Types Jws Keys Metadata.
Local Open Scope Z_scope.

Definition PROTECTED_RESOURCE_WELL_KNOWN_PATH : string := "/.well-known/oauth-protected-resource".

Definition resource_path (resource : string) : string :=
  let path := issuer_path resource in
  if negb (str_is_empty path) then
    if is_some (strip_prefix "/?" path) then drop_str 1 path else path
  else match find_char "?" resource with
       | Some i => drop_str i resource
       | None => ""
       end.

Definition resource_well_known_path (resource : string) : string :=
  PROTECTED_RESOURCE_WELL_KNOWN_PATH +:+ resource_path resource.

Inductive BearerMethod : Type := BMHeader | BMBody | BMQuery.

Record ProtectedResourceConfig : Type := {
  pc_resource : string;
  pc_authorization_servers : list string;
  pc_jwks_uri : option string;
  pc_scopes_supported : option (list string);
  pc_bearer_methods_supported : list BearerMethod;
  pc_resource_signing_alg_values_supported : list string;
  pc_resource_name : option string;
  pc_resource_documentation : option string;
  pc_resource_policy_uri : option string;
  pc_resource_tos_uri : option string;
  pc_tls_client_certificate_bound_access_tokens : bool;
  pc_dpop_bound_access_tokens_required : bool;
  pc_dpop_signing_alg_values_supported : list string;
  pc_authorization_details_types_supported : list string;
  pc_signed_metadata : option string;
}.

Definition resource_config_new (resource authorization_server : string) : ProtectedResourceConfig := {|
  pc_resource := resource;
  pc_authorization_servers := [authorization_server];
  pc_jwks_uri := None;
  pc_scopes_supported := None;
  pc_bearer_methods_supported := [BMHeader];
  pc_resource_signing_alg_values_supported := [];
  pc_resource_name := None;
  pc_resource_documentation := None;
  pc_resource_policy_uri := None;
  pc_resource_tos_uri := None;
  pc_tls_client_certificate_bound_access_tokens := false;
  pc_dpop_bound_access_tokens_required := false;
  pc_dpop_signing_alg_values_supported := [];
  pc_authorization_details_types_supported := [];
  pc_signed_metadata := None |}.

Record ProtectedResourceMetadata : Type := {
  pm_resource : string;
  pm_authorization_servers : option (list string);
  pm_jwks_uri : option string;
  pm_scopes_supported : option (list string);
  pm_bearer_methods_supported : option (list BearerMethod);
  pm_resource_signing_alg_values_supported : option (list string);
  pm_resource_name : option string;
  pm_resource_documentation : option string;
  pm_resource_policy_uri : option string;
  pm_resource_tos_uri : option string;
  pm_tls_client_certificate_bound_access_tokens : option bool;
  pm_authorization_details_types_supported : option (list string);
  pm_dpop_signing_alg_values_supported : option (list string);
  pm_dpop_bound_access_tokens_required : option bool;
  pm_signed_metadata : option string;
}.

Definition some_unless_empty {T} (values : list T) : option (list T) :=
  then_some (negb (match values with [] => true | _ => false end)) values.

Definition resource_from_config (config : ProtectedResourceConfig) : ProtectedResourceMetadata := {|
  pm_resource := trim_end_matches "/" (pc_resource config);
  pm_authorization_servers := some_unless_empty (pc_authorization_servers config);
  pm_jwks_uri := pc_jwks_uri config;
  pm_scopes_supported := pc_scopes_supported config;
  pm_bearer_methods_supported := some_unless_empty (pc_bearer_methods_supported config);
  pm_resource_signing_alg_values_supported :=
    some_unless_empty (pc_resource_signing_alg_values_supported config);
  pm_resource_name := pc_resource_name config;
  pm_resource_documentation := pc_resource_documentation config;
  pm_resource_policy_uri := pc_resource_policy_uri config;
  pm_resource_tos_uri := pc_resource_tos_uri config;
  pm_tls_client_certificate_bound_access_tokens :=
    then_some (pc_tls_client_certificate_bound_access_tokens config) true;
  pm_authorization_details_types_supported :=
    some_unless_empty (pc_authorization_details_types_supported config);
  pm_dpop_signing_alg_values_supported := some_unless_empty (pc_dpop_signing_alg_values_supported config);
  pm_dpop_bound_access_tokens_required := then_some (pc_dpop_bound_access_tokens_required config) true;
  pm_signed_metadata := pc_signed_metadata config |}.

(** [ProtectedResourceMetadata::well_known_path] *)
Definition document_path (self : ProtectedResourceMetadata) : string :=
  resource_well_known_path (pm_resource self).


(** ** Where the document is placed *)
Lemma contains_char_cons c x s : contains_char c (String x s) = Ascii.eqb c x || contains_char c s.
Proof. done. Qed.
Lemma has_char_app c s t : contains_char c (s +:+ t) = contains_char c s || contains_char c t.
Proof. unfold contains_char. by rewrite bytes_app, existsb_app. Qed.

Lemma find_char_app c s t :
  contains_char c s = false -> find_char c (s +:+ t) = Nat.add (str_len s) <$> find_char c t.
Proof.
  induction s as [|x s IH]; intros Hs.
  - rewrite str_app_nil_l. cbn. by destruct (find_char c t).
  - rewrite contains_char_cons in Hs. apply orb_false_iff in Hs as [Hx Hs].
    rewrite str_app_cons. cbn [find_char]. rewrite Ascii.eqb_sym, Hx, IH by done.
    by destruct (find_char c t).
Qed.
Lemma find_char_none c s : contains_char c s = false -> find_char c s = None.
Proof. intros Hs. rewrite <- (str_app_nil_r s). by rewrite find_char_app. Qed.
Lemma drop_str_front s t : drop_str (str_len s) (s +:+ t) = t.
Proof. induction s as [|c s IH]; [by destruct t|exact IH]. Qed.

Lemma after_first_scheme scheme t :
  contains_char ":" scheme = false -> after_first "://" (scheme +:+ "://" +:+ t) = Some t.
Proof.
  induction scheme as [|x s IH]; intros Hs; [done|].
  rewrite contains_char_cons in Hs. apply orb_false_iff in Hs as [Hx Hs].
  rewrite str_app_cons. cbn [after_first strip_prefix]. by rewrite Hx, IH.
Qed.

Lemma trim_end_app c s t : t <> "" -> contains_char c t = false -> trim_end_matches c (s +:+ t) = s +:+ t.
Proof.
  intros Hne Ht.
  assert (Hself : forall u, contains_char c u = false -> trim_end_matches c u = u).
  { induction u as [|x t' IH]; intros Hc; [done|]. rewrite contains_char_cons in Hc.
    apply orb_false_iff in Hc as [Hx Hc]. cbn. rewrite IH by done. rewrite Ascii.eqb_sym, Hx. by destruct t'. }
  induction s as [|x s IH]; [by apply Hself|]. rewrite str_app_cons. cbn. rewrite IH.
  destruct (s +:+ t) eqn:E; [|done]. exfalso. destruct s; [by rewrite str_app_nil_l in E|done].
Qed.

(** Slashes at the end of [t] are trimmed off [s +:+ t], and no more when [s] ends in
    something else. *)
Lemma trim_end_keep c s t : s <> "" -> contains_char c s = false ->
  trim_end_matches c (s +:+ t) = s +:+ trim_end_matches c t.
Proof.
  induction s as [|x s IH]; intros Hne Hs; [done|].
  rewrite contains_char_cons in Hs. apply orb_false_iff in Hs as [Hx Hs].
  rewrite !str_app_cons. cbn [trim_end_matches]. destruct s as [|y s].
  - rewrite !str_app_nil_l. rewrite Ascii.eqb_sym, Hx. by destruct (trim_end_matches c t).
  - rewrite IH by done. by rewrite !str_app_cons.
Qed.

(** An identifier in its parts, RFC 3986: no part holds the mark that begins the next.
    The query holds no slash, which the grammar would allow it. *)
Record resource_identifier (scheme host path query : string) : Prop := {
  ri_scheme : contains_char ":" scheme = false /\ contains_char "?" scheme = false;
  ri_host : host <> "" /\ contains_char "/" host = false /\ contains_char "?" host = false;
  ri_path : path = "" \/ exists p, path = String "/" p;
  ri_path_end : contains_char "?" path = false;
  ri_query : query = "" \/ exists p, query = String "?" p;
  ri_query_slash : contains_char "/" query = false;
}.

(** What follows the well-known suffix: the path and the query, without a terminating
    slash after the host or at the end of the path. *)
Definition placed (path query : string) : string :=
  if str_is_empty query then trim_end_matches "/" path
  else if path == "/" then query
  else path +:+ query.

Lemma issuer_path_parts scheme host path query :
  resource_identifier scheme host path query ->
  issuer_path (scheme +:+ "://" +:+ host +:+ path +:+ query) =
    if str_is_empty path then "" else trim_end_matches "/" (path +:+ query).
Proof.
  intros [[Hs _] (_ & Hh & _) Hp _ _ Hq]. unfold issuer_path.
  rewrite after_first_scheme by done. cbn [unwrap_or].
  destruct Hp as [->|[p ->]].
  - rewrite str_app_nil_l, find_char_none; [done|]. by rewrite has_char_app, Hh, Hq.
  - rewrite find_char_app by done. rewrite str_app_cons. cbn. by rewrite Nat.add_0_r, drop_str_front.
Qed.

Lemma no_query_first s : contains_char "?" s = false -> strip_prefix "/?" (trim_end_matches "/" s) = None.
Proof.
  intros Hs. assert (Ht : contains_char "?" (trim_end_matches "/" s) = false).
  { induction s as [|x s IH]; [done|]. rewrite contains_char_cons in Hs. apply orb_false_iff in Hs as [Hx Hs].
    cbn [trim_end_matches]. destruct (trim_end_matches "/" s) eqn:E.
    - destruct (Ascii.eqb x "/"); [done|]. by rewrite contains_char_cons, Hx.
    - rewrite contains_char_cons, Hx. by apply IH. }
  destruct (trim_end_matches "/" s) as [|x [|y t]]; [done|cbn; by case_match|].
  rewrite !contains_char_cons in Ht. apply orb_false_iff in Ht as [_ Ht]. apply orb_false_iff in Ht as [Hy _].
  cbn -[Ascii.eqb]. rewrite Hy. by case_match.
Qed.

Lemma resource_path_parts scheme host path query :
  resource_identifier scheme host path query ->
  resource_path (scheme +:+ "://" +:+ host +:+ path +:+ query) = placed path query.
Proof.
  intros Hid. unfold resource_path. rewrite issuer_path_parts by done.
  destruct Hid as [[Hs Hs'] (_ & Hh & Hh') Hp Hp' Hq Hq'].
  assert (Hfind : forall t, contains_char "?" t = false ->
    match find_char "?" (scheme +:+ "://" +:+ host +:+ t +:+ query) with
    | Some i => drop_str i (scheme +:+ "://" +:+ host +:+ t +:+ query) | None => "" end = query).
  { intros t Ht. assert (Hfront : contains_char "?" (scheme +:+ "://" +:+ host +:+ t) = false)
      by by rewrite !has_char_app, Hs', Hh', Ht.
    replace (scheme +:+ "://" +:+ host +:+ t +:+ query) with ((scheme +:+ "://" +:+ host +:+ t) +:+ query)
      by by rewrite !str_app_assoc.
    rewrite find_char_app by done.
    destruct Hq as [->|[qr ->]]; [done|]. cbn. rewrite Nat.add_0_r. apply drop_str_front. }
  destruct Hp as [->|[p ->]].
  - cbn [str_is_empty negb]. rewrite Hfind by done. unfold placed.
    destruct Hq as [->|[qr ->]]; [done|]. cbn. done.
  - cbn [str_is_empty]. unfold placed. destruct Hq as [->|[qr ->]].
    + specialize (Hfind _ Hp'). rewrite str_app_nil_r in Hfind |- *. cbn [str_is_empty]. destruct (str_is_empty (trim_end_matches "/" (String "/" p))) eqn:E.
      * cbn [negb]. rewrite Hfind. by apply str_is_empty_true in E as ->.
      * cbn [negb]. by rewrite no_query_first.
    + rewrite trim_end_app by done. rewrite str_app_cons. cbn [str_is_empty negb strip_prefix].
      destruct p as [|x p]; [done|]. rewrite bool_decide_eq_false_2 by done.
      rewrite contains_char_cons in Hp'. cbn in Hp'. apply orb_false_iff in Hp' as [Hx _].
      rewrite str_app_cons. cbn. by rewrite Hx.
Qed.

Lemma trim_end_identifier scheme host path query :
  resource_identifier scheme host path query ->
  trim_end_matches "/" (scheme +:+ "://" +:+ host +:+ path +:+ query) =
    scheme +:+ "://" +:+ host +:+ (if str_is_empty query then trim_end_matches "/" path else path +:+ query).
Proof.
  intros [_ (Hne & Hh & _) Hp _ Hq Hq'].
  assert (Hfront : forall t, trim_end_matches "/" (host +:+ t) = host +:+ trim_end_matches "/" t)
    by (intros t; by apply trim_end_keep).
  assert (Hpre : forall s t, trim_end_matches "/" t <> "" -> trim_end_matches "/" (s +:+ t) = s +:+ trim_end_matches "/" t).
  { induction s as [|x s IH]; intros t Ht; [done|]. rewrite !str_app_cons. cbn [trim_end_matches]. rewrite IH by done.
    destruct (s +:+ trim_end_matches "/" t) eqn:E; [|done]. destruct s; [by rewrite str_app_nil_l in E|done]. }
  rewrite (Hpre scheme), (Hpre "://"), Hfront.
  - destruct Hq as [->|[qr ->]]; [by rewrite str_app_nil_r|]. cbn [str_is_empty]. by rewrite trim_end_app.
  - rewrite Hfront. by destruct host.
  - rewrite Hpre; [done|]. rewrite Hfront. by destruct host.
Qed.

Lemma trim_end_slash p : trim_end_matches "/" (String "/" p) = "" \/
  exists p', trim_end_matches "/" (String "/" p) = String "/" p'.
Proof. cbn [trim_end_matches]. destruct (trim_end_matches "/" p); [by left|right; eauto]. Qed.

Lemma trim_end_no c d s : contains_char d s = false -> contains_char d (trim_end_matches c s) = false.
Proof.
  induction s as [|x s IH]; intros Hs; [done|]. rewrite contains_char_cons in Hs.
  apply orb_false_iff in Hs as [Hx Hs]. cbn [trim_end_matches].
  destruct (trim_end_matches c s); [destruct (Ascii.eqb x c); [done|]|]; rewrite contains_char_cons, Hx; auto.
Qed.

(** The metadata document of a protected resource is placed where RFC 9728 section 3.1
    puts it.  For a resource identifier of scheme, host, path and a query without a slash,
    the well-known suffix goes between the host and the rest, the rest is the path without
    its terminating slashes and the query, and the document a configuration yields says the
    same place and names the same identifier, less those slashes. *)
Theorem resource_document_placed scheme host path query config :
  resource_identifier scheme host path query ->
  pc_resource config = scheme +:+ "://" +:+ host +:+ path +:+ query ->
  resource_well_known_path (pc_resource config) = PROTECTED_RESOURCE_WELL_KNOWN_PATH +:+ placed path query /\
  document_path (resource_from_config config) = resource_well_known_path (pc_resource config) /\
  pm_resource (resource_from_config config) =
    scheme +:+ "://" +:+ host +:+ (if str_is_empty query then trim_end_matches "/" path else path +:+ query).
Proof.
  intros Hid Hres. unfold document_path, resource_well_known_path. cbn [pm_resource resource_from_config].
  rewrite Hres, trim_end_identifier, resource_path_parts by done. split_and!; try done. f_equal.
  destruct Hid as [Hs Hh Hp Hp' Hq Hq']. destruct (str_is_empty query) eqn:E; [|by apply resource_path_parts].
  apply str_is_empty_true in E as ->. rewrite <- (str_app_nil_r (trim_end_matches "/" path)).
  rewrite resource_path_parts.
  - unfold placed. cbn [str_is_empty]. apply trim_end_idem.
  - split; try done; [|by apply trim_end_no]. destruct Hp as [->|[p ->]]; [by left|apply trim_end_slash].
Qed.

Lemma resource_document_placed_witness :
  document_path (resource_from_config (resource_config_new "https://rs.example/api/" "https://as.example"))
    = "/.well-known/oauth-protected-resource/api".
Proof.
  destruct (resource_document_placed "https" "rs.example" "/api/" ""
              (resource_config_new "https://rs.example/api/" "https://as.example")) as (Hp & Hd & _).
  - split; [done|done|by right; eexists|done|by left|done].
  - reflexivity.
  - rewrite Hd, Hp. reflexivity.
Defined.

(** A slash inside the query is taken for the start of the path, and one at its end for a
    terminating slash: the document of the first resource is placed without its query, and
    that of the second names another resource. *)
Example query_slash_misplaced :
  resource_well_known_path "https://rs.example?next=/home" = "/.well-known/oauth-protected-resource/home" /\
  pm_resource (resource_from_config (resource_config_new "https://rs.example/api?next=/" "https://as.example"))
    = "https://rs.example/api?next=".
Proof. split; reflexivity. Qed.
