(* ===== verification/Delegate.v ===== *)
(** * Delegating a store (delegate.rs)

    [delegate_storage!] writes, for each method it is given the name of, the forwarder to
    the store inside; the host writes the others.  The fixture crate's [CountingStore] is
    such a store: the in-memory one with the tokens it wrote counted. *)
From S2P Require Import Prelude Time Codec Types Store StoreFacts.
Local Open Scope Z_scope.

(** The methods of the trait by name. *)
Definition op_name {X} (op : StoreOp X) : string :=
  match op with
  | GetClient _ => "get_client" | PutClient _ => "put_client"
  | CompareAndSwapClient _ _ => "compare_and_swap_client" | DeleteClient _ _ => "delete_client"
  | PutDeviceGrant _ => "put_device_grant" | GetDeviceGrant _ => "get_device_grant"
  | FindDeviceGrantByUserCode _ => "find_device_grant_by_user_code"
  | TakeDeviceGrant _ => "take_device_grant"
  | CompareAndSwapDeviceGrant _ _ => "compare_and_swap_device_grant"
  | PutAuthorizationCode _ => "put_authorization_code"
  | CompareAndSwapAuthorizationCode _ _ => "compare_and_swap_authorization_code"
  | TakeAuthorizationCode _ => "take_authorization_code"
  | PutPushedAuthorizationRequest _ => "put_pushed_authorization_request"
  | TakePushedAuthorizationRequest _ => "take_pushed_authorization_request"
  | PutToken _ => "put_token" | GetToken _ => "get_token" | DeleteToken _ => "delete_token"
  | PutRefreshToken _ => "put_refresh_token" | GetRefreshToken _ => "get_refresh_token"
  | RotateRefreshToken _ _ _ _ => "rotate_refresh_token" | TakeRefreshToken _ => "take_refresh_token"
  | RevokeTokenFamily _ _ => "revoke_token_family"
  | PutConsent _ => "put_consent" | CompareAndSwapConsent _ _ => "compare_and_swap_consent"
  | GetConsent _ => "get_consent" | FindConsent _ _ => "find_consent"
  | ConsentsForSubject _ => "consents_for_subject" | RevokeConsent _ _ => "revoke_consent"
  | ClaimReplayId _ _ => "claim_replay_id" | SweepExpired _ => "sweep_expired"
  end.

Section delegate.
Context {S T : Type} `{Storage S}.

(** An arm [(@one $f, name)]: the method with its own arguments on the field. *)
Definition delegate_one {X} (op : StoreOp X) (self : S * T) : result X StorageError * (S * T) :=
  let (r, inner) := store_step op (fst self) in (r, (inner, snd self)).

(** The [impl] block: the methods listed for the macro and those the host writes; a method
    in neither is [None], and the block does not compile. *)
Definition delegate_storage (listed : list string)
    (own : forall X, StoreOp X -> option (S * T -> result X StorageError * (S * T)))
    {X} (op : StoreOp X) : option (S * T -> result X StorageError * (S * T)) :=
  if bool_decide (op_name op ∈ listed) then Some (delegate_one op) else own X op.
End delegate.

(** ** [CountingStore] *)
Section counting.
Context {S : Type} `{Storage S}.

Definition U64 : Z := 2 ^ 64.
Definition counting_put_token (token : IssuedToken) (self : S * Z)
  : result WriteOutcome StorageError * (S * Z) :=
  let (r, inner) := store_step (PutToken token) (fst self) in
  match r with
  | Err e => (Err e, (inner, snd self))
  | Ok outcome => (Ok outcome, (inner, if outcome == Applied then (snd self + 1) mod U64 else snd self))
  end.
Definition counting_own (X : Type) (op : StoreOp X) : option (S * Z -> result X StorageError * (S * Z)) :=
  match op in StoreOp X return option (S * Z -> result X StorageError * (S * Z)) with
  | PutToken token => Some (counting_put_token token)
  | _ => None
  end.

Definition counting_listed : list string :=
  ["get_client"; "put_client"; "compare_and_swap_client"; "delete_client";
   "put_device_grant"; "get_device_grant"; "find_device_grant_by_user_code";
   "take_device_grant"; "compare_and_swap_device_grant";
   "put_authorization_code"; "compare_and_swap_authorization_code"; "take_authorization_code";
   "put_pushed_authorization_request"; "take_pushed_authorization_request";
   "get_token"; "delete_token";
   "put_refresh_token"; "get_refresh_token"; "take_refresh_token"; "rotate_refresh_token";
   "revoke_token_family";
   "put_consent"; "compare_and_swap_consent"; "get_consent"; "find_consent";
   "consents_for_subject"; "revoke_consent"; "claim_replay_id"; "sweep_expired"].

Definition counting_method {X} (op : StoreOp X) : option (S * Z -> result X StorageError * (S * Z)) :=
  delegate_storage counting_listed counting_own op.

(** The block compiles: every method of the trait is listed or written. *)
Definition is_put_token {X} (op : StoreOp X) : bool := match op with PutToken _ => true | _ => false end.
Lemma listed_op {X} (op : StoreOp X) :
  bool_decide (op_name op ∈ counting_listed) = negb (is_put_token op).
Proof. destruct op; reflexivity. Qed.
Lemma counting_complete {X} (op : StoreOp X) : is_Some (counting_method op).
Proof. unfold counting_method, delegate_storage. rewrite listed_op. destruct op; cbn; eauto. Qed.

Definition counting_store : Storage (S * Z) := fun X op self =>
  match counting_method op with
  | Some f => f self
  | None => (Err {| se_message := "" |}, self)
  end.

Definition wrote_token {X} (op : StoreOp X) (r : result X StorageError) : bool :=
  match op in StoreOp X return result X StorageError -> bool with
  | PutToken _ => fun r => r == Ok Applied
  | _ => fun _ => false
  end r.

Lemma counting_step {X} (op : StoreOp X) (self : S * Z) :
  counting_store X op self =
    (fst (store_step op (fst self)),
     (snd (store_step op (fst self)),
      if wrote_token op (fst (store_step op (fst self))) then (snd self + 1) mod U64 else snd self)).
Proof.
  unfold counting_store, counting_method, delegate_storage. rewrite listed_op.
  destruct op; cbn [is_put_token negb counting_own wrote_token]; unfold delegate_one, counting_put_token;
    destruct (store_step _ _) as [r inner]; try done; cbn.
  destruct r as [outcome|]; cbn; [|done]. by destruct outcome.
Qed.

(** Any calls on a counting store answer what they answer on the store inside, which they
    leave as it would be, and the count is the number of access tokens written, modulo the
    width of the counter. *)
Fixpoint run_store {S'} (st : Storage S') (ops : list AnyOp) (s : S') : S' :=
  match ops with
  | [] => s
  | existT X op :: ops => run_store st ops (snd (st X op s))
  end.
Fixpoint tokens_written (ops : list AnyOp) (s : S) : Z :=
  match ops with
  | [] => 0
  | existT X op :: ops =>
      (if wrote_token op (fst (store_step op s)) then 1 else 0) + tokens_written ops (snd (store_step op s))
  end.

Theorem counting_store_delegates ops (s : S) n X (op : StoreOp X) :
  0 <= n < U64 ->
  run_store counting_store ops (s, n) = (run_store _ ops s, (n + tokens_written ops s) mod U64) /\
  fst (counting_store X op (run_store counting_store ops (s, n))) = fst (store_step op (run_store _ ops s)).
Proof.
  intros Hn. assert (Hrun : run_store counting_store ops (s, n) = (run_store _ ops s, (n + tokens_written ops s) mod U64)).
  { revert s n Hn. induction ops as [|[Y o] ops IH]; intros s n Hn; cbn.
    - by rewrite Z.add_0_r, Z.mod_small.
    - rewrite counting_step. cbn. case_match; [|by rewrite IH].
      rewrite IH by (apply Z.mod_pos_bound; done). f_equal. rewrite Z.add_mod_idemp_l by done. f_equal. lia. }
  split; [exact Hrun|]. by rewrite counting_step, Hrun.
Qed.
End counting.
