(* ===== verification/Harness.v ===== *)
(** * The storage conformance harness (storage_conformance.rs): its machinery

    A host runs the harness against its own store.  A check is a program that makes fresh
    stores, calls their methods, races calls and reports violations; this file has the
    programs ([check]), the report, the gate the racers meet at, the two ways a race is
    run ([JoinAll] on one task, or the host's runtime in an order of its own), the
    verdicts on a race, and what running a check does.  The records the checks store are
    in [Samples], the checks in [Checks] and [Checks2], what the machinery guarantees in
    [HarnessFacts], what the suite accepts and rejects in [Conformance], [Accepts] and
    [Rejects].

    A store is what its calls do between two suspension points: a [Micro] is the future of
    an [async] method, run a poll at a time.  A host that panics in a call on its own
    runtime is a task that is dropped.  The derived [Debug] output is a parameter. *)
From S2P Require Import Prelude Time Types Store.
Local Open Scope Z_scope.

(** ** Messages *)

(** The derived [Debug] of the types printed in a violation. *)
Class Debug := debug : forall T : Type, T -> string.
Arguments debug {_ T} x.

Class Display (T : Type) := display : T -> string.
#[global] Instance display_string : Display string := fun s => s.
#[global] Instance display_nat : Display nat := nat_display.
#[global] Instance display_Z : Display Z := fun n => nat_display (Z.to_nat n).
#[global] Instance display_bool : Display bool := fun b => if b then "true" else "false".
#[global] Instance display_StorageError : Display StorageError := se_message.

(** The double quote. *)
Definition dq : string := String (ascii_of_nat 34) EmptyString.

Record Violation : Type := { vi_check : string; vi_detail : string }.
#[global] Instance Violation_eq_dec : EqDecision Violation. Proof. solve_decision. Defined.
#[global] Instance display_Violation : Display Violation :=
  fun v => vi_check v +:+ ": " +:+ vi_detail v.

(** ** Checks *)

(** A racer: the call it makes once past the gate, and what it makes of the answer. *)
Record racer (R : Type) : Type := Racer {
  ra_answer : Type;
  ra_call : StoreOp ra_answer;
  ra_result : result ra_answer StorageError -> R;
}.
Arguments Racer {R ra_answer} ra_call ra_result.
Arguments ra_answer {R} r.
Arguments ra_call {R} r.
Arguments ra_result {R} r.

(** What is known when a race is over. *)
Record raced (R : Type) : Type := Raced {
  rc_results : list R;
  rc_abandoned : nat;
  rc_unsatisfied : bool;
}.
Arguments Raced {R} rc_results rc_abandoned rc_unsatisfied.
Arguments rc_results {R} r.
Arguments rc_abandoned {R} r.
Arguments rc_unsatisfied {R} r.

Inductive check (A : Type) : Type :=
| CRet (a : A)
| CNew (k : nat -> check A)
| CCall (X : Type) (store : nat) (op : StoreOp X) (k : result X StorageError -> check A)
| CFail (v : Violation) (k : check A)
| CRace (R : Type) (store : nat) (racers : list (racer R)) (k : raced R -> check A).
Arguments CRet {A} a.
Arguments CNew {A} k.
Arguments CCall {A X} store op k.
Arguments CFail {A} v k.
Arguments CRace {A R} store racers k.

Fixpoint check_bind {A B} (p : check A) (f : A -> check B) : check B :=
  match p with
  | CRet a => f a
  | CNew k => CNew (fun s => check_bind (k s) f)
  | CCall s op k => CCall s op (fun r => check_bind (k r) f)
  | CFail v k => CFail v (check_bind k f)
  | CRace s racers k => CRace s racers (fun rs => check_bind (k rs) f)
  end.
#[global] Instance check_mret : MRet check := fun A => CRet.
#[global] Instance check_mbind : MBind check := fun A B f p => check_bind p f.

(** [let Some(x) = m else { return };] and [if m.is_none() { return; }] *)
Definition or_return {A} (m : check (option A)) (k : A -> check unit) : check unit :=
  o ← m; match o with Some x => k x | None => mret tt end.
Notation "'let+' x ':=' m 'in' k" := (or_return m (fun x => k))
  (at level 10, x name, m at level 100, k at level 200).

(** [self.store().await] *)
Definition new_store : check nat := CNew CRet.
Definition call {X} (s : nat) (op : StoreOp X) : check (result X StorageError) := CCall s op CRet.

(** *** [Report] *)
Definition fail (c detail : string) : check unit :=
  CFail {| vi_check := c; vi_detail := detail |} (CRet tt).

Definition unexpected (what : string) (e : StorageError) : string :=
  what +:+ " failed unexpectedly: " +:+ display e.

Definition ok {T} (c what : string) (r : result T StorageError) : check (option T) :=
  match r with
  | Ok v => mret (Some v)
  | Err e => fail c (unexpected what e);; mret None
  end.

Definition some {T} (c what : string) (v : option T) : check (option T) :=
  match v with
  | Some x => mret (Some x)
  | None => fail c (display what +:+ " returned None for a record that was just stored");; mret None
  end.

Definition same `{Debug} {T} `{EqDecision T} (c field : string) (want got : T) : check unit :=
  if want != got then
    fail c ("field " +:+ display field +:+ " did not survive the round trip: stored " +:+ debug want
       +:+ ", read back " +:+ debug got)
  else mret tt.

(** [report.ok(c, what, store.method(..).await)] *)
Definition ok_call {X} (c what : string) (s : nat) (op : StoreOp X) : check (option X) :=
  r ← call s op; ok c what r.

(** *** The shapes most expectations have *)

(** [if let Some(found) = report.ok(..) { if found.is_some() { report.fail(..) } }] *)
Definition expect_gone {X} (c what : string) (s : nat) (op : StoreOp (option X)) (msg : string) : check unit :=
  r ← ok_call c what s op;
  match r with Some (Some _) => fail c msg | _ => mret tt end.
Definition expect_kept {X} (c what : string) (s : nat) (op : StoreOp (option X)) (msg : string) : check unit :=
  r ← ok_call c what s op;
  match r with Some None => fail c msg | _ => mret tt end.

(** [match store.put(..).await { Ok(RefusedRevoked) => {} Ok(Applied) => .. Err(e) => .. }] *)
Definition expect_refused (c what : string) (s : nat) (op : StoreOp WriteOutcome) (msg : string) : check unit :=
  r ← call s op;
  match r with
  | Ok RefusedRevoked => mret tt
  | Ok Applied => fail c msg
  | Err e => fail c (unexpected what e)
  end.
Definition expect_applied (c what : string) (s : nat) (op : StoreOp WriteOutcome) (msg : string) : check unit :=
  r ← call s op;
  match r with
  | Ok Applied => mret tt
  | Ok RefusedRevoked => fail c msg
  | Err e => fail c (unexpected what e)
  end.

(** [match store.swap(..).await { Ok(b) => {} Ok(_) => .. Err(e) => .. }] *)
Definition expect_answer (b : bool) (c what : string) (s : nat) (op : StoreOp bool) (msg : string) : check unit :=
  r ← call s op;
  match r with
  | Ok b' => if eqb b' b then mret tt else fail c msg
  | Err e => fail c (unexpected what e)
  end.

(** A [for] loop, and one whose body may [return]. *)
Fixpoint for_each {T} (l : list T) (body : T -> check unit) : check unit :=
  match l with [] => mret tt | x :: l => body x;; for_each l body end.
Fixpoint for_each_or_return {T} (l : list T) (body : T -> check (option unit)) : check (option unit) :=
  match l with
  | [] => mret (Some tt)
  | x :: l => o ← body x; match o with Some _ => for_each_or_return l body | None => mret None end
  end.
(** [planted &= report.ok(..).is_some()], over the calls in order *)
Fixpoint plant {T X} (c what : string) (s : nat) (op : T -> StoreOp X) (l : list T) (planted : bool) : check bool :=
  match l with
  | [] => mret planted
  | x :: l => r ← ok_call c what s (op x); plant c what s op l (planted && is_some r)
  end.

(** ** Verdicts *)
Definition HARNESS_RACE_SETUP : string := "harness/race_setup".
Definition HARNESS_RACER_PANICKED : string := "harness/racer_panicked".

Definition judge_race_counts (c what : string) (winners errors total : nat) : check unit :=
  (if Nat.ltb 1 winners then
     fail c (display winners +:+ " of " +:+ display total +:+ " concurrent takes each received the "
        +:+ display what
        +:+ ": the operation is not an atomic remove-and-return, so this store double-spends "
        +:+ "single-use credentials under concurrency")
   else if Nat.eqb winners 0 then
     fail c ("none of " +:+ display total +:+ " concurrent takes received the " +:+ display what
        +:+ ", though it was stored beforehand: the value was lost rather than handed to exactly one "
        +:+ "caller")
   else mret tt);;
  if Nat.ltb 0 errors then
    fail c (display errors +:+ " of " +:+ display total
       +:+ " concurrent takes failed with a StorageError. The server maps that to server_error, so "
       +:+ "a legitimate redemption fails under ordinary contention; a store using optimistic "
       +:+ "concurrency must retry internally rather than surface the conflict. This is the "
       +:+ "`Storage` trait's rule that contention is the store's to resolve, not the caller's: "
       +:+ "`Ok(None)` is how a take says the record was not there to take, and a StorageError is "
       +:+ "not")
  else mret tt.

Definition race_setup_verdict (abandoned n : nat) (gate_unsatisfied : bool) : check unit :=
  (if Nat.ltb 0 abandoned then
     fail HARNESS_RACER_PANICKED (display abandoned +:+ " of " +:+ display n
        +:+ " racers never finished: the store's call panicked, or the spawner dropped the task "
        +:+ "before it completed. Whatever the results of this check say, a store that panics under "
        +:+ "concurrent access fails the request that hit it, and on a host that aborts on panic it "
        +:+ "takes the process with it. The panic message itself is on the spawner's own reporting "
        +:+ "path, not here")
   else mret tt);;
  if gate_unsatisfied then
    fail HARNESS_RACE_SETUP ("the " +:+ display n
       +:+ " racers never overlapped: each gave up waiting for the others, which means they ran one "
       +:+ "after another and the atomicity results in this run prove nothing. A `with_spawn` that "
       +:+ "runs its task to completion inline does this; hand the futures to a real runtime instead")
  else mret tt.

Abbreviation TakeResults T := (list (result (option T) StorageError)).

Definition is_winner {T} (r : result (option T) StorageError) : bool :=
  match r with Ok (Some _) => true | _ => false end.
Definition is_error {T} (r : result T StorageError) : bool :=
  match r with Err _ => true | _ => false end.
Definition count {T} (p : T -> bool) (l : list T) : nat := List.length (List.filter p l).

Definition judge_race {T} (c what : string) (results : TakeResults T) : check unit :=
  judge_race_counts c what (count is_winner results) (count is_error results) (List.length results).

Definition judge_swap_race {T} (c what : string) (results : TakeResults T) : check unit :=
  let winners := count is_winner results in
  let errors := count is_error results in
  let total := List.length results in
  (if Nat.ltb 1 winners then
     fail c
       (display winners +:+ " of " +:+ display total +:+ " concurrent swaps of " +:+ display what
        +:+ ", every one of them naming the SAME expected value, were each told they applied. Only "
        +:+ "the first can be right: the first write moves the record off `expected`, so every "
        +:+ "comparison after it must fail. This store performs the comparison and the write as "
        +:+ "separate steps, and what is lost between them is whatever the previous writer decided")
   else if Nat.eqb winners 0 then
     fail c ("none of " +:+ display total +:+ " concurrent swaps of " +:+ display what
        +:+ " applied, though the record was stored with exactly the expected value beforehand: the "
        +:+ "write was lost rather than granted to one caller, so the decision the winner made is "
        +:+ "recorded nowhere")
   else mret tt);;
  if Nat.ltb 0 errors then
    fail c (display errors +:+ " of " +:+ display total +:+ " concurrent swaps of " +:+ display what
       +:+ " failed with a StorageError. The server maps that to server_error, so an ordinary "
       +:+ "overlap between two writers fails a legitimate request; a store using optimistic "
       +:+ "concurrency must retry internally rather than surface the conflict, because `Ok(false)` "
       +:+ "already says " +:+ dq +:+ "somebody else got there first" +:+ dq
       +:+ " and the caller knows what to do with it. This is the `Storage` trait's rule that "
       +:+ "contention is the store's to resolve, not the caller's")
  else mret tt.

(** [self.race(report, make)]: [make] is called for each racer in turn, and a sequence
    number taken in it is the racer's index. *)
Definition race {R} (n : nat) (s : nat) (make : nat -> racer R) : check (list R) :=
  o ← CRace s (map make (seq 0 n)) CRet;
  race_setup_verdict (rc_abandoned o) n (rc_unsatisfied o);;
  mret (rc_results o).

(** [.map(|applied| if applied { Some(()) } else { None })] *)
Definition won (r : result bool StorageError) : result (option unit) StorageError :=
  match r with
  | Ok true => Ok (Some tt)
  | Ok false => Ok None
  | Err e => Err e
  end.

(** ** Stores that suspend *)

(** A method in flight: polled, it does its work up to its next suspension point. *)
Inductive Micro (St X : Type) : Type :=
| Poll_ (f : St -> St * (result X StorageError + Micro St X)).
Arguments Poll_ {St X} f.

Definition poll_micro {St X} (m : Micro St X) (s : St) : St * (result X StorageError + Micro St X) :=
  match m with Poll_ f => f s end.

(** [.await] with nothing beside it. *)
Fixpoint await {St X} (m : Micro St X) (s : St) : result X StorageError * St :=
  match m with
  | Poll_ f =>
      match f s with
      | (s', inl r) => (r, s')
      | (s', inr m') => await m' s'
      end
  end.

(** A store under test: what [new_store] makes, and its methods. *)
Record Subject (St : Type) : Type := {
  sj_new : St;
  sj_call : forall X, StoreOp X -> Micro St X;
}.
Arguments sj_new {St} _.
Arguments sj_call {St} _ {X} _.

(** A store whose methods never suspend. *)
Definition atomic_subject {St} `{Storage St} (new : St) : Subject St := {|
  sj_new := new;
  sj_call X op := Poll_ (fun s => let (r, s') := store_step op s in (s', inl r)) |}.

(** ** The gate *)
Record Gate : Type := { gt_target : nat; gt_arrived : nat; gt_open : bool; gt_unsatisfied : bool }.
Definition gate_new (target : nat) : Gate :=
  {| gt_target := target; gt_arrived := 0; gt_open := false; gt_unsatisfied := false |}.

Definition GATE_POLL_BUDGET : Z := 10000.

Record GateWait : Type := { gw_counted : bool; gw_budget : Z }.
Definition gate_wait : GateWait := {| gw_counted := false; gw_budget := GATE_POLL_BUDGET |}.

(** [GateWait::poll]: the gate it leaves, and [None] when it is ready.  The wakers it
    registers only bring the next poll. *)
Definition poll_open (g : Gate) (w : GateWait) : Gate * option GateWait :=
  if gt_open g then (g, None)
  else if gw_budget w =? 0 then
    ({| gt_target := gt_target g; gt_arrived := gt_arrived g; gt_open := gt_open g;
        gt_unsatisfied := true |}, None)
  else (g, Some {| gw_counted := gw_counted w; gw_budget := gw_budget w - 1 |}).
Definition poll_gate (g : Gate) (w : GateWait) : Gate * option GateWait :=
  if gw_counted w then poll_open g w
  else
    let arrived := S (gt_arrived g) in
    if Nat.leb (gt_target g) arrived then
      ({| gt_target := gt_target g; gt_arrived := arrived; gt_open := true;
          gt_unsatisfied := gt_unsatisfied g |}, None)
    else poll_open {| gt_target := gt_target g; gt_arrived := arrived; gt_open := gt_open g;
                      gt_unsatisfied := gt_unsatisfied g |}
           {| gw_counted := true; gw_budget := gw_budget w |}.

(** ** Racers *)
Section race.
Context {St : Type} {R : Type}.

Inductive runner : Type :=
| AtGate (w : GateWait) (X : Type) (m : Micro St X) (k : result X StorageError -> R)
| InCall (X : Type) (m : Micro St X) (k : result X StorageError -> R)
| Done (r : R)
| Dropped
| Lost.

Definition start_racer (subject : Subject St) (r : racer R) : runner :=
  AtGate gate_wait (ra_answer r) (sj_call subject (ra_call r)) (ra_result r).

(** One poll of a racer's task: the gate, then the call up to its next suspension. *)
Definition poll_call {X} (m : Micro St X) (k : result X StorageError -> R) (s : St) : runner * St :=
  match poll_micro m s with
  | (s', inl r) => (Done (k r), s')
  | (s', inr m') => (InCall X m' k, s')
  end.
Definition poll_runner (r : runner) (g : Gate) (s : St) : runner * Gate * St :=
  match r with
  | AtGate w X m k =>
      match poll_gate g w with
      | (g', Some w') => (AtGate w' X m k, g', s)
      | (g', None) => let (r', s') := poll_call m k s in (r', g', s')
      end
  | InCall X m k => let (r', s') := poll_call m k s in (r', g, s')
  | Done _ | Dropped | Lost => (r, g, s)
  end.

(** Never polled again; and, of those, the ones whose [RacerGuard] has been dropped.  The
    guard is made by a task's first poll, so a task dropped before it is [Lost]: its guard
    never existed, and the latch waits for it for ever. *)
Definition gone (r : runner) : bool := match r with Done _ | Dropped | Lost => true | _ => false end.
Definition polled (r : runner) : bool := match r with AtGate w _ _ _ => gw_counted w | _ => true end.
Definition finished (r : runner) : bool := match r with Done _ | Dropped => true | _ => false end.
Definition outcome (r : runner) : option R := match r with Done x => Some x | _ => None end.

(** *** [JoinAll::poll]: every racer that is not done, in order *)
Fixpoint poll_all (rs : list runner) (g : Gate) (s : St) : list runner * Gate * St :=
  match rs with
  | [] => ([], g, s)
  | r :: rs =>
      let '(r', g, s) := poll_runner r g s in
      let '(rs', g, s) := poll_all rs g s in
      (r' :: rs', g, s)
  end.
(** Polled until none is pending; [None] when the fuel is used up. *)
Fixpoint join_all (fuel : nat) (rs : list runner) (g : Gate) (s : St) : option (list R * Gate * St) :=
  match fuel with
  | O => None
  | S fuel =>
      let '(rs, g, s) := poll_all rs g s in
      if forallb finished rs then Some (omap outcome rs, g, s) else join_all fuel rs g s
  end.

(** *** The host's runtime: it polls the tasks in an order of its own, and may drop one *)
Inductive spawn_event : Type := PollTask (i : nat) | DropTask (i : nat).

(** The tasks, the results pushed so far, and the [RacerGuard]s' count of the tasks
    dropped unfinished. *)
Record spawned : Type := {
  sp_runners : list runner;
  sp_collected : list R;
  sp_abandoned : nat;
  sp_gate : Gate;
  sp_store : St;
}.

Definition spawn_step (w : spawned) (ev : spawn_event) : spawned :=
  match ev with
  | PollTask i =>
      match sp_runners w !! i with
      | Some r =>
          if gone r then w
          else
            let '(r', g, s) := poll_runner r (sp_gate w) (sp_store w) in
            {| sp_runners := <[i := r']> (sp_runners w); sp_gate := g; sp_store := s;
               sp_collected := sp_collected w ++ option_list (outcome r');
               sp_abandoned := sp_abandoned w |}
      | None => w
      end
  | DropTask i =>
      match sp_runners w !! i with
      | Some r =>
          if gone r then w
          else {| sp_runners := <[i := if polled r then Dropped else Lost]> (sp_runners w);
                  sp_gate := sp_gate w; sp_store := sp_store w; sp_collected := sp_collected w;
                  sp_abandoned := (if polled r then 1 else 0) + sp_abandoned w |}
      | None => w
      end
  end.

Definition spawn_all (subject : Subject St) (racers : list (racer R)) (s : St) : spawned := {|
  sp_runners := map (start_racer subject) racers; sp_collected := []; sp_abandoned := 0;
  sp_gate := gate_new (List.length racers); sp_store := s |}.

(** [latch.wait()]: ready when every guard has been dropped. *)
Definition latch_open (w : spawned) : bool := forallb finished (sp_runners w).
End race.
Arguments runner St R : clear implicits.
Arguments spawned St R : clear implicits.

(** ** Running a check *)

(** [StorageConformance]'s [spawn]: without one the racers are joined on the caller's
    task ([fuel] polls of it at most); with one, the order a runtime polls and drops the
    tasks of each race in. *)
Inductive mode : Type :=
| Cooperative (fuel : nat)
| Spawned (schedule : nat -> list spawn_event).

Section run.
Context {St : Type} (subject : Subject St) (how : mode).

Definition run_race {R} (round : nat) (racers : list (racer R)) (s : St) : option (raced R * St) :=
  match how with
  | Cooperative fuel =>
      match join_all fuel (map (start_racer subject) racers) (gate_new (List.length racers)) s with
      | Some (rs, g, s') => Some (Raced rs 0 (gt_unsatisfied g), s')
      | None => None
      end
  | Spawned schedule =>
      let w := fold_left spawn_step (schedule round) (spawn_all subject racers s) in
      if latch_open w then
        Some (Raced (sp_collected w) (sp_abandoned w) (gt_unsatisfied (sp_gate w)), sp_store w)
      else None
  end.

(** A check in progress: the stores it has made, how many races there were so far, the
    violations it has reported.  [None]: it never ends. *)
Record session : Type := { ss_stores : list St; ss_races : nat; ss_violations : list Violation }.
Definition session_at (races : nat) : session :=
  {| ss_stores := []; ss_races := races; ss_violations := [] |}.

Fixpoint run_check {A} (p : check A) (w : session) : option (A * session) :=
  match p with
  | CRet a => Some (a, w)
  | CNew k =>
      run_check (k (List.length (ss_stores w)))
        {| ss_stores := ss_stores w ++ [sj_new subject]; ss_races := ss_races w;
           ss_violations := ss_violations w |}
  | CCall s op k =>
      match ss_stores w !! s with
      | Some st =>
          let (r, st') := await (sj_call subject op) st in
          run_check (k r) {| ss_stores := <[s := st']> (ss_stores w); ss_races := ss_races w;
                             ss_violations := ss_violations w |}
      | None => None
      end
  | CFail v k =>
      run_check k {| ss_stores := ss_stores w; ss_races := ss_races w;
                     ss_violations := ss_violations w ++ [v] |}
  | CRace s racers k =>
      match ss_stores w !! s with
      | Some st =>
          match run_race (ss_races w) racers st with
          | Some (o, st') =>
              run_check (k o) {| ss_stores := <[s := st']> (ss_stores w); ss_races := S (ss_races w);
                                 ss_violations := ss_violations w |}
          | None => None
          end
      | None => None
      end
  end.

(** Checks one after the other: no check sees a store of another. *)
Fixpoint run_checks (checks : list (check unit)) (races : nat) : option (list Violation) :=
  match checks with
  | [] => Some []
  | p :: checks =>
      match run_check p (session_at races) with
      | Some (_, w) =>
          match run_checks checks (ss_races w) with
          | Some vs => Some (ss_violations w ++ vs)
          | None => None
          end
      | None => None
      end
  end.
End run.
