(* ===== verification/Samples.v ===== *)
(** * The records the conformance checks store (storage_conformance.rs)

    The fixtures of the suite, the instants they are made of, and the assignments the
    checks make on them. *)
From S2P Require Import Prelude Time Codec Scope Types Store Rar Credentials Mtls Harness.
Local Open Scope Z_scope.

Definition BASE_SECS : Z := 1800000000.
Definition at_ (offset_secs : Z) : SystemTime := UNIX_EPOCH + from_secs (BASE_SECS + offset_secs).
Definition at_before (offset_secs : Z) : SystemTime := UNIX_EPOCH + from_secs (BASE_SECS - offset_secs).

Definition barrier_until : SystemTime := at_ 1000000.
Definition barrier_window : RevocationWindow :=
  {| rw_recorded_at := at_before 0; rw_until := barrier_until |}.

Definition scopes (s : string) : ScopeSet :=
  match ScopeSet.parse s with Ok set => set | Err _ => ScopeSet.empty end.

Definition AUTHORIZATION_DETAILS_JSON : string :=
  ("[{" +:+ dq +:+ "type" +:+ dq +:+ ":" +:+ dq +:+ "conformance-fixture" +:+ dq +:+ "," +:+ dq
     +:+ "locations" +:+ dq +:+ ":[" +:+ dq +:+ "https://rs-one.example/" +:+ dq +:+ "]," +:+ dq
     +:+ "actions" +:+ dq +:+ ":[" +:+ dq +:+ "read" +:+ dq +:+ "," +:+ dq +:+ "write" +:+ dq
     +:+ "]," +:+ dq +:+ "identifier" +:+ dq +:+ ":" +:+ dq +:+ "account-4711" +:+ dq +:+ "}]").

Section samples.
Context `{Crypto, Serde}.

Definition sample_authorization_details : AuthorizationDetails :=
  match rar_parse AUTHORIZATION_DETAILS_JSON with Ok details => details | Err _ => [] end.

Definition sample_authentication : option Authentication :=
  Some {| auth_time := at_before 120; acr := Some "urn:conformance:acr:multi-factor" |}.

Definition sample_client (client_id : string) : Client := {|
  c_client_id := client_id;
  c_auth := ConfidentialSecretHash (Secret.secret_sha256 "conformance-secret");
  c_grant_types := [AuthorizationCode; RefreshToken; DeviceCode];
  c_redirect_uris := ["https://app.example/cb"; "https://app.example/cb2"];
  c_allowed_scopes := scopes "read write admin";
  c_default_scopes := scopes "read";
  c_name := Some "conformance client";
  c_registration := Some {|
    dr_registration_access_token_hash := Secret.secret_sha256 "conformance-rat";
    dr_client_id_issued_at := Some BASE_SECS;
    dr_client_secret_expires_at := Some 0;
    dr_token_endpoint_auth_method := "client_secret_basic" |} |}.

Definition sample_device_grant (device_code user_code : string) : DeviceGrant := {|
  dg_device_code := device_code;
  dg_user_code := user_code;
  dg_client_id := "client-conformance";
  dg_scope := scopes "read write";
  dg_state := Approved "subject-conformance";
  dg_created_at := at_before 30;
  dg_expires_at := at_ 600;
  dg_interval := from_secs 7;
  dg_last_poll_at := Some (at_before 5) |}.

(** [DeviceGrant { state, ..g }] and the other assignments on a grant *)
Definition grant_with (g : DeviceGrant) (client_id : ClientId) (user_code : string) (state : DeviceGrantState)
    (expires_at : SystemTime) : DeviceGrant := {|
  dg_device_code := dg_device_code g; dg_user_code := user_code; dg_client_id := client_id;
  dg_scope := dg_scope g; dg_state := state; dg_created_at := dg_created_at g; dg_expires_at := expires_at;
  dg_interval := dg_interval g; dg_last_poll_at := dg_last_poll_at g |}.
Definition grant_in (state : DeviceGrantState) (g : DeviceGrant) : DeviceGrant :=
  grant_with g (dg_client_id g) (dg_user_code g) state (dg_expires_at g).
Definition grant_coded (user_code : string) (g : DeviceGrant) : DeviceGrant :=
  grant_with g (dg_client_id g) user_code (dg_state g) (dg_expires_at g).
Definition grant_of (client_id : ClientId) (g : DeviceGrant) : DeviceGrant :=
  grant_with g client_id (dg_user_code g) (dg_state g) (dg_expires_at g).
Definition grant_until (expires_at : SystemTime) (g : DeviceGrant) : DeviceGrant :=
  grant_with g (dg_client_id g) (dg_user_code g) (dg_state g) expires_at.

Definition sample_approved_device_grant (device_code user_code subject : string) : DeviceGrant :=
  grant_in (Approved subject) (sample_device_grant device_code user_code).

Definition sample_consent (consent_id subject : string) : ConsentRecord := {|
  cr_consent_id := consent_id;
  cr_client_id := "client-conformance";
  cr_subject := subject;
  cr_scope := scopes "read write";
  cr_resource := ["https://rs-one.example/"];
  cr_granted_at := at_before 60;
  cr_authentication := sample_authentication |}.
Definition consent_with (r : ConsentRecord) (client_id : ClientId) (scope : ScopeSet) (resource : list string)
    (granted_at : SystemTime) : ConsentRecord := {|
  cr_consent_id := cr_consent_id r; cr_client_id := client_id; cr_subject := cr_subject r; cr_scope := scope;
  cr_resource := resource; cr_granted_at := granted_at; cr_authentication := cr_authentication r |}.

Definition pushed_request_uri (client_id : ClientId) : string :=
  "urn:ietf:params:oauth:request_uri:cascade-" +:+ client_id.
Definition PUSHED_SWEPT : string := "urn:ietf:params:oauth:request_uri:sweep-dead".
Definition PUSHED_KEPT : string := "urn:ietf:params:oauth:request_uri:sweep-live".

Definition sample_pushed_request (request_uri : string) : PushedAuthorizationRequest := {|
  par_pushed_at := at_before 10;
  par_request_uri := request_uri;
  par_client_id := "client-conformance";
  par_response_type := Some "code";
  par_redirect_uri := Some "https://app.example/cb";
  par_scope := Some "read write";
  par_state := Some "state-conformance";
  par_code_challenge := Some "E9Melhoa2OwvFrEMTJguCHaoeK1t8URWbuGJSstw-cM";
  par_code_challenge_method := Some "S256";
  par_resource := ["https://rs-one.example/"];
  par_authorization_details := Some AUTHORIZATION_DETAILS_JSON;
  par_acr_values := Some "urn:acr:phr";
  par_max_age := Some "300";
  par_dpop_jkt := Some "pushed-conformance-jkt";
  par_expires_at := at_ 60 |}.
Definition pushed_with (r : PushedAuthorizationRequest) (client_id : ClientId) (state : option string)
    (pushed_at expires_at : SystemTime) : PushedAuthorizationRequest := {|
  par_pushed_at := pushed_at; par_request_uri := par_request_uri r; par_client_id := client_id;
  par_response_type := par_response_type r; par_redirect_uri := par_redirect_uri r; par_scope := par_scope r;
  par_state := state; par_code_challenge := par_code_challenge r;
  par_code_challenge_method := par_code_challenge_method r; par_resource := par_resource r;
  par_authorization_details := par_authorization_details r; par_acr_values := par_acr_values r;
  par_max_age := par_max_age r; par_dpop_jkt := par_dpop_jkt r; par_expires_at := expires_at |}.
Definition pushed_by (client_id : ClientId) (r : PushedAuthorizationRequest) : PushedAuthorizationRequest :=
  pushed_with r client_id (par_state r) (par_pushed_at r) (par_expires_at r).
Definition pushed_at_ (pushed_at : SystemTime) (r : PushedAuthorizationRequest) : PushedAuthorizationRequest :=
  pushed_with r (par_client_id r) (par_state r) pushed_at (par_expires_at r).
Definition pushed_until (expires_at : SystemTime) (r : PushedAuthorizationRequest) : PushedAuthorizationRequest :=
  pushed_with r (par_client_id r) (par_state r) (par_pushed_at r) expires_at.

Definition sample_authorization_code (code : string) : AuthorizationCodeRecord := {|
  ac_code := code;
  ac_client_id := "client-conformance";
  ac_redirect_uri := "https://app.example/cb";
  ac_redirect_uri_was_explicit := false;
  ac_scope := scopes "read write";
  ac_subject := "subject-conformance";
  ac_code_challenge := "E9Melhoa2OwvFrEMTJguCHaoeK1t8URWbuGJSstw-cM";
  ac_code_challenge_method := S256;
  ac_resource := ["https://rs-one.example/"; "https://rs-two.example/"];
  ac_authorization_details := sample_authorization_details;
  ac_issued_at := at_before 10;
  ac_expires_at := at_ 60;
  ac_state := Consumed (Some "at-minted-by-this-code") (Some "rt-minted-by-this-code");
  ac_authentication := sample_authentication;
  ac_dpop_jkt := Some "code-conformance-jkt" |}.
Definition code_with (r : AuthorizationCodeRecord) (client_id : ClientId) (subject : string)
    (expires_at : SystemTime) : AuthorizationCodeRecord := {|
  ac_code := ac_code r; ac_client_id := client_id; ac_redirect_uri := ac_redirect_uri r;
  ac_redirect_uri_was_explicit := ac_redirect_uri_was_explicit r; ac_scope := ac_scope r;
  ac_subject := subject; ac_code_challenge := ac_code_challenge r;
  ac_code_challenge_method := ac_code_challenge_method r; ac_resource := ac_resource r;
  ac_authorization_details := ac_authorization_details r; ac_issued_at := ac_issued_at r;
  ac_expires_at := expires_at; ac_state := ac_state r; ac_authentication := ac_authentication r;
  ac_dpop_jkt := ac_dpop_jkt r |}.
Definition code_of (client_id : ClientId) (r : AuthorizationCodeRecord) : AuthorizationCodeRecord :=
  code_with r client_id (ac_subject r) (ac_expires_at r).
Definition code_for (subject : string) (r : AuthorizationCodeRecord) : AuthorizationCodeRecord :=
  code_with r (ac_client_id r) subject (ac_expires_at r).
Definition code_until (expires_at : SystemTime) (r : AuthorizationCodeRecord) : AuthorizationCodeRecord :=
  code_with r (ac_client_id r) (ac_subject r) expires_at.

Definition sample_thumbprint : CertificateThumbprint := thumbprint_from_der "conformance-fixture-certificate".

Definition sample_token (access_token client_id : string) (family_id : option string) : IssuedToken := {|
  it_access_token := access_token;
  it_client_id := client_id;
  it_subject := Some "subject-conformance";
  it_scope := scopes "read write";
  it_resource := ["https://rs-one.example/"; "https://rs-two.example/"];
  it_authorization_details := sample_authorization_details;
  it_issued_at := at_before 10;
  it_grant_established_at := at_before 20;
  it_expires_at := at_ 3600;
  it_family_id := family_id;
  it_act := Some (mkActClaim "actor-conformance" (Some "client-actor-conformance")
                    (Some (mkActClaim "actor-conformance-prior" None None)));
  it_jkt := Some "0ZcOCORZNYy-DWpqq30jZyJGHTN0d2HglBV3uiguA4I";
  it_x5t_s256 := Some sample_thumbprint;
  it_authentication := sample_authentication |}.
Definition token_with (t : IssuedToken) (subject : option string) (established expires_at : SystemTime)
  : IssuedToken := {|
  it_access_token := it_access_token t; it_client_id := it_client_id t; it_subject := subject;
  it_scope := it_scope t; it_resource := it_resource t;
  it_authorization_details := it_authorization_details t; it_issued_at := it_issued_at t;
  it_grant_established_at := established; it_expires_at := expires_at; it_family_id := it_family_id t;
  it_act := it_act t; it_jkt := it_jkt t; it_x5t_s256 := it_x5t_s256 t;
  it_authentication := it_authentication t |}.
Definition token_for (subject : string) (t : IssuedToken) : IssuedToken :=
  token_with t (Some subject) (it_grant_established_at t) (it_expires_at t).
Definition token_granted (established : SystemTime) (t : IssuedToken) : IssuedToken :=
  token_with t (it_subject t) established (it_expires_at t).
Definition token_until (expires_at : SystemTime) (t : IssuedToken) : IssuedToken :=
  token_with t (it_subject t) (it_grant_established_at t) expires_at.

Definition sample_refresh (refresh_token client_id family_id : string) : RefreshTokenRecord := {|
  rt_refresh_token := refresh_token;
  rt_client_id := client_id;
  rt_subject := Some "subject-conformance";
  rt_scope := scopes "read write";
  rt_resource := ["https://rs-one.example/"; "https://rs-two.example/"];
  rt_authorization_details := sample_authorization_details;
  rt_grant_established_at := at_before 20;
  rt_expires_at := Some (at_ 86400);
  rt_family_id := family_id;
  rt_state := Spent;
  rt_retry := None;
  rt_jkt := Some "0ZcOCORZNYy-DWpqq30jZyJGHTN0d2HglBV3uiguA4I";
  rt_x5t_s256 := Some sample_thumbprint;
  rt_authentication := sample_authentication |}.
Definition refresh_in (state : RefreshTokenState) (r : RefreshTokenRecord) : RefreshTokenRecord :=
  rt_update r state (rt_expires_at r) (rt_retry r).
Definition refresh_until (expires_at : option SystemTime) (r : RefreshTokenRecord) : RefreshTokenRecord :=
  rt_update r (rt_state r) expires_at (rt_retry r).
Definition refresh_for (subject : string) (r : RefreshTokenRecord) : RefreshTokenRecord := {|
  rt_refresh_token := rt_refresh_token r; rt_client_id := rt_client_id r; rt_subject := Some subject;
  rt_scope := rt_scope r; rt_resource := rt_resource r;
  rt_authorization_details := rt_authorization_details r;
  rt_grant_established_at := rt_grant_established_at r; rt_expires_at := rt_expires_at r;
  rt_family_id := rt_family_id r; rt_state := rt_state r; rt_retry := rt_retry r; rt_jkt := rt_jkt r;
  rt_x5t_s256 := rt_x5t_s256 r; rt_authentication := rt_authentication r |}.

Definition client_named (name : string) (c : Client) : Client := {|
  c_client_id := c_client_id c; c_auth := c_auth c; c_grant_types := c_grant_types c;
  c_redirect_uris := c_redirect_uris c; c_allowed_scopes := c_allowed_scopes c;
  c_default_scopes := c_default_scopes c; c_name := Some name; c_registration := c_registration c |}.
Definition client_allowed (allowed : ScopeSet) (c : Client) : Client := {|
  c_client_id := c_client_id c; c_auth := c_auth c; c_grant_types := c_grant_types c;
  c_redirect_uris := c_redirect_uris c; c_allowed_scopes := allowed;
  c_default_scopes := c_default_scopes c; c_name := c_name c; c_registration := c_registration c |}.
End samples.
