(* ===== verification/Checks.v ===== *)
(** * The conformance checks: replay claims, barriers, swaps and their races
    (storage_conformance.rs)

    One definition per check, in the order of the source; the rest are in [Checks2]. *)
From S2P Require Import Prelude Time Codec Scope Types Store Consent Harness Samples.
Local Open Scope Z_scope.

(** ** The names of the checks *)
Definition BARRIER_REFUSES_TOKEN : string := "revocation_barrier/refuses_put_token".
Definition BARRIER_REFUSES_REFRESH : string := "revocation_barrier/refuses_put_refresh_token".
Definition BARRIER_REFUSES_PUSHED_REQUEST : string :=
  "revocation_barrier/refuses_put_pushed_authorization_request".
Definition BARRIER_SPARES_UNRELATED : string := "revocation_barrier/spares_unrelated_records".
Definition BARRIER_ADMITS_A_LATER_GRANT : string := "revocation_barrier/admits_a_later_grant".
Definition BARRIER_REPEAT_REVOCATION_MOVES_IT : string :=
  "revocation_barrier/repeat_revocation_moves_it".
Definition BARRIER_SWEPT_AT_DEADLINE : string := "revocation_barrier/swept_at_its_deadline".
Definition BARRIER_KEPT_BEFORE_DEADLINE : string := "revocation_barrier/kept_before_its_deadline".
Definition REVOCATION_REFUSES_EMPTY_SCOPE : string := "revocation/refuses_an_empty_scope".
Definition CLIENT_SWAP_APPLIES : string := "compare_and_swap_client/applies_when_it_matches".
Definition CLIENT_SWAP_HONOURS_EXPECTED : string := "compare_and_swap_client/honours_expected".
Definition CLIENT_SWAP_NEVER_RESURRECTS : string := "compare_and_swap_client/never_resurrects".
Definition CODE_SWAP_APPLIES : string :=
  "compare_and_swap_authorization_code/applies_when_it_matches".
Definition CODE_SWAP_HONOURS_EXPECTED : string :=
  "compare_and_swap_authorization_code/honours_expected".
Definition CODE_SWAP_NEVER_RESURRECTS : string :=
  "compare_and_swap_authorization_code/never_resurrects".
Definition CONSENT_SWAP_APPLIES : string := "compare_and_swap_consent/applies_when_it_matches".
Definition CONSENT_SWAP_HONOURS_EXPECTED : string := "compare_and_swap_consent/honours_expected".
Definition CONSENT_SWAP_NEVER_RESURRECTS : string := "compare_and_swap_consent/never_resurrects".
Definition SWAP_ATOMIC : string := "compare_and_swap_device_grant/atomic_under_a_race".
Definition CLIENT_SWAP_ATOMIC : string := "compare_and_swap_client/atomic_under_a_race".
Definition CODE_SWAP_ATOMIC : string := "compare_and_swap_authorization_code/atomic_under_a_race".
Definition CONSENT_SWAP_ATOMIC : string := "compare_and_swap_consent/atomic_under_a_race".
Definition ROUND_TRIP_CLIENT : string := "round_trip/client".
Definition ATOMIC_CLAIM_REPLAY_ID : string := "atomic_claim/claim_replay_id".
Definition CLAIM_REPLAY_ID_REFUSES_SECOND : string := "claim_replay_id/refuses_a_second_claim".
Definition SWEEP_RECLAIMS_REPLAY_IDS : string := "sweep_expired/reclaims_replay_ids".

Section checks.
Context `{Crypto, Serde, Debug} (racers : nat).

(** ** Replay ids *)
Definition check_claim_replay_id : check unit :=
  let deadline := at_ 300 in
  store ← new_store;
  results ← race racers store (fun _ => Racer (ClaimReplayId "jti-race" deadline) won);
  judge_race ATOMIC_CLAIM_REPLAY_ID "claim on a single-use jti" results;;
  store ← new_store;
  first ← ok_call CLAIM_REPLAY_ID_REFUSES_SECOND "claim_replay_id" store (ClaimReplayId "jti-once" deadline);
  (if first == Some false then
     fail CLAIM_REPLAY_ID_REFUSES_SECOND
       ("the FIRST claim of an unseen id answered false, so every artifact carrying a jti is "
        +:+ "refused as a replay of itself")
   else mret tt);;
  second ← ok_call CLAIM_REPLAY_ID_REFUSES_SECOND "claim_replay_id (again)" store
    (ClaimReplayId "jti-once" deadline);
  (if second == Some true then
     fail CLAIM_REPLAY_ID_REFUSES_SECOND
       ("the SECOND claim of the same id also answered true: the id is not recorded, so a client "
        +:+ "assertion or DPoP proof can be replayed by anyone who observed one request")
   else mret tt);;
  other ← ok_call CLAIM_REPLAY_ID_REFUSES_SECOND "claim_replay_id (a different id)" store
    (ClaimReplayId "jti-other" deadline);
  (if other == Some false then
     fail CLAIM_REPLAY_ID_REFUSES_SECOND "a claim of an id that was never claimed answered false"
   else mret tt);;
  store ← new_store;
  let now := at_ 0 in
  let+ _ := ok_call SWEEP_RECLAIMS_REPLAY_IDS "claim_replay_id" store (ClaimReplayId "jti-sweep" now) in
  let+ removed := ok_call SWEEP_RECLAIMS_REPLAY_IDS "sweep_expired" store (SweepExpired now) in
  if removed != 1 then
    fail SWEEP_RECLAIMS_REPLAY_IDS ("sweep_expired reported " +:+ display removed
       +:+ " removed with exactly one dead replay id in the store: claimed ids are records the "
       +:+ "sweep must reclaim, or the table grows once per authenticated request forever")
  else mret tt.

(** ** Barriers *)

(** The last block of [barrier_admits_a_later_grant]: pushed requests. *)
Definition pushed_after_deletion (store : nat) (client : ClientId) : check unit :=
  store2 ← new_store;
  let deleted := "client-par-deleted-and-gone" in
  put ← call store2 (PutClient (sample_client deleted));
  (if is_ok put then
     gone ← call store2 (DeleteClient deleted barrier_window);
     if is_ok gone then
       expect_refused BARRIER_ADMITS_A_LATER_GRANT "put_pushed_authorization_request" store2
         (PutPushedAuthorizationRequest (pushed_at_ (at_ 60) (pushed_by deleted (sample_pushed_request
            "urn:ietf:params:oauth:request_uri:pushed-while-client-gone"))))
         ("put_pushed_authorization_request wrote a request for a client that was deleted and not "
            +:+ "re-provisioned, on a `pushed_at` later than the revocation. A concurrent push stamps "
            +:+ "exactly that, so a deleted client's request_uri survives (RFC 9126 s2.2)")
     else mret tt
   else mret tt);;
  expect_applied BARRIER_ADMITS_A_LATER_GRANT "put_pushed_authorization_request" store
    (PutPushedAuthorizationRequest (pushed_at_ (at_ 60) (pushed_by client (sample_pushed_request
       "urn:ietf:params:oauth:request_uri:pushed-after-reprovisioning"))))
    ("put_pushed_authorization_request refused a request pushed for a client the host "
       +:+ "RE-PROVISIONED: the RFC 9126 endpoint answers server_error for a live registration "
       +:+ "until the barrier is swept").

Definition check_barrier_admits_a_later_grant : check unit :=
  store ← new_store;
  let client := "client-relifecycle" in
  let+ _ := ok_call BARRIER_ADMITS_A_LATER_GRANT "put_client" store (PutClient (sample_client client)) in
  let+ _ := ok_call BARRIER_ADMITS_A_LATER_GRANT "delete_client" store
    (DeleteClient client {| rw_recorded_at := at_before 0; rw_until := barrier_until |}) in
  expect_refused BARRIER_ADMITS_A_LATER_GRANT "put_token" store
    (PutToken (token_granted (at_before 60) (sample_token "at-grant-before-deletion" client None)))
    ("put_token wrote a token whose grant was established BEFORE the client was deleted: that "
       +:+ "is the in-flight write the barrier exists to refuse, so the deletion is undone by a "
       +:+ "request that was already running when it ran");;
  expect_refused BARRIER_ADMITS_A_LATER_GRANT "put_token" store
    (PutToken (token_granted (at_ 60) (sample_token "at-grant-after-deletion-still-gone" client None)))
    ("put_token wrote a token for a client that was DELETED and not re-provisioned, on the "
       +:+ "strength of a grant instant later than the revocation. A concurrent write can stamp "
       +:+ "exactly that instant, so a deleted client's credentials come back: refuse a "
       +:+ "client-scope grant whenever the client no longer exists");;
  expect_applied BARRIER_SPARES_UNRELATED "put_token" store
    (PutToken (token_granted (at_before 60)
       (sample_token "at-another-clients-grant-before-the-deletion" "client-not-the-one-deleted" None)))
    ("put_token refused a token belonging to a DIFFERENT client than the one deleted: the "
       +:+ "client barrier is not comparing its scope against the record's `client_id` at all, so "
       +:+ "one RFC 7592 s2.3 deletion has stopped every client this server has");;
  let+ _ := ok_call BARRIER_ADMITS_A_LATER_GRANT "put_client (re-provision)" store
    (PutClient (sample_client client)) in
  expect_applied BARRIER_ADMITS_A_LATER_GRANT "put_token" store
    (PutToken (token_granted (at_ 60) (sample_token "at-grant-after-reprovisioning" client None)))
    ("put_token refused a token whose grant was established AFTER the client was "
       +:+ "re-provisioned: a re-registered client is locked out until the barrier is swept, as "
       +:+ "long as the longest token this server mints. A client that EXISTS is judged by "
       +:+ "RevocationWindow::recorded_at alone");;
  pushed_after_deletion store client.

Definition check_revocation_barrier : check unit :=
  store ← new_store;
  let+ _ := ok_call BARRIER_REFUSES_TOKEN "revoke_token_family" store
    (RevokeTokenFamily "fam-barrier" barrier_window) in
  expect_refused BARRIER_REFUSES_TOKEN "put_token" store
    (PutToken (sample_token "at-after-revocation" "client-conformance" (Some "fam-barrier")))
    ("put_token wrote an access token for a family that had just been revoked: an issuance "
       +:+ "already in flight when the revocation ran completes behind it, so RFC 9700 s4.14.2 "
       +:+ "containment reports success and the token it was containing is live");;
  expect_refused BARRIER_REFUSES_TOKEN "put_token" store
    (PutToken (token_granted (at_ 60)
       (sample_token "at-after-revocation-later-grant" "client-conformance" (Some "fam-barrier"))))
    ("put_token wrote a token for a REVOKED family because its grant instant was after the "
       +:+ "revocation. The family scope refuses UNCONDITIONALLY: a rotation carries the grant "
       +:+ "instant forward but mints its records at `now`, so comparing here readmits the rotation "
       +:+ "that completes behind the cascade, which is the whole of what RFC 9700 s4.14.2 "
       +:+ "containment is for. Compare `recorded_at` for the client and consent scopes only");;
  expect_refused BARRIER_REFUSES_REFRESH "put_refresh_token" store
    (PutRefreshToken (sample_refresh "rt-after-revocation" "client-conformance" "fam-barrier"))
    ("put_refresh_token restored a refresh record for a family that had just been revoked: "
       +:+ "the user was told the grant was revoked and the client still holds a rotatable chain");;
  expect_applied BARRIER_SPARES_UNRELATED "put_token" store
    (PutToken (sample_token "at-unrelated" "client-conformance" (Some "fam-other")))
    ("put_token refused a token from a DIFFERENT family: the barrier is matching too widely, "
       +:+ "so one revocation has stopped this client issuing anything at all");;
  let never_registered := "client-never-registered" in
  deleted ← ok_call BARRIER_REFUSES_TOKEN "delete_client (a client that was never stored)" store
    (DeleteClient never_registered barrier_window);
  (if is_some deleted then
     expect_refused BARRIER_REFUSES_TOKEN "put_token" store
       (PutToken (sample_token "at-for-a-client-that-was-never-registered" never_registered None))
       ("delete_client recorded NO barrier because there was no registration to remove, so a "
          +:+ "write covered by that deletion was accepted. Deleting a client that is already gone "
          +:+ "answers Ok(false) and must still record the barrier: the issuance the deletion is "
          +:+ "racing is holding a registration it read earlier, and the empty result set says nothing "
          +:+ "about it")
   else mret tt);;
  before ← ok_call BARRIER_KEPT_BEFORE_DEADLINE "sweep_expired" store
    (SweepExpired (barrier_until - from_secs 1));
  (if is_some before then
     expect_refused BARRIER_KEPT_BEFORE_DEADLINE "put_refresh_token" store
       (PutRefreshToken (sample_refresh "rt-still-refused" "client-conformance" "fam-barrier"))
       ("a sweep BEFORE the barrier deadline reclaimed it, so a write that the revocation should "
          +:+ "still be refusing was accepted: the window the barrier exists to close has been "
          +:+ "reopened early")
   else mret tt);;
  let+ removed := ok_call BARRIER_SWEPT_AT_DEADLINE "sweep_expired" store (SweepExpired barrier_until) in
  if removed == 0 then
    fail BARRIER_SWEPT_AT_DEADLINE
      ("sweep_expired reclaimed nothing at the barrier deadline: a barrier is a row nothing "
       +:+ "else ever removes, so a store that does not sweep them grows by one per revocation "
       +:+ "forever")
  else mret tt.

Definition check_barrier_repeat_revocation_moves_it : check unit :=
  let c := BARRIER_REPEAT_REVOCATION_MOVES_IT in
  store ← new_store;
  let client := "client-revoked-twice" in
  let+ _ := ok_call c "put_client" store (PutClient (sample_client client)) in
  let later := {| rw_recorded_at := at_ 100; rw_until := barrier_until |} in
  let earlier := {| rw_recorded_at := at_before 0; rw_until := at_ 200 |} in
  let+ _ := ok_call c "delete_client" store (DeleteClient client later) in
  let+ _ := ok_call c "delete_client (a second revocation, with an EARLIER window)" store (DeleteClient client earlier) in
  let+ _ := ok_call c "put_client (re-provision, so the merge is what is tested)" store (PutClient (sample_client client)) in
  expect_refused c "put_token" store
    (PutToken (token_granted (at_ 50) (sample_token "at-between-two-revocations" client None)))
    ("after two revocations of one client, a token whose grant was established BETWEEN them "
       +:+ "was written. The second revocation carried an EARLIER `recorded_at` and this store took "
       +:+ "it, so the repeat revocation moved the barrier BACKWARDS and admitted exactly the grant "
       +:+ "the first one covered. `recorded_at` must take the later of the two, or a store whose "
       +:+ "two nodes race loses whichever revocation commits first");;
  let+ _ := ok_call c "put_token (a dead record for the sweep)" store
    (PutToken (token_until (at_before 1) (sample_token "at-dead-sweep-fodder" "client-sweep-fodder" None))) in
  let+ _ := ok_call c "sweep_expired (past the second window's deadline, short of the first's)" store (SweepExpired (at_ 300)) in
  expect_refused c "put_token" store
    (PutToken (token_granted (at_before 60) (sample_token "at-predating-both-revocations" client None)))
    ("a second revocation of one client SHORTENED the first one's deadline: sweeping past the "
       +:+ "second window's `until`, which is far short of the first's, reclaimed the barrier, and "
       +:+ "a write the first revocation was still covering was accepted. A repeat revocation must "
       +:+ "never shrink the protection already recorded").

Definition check_revocation_refuses_an_empty_scope : check unit :=
  let c := REVOCATION_REFUSES_EMPTY_SCOPE in
  store ← new_store;
  let+ _ := ok_call c "put_token" store
    (PutToken (sample_token "at-empty-scope" "client-empty-scope" (Some "fam-empty-scope"))) in
  r ← call store (DeleteClient "" barrier_window);
  match r with
  | Ok removed =>
      fail c ("delete_client accepted an EMPTY client_id and answered Ok(" +:+ display removed
         +:+ "). The empty string names no registration, so there is nothing for the cascade to mean "
         +:+ "and nothing a later write can be compared against; a store that keys barriers by value "
         +:+ "must refuse it rather than record one for " +:+ dq +:+ dq)
  | Err _ => mret tt
  end;;
  r ← call store (RevokeTokenFamily "" barrier_window);
  match r with
  | Ok removed =>
      fail c ("revoke_token_family accepted an EMPTY family_id and answered Ok(" +:+ display removed
         +:+ "). RFC 6749 section 4.4 tokens carry no family at all, so a store that treats "
         +:+ dq +:+ dq
         +:+ " as a family is one careless call away from a predicate that matches them")
  | Err _ => mret tt
  end;;
  expect_kept c "get_token" store (GetToken "at-empty-scope")
    ("a revocation refused for naming an empty scope had already removed records by the time "
       +:+ "it refused: the caller is told the call failed and the store is the one the failed call "
       +:+ "left behind").

(** ** Swaps *)
Definition check_compare_and_swap_client : check unit :=
  store ← new_store;
  let+ _ := ok_call CLIENT_SWAP_APPLIES "put_client" store (PutClient (sample_client "client-swap")) in
  let+ got := ok_call CLIENT_SWAP_APPLIES "get_client" store (GetClient "client-swap") in
  match got with
  | None =>
      fail CLIENT_SWAP_APPLIES "the registration written a moment ago is not there to swap against"
  | Some original =>
      let renamed := client_named "renamed by the swap" original in
      expect_answer true CLIENT_SWAP_APPLIES "compare_and_swap_client" store
        (CompareAndSwapClient original renamed)
        ("a swap whose expected record is exactly what is stored reported that it did not apply, "
           +:+ "so no RFC 7592 update can ever be recorded");;
      expect_answer false CLIENT_SWAP_HONOURS_EXPECTED "compare_and_swap_client" store
        (CompareAndSwapClient original (client_named "clobbered" original))
        ("a swap applied against a registration that had already changed: two concurrent RFC 7592 "
           +:+ "updates silently lose one, and the loser is whichever landed first");;
      r ← call store (GetClient "client-swap");
      match r with
      | Ok (Some live) =>
          if c_name live == Some "renamed by the swap" then mret tt
          else fail CLIENT_SWAP_HONOURS_EXPECTED
            "a refused swap wrote anyway: `Ok(false)` must mean nothing changed"
      | Ok None =>
          fail CLIENT_SWAP_HONOURS_EXPECTED "the registration vanished during a refused swap"
      | Err e => fail CLIENT_SWAP_HONOURS_EXPECTED (unexpected "get_client" e)
      end;;
      let+ _ := ok_call CLIENT_SWAP_NEVER_RESURRECTS "delete_client" store
        (DeleteClient "client-swap" barrier_window) in
      expect_answer false CLIENT_SWAP_NEVER_RESURRECTS "compare_and_swap_client" store
        (CompareAndSwapClient renamed renamed)
        ("a swap against a DELETED registration reported that it applied: `Ok(false)` is the only "
           +:+ "correct answer for a row that is not there");;
      r ← call store (GetClient "client-swap");
      match r with
      | Ok None => mret tt
      | Ok (Some _) =>
          fail CLIENT_SWAP_NEVER_RESURRECTS
            ("a swap brought back a deleted registration, with its old credential and its old "
             +:+ "registration access token hash: deleting a compromised client is defeatable by whoever "
             +:+ "holds the stolen token")
      | Err e => fail CLIENT_SWAP_NEVER_RESURRECTS (unexpected "get_client" e)
      end
  end.

Definition check_compare_and_swap_authorization_code : check unit :=
  store ← new_store;
  let+ _ := ok_call CODE_SWAP_APPLIES "put_authorization_code" store
    (PutAuthorizationCode (sample_authorization_code "code-swap")) in
  let+ taken := ok_call CODE_SWAP_APPLIES "take_authorization_code" store (TakeAuthorizationCode "code-swap") in
  match taken with
  | None =>
      fail CODE_SWAP_APPLIES
        "the authorization code written a moment ago is not there to swap against"
  | Some issued =>
      let+ _ := ok_call CODE_SWAP_APPLIES "put_authorization_code" store (PutAuthorizationCode issued) in
      let consumed_state := Consumed (Some "at-from-code") None in
      let consumed := ac_with_state issued consumed_state in
      expect_answer true CODE_SWAP_APPLIES "compare_and_swap_authorization_code" store
        (CompareAndSwapAuthorizationCode (ac_state issued) consumed)
        ("a swap whose expected state is exactly what is stored reported that it did not apply, "
           +:+ "so a redemption can never record what it minted");;
      let replayed := ac_with_state issued (Replayed (Some "at-from-code") None) in
      put ← ok_call CODE_SWAP_HONOURS_EXPECTED "put_authorization_code" store (PutAuthorizationCode replayed);
      (if is_some put then
         expect_answer false CODE_SWAP_HONOURS_EXPECTED "compare_and_swap_authorization_code" store
           (CompareAndSwapAuthorizationCode consumed_state consumed)
           ("a swap applied over a state that had already moved on: a redemption suspended in the "
              +:+ "host's signer overwrites the trace a detected replay left for it, and hands out the "
              +:+ "very tokens the replay was containing")
       else mret tt);;
      let+ _ := ok_call CODE_SWAP_NEVER_RESURRECTS "take_authorization_code" store
        (TakeAuthorizationCode "code-swap") in
      expect_answer false CODE_SWAP_NEVER_RESURRECTS "compare_and_swap_authorization_code" store
        (CompareAndSwapAuthorizationCode consumed_state consumed)
        "a swap against an authorization code that is not there reported that it applied";;
      r ← call store (TakeAuthorizationCode "code-swap");
      match r with
      | Ok None => mret tt
      | Ok (Some _) =>
          fail CODE_SWAP_NEVER_RESURRECTS
            ("a swap reinstated an authorization code that had been removed: a code a withdrawal or a "
             +:+ "client deletion cascaded away is redeemable again")
      | Err e => fail CODE_SWAP_NEVER_RESURRECTS (unexpected "take_authorization_code" e)
      end
  end.

(** [find_consent] of the pair, answering the record or ending the check. *)
Definition live_consent (store : nat) : check (option ConsentRecord) :=
  r ← call store (FindConsent "client-conformance" "subject-swap");
  match r with
  | Ok found => mret found
  | Err e => fail CONSENT_SWAP_APPLIES (unexpected "find_consent" e);; mret None
  end.

Definition check_compare_and_swap_consent : check unit :=
  store ← new_store;
  expect_answer true CONSENT_SWAP_APPLIES "compare_and_swap_consent" store
    (CompareAndSwapConsent None (sample_consent "consent-swap" "subject-swap"))
    ("a create against a (client, subject) pair that holds no consent reported that it did "
       +:+ "not apply, so a first approval can never be recorded");;
  let+ original := live_consent store in
  let widened := extend original (scopes "read write admin") [] in
  expect_answer true CONSENT_SWAP_APPLIES "compare_and_swap_consent" store
    (CompareAndSwapConsent (Some original) widened)
    ("a widen whose expected record is exactly what is stored reported that it did not apply, "
       +:+ "so a consent can never be broadened in place and the user is re-prompted on every "
       +:+ "authorization request that asks for a scope they have already approved");;
  let+ live := live_consent store in
  (if cr_scope live == cr_scope widened then mret tt
   else
     fail CONSENT_SWAP_APPLIES
       ("a widen that reported success did not change the stored record: the pair still holds "
        +:+ "scope " +:+ debug (cr_scope live) +:+ " rather than the widened "
        +:+ debug (cr_scope widened)));;
  expect_answer false CONSENT_SWAP_HONOURS_EXPECTED "compare_and_swap_consent" store
    (CompareAndSwapConsent None (sample_consent "consent-swap-duplicate" "subject-swap"))
    ("a create applied against a pair that already holds a consent: the pair now has two, and "
       +:+ "a user withdrawing one is told they revoked an application that is still authorized by "
       +:+ "the other");;
  let+ _ := ok_call CONSENT_SWAP_NEVER_RESURRECTS "revoke_consent" store
    (RevokeConsent "consent-swap" barrier_window) in
  expect_answer false CONSENT_SWAP_NEVER_RESURRECTS "compare_and_swap_consent" store
    (CompareAndSwapConsent (Some live)
       (extend live (scopes "read write admin") ["https://rs-three.example/"]))
    ("a widen applied against a consent that had been WITHDRAWN: the user was told they "
       +:+ "revoked an application and every later authorization request is still answered from the "
       +:+ "record they destroyed");;
  r ← call store (FindConsent "client-conformance" "subject-swap");
  match r with
  | Ok None => mret tt
  | Ok (Some _) => fail CONSENT_SWAP_NEVER_RESURRECTS
    "a withdrawn consent is live again after a swap"
  | Err e => fail CONSENT_SWAP_NEVER_RESURRECTS (unexpected "find_consent" e)
  end.

(** ** Races of swaps *)
Definition check_compare_and_swap_device_grant_race : check unit :=
  store ← new_store;
  let pending := grant_in Pending (sample_device_grant "dc-swap-race" "SWPR-AAAA") in
  let+ _ := ok_call SWAP_ATOMIC "put_device_grant" store (PutDeviceGrant pending) in
  results ← race racers store (fun i =>
    Racer (CompareAndSwapDeviceGrant Pending
             (grant_in (Approved ("subject-racer-" +:+ display i)) pending)) won);
  judge_swap_race SWAP_ATOMIC "one Pending device grant" results.

Definition check_compare_and_swap_client_race : check unit :=
  store ← new_store;
  let id := "client-swap-race" in
  let+ _ := ok_call CLIENT_SWAP_ATOMIC "put_client" store (PutClient (sample_client id)) in
  let+ got := ok_call CLIENT_SWAP_ATOMIC "get_client" store (GetClient id) in
  match got with
  | None => mret tt
  | Some original =>
      results ← race racers store (fun i =>
        Racer (CompareAndSwapClient original (client_named ("renamed by racer " +:+ display i) original)) won);
      judge_swap_race CLIENT_SWAP_ATOMIC "one registration" results
  end.

Definition check_compare_and_swap_authorization_code_race : check unit :=
  store ← new_store;
  let+ _ := ok_call CODE_SWAP_ATOMIC "put_authorization_code" store
    (PutAuthorizationCode (sample_authorization_code "code-swap-race")) in
  let+ taken := ok_call CODE_SWAP_ATOMIC "take_authorization_code" store
    (TakeAuthorizationCode "code-swap-race") in
  match taken with
  | None => mret tt
  | Some issued =>
      let+ _ := ok_call CODE_SWAP_ATOMIC "put_authorization_code (put back for the race)" store
        (PutAuthorizationCode issued) in
      results ← race racers store (fun i =>
        Racer (CompareAndSwapAuthorizationCode (ac_state issued)
                 (ac_with_state issued (Replayed (Some ("at-racer-" +:+ display i)) None))) won);
      judge_swap_race CODE_SWAP_ATOMIC "one authorization code record" results
  end.

Definition check_compare_and_swap_consent_race : check unit :=
  store ← new_store;
  let+ _ := ok_call CONSENT_SWAP_ATOMIC "compare_and_swap_consent (create)" store
    (CompareAndSwapConsent None (sample_consent "consent-swap-race" "subject-swap-race")) in
  let+ found := ok_call CONSENT_SWAP_ATOMIC "find_consent" store
    (FindConsent "client-conformance" "subject-swap-race") in
  match found with
  | None => mret tt
  | Some original =>
      results ← race racers store (fun i =>
        Racer (CompareAndSwapConsent (Some original)
                 (consent_with original (cr_client_id original) (cr_scope original) (cr_resource original)
                    (at_ (Z.of_nat i)))) won);
      judge_swap_race CONSENT_SWAP_ATOMIC "one live consent" results
  end.

(** ** Clients *)
Definition check_round_trip_client : check unit :=
  let c := ROUND_TRIP_CLIENT in
  store ← new_store;
  let want := sample_client "client-round-trip" in
  let superseded := client_allowed (scopes "read") (client_named
    "the registration this put must REPLACE" want) in
  let+ _ := ok_call c "put_client (the registration the next put must replace)" store (PutClient superseded) in
  let+ _ := ok_call c "put_client" store (PutClient want) in
  let+ got := ok_call c "get_client" store (GetClient (c_client_id want)) in
  let+ got := some c "get_client" got in
  same c "client_id" (c_client_id want) (c_client_id got);;
  same c "auth" (c_auth want) (c_auth got);;
  same c "grant_types" (c_grant_types want) (c_grant_types got);;
  same c "redirect_uris" (c_redirect_uris want) (c_redirect_uris got);;
  same c "allowed_scopes" (c_allowed_scopes want) (c_allowed_scopes got);;
  same c "default_scopes" (c_default_scopes want) (c_default_scopes got);;
  same c "name" (c_name want) (c_name got);;
  same c "registration" (c_registration want) (c_registration got).
End checks.
