(* ===== verification/Checks2.v ===== *)
(** * The conformance checks: device grants, round trips, atomic takes, consent, the
    user-code index, sweeping and cascades (storage_conformance.rs), and the suite *)
From S2P Require Import Prelude Time Codec Scope Types Store Consent Harness Samples Checks.
Local Open Scope Z_scope.

(** ** The names of the checks *)
Definition ROUND_TRIP_DEVICE_GRANT : string := "round_trip/device_grant".
Definition ROUND_TRIP_AUTHORIZATION_CODE : string := "round_trip/authorization_code".
Definition ROUND_TRIP_TOKEN : string := "round_trip/token".
Definition ROUND_TRIP_REFRESH_TOKEN : string := "round_trip/refresh_token".
Definition ATOMIC_TAKE_DEVICE_GRANT : string := "atomic_take/take_device_grant".
Definition SWAP_APPLIES_ON_MATCH : string :=
  "compare_and_swap_device_grant/applies_when_the_state_matches".
Definition SWAP_HONOURS_EXPECTED : string := "compare_and_swap_device_grant/honours_expected".
Definition SWAP_NEVER_RESURRECTS : string := "compare_and_swap_device_grant/never_resurrects".
Definition SWAP_RETIRES_OLD_USER_CODE : string :=
  "compare_and_swap_device_grant/retires_the_old_user_code".
Definition SWAP_REFUSES_DUPLICATE_USER_CODE : string :=
  "compare_and_swap_device_grant/refuses_a_duplicate_user_code".
Definition ATOMIC_TAKE_REFRESH_TOKEN : string := "atomic_take/take_refresh_token".
Definition ATOMIC_ROTATE_REFRESH_TOKEN : string := "atomic_rotate/rotate_refresh_token".
Definition ATOMIC_TAKE_AUTHORIZATION_CODE : string := "atomic_take/take_authorization_code".
Definition INDEX_RETIRES_OLD_USER_CODE : string := "user_code_index/retires_old_entry".
Definition INDEX_REFUSES_DUPLICATE_USER_CODE : string := "user_code_index/refuses_duplicate".
Definition INDEX_REFUSAL_WRITES_NOTHING : string := "user_code_index/refusal_writes_nothing".
Definition INDEX_CLEARED_BY_TAKE : string := "user_code_index/cleared_by_take".
Definition INDEX_NO_NORMALIZATION : string := "user_code_index/store_does_not_normalize".
Definition SWEEP_REMOVES_DEAD : string := "sweep_expired/removes_dead".
Definition SWEEP_KEEPS_LIVE : string := "sweep_expired/keeps_live".
Definition SWEEP_COUNT : string := "sweep_expired/count".
Definition SWEEP_EMPTY_IS_ZERO : string := "sweep_expired/empty_is_zero".
Definition SWEEP_RECLAIMS_PUSHED_REQUESTS : string := "sweep_expired/reclaims_pushed_requests".
Definition SWEEP_CONCURRENT_WRITES : string := "sweep_expired/safe_under_concurrent_writes".
Definition REVOKE_FAMILY_REMOVES : string := "revoke_token_family/removes_the_family".
Definition REVOKE_FAMILY_SPARES_OTHERS : string := "revoke_token_family/spares_other_families".
Definition REVOKE_FAMILY_COUNT : string := "revoke_token_family/count".
Definition DELETE_CLIENT_CASCADES : string := "delete_client/cascades".
Definition DELETE_CLIENT_REPORTS : string := "delete_client/reports_whether_it_removed".
Definition DELETE_TOKEN_IDEMPOTENT : string := "delete_token/idempotent".
Definition ATOMIC_TAKE_PUSHED_REQUEST : string := "atomic_take/take_pushed_authorization_request".
Definition ROUND_TRIP_PUSHED_REQUEST : string := "round_trip/pushed_authorization_request".
Definition ROUND_TRIP_CONSENT : string := "round_trip/consent".
Definition CONSENTS_FOR_SUBJECT : string := "consents_for_subject/lists_that_subjects_consents".
Definition REVOKE_CONSENT_CASCADES : string := "revoke_consent/cascades".
Definition REVOKE_CONSENT_SPARES_OTHERS : string := "revoke_consent/spares_other_subjects".
Definition REVOKE_CONSENT_COUNT : string := "revoke_consent/count".

(** Every name a violation can carry. *)
Definition CHECKS : list string := [
  HARNESS_RACE_SETUP; HARNESS_RACER_PANICKED; ROUND_TRIP_CLIENT; ROUND_TRIP_DEVICE_GRANT;
  ROUND_TRIP_AUTHORIZATION_CODE; ROUND_TRIP_TOKEN; ROUND_TRIP_REFRESH_TOKEN;
  ATOMIC_TAKE_DEVICE_GRANT; SWAP_APPLIES_ON_MATCH; SWAP_HONOURS_EXPECTED; SWAP_NEVER_RESURRECTS;
  SWAP_RETIRES_OLD_USER_CODE; SWAP_REFUSES_DUPLICATE_USER_CODE; ATOMIC_TAKE_REFRESH_TOKEN;
  ATOMIC_ROTATE_REFRESH_TOKEN; ATOMIC_TAKE_AUTHORIZATION_CODE; INDEX_RETIRES_OLD_USER_CODE;
  INDEX_REFUSES_DUPLICATE_USER_CODE; INDEX_REFUSAL_WRITES_NOTHING; INDEX_CLEARED_BY_TAKE;
  INDEX_NO_NORMALIZATION; SWEEP_REMOVES_DEAD; SWEEP_KEEPS_LIVE; SWEEP_COUNT; SWEEP_EMPTY_IS_ZERO;
  SWEEP_CONCURRENT_WRITES; SWEEP_RECLAIMS_PUSHED_REQUESTS; REVOKE_FAMILY_REMOVES;
  REVOKE_FAMILY_SPARES_OTHERS; REVOKE_FAMILY_COUNT; DELETE_CLIENT_CASCADES; DELETE_CLIENT_REPORTS;
  DELETE_TOKEN_IDEMPOTENT; ATOMIC_CLAIM_REPLAY_ID; CLAIM_REPLAY_ID_REFUSES_SECOND;
  SWEEP_RECLAIMS_REPLAY_IDS; ATOMIC_TAKE_PUSHED_REQUEST; ROUND_TRIP_PUSHED_REQUEST;
  ROUND_TRIP_CONSENT; CONSENTS_FOR_SUBJECT; REVOKE_CONSENT_CASCADES; REVOKE_CONSENT_SPARES_OTHERS;
  REVOKE_CONSENT_COUNT; BARRIER_REFUSES_TOKEN; BARRIER_REFUSES_REFRESH;
  BARRIER_REFUSES_PUSHED_REQUEST; BARRIER_SPARES_UNRELATED; BARRIER_ADMITS_A_LATER_GRANT;
  BARRIER_REPEAT_REVOCATION_MOVES_IT; BARRIER_SWEPT_AT_DEADLINE; BARRIER_KEPT_BEFORE_DEADLINE;
  REVOCATION_REFUSES_EMPTY_SCOPE; CLIENT_SWAP_APPLIES; CLIENT_SWAP_HONOURS_EXPECTED;
  CLIENT_SWAP_NEVER_RESURRECTS; CLIENT_SWAP_ATOMIC; CODE_SWAP_APPLIES; CODE_SWAP_HONOURS_EXPECTED;
  CODE_SWAP_NEVER_RESURRECTS; CODE_SWAP_ATOMIC; CONSENT_SWAP_APPLIES;
  CONSENT_SWAP_HONOURS_EXPECTED; CONSENT_SWAP_NEVER_RESURRECTS; CONSENT_SWAP_ATOMIC; SWAP_ATOMIC
].

Section checks.
Context `{Crypto, Serde, Debug} (racers : nat).

(** ** Device grants *)

(** [get_device_grant] reads the state [Denied], or the message on what it reads. *)
Definition expect_denied (c : string) (store : nat) (device_code : string)
    (msg : option DeviceGrantState -> string) : check unit :=
  r ← call store (GetDeviceGrant device_code);
  match r with
  | Ok (Some got) => if dg_state got == Denied then mret tt else fail c (msg (Some (dg_state got)))
  | Ok None => fail c (msg None)
  | Err e => fail c (unexpected "get_device_grant" e)
  end.

Definition check_compare_and_swap_device_grant : check unit :=
  store ← new_store;
  let pending := grant_in Pending (sample_device_grant "dc-swap" "SWAP-AAAA") in
  let device_code := dg_device_code pending in
  let user_code := UserCode.normalize_user_code (dg_user_code pending) in
  let+ _ := ok_call SWAP_APPLIES_ON_MATCH "put_device_grant" store (PutDeviceGrant pending) in
  let denied := grant_in Denied pending in
  let+ applied := ok_call SWAP_APPLIES_ON_MATCH "compare_and_swap_device_grant" store
    (CompareAndSwapDeviceGrant Pending denied) in
  (if negb applied then
     fail SWAP_APPLIES_ON_MATCH
       ("a swap whose expected state matched the stored state reported that it did not apply; "
        +:+ "the user's decision at the verification UI would never be recorded")
   else mret tt);;
  expect_denied SWAP_APPLIES_ON_MATCH store device_code (fun other =>
    ("a swap that reported success did not change the stored state: read back " +:+ debug other));;
  let repending := grant_in Pending pending in
  let+ applied := ok_call SWAP_HONOURS_EXPECTED "compare_and_swap_device_grant" store
    (CompareAndSwapDeviceGrant Pending repending) in
  (if applied then
     fail SWAP_HONOURS_EXPECTED
       ("a swap whose expected state was STALE reported that it applied: the store is not "
        +:+ "comparing `expected` against the stored state at all, so the user's decision is "
        +:+ "reverted by whichever writer arrives last")
   else mret tt);;
  expect_denied SWAP_HONOURS_EXPECTED store device_code (fun other =>
    ("a swap with a stale `expected` overwrote the stored state: the user denied this grant "
       +:+ "and it now reads " +:+ debug other));;
  let+ _ := ok_call SWAP_NEVER_RESURRECTS "take_device_grant" store (TakeDeviceGrant device_code) in
  dirty ← call store (FindDeviceGrantByUserCode user_code);
  let index_already_dirty := match dirty with Ok (Some _) => true | _ => false end in
  let+ applied := ok_call SWAP_NEVER_RESURRECTS "compare_and_swap_device_grant" store
    (CompareAndSwapDeviceGrant Denied denied) in
  (if applied then
     fail SWAP_NEVER_RESURRECTS
       ("a swap against a device_code that had already been redeemed reported that it applied: "
        +:+ "`Ok(false)` is the only correct answer for a row that is not there")
   else mret tt);;
  r ← call store (GetDeviceGrant device_code);
  match r with
  | Ok None => mret tt
  | Ok (Some _) =>
      fail SWAP_NEVER_RESURRECTS
        ("a swap brought back a device grant that had been redeemed: the store is writing through "
         +:+ "an insert-or-update, so an RFC 8628 single-use device code is now redeemable a second "
         +:+ "time")
  | Err e => fail SWAP_NEVER_RESURRECTS (unexpected "get_device_grant" e)
  end;;
  r ← call store (FindDeviceGrantByUserCode user_code);
  match r with
  | Ok None => mret tt
  | Ok (Some _) =>
      if index_already_dirty then mret tt
      else
        fail SWAP_NEVER_RESURRECTS
          ("a swap put a redeemed grant back into the user-code index: the code a human typed "
           +:+ "resolves to a grant that has already been exchanged for a token")
  | Err e => fail SWAP_NEVER_RESURRECTS (unexpected "find_device_grant_by_user_code" e)
  end.

(** The two halves of [compare_and_swap_device_grant_user_code_index]. *)
Definition swap_retires_old_user_code : check (option unit) :=
  let c := SWAP_RETIRES_OLD_USER_CODE in
  store ← new_store;
  let pending := grant_in Pending (sample_device_grant "dc-swap-idx" "SWPA-AAAA") in
  put ← ok_call c "put_device_grant" store (PutDeviceGrant pending);
  match put with
  | None => mret None
  | Some _ =>
      let recoded := grant_in Denied (grant_coded "SWPB-BBBB" pending) in
      applied ← ok_call c "compare_and_swap_device_grant (same device_code, new user code)" store (CompareAndSwapDeviceGrant Pending recoded);
      match applied with
      | None => mret None
      | Some applied =>
          (if (applied : bool) then
             got ← ok_call c "get_device_grant after the re-coding swap" store
               (GetDeviceGrant (dg_device_code pending));
             match got with
             | Some (Some got) => same c "state" Denied (dg_state got)
             | _ => mret tt
             end;;
             expect_kept c "find_device_grant_by_user_code(new)" store (FindDeviceGrantByUserCode "SWPBBBBB")

                 ("after a swap changed the user code, the NEW code does not resolve: the swap wrote the "
                  +:+ "grant and not the index, so the verification page cannot reach a device that is waiting");;
             expect_gone c "find_device_grant_by_user_code(old)" store (FindDeviceGrantByUserCode "SWPAAAAA")

                 ("the OLD user code still resolves after a swap changed it: a code the user was shown and "
                  +:+ "that has been superseded can still be used to approve the grant, and the grant now "
                  +:+ "answers to two codes at once")
           else mret tt);;
          mret (Some tt)
      end
  end.

Definition swap_refuses_duplicate_user_code : check unit :=
  let c := SWAP_REFUSES_DUPLICATE_USER_CODE in
  store ← new_store;
  let first := grant_in Pending (sample_device_grant "dc-swap-idx-first" "SWPC-CCCC") in
  let second := grant_in Pending (sample_device_grant "dc-swap-idx-second" "SWPD-DDDD") in
  let+ _ := for_each_or_return [first; second] (fun grant =>
    ok_call c "put_device_grant" store (PutDeviceGrant grant)) in
  let clash := grant_in Denied (grant_coded (dg_user_code first) second) in
  r ← call store (CompareAndSwapDeviceGrant Pending clash);
  (if is_ok r then
     fail c
       ("a swap onto a user code already indexed for another device_code did not fail: it must "
        +:+ "answer a StorageError, not Ok(_). Repointing the index gives two devices one identity "
        +:+ "and orphans the older grant, and the put refuses exactly this while the swap — which "
        +:+ "the verification UI and the polling device both reach — let it through")
   else mret tt);;
  found ← ok_call c "find_device_grant_by_user_code after the refused swap" store
    (FindDeviceGrantByUserCode "SWPCCCCC");
  match found with
  | Some (Some g) =>
      if dg_device_code g == dg_device_code first then mret tt
      else fail c ("the user code now resolves to device_code " +:+ debug (dg_device_code g)
         +:+ ", not to the grant that owned it: the index was repointed by a swap that should have "
         +:+ "written nothing")
  | Some None =>
      fail c
        ("the user code resolves to nothing after a clashing swap: the refused write removed the "
         +:+ "index entry belonging to the grant that already owned it")
  | None => mret tt
  end;;
  found ← ok_call c "get_device_grant after the refused swap" store (GetDeviceGrant (dg_device_code second));
  match found with
  | Some (Some g) =>
      if dg_user_code g == dg_user_code second then mret tt
      else fail c
        ("the swapping grant was rewritten even though its new user code belonged to another "
         +:+ "device_code: it now carries " +:+ debug (dg_user_code g))
  | Some None =>
      fail c
        ("the swapping grant is gone after a refused swap: a refusal must leave the store exactly "
         +:+ "as it was")
  | None => mret tt
  end;;
  found ← ok_call c "get_device_grant (state) after the refused swap" store
    (GetDeviceGrant (dg_device_code second));
  match found with
  | Some (Some g) => same c "state of the grant a refused swap targeted" (dg_state second) (dg_state g)
  | _ => mret tt
  end.

Definition check_compare_and_swap_device_grant_user_code_index : check unit :=
  let+ _ := swap_retires_old_user_code in
  swap_refuses_duplicate_user_code.

(** ** Round trips *)
Definition check_round_trip_device_grant : check unit :=
  let c := ROUND_TRIP_DEVICE_GRANT in
  store ← new_store;
  let want := sample_device_grant "dc-round-trip" "RTRT-AAAA" in
  let+ _ := ok_call c "put_device_grant" store (PutDeviceGrant want) in
  let+ got := ok_call c "get_device_grant" store (GetDeviceGrant (dg_device_code want)) in
  let+ got := some c "get_device_grant" got in
  same c "device_code" (dg_device_code want) (dg_device_code got);;
  same c "user_code" (dg_user_code want) (dg_user_code got);;
  same c "client_id" (dg_client_id want) (dg_client_id got);;
  same c "scope" (dg_scope want) (dg_scope got);;
  same c "state" (dg_state want) (dg_state got);;
  same c "created_at" (dg_created_at want) (dg_created_at got);;
  same c "expires_at" (dg_expires_at want) (dg_expires_at got);;
  same c "interval" (dg_interval want) (dg_interval got);;
  same c "last_poll_at" (dg_last_poll_at want) (dg_last_poll_at got);;
  let+ found := ok_call c "find_device_grant_by_user_code" store
    (FindDeviceGrantByUserCode (UserCode.normalize_user_code (dg_user_code want))) in
  match found with
  | Some found => same c "by-user-code record" want found
  | None => fail c "a grant that was just put is not reachable by its normalized user code"
  end.

Definition check_round_trip_authorization_code : check unit :=
  let c := ROUND_TRIP_AUTHORIZATION_CODE in
  store ← new_store;
  let want := sample_authorization_code "code-round-trip" in
  let+ _ := ok_call c "put_authorization_code" store (PutAuthorizationCode want) in
  let+ got := ok_call c "take_authorization_code" store (TakeAuthorizationCode (ac_code want)) in
  let+ got := some c "take_authorization_code" got in
  same c "code" (ac_code want) (ac_code got);;
  same c "client_id" (ac_client_id want) (ac_client_id got);;
  same c "redirect_uri" (ac_redirect_uri want) (ac_redirect_uri got);;
  same c "redirect_uri_was_explicit" (ac_redirect_uri_was_explicit want) (ac_redirect_uri_was_explicit got);;
  same c "scope" (ac_scope want) (ac_scope got);;
  same c "subject" (ac_subject want) (ac_subject got);;
  same c "code_challenge" (ac_code_challenge want) (ac_code_challenge got);;
  same c "code_challenge_method" (ac_code_challenge_method want) (ac_code_challenge_method got);;
  same c "resource" (ac_resource want) (ac_resource got);;
  same c "issued_at" (ac_issued_at want) (ac_issued_at got);;
  same c "expires_at" (ac_expires_at want) (ac_expires_at got);;
  same c "state" (ac_state want) (ac_state got);;
  same c "authorization_details" (ac_authorization_details want) (ac_authorization_details got);;
  same c "authentication" (ac_authentication want) (ac_authentication got).

Definition check_round_trip_token : check unit :=
  let c := ROUND_TRIP_TOKEN in
  store ← new_store;
  let want := sample_token "at-round-trip" "client-round-trip" (Some "fam-round-trip") in
  let+ _ := ok_call c "put_token" store (PutToken want) in
  let+ got := ok_call c "get_token" store (GetToken (it_access_token want)) in
  let+ got := some c "get_token" got in
  same c "access_token" (it_access_token want) (it_access_token got);;
  same c "client_id" (it_client_id want) (it_client_id got);;
  same c "subject" (it_subject want) (it_subject got);;
  same c "scope" (it_scope want) (it_scope got);;
  same c "resource" (it_resource want) (it_resource got);;
  same c "issued_at" (it_issued_at want) (it_issued_at got);;
  same c "grant_established_at" (it_grant_established_at want) (it_grant_established_at got);;
  same c "expires_at" (it_expires_at want) (it_expires_at got);;
  same c "family_id" (it_family_id want) (it_family_id got);;
  same c "jkt" (it_jkt want) (it_jkt got);;
  same c "x5t_s256" (it_x5t_s256 want) (it_x5t_s256 got);;
  same c "authorization_details" (it_authorization_details want) (it_authorization_details got);;
  same c "act" (it_act want) (it_act got);;
  same c "authentication" (it_authentication want) (it_authentication got);;
  r ← call store (GetToken (it_access_token want));
  match r with
  | Ok (Some _) => mret tt
  | Ok None =>
      fail c
        ("a second get_token for the same access token found nothing: the read is DESTRUCTIVE, so "
         +:+ "every introspection or revocation that merely asked about a token has revoked it, and "
         +:+ "the client holding it is refused with no explanation anywhere")
  | Err e => fail c (unexpected "get_token" e)
  end.

Definition check_round_trip_refresh_token : check unit :=
  let c := ROUND_TRIP_REFRESH_TOKEN in
  store ← new_store;
  let want := sample_refresh "rt-round-trip" "client-round-trip" "fam-round-trip" in
  let+ _ := ok_call c "put_refresh_token" store (PutRefreshToken want) in
  let+ got := ok_call c "get_refresh_token" store (GetRefreshToken (rt_refresh_token want)) in
  let+ got := some c "get_refresh_token" got in
  same c "refresh_token" (rt_refresh_token want) (rt_refresh_token got);;
  same c "client_id" (rt_client_id want) (rt_client_id got);;
  same c "subject" (rt_subject want) (rt_subject got);;
  same c "scope" (rt_scope want) (rt_scope got);;
  same c "resource" (rt_resource want) (rt_resource got);;
  same c "grant_established_at" (rt_grant_established_at want) (rt_grant_established_at got);;
  same c "expires_at" (rt_expires_at want) (rt_expires_at got);;
  same c "family_id" (rt_family_id want) (rt_family_id got);;
  same c "state" (rt_state want) (rt_state got);;
  same c "jkt" (rt_jkt want) (rt_jkt got);;
  same c "x5t_s256" (rt_x5t_s256 want) (rt_x5t_s256 got);;
  same c "authorization_details" (rt_authorization_details want) (rt_authorization_details got);;
  same c "authentication" (rt_authentication want) (rt_authentication got);;
  r ← call store (GetRefreshToken (rt_refresh_token want));
  match r with
  | Ok (Some _) => mret tt
  | Ok None =>
      fail c
        ("a second get_refresh_token for the same token found nothing: the read is DESTRUCTIVE, "
         +:+ "so a revocation request that merely verified the requesting client has ended a chain it "
         +:+ "was not entitled to touch, and the user is logged out by a request that reported success")
  | Err e => fail c (unexpected "get_refresh_token" e)
  end.

Definition check_round_trip_pushed_request : check unit :=
  let c := ROUND_TRIP_PUSHED_REQUEST in
  store ← new_store;
  let want := sample_pushed_request "urn:ietf:params:oauth:request_uri:round-trip" in
  let superseded := pushed_with want (par_client_id want) (Some "the pushed request this put must REPLACE")
                      (par_pushed_at want) (par_expires_at want) in
  let+ _ := ok_call c "put_pushed_authorization_request (the record the next put must replace)" store (PutPushedAuthorizationRequest superseded) in
  let+ _ := ok_call c "put_pushed_authorization_request" store (PutPushedAuthorizationRequest want) in
  let+ got := ok_call c "take_pushed_authorization_request" store
    (TakePushedAuthorizationRequest (par_request_uri want)) in
  let+ got := some c "take_pushed_authorization_request" got in
  same c "request_uri" (par_request_uri want) (par_request_uri got);;
  same c "client_id" (par_client_id want) (par_client_id got);;
  same c "response_type" (par_response_type want) (par_response_type got);;
  same c "redirect_uri" (par_redirect_uri want) (par_redirect_uri got);;
  same c "scope" (par_scope want) (par_scope got);;
  same c "state" (par_state want) (par_state got);;
  same c "code_challenge" (par_code_challenge want) (par_code_challenge got);;
  same c "code_challenge_method" (par_code_challenge_method want) (par_code_challenge_method got);;
  same c "resource" (par_resource want) (par_resource got);;
  same c "expires_at" (par_expires_at want) (par_expires_at got);;
  same c "pushed_at" (par_pushed_at want) (par_pushed_at got);;
  same c "authorization_details" (par_authorization_details want) (par_authorization_details got);;
  same c "acr_values" (par_acr_values want) (par_acr_values got);;
  same c "max_age" (par_max_age want) (par_max_age got).

(** ** Atomic takes *)
Definition check_atomic_take_device_grant : check unit :=
  let c := ATOMIC_TAKE_DEVICE_GRANT in
  store ← new_store;
  let+ _ := ok_call c "put_device_grant" store (PutDeviceGrant (sample_device_grant "dc-race" "RACE-AAAA")) in
  results ← race racers store (fun _ => Racer (TakeDeviceGrant "dc-race") id);
  judge_race c "device grant" results;;
  expect_gone c "get_device_grant after take" store (GetDeviceGrant "dc-race")
    "the grant is still readable after take_device_grant returned it".

Definition check_atomic_take_refresh_token : check unit :=
  let c := ATOMIC_TAKE_REFRESH_TOKEN in
  store ← new_store;
  let+ _ := ok_call c "put_refresh_token" store
    (PutRefreshToken (sample_refresh "rt-race" "client-race" "fam-race")) in
  results ← race racers store (fun _ => Racer (TakeRefreshToken "rt-race") id);
  judge_race c "refresh record" results;;
  expect_gone c "get_refresh_token after take" store (GetRefreshToken "rt-race")
    "the record is still readable after take_refresh_token returned it".

(** The loop that counts what the rotations left. *)
Fixpoint count_rotated (store : nat) (indices : list nat) (access_present next_present : nat) : check (nat * nat) :=
  let c := ATOMIC_ROTATE_REFRESH_TOKEN in
  match indices with
  | [] => mret (access_present, next_present)
  | i :: indices =>
      got ← ok_call c "get_token after rotation" store (GetToken ("rot-access-" +:+ display i));
      next ← ok_call c "get_refresh_token after rotation" store (GetRefreshToken ("rot-next-" +:+ display i));
      count_rotated store indices
        (match got with Some (Some _) => S access_present | _ => access_present end)
        (match next with Some (Some _) => S next_present | _ => next_present end)
  end.

(** [store.read(..).await.map(|o| o.is_some())], then the report on a loser that wrote. *)
Definition expect_unwritten {X} (what : string) (store : nat) (op : StoreOp (option X)) : check unit :=
  let c := ATOMIC_ROTATE_REFRESH_TOKEN in
  expect_gone c "read-back after stale" store op
    ("a rotation that lost the compare still wrote its " +:+ display what).

Definition check_atomic_rotate_refresh_token : check unit :=
  let c := ATOMIC_ROTATE_REFRESH_TOKEN in
  store ← new_store;
  let seed := refresh_in Active (sample_refresh "rot-pred" "client-rot" "fam-rot") in
  let+ _ := ok_call c "put_refresh_token" store (PutRefreshToken seed) in
  let+ read := ok_call c "get_refresh_token after put" store (GetRefreshToken "rot-pred") in
  match read with
  | None => mret tt
  | Some predecessor =>
      let spent := refresh_in Spent predecessor in
      let rotate (access next : string) :=
        RotateRefreshToken predecessor spent (sample_token access "client-rot" (Some "fam-rot"))
          (Some (sample_refresh next "client-rot" "fam-rot")) in
      results ← race racers store (fun i =>
        Racer (rotate ("rot-access-" +:+ display i) ("rot-next-" +:+ display i)) won);
      let n := racers in
      judge_swap_race c "one predecessor" results;;
      '(access_present, next_present) ← count_rotated store (seq 0 n) 0 0;
      (if negb (Nat.eqb access_present 1) || negb (Nat.eqb next_present 1) then
         fail c ("after " +:+ display n +:+ " concurrent rotations of one predecessor, "
            +:+ display access_present +:+ " access tokens and " +:+ display next_present
            +:+ " successors survive; exactly one of each must, or a loser committed part of its "
            +:+ "rotation and the write is not all-or-nothing")
       else mret tt);;
      stale ← ok_call c "rotate with a stale expected" store (rotate "rot-stale-access" "rot-stale-next");
      match stale with
      | Some true =>
          fail c
            ("a rotation whose expected predecessor no longer matches the stored record won the "
             +:+ "compare: the record changed underneath it and the swap did not notice")
      | _ => mret tt
      end;;
      expect_unwritten "access token" store (GetToken "rot-stale-access");;
      expect_unwritten "successor" store (GetRefreshToken "rot-stale-next")
  end.

Definition check_atomic_take_authorization_code : check unit :=
  let c := ATOMIC_TAKE_AUTHORIZATION_CODE in
  store ← new_store;
  let+ _ := ok_call c "put_authorization_code" store
    (PutAuthorizationCode (sample_authorization_code "code-race")) in
  results ← race racers store (fun _ => Racer (TakeAuthorizationCode "code-race") id);
  judge_race c "authorization code record" results;;
  expect_gone c "take_authorization_code after take" store (TakeAuthorizationCode "code-race")
    "a second take_authorization_code returned the record again".

Definition check_atomic_take_pushed_request : check unit :=
  let c := ATOMIC_TAKE_PUSHED_REQUEST in
  let uri := "urn:ietf:params:oauth:request_uri:race" in
  store ← new_store;
  let+ _ := ok_call c "put_pushed_authorization_request" store
    (PutPushedAuthorizationRequest (sample_pushed_request uri)) in
  results ← race racers store (fun _ => Racer (TakePushedAuthorizationRequest uri) id);
  judge_race c "pushed authorization request" results;;
  expect_gone c "take_pushed_authorization_request after take" store (TakePushedAuthorizationRequest uri)
    "a second take_pushed_authorization_request returned the handle again".

(** ** Consent *)

(** [matches!(store.read(..).await, Ok(None))] and [.., Ok(Some(_)))] *)
Definition reads_none {X} (store : nat) (op : StoreOp (option X)) : check bool :=
  r ← call store op; mret (match r with Ok None => true | _ => false end).
Definition reads_some {X} (store : nat) (op : StoreOp (option X)) : check bool :=
  r ← call store op; mret (match r with Ok (Some _) => true | _ => false end).

Definition consent_seed (subject tag : string)
  : IssuedToken * RefreshTokenRecord * AuthorizationCodeRecord * DeviceGrant :=
  (token_for subject (sample_token ("at-" +:+ tag) "client-conformance" (Some tag)),
   refresh_for subject (sample_refresh ("rt-" +:+ tag) "client-conformance" tag),
   code_for subject (sample_authorization_code ("code-" +:+ tag)),
   sample_approved_device_grant ("dc-" +:+ tag) ("UC" +:+ tag) subject).

(** The consents of two subjects are stored and read back. *)
Definition consent_round_trip (store : nat) : check (option unit) :=
  let c := ROUND_TRIP_CONSENT in
  let mine := sample_consent "consent-mine" "subject-conformance" in
  let theirs := sample_consent "consent-theirs" "subject-other" in
  let superseded := consent_with mine (cr_client_id mine) (scopes "read") [] (cr_granted_at mine) in
  stored ← for_each_or_return
    [("put_consent (the record the next put must replace)", superseded); ("put_consent", mine);
     ("put_consent (second subject)", theirs)]
    (fun p => ok_call c (fst p) store (PutConsent (snd p)));
  match stored with
  | None => mret None
  | Some _ =>
      back ← ok_call c "get_consent" store (GetConsent "consent-mine");
      match back with
      | Some (Some back) =>
          (if back != mine then fail c
            "get_consent returned a record that differs from the one stored" else mret tt);;
          same c "scope" (cr_scope mine) (cr_scope back);;
          same c "resource" (cr_resource mine) (cr_resource back)
      | _ => fail c "get_consent did not return the record"
      end;;
      found ← ok_call c "find_consent" store (FindConsent "client-conformance" "subject-conformance");
      match found with
      | Some (Some f) =>
          if cr_consent_id f == cr_consent_id mine then mret tt
          else fail c "find_consent returned a different consent than the one for that subject"
      | Some None => fail c "find_consent did not find a consent that get_consent can read"
      | None => mret tt
      end;;
      mret (Some tt)
  end.

Definition consent_ids (listed : list ConsentRecord) : list string := map cr_consent_id listed.
Definition listed_as (ids : list string) (id : string) : bool := existsb (fun x => x == id) ids.

Definition consent_listing (store : nat) : check unit :=
  let c := CONSENTS_FOR_SUBJECT in
  listed ← ok_call c "consents_for_subject" store (ConsentsForSubject "subject-conformance");
  match listed with
  | None => mret tt
  | Some listed =>
      let ids := consent_ids listed in
      (if negb (listed_as ids "consent-mine") then
         fail c ("consents_for_subject listed " +:+ debug ids
            +:+ " for a subject holding consent-mine: a user cannot withdraw what the host never shows "
            +:+ "them, so a listing that misses a live consent makes revocation unreachable from the UI")
       else mret tt);;
      if listed_as ids "consent-theirs" then
        fail c ("consents_for_subject listed " +:+ debug ids
           +:+ ", which includes a DIFFERENT resource owner's consent for the same client: the "
           +:+ "predicate is on the client id rather than the subject, so one user is shown another "
           +:+ "user's grants and can withdraw them")
      else mret tt
  end.

(** What a withdrawal must reach, and a pending grant it must not. *)
Definition consent_seeding (store : nat) : check (option unit) :=
  let c := REVOKE_CONSENT_CASCADES in
  seeded ← for_each_or_return [consent_seed "subject-conformance" "mine"; consent_seed "subject-other" "theirs"]
    (fun '(t, r, k, g) =>
       a ← ok_call c "seeding the records a withdrawal must reach: put_token" store (PutToken t);
       b ← ok_call c "seeding the records a withdrawal must reach: put_refresh_token" store (PutRefreshToken r);
       d ← ok_call c "seeding the records a withdrawal must reach: put_authorization_code" store (PutAuthorizationCode k);
       e ← ok_call c "seeding the records a withdrawal must reach: put_device_grant" store (PutDeviceGrant g);
       mret (if is_some a && is_some b && is_some d then e else None));
  match seeded with
  | None => mret None
  | Some _ =>
      ok_call REVOKE_CONSENT_SPARES_OTHERS
        "seeding a PENDING device grant the withdrawal must leave alone" store
        (PutDeviceGrant (grant_in Pending (sample_device_grant "dc-pending-mine" "PEND-MINE")))
  end.

Definition consent_cascade (store : nat) : check unit :=
  let '(at_mine, rt_mine, code_mine, grant_mine) := consent_seed "subject-conformance" "mine" in
  let '(at_theirs, rt_theirs, code_theirs, grant_theirs) := consent_seed "subject-other" "theirs" in
  g1 ← reads_none store (GetToken (it_access_token at_mine));
  g2 ← reads_none store (GetRefreshToken (rt_refresh_token rt_mine));
  g3 ← reads_none store (TakeAuthorizationCode (ac_code code_mine));
  g4 ← reads_none store (GetDeviceGrant (dg_device_code grant_mine));
  g5 ← reads_none store (FindDeviceGrantByUserCode (UserCode.normalize_user_code (dg_user_code grant_mine)));
  g6 ← reads_none store (GetConsent "consent-mine");
  for_each [("the access token", g1); ("the refresh record", g2); ("the unredeemed authorization code", g3);
            ("the approved device grant", g4); (
              "the user-code index entry of the approved device grant", g5);
            ("the consent record", g6)]
    (fun '(what, gone) =>
       if negb gone then
         fail REVOKE_CONSENT_CASCADES ("revoke_consent left " +:+ display what
            +:+ " alive, so the user was told this application was stopped and it was not")
       else mret tt);;
  a1 ← reads_some store (GetToken (it_access_token at_theirs));
  a2 ← reads_some store (GetRefreshToken (rt_refresh_token rt_theirs));
  a3 ← reads_some store (GetDeviceGrant (dg_device_code grant_theirs));
  a4 ← reads_some store (FindDeviceGrantByUserCode (UserCode.normalize_user_code (dg_user_code grant_theirs)));
  a5 ← reads_some store (TakeAuthorizationCode (ac_code code_theirs));
  a6 ← reads_some store (GetDeviceGrant "dc-pending-mine");
  a7 ← reads_some store (GetConsent "consent-theirs");
  for_each [("access token", a1); ("refresh record", a2); ("device grant", a3);
            ("user-code index entry", a4); ("authorization code", a5);
            ("PENDING device grant of the same subject", a6); ("consent record", a7)]
    (fun '(what, alive) =>
       if negb alive then
         fail REVOKE_CONSENT_SPARES_OTHERS ("revoke_consent removed the " +:+ display what
            +:+ " it was required to spare, ending a grant nobody withdrew")
       else mret tt).

Definition consent_barrier (store : nat) : check unit :=
  expect_refused BARRIER_REFUSES_TOKEN "put_token" store
    (PutToken (token_for "subject-conformance"
       (sample_token "at-issued-after-the-withdrawal" "client-conformance" (Some "fam-after-withdrawal"))))
    ("put_token wrote an access token for the (client, subject) pair whose consent had just "
       +:+ "been withdrawn. The cascade only reaches what is in the store when it runs; an "
       +:+ "authorization code redemption or a rotation already in flight for this pair completes "
       +:+ "behind it, and the user who was told the application was stopped is holding a live "
       +:+ "token issued after they stopped it");;
  expect_refused BARRIER_REFUSES_REFRESH "put_refresh_token" store
    (PutRefreshToken (refresh_for "subject-conformance"
       (sample_refresh "rt-restored-after-the-withdrawal" "client-conformance" "fam-after-withdrawal")))
    ("put_refresh_token restored a refresh record for a withdrawn consent. This is the write "
       +:+ "every refusal path of a rotation makes, on a record `take_refresh_token` has already "
       +:+ "removed, so absence proves nothing and the barrier is the only evidence there is: "
       +:+ "without it the withdrawal is undone by the rotation it raced");;
  expect_applied BARRIER_SPARES_UNRELATED "put_token" store
    (PutToken (token_for "subject-other"
       (sample_token "at-for-the-other-subject-after-the-withdrawal" "client-conformance"
          (Some "fam-after-withdrawal"))))
    ("put_token refused a token for a DIFFERENT resource owner of the same client after one "
       +:+ "user withdrew their consent: the consent barrier is matching on the client alone, so "
       +:+ "one person clicking withdraw stops every other user of that application from obtaining "
       +:+ "a token until the barrier is swept").

Definition check_consent : check unit :=
  store ← new_store;
  let+ _ := consent_round_trip store in
  consent_listing store;;
  let+ _ := consent_seeding store in
  let+ removed := ok_call REVOKE_CONSENT_CASCADES "revoke_consent" store
    (RevokeConsent "consent-mine" barrier_window) in
  consent_cascade store;;
  consent_barrier store;;
  listed ← ok_call CONSENTS_FOR_SUBJECT "consents_for_subject after revoke_consent" store
    (ConsentsForSubject "subject-conformance");
  match listed with
  | Some listed =>
      let ids := consent_ids listed in
      if listed_as ids "consent-mine" then
        fail CONSENTS_FOR_SUBJECT ("consents_for_subject still listed " +:+ debug ids
           +:+ " after that consent was withdrawn: the per-subject listing is a stale index, so the "
           +:+ "user is shown an application they have already stopped")
      else mret tt
  | None => mret tt
  end;;
  (if removed != 4 then
     fail REVOKE_CONSENT_COUNT
       ("revoke_consent removed 4 credentials but reported " +:+ display removed
        +:+ " (the consent record itself is not counted)")
   else mret tt);;
  let+ second := ok_call REVOKE_CONSENT_COUNT "revoke_consent (second call)" store
    (RevokeConsent "consent-mine" barrier_window) in
  if second != 0 then
    fail REVOKE_CONSENT_COUNT
      ("withdrawing an already-withdrawn consent reported " +:+ display second +:+ ", not 0")
  else mret tt.

(** ** The user-code index *)
Definition index_follows_puts : check unit :=
  let c := INDEX_RETIRES_OLD_USER_CODE in
  store ← new_store;
  first ← ok_call c "put_device_grant" store (PutDeviceGrant (sample_device_grant "dc-idx" "AAAA-AAAA"));
  second ← ok_call c "put_device_grant (same device_code, new user code)" store
    (PutDeviceGrant (sample_device_grant "dc-idx" "BBBB-BBBB"));
  (if is_some first && is_some second then
     expect_kept c "find_device_grant_by_user_code(new)" store (FindDeviceGrantByUserCode "BBBBBBBB")
       "after a put changed the user code, the NEW code does not resolve";;
     expect_gone c "find_device_grant_by_user_code(old)" store (FindDeviceGrantByUserCode "AAAAAAAA")
       ("the OLD user code still resolves after a put changed it: a code the user was shown and "
          +:+ "that has been superseded can still be used to approve the grant")
   else mret tt);;
  taken ← ok_call INDEX_CLEARED_BY_TAKE "take_device_grant" store (TakeDeviceGrant "dc-idx");
  if is_some taken then
    expect_gone INDEX_CLEARED_BY_TAKE "find_device_grant_by_user_code after take" store
      (FindDeviceGrantByUserCode "BBBBBBBB")
      "a taken grant is still reachable by its user code"
  else mret tt.

Definition index_refuses_duplicates : check (option unit) :=
  let c := INDEX_REFUSAL_WRITES_NOTHING in
  store ← new_store;
  put ← ok_call INDEX_REFUSES_DUPLICATE_USER_CODE "put_device_grant" store
    (PutDeviceGrant (sample_device_grant "dc-first" "CCCC-CCCC"));
  match put with
  | None => mret None
  | Some _ =>
      clash ← call store (PutDeviceGrant (sample_device_grant "dc-second" "CCCC-CCCC"));
      (if is_ok clash then
         fail INDEX_REFUSES_DUPLICATE_USER_CODE
           ("putting a second grant with a user code already indexed for another device_code "
            +:+ "succeeded; it must fail with a StorageError. Repointing the index gives two devices one "
            +:+ "identity and orphans the older grant, and it makes the server's user-code collision "
            +:+ "retry loop meaningless, since only the store can answer " +:+ dq
            +:+ "is this code taken" +:+ dq +:+ " without a race")
       else mret tt);;
      found ← ok_call c "find_device_grant_by_user_code after the refused put" store
        (FindDeviceGrantByUserCode "CCCCCCCC");
      match found with
      | Some (Some g) =>
          if dg_device_code g == "dc-first" then mret tt
          else fail c ("the user code now resolves to device_code " +:+ debug (dg_device_code g)
             +:+ ", not to the grant that owned it: the index was repointed by a put that should have "
             +:+ "written nothing")
      | Some None =>
          fail c
            ("the user code resolves to nothing after a clashing put: the refused write removed the "
             +:+ "index entry belonging to the grant that already owned it")
      | None => mret tt
      end;;
      expect_gone c "get_device_grant(dc-second)" store (GetDeviceGrant "dc-second")
        ("the clashing grant was persisted even though its user code belonged to another "
           +:+ "device_code");;
      mret (Some tt)
  end.

Definition index_does_not_normalize : check unit :=
  let c := INDEX_NO_NORMALIZATION in
  store ← new_store;
  let+ _ := ok_call c "put_device_grant" store (PutDeviceGrant (sample_device_grant "dc-norm" "WDJB-MJHT")) in
  expect_kept c "find_device_grant_by_user_code(normalized)" store (FindDeviceGrantByUserCode "WDJBMJHT")
    ("the normalized user code does not resolve, so the store is not indexing what it was "
       +:+ "given");;
  for_each ["WDJB-MJHT"; "wdjbmjht"] (fun probe =>
    expect_gone c "find_device_grant_by_user_code(unnormalized)" store (FindDeviceGrantByUserCode probe)
      ("the store resolved " +:+ debug probe
         +:+ ", which is not the normalized key it was given: it normalizes on the caller's behalf, "
         +:+ "so two distinct index keys collide and a lookup the server never intended succeeds")).

Definition check_user_code_index : check unit :=
  index_follows_puts;;
  let+ _ := index_refuses_duplicates in
  index_does_not_normalize.

(** ** Sweeping *)
Definition sweep_plant (store : nat) : check bool :=
  let now := at_ 0 in
  let c := SWEEP_REMOVES_DEAD in
  let refresh key := sample_refresh key "client-sweep" "fam-sweep" in
  let token key := sample_token key "client-sweep" (Some "fam-sweep") in
  planted ← plant c "put_device_grant" store PutDeviceGrant
    [grant_until now (sample_device_grant "dc-dead" "DEAD-AAAA");
     grant_until (at_ 600) (sample_device_grant "dc-live" "LIVE-AAAA")] true;
  planted ← plant c "put_authorization_code" store PutAuthorizationCode
    [ac_with_state (code_until (at_before 1) (sample_authorization_code "code-dead")) Issued;
     code_until (at_ 600) (sample_authorization_code "code-live")] planted;
  planted ← plant c "put_token" store PutToken
    [token_until (at_before 1) (token "at-dead"); token_until (at_ 600) (token "at-live")] planted;
  planted ← plant c "put_refresh_token" store PutRefreshToken
    [refresh_until (Some now) (refresh "rt-dead"); refresh_until (Some (at_ 600)) (refresh "rt-live");
     refresh_until None (refresh "rt-endless")] planted;
  plant c "put_pushed_authorization_request" store PutPushedAuthorizationRequest
    [pushed_until now (sample_pushed_request PUSHED_SWEPT);
     pushed_until (at_ 600) (sample_pushed_request PUSHED_KEPT)] planted.

Definition sweep_removed (store : nat) : check unit :=
  let c := SWEEP_REMOVES_DEAD in
  expect_gone c "get_device_grant" store (GetDeviceGrant "dc-dead")
    "an expired device grant survived the sweep";;
  expect_gone c "find_device_grant_by_user_code" store (FindDeviceGrantByUserCode "DEADAAAA")
    ("the user code of a swept grant still resolves: the index outlived the record it points "
       +:+ "at");;
  expect_gone c "take_authorization_code" store (TakeAuthorizationCode "code-dead")
    "an expired authorization code survived the sweep";;
  expect_gone c "get_token" store (GetToken "at-dead") "an expired access token survived the sweep";;
  expect_gone c "get_refresh_token" store (GetRefreshToken "rt-dead")
    "an expired refresh record survived the sweep";;
  expect_gone SWEEP_RECLAIMS_PUSHED_REQUESTS "take_pushed_authorization_request" store
    (TakePushedAuthorizationRequest PUSHED_SWEPT)
    ("an expired pushed authorization request survived the sweep: nothing else in this crate "
       +:+ "ever reclaims one, so the table grows once per pushed request that was never redeemed, "
       +:+ "forever").

Definition sweep_kept (store : nat) : check unit :=
  let k := SWEEP_KEEPS_LIVE in
  expect_kept k "get_device_grant" store (GetDeviceGrant "dc-live")
    "the sweep removed a device grant that had not expired";;
  expect_kept k "get_token" store (GetToken "at-live")
    "the sweep removed an access token that had not expired";;
  expect_kept k "get_refresh_token" store (GetRefreshToken "rt-live")
    "the sweep removed a refresh record that had not expired";;
  expect_kept k "get_refresh_token(no absolute expiry)" store (GetRefreshToken "rt-endless")
    ("the sweep removed a refresh record whose expires_at is None. A chain with no absolute "
       +:+ "lifetime is not dead, and treating None as " +:+ dq +:+ "expired at the epoch" +:+ dq
       +:+ " silently logs every such client out");;
  expect_kept k "take_authorization_code(live)" store (TakeAuthorizationCode "code-live")
    "the sweep removed an authorization code that had not expired";;
  expect_kept k "take_pushed_authorization_request(live)" store (TakePushedAuthorizationRequest PUSHED_KEPT)
    "the sweep removed a pushed authorization request that had not expired".

Definition check_sweep : check unit :=
  store ← new_store;
  let now := at_ 0 in
  planted ← sweep_plant store;
  if negb planted then mret tt
  else
    let+ removed := ok_call SWEEP_REMOVES_DEAD "sweep_expired" store (SweepExpired now) in
    let dead_records := 5 in
    let planted_records := 11 in
    (if removed != dead_records then
       fail SWEEP_COUNT
         ("sweep_expired reported " +:+ display removed +:+ " records removed, but exactly "
          +:+ display dead_records +:+ " of the " +:+ display planted_records
          +:+ " planted records were dead at `now`. The count is what a host schedules its sweep on, "
          +:+ "so a wrong one is a store that looks idle while it grows")
     else mret tt);;
    sweep_removed store;;
    sweep_kept store;;
    store ← new_store;
    let+ removed := ok_call SWEEP_EMPTY_IS_ZERO "sweep_expired on an empty store" store (SweepExpired now) in
    if removed != 0 then
      fail SWEEP_EMPTY_IS_ZERO
        ("sweep_expired on an empty store reported " +:+ display removed +:+ " records removed")
    else mret tt.

(** [answered], written by the racer that sweeps, and the racers' results. *)
Definition sweep_racer (i : nat) : racer (option (result Z StorageError) * result (option nat) StorageError) :=
  match i with
  | O => Racer (SweepExpired (at_ 0)) (fun swept => (Some swept, Ok None))
  | _ =>
      Racer (PutToken (token_until (at_ 600)
               (sample_token ("at-sweep-race-written-" +:+ display i) "client-sweep-race" None)))
        (fun r => (None, match r with
                         | Ok Applied => Ok (Some i)
                         | Ok RefusedRevoked => Ok None
                         | Err e => Err e
                         end))
  end.
Definition answered {A B} (l : list (option A * B)) : option A :=
  last (omap fst l).
Definition applied_indices (results : TakeResults nat) : list nat :=
  omap (fun r => match r with Ok (Some i) => Some i | _ => None end) results.

(** The loops that collect the keys that are gone; [None] when a read fails. *)
Fixpoint gone_keys (store : nat) (keys lost : list string) : check (option (list string)) :=
  match keys with
  | [] => mret (Some lost)
  | key :: keys =>
      got ← ok_call SWEEP_CONCURRENT_WRITES "get_token" store (GetToken key);
      match got with
      | Some None => gone_keys store keys (lost ++ [key])
      | Some (Some _) => gone_keys store keys lost
      | None => mret None
      end
  end.

Definition check_sweep_under_concurrent_writes : check unit :=
  let c := SWEEP_CONCURRENT_WRITES in
  store ← new_store;
  let n := racers in
  let planted_key (i : nat) := "at-sweep-race-planted-" +:+ display i in
  let written_key (i : nat) := "at-sweep-race-written-" +:+ display i in
  let+ _ := for_each_or_return (seq 0 n) (fun i =>
    r ← ok_call c "put_token (live, before the race)" store
      (PutToken (token_until (at_ 600) (sample_token (planted_key i) "client-sweep-race" None)));
    mret (match r with Some _ => Some tt | None => None end)) in
  outcomes ← race racers store sweep_racer;
  let results := map snd outcomes in
  let errors := count is_error results in
  let applied := applied_indices results in
  (if Nat.ltb 0 errors then
     fail c (display errors +:+ " of the " +:+ display ((n - 1)%nat)
        +:+ " concurrent put_token calls failed with a StorageError while a sweep was in flight. An "
        +:+ "issuance may not fail because a maintenance job is running beside it: the server maps "
        +:+ "that to server_error, so the host's sweep schedule becomes a source of failed token "
        +:+ "requests")
   else mret tt);;
  match answered outcomes with
  | Some (Ok removed) =>
      if removed == 0 then mret tt
      else
        fail c ("the sweep removed " +:+ display removed
           +:+ " records at an instant when every record in the store was live. It is reaping what the "
           +:+ "writes beside it were adding, so a token this store reported as written is already gone")
  | Some (Err _) => mret tt
  | None => fail c "the sweep never reported an answer, so the race never ran it"
  end;;
  let+ lost := gone_keys store (map written_key applied) [] in
  let+ lost := gone_keys store (map planted_key (seq 0 n)) lost in
  match lost with
  | [] => mret tt
  | _ =>
      fail c (display (List.length lost)
         +:+ " live access tokens were gone after a sweep that ran alongside "
         +:+ display ((n - 1)%nat) +:+ " concurrent put_token calls: " +:+ debug lost
         +:+ ". Every one of them was either already stored or reported Applied, so this store loses "
         +:+ "writes that overlap a sweep. The usual cause is reading the table, deciding what to "
         +:+ "keep and writing the kept set back, with anything at all happening outside the lock in "
         +:+ "between")
  end.

(** ** Cascades *)
Definition check_revoke_family : check unit :=
  let c := REVOKE_FAMILY_REMOVES in
  let s := REVOKE_FAMILY_SPARES_OTHERS in
  store ← new_store;
  planted ← plant c "put_token" store (fun '(key, family) => PutToken (sample_token key "client-fam" (Some family)))
    [("at-a1", "fam-a"); ("at-a2", "fam-a"); ("at-b", "fam-b")] true;
  planted ← plant c "put_token(no family)" store PutToken [sample_token "at-nofam" "client-fam" None] planted;
  planted ← plant c "put_refresh_token" store (fun '(key, family) => PutRefreshToken (sample_refresh key "client-fam" family))
    [("rt-a1", "fam-a"); ("rt-a2", "fam-a"); ("rt-b", "fam-b")] planted;
  if negb planted then mret tt
  else
    let+ removed := ok_call c "revoke_token_family" store (RevokeTokenFamily "fam-a" barrier_window) in
    (if removed != 4 then
       fail REVOKE_FAMILY_COUNT ("revoke_token_family reported " +:+ display removed
          +:+ " removed, but the family held 4 records (2 access tokens and 2 refresh records)")
     else mret tt);;
    for_each ["at-a1"; "at-a2"] (fun key =>
      expect_gone c "get_token" store (GetToken key)
        ("access token " +:+ display key
           +:+ " carrying the revoked family_id survived. RFC 9700 section 4.14.2 requires revoking the "
           +:+ "tokens issued for that authorization grant, not just the refresh chain, so the thief's "
           +:+ "already-minted access tokens stay live"));;
    for_each ["rt-a1"; "rt-a2"] (fun key =>
      expect_gone c "get_refresh_token" store (GetRefreshToken key)
        ("refresh record " +:+ display key +:+ " carrying the revoked family_id survived"));;
    expect_kept s "get_token" store (GetToken "at-b")
      "revoking one family removed an access token of another";;
    expect_kept s "get_refresh_token" store (GetRefreshToken "rt-b")
      "revoking one family removed a refresh record of another";;
    expect_kept s "get_token(no family)" store (GetToken "at-nofam")
      "revoking a family removed an access token that carries no family_id at all";;
    r ← call store (RevokeTokenFamily "fam-a" barrier_window);
    match r with
    | Ok n =>
        if n == 0 then mret tt
        else fail REVOKE_FAMILY_COUNT
          ("revoking an already-revoked family reported " +:+ display n +:+ " removed, expected 0")
    | Err e =>
        fail c ("revoking an already-revoked family failed with " +:+ display e
           +:+ ". Removing records that are already gone is success: this runs on evidence of compromise")
    end.

(** [format!("dc-{}", id.as_str())] and the like. *)
Definition named (prefix : string) (id : ClientId) : string := prefix +:+ id.

(** The records of one client, planted in order. *)
Definition delete_client_plant (store : nat) (doomed : ClientId) (planted : bool) (id : ClientId) : check bool :=
  let c := DELETE_CLIENT_CASCADES in
  planted ← plant c "put_client" store PutClient [sample_client id] planted;
  planted ← plant c "put_device_grant" store PutDeviceGrant
    [grant_of id (sample_device_grant (named "dc-" id) (if id == doomed then "DOOM-AAAA" else "BYST-AAAA"))]
    planted;
  planted ← plant c "put_authorization_code" store PutAuthorizationCode
    [code_of id (sample_authorization_code (named "code-" id))] planted;
  planted ← plant c "put_authorization_code (unredeemed)" store PutAuthorizationCode
    [ac_with_state (code_of id (sample_authorization_code (named "code-unredeemed-" id))) Issued] planted;
  planted ← plant c "put_token" store PutToken [sample_token (named "at-" id) id (Some "fam-cascade")] planted;
  planted ← plant c "put_refresh_token" store PutRefreshToken [sample_refresh (named "rt-" id) id "fam-cascade"]
    planted;
  planted ← plant c "put_pushed_authorization_request" store PutPushedAuthorizationRequest
    [pushed_by id (sample_pushed_request (pushed_request_uri id))] planted;
  let consent := sample_consent (named "consent-" id) "subject-conformance" in
  plant c "put_consent" store PutConsent
    [consent_with consent id (cr_scope consent) (cr_resource consent) (cr_granted_at consent)] planted.

Definition delete_client_removed (store : nat) (doomed : ClientId) : check unit :=
  let c := DELETE_CLIENT_CASCADES in
  expect_gone c "get_client" store (GetClient doomed) "the registration survived delete_client";;
  expect_gone c "get_token" store (GetToken "at-client-doomed")
    ("an access token issued to the deleted client survived: a client that no longer exists "
       +:+ "can still call resource servers");;
  expect_gone c "get_refresh_token" store (GetRefreshToken "rt-client-doomed")
    ("a refresh chain of the deleted client survived, so the deleted client can mint fresh "
       +:+ "access tokens indefinitely");;
  expect_gone c "take_authorization_code" store (TakeAuthorizationCode "code-client-doomed")
    "an authorization code of the deleted client survived";;
  expect_gone c "take_authorization_code (unredeemed)" store
    (TakeAuthorizationCode "code-unredeemed-client-doomed")
    ("an UNREDEEMED authorization code of the deleted client survived, so the cascade is "
       +:+ "filtering on the code's state. That code is a live grant: the deleted registration "
       +:+ "redeems it and receives an access token and a refresh chain minutes after RFC 7592 "
       +:+ "section 2.3 said it no longer exists");;
  expect_gone c "get_device_grant" store (GetDeviceGrant "dc-client-doomed")
    "a device grant of the deleted client survived";;
  expect_gone c "find_device_grant_by_user_code" store (FindDeviceGrantByUserCode "DOOMAAAA")
    "the user-code index entry of the deleted client's device grant survived";;
  expect_gone c "take_pushed_authorization_request" store
    (TakePushedAuthorizationRequest (pushed_request_uri doomed))
    ("a pushed authorization request of the deleted client survived: RFC 9126 section 2.2 "
       +:+ "binds the handle to the client that pushed it, so what is left is a live `request_uri` "
       +:+ "nobody may ever redeem, holding authorization parameters for a registration that no "
       +:+ "longer exists");;
  expect_gone c "get_consent" store (GetConsent "consent-client-doomed")
    ("a consent record of the deleted client survived. The user is shown an application that "
       +:+ "no longer exists and cannot meaningfully withdraw it, and because `client_id` is chosen "
       +:+ "by the HOST, a client provisioned later under the same id inherits that standing "
       +:+ "approval — its scope and its resource set — without the user ever being asked");;
  expect_refused BARRIER_REFUSES_PUSHED_REQUEST "put_pushed_authorization_request" store
    (PutPushedAuthorizationRequest (pushed_by doomed (sample_pushed_request (pushed_request_uri doomed))))
    ("put_pushed_authorization_request restored a handle for a client that had just been "
       +:+ "deleted. The record was pushed BEFORE the deletion, so the barrier covers it; a store "
       +:+ "that writes it anyway hands a deleted registration a live `request_uri`, and if the "
       +:+ "host re-provisions that `client_id` — which the trait explicitly permits — the handle "
       +:+ "resolves against the NEW registration carrying a `code_challenge` its owner never pushed").

Definition delete_client_spared (store : nat) (bystander : ClientId) : check unit :=
  let c := DELETE_CLIENT_CASCADES in
  expect_kept c "get_client(bystander)" store (GetClient bystander)
    "delete_client removed a DIFFERENT client's registration";;
  expect_kept c "get_token(bystander)" store (GetToken "at-client-bystander")
    "delete_client removed another client's access token";;
  expect_kept c "get_refresh_token(bystander)" store (GetRefreshToken "rt-client-bystander")
    "delete_client removed another client's refresh record";;
  expect_kept c "get_device_grant(bystander)" store (GetDeviceGrant "dc-client-bystander")
    "delete_client removed another client's device grant";;
  expect_kept c "find_device_grant_by_user_code(bystander)" store (FindDeviceGrantByUserCode "BYSTAAAA")
    ("delete_client removed another client's user-code index entry: the grant is still there "
       +:+ "and the code the user was shown no longer reaches it, so the verification page answers "
       +:+ dq +:+ "no such code" +:+ dq +:+ " for a device that is waiting");;
  expect_kept c "take_authorization_code(bystander)" store (TakeAuthorizationCode "code-client-bystander")
    ("delete_client removed another client's authorization code: a grant that was in flight "
       +:+ "for a client nobody deleted is gone, and the user sees a redemption fail as "
       +:+ "`invalid_grant` with nothing anywhere explaining it");;
  expect_kept c "take_authorization_code(bystander, unredeemed)" store
    (TakeAuthorizationCode "code-unredeemed-client-bystander")
    ("delete_client removed another client's UNREDEEMED authorization code: a user who is "
       +:+ "mid-authorization for a client nobody deleted has their redemption refused as "
       +:+ "`invalid_grant`");;
  expect_kept c "take_pushed_authorization_request(bystander)" store
    (TakePushedAuthorizationRequest (pushed_request_uri bystander))
    "delete_client removed another client's pushed authorization request";;
  expect_applied BARRIER_SPARES_UNRELATED "put_pushed_authorization_request" store
    (PutPushedAuthorizationRequest (pushed_by bystander (sample_pushed_request
       "urn:ietf:params:oauth:request_uri:pushed-by-a-client-nobody-deleted")))
    ("put_pushed_authorization_request refused a push from a DIFFERENT client than the one "
       +:+ "deleted: the client barrier is not comparing its scope against the record's "
       +:+ "`client_id`, so one deletion has stopped every client in this deployment pushing an "
       +:+ "authorization request until the barrier is swept");;
  expect_kept c "get_consent(bystander)" store (GetConsent "consent-client-bystander")
    ("delete_client removed another client's consent record, so a user is shown that they "
       +:+ "never approved an application they did").

Definition check_delete_client : check unit :=
  let doomed := "client-doomed" in
  let bystander := "client-bystander" in
  store ← new_store;
  planted ← delete_client_plant store doomed true doomed;
  planted ← delete_client_plant store doomed planted bystander;
  if negb planted then mret tt
  else
    let+ existed := ok_call DELETE_CLIENT_REPORTS "delete_client" store (DeleteClient doomed barrier_window) in
    (if negb existed then
       fail DELETE_CLIENT_REPORTS "delete_client answered false for a registration that was present"
     else mret tt);;
    delete_client_removed store doomed;;
    delete_client_spared store bystander;;
    r ← call store (DeleteClient doomed barrier_window);
    match r with
    | Ok true => fail DELETE_CLIENT_REPORTS
      "delete_client answered true for a registration that was already gone"
    | Ok false => mret tt
    | Err e =>
        fail DELETE_CLIENT_REPORTS
          ("deleting an absent registration failed with " +:+ display e +:+ ", expected Ok(false)")
    end.

Definition check_delete_token : check unit :=
  let c := DELETE_TOKEN_IDEMPOTENT in
  store ← new_store;
  let+ _ := ok_call c "put_token" store (PutToken (sample_token "at-del" "client-del" None)) in
  let+ _ := ok_call c "delete_token" store (DeleteToken "at-del") in
  expect_gone c "get_token" store (GetToken "at-del") "the token is still readable after delete_token";;
  r ← call store (DeleteToken "at-del");
  match r with
  | Err e => fail c
    ("deleting an already-deleted token failed with " +:+ display e +:+ ", expected Ok(())")
  | Ok _ => mret tt
  end;;
  r ← call store (DeleteToken "at-never-existed");
  match r with
  | Err e => fail c
    ("deleting a token that never existed failed with " +:+ display e +:+ ", expected Ok(())")
  | Ok _ => mret tt
  end.

(** ** The suite *)
Definition conformance_run : list (check unit) := [
  check_round_trip_client;
  check_round_trip_device_grant;
  check_round_trip_authorization_code;
  check_round_trip_token;
  check_round_trip_refresh_token;
  check_atomic_take_device_grant;
  check_compare_and_swap_device_grant;
  check_compare_and_swap_device_grant_user_code_index;
  check_atomic_take_refresh_token;
  check_atomic_rotate_refresh_token;
  check_atomic_take_authorization_code;
  check_user_code_index;
  check_sweep;
  check_revoke_family;
  check_delete_client;
  check_delete_token;
  check_claim_replay_id racers;
  check_round_trip_pushed_request;
  check_atomic_take_pushed_request;
  check_consent;
  check_revocation_barrier;
  check_barrier_admits_a_later_grant;
  check_compare_and_swap_client;
  check_compare_and_swap_authorization_code;
  check_compare_and_swap_consent;
  check_compare_and_swap_device_grant_race racers;
  check_compare_and_swap_client_race racers;
  check_compare_and_swap_authorization_code_race racers;
  check_compare_and_swap_consent_race racers;
  check_sweep_under_concurrent_writes;
  check_revocation_refuses_an_empty_scope;
  check_barrier_repeat_revocation_moves_it
].
End checks.

(** [StorageConformance]: its racers, and how a race is run. *)
Definition DEFAULT_RACERS : nat := 8.
Record StorageConformance : Type := { sc_spawn : mode; sc_racers : nat }.
Definition conformance_new (fuel : nat) : StorageConformance :=
  {| sc_spawn := Cooperative fuel; sc_racers := DEFAULT_RACERS |}.
Definition with_spawn (schedule : nat -> list spawn_event) (self : StorageConformance) : StorageConformance :=
  {| sc_spawn := Spawned schedule; sc_racers := sc_racers self |}.
Definition with_racers (racers : nat) (self : StorageConformance) : StorageConformance :=
  {| sc_spawn := sc_spawn self; sc_racers := Nat.max racers 2 |}.

Definition run_suite `{Crypto, Serde, Debug} {St} (self : StorageConformance) (subject : Subject St)
  : option (list Violation) :=
  run_checks subject (sc_spawn self) (conformance_run (sc_racers self)) 0.
Definition check_storage `{Crypto, Serde, Debug} {St} (fuel : nat) (subject : Subject St)
  : option (list Violation) := run_suite (conformance_new fuel) subject.
