(* ===== verification/HarnessFacts.v ===== *)
(** * What the conformance machinery guarantees for every store

    Races end; no racer's call starts before every racer has arrived, unless the gate says
    so; the races of a store that never suspends are its calls in some order; and a check
    reports only under the names it is given. *)
From Stdlib Require Import Permutation.
From S2P Require Import Prelude Time Types Store Harness.
Local Open Scope Z_scope.

(** ** Races end *)
Section ends.
Context {St R : Type}.
Implicit Types (r : runner St R) (rs : list (runner St R)) (s : St) (g : Gate).

(** A runner that polls, in whatever gates and stores, cannot keep pending. *)
Inductive settles : runner St R -> Prop :=
| settles_intro r :
    (finished r = false -> forall g s r' g' s', poll_runner r g s = (r', g', s') -> settles r') -> settles r.

Lemma settles_finished r : finished r = true -> settles r.
Proof. intros Hf. constructor. congruence. Qed.

Lemma settles_call X (k : result X StorageError -> R) : forall m : Micro St X, settles (InCall X m k).
Proof.
  fix IH 1. intros [f]. constructor. intros _ g s r' g' s'. cbn. unfold poll_call; cbn.
  destruct (f s) as [s1 [a|m']]; intros [= <- <- <-].
  - by apply settles_finished.
  - apply IH.
Qed.

Definition budgeted r : Prop := match r with AtGate w _ _ _ => 0 <= gw_budget w | Lost => False | _ => True end.

Lemma poll_gate_budget g w g' w' : poll_gate g w = (g', Some w') ->
  gw_counted w' = true /\ gw_budget w' = gw_budget w - 1 /\ gw_budget w <> 0.
Proof.
  unfold poll_gate, poll_open. destruct (gw_counted w) eqn:Hc; [|destruct (Nat.leb _ _); [done|]]; cbn;
    destruct (gt_open g); try done; destruct (gw_budget w =? 0) eqn:Hb; try done;
    intros [= <- <-]; apply Z.eqb_neq in Hb; by split_and!.
Qed.

Lemma settles_budgeted r : budgeted r -> settles r.
Proof.
  destruct r as [w X m k|X m k|x| |]; intros Hb; [|apply settles_call|by apply settles_finished..|done].
  cbn in Hb. remember (Z.to_nat (gw_budget w)) as n eqn:Hn. revert w Hb Hn.
  induction n as [n IH] using lt_wf_ind; intros w Hb ->.
  constructor. intros _ g s r' g' s'. cbn.
  destruct (poll_gate g w) as [g1 [w'|]] eqn:Hp.
  - intros [= <- <- <-]. apply poll_gate_budget in Hp as (_ & Hw & Hnz).
    apply (IH (Z.to_nat (gw_budget w'))); lia.
  - pose proof (settles_call X k m) as Hs. inversion Hs as [r0 Hstep Heq].
    specialize (Hstep eq_refl g1 s). cbn in Hstep.
    destruct (poll_call m k s) as [r1 s1]. intros [= <- <- <-]. by eapply Hstep.
Qed.

Inductive settles_all : list (runner St R) -> Prop :=
| settles_all_intro rs :
    (forallb finished rs = false -> forall g s rs' g' s', poll_all rs g s = (rs', g', s') -> settles_all rs') ->
    settles_all rs.

Lemma poll_finished r g s : finished r = true -> poll_runner r g s = (r, g, s).
Proof. by destruct r. Qed.
Lemma poll_gone r g s : gone r = true -> poll_runner r g s = (r, g, s).
Proof. by destruct r. Qed.
Lemma poll_all_finished rs : forall g s, forallb finished rs = true -> poll_all rs g s = (rs, g, s).
Proof.
  induction rs as [|r rs IH]; cbn; intros g s Hf; [done|].
  apply andb_true_iff in Hf as [Hr Hrs]. by rewrite (poll_finished r g s Hr), (IH g s Hrs).
Qed.

Lemma settles_cons r : settles r -> forall rs, settles_all rs -> settles_all (r :: rs).
Proof.
  induction 1 as [r Hr IHr]. induction 1 as [rs Hrs IHrs].
  constructor. cbn. intros Hf g s rs2 g2 s2.
  destruct (poll_runner r g s) as [[r' g1] s1] eqn:Hp.
  destruct (poll_all rs g1 s1) as [[rs' g3] s3] eqn:Hps. intros [= <- <- <-].
  destruct (finished r) eqn:Hfr.
  - rewrite poll_finished in Hp by done. injection Hp as <- <- <-. cbn in Hf.
    exact (IHrs Hf _ _ _ _ _ Hps).
  - apply (IHr eq_refl _ _ _ _ _ Hp).
    destruct (forallb finished rs) eqn:Hfs; [|exact (Hrs eq_refl _ _ _ _ _ Hps)].
    rewrite poll_all_finished in Hps by done. injection Hps as <- <- <-. constructor. congruence.
Qed.

Lemma settles_list rs : Forall budgeted rs -> settles_all rs.
Proof.
  induction 1 as [|r rs Hr _ IH]; [by constructor|].
  by apply settles_cons; [apply settles_budgeted|].
Qed.

Lemma join_all_ends rs : settles_all rs -> forall g s, exists fuel out, join_all fuel rs g s = Some out.
Proof.
  induction 1 as [rs _ IH]. intros g s.
  destruct (poll_all rs g s) as [[rs' g'] s'] eqn:Hp.
  destruct (forallb finished rs') eqn:Hf.
  - exists 1%nat, (omap outcome rs', g', s'). cbn. by rewrite Hp, Hf.
  - assert (Hrs : forallb finished rs = false).
    { destruct (forallb finished rs) eqn:E; [|done]. rewrite poll_all_finished in Hp by done.
      injection Hp as <- <- <-. congruence. }
    destruct (IH Hrs g s rs' g' s' Hp g' s') as (fuel & out & Hj).
    exists (S fuel), out. cbn. by rewrite Hp, Hf.
Qed.

Lemma join_all_more fuel : forall fuel' rs g s out,
  (fuel <= fuel')%nat -> join_all fuel rs g s = Some out -> join_all (St := St) (R := R) fuel' rs g s = Some out.
Proof.
  induction fuel as [|fuel IH]; [done|]; intros [|fuel'] rs g s out Hle; [lia|]. cbn.
  destruct (poll_all rs g s) as [[rs' g'] s']. destruct (forallb finished rs'); [done|].
  apply IH. lia.
Qed.

Lemma started_budgeted (subject : Subject St) (racers : list (racer R)) :
  Forall budgeted (map (start_racer subject) racers).
Proof. induction racers; constructor; [|done]. cbn. unfold GATE_POLL_BUDGET. lia. Qed.

(** Polled by [JoinAll], the racers of any store finish: nothing but the store's own call,
    which ends, and the gate's bounded wait keeps one pending. *)
Lemma cooperative_race_ends (subject : Subject St) (racers : list (racer R)) s :
  exists fuel o s', forall fuel', (fuel <= fuel')%nat -> forall round,
    run_race subject (Cooperative fuel') round racers s = Some (o, s').
Proof.
  destruct (join_all_ends _ (settles_list _ (started_budgeted subject racers))
              (gate_new (List.length racers)) s) as (fuel & [[rs g] s'] & Hj).
  exists fuel, (Raced rs 0 (gt_unsatisfied g)), s'. intros fuel' Hle round.
  unfold run_race. by rewrite (join_all_more _ _ _ _ _ _ Hle Hj).
Qed.
End ends.

(** ** [JoinAll] is one of the orders a runtime may poll in *)
Section joined.
Context {St R : Type}.
Implicit Types (w : spawned St R) (rs : list (runner St R)) (r : runner St R) (s : St) (g : Gate).

Definition is_poll (ev : spawn_event) : bool := match ev with PollTask _ => true | DropTask _ => false end.
Definition spawn_run (evs : list spawn_event) w : spawned St R := fold_left spawn_step evs w.

Lemma spawn_run_app evs evs' w : spawn_run (evs ++ evs') w = spawn_run evs' (spawn_run evs w).
Proof. apply fold_left_app. Qed.

Lemma spawn_run_cons ev evs w : spawn_run (ev :: evs) w = spawn_run evs (spawn_step w ev).
Proof. done. Qed.

Lemma poll_task w i r r' g s : sp_runners w !! i = Some r -> gone r = false ->
  poll_runner r (sp_gate w) (sp_store w) = (r', g, s) ->
  spawn_step w (PollTask i) =
    {| sp_runners := <[i := r']> (sp_runners w); sp_gate := g; sp_store := s;
       sp_collected := sp_collected w ++ option_list (outcome r'); sp_abandoned := sp_abandoned w |}.
Proof. intros Hi Hf Hp. cbn. by rewrite Hi, Hf, Hp. Qed.

(** One round of [JoinAll::poll] polls the tasks in order. *)
Lemma poll_all_spawn rs : forall pre g s rs' g' s' w,
  poll_all rs g s = (rs', g', s') ->
  sp_runners w = pre ++ rs -> sp_gate w = g -> sp_store w = s ->
  exists w', spawn_run (map PollTask (seq (List.length pre) (List.length rs))) w = w' /\
    sp_runners w' = pre ++ rs' /\ sp_gate w' = g' /\ sp_store w' = s' /\ sp_abandoned w' = sp_abandoned w.
Proof.
  induction rs as [|r rs IH]; cbn [poll_all List.length seq map]; intros pre g s rs' g' s' w Hp Hr Hg Hs.
  - injection Hp as <- <- <-. by exists w.
  - destruct (poll_runner r g s) as [[r1 g1] s1] eqn:Hp1.
    destruct (poll_all rs g1 s1) as [[rs2 g2] s2] eqn:Hp2. injection Hp as <- <- <-.
    assert (Hlook : sp_runners w !! List.length pre = Some r) by (rewrite Hr; by apply list_lookup_middle).
    assert (Hins : <[List.length pre := r1]> (sp_runners w) = pre ++ r1 :: rs).
    { rewrite Hr. rewrite insert_app_r_alt, Nat.sub_diag by done. done. }
    assert (exists w1, spawn_step w (PollTask (List.length pre)) = w1 /\ sp_runners w1 = (pre ++ [r1]) ++ rs /\
              sp_gate w1 = g1 /\ sp_store w1 = s1 /\ sp_abandoned w1 = sp_abandoned w)
      as (w1 & Hw1 & Hr1 & Hg1 & Hs1 & Ha1).
    { destruct (gone r) eqn:Hf.
      - rewrite (poll_gone r g s Hf) in Hp1. injection Hp1 as <- <- <-.
        exists w. cbn. rewrite Hlook, Hf. rewrite <- app_assoc. cbn. by split_and!.
      - subst g s. eexists. split; [by apply (poll_task w _ r r1 g1 s1)|]. cbn.
        rewrite Hins, <- app_assoc. by split_and!. }
    destruct (IH (pre ++ [r1]) g1 s1 rs2 g2 s2 w1 Hp2 Hr1 Hg1 Hs1) as (w' & Hw' & Hr' & Hg' & Hs' & Ha').
    exists w'. rewrite spawn_run_cons, Hw1. rewrite length_app, Nat.add_1_r in Hw'. rewrite <- app_assoc in Hr'.
    split_and!; [done|exact Hr'|done|done|congruence].
Qed.

Lemma join_all_spawn fuel : forall rs g s out g' s' w,
  join_all fuel rs g s = Some (out, g', s') ->
  sp_runners w = rs -> sp_gate w = g -> sp_store w = s ->
  exists evs, forallb is_poll evs = true /\
    let w' := spawn_run evs w in
    latch_open w' = true /\ out = omap outcome (sp_runners w') /\ sp_gate w' = g' /\ sp_store w' = s' /\
    sp_abandoned w' = sp_abandoned w.
Proof.
  induction fuel as [|fuel IH]; [done|]; cbn [join_all]; intros rs g s out g' s' w Hj Hr Hg Hs.
  destruct (poll_all rs g s) as [[rs1 g1] s1] eqn:Hp.
  destruct (poll_all_spawn rs [] g s rs1 g1 s1 w Hp Hr Hg Hs) as (w1 & Hw1 & Hr1 & Hg1 & Hs1 & Ha1).
  assert (Hpolls : forallb is_poll (map PollTask (seq 0 (List.length rs))) = true)
    by (apply forallb_forall; intros ev (i & <- & _)%in_map_iff; done).
  destruct (forallb finished rs1) eqn:Hf.
  - injection Hj as <- <- <-. exists (map PollTask (seq 0 (List.length rs))). split; [done|].
    cbn in Hw1. cbn zeta. rewrite Hw1. cbn in Hr1. unfold latch_open. rewrite Hr1. by split_and!.
  - destruct (IH rs1 g1 s1 out g' s' w1 Hj Hr1 Hg1 Hs1) as (evs & Hevs & Hopen & Hout & Hg' & Hs' & Ha').
    exists (map PollTask (seq 0 (List.length rs)) ++ evs). cbn zeta. rewrite spawn_run_app.
    cbn in Hw1. rewrite Hw1. split; [by rewrite forallb_app, Hpolls|]. split_and!; try done. congruence.
Qed.
End joined.

(** ** The rendezvous *)
Section gate.
Context {St R : Type}.
Implicit Types (w : spawned St R) (rs : list (runner St R)) (r : runner St R) (s : St) (g : Gate).

(** The racer has been counted at the gate. *)
Definition has_arrived r : bool := match r with AtGate w _ _ _ => gw_counted w | Lost => false | _ => true end.
(** The racer's call has begun. *)
Definition has_started r : bool := match r with InCall _ _ _ | Done _ => true | _ => false end.

Definition arrivals rs : nat := count has_arrived rs.
#[local] Arguments count : simpl never.
#[local] Arguments arrivals : simpl never.

Lemma count_app {T} (p : T -> bool) l l' : count p (l ++ l') = (count p l + count p l')%nat.
Proof. unfold count. by rewrite List.filter_app, length_app. Qed.
Lemma count_cons {T} (p : T -> bool) x l : count p (x :: l) = ((if p x then 1 else 0) + count p l)%nat.
Proof. unfold count. cbn. by destruct (p x). Qed.
Lemma count_insert {T} (p : T -> bool) l i x y : l !! i = Some x ->
  (count p (<[i := y]> l) + (if p x then 1 else 0) = count p l + (if p y then 1 else 0))%nat.
Proof.
  intros Hi. apply list_elem_of_split_length in Hi as (l1 & l2 & -> & ->).
  rewrite insert_app_r_alt, Nat.sub_diag by done. cbn [insert list_insert].
  rewrite !count_app, !count_cons. lia.
Qed.
Lemma count_le {T} (p : T -> bool) l : (count p l <= List.length l)%nat.
Proof. apply List.filter_length_le. Qed.
Lemma count_all {T} (p : T -> bool) l : count p l = List.length l -> Forall (fun x => p x = true) l.
Proof.
  induction l as [|x l IH]; [done|]. rewrite count_cons. cbn. pose proof (count_le p l).
  destruct (p x) eqn:Hx; intros Hc; [|lia]. constructor; [done|]. apply IH. lia.
Qed.

Record gate_ok w : Prop := {
  go_target : gt_target (sp_gate w) = List.length (sp_runners w);
  go_arrived : (gt_arrived (sp_gate w) <= arrivals (sp_runners w))%nat;
  go_open : gt_open (sp_gate w) = true -> (gt_target (sp_gate w) <= gt_arrived (sp_gate w))%nat;
  go_started : Exists (fun r => has_started r = true) (sp_runners w) ->
    gt_open (sp_gate w) = true \/ gt_unsatisfied (sp_gate w) = true;
}.

(** What a poll of the gate does. *)
Lemma poll_gate_spec g (w : GateWait) : let '(g', ow) := poll_gate g w in
  gt_target g' = gt_target g /\
  gt_arrived g' = (gt_arrived g + if gw_counted w then 0 else 1)%nat /\
  (gt_open g = true -> gt_open g' = true) /\ (gt_unsatisfied g = true -> gt_unsatisfied g' = true) /\
  (gt_open g' = true -> gt_open g = true \/ (gt_target g <= gt_arrived g')%nat) /\
  match ow with
  | Some w' => gw_counted w' = true
  | None => gt_open g' = true \/ gt_unsatisfied g' = true
  end.
Proof.
  unfold poll_gate, poll_open. destruct (gw_counted w) eqn:Hc; [|destruct (Nat.leb _ _) eqn:Hle]; cbn.
  - destruct (gt_open g) eqn:Ho; [|destruct (gw_budget w =? 0)]; cbn; rewrite ?Ho, ?Hc; split_and!; auto; lia.
  - apply Nat.leb_le in Hle. split_and!; auto; lia.
  - destruct (gt_open g) eqn:Ho; [|destruct (gw_budget w =? 0)]; cbn; rewrite ?Ho, ?Hc; split_and!; auto; lia.
Qed.

Lemma poll_call_started X (m : Micro St X) (k : result X StorageError -> R) s :
  has_started (fst (poll_call m k s)) = true.
Proof. unfold poll_call. by destruct (poll_micro m s) as [s' [a|m']]. Qed.

Lemma poll_runner_spec r g s r' g' s' : poll_runner r g s = (r', g', s') -> gone r = false ->
  gt_target g' = gt_target g /\
  (gt_arrived g' + (if has_arrived r then 1 else 0) = gt_arrived g + (if has_arrived r' then 1 else 0))%nat /\
  has_arrived r' = true /\
  (gt_open g = true -> gt_open g' = true) /\ (gt_unsatisfied g = true -> gt_unsatisfied g' = true) /\
  (gt_open g' = true -> gt_open g = true \/ (gt_target g <= gt_arrived g')%nat) /\
  (has_started r' = true -> has_started r = true \/ gt_open g' = true \/ gt_unsatisfied g' = true).
Proof.
  destruct r as [w X m k|X m k|x| |]; cbn; try done.
  - pose proof (poll_gate_spec g w) as Hg. destruct (poll_gate g w) as [g1 [w'|]];
      destruct Hg as (Ht & Ha & Ho & Hu & Hn & Hw).
    + intros [= <- <- <-] _. cbn. rewrite Hw. destruct (gw_counted w); split_and!; auto; try done; lia.
    + pose proof (poll_call_started X m k s) as Hst. destruct (poll_call m k s) as [r1 s1]. cbn in Hst.
      intros [= <- <- <-] _. assert (has_arrived r1 = true) as Har by (by destruct r1).
      rewrite Har. destruct (gw_counted w); split_and!; auto; lia.
  - pose proof (poll_call_started X m k s) as Hst. destruct (poll_call m k s) as [r1 s1]. cbn in Hst.
    intros [= <- <- <-] _. assert (has_arrived r1 = true) as Har by (by destruct r1).
    rewrite Har. split_and!; auto; lia.
Qed.

Lemma exists_insert {T} (P : T -> Prop) l i y : Exists P (<[i := y]> l) -> Exists P l \/ P y.
Proof.
  intros (x & Hx & HP)%Exists_exists. apply list_elem_of_lookup in Hx as [j Hj].
  destruct (decide (i = j)) as [<-|Hne].
  - destruct (decide (i < List.length l)%nat) as [Hlt|Hge].
    + rewrite list_lookup_insert_eq in Hj by done. injection Hj as <-. by right.
    + rewrite list_insert_ge in Hj by lia. left. apply Exists_exists.
      exists x. split; [by eapply list_elem_of_lookup_2|done].
  - rewrite list_lookup_insert_ne in Hj by done. left. apply Exists_exists.
    exists x. split; [by eapply list_elem_of_lookup_2|done].
Qed.

Lemma gate_ok_step w ev : gate_ok w -> gate_ok (spawn_step w ev).
Proof.
  intros [Ht Ha Ho Hs]. destruct ev as [i|i]; cbn; (destruct (sp_runners w !! i) as [r|] eqn:Hi; [|by constructor]);
    (destruct (gone r) eqn:Hf; [by constructor|]).
  - destruct (poll_runner r (sp_gate w) (sp_store w)) as [[r' g'] s'] eqn:Hp.
    destruct (poll_runner_spec _ _ _ _ _ _ Hp Hf) as (Ht' & Ha' & Har & Ho' & Hu' & Hn & Hst).
    pose proof (count_insert has_arrived _ _ _ r' Hi) as Hc.
    constructor; cbn; unfold arrivals in *.
    + rewrite Ht', Ht. by rewrite length_insert.
    + destruct (has_arrived r), (has_arrived r'); lia.
    + intros Hopen. destruct (Hn Hopen) as [Hold|]; [|lia]. specialize (Ho Hold). rewrite Har in Ha'.
      destruct (has_arrived r); lia.
    + intros [Hold|Hnew]%exists_insert; [destruct (Hs Hold); auto|].
      destruct (Hst Hnew) as [Hr|]; [|done].
      assert (Exists (fun r => has_started r = true) (sp_runners w)) as Hex.
      { apply Exists_exists. exists r. split; [by eapply list_elem_of_lookup_2|done]. }
      destruct (Hs Hex); auto.
  - pose proof (count_insert has_arrived _ _ _ (if polled r then Dropped else Lost) Hi) as Hc.
    assert (has_arrived (if polled r then Dropped else Lost) = has_arrived r) as Har
      by (destruct r as [gw ? ? ?| | | |]; try done; cbn; by destruct (gw_counted gw)).
    rewrite Har in Hc. constructor; cbn; unfold arrivals in *.
    + by rewrite length_insert.
    + lia.
    + done.
    + intros [Hold|Hst]%exists_insert; [by apply Hs|]. by destruct (polled r).
Qed.

Lemma gate_ok_start (subject : Subject St) (racers : list (racer R)) s : gate_ok (spawn_all subject racers s).
Proof.
  constructor; cbn; [by rewrite List.length_map|lia|done|].
  intros (r & Hr & Hst)%Exists_exists. apply list_elem_of_In, in_map_iff in Hr as (x & <- & _). done.
Qed.

Lemma gate_ok_run evs : forall w, gate_ok w -> gate_ok (spawn_run evs w).
Proof. induction evs as [|ev evs IH]; intros w Hw; [done|]. cbn. apply IH, gate_ok_step, Hw. Qed.

(** C28. A conformance race overlaps or says that it did not.  Whatever runtime the host
    hands the racers to, in whatever order it polls and drops them, once one racer's
    storage call has begun, every racer has reached the gate, unless the gate's poll budget ran out, and then it is marked
    unsatisfied and the run reports [harness/race_setup].  So an atomicity result is never
    silently that of calls made one after another. *)
Theorem racers_overlap_or_say_so (subject : Subject St) (racers : list (racer R)) s evs :
  let w := fold_left spawn_step evs (spawn_all subject racers s) in
  Exists (fun r => has_started r = true) (sp_runners w) ->
  gt_unsatisfied (sp_gate w) = false ->
  Forall (fun r => has_arrived r = true) (sp_runners w).
Proof.
  intros w Hst Hu. destruct (gate_ok_run evs _ (gate_ok_start subject racers s)) as [Ht Ha Ho Hs].
  fold (spawn_run evs (spawn_all subject racers s)) in w. change (spawn_run evs _) with w in Ht, Ha, Ho, Hs.
  destruct (Hs Hst) as [Hopen|]; [|congruence]. specialize (Ho Hopen).
  apply count_all. pose proof (count_le has_arrived (sp_runners w)). unfold arrivals in Ha. lia.
Qed.
End gate.

(** On one task the gate always opens: the first round brings every racer to it. *)
Section satisfied.
Context {St R : Type}.
Implicit Types (rs : list (runner St R)) (r : runner St R) (s : St) (g : Gate).

Definition satisfied g : Prop := gt_open g = true /\ gt_unsatisfied g = false.

Lemma poll_gate_satisfied g w : satisfied g -> satisfied (fst (poll_gate g w)).
Proof.
  unfold satisfied, poll_gate, poll_open. intros [Ho Hu].
  destruct (gw_counted w), (Nat.leb (gt_target g) (S (gt_arrived g))); cbn; rewrite ?Ho; by cbn.
Qed.

Lemma poll_runner_satisfied r g s r' g' s' : poll_runner r g s = (r', g', s') -> satisfied g -> satisfied g'.
Proof.
  destruct r as [w X m k|X m k|x| |]; cbn.
  - intros Hp Hg. pose proof (poll_gate_satisfied g w Hg) as Hs. destruct (poll_gate g w) as [g1 [w'|]]; cbn in Hs.
    + by injection Hp as <- <- <-.
    + destruct (poll_call m k s) as [r1 s1]. by injection Hp as <- <- <-.
  - destruct (poll_call m k s) as [r1 s1]. by intros [= <- <- <-].
  - by intros [= <- <- <-].
  - by intros [= <- <- <-].
  - by intros [= <- <- <-].
Qed.

Lemma poll_all_satisfied rs : forall g s rs' g' s',
  poll_all rs g s = (rs', g', s') -> satisfied g -> satisfied g'.
Proof.
  induction rs as [|r rs IH]; cbn; intros g s rs' g' s'; [by intros [= <- <- <-]|].
  destruct (poll_runner r g s) as [[r1 g1] s1] eqn:Hr. destruct (poll_all rs g1 s1) as [[rs2 g2] s2] eqn:Hrs.
  intros [= <- <- <-] Hg. eapply IH; [exact Hrs|]. by eapply poll_runner_satisfied.
Qed.

Lemma join_all_satisfied fuel : forall rs g s out g' s',
  join_all fuel rs g s = Some (out, g', s') -> satisfied g -> satisfied g'.
Proof.
  induction fuel as [|fuel IH]; [done|]; cbn; intros rs g s out g' s'.
  destruct (poll_all rs g s) as [[rs1 g1] s1] eqn:Hp. intros Hj Hg.
  pose proof (poll_all_satisfied _ _ _ _ _ _ Hp Hg) as Hg1.
  destruct (forallb finished rs1); [by injection Hj as <- <- <-|by eapply IH].
Qed.

Lemma first_round (subject : Subject St) racers : forall g s rs' g' s',
  racers <> [] -> (gt_arrived g + List.length racers = gt_target g)%nat ->
  gt_open g = false -> gt_unsatisfied g = false ->
  poll_all (R := R) (map (start_racer subject) racers) g s = (rs', g', s') -> satisfied g'.
Proof.
  induction racers as [|r racers IH]; [done|]; cbn; intros g s rs' g' s' _ Hn Ho Hu.
  unfold poll_gate, poll_open; cbn. destruct racers as [|r2 racers].
  - replace (Nat.leb (gt_target g) (S (gt_arrived g))) with true by (symmetry; apply Nat.leb_le; cbn in Hn; lia).
    destruct (poll_call _ _ s) as [r1 s1]. cbn. by intros [= <- <- <-].
  - replace (Nat.leb (gt_target g) (S (gt_arrived g))) with false by (symmetry; apply Nat.leb_gt; cbn in Hn; lia).
    rewrite Ho. cbn [gw_budget]. destruct (poll_all (map _ _) _ _) as [[rs2 g2] s2] eqn:Hp.
    intros [= <- <- <-]. eapply IH; [done| |..|exact Hp]; cbn; [cbn in Hn; lia|done..].
Qed.

Lemma cooperative_satisfied (subject : Subject St) (racers : list (racer R)) fuel round s o s' :
  run_race subject (Cooperative fuel) round racers s = Some (o, s') ->
  rc_unsatisfied o = false /\ rc_abandoned o = 0%nat.
Proof.
  unfold run_race. destruct (join_all _ _ _ _) as [[[rs g] s1]|] eqn:Hj; [|done]. intros [= <- <-]. cbn. split; [|done].
  destruct racers as [|r racers]; [destruct fuel; [done|]; cbn in Hj; by injection Hj as <- <- <-|].
  destruct fuel as [|fuel]; [done|]. cbn [join_all] in Hj.
  destruct (poll_all _ _ _) as [[rs1 g1] s2] eqn:Hp.
  assert (satisfied g1) as Hg1 by (by apply (first_round subject (r :: racers) (gate_new (List.length (r :: racers))) s rs1 g1 s2)).
  destruct (forallb finished rs1); [injection Hj as <- <- <-; apply Hg1|].
  by eapply join_all_satisfied in Hj as [_ ->].
Qed.
End satisfied.

(** ** Races of a store that never suspends *)
Section linear.
Context {St R : Type} `{Storage St} (new : St).
Implicit Types (w : spawned St R) (s : St) (racers : list (racer R)).

(** The calls one after the other. *)
Fixpoint call_all racers s : list R * St :=
  match racers with
  | [] => ([], s)
  | r :: racers =>
      let (a, s1) := store_step (ra_call r) s in
      let (rs, s2) := call_all racers s1 in
      (ra_result r a :: rs, s2)
  end.

Lemma call_all_snoc racers r : forall s rs s1 a s2,
  call_all racers s = (rs, s1) -> store_step (ra_call r) s1 = (a, s2) ->
  call_all (racers ++ [r]) s = (rs ++ [ra_result r a], s2).
Proof.
  induction racers as [|x racers IH]; cbn; intros s rs s1 a s2 Hc Hstep.
  - injection Hc as <- <-. by rewrite Hstep.
  - destruct (store_step (ra_call x) s) as [b s3]. destruct (call_all racers s3) as [rs4 s4] eqn:Hc4.
    injection Hc as <- <-. by rewrite (IH _ _ _ _ _ Hc4 Hstep).
Qed.

(** The racers [idx] have made their calls, in that order; the others wait at the gate. *)
Definition linear_at racers s (idx : list nat) w : Prop :=
  NoDup idx /\ List.length (sp_runners w) = List.length racers /\ sp_abandoned w = 0%nat /\
  (forall i r, racers !! i = Some r ->
     (i ∈ idx /\ exists x, sp_runners w !! i = Some (Done x)) \/
     (i ∉ idx /\ exists gw, sp_runners w !! i = Some (AtGate gw (ra_answer r)
        (Poll_ (fun s => let (r, s') := store_step (ra_call r) s in (s', inl r))) (ra_result r)))) /\
  exists order, Forall2 (fun i r => racers !! i = Some r) idx order /\
    call_all order s = (sp_collected w, sp_store w).

Lemma linear_start racers s : linear_at racers s [] (spawn_all (atomic_subject new) racers s).
Proof.
  split_and!; [constructor|cbn; by rewrite List.length_map|done| |].
  - intros i r Hi. right. split; [apply not_elem_of_nil|]. exists gate_wait. cbn.
    change (map ?f racers) with (f <$> racers). by rewrite list_lookup_fmap, Hi.
  - exists []. split; [constructor|done].
Qed.

Lemma linear_step racers s idx w i : linear_at racers s idx w ->
  exists idx', linear_at racers s idx' (spawn_step w (PollTask i)).
Proof.
  intros (Hnd & Hlen & Hab & Hat & order & Hord & Hcall). cbn.
  destruct (sp_runners w !! i) as [r|] eqn:Hi; [|exists idx; by split_and!; eauto].
  destruct (gone r) eqn:Hf; [exists idx; by split_and!; eauto|].
  destruct (lookup_lt_is_Some_2 racers i) as [x Hx]; [rewrite <- Hlen; by eapply lookup_lt_Some|].
  destruct (Hat i x Hx) as [[Hin [y Hy]]|[Hnin [gw Hgw]]]; [rewrite Hy in Hi; injection Hi as <-; done|].
  rewrite Hgw in Hi. injection Hi as <-. cbn.
  assert (Hother : forall r' j z, racers !! j = Some z -> j <> i ->
    <[i := r']> (sp_runners w) !! j = sp_runners w !! j)
    by (intros; by rewrite list_lookup_insert_ne).
  destruct (poll_gate (sp_gate w) gw) as [g' [gw'|]].
  - exists idx. split_and!; cbn; [done|by rewrite length_insert|done| |].
    + intros j z Hz. destruct (decide (j = i)) as [->|Hne].
      * right. split; [done|]. exists gw'. rewrite Hx in Hz. injection Hz as <-.
        rewrite list_lookup_insert_eq; [done|]. by eapply lookup_lt_Some.
      * rewrite (Hother _ _ _ Hz Hne). by apply Hat.
    + exists order. by rewrite app_nil_r.
  - unfold poll_call; cbn. destruct (store_step (ra_call x) (sp_store w)) as [a s'] eqn:Hstep.
    exists (idx ++ [i]). split_and!; cbn; [| by rewrite length_insert|done| |].
    + apply NoDup_app. split_and!; [done| |apply NoDup_singleton].
      intros j Hj Hji. apply list_elem_of_singleton in Hji as ->. done.
    + intros j z Hz. destruct (decide (j = i)) as [->|Hne].
      * left. split; [set_solver|]. eexists. rewrite list_lookup_insert_eq; [done|]. by eapply lookup_lt_Some.
      * rewrite (Hother _ _ _ Hz Hne). destruct (Hat j z Hz) as [[Hin He]|[Hnin' He]].
        -- left. split; [set_solver|done].
        -- right. split; [set_solver|done].
    + exists (order ++ [x]). split; [apply Forall2_app; [done|by repeat constructor]|].
      by apply (call_all_snoc order x s _ _ a s' Hcall).
Qed.

Lemma linear_run evs racers s : forall idx w, forallb is_poll evs = true -> linear_at racers s idx w ->
  exists idx', linear_at racers s idx' (spawn_run evs w).
Proof.
  induction evs as [|[i|i] evs IH]; cbn [forallb is_poll]; intros idx w Hp Hw; [by exists idx| |done].
  destruct (linear_step racers s idx w i Hw) as [idx' Hw']. by apply (IH idx').
Qed.

Lemma collected_done evs : forall w, sp_collected w ≡ₚ omap outcome (sp_runners w) ->
  sp_collected (spawn_run evs w) ≡ₚ omap outcome (sp_runners (spawn_run evs w)).
Proof.
  induction evs as [|ev evs IH]; intros w Hw; [done|]. apply (IH (spawn_step w ev)). clear IH evs.
  destruct ev as [i|i]; cbn; (destruct (sp_runners w !! i) as [r|] eqn:Hi; [|done]);
    (destruct (gone r) eqn:Hf; [done|]).
  - destruct (poll_runner r (sp_gate w) (sp_store w)) as [[r' g] s]. cbn.
    apply list_elem_of_split_length in Hi as (l1 & l2 & Heq & ->). rewrite Heq in *.
    rewrite insert_app_r_alt, Nat.sub_diag by done. cbn [insert list_insert].
    rewrite omap_app in *. cbn in *. rewrite Hw. destruct r; try done; cbn; destruct (outcome r'); cbn;
      rewrite ?app_nil_r; try done; by rewrite <- app_assoc, (Permutation_app_comm _ [_]).
  - apply list_elem_of_split_length in Hi as (l1 & l2 & Heq & ->). cbn. rewrite Heq in *.
    rewrite insert_app_r_alt, Nat.sub_diag by done. cbn [insert list_insert].
    rewrite omap_app in *. cbn -[polled] in *. rewrite Hw. destruct (polled r); by destruct r.
Qed.

Lemma none_done (subject : Subject St) racers : omap outcome (map (start_racer subject) racers) = [].
Proof. by induction racers. Qed.

Lemma linear_all racers s idx w : linear_at racers s idx w -> latch_open w = true ->
  exists order, order ≡ₚ racers /\ call_all order s = (sp_collected w, sp_store w).
Proof.
  intros (Hnd & Hlen & Hab & Hat & order & Hord & Hcall) Hopen. exists order. split; [|done].
  assert (Hidx : idx ≡ₚ seq 0 (List.length racers)).
  { apply NoDup_Permutation; [done|apply NoDup_seq|]. intros i. rewrite elem_of_seq. split.
    - intros Hi. apply list_elem_of_lookup in Hi as [k Hk].
      destruct (Forall2_lookup_l _ _ _ _ _ Hord Hk) as (r & _ & Hr). apply lookup_lt_Some in Hr. lia.
    - intros [_ Hi]. destruct (lookup_lt_is_Some_2 racers i Hi) as [r Hr].
      destruct (Hat i r Hr) as [[Hin _]|[_ [gw Hgw]]]; [done|].
      unfold latch_open in Hopen. rewrite forallb_forall in Hopen.
      specialize (Hopen _ (proj1 (list_elem_of_In _ _) (list_elem_of_lookup_2 _ _ _ Hgw))). done. }
  assert (Hrac : Forall2 (fun i r => racers !! i = Some r) (seq 0 (List.length racers)) racers).
  { apply Forall2_same_length_lookup. split; [apply length_seq|].
    intros k i r Hk Hr. apply lookup_seq in Hk as [-> _]. done. }
  assert (Hmap : forall l l', Forall2 (fun i r => racers !! i = Some r) l l' -> omap (racers !!.) l = l').
  { induction 1 as [|i r l l' Hi _ IH]; [done|]. cbn. rewrite Hi. by f_equal. }
  rewrite <- (Hmap _ _ Hord), <- (Hmap _ _ Hrac) at 1. by rewrite Hidx.
Qed.

(** The racers' tasks are all run to their end. *)
Definition tasks_kept (how : mode) : Prop :=
  match how with
  | Cooperative _ => True
  | Spawned schedule => forall round, forallb is_poll (schedule round) = true
  end.

(** However they are polled, the racers' calls happened one after the other, in some order. *)
Lemma race_linear how round racers s o s' : tasks_kept how ->
  run_race (atomic_subject new) how round racers s = Some (o, s') ->
  rc_abandoned o = 0%nat /\ exists order rs, order ≡ₚ racers /\ call_all order s = (rs, s') /\ rc_results o ≡ₚ rs.
Proof.
  intros Hkept. unfold run_race. destruct how as [fuel|schedule].
  - destruct (join_all _ _ _ _) as [[[rs g] s1]|] eqn:Hj; [|done]. intros [= <- <-]. cbn. split; [done|].
    destruct (join_all_spawn _ _ _ _ _ _ _ (spawn_all (atomic_subject new) racers s) Hj eq_refl eq_refl eq_refl)
      as (evs & Hevs & Hopen & -> & _ & <- & _).
    destruct (linear_run evs racers s [] _ Hevs (linear_start racers s)) as [idx Hlin].
    destruct (linear_all _ _ _ _ Hlin Hopen) as (order & Hord & Hcall).
    exists order, (sp_collected (spawn_run evs (spawn_all (atomic_subject new) racers s))).
    split_and!; [done|done|]. symmetry. apply collected_done. cbn. by rewrite none_done.
  - cbn in Hkept. specialize (Hkept round).
    destruct (linear_run _ racers s [] _ Hkept (linear_start racers s)) as [idx Hlin].
    unfold spawn_run in Hlin.
    destruct (latch_open _) eqn:Hopen; [|done]. intros [= <- <-]. cbn.
    split; [apply Hlin|]. destruct (linear_all _ _ _ _ Hlin Hopen) as (order & Hord & Hcall). eauto.
Qed.
End linear.

(** ** What a check may do, given races that go well: call the stores it made, and report
    under the names [L] *)
Section sound.
Context (L : list string) (good : forall R : Type, raced R -> Prop).
#[local] Arguments good {_} _.

Fixpoint sound {A} (n : nat) (p : check A) : Prop :=
  match p with
  | CRet _ => True
  | CNew k => sound (S n) (k n)
  | CCall s _ k => (s < n)%nat /\ forall r, sound n (k r)
  | CFail v k => vi_check v ∈ L /\ sound n k
  | CRace s _ k => (s < n)%nat /\ forall o, good o -> sound n (k o)
  end.

Lemma sound_bind {A B} (p : check A) (f : A -> check B) : forall n,
  sound n p -> (forall a m, (n <= m)%nat -> sound m (f a)) -> sound n (p ≫= f).
Proof.
  induction p as [a|k IH|X s op k IH|v k IH|R s rs k IH]; intros n Hp Hf; cbn in *.
  - by apply Hf.
  - apply IH; [done|]. intros a m Hm. apply Hf. lia.
  - destruct Hp as [Hs Hk]. split; [done|]. intros r. by apply IH.
  - destruct Hp as [Hv Hk]. split; [done|]. by apply IH.
  - destruct Hp as [Hs Hk]. split; [done|]. intros o Ho. apply IH; [by apply Hk|done].
Qed.

Lemma sound_new {B} (f : nat -> check B) n : sound (S n) (f n) -> sound n (new_store ≫= f).
Proof. done. Qed.
Lemma sound_call {X B} s (op : StoreOp X) (f : _ -> check B) n :
  (s < n)%nat -> (forall r, sound n (f r)) -> sound n (call s op ≫= f).
Proof. done. Qed.
Lemma sound_fail c d n : c ∈ L -> sound n (fail c d).
Proof. done. Qed.
Lemma sound_ret {A} (a : A) n : sound n (mret a).
Proof. done. Qed.
Lemma sound_ok_call {X} c what s (op : StoreOp X) n : c ∈ L -> (s < n)%nat -> sound n (ok_call c what s op).
Proof. intros Hc Hs. split; [done|]. by intros [v|e]. Qed.
Lemma sound_some {T} c what (v : option T) n : c ∈ L -> sound n (some c what v).
Proof. by destruct v. Qed.
Lemma sound_same `{Debug, EqDecision T} c field (want got : T) n : c ∈ L -> sound n (same c field want got).
Proof. intros Hc. unfold same. by destruct (want != got). Qed.
Lemma sound_or_return {A} (m : check (option A)) k n :
  sound n m -> (forall a m, (n <= m)%nat -> sound m (k a)) -> sound n (or_return m k).
Proof. intros Hm Hk. apply sound_bind; [done|]. intros [a|] i Hi; [by apply Hk|done]. Qed.

Lemma sound_expect_gone {X} c what s (op : StoreOp (option X)) msg n :
  c ∈ L -> (s < n)%nat -> sound n (expect_gone c what s op msg).
Proof. intros Hc Hs. apply sound_bind; [by apply sound_ok_call|]. by intros [[x|]|]. Qed.
Lemma sound_expect_kept {X} c what s (op : StoreOp (option X)) msg n :
  c ∈ L -> (s < n)%nat -> sound n (expect_kept c what s op msg).
Proof. intros Hc Hs. apply sound_bind; [by apply sound_ok_call|]. by intros [[x|]|]. Qed.
Lemma sound_expect_refused c what s op msg n : c ∈ L -> (s < n)%nat -> sound n (expect_refused c what s op msg).
Proof. intros Hc Hs. split; [done|]. by intros [[]|e]. Qed.
Lemma sound_expect_applied c what s op msg n : c ∈ L -> (s < n)%nat -> sound n (expect_applied c what s op msg).
Proof. intros Hc Hs. split; [done|]. by intros [[]|e]. Qed.
Lemma sound_expect_answer b c what s op msg n : c ∈ L -> (s < n)%nat -> sound n (expect_answer b c what s op msg).
Proof. intros Hc Hs. split; [done|]. intros [b'|e]; [|done]. cbn. by destruct (eqb b' b). Qed.

Lemma sound_for_each {T} (body : T -> check unit) l : forall n,
  (forall x m, (n <= m)%nat -> sound m (body x)) -> sound n (for_each l body).
Proof.
  induction l as [|x l IH]; intros n Hb; [done|]. cbn. apply sound_bind; [by apply Hb|].
  intros _ m Hm. apply IH. intros y i Hi. apply Hb. lia.
Qed.
Lemma sound_for_each_or_return {T} (body : T -> check (option unit)) l : forall n,
  (forall x m, (n <= m)%nat -> sound m (body x)) -> sound n (for_each_or_return l body).
Proof.
  induction l as [|x l IH]; intros n Hb; [done|]. cbn. apply sound_bind; [by apply Hb|].
  intros [[]|] m Hm; [|done]. apply IH. intros y i Hi. apply Hb. lia.
Qed.
Lemma sound_plant {T X} c what s (op : T -> StoreOp X) l : forall b n,
  c ∈ L -> (s < n)%nat -> sound n (plant c what s op l b).
Proof.
  induction l as [|x l IH]; intros b n Hc Hs; [done|]. cbn [plant]. apply sound_bind; [by apply sound_ok_call|].
  intros r m Hm. apply IH; [done|lia].
Qed.

Lemma sound_judge_race {T} c what (results : TakeResults T) n : c ∈ L -> sound n (judge_race c what results).
Proof.
  intros Hc. unfold judge_race, judge_race_counts.
  repeat (apply sound_bind || case_match || intros); auto using sound_fail, sound_ret.
Qed.
Lemma sound_judge_swap_race {T} c what (results : TakeResults T) n :
  c ∈ L -> sound n (judge_swap_race c what results).
Proof.
  intros Hc. unfold judge_swap_race.
  repeat (apply sound_bind || case_match || intros); auto using sound_fail, sound_ret.
Qed.

Context (Hrace : forall R (o : raced R), good o ->
  ((0 < rc_abandoned o)%nat -> HARNESS_RACER_PANICKED ∈ L) /\ (rc_unsatisfied o = true -> HARNESS_RACE_SETUP ∈ L)).

Lemma sound_race {R} k s (make : nat -> racer R) n : (s < n)%nat -> sound n (race k s make).
Proof.
  intros Hs. split; [done|]. intros o Ho. destruct (Hrace R o Ho) as [Hp Hu].
  change (sound n (race_setup_verdict (rc_abandoned o) k (rc_unsatisfied o);; mret (rc_results o))).
  apply sound_bind; [|done]. apply sound_bind.
  - destruct (Nat.ltb 0 (rc_abandoned o)) eqn:E; [|done]. apply Nat.ltb_lt in E. by apply sound_fail, Hp.
  - intros _ m _. destruct (rc_unsatisfied o); [|done]. by apply sound_fail, Hu.
Qed.

(** *** Running one *)
Section run.
Context {St : Type} (subject : Subject St).
Implicit Types (w : session (St := St)) (how : mode).

Definition only_names w : Prop := Forall (fun v => vi_check v ∈ L) (ss_violations w).

(** The races run this way go well. *)
Definition races_good how : Prop := forall R round (rs : list (racer R)) st o st',
  run_race subject how round rs st = Some (o, st') -> good o.

Lemma run_check_named {A} how (p : check A) : races_good how -> forall w a w',
  sound (List.length (ss_stores w)) p -> only_names w -> run_check subject how p w = Some (a, w') -> only_names w'.
Proof.
  intros Hgood. induction p as [a|k IH|X s op k IH|v k IH|R s rs k IH]; intros w b w' Hp Hw; cbn in *.
  - by intros [= <- <-].
  - apply IH; [|done]. cbn. by rewrite length_app, Nat.add_1_r.
  - destruct Hp as [Hs Hk]. destruct (ss_stores w !! s) as [st|]; [|done].
    destruct (await (sj_call subject op) st) as [r st']. apply IH; [|done]. cbn. by rewrite length_insert.
  - destruct Hp as [Hv Hk]. apply IH; [done|]. apply Forall_app. by repeat constructor.
  - destruct Hp as [Hs Hk]. destruct (ss_stores w !! s) as [st|]; [|done].
    destruct (run_race subject how (ss_races w) rs st) as [[o st']|] eqn:Ho; [|done].
    apply IH; [|done]. cbn. rewrite length_insert. by eapply Hk, Hgood.
Qed.

(** Enough polls of the caller's task, and the check ends. *)
Lemma run_check_ends {A} (p : check A) : (forall fuel, races_good (Cooperative fuel)) -> forall w, sound (List.length (ss_stores w)) p ->
  exists fuel a w', forall fuel', (fuel <= fuel')%nat -> run_check subject (Cooperative fuel') p w = Some (a, w').
Proof.
  intros Hgood. induction p as [a|k IH|X s op k IH|v k IH|R s rs k IH]; intros w Hp; cbn [sound run_check] in *.
  - exists 0%nat, a, w. done.
  - apply IH. cbn. by rewrite length_app, Nat.add_1_r.
  - destruct Hp as [Hs Hk]. apply lookup_lt_is_Some_2 in Hs as [st ->].
    destruct (await (sj_call subject op) st) as [r st']. apply IH. cbn. by rewrite length_insert.
  - destruct Hp as [_ Hk]. by apply IH.
  - destruct Hp as [Hs Hk]. apply lookup_lt_is_Some_2 in Hs as [st ->].
    destruct (cooperative_race_ends subject rs st) as (f1 & o & st' & Hrace0).
    destruct (IH o {| ss_stores := <[s := st']> (ss_stores w); ss_races := S (ss_races w);
                      ss_violations := ss_violations w |}) as (f2 & a & w' & Hrun).
    { cbn. rewrite length_insert. apply Hk. exact (Hgood f1 _ 0%nat _ _ _ _ (Hrace0 f1 ltac:(lia) 0%nat)). }
    exists (Nat.max f1 f2), a, w'. intros fuel' Hf. rewrite Hrace0 by lia. apply Hrun. lia.
Qed.

Lemma run_checks_named how checks : races_good how -> forall races vs,
  Forall (fun p => sound 0 p) checks -> run_checks subject how checks races = Some vs ->
  Forall (fun v => vi_check v ∈ L) vs.
Proof.
  intros Hgood. induction checks as [|p checks IH]; cbn; intros races vs Hs; [by intros [= <-]|].
  inversion Hs as [|? ? Hp Hps]; subst.
  destruct (run_check subject how p (session_at races)) as [[a w]|] eqn:Hr; [|done].
  destruct (run_checks subject how checks (ss_races w)) as [vs'|] eqn:Hrs; [|done].
  intros [= <-]. apply Forall_app. split; [|by eapply IH].
  apply (run_check_named how p Hgood (session_at races) a w Hp); [constructor|exact Hr].
Qed.

Lemma run_checks_end checks : (forall fuel, races_good (Cooperative fuel)) -> forall races, Forall (fun p => sound 0 p) checks ->
  exists fuel vs, forall fuel', (fuel <= fuel')%nat -> run_checks subject (Cooperative fuel') checks races = Some vs.
Proof.
  intros Hgood. induction checks as [|p checks IH]; cbn; intros races Hs; [by exists 0%nat, []|].
  inversion Hs as [|? ? Hp Hps]; subst.
  destruct (run_check_ends p Hgood (session_at races) Hp) as (f1 & a & w & Hrun).
  destruct (IH (ss_races w) Hps) as (f2 & vs & Hruns).
  exists (Nat.max f1 f2), (ss_violations w ++ vs). intros fuel' Hf. rewrite Hrun by lia. by rewrite Hruns by lia.
Qed.
End run.
End sound.
