(* ===== verification/Conformance.v ===== *)
(** * What the conformance suite does, whatever the store

    It ends, reports only under the names it publishes, and never reports its own setup when
    it polls the racers itself.  [Accepts] has the store it passes, [Rejects] those it
    does not. *)
From Stdlib Require Import Permutation.
From S2P Require Import Prelude Time Codec Scope Types Store StoreFacts Consent Credentials Harness Samples Checks Checks2 HarnessFacts.
Local Open Scope Z_scope.

(** ** The checks are sound programs *)
Section suite.
Context `{Crypto, Serde, Debug} (racers : nat).
Context (L : list string) (good : forall R : Type, raced R -> Prop).
Context (Hnames : forall c, c ∈ drop 2 CHECKS -> c ∈ L).
Context (Hrace : forall R (o : raced R), good R o ->
  ((0 < rc_abandoned o)%nat -> HARNESS_RACER_PANICKED ∈ L) /\ (rc_unsatisfied o = true -> HARNESS_RACE_SETUP ∈ L)).

Ltac in_checks := apply Hnames; apply (bool_decide_unpack _); vm_compute; exact I.

Ltac sound_step :=
  lazymatch goal with
  | |- sound _ _ _ (mbind _ new_store) => apply sound_new
  | |- sound _ _ _ (mbind _ (call _ _)) => apply sound_call; [lia|]
  | |- sound _ _ _ (mbind _ _) => apply sound_bind
  | |- sound _ _ _ (or_return _ _) => apply sound_or_return
  | |- sound _ _ _ (ok_call _ _ _ _) => apply sound_ok_call; [in_checks|lia]
  | |- sound _ _ _ (expect_gone _ _ _ _ _) => apply sound_expect_gone; [in_checks|lia]
  | |- sound _ _ _ (expect_kept _ _ _ _ _) => apply sound_expect_kept; [in_checks|lia]
  | |- sound _ _ _ (expect_refused _ _ _ _ _) => apply sound_expect_refused; [in_checks|lia]
  | |- sound _ _ _ (expect_applied _ _ _ _ _) => apply sound_expect_applied; [in_checks|lia]
  | |- sound _ _ _ (expect_answer _ _ _ _ _ _) => apply sound_expect_answer; [in_checks|lia]
  | |- sound _ _ _ (fail _ _) => apply sound_fail; in_checks
  | |- sound _ _ _ (mret _) => apply sound_ret
  | |- sound _ _ _ (some _ _ _) => apply sound_some; in_checks
  | |- sound _ _ _ (same _ _ _ _) => apply sound_same; in_checks
  | |- sound _ _ _ (for_each _ _) => apply sound_for_each
  | |- sound _ _ _ (for_each_or_return _ _) => apply sound_for_each_or_return
  | |- sound _ _ _ (plant _ _ _ _ _ _) => apply sound_plant; [in_checks|lia]
  | |- sound _ _ _ (race _ _ _) => apply (sound_race _ _ Hrace); lia
  | |- sound _ _ _ (judge_race _ _ _) => apply sound_judge_race; in_checks
  | |- sound _ _ _ (judge_swap_race _ _ _) => apply sound_judge_swap_race; in_checks
  | |- sound _ _ _ (match _ with _ => _ end) => case_match
  | |- forall _, _ => intro
  | |- let _ := _ in _ => intro
  end.
Ltac sound_tac := repeat (sound_step; cbv beta zeta).

Lemma sound_count_rotated store indices : forall a b n,
  (store < n)%nat -> sound L good n (count_rotated store indices a b).
Proof. induction indices as [|i indices IH]; intros a b n Hs; cbn [count_rotated]; sound_tac. apply IH. lia. Qed.
Lemma sound_gone_keys store keys : forall lost n, (store < n)%nat -> sound L good n (gone_keys store keys lost).
Proof.
  induction keys as [|key keys IH]; intros lost n Hs; cbn [gone_keys]; sound_tac; apply IH; lia.
Qed.

Ltac sound_check :=
  unfold check_round_trip_client, check_round_trip_device_grant, check_round_trip_authorization_code,
    check_round_trip_token, check_round_trip_refresh_token, check_atomic_take_device_grant,
    check_compare_and_swap_device_grant, expect_denied, check_compare_and_swap_device_grant_user_code_index,
    swap_retires_old_user_code, swap_refuses_duplicate_user_code, check_atomic_take_refresh_token,
    check_atomic_rotate_refresh_token, expect_unwritten, check_atomic_take_authorization_code,
    check_user_code_index, index_follows_puts, index_refuses_duplicates, index_does_not_normalize,
    check_sweep, sweep_plant, sweep_removed, sweep_kept, check_revoke_family, check_delete_client,
    delete_client_plant, delete_client_removed, delete_client_spared, check_delete_token,
    check_claim_replay_id, check_round_trip_pushed_request, check_atomic_take_pushed_request,
    check_consent, consent_round_trip, consent_listing, consent_seeding, consent_cascade, consent_barrier,
    reads_none, reads_some, check_revocation_barrier, check_barrier_admits_a_later_grant,
    pushed_after_deletion, check_compare_and_swap_client, check_compare_and_swap_authorization_code,
    check_compare_and_swap_consent, live_consent, check_compare_and_swap_device_grant_race,
    check_compare_and_swap_client_race, check_compare_and_swap_authorization_code_race,
    check_compare_and_swap_consent_race, check_sweep_under_concurrent_writes,
    check_revocation_refuses_an_empty_scope, check_barrier_repeat_revocation_moves_it;
  sound_tac; try (apply sound_count_rotated; lia); try (apply sound_gone_keys; lia).

Lemma suite_sound : Forall (fun p => sound L good 0 p) (conformance_run racers).
Proof. unfold conformance_run. repeat apply Forall_cons_2; [sound_check..|]. apply Forall_nil_2. Qed.
End suite.

(** ** Every store *)
Section every_store.
Context `{Crypto, Serde, Debug} {St : Type} (subject : Subject St).

Lemma names_all (c : string) : c ∈ drop 2 CHECKS -> c ∈ CHECKS.
Proof. apply subseteq_drop. Qed.

Lemma harness_names : HARNESS_RACER_PANICKED ∈ CHECKS /\ HARNESS_RACE_SETUP ∈ CHECKS.
Proof. split; apply (bool_decide_unpack _); vm_compute; exact I. Qed.

(** A race nothing went wrong in. *)
Definition overlapped (R : Type) (o : raced R) : Prop := rc_abandoned o = 0%nat /\ rc_unsatisfied o = false.

(** Races polled by [JoinAll] end, overlap and abandon nobody. *)
Lemma suite_ends racers : exists fuel vs, forall fuel', (fuel <= fuel')%nat ->
  run_suite {| sc_spawn := Cooperative fuel'; sc_racers := racers |} subject = Some vs /\
  Forall (fun v => vi_check v ∈ CHECKS /\ vi_check v <> HARNESS_RACE_SETUP /\ vi_check v <> HARNESS_RACER_PANICKED) vs.
Proof.
  assert (Hgood : forall fuel, races_good overlapped subject (Cooperative fuel)).
  { intros fuel R round rs st o st' Hr. destruct (cooperative_satisfied _ _ _ _ _ _ _ Hr). by split. }
  assert (Hs : Forall (fun p => sound (drop 2 CHECKS) overlapped 0 p) (conformance_run racers)).
  { apply suite_sound; [done|]. intros R o [Ha Hu]. split; [lia|congruence]. }
  destruct (run_checks_end (drop 2 CHECKS) overlapped subject _ Hgood 0%nat Hs) as (fuel & vs & Hrun).
  exists fuel, vs. intros fuel' Hf. split; [by apply Hrun|].
  pose proof (run_checks_named (drop 2 CHECKS) overlapped subject _ _ (Hgood fuel') _ _ Hs (Hrun fuel' Hf)) as Hn.
  eapply Forall_impl; [exact Hn|]. intros v Hv.
  assert (Forall (fun c => c ∈ CHECKS /\ c <> HARNESS_RACE_SETUP /\ c <> HARNESS_RACER_PANICKED) (drop 2 CHECKS))
    as Hall by (apply (bool_decide_unpack _); vm_compute; exact I).
  rewrite Forall_forall in Hall. by apply Hall.
Qed.

(** C36. The suite answers, whatever store it is given.  Run on the caller's own task, with
    any number of racers, against any store whose calls end, [check_storage] ends; every
    violation it reports carries one of the published check names; and neither of the
    harness's own two, because a race polled by [JoinAll] always overlaps and abandons
    nobody: what it reports is about the store. *)
Theorem suite_always_answers racers : exists fuel vs, forall fuel', (fuel <= fuel')%nat ->
  run_suite {| sc_spawn := Cooperative fuel'; sc_racers := racers |} subject = Some vs /\
  Forall (fun v => vi_check v ∈ CHECKS /\ vi_check v <> HARNESS_RACE_SETUP /\ vi_check v <> HARNESS_RACER_PANICKED) vs.
Proof. apply suite_ends. Qed.

(** On a runtime of the host's, too, the names are the published ones. *)
Lemma suite_names how racers vs : run_suite {| sc_spawn := how; sc_racers := racers |} subject = Some vs ->
  Forall (fun v => vi_check v ∈ CHECKS) vs.
Proof.
  intros Hrun. apply (run_checks_named CHECKS (fun _ _ => True) subject how (conformance_run racers)) with 0%nat;
    [done| |exact Hrun].
  apply suite_sound; [apply names_all|]. intros R o _. split; intros _; apply harness_names.
Qed.
End every_store.
