(* ===== verification/Accepts.v ===== *)
(** * [MemoryStorage] passes the conformance suite

    A small logic of checks that are accepted from given stores, whatever the order the
    racers are polled in; the races of the suite are decided by it for any number of racers,
    the rest by running them.  The parameters are the concrete ones of the other witnesses:
    padding for the digest and the values of the map in key order. *)
From Stdlib Require Import Permutation.
From S2P Require Import Prelude Time Codec Scope Types Store StoreFacts Credentials Harness Samples Checks Checks2 HarnessFacts Conformance.
Local Open Scope Z_scope.

(** [serde_json] on the one text the fixtures parse. *)
Definition fixture_serde : Serde := {|
  json_from_slice _ := None;
  details_from_str s :=
    if s == AUTHORIZATION_DETAILS_JSON then
      Some [{| ad_type := "conformance-fixture"; ad_locations := ["https://rs-one.example/"];
               ad_actions := ["read"; "write"]; ad_datatypes := []; ad_identifier := Some "account-4711";
               ad_privileges := []; ad_other := [] |}]
    else None;
  json_to_string _ := EmptyString |}.

Section logic.
#[local] Existing Instances plain_crypto fixture_serde listing_order.
Context `{Debug} (how : mode) (Hkept : tasks_kept how).

Definition memory : Subject MemoryInner := atomic_subject mi_empty.

(** The one thing a runtime can make the suite report: that the racers did not overlap. *)
Definition only_setup (vs : list Violation) : Prop := Forall (fun v => vi_check v = HARNESS_RACE_SETUP) vs.

Definition accepted {A} (p : check A) (stores : list MemoryInner) (Q : A -> list MemoryInner -> Prop) : Prop :=
  forall races vs a w', only_setup vs ->
    run_check memory how p {| ss_stores := stores; ss_races := races; ss_violations := vs |} = Some (a, w') ->
    only_setup (ss_violations w') /\ Q a (ss_stores w').

Lemma run_check_bind {A B} (p : check A) (f : A -> check B) : forall w,
  run_check memory how (p ≫= f) w =
    match run_check memory how p w with Some (a, w') => run_check memory how (f a) w' | None => None end.
Proof.
  induction p as [a|k IH|X s op k IH|v k IH|R s rs k IH]; intros w; cbn; [done|apply IH| |apply IH|].
  - destruct (ss_stores w !! s) as [st|]; [|done]. destruct (store_step op st) as [r st']. apply IH.
  - destruct (ss_stores w !! s) as [st|]; [|done].
    destruct (run_race memory how (ss_races w) rs st) as [[o st']|]; [apply IH|done].
Qed.

Lemma accepted_bind {A B} (p : check A) (f : A -> check B) stores Q Q' :
  accepted p stores Q -> (forall a stores', Q a stores' -> accepted (f a) stores' Q') ->
  accepted (p ≫= f) stores Q'.
Proof.
  intros Hp Hf races vs b w' Hvs. rewrite run_check_bind.
  destruct (run_check memory how p _) as [[a [stores1 races1 vs1]]|] eqn:Hr; [|done].
  destruct (Hp _ _ _ _ Hvs Hr) as [Hvs1 HQ]. apply (Hf a _ HQ races1 vs1 b w' Hvs1).
Qed.

Lemma accepted_ret {A} (a : A) stores (Q : A -> _ -> Prop) : Q a stores -> accepted (mret a) stores Q.
Proof. intros HQ races vs b w' Hvs. cbn. by intros [= <- <-]. Qed.

Lemma accepted_new stores (Q : nat -> _ -> Prop) :
  Q (List.length stores) (stores ++ [mi_empty]) -> accepted new_store stores Q.
Proof. intros HQ races vs b w' Hvs. cbn. by intros [= <- <-]. Qed.

Lemma accepted_call {X} s (op : StoreOp X) stores st r st' (Q : _ -> _ -> Prop) :
  stores !! s = Some st -> MemoryStorage.step X op st = (r, st') -> Q r (<[s := st']> stores) ->
  accepted (call s op) stores Q.
Proof.
  intros Hs Hop HQ races vs b w' Hvs. cbn. rewrite Hs. unfold store_step, memory_storage. rewrite Hop.
  by intros [= <- <-].
Qed.

Lemma accepted_ok_call {X} c what s (op : StoreOp X) stores st v st' (Q : _ -> _ -> Prop) :
  stores !! s = Some st -> MemoryStorage.step X op st = (Ok v, st') -> Q (Some v) (<[s := st']> stores) ->
  accepted (ok_call c what s op) stores Q.
Proof.
  intros Hs Hop HQ. eapply accepted_bind; [by eapply (accepted_call s op _ _ _ _ (fun r l => r = Ok v /\ l = <[s := st']> stores))|].
  intros r l [-> ->]. by apply accepted_ret.
Qed.

Lemma accepted_or_return {A} (m : check (option A)) k stores a stores' Q :
  accepted m stores (fun o l => o = Some a /\ l = stores') -> accepted (k a) stores' Q ->
  accepted (or_return m k) stores Q.
Proof. intros Hm Hk. eapply accepted_bind; [exact Hm|]. by intros o l [-> ->]. Qed.

(** A race: some order of the calls, then the verdict on the setup. *)
Lemma accepted_race {R} n s (make : nat -> racer R) stores st (Q : _ -> _ -> Prop) :
  stores !! s = Some st ->
  (forall order rs st' results, order ≡ₚ map make (seq 0 n) -> call_all order st = (rs, st') ->
     results ≡ₚ rs -> Q results (<[s := st']> stores)) ->
  accepted (race n s make) stores Q.
Proof.
  intros Hs HQ races vs b w' Hvs. unfold race. rewrite run_check_bind. cbn [run_check ss_stores ss_races]. rewrite Hs.
  destruct (run_race memory how races _ st) as [[o st']|] eqn:Hr; [|done].
  destruct (race_linear mi_empty how races _ st o st' Hkept Hr) as (Hab & order & rs & Hord & Hcall & Hres).
  specialize (HQ order rs st' _ Hord Hcall Hres). unfold race_setup_verdict. rewrite Hab. cbn.
  destruct (rc_unsatisfied o); cbn; intros [= <- <-]; (split; [|done]); [|done].
  apply Forall_app. split; [done|]. by repeat constructor.
Qed.

Lemma accepted_judge {T} c what (results : TakeResults T) stores (Q : unit -> _ -> Prop) :
  count is_winner results = 1%nat -> count is_error results = 0%nat -> Q tt stores ->
  accepted (judge_race c what results) stores Q.
Proof. intros Hw He HQ. unfold judge_race. rewrite Hw, He. intros races vs b w' Hvs. cbn. by intros [= <- <-]. Qed.
Lemma accepted_judge_swap {T} c what (results : TakeResults T) stores (Q : unit -> _ -> Prop) :
  count is_winner results = 1%nat -> count is_error results = 0%nat -> Q tt stores ->
  accepted (judge_swap_race c what results) stores Q.
Proof. intros Hw He HQ. unfold judge_swap_race. rewrite Hw, He. intros races vs b w' Hvs. cbn. by intros [= <- <-]. Qed.

Lemma accepted_expect_gone {X} c what s (op : StoreOp (option X)) msg stores st st' (Q : unit -> _ -> Prop) :
  stores !! s = Some st -> MemoryStorage.step _ op st = (Ok None, st') -> Q tt (<[s := st']> stores) ->
  accepted (expect_gone c what s op msg) stores Q.
Proof.
  intros Hs Hop HQ. eapply accepted_bind;
    [by eapply (accepted_ok_call c what s op _ _ _ _ (fun r l => r = Some None /\ l = <[s := st']> stores))|].
  intros r l [-> ->]. by apply accepted_ret.
Qed.

(** Closed checks are run. *)
Lemma accepted_run (p : check unit) :
  (forall races, match run_check memory how p (session_at races) with
                 | Some (_, w) => ss_violations w = []
                 | None => False
                 end) ->
  forall races w a, run_check memory how p (session_at races) = Some (a, w) -> only_setup (ss_violations w).
Proof. intros Hp races w a Hr. specialize (Hp races). rewrite Hr in Hp. rewrite Hp. constructor. Qed.

(** ** Races with one winner *)
Lemma count_perm {T} (q : T -> bool) l l' : l ≡ₚ l' -> count q l = count q l'.
Proof. induction 1; rewrite ?count_cons; lia. Qed.

Section winner.
Context {T : Type} (P0 P1 : MemoryInner -> Prop).
Implicit Types (r : racer (result (option T) StorageError)) (racers : list (racer (result (option T) StorageError))).

(** In a [P0] store the racer wins, in a [P1] store it is told it lost; [P1] either way. *)
Definition wins_first r : Prop :=
  (forall s, P0 s -> exists a s', MemoryStorage.step _ (ra_call r) s = (a, s') /\
     is_winner (ra_result r a) = true /\ P1 s') /\
  (forall s, P1 s -> exists a s', MemoryStorage.step _ (ra_call r) s = (a, s') /\
     ra_result r a = Ok None /\ P1 s').

Lemma losers racers : Forall wins_first racers -> forall s rs s', P1 s -> call_all racers s = (rs, s') ->
  count is_winner rs = 0%nat /\ count is_error rs = 0%nat /\ P1 s'.
Proof.
  induction 1 as [|r racers [_ Hr] _ IH]; cbn; intros s rs s' Hs Hc; [by injection Hc as <- <-|].
  destruct (Hr s Hs) as (a & s1 & Hstep & Ha & Hs1).
  unfold store_step, memory_storage in Hc. rewrite Hstep in Hc.
  destruct (call_all racers s1) as [rs2 s2] eqn:Hc2. injection Hc as <- <-.
  rewrite !count_cons, Ha. cbn. by eapply IH.
Qed.

Lemma one_winner racers : Forall wins_first racers -> racers <> [] -> forall s rs s', P0 s ->
  call_all racers s = (rs, s') -> count is_winner rs = 1%nat /\ count is_error rs = 0%nat /\ P1 s'.
Proof.
  destruct 1 as [|r racers [Hr _] Hrs]; [done|]. intros _ s rs s' Hs Hc. cbn in Hc.
  destruct (Hr s Hs) as (a & s1 & Hstep & Ha & Hs1).
  unfold store_step, memory_storage in Hc. rewrite Hstep in Hc.
  destruct (call_all racers s1) as [rs2 s2] eqn:Hc2. injection Hc as <- <-.
  destruct (losers racers Hrs s1 rs2 s2 Hs1 Hc2) as (Hw & He & HP).
  rewrite !count_cons, Ha, Hw, He. split_and!; [done| |done].
  by destruct (ra_result r a) as [[x|]|e].
Qed.

Lemma accepted_one_winner n s (make : nat -> racer (result (option T) StorageError)) stores st
    (Q : TakeResults T -> list MemoryInner -> Prop) :
  (0 < n)%nat -> stores !! s = Some st -> P0 st -> (forall i, (i < n)%nat -> wins_first (make i)) ->
  (forall results st', count is_winner results = 1%nat -> count is_error results = 0%nat -> P1 st' ->
     Q results (<[s := st']> stores)) ->
  accepted (race n s make) stores Q.
Proof.
  intros Hn Hs Hst Hmake HQ. apply (accepted_race n s make stores st); [done|].
  intros order rs st' results Hord Hcall Hres.
  assert (Hall : Forall wins_first order).
  { rewrite Hord. apply Forall_forall. intros r Hr. apply list_elem_of_In, in_map_iff in Hr as (i & <- & Hi).
    apply in_seq in Hi. apply Hmake. lia. }
  destruct (one_winner order Hall) with st rs st' as (Hw & He & HP); [|done..|].
  { intros ->. apply Permutation_nil in Hord. destruct n; [lia|done]. }
  apply HQ; [by rewrite (count_perm _ _ _ Hres)..|done].
Qed.
End winner.

(** ** The races of the suite *)
Section races.
Context (n : nat) (Hn : (0 < n)%nat).

(** What a call leaves. *)
Definition after {X} (op : StoreOp X) (s : MemoryInner) : MemoryInner := snd (MemoryStorage.step X op s).
Lemma step_after {X} (op : StoreOp X) s r : fst (MemoryStorage.step X op s) = r ->
  MemoryStorage.step X op s = (r, after op s).
Proof. unfold after. by destruct (MemoryStorage.step X op s); intros <-. Qed.

Lemma accepted_start {A} (f : nat -> check A) Q : accepted (f 0%nat) [mi_empty] Q -> accepted (new_store ≫= f) [] Q.
Proof.
  intros Hf. eapply accepted_bind; [by apply (accepted_new [] (fun a l => a = 0%nat /\ l = [mi_empty]))|].
  by intros a l [-> ->].
Qed.
Lemma accepted_store {X} c what (op : StoreOp X) k s v Q :
  fst (MemoryStorage.step X op s) = Ok v -> accepted (k v) [after op s] Q ->
  accepted (or_return (ok_call c what 0 op) k) [s] Q.
Proof.
  intros Hv Hk. eapply accepted_or_return; [|exact Hk].
  by apply (accepted_ok_call c what 0%nat op [s] s v (after op s)); [|apply step_after|].
Qed.
Lemma accepted_gone {X} c what (op : StoreOp (option X)) msg s :
  fst (MemoryStorage.step _ op s) = Ok None -> accepted (expect_gone c what 0 op msg) [s] (fun _ _ => True).
Proof. intros Hv. by apply (accepted_expect_gone c what 0%nat op msg [s] s (after op s)); [|apply step_after|]. Qed.

Lemma accepted_take_race {T} c what make (k : check unit) s (P0 P1 : MemoryInner -> Prop) Q :
  P0 s -> (forall i, (i < n)%nat -> wins_first (T := T) P0 P1 (make i)) ->
  (forall s', P1 s' -> accepted k [s'] Q) ->
  accepted (race n 0 make ≫= (fun results => judge_race c what results;; k)) [s] Q.
Proof.
  intros Hs Hmake Hk. eapply accepted_bind.
  - apply (accepted_one_winner P0 P1 n 0%nat make [s] s (fun results l =>
      count is_winner results = 1%nat /\ count is_error results = 0%nat /\ exists s', P1 s' /\ l = [s'])); try done.
    intros results s' Hw He HP. split_and!; eauto.
  - intros results l (Hw & He & s' & HP & ->). 
    apply (accepted_bind _ _ _ (fun _ l => l = [s'])); [by apply accepted_judge|].
    intros _ l ->. by apply Hk.
Qed.
Lemma accepted_swap_race {T} c what make s (P0 P1 : MemoryInner -> Prop) :
  P0 s -> (forall i, (i < n)%nat -> wins_first (T := T) P0 P1 (make i)) ->
  accepted (race n 0 make ≫= (fun results => judge_swap_race c what results)) [s] (fun _ _ => True).
Proof.
  intros Hs Hmake. eapply accepted_bind.
  - apply (accepted_one_winner P0 P1 n 0%nat make [s] s (fun results l =>
      count is_winner results = 1%nat /\ count is_error results = 0%nat)); done.
  - intros results l (Hw & He). by apply accepted_judge_swap.
Qed.

Notation everywhere := (fun _ _ => True) (only parsing).

(** *** Takes *)
Lemma wins_take_device dc : wins_first (fun s => is_Some (mi_device_by_code s !! dc))
  (fun s => mi_device_by_code s !! dc = None) (Racer (TakeDeviceGrant dc) id).
Proof.
  split; intros s; cbn; unfold MemoryStorage.take_device_grant.
  - intros [g ->]. do 2 eexists. split_and!; [done|done|]. cbn. by rewrite lookup_delete_eq.
  - intros Hs. rewrite Hs. do 2 eexists. by split_and!.
Qed.
Lemma wins_take_refresh k : wins_first (fun s => is_Some (mi_refresh s !! k))
  (fun s => mi_refresh s !! k = None) (Racer (TakeRefreshToken k) id).
Proof.
  split; intros s; cbn; unfold MemoryStorage.take_refresh_token.
  - intros [g ->]. do 2 eexists. split_and!; [done|done|]. cbn. by rewrite lookup_delete_eq.
  - intros ->. do 2 eexists. split_and!; [done|done|]. cbn. by rewrite lookup_delete_eq.
Qed.
Lemma wins_take_code k : wins_first (fun s => is_Some (mi_codes s !! k))
  (fun s => mi_codes s !! k = None) (Racer (TakeAuthorizationCode k) id).
Proof.
  split; intros s; cbn; unfold MemoryStorage.take_authorization_code.
  - intros [g ->]. do 2 eexists. split_and!; [done|done|]. cbn. by rewrite lookup_delete_eq.
  - intros ->. do 2 eexists. split_and!; [done|done|]. cbn. by rewrite lookup_delete_eq.
Qed.
Lemma wins_take_pushed k : wins_first (fun s => is_Some (mi_pushed s !! k))
  (fun s => mi_pushed s !! k = None) (Racer (TakePushedAuthorizationRequest k) id).
Proof.
  split; intros s; cbn; unfold MemoryStorage.take_pushed_authorization_request.
  - intros [g ->]. do 2 eexists. split_and!; [done|done|]. cbn. by rewrite lookup_delete_eq.
  - intros ->. do 2 eexists. split_and!; [done|done|]. cbn. by rewrite lookup_delete_eq.
Qed.

Ltac found := vm_compute; eexists; reflexivity.

Lemma accepted_device_race : accepted (check_atomic_take_device_grant n) [] everywhere.
Proof.
  unfold check_atomic_take_device_grant. apply accepted_start. apply (accepted_store _ _ _ _ _ tt); [by vm_compute|].
  eapply accepted_take_race; cycle 1; [intros i _; apply (wins_take_device "dc-race")|intros s Hs|found].
  apply accepted_gone. cbn. by rewrite Hs.
Qed.
Lemma accepted_refresh_race : accepted (check_atomic_take_refresh_token n) [] everywhere.
Proof.
  unfold check_atomic_take_refresh_token. apply accepted_start.
  apply (accepted_store _ _ _ _ _ Applied); [by vm_compute|].
  eapply accepted_take_race; cycle 1; [intros i _; apply (wins_take_refresh "rt-race")|intros s Hs|found].
  apply accepted_gone. cbn. by rewrite Hs.
Qed.
Lemma accepted_code_race : accepted (check_atomic_take_authorization_code n) [] everywhere.
Proof.
  unfold check_atomic_take_authorization_code. apply accepted_start.
  apply (accepted_store _ _ _ _ _ tt); [by vm_compute|].
  eapply accepted_take_race; cycle 1; [intros i _; apply (wins_take_code "code-race")|intros s Hs|found].
  apply accepted_gone. cbn. by rewrite Hs.
Qed.
Lemma accepted_pushed_race : accepted (check_atomic_take_pushed_request n) [] everywhere.
Proof.
  unfold check_atomic_take_pushed_request. apply accepted_start.
  apply (accepted_store _ _ _ _ _ Applied); [by vm_compute|].
  eapply accepted_take_race; cycle 1; [intros i _; apply (wins_take_pushed "urn:ietf:params:oauth:request_uri:race")|intros s Hs|found].
  apply accepted_gone. cbn. by rewrite Hs.
Qed.

(** *** Swaps *)
#[local] Arguments UserCode.normalize_user_code : simpl never.
Lemma wins_swap_device dc code subject :
  wins_first
    (fun s => (exists g, mi_device_by_code s !! dc = Some g /\ dg_state g = Pending /\ dg_user_code g = code) /\
              mi_user_code_index s !! UserCode.normalize_user_code code = Some dc)
    (fun s => exists g, mi_device_by_code s !! dc = Some g /\ dg_state g <> Pending)
    (Racer (CompareAndSwapDeviceGrant Pending (grant_in (Approved subject) (grant_in Pending (sample_device_grant dc code)))) won).
Proof.
  split; intros s; cbn; unfold MemoryStorage.compare_and_swap_device_grant; cbn.
  - intros [(g & Hg & Hp & Hc) Hi]. rewrite Hg, Hp. cbn. unfold MemoryStorage.write_device_grant. cbn.
    rewrite Hi. cbn. rewrite (bool_decide_true (dc = dc)) by done. cbn. do 2 eexists. split_and!; [done|done|].
    cbn. rewrite lookup_insert_eq. eexists. by split.
  - intros (g & Hg & Hp). rewrite Hg. rewrite bool_decide_false by done. do 2 eexists. split_and!; [done|done|]. eauto.
Qed.
Lemma wins_swap_client original name : c_name original <> Some name ->
  wins_first (fun s => mi_clients s !! c_client_id original = Some original)
    (fun s => exists c, mi_clients s !! c_client_id original = Some c /\ c <> original)
    (Racer (CompareAndSwapClient original (client_named name original)) won).
Proof.
  intros Hname. split; intros s; cbn; unfold MemoryStorage.compare_and_swap_client; cbn.
  - intros ->. rewrite bool_decide_true by done. do 2 eexists. split_and!; [done|done|]. cbn.
    rewrite lookup_insert_eq. eexists. split; [done|]. intros Heq. exact (Hname (eq_sym (f_equal c_name Heq))).
  - intros (c & Hc & Hne). rewrite Hc, bool_decide_false by done. do 2 eexists. split_and!; [done|done|]. eauto.
Qed.
Lemma wins_swap_code issued state : ac_state issued <> state ->
  wins_first (fun s => mi_codes s !! ac_code issued = Some issued)
    (fun s => exists c, mi_codes s !! ac_code issued = Some c /\ ac_state c <> ac_state issued)
    (Racer (CompareAndSwapAuthorizationCode (ac_state issued) (ac_with_state issued state)) won).
Proof.
  intros Hst. split; intros s; cbn; unfold MemoryStorage.compare_and_swap_authorization_code; cbn.
  - intros ->. rewrite bool_decide_true by done. do 2 eexists. split_and!; [done|done|]. cbn.
    rewrite lookup_insert_eq. eexists. split; [done|]. cbn. congruence.
  - intros (c & Hc & Hne). rewrite Hc, bool_decide_false by done. do 2 eexists. split_and!; [done|done|]. eauto.
Qed.

#[local] Arguments MemoryStorage.find_values : simpl never.

(** One consent in the store, so the order of the map's values does not matter. *)
Definition one_consent (c : ConsentRecord) (s : MemoryInner) : Prop := mi_consents s = {[cr_consent_id c := c]}.
Lemma one_consent_found c s : one_consent c s ->
  MemoryStorage.find_values (cr_client_id c) (cr_subject c) s = Some c.
Proof.
  intros Hc. unfold MemoryStorage.find_values. rewrite Hc.
  pose proof (hash_values_perm {[cr_consent_id c := c]}) as Hp. rewrite map_to_list_singleton in Hp.
  cbn [fmap list_fmap snd] in Hp. apply Permutation_singleton_r in Hp. rewrite Hp. cbn. by rewrite !bool_decide_true by done.
Qed.
Lemma wins_swap_consent original t :
  cr_granted_at original <> t ->
  wins_first (one_consent original)
    (fun s => exists c, one_consent c s /\ c <> original /\ cr_client_id c = cr_client_id original /\
       cr_subject c = cr_subject original)
    (Racer (CompareAndSwapConsent (Some original)
       (consent_with original (cr_client_id original) (cr_scope original) (cr_resource original) t)) won).
Proof.
  intros Ht. split; intros s; cbn; unfold MemoryStorage.compare_and_swap_consent; cbn.
  - intros Hs. rewrite (one_consent_found _ _ Hs), bool_decide_true by done. do 2 eexists. split_and!; [done|done|].
    exists (consent_with original (cr_client_id original) (cr_scope original) (cr_resource original) t). split_and!; [|intros Heq; exact (Ht (eq_sym (f_equal cr_granted_at Heq)))|done|done].
    unfold one_consent; cbn. rewrite Hs. apply insert_insert_eq.
  - intros (c & Hc & Hne & Hcl & Hsu). pose proof (one_consent_found _ _ Hc) as Hf. rewrite Hcl, Hsu in Hf.
    rewrite Hf, bool_decide_false by done. do 2 eexists. split_and!; [done|done|]. eauto.
Qed.
Lemma wins_claim id t : wins_first (fun s => mi_replay_ids s !! id = None) (fun s => is_Some (mi_replay_ids s !! id))
  (Racer (ClaimReplayId id t) won).
Proof.
  split; intros s; cbn; unfold MemoryStorage.claim_replay_id.
  - intros ->. do 2 eexists. split_and!; [done|done|]. cbn. by rewrite lookup_insert_eq.
  - intros [x Hx]. rewrite Hx. do 2 eexists. split_and!; [done|done|]. eauto.
Qed.

Lemma accepted_swap_device_race : accepted (check_compare_and_swap_device_grant_race n) [] everywhere.
Proof.
  unfold check_compare_and_swap_device_grant_race. apply accepted_start.
  apply (accepted_store _ _ _ _ _ tt); [by vm_compute|].
  eapply accepted_swap_race; cycle 1; [intros i _; apply wins_swap_device|].
  split; [|by vm_compute]. eexists. split_and!; [by vm_compute|done|done].
Qed.
Lemma accepted_swap_client_race : accepted (check_compare_and_swap_client_race n) [] everywhere.
Proof.
  unfold check_compare_and_swap_client_race. apply accepted_start.
  apply (accepted_store _ _ _ _ _ tt); [by vm_compute|].
  apply (accepted_store _ _ _ _ _ (Some (sample_client "client-swap-race"))); [by vm_compute|].
  eapply accepted_swap_race; cycle 1.
  { intros i _. apply (wins_swap_client (sample_client "client-swap-race") ("renamed by racer " +:+ display i)).
    cbn [c_name sample_client]. discriminate. }
  by vm_compute.
Qed.
Lemma accepted_swap_code_race : accepted (check_compare_and_swap_authorization_code_race n) [] everywhere.
Proof.
  unfold check_compare_and_swap_authorization_code_race. apply accepted_start.
  apply (accepted_store _ _ _ _ _ tt); [by vm_compute|].
  apply (accepted_store _ _ _ _ _ (Some (sample_authorization_code "code-swap-race"))); [by vm_compute|].
  apply (accepted_store _ _ _ _ _ tt); [by vm_compute|].
  eapply accepted_swap_race; cycle 1.
  { intros i _. apply (wins_swap_code (sample_authorization_code "code-swap-race")). cbn [ac_state]. discriminate. }
  by vm_compute.
Qed.
Lemma accepted_swap_consent_race : accepted (check_compare_and_swap_consent_race n) [] everywhere.
Proof.
  unfold check_compare_and_swap_consent_race. apply accepted_start.
  apply (accepted_store _ _ _ _ _ true); [by vm_compute|].
  apply (accepted_store _ _ _ _ _ (Some (sample_consent "consent-swap-race" "subject-swap-race"))); [by vm_compute|].
  eapply accepted_swap_race; cycle 1.
  { intros i _. apply (wins_swap_consent (sample_consent "consent-swap-race" "subject-swap-race")).
    cbn [cr_granted_at sample_consent]. unfold at_before, at_, BASE_SECS, from_secs, NANOS, UNIX_EPOCH. lia. }
  reflexivity.
Qed.

(** The claim race, and the rest of its check, which is run. *)
Lemma accepted_claim : accepted (check_claim_replay_id n) [] everywhere.
Proof.
  unfold check_claim_replay_id. cbv zeta. apply accepted_start.
  eapply accepted_take_race; cycle 1; [intros i _; apply wins_claim| |by vm_compute].
  intros s _ races vs a w' Hvs Hr. cbn in Hr. vm_compute in Hr. injection Hr as <- <-. done.
Qed.

(** *** Rotation *)
Section rotation.
Let rotate (access next : string) : StoreOp bool :=
  RotateRefreshToken (refresh_in Active (sample_refresh "rot-pred" "client-rot" "fam-rot"))
    (refresh_in Spent (refresh_in Active (sample_refresh "rot-pred" "client-rot" "fam-rot")))
    (sample_token access "client-rot" (Some "fam-rot")) (Some (sample_refresh next "client-rot" "fam-rot")).

Definition unrotated (s : MemoryInner) : Prop :=
  mi_barriers s = ∅ /\ mi_tokens s = ∅ /\
  mi_refresh s = {["rot-pred" := refresh_in Active (sample_refresh "rot-pred" "client-rot" "fam-rot")]}.
Definition rotated (s : MemoryInner) : Prop :=
  mi_barriers s = ∅ /\
  (exists r, mi_refresh s !! "rot-pred" = Some r /\ rt_state r = Spent) /\
  exists j, (j < n)%nat /\
    (forall k, is_Some (mi_tokens s !! k) <-> k = "rot-access-" +:+ display j) /\
    (forall k, is_Some (mi_refresh s !! k) <-> k = "rot-pred" \/ k = "rot-next-" +:+ display j).

Lemma rotate_lost e spent a x s : mi_refresh s !! rt_refresh_token e <> Some e ->
  MemoryStorage.step _ (RotateRefreshToken e spent a x) s = (Ok false, s).
Proof. intros Hne. cbn. unfold MemoryStorage.rotate_refresh_token. by rewrite bool_decide_false. Qed.
Lemma rotate_won e spent a x s : mi_refresh s !! rt_refresh_token e = Some e -> mi_barriers s = ∅ ->
  exists s', MemoryStorage.step _ (RotateRefreshToken e spent a (Some x)) s = (Ok true, s') /\
    mi_barriers s' = ∅ /\ mi_tokens s' = <[it_access_token a := a]> (mi_tokens s) /\
    mi_refresh s' = <[rt_refresh_token x := x]> (<[rt_refresh_token spent := spent]> (mi_refresh s)).
Proof.
  intros He Hb. cbn. unfold MemoryStorage.rotate_refresh_token, is_revoked. rewrite Hb, He, !lookup_empty.
  rewrite bool_decide_true by done. eexists. split; [done|]. cbn. by rewrite Hb.
Qed.

Lemma rotated_refuses access next s : rotated s ->
  MemoryStorage.step _ (rotate access next) s = (Ok false, s).
Proof. intros (_ & (r & Hr & Hspent) & _). apply rotate_lost. cbn. rewrite Hr. by intros [= ->]. Qed.

Lemma wins_rotate i : (i < n)%nat ->
  wins_first unrotated rotated (Racer (rotate ("rot-access-" +:+ display i) ("rot-next-" +:+ display i)) won).
Proof.
  intros Hi. split; intros s Hs; [|exists (Ok false), s; split_and!; [by apply rotated_refuses|done|done]].
  destruct Hs as (Hb & Ht & Hr). cbn [ra_call ra_result].
  destruct (rotate_won (refresh_in Active (sample_refresh "rot-pred" "client-rot" "fam-rot"))
    (refresh_in Spent (refresh_in Active (sample_refresh "rot-pred" "client-rot" "fam-rot")))
    (sample_token ("rot-access-" +:+ display i) "client-rot" (Some "fam-rot"))
    (sample_refresh ("rot-next-" +:+ display i) "client-rot" "fam-rot") s) as (s' & Hstep & Hb' & Ht' & Hr');
    [by rewrite Hr; apply lookup_singleton_eq|done|].
  exists (Ok true), s'. split_and!; [exact Hstep|done|]. split_and!; [done| |exists i; split_and!; [done|..]].
  - eexists. rewrite Hr', lookup_insert_ne by done. by rewrite lookup_insert_eq.
  - intros k. rewrite Ht', Ht, lookup_insert_is_Some', lookup_empty. cbn [it_access_token sample_token].
    split; [intros [<-|[x Hx]]; done|intros ->; by left].
  - intros k. rewrite Hr', Hr. unfold singletonM, map_singleton. rewrite !lookup_insert_is_Some', lookup_empty.
    cbn [rt_refresh_token sample_refresh refresh_in rt_update].
    split; [intros [<-|[<-|[<-|[x Hx]]]]; auto; done|intros [->| ->]; auto].
Qed.

Lemma count_seq j m : forall k, count (Nat.eqb j) (seq k m) = if (k <=? j)%nat && (j <? k + m)%nat then 1%nat else 0%nat.
Proof.
  induction m as [|m IH]; intros k; cbn [seq].
  - destruct (k <=? j)%nat eqn:E1, (j <? k + 0)%nat eqn:E2; try done. apply Nat.leb_le in E1. apply Nat.ltb_lt in E2. lia.
  - rewrite count_cons, IH. destruct (Nat.eqb_spec j k), (Nat.leb_spec (S k) j), (Nat.leb_spec k j),
      (Nat.ltb_spec j (S k + m)), (Nat.ltb_spec j (k + S m)); cbn; lia.
Qed.

Lemma accepted_count_rotated j s :
  (forall k, is_Some (mi_tokens s !! k) <-> k = "rot-access-" +:+ display j) ->
  (forall k, is_Some (mi_refresh s !! k) <-> k = "rot-pred" \/ k = "rot-next-" +:+ display j) ->
  forall indices a b, accepted (count_rotated 0 indices a b) [s]
    (fun r l => l = [s] /\ r = ((a + count (Nat.eqb j) indices)%nat, (b + count (Nat.eqb j) indices)%nat)).
Proof.
  intros Ht Hr. induction indices as [|i indices IH]; intros a b; cbn [count_rotated].
  - apply accepted_ret. split; [done|]. unfold count; cbn. by rewrite !Nat.add_0_r.
  - apply (accepted_bind _ _ _ (fun o l => o = Some (mi_tokens s !! ("rot-access-" +:+ display i)) /\ l = [s]));
      [by eapply accepted_ok_call|]. intros o l [-> ->].
    apply (accepted_bind _ _ _ (fun o l => o = Some (mi_refresh s !! ("rot-next-" +:+ display i)) /\ l = [s]));
      [by eapply accepted_ok_call|]. intros o l [-> ->].
    assert (Hti : mi_tokens s !! ("rot-access-" +:+ display i) = None <-> j <> i).
    { rewrite eq_None_not_Some, Ht. split; [by intros Hne ->|].
      intros Hne Heq%str_app_inj_l%Replay.nat_display_inj. done. }
    assert (Hri : mi_refresh s !! ("rot-next-" +:+ display i) = None <-> j <> i).
    { rewrite eq_None_not_Some, Hr. split; [by intros Hne ->; apply Hne; right|].
      intros Hne [Heq|Heq%str_app_inj_l%Replay.nat_display_inj]; [done|congruence]. }
    intros races vs r w' Hvs Hrun.
    destruct (IH _ _ _ _ _ _ Hvs Hrun) as [Hvs' [Hl ->]]. split; [done|]. split; [done|].
    rewrite count_cons. destruct (Nat.eqb_spec j i) as [->|Hne].
    + destruct (mi_tokens s !! _) eqn:E1; [|by destruct (proj1 Hti eq_refl)].
      destruct (mi_refresh s !! _) eqn:E2; [|by destruct (proj1 Hri eq_refl)]. f_equal; lia.
    + by rewrite (proj2 Hti Hne), (proj2 Hri Hne).
Qed.

Lemma accepted_rotate_race : accepted (check_atomic_rotate_refresh_token n) [] everywhere.
Proof.
  unfold check_atomic_rotate_refresh_token. cbv zeta. apply accepted_start.
  apply (accepted_store _ _ _ _ _ Applied); [by vm_compute|].
  apply (accepted_store _ _ _ _ _ (Some (refresh_in Active (sample_refresh "rot-pred" "client-rot" "fam-rot"))));
    [by vm_compute|].
  apply (accepted_bind _ _ _ (fun results l => count is_winner results = 1%nat /\ count is_error results = 0%nat /\
           exists s', rotated s' /\ l = [s'])).
  { eapply (accepted_one_winner unrotated rotated); [done|done| |apply wins_rotate|].
    - split_and!; reflexivity.
    - intros results s' Hw He HP. split_and!; eauto. }
  intros results l (Hw & He & s & (Hb & Hpred & j & Hj & Ht & Hr) & ->).
  apply (accepted_bind _ _ _ (fun _ l => l = [s])); [by apply accepted_judge_swap|]. intros _ l ->.
  eapply accepted_bind; [by apply (accepted_count_rotated j s)|]. intros r l [-> ->].
  rewrite count_seq. replace ((0 <=? j)%nat && (j <? 0 + n)%nat) with true
    by (symmetry; apply andb_true_iff; split; [apply Nat.leb_le|apply Nat.ltb_lt]; lia).
  cbn [Nat.add Nat.eqb negb orb].
  apply (accepted_bind _ _ _ (fun _ l => l = [s])); [by apply accepted_ret|]. intros _ l ->.
  apply (accepted_bind _ _ _ (fun o l => o = Some false /\ l = [s])).
  { eapply accepted_ok_call; [done|apply rotated_refuses; by split_and!; eauto|done]. }
  intros o l [-> ->]. apply (accepted_bind _ _ _ (fun _ l => l = [s])); [by apply accepted_ret|]. intros _ l ->.
  apply (accepted_bind _ _ _ (fun _ l => l = [s])).
  - eapply accepted_expect_gone; [done| |done]. cbn. unfold MemoryStorage.get_token. do 2 f_equal.
    apply eq_None_not_Some. rewrite Ht. done.
  - intros _ l ->. eapply accepted_expect_gone; [done| |done]. cbn. unfold MemoryStorage.get_refresh_token. do 2 f_equal.
    apply eq_None_not_Some. rewrite Hr. by intros [?|?].
Qed.
End rotation.

(** *** The sweep that runs beside writes *)

(** Tokens only, all of them live. *)
Definition live_store (s : MemoryInner) : Prop :=
  mi_barriers s = ∅ /\ mi_device_by_code s = ∅ /\ mi_user_code_index s = ∅ /\ mi_codes s = ∅ /\
  mi_pushed s = ∅ /\ mi_refresh s = ∅ /\ mi_replay_ids s = ∅ /\
  forall k t, mi_tokens s !! k = Some t -> it_expires_at t = at_ 600.

Lemma retain_none {V} (q : V -> bool) : retain q ∅ = ∅.
Proof. by apply retain_all. Qed.

Lemma sweep_live s : live_store s -> MemoryStorage.step _ (SweepExpired (at_ 0)) s = (Ok 0, s).
Proof.
  destruct s as [clients devices index codes pushed tokens refresh consents replay barriers].
  intros (Hb & Hd & Hi & Hc & Hp & Hr & Hrep & Ht). cbn in *. subst.
  unfold MemoryStorage.sweep_expired. cbn [mi_tokens mi_device_by_code mi_codes mi_pushed mi_refresh mi_replay_ids
    mi_barriers mi_user_code_index mi_clients mi_consents].
  rewrite (retain_all _ tokens) by (intros k t Hk; rewrite (Ht k t Hk); reflexivity).
  unfold MemoryStorage.sweep_barriers. rewrite !retain_none, omap_empty, map_fold_empty.
  change (prune_index ∅ ∅) with (∅ : gmap string string). do 2 f_equal. lia.
Qed.

Lemma put_live s t : live_store s -> it_expires_at t = at_ 600 ->
  exists s', MemoryStorage.step _ (PutToken t) s = (Ok Applied, s') /\ live_store s' /\
    mi_tokens s' = <[it_access_token t := t]> (mi_tokens s).
Proof.
  intros (Hb & Hd & Hi & Hc & Hp & Hr & Hrep & Ht) Hexp. cbn. unfold MemoryStorage.put_token, is_revoked.
  rewrite Hb, !lookup_empty. replace (is_some_and (it_family_id t) _) with false
    by (destruct (it_family_id t); cbn; by rewrite ?lookup_empty).
  cbn [orb]. eexists. split; [done|]. split; [|done]. split_and!; cbn; try done.
  intros k t' [[<- <-]|[_ Hk]]%lookup_insert_Some; [done|by eapply Ht].
Qed.

Let written (i : nat) : string := "at-sweep-race-written-" +:+ display i.
Let planted (i : nat) : string := "at-sweep-race-planted-" +:+ display i.

(** What a racer may say when it is done, in the store all of them left. *)
Definition sweep_said (s : MemoryInner) (o : option (result Z StorageError) * result (option nat) StorageError) : Prop :=
  (fst o = None \/ fst o = Some (Ok 0)) /\
  (snd o = Ok None \/ exists i, snd o = Ok (Some i) /\ is_Some (mi_tokens s !! written i)).

Lemma sweep_calls order : Forall (fun r => exists i, r = sweep_racer i) order -> forall s rs s',
  live_store s -> call_all order s = (rs, s') ->
  live_store s' /\ (forall k, is_Some (mi_tokens s !! k) -> is_Some (mi_tokens s' !! k)) /\
  Forall (sweep_said s') rs /\ (sweep_racer 0 ∈ order -> Exists (fun o => fst o = Some (Ok 0)) rs).
Proof.
  induction 1 as [|r order [i ->] Hord IH]; cbn; intros s rs s' Hs Hc.
  { injection Hc as <- <-. split_and!; [done|done|constructor|]. by intros ?%not_elem_of_nil. }
  destruct i as [|i].
  - cbn [sweep_racer ra_call ra_result ra_answer] in Hc. unfold store_step, memory_storage in Hc. rewrite (sweep_live s Hs) in Hc.
    destruct (call_all order s) as [rs2 s2] eqn:Hc2. injection Hc as <- <-.
    destruct (IH s rs2 s2 Hs Hc2) as (Hl & Hk & Hsaid & _). split_and!; [done|done| |by intros _; left].
    constructor; [|done]. split; auto.
  - cbn [sweep_racer ra_call ra_result ra_answer] in Hc. unfold store_step, memory_storage in Hc.
    destruct (put_live s (token_until (at_ 600) (sample_token (written (S i)) "client-sweep-race" None)) Hs eq_refl)
      as (s1 & Hstep & Hs1 & Ht1).
    unfold written in Hstep. rewrite Hstep in Hc. destruct (call_all order s1) as [rs2 s2] eqn:Hc2. injection Hc as <- <-.
    destruct (IH s1 rs2 s2 Hs1 Hc2) as (Hl & Hk & Hsaid & Hex). split_and!; [done| | |].
    + intros k Hin. apply Hk. rewrite Ht1. apply lookup_insert_is_Some'. by right.
    + constructor; [|done]. split; [by left|]. right. exists (S i). split; [done|]. apply Hk. rewrite Ht1.
      apply lookup_insert_is_Some'. by left.
    + intros Hin. right. apply Hex. apply elem_of_cons in Hin as [Heq|]; [|done]. discriminate Heq.
Qed.

Lemma accepted_planting ks : forall s, live_store s ->
  accepted (for_each_or_return ks (fun i =>
      r ← ok_call SWEEP_CONCURRENT_WRITES "put_token (live, before the race)" 0
        (PutToken (token_until (at_ 600) (sample_token (planted i) "client-sweep-race" None)));
      mret (match r with Some _ => Some tt | None => None end))) [s] (fun o l => o = Some tt /\ exists s', l = [s'] /\ live_store s' /\
    (forall k, is_Some (mi_tokens s !! k) -> is_Some (mi_tokens s' !! k)) /\
    forall i, i ∈ ks -> is_Some (mi_tokens s' !! planted i)).
Proof.
  induction ks as [|i ks IH]; intros s Hs; cbn [for_each_or_return].
  { apply accepted_ret. split; [done|]. exists s. split_and!; [done|done|done|]. by intros i ?%not_elem_of_nil. }
  destruct (put_live s (token_until (at_ 600) (sample_token (planted i) "client-sweep-race" None)) Hs eq_refl)
    as (s1 & Hstep & Hs1 & Ht1).
  apply (accepted_bind _ _ _ (fun o l => o = Some tt /\ l = [s1])).
  { apply (accepted_bind _ _ _ (fun o l => o = Some Applied /\ l = [s1])); [by eapply accepted_ok_call|].
    intros o l [-> ->]. by apply accepted_ret. }
  intros o l [-> ->]. intros races vs o w' Hvs Hrun.
  destruct (IH s1 Hs1 races vs o w' Hvs Hrun) as (Hvs' & Ho & s' & Hl & Hs' & Hk & Hin).
  split; [done|]. split; [done|]. exists s'. split_and!; [done|done| |].
  - intros k Hk1. apply Hk. rewrite Ht1. apply lookup_insert_is_Some'. by right.
  - intros j [->|Hj]%elem_of_cons; [|by apply Hin]. apply Hk. rewrite Ht1. apply lookup_insert_is_Some'. by left.
Qed.

Lemma accepted_gone_keys s keys : (forall k, k ∈ keys -> is_Some (mi_tokens s !! k)) -> forall lost,
  accepted (gone_keys 0 keys lost) [s] (fun o l => o = Some lost /\ l = [s]).
Proof.
  induction keys as [|k keys IH]; intros Hk lost; cbn [gone_keys]; [by apply accepted_ret|].
  destruct (Hk k) as [t Ht]; [left|].
  apply (accepted_bind _ _ _ (fun o l => o = Some (Some t) /\ l = [s])).
  { eapply accepted_ok_call; [done|cbn; unfold MemoryStorage.get_token; by rewrite Ht|done]. }
  intros o l [-> ->]. apply IH. intros k' Hk'. apply Hk. by right.
Qed.

Lemma answered_zero s outcomes : Forall (sweep_said s) outcomes -> Exists (fun o => fst o = Some (Ok 0)) outcomes ->
  Checks2.answered outcomes = Some (Ok 0).
Proof.
  intros Hall Hex. unfold Checks2.answered. destruct (last (omap fst outcomes)) as [a|] eqn:Hl.
  - apply last_Some_elem_of, list_elem_of_omap in Hl as (o & Ho & Ha).
    rewrite Forall_forall in Hall. destruct (Hall o Ho) as [[Hf|Hf] _]; congruence.
  - apply last_None in Hl. apply Exists_exists in Hex as (o & Ho & Ha).
    assert (Ok 0 ∈ omap fst outcomes) as Hin by (apply list_elem_of_omap; eauto). rewrite Hl in Hin. by apply not_elem_of_nil in Hin.
Qed.
Lemma no_errors s outcomes : Forall (sweep_said s) outcomes -> count is_error (map snd outcomes) = 0%nat.
Proof.
  induction 1 as [|o l [_ Ho] _ IH]; [done|]. cbn [map]. rewrite count_cons, IH.
  by destruct Ho as [->|(i & -> & _)].
Qed.
Lemma applied_present s outcomes : Forall (sweep_said s) outcomes ->
  forall k, k ∈ map written (applied_indices (map snd outcomes)) -> is_Some (mi_tokens s !! k).
Proof.
  intros Hall k. rewrite list_elem_of_In, in_map_iff. intros (i & <- & Hi). apply list_elem_of_In in Hi.
  unfold applied_indices in Hi. apply list_elem_of_omap in Hi as (r & Hr & Hri).
  apply list_elem_of_In, in_map_iff in Hr as (o & <- & Ho). apply list_elem_of_In in Ho.
  rewrite Forall_forall in Hall. destruct (Hall o Ho) as [_ [Heq|(j & Heq & Hj)]]; rewrite Heq in Hri; [done|].
  by injection Hri as ->.
Qed.

Lemma accepted_sweep_race : accepted (check_sweep_under_concurrent_writes n) [] everywhere.
Proof.
  unfold check_sweep_under_concurrent_writes. cbv zeta. apply accepted_start.
  assert (live_store mi_empty) as Hempty by (split_and!; done).
  apply (accepted_bind _ _ _ (fun o l => o = Some tt /\ exists s', l = [s'] /\ live_store s' /\
    forall i, i ∈ seq 0 n -> is_Some (mi_tokens s' !! planted i))).
  { intros races vs o w' Hvs Hrun.
    destruct (accepted_planting (seq 0 n) mi_empty Hempty races vs o w' Hvs Hrun) as (? & ? & s' & ? & ? & _ & ?). eauto 10. }
  intros o l [-> (s & -> & Hs & Hplanted)].
  apply (accepted_bind _ _ _ (fun outcomes l => exists s', l = [s'] /\ Forall (sweep_said s') outcomes /\
    Exists (fun o => fst o = Some (Ok 0)) outcomes /\
    forall i, i ∈ seq 0 n -> is_Some (mi_tokens s' !! planted i))).
  { apply (accepted_race n 0%nat sweep_racer [s] s); [done|]. intros order rs s' results Hord Hcall Hres.
    destruct (sweep_calls order) with s rs s' as (Hl & Hk & Hsaid & Hex); [|done|done|].
    { rewrite Hord. apply Forall_forall. intros r Hr. apply list_elem_of_In, in_map_iff in Hr as (i & <- & _). eauto. }
    exists s'. split_and!; [done|by rewrite Hres| |by auto]. rewrite Hres. apply Hex. rewrite Hord.
    apply list_elem_of_In, in_map_iff. exists 0%nat. split; [done|]. apply in_seq. lia. }
  intros outcomes l (s' & -> & Hsaid & Hex & Hpl).
  rewrite (no_errors s' _ Hsaid), (answered_zero s' _ Hsaid Hex).
  apply (accepted_bind _ _ _ (fun _ l => l = [s'])); [by apply accepted_ret|]. intros _ l ->.
  apply (accepted_bind _ _ _ (fun _ l => l = [s'])); [by apply accepted_ret|]. intros _ l ->.
  eapply accepted_or_return; [apply accepted_gone_keys, (applied_present s' _ Hsaid)|].
  eapply accepted_or_return; [apply accepted_gone_keys|by apply accepted_ret].
  intros k. rewrite list_elem_of_In, in_map_iff. intros (i & <- & Hi). by apply Hpl, list_elem_of_In.
Qed.

(** *** All of it *)
Lemma accepted_only_setup (p : check unit) : accepted p [] everywhere ->
  forall races w a, run_check memory how p (session_at races) = Some (a, w) -> only_setup (ss_violations w).
Proof. intros Hp races w a Hr. apply (Hp races [] a w); [constructor|exact Hr]. Qed.

Lemma suite_accepted : Forall (fun p => forall races w a,
  run_check memory how p (session_at races) = Some (a, w) -> only_setup (ss_violations w)) (conformance_run n).
Proof.
  unfold conformance_run. repeat apply Forall_cons_2; try apply Forall_nil_2;
    first
    [ apply accepted_only_setup;
      first [apply accepted_device_race|apply accepted_refresh_race|apply accepted_rotate_race
            |apply accepted_code_race|apply accepted_claim|apply accepted_pushed_race
            |apply accepted_swap_device_race|apply accepted_swap_client_race|apply accepted_swap_code_race
            |apply accepted_swap_consent_race|apply accepted_sweep_race]
    | apply accepted_run; intros races; vm_compute; reflexivity ].
Qed.

Lemma checks_only_setup checks : Forall (fun p => forall races w a,
    run_check memory how p (session_at races) = Some (a, w) -> only_setup (ss_violations w)) checks ->
  forall races vs, run_checks memory how checks races = Some vs -> only_setup vs.
Proof.
  induction 1 as [|p checks Hp _ IH]; cbn; intros races vs; [intros [= <-]; constructor|].
  destruct (run_check memory how p (session_at races)) as [[a w]|] eqn:Hr; [|done].
  destruct (run_checks memory how checks (ss_races w)) as [vs'|] eqn:Hrs; [|done].
  intros [= <-]. apply Forall_app. split; [by eapply Hp|by eapply IH].
Qed.
End races.
End logic.

Section accepts.
#[local] Existing Instances plain_crypto fixture_serde listing_order.
Context `{Debug}.

(** C9. The bundled store passes the suite, whoever schedules it.  With any number of racers,
    and whatever order a runtime polls them in (dropping none), the conformance suite run on
    [MemoryStorage] reports nothing, except that a runtime which starves the rendezvous
    past the gate's budget is told so; and run on the caller's own task it ends and reports
    nothing at all.  Every expectation of the contract written as a check, the races included,
    is one the modelled store meets. *)
Theorem memory_storage_conforms racers : (0 < racers)%nat ->
  (forall how vs, tasks_kept how ->
     run_suite {| sc_spawn := how; sc_racers := racers |} memory = Some vs ->
     Forall (fun v => vi_check v = HARNESS_RACE_SETUP) vs) /\
  exists fuel, forall fuel', (fuel <= fuel')%nat ->
    run_suite {| sc_spawn := Cooperative fuel'; sc_racers := racers |} memory = Some [].
Proof.
  intros Hn.
  assert (Hall : forall how vs, tasks_kept how ->
    run_suite {| sc_spawn := how; sc_racers := racers |} memory = Some vs -> only_setup vs).
  { intros how vs Hkept. apply checks_only_setup, suite_accepted; done. }
  split; [exact Hall|]. destruct (suite_ends memory racers) as (fuel & vs & Hrun).
  exists fuel. intros fuel' Hf. destruct (Hrun fuel' Hf) as [Hr Hvs]. rewrite Hr. f_equal.
  specialize (Hall (Cooperative fuel') vs I Hr). destruct vs as [|v vs]; [done|].
  inversion Hall; inversion Hvs; subst. tauto.
Qed.

End accepts.

(** ** Witnesses *)
Section witnesses.
#[local] Existing Instances plain_crypto fixture_serde listing_order.

(** Values printed as nothing. *)
#[local] Instance no_debug : Debug := fun _ _ => EmptyString.

Lemma memory_storage_conforms_witness : (0 < DEFAULT_RACERS)%nat /\
  exists fuel, forall fuel', (fuel <= fuel')%nat ->
    run_suite {| sc_spawn := Cooperative fuel'; sc_racers := DEFAULT_RACERS |} memory = Some [].
Proof. split; [unfold DEFAULT_RACERS; lia|]. apply (memory_storage_conforms DEFAULT_RACERS). unfold DEFAULT_RACERS. lia. Defined.

(** Two sweeps of an empty store, each task polled to its end. *)
Definition two_sweeps : list (racer (result Z StorageError)) := [Racer (SweepExpired (at_ 0)) id; Racer (SweepExpired (at_ 0)) id].
Definition two_sweeps_run : spawned MemoryInner (result Z StorageError) :=
  fold_left spawn_step [PollTask 0; PollTask 1; PollTask 0] (spawn_all memory two_sweeps mi_empty).

Lemma racers_overlap_or_say_so_witness :
  Exists (fun r => has_started r = true) (sp_runners two_sweeps_run) /\
  gt_unsatisfied (sp_gate two_sweeps_run) = false /\
  Forall (fun r => has_arrived r = true) (sp_runners two_sweeps_run).
Proof.
  split; [|split].
  - apply Exists_exists. exists (Done (Ok 0)). split; [|done]. vm_compute. left.
  - reflexivity.
  - apply (racers_overlap_or_say_so memory two_sweeps mi_empty [PollTask 0; PollTask 1; PollTask 0]).
    + apply Exists_exists. exists (Done (Ok 0)). split; [|done]. vm_compute. left.
    + reflexivity.
Defined.
End witnesses.
