(* ===== verification/Rejects.v ===== *)
(** * What the conformance suite rejects

    Stores that deviate from [MemoryStorage] in one method ([deviates_only_in]), or only
    suspend between reading and writing ([suspends_only]), and runtimes that do not let the
    racers overlap ([keeps_racers_apart]): one for every published check, each reported
    under its name.  And one deviation that is not reported. *)
From S2P Require Import Prelude Time Codec Scope Types Store StoreFacts Credentials Delegate Harness Samples Checks Checks2 HarnessFacts Conformance Accepts.
Local Open Scope Z_scope.

(** ** Deviations *)

(** A method answered differently; [None] leaves it as it is. *)
Definition deviation : Type := forall X, StoreOp X -> MemoryInner -> option (result X StorageError * MemoryInner).

Notation answer X := (MemoryInner -> result X StorageError * MemoryInner).

Notation "'instead' p '~~>' e" :=
  ((fun (X : Type) (op : StoreOp X) (s : MemoryInner) =>
      match op in StoreOp X return option (result X StorageError * MemoryInner) with
      | p => Some ((e : answer _) s)
      | _ => None
      end) : deviation)
  (at level 200, p pattern at level 99, e at level 200, only parsing).

Section deviants.
Context `{HashOrder}.

Definition deviant_step (d : deviation) X (op : StoreOp X) (s : MemoryInner) : result X StorageError * MemoryInner :=
  match d X op s with Some o => o | None => MemoryStorage.step X op s end.
Definition deviant (d : deviation) : Subject MemoryInner := {|
  sj_new := mi_empty;
  sj_call X op := Poll_ (fun s => let (r, s') := deviant_step d X op s in (s', inl r)) |}.

(** A store that decides on what it read, suspends, and then writes. *)
Definition torn_call X (op : StoreOp X) : Micro MemoryInner X :=
  Poll_ (fun s => (s, inr (Poll_ (fun s' =>
    (snd (MemoryStorage.step X op s'), inl (fst (MemoryStorage.step X op s))))))).
Definition torn : Subject MemoryInner := {| sj_new := mi_empty; sj_call := torn_call |}.
(** One whose sweep writes back the table it kept of what it read. *)
Definition rebuilding : Subject MemoryInner := {|
  sj_new := mi_empty;
  sj_call X op :=
    match op with
    | SweepExpired _ => Poll_ (fun s => (s, inr (Poll_ (fun _ =>
        (snd (MemoryStorage.step X op s), inl (fst (MemoryStorage.step X op s)))))))
    | _ => Poll_ (fun s => let (r, s') := MemoryStorage.step X op s in (s', inl r))
    end |}.

Definition unsupported : StorageError := {| se_message := "not supported" |}.
Definition ignoring_barriers {X} (op : StoreOp X) (s : MemoryInner) : result X StorageError * MemoryInner :=
  let (r, s') := MemoryStorage.step X op (set_barriers ∅ s) in (r, set_barriers (mi_barriers s) s').
Definition any_barrier {X} (op : StoreOp X) (refused : X) (s : MemoryInner) : result X StorageError * MemoryInner :=
  if bool_decide (mi_barriers s = ∅) then MemoryStorage.step X op s else (Ok refused, s).
Definition counted (k : Z) (o : result Z StorageError * MemoryInner) : result Z StorageError * MemoryInner :=
  match o with (Ok n, s) => (Ok (n + k), s) | o => o end.

(** One deviation per check, in the order of [CHECKS]. *)
Definition insert_only_client : deviation := instead PutClient c ~~> fun s =>
  match mi_clients s !! c_client_id c with
  | Some _ => (Ok tt, s)
  | None => MemoryStorage.put_client c s
  end.
Definition drops_interval : deviation := instead PutDeviceGrant g ~~>
  MemoryStorage.put_device_grant (dg_update g (dg_state g) 0 (dg_last_poll_at g)).
Definition drops_code_state : deviation := instead PutAuthorizationCode r ~~>
  MemoryStorage.put_authorization_code (ac_with_state r Issued).
Definition drops_grant_instant : deviation := instead PutToken t ~~> fun s =>
  let (r, s') := MemoryStorage.put_token t s in
  (r, set_tokens ((fun t => token_granted (it_issued_at t) t) <$> mi_tokens s') s').
Definition drops_refresh_expiry : deviation := instead PutRefreshToken r ~~>
  MemoryStorage.put_refresh_token (refresh_until None r).
Definition swap_says_no : deviation := instead CompareAndSwapDeviceGrant e u ~~> fun s => (Ok false, s).
Definition swap_ignores_expected : deviation := instead CompareAndSwapDeviceGrant e u ~~> fun s =>
  match mi_device_by_code s !! dg_device_code u with
  | Some current => MemoryStorage.compare_and_swap_device_grant (dg_state current) u s
  | None => (Ok false, s)
  end.
Definition swap_upserts : deviation := instead CompareAndSwapDeviceGrant e u ~~> fun s =>
  match mi_device_by_code s !! dg_device_code u with
  | Some _ => MemoryStorage.compare_and_swap_device_grant e u s
  | None => (Ok true, snd (MemoryStorage.put_device_grant u s))
  end.
Definition swap_keeps_index : deviation := instead CompareAndSwapDeviceGrant e u ~~> fun s =>
  let (r, s') := MemoryStorage.compare_and_swap_device_grant e u s in
  (r, set_devices (mi_device_by_code s') (mi_user_code_index s' ∪ mi_user_code_index s) s').
Definition swap_repoints : deviation := instead CompareAndSwapDeviceGrant e u ~~> fun s =>
  MemoryStorage.compare_and_swap_device_grant e u
    (set_devices (mi_device_by_code s) (delete (UserCode.normalize_user_code (dg_user_code u)) (mi_user_code_index s)) s).
Definition put_keeps_index : deviation := instead PutDeviceGrant g ~~> fun s =>
  let (r, s') := MemoryStorage.put_device_grant g s in
  (r, set_devices (mi_device_by_code s') (mi_user_code_index s' ∪ mi_user_code_index s) s').
Definition put_repoints : deviation := instead PutDeviceGrant g ~~> fun s =>
  MemoryStorage.put_device_grant g
    (set_devices (mi_device_by_code s) (delete (UserCode.normalize_user_code (dg_user_code g)) (mi_user_code_index s)) s).
Definition refusal_writes : deviation := instead PutDeviceGrant g ~~> fun s =>
  match MemoryStorage.put_device_grant g s with
  | (Err e, s') => (Err e, set_devices (<[dg_device_code g := g]> (mi_device_by_code s')) (mi_user_code_index s') s')
  | o => o
  end.
Definition take_keeps_grant : deviation := instead TakeDeviceGrant dc ~~> MemoryStorage.get_device_grant dc.
Definition find_normalizes : deviation := instead FindDeviceGrantByUserCode u ~~>
  MemoryStorage.find_device_grant_by_user_code (UserCode.normalize_user_code u).
Definition sweep_does_nothing : deviation := instead SweepExpired now ~~> fun s => (Ok 0, s).
Definition sweep_takes_all : deviation := instead SweepExpired now ~~> fun s =>
  (fst (MemoryStorage.sweep_expired now s), mi_empty).
Definition sweep_miscounts (k : Z) : deviation := instead SweepExpired now ~~> fun s =>
  counted k (MemoryStorage.sweep_expired now s).
Definition sweep_keeps_pushed : deviation := instead SweepExpired now ~~> fun s =>
  let (r, s') := MemoryStorage.sweep_expired now s in (r, set_pushed (mi_pushed s) s').
Definition sweep_keeps_replay_ids : deviation := instead SweepExpired now ~~> fun s =>
  let (r, s') := MemoryStorage.sweep_expired now (set_replay_ids ∅ s) in (r, set_replay_ids (mi_replay_ids s) s').
Definition family_spares_access : deviation := instead RevokeTokenFamily f w ~~> fun s =>
  let (r, s') := MemoryStorage.revoke_token_family f w s in (r, set_tokens (mi_tokens s) s').
Definition family_takes_all : deviation := instead RevokeTokenFamily f w ~~> fun s =>
  let (r, s') := MemoryStorage.revoke_token_family f w s in (r, set_tokens ∅ s').
Definition family_miscounts : deviation := instead RevokeTokenFamily f w ~~> fun s =>
  counted 1 (MemoryStorage.revoke_token_family f w s).
Definition delete_spares_tokens : deviation := instead DeleteClient c w ~~> fun s =>
  let (r, s') := MemoryStorage.delete_client c w s in (r, set_tokens (mi_tokens s) s').
Definition delete_always_true : deviation := instead DeleteClient c w ~~> fun s =>
  (Ok true, snd (MemoryStorage.delete_client c w s)).
Definition delete_token_errs : deviation := instead DeleteToken t ~~> fun s =>
  if is_some (mi_tokens s !! t) then MemoryStorage.delete_token t s else (Err unsupported, s).
Definition claims_everything : deviation := instead ClaimReplayId i e ~~> fun s => (Ok true, s).
Definition drops_pushed_challenge : deviation := instead TakePushedAuthorizationRequest u ~~> fun s =>
  let (r, s') := MemoryStorage.take_pushed_authorization_request u s in
  (match r with
   | Ok (Some p) => Ok (Some (pushed_with p (par_client_id p) None (par_pushed_at p) (par_expires_at p)))
   | r => r
   end, s').
Definition drops_consent_resource : deviation := instead PutConsent r ~~>
  MemoryStorage.put_consent (consent_with r (cr_client_id r) (cr_scope r) [] (cr_granted_at r)).
Definition lists_everyone : deviation := instead ConsentsForSubject subject ~~> fun s =>
  (Ok (hash_values (mi_consents s)), s).
Definition withdrawal_spares_refresh : deviation := instead RevokeConsent c w ~~> fun s =>
  let (r, s') := MemoryStorage.revoke_consent c w s in (r, set_refresh (mi_refresh s) s').
Definition withdrawal_takes_all : deviation := instead RevokeConsent c w ~~> fun s =>
  let (r, s') := MemoryStorage.revoke_consent c w s in (r, set_tokens ∅ s').
Definition withdrawal_miscounts : deviation := instead RevokeConsent c w ~~> fun s =>
  counted 1 (MemoryStorage.revoke_consent c w s).
Definition token_ignores_barriers : deviation := instead PutToken t ~~> ignoring_barriers (PutToken t).
Definition refresh_ignores_barriers : deviation := instead PutRefreshToken r ~~> ignoring_barriers (PutRefreshToken r).
Definition pushed_ignores_barriers : deviation := instead PutPushedAuthorizationRequest r ~~>
  ignoring_barriers (PutPushedAuthorizationRequest r).
Definition token_minds_any_barrier : deviation := instead PutToken t ~~> any_barrier (PutToken t) RefusedRevoked.
Definition forgets_instants : deviation := instead DeleteClient c w ~~>
  MemoryStorage.delete_client c {| rw_recorded_at := rw_until w; rw_until := rw_until w |}.
Definition last_revocation_wins : deviation := instead DeleteClient c w ~~> fun s =>
  MemoryStorage.delete_client c w (set_barriers ∅ s).
Definition sweep_keeps_barriers : deviation := instead SweepExpired now ~~> fun s =>
  let (r, s') := MemoryStorage.sweep_expired now (set_barriers ∅ s) in (r, set_barriers (mi_barriers s) s').
Definition sweep_drops_barriers : deviation := instead SweepExpired now ~~> fun s =>
  let (r, s') := MemoryStorage.sweep_expired now s in (r, set_barriers ∅ s').
Definition accepts_empty_scope : deviation := instead RevokeTokenFamily f w ~~> fun s =>
  if str_is_empty f then (Ok 0, s) else MemoryStorage.revoke_token_family f w s.
Definition client_swap_refuses : deviation := instead CompareAndSwapClient e u ~~> fun s => (Ok false, s).
Definition client_swap_clobbers : deviation := instead CompareAndSwapClient e u ~~> fun s =>
  if is_some (mi_clients s !! c_client_id u) then (Ok true, snd (MemoryStorage.put_client u s)) else (Ok false, s).
Definition client_swap_upserts : deviation := instead CompareAndSwapClient e u ~~> fun s =>
  if is_some (mi_clients s !! c_client_id u) then MemoryStorage.compare_and_swap_client e u s
  else (Ok true, snd (MemoryStorage.put_client u s)).
Definition code_swap_refuses : deviation := instead CompareAndSwapAuthorizationCode e u ~~> fun s => (Ok false, s).
Definition code_swap_clobbers : deviation := instead CompareAndSwapAuthorizationCode e u ~~> fun s =>
  if is_some (mi_codes s !! ac_code u) then (Ok true, snd (MemoryStorage.put_authorization_code u s)) else (Ok false, s).
Definition code_swap_upserts : deviation := instead CompareAndSwapAuthorizationCode e u ~~> fun s =>
  if is_some (mi_codes s !! ac_code u) then MemoryStorage.compare_and_swap_authorization_code e u s
  else (Ok true, snd (MemoryStorage.put_authorization_code u s)).
Definition consent_swap_refuses : deviation := instead CompareAndSwapConsent e u ~~> fun s => (Ok false, s).
Definition consent_swap_duplicates : deviation := instead CompareAndSwapConsent e u ~~> fun s =>
  match e with
  | None => (Ok true, snd (MemoryStorage.put_consent u s))
  | Some _ => MemoryStorage.compare_and_swap_consent e u s
  end.
Definition consent_swap_upserts : deviation := instead CompareAndSwapConsent e u ~~> fun s =>
  (Ok true, snd (MemoryStorage.put_consent u s)).
End deviants.

(** ** The planted faults *)
Section planted.
#[local] Existing Instances plain_crypto fixture_serde listing_order.
Context `{Debug}.

(** [FUEL] polls are more than the suspensions of any of these stores. *)
Definition FUEL : nat := 5.
Definition two : StorageConformance := with_racers 2 (conformance_new FUEL).

(** A runtime that runs each task to its end when it is handed over: nobody meets anybody. *)
Definition inline_runtime : nat -> list spawn_event := fun _ =>
  repeat (PollTask 0) (S (Z.to_nat GATE_POLL_BUDGET)) ++ [PollTask 1].
(** One that drops a task while it waits at the gate. *)
Definition losing_runtime : nat -> list spawn_event := fun _ => [PollTask 0; DropTask 0; PollTask 1].

Definition planted_faults : list (string * (StorageConformance * Subject MemoryInner)) :=
  let faulty d := (two, deviant d) in
  [ (HARNESS_RACE_SETUP, (with_spawn inline_runtime two, memory));
    (HARNESS_RACER_PANICKED, (with_spawn losing_runtime two, memory));
    (ROUND_TRIP_CLIENT, faulty insert_only_client);
    (ROUND_TRIP_DEVICE_GRANT, faulty drops_interval);
    (ROUND_TRIP_AUTHORIZATION_CODE, faulty drops_code_state);
    (ROUND_TRIP_TOKEN, faulty drops_grant_instant);
    (ROUND_TRIP_REFRESH_TOKEN, faulty drops_refresh_expiry);
    (ATOMIC_TAKE_DEVICE_GRANT, (two, torn));
    (SWAP_APPLIES_ON_MATCH, faulty swap_says_no);
    (SWAP_HONOURS_EXPECTED, faulty swap_ignores_expected);
    (SWAP_NEVER_RESURRECTS, faulty swap_upserts);
    (SWAP_RETIRES_OLD_USER_CODE, faulty swap_keeps_index);
    (SWAP_REFUSES_DUPLICATE_USER_CODE, faulty swap_repoints);
    (ATOMIC_TAKE_REFRESH_TOKEN, (two, torn));
    (ATOMIC_ROTATE_REFRESH_TOKEN, (two, torn));
    (ATOMIC_TAKE_AUTHORIZATION_CODE, (two, torn));
    (INDEX_RETIRES_OLD_USER_CODE, faulty put_keeps_index);
    (INDEX_REFUSES_DUPLICATE_USER_CODE, faulty put_repoints);
    (INDEX_REFUSAL_WRITES_NOTHING, faulty refusal_writes);
    (INDEX_CLEARED_BY_TAKE, faulty take_keeps_grant);
    (INDEX_NO_NORMALIZATION, faulty find_normalizes);
    (SWEEP_REMOVES_DEAD, faulty sweep_does_nothing);
    (SWEEP_KEEPS_LIVE, faulty sweep_takes_all);
    (SWEEP_COUNT, faulty (sweep_miscounts (-1)));
    (SWEEP_EMPTY_IS_ZERO, faulty (sweep_miscounts 1));
    (SWEEP_CONCURRENT_WRITES, (conformance_new FUEL, rebuilding));
    (SWEEP_RECLAIMS_PUSHED_REQUESTS, faulty sweep_keeps_pushed);
    (REVOKE_FAMILY_REMOVES, faulty family_spares_access);
    (REVOKE_FAMILY_SPARES_OTHERS, faulty family_takes_all);
    (REVOKE_FAMILY_COUNT, faulty family_miscounts);
    (DELETE_CLIENT_CASCADES, faulty delete_spares_tokens);
    (DELETE_CLIENT_REPORTS, faulty delete_always_true);
    (DELETE_TOKEN_IDEMPOTENT, faulty delete_token_errs);
    (ATOMIC_CLAIM_REPLAY_ID, (two, torn));
    (CLAIM_REPLAY_ID_REFUSES_SECOND, faulty claims_everything);
    (SWEEP_RECLAIMS_REPLAY_IDS, faulty sweep_keeps_replay_ids);
    (ATOMIC_TAKE_PUSHED_REQUEST, (two, torn));
    (ROUND_TRIP_PUSHED_REQUEST, faulty drops_pushed_challenge);
    (ROUND_TRIP_CONSENT, faulty drops_consent_resource);
    (CONSENTS_FOR_SUBJECT, faulty lists_everyone);
    (REVOKE_CONSENT_CASCADES, faulty withdrawal_spares_refresh);
    (REVOKE_CONSENT_SPARES_OTHERS, faulty withdrawal_takes_all);
    (REVOKE_CONSENT_COUNT, faulty withdrawal_miscounts);
    (BARRIER_REFUSES_TOKEN, faulty token_ignores_barriers);
    (BARRIER_REFUSES_REFRESH, faulty refresh_ignores_barriers);
    (BARRIER_REFUSES_PUSHED_REQUEST, faulty pushed_ignores_barriers);
    (BARRIER_SPARES_UNRELATED, faulty token_minds_any_barrier);
    (BARRIER_ADMITS_A_LATER_GRANT, faulty forgets_instants);
    (BARRIER_REPEAT_REVOCATION_MOVES_IT, faulty last_revocation_wins);
    (BARRIER_SWEPT_AT_DEADLINE, faulty sweep_keeps_barriers);
    (BARRIER_KEPT_BEFORE_DEADLINE, faulty sweep_drops_barriers);
    (REVOCATION_REFUSES_EMPTY_SCOPE, faulty accepts_empty_scope);
    (CLIENT_SWAP_APPLIES, faulty client_swap_refuses);
    (CLIENT_SWAP_HONOURS_EXPECTED, faulty client_swap_clobbers);
    (CLIENT_SWAP_NEVER_RESURRECTS, faulty client_swap_upserts);
    (CLIENT_SWAP_ATOMIC, (two, torn));
    (CODE_SWAP_APPLIES, faulty code_swap_refuses);
    (CODE_SWAP_HONOURS_EXPECTED, faulty code_swap_clobbers);
    (CODE_SWAP_NEVER_RESURRECTS, faulty code_swap_upserts);
    (CODE_SWAP_ATOMIC, (two, torn));
    (CONSENT_SWAP_APPLIES, faulty consent_swap_refuses);
    (CONSENT_SWAP_HONOURS_EXPECTED, faulty consent_swap_duplicates);
    (CONSENT_SWAP_NEVER_RESURRECTS, faulty consent_swap_upserts);
    (CONSENT_SWAP_ATOMIC, (two, torn));
    (SWAP_ATOMIC, (two, torn)) ].

Definition reported (p : string * (StorageConformance * Subject MemoryInner)) : bool :=
  match run_suite (fst (snd p)) (snd (snd p)) with
  | Some vs => existsb (fun v => vi_check v == fst p) vs
  | None => false
  end.

(** *** What is wrong with them *)

(** The store is [MemoryStorage] but for one method. *)
Definition deviates_only_in (method : string) (store : Subject MemoryInner) : Prop :=
  sj_new store = sj_new memory /\
  forall X (op : StoreOp X), op_name op <> method -> sj_call store op = sj_call memory op.

(** The store answers and leaves what [MemoryStorage] would for every call with nothing beside
    it, and goes wrong only when another call comes while it is suspended. *)
Definition suspends_only (store : Subject MemoryInner) : Prop :=
  sj_new store = sj_new memory /\
  forall X (op : StoreOp X) s, await (sj_call store op) s = MemoryStorage.step X op s.

(** The runtime lets the first task run until the gate has given up waiting for the others,
    or drops a task it was handed. *)
Definition keeps_racers_apart (runtime : nat -> list spawn_event) : Prop :=
  (forall n, exists rest, runtime n = repeat (PollTask 0) (S (Z.to_nat GATE_POLL_BUDGET)) ++ rest) \/
  (forall n, exists i, DropTask i ∈ runtime n).

Inductive planted_fault : StorageConformance -> Subject MemoryInner -> Prop :=
| PlantedMethod method store : deviates_only_in method store -> planted_fault two store
| PlantedSuspension suite store : suite = two \/ suite = conformance_new FUEL ->
    suspends_only store -> planted_fault suite store
| PlantedRuntime runtime : keeps_racers_apart runtime -> planted_fault (with_spawn runtime two) memory.

Lemma torn_suspends_only : suspends_only torn.
Proof. split; [done|]. intros X op s. cbn. by destruct (MemoryStorage.step X op s). Qed.
Lemma rebuilding_suspends_only : suspends_only rebuilding.
Proof. split; [done|]. intros X op s. destruct op; cbn -[MemoryStorage.step]; by destruct (MemoryStorage.step _ _ _). Qed.

(** The method a deviation is about is the one at which it is not [None]. *)
Ltac one_method :=
  eapply PlantedMethod; split; [reflexivity|];
  intros X op; destruct op; cbn [op_name]; intros Hop; first [reflexivity | exfalso; apply Hop; reflexivity].

Lemma planted_faults_planted :
  Forall (fun p => planted_fault (fst (snd p)) (snd (snd p))) planted_faults.
Proof.
  unfold planted_faults.
  repeat (apply Forall_cons; split; [cbn [fst snd]|]); [..|by apply Forall_nil].
  all: first
    [ apply PlantedSuspension; [by left|apply torn_suspends_only]
    | apply PlantedSuspension; [by right|apply rebuilding_suspends_only]
    | apply PlantedRuntime; left; intros n; eexists; reflexivity
    | apply PlantedRuntime; right; intros n; exists 0%nat; set_solver
    | one_method ].
Qed.

(** Every check can fail, and one of the faults makes it. *)
Lemma planted_faults_reported :
  map fst planted_faults = CHECKS /\ Forall (fun p => reported p = true) planted_faults.
Proof.
  split; [reflexivity|]. apply Forall_forall. intros p Hp.
  assert (forallb reported planted_faults = true) as Hall by (vm_compute; reflexivity).
  rewrite forallb_forall in Hall. by apply Hall, list_elem_of_In.
Qed.

(** C31. Every published check can fail, and by a fault of one of three kinds.  For each name
    in [CHECKS] there is a store and a runtime on which the suite ends and reports a
    violation under that name, where either the store is [MemoryStorage] in every method
    but one, on every argument; or every call of the store answers and leaves what
    [MemoryStorage] would when nothing runs beside it, and it only suspends between
    deciding and writing; or the store is [MemoryStorage] and the runtime does not let the
    racers meet or drops one.  So no check is vacuous, and what [MemoryStorage] passes is a
    contract with teeth. *)
Theorem every_check_catches_a_fault name : name ∈ CHECKS ->
  exists suite store, planted_fault suite store /\
    exists vs v, run_suite suite store = Some vs /\ v ∈ vs /\ vi_check v = name.
Proof.
  destruct planted_faults_reported as [<- Hrep]. intros ([n [suite store]] & -> & Hin)%list_elem_of_fmap.
  rewrite Forall_forall in Hrep. pose proof planted_faults_planted as Hkind. rewrite Forall_forall in Hkind.
  exists suite, store. split; [exact (Hkind _ Hin)|]. specialize (Hrep _ Hin).
  unfold reported in Hrep. cbn [fst snd] in *. destruct (run_suite suite store) as [vs|]; [|done].
  apply existsb_exists in Hrep as (v & Hv%list_elem_of_In & Hname%bool_decide_eq_true). by exists vs, v.
Qed.

(** ** A deviation the suite does not see *)

(** The RFC 9449 section 10 binding of a code, and of a pushed request, is not stored. *)
Definition drops_code_jkt : deviation := instead PutAuthorizationCode r ~~>
  MemoryStorage.put_authorization_code {|
    ac_code := ac_code r; ac_client_id := ac_client_id r; ac_redirect_uri := ac_redirect_uri r;
    ac_redirect_uri_was_explicit := ac_redirect_uri_was_explicit r; ac_scope := ac_scope r;
    ac_subject := ac_subject r; ac_code_challenge := ac_code_challenge r;
    ac_code_challenge_method := ac_code_challenge_method r; ac_resource := ac_resource r;
    ac_authorization_details := ac_authorization_details r; ac_issued_at := ac_issued_at r;
    ac_expires_at := ac_expires_at r; ac_state := ac_state r; ac_authentication := ac_authentication r;
    ac_dpop_jkt := None |}.
Definition drops_pushed_jkt : deviation := instead PutPushedAuthorizationRequest r ~~>
  MemoryStorage.put_pushed_authorization_request {|
    par_pushed_at := par_pushed_at r; par_request_uri := par_request_uri r; par_client_id := par_client_id r;
    par_response_type := par_response_type r; par_redirect_uri := par_redirect_uri r; par_scope := par_scope r;
    par_state := par_state r; par_code_challenge := par_code_challenge r;
    par_code_challenge_method := par_code_challenge_method r; par_resource := par_resource r;
    par_authorization_details := par_authorization_details r; par_acr_values := par_acr_values r;
    par_max_age := par_max_age r; par_dpop_jkt := None; par_expires_at := par_expires_at r |}.

(** The fixtures carry a [dpop_jkt] so that dropping it would show, but no round trip
    compares it: these stores pass. *)
Lemma dropped_jkt_passes :
  check_storage FUEL (deviant drops_code_jkt) = Some [] /\ check_storage FUEL (deviant drops_pushed_jkt) = Some [].
Proof. split; vm_compute; reflexivity. Qed.
End planted.

(** ** A witness *)
Section witness.
#[local] Existing Instances plain_crypto fixture_serde listing_order.

(** Values printed as nothing. *)
#[local] Instance silent_debug : Debug := fun _ _ => EmptyString.

Lemma every_check_catches_a_fault_witness : SWAP_ATOMIC ∈ CHECKS /\
  exists suite store, planted_fault suite store /\
    exists vs v, run_suite suite store = Some vs /\ v ∈ vs /\ vi_check v = SWAP_ATOMIC.
Proof.
  assert (Hin : SWAP_ATOMIC ∈ CHECKS) by (apply (bool_decide_unpack _); vm_compute; exact I).
  split; [exact Hin|]. exact (every_check_catches_a_fault SWAP_ATOMIC Hin).
Defined.
End witness.
