(* ===== verification/Signers.v ===== *)
(** * The bundled RSA and Ed25519 backends (backends/rsa.rs, backends/ed25519.rs)

    Building a signer from a private key, what it publishes, what it signs, and the two
    RSA verifiers and the Ed25519 one, each with the checks it makes before and after it
    calls its library.  The [rsa] and [ed25519-dalek] crates are parameters.  The P-256
    backend is in [Keys]. *)
From S2P Require Import Prelude Time Codec Scope Types Jws Keys Harness.
Local Open Scope Z_scope.

(** ** RSA *)
Class RsaLib := {
  BigUint : Type;
  big_from_bytes_be : string -> BigUint;
  big_to_bytes_be : BigUint -> string;
  big_bits : BigUint -> Z;
  RsaPrivateKey : Type;
  RsaPublicKey : Type;
  rsa_from_pkcs8_der : string -> option RsaPrivateKey;
  (** [RsaPrivateKey::new], over what the caller's generator answers *)
  rsa_private_new : string -> Z -> option RsaPrivateKey;
  private_n : RsaPrivateKey -> BigUint;
  to_public_key : RsaPrivateKey -> RsaPublicKey;
  rsa_public_new : BigUint -> BigUint -> option RsaPublicKey;
  public_n : RsaPublicKey -> BigUint;
  public_e : RsaPublicKey -> BigUint;
  public_size : RsaPublicKey -> Z;
  (** [pkcs1v15] with SHA-256 *)
  Pkcs1Signature : Type;
  pkcs1_try_sign : RsaPrivateKey -> string -> option Pkcs1Signature;
  pkcs1_to_bytes : Pkcs1Signature -> string;
  pkcs1_try_from : string -> option Pkcs1Signature;
  pkcs1_verify : RsaPublicKey -> string -> Pkcs1Signature -> bool;
  (** [pss] with SHA-256; signing draws its salt *)
  PssSignature : Type;
  pss_try_sign_with_rng : RsaPrivateKey -> string -> string -> option PssSignature;
  pss_to_bytes : PssSignature -> string;
  pss_try_from : string -> option PssSignature;
  pss_verify : RsaPublicKey -> string -> PssSignature -> bool;
}.

Definition MIN_RSA_MODULUS_BITS : Z := 2048.

(** [OsFillRng]: [getrandom::fill] answers a request for bytes, or the process panics
    ([None]). *)
Section os_rng.
Context (getrandom_fill : nat -> option string).

Fixpoint from_le_bytes (b : list ascii) : Z :=
  match b with
  | [] => 0
  | c :: b => Z.of_N (u8 c) + 256 * from_le_bytes b
  end.
Definition os_fill_bytes (len : nat) : option string := getrandom_fill len.
Definition os_next_u32 : option Z := b ← os_fill_bytes 4; Some (from_le_bytes (bytes b)).
Definition os_next_u64 : option Z := b ← os_fill_bytes 8; Some (from_le_bytes (bytes b)).
End os_rng.

Section rsa.
Context `{Crypto, RsaLib}.

Definition rsa_public_jwk (public : RsaPublicKey) (kid : option string) : Jwk :=
  JwkRsa (b64url_encode (big_to_bytes_be (public_n public)))
         (b64url_encode (big_to_bytes_be (public_e public))) kid.

(** *** RS256 *)
Record RsaSigner : Type := { rs_kid : string; rs_signing : RsaPrivateKey; rs_public : RsaPublicKey }.

Definition rs256_from_private_key (kid : string) (private_key : RsaPrivateKey) : result RsaSigner string :=
  let bits := big_bits (private_n private_key) in
  if bits <? MIN_RSA_MODULUS_BITS then
    Err ("RSA modulus is " +:+ display bits +:+ " bits; RS256 requires at least "
         +:+ display MIN_RSA_MODULUS_BITS)
  else
    let public := to_public_key private_key in
    Ok {| rs_kid := kid; rs_signing := private_key; rs_public := public |}.
Definition rs256_from_pkcs8_der (kid der : string) : result RsaSigner string :=
  let? private_key := ok_or (rsa_from_pkcs8_der der) "not a valid PKCS#8 RSA private key" in
  rs256_from_private_key kid private_key.
Definition rs256_generate (kid : string) (bits : Z) (rng : string) : result RsaSigner string :=
  if bits <? MIN_RSA_MODULUS_BITS then
    Err ("refusing to generate a " +:+ display bits +:+ "-bit RSA key; RS256 requires at least "
         +:+ display MIN_RSA_MODULUS_BITS)
  else
    let? private_key := ok_or (rsa_private_new rng bits) "RSA key generation failed" in
    rs256_from_private_key kid private_key.

Definition rs256_public_jwk (self : RsaSigner) : Jwk := rsa_public_jwk (rs_public self) (Some (rs_kid self)).
Definition sign_rs256 (self : RsaSigner) (message : string) : result string string :=
  let? signature := ok_or (pkcs1_try_sign (rs_signing self) message) "RSA signing failed" in
  Ok (pkcs1_to_bytes signature).

(** [impl JwsSigner for RsaSigner] *)
Definition rs256_signer (self : RsaSigner) : JwsSigner :=
  {| sg_alg := Rs256; sg_public_jwk := rs256_public_jwk self |}.
Definition rs256_sign (self : RsaSigner) (input : string) : result JwsSignature string :=
  let? s := sign_rs256 self input in Ok (SigRs256 s).

Definition verify_rs256 (key : Jwk) (input sig : string) : bool :=
  match key with
  | JwkRsa n e _ =>
      match b64url_decode n, b64url_decode e with
      | Some n_bytes, Some e_bytes =>
          if str_is_empty n_bytes || str_is_empty e_bytes then false
          else
            let n_int := big_from_bytes_be n_bytes in
            let e_int := big_from_bytes_be e_bytes in
            match rsa_public_new n_int e_int with
            | None => false
            | Some public =>
                if big_bits (public_n public) <? MIN_RSA_MODULUS_BITS then false
                else if negb (Z.of_nat (str_len sig) =? public_size public) then false
                else match pkcs1_try_from sig with
                     | None => false
                     | Some signature => pkcs1_verify public input signature
                     end
            end
      | _, _ => false
      end
  | _ => false
  end.
Definition RsaVerifier : JwsVerifier := {| jv_alg := Rs256; jv_verify := verify_rs256 |}.

(** *** PS256 *)
Record Ps256Signer : Type := { ps_kid : string; ps_signing : RsaPrivateKey; ps_public : RsaPublicKey }.

Definition ps256_from_private_key (kid : string) (private_key : RsaPrivateKey) : result Ps256Signer string :=
  let bits := big_bits (private_n private_key) in
  if bits <? MIN_RSA_MODULUS_BITS then
    Err ("RSA modulus is " +:+ display bits +:+ " bits; PS256 requires at least "
         +:+ display MIN_RSA_MODULUS_BITS)
  else
    let public := to_public_key private_key in
    Ok {| ps_kid := kid; ps_signing := private_key; ps_public := public |}.
Definition ps256_from_pkcs8_der (kid der : string) : result Ps256Signer string :=
  let? private_key := ok_or (rsa_from_pkcs8_der der) "not a valid PKCS#8 RSA private key" in
  ps256_from_private_key kid private_key.
Definition ps256_generate (kid : string) (bits : Z) (rng : string) : result Ps256Signer string :=
  if bits <? MIN_RSA_MODULUS_BITS then
    Err ("refusing to generate a " +:+ display bits +:+ "-bit RSA key; PS256 requires at least "
         +:+ display MIN_RSA_MODULUS_BITS)
  else
    let? private_key := ok_or (rsa_private_new rng bits) "RSA key generation failed" in
    ps256_from_private_key kid private_key.

Definition ps256_public_jwk (self : Ps256Signer) : Jwk := rsa_public_jwk (ps_public self) (Some (ps_kid self)).

(** [salt]: what the operating system answers for the salt. *)
Definition sign_ps256 (self : Ps256Signer) (salt message : string) : result string string :=
  let? signature := ok_or (pss_try_sign_with_rng (ps_signing self) salt message) "RSA-PSS signing failed" in
  Ok (pss_to_bytes signature).

(** [impl JwsSigner for Ps256Signer] *)
Definition ps256_signer (self : Ps256Signer) : JwsSigner :=
  {| sg_alg := Ps256; sg_public_jwk := ps256_public_jwk self |}.
Definition ps256_sign (self : Ps256Signer) (salt input : string) : result JwsSignature string :=
  let? s := sign_ps256 self salt input in Ok (SigPs256 s).

Definition verify_ps256 (key : Jwk) (input sig : string) : bool :=
  match key with
  | JwkRsa n e _ =>
      match b64url_decode n, b64url_decode e with
      | Some n_bytes, Some e_bytes =>
          if str_is_empty n_bytes || str_is_empty e_bytes then false
          else
            let n_int := big_from_bytes_be n_bytes in
            let e_int := big_from_bytes_be e_bytes in
            match rsa_public_new n_int e_int with
            | None => false
            | Some public =>
                if big_bits (public_n public) <? MIN_RSA_MODULUS_BITS then false
                else if negb (Z.of_nat (str_len sig) =? public_size public) then false
                else match pss_try_from sig with
                     | None => false
                     | Some signature => pss_verify public input signature
                     end
            end
      | _, _ => false
      end
  | _ => false
  end.
Definition Ps256Verifier : JwsVerifier := {| jv_alg := Ps256; jv_verify := verify_ps256 |}.
End rsa.

(** ** Ed25519 *)
Class Ed25519Lib := {
  EdSigningKey : Type;
  EdVerifyingKey : Type;
  ed_from_bytes : string -> EdSigningKey;
  ed_from_pkcs8_der : string -> option EdSigningKey;
  ed_verifying_key : EdSigningKey -> EdVerifyingKey;
  ed_to_bytes : EdVerifyingKey -> string;
  ed_key_from_bytes : string -> option EdVerifyingKey;
  (** a signature is its 64 bytes *)
  ed_sign : EdSigningKey -> string -> string;
  ed_verify_strict : EdVerifyingKey -> string -> string -> bool;
}.

Definition ED25519_KEY_LEN : nat := 32.
Definition ED25519_SIG_LEN : nat := 64.

Section ed25519.
Context `{Crypto, Ed25519Lib}.

Record Ed25519Signer : Type := { ed_kid : string; ed_signing : EdSigningKey }.

Definition ed25519_from_seed_bytes (kid seed : string) : result Ed25519Signer string :=
  if negb (Nat.eqb (str_len seed) ED25519_KEY_LEN) then Err "an Ed25519 private seed is exactly 32 bytes"
  else Ok {| ed_kid := kid; ed_signing := ed_from_bytes seed |}.
Definition ed25519_from_pkcs8_der (kid der : string) : result Ed25519Signer string :=
  let? signing := ok_or (ed_from_pkcs8_der der) "not a valid PKCS#8 Ed25519 private key" in
  Ok {| ed_kid := kid; ed_signing := signing |}.

Definition ed25519_public_x (self : Ed25519Signer) : string :=
  b64url_encode (ed_to_bytes (ed_verifying_key (ed_signing self))).
Definition ed25519_public_jwk (self : Ed25519Signer) : Jwk :=
  JwkOkp Ed25519 (ed25519_public_x self) (Some (ed_kid self)).
Definition sign_ed25519 (self : Ed25519Signer) (signing_input : string) : string :=
  ed_sign (ed_signing self) signing_input.

(** [impl PartialEq for Ed25519Signer]: the public halves are compared *)
Definition ed25519_eq (self other : Ed25519Signer) : bool :=
  (ed_kid self == ed_kid other)
  && (ed_to_bytes (ed_verifying_key (ed_signing self)) == ed_to_bytes (ed_verifying_key (ed_signing other))).

(** [impl JwsSigner for Ed25519Signer] *)
Definition ed25519_signer (self : Ed25519Signer) : JwsSigner :=
  {| sg_alg := EdDsa; sg_public_jwk := ed25519_public_jwk self |}.
Definition ed25519_sign (self : Ed25519Signer) (signing_input : string) : result JwsSignature string :=
  Ok (SigEdDsa (sign_ed25519 self signing_input)).

Definition verify_ed25519 (x_b64 signing_input signature : string) : bool :=
  if negb (Nat.eqb (str_len signature) ED25519_SIG_LEN) then false
  else match b64url_decode x_b64 with
       | None => false
       | Some x_bytes =>
           if negb (Nat.eqb (str_len x_bytes) ED25519_KEY_LEN) then false
           else match ed_key_from_bytes x_bytes with
                | None => false
                | Some verifying_key => ed_verify_strict verifying_key signing_input signature
                end
       end.
Definition verify_eddsa (key : Jwk) (signing_input signature : string) : bool :=
  match key with
  | JwkOkp Ed25519 x _ => verify_ed25519 x signing_input signature
  | _ => false
  end.
Definition Ed25519Verifier : JwsVerifier := {| jv_alg := EdDsa; jv_verify := verify_eddsa |}.
End ed25519.
