(* ===== verification/SignerSuite.v ===== *)
(** * The signer conformance suite (signer_conformance.rs)

    What a host runs against its own signer and verifier: known-answer vectors, inputs that
    must be refused, and the signer checked with the verifier under test.  The host's two
    objects may remember things between calls and may panic: a call goes through the state
    [W] they share, and answers [None] for a panic.  A panic of the harness itself (an
    index, a fixture that does not decode) is [None] for the run. *)
From S2P Require Import Prelude Time Codec Scope Types Jws Keys Par Harness.
Local Open Scope Z_scope.

Record SignerViolation : Type := { sv_check : string; sv_detail : string }.
#[global] Instance SignerViolation_eq_dec : EqDecision SignerViolation. Proof. solve_decision. Defined.
#[global] Instance display_SignerViolation : Display SignerViolation :=
  fun v => sv_check v +:+ ": " +:+ sv_detail v.

(** ** The names of the checks *)
Definition VERIFIER_RFC7515_A3 : string := "verifier/rfc7515_appendix_a3_vector".
Definition VERIFIER_REJECTS_A_FOREIGN_KEY : string := "verifier/rejects_a_foreign_key".
Definition VERIFIER_REJECTS_A_TAMPERED_INPUT : string := "verifier/rejects_a_tampered_signing_input".
Definition VERIFIER_REJECTS_A_TAMPERED_SIGNATURE : string := "verifier/rejects_a_tampered_signature".
Definition VERIFIER_REJECTS_DER : string := "verifier/rejects_the_der_encoding".
Definition VERIFIER_REJECTS_A_WRONG_LENGTH_SIGNATURE : string := "verifier/rejects_a_wrong_length_signature".
Definition VERIFIER_DOES_NOT_PANIC : string := "verifier/does_not_panic".
Definition SIGNER_SIGNS : string := "signer/signs".
Definition SIGNER_DOES_NOT_PANIC : string := "signer/does_not_panic".
Definition SIGNER_IS_NOT_DER : string := "signer/output_is_not_der".
Definition SIGNER_VERIFIES_UNDER_ITS_OWN_JWK : string := "signer/verifies_under_its_own_public_jwk".
Definition SIGNER_REJECTED_BY_ANOTHER_KEY : string := "signer/does_not_verify_under_another_key".
Definition SIGNER_BINDS_THE_SIGNING_INPUT : string := "signer/binds_the_signing_input".
Definition SIGNER_PUBLIC_JWK_IS_STABLE : string := "signer/public_jwk_is_stable".
Definition SIGNER_PUBLIC_JWK_IS_ES256 : string := "signer/public_jwk_is_an_es256_p256_key".
Definition SIGNER_PUBLIC_JWK_HAS_A_KID : string := "signer/public_jwk_has_a_kid".
Definition SIGNER_IS_NOT_THE_PUBLISHED_EXAMPLE_KEY : string := "signer/is_not_the_published_example_key".

Definition SIGNER_CHECKS : list string := [
  VERIFIER_RFC7515_A3; VERIFIER_REJECTS_A_FOREIGN_KEY; VERIFIER_REJECTS_A_TAMPERED_INPUT;
  VERIFIER_REJECTS_A_TAMPERED_SIGNATURE; VERIFIER_REJECTS_DER;
  VERIFIER_REJECTS_A_WRONG_LENGTH_SIGNATURE; VERIFIER_DOES_NOT_PANIC; SIGNER_SIGNS;
  SIGNER_DOES_NOT_PANIC; SIGNER_IS_NOT_DER; SIGNER_VERIFIES_UNDER_ITS_OWN_JWK;
  SIGNER_REJECTED_BY_ANOTHER_KEY; SIGNER_BINDS_THE_SIGNING_INPUT; SIGNER_PUBLIC_JWK_IS_STABLE;
  SIGNER_PUBLIC_JWK_IS_ES256; SIGNER_PUBLIC_JWK_HAS_A_KID; SIGNER_IS_NOT_THE_PUBLISHED_EXAMPLE_KEY
].

(** ** Vectors *)
Definition A3_SIGNING_INPUT : string := "eyJhbGciOiJFUzI1NiJ9" +:+ "." +:+ "eyJpc3MiOiJqb2UiLA0KICJleHAiOjEzMDA4MTkzODAsDQogImh0dHA6Ly9leGFtcGxlLmNvbS9pc19yb290Ijp0cnVlfQ".
Definition A3_X : string := "f83OJ3D2xF1Bg8vub9tLe1gHMzV76e8Tus9uPHvRVEU".
Definition A3_Y : string := "x_FEzRu9m36HLN_tue659LNpXW6pCyStikYjKIWI5a0".
Definition A3_SIGNATURE : string := "DtEhU3ljbEg8L38VWAfUAqOyKAM6-Xx-F4GawxaepmXFCgfTjDxw5djxLa8ISlSApmWQxfKTUJqPP3-Kg6NU1Q".
Definition LEADING_ZERO_X : string := "WRq3ceu8_W2cuQlNEGUordGmnUTCwfYn8InsWLnGGt8".
Definition LEADING_ZERO_Y : string := "n05qvw0EXAxpOjxorXyXynK-ZN70om_s0mPdmKkngPA".
Definition LEADING_ZERO_INPUT : string := "oauth-as.signer-conformance.leading-zero.250".
Definition LEADING_ZERO_SIGNATURE : string := "ABYodUnuRFUgxNDUB00nlZCrb6c1obObltfhhXjcK115K8XgwahkHOzKfoLF_A_RxR9Oj31_WVjYyXl7-xEuTg".
Definition OTHER_X : string := "MKBCTNIcKUSDii11ySs3526iDZ8AiTo7Tu6KPAqv7D4".
Definition OTHER_Y : string := "4Etl6SRW2YiLUrN5vfvVHuhp7x8PxltmWWlbbM4IFyM".
Definition OFF_CURVE_X : string := A3_X.
Definition OFF_CURVE_Y : string := "x_FEzRu9m36HLN_tue659LNpXW6pCyStikYjKIWI5a4".
Definition INPUT_A : string := "oauth-as.signer-conformance.a".
Definition INPUT_B : string := "oauth-as.signer-conformance.b".
Definition A2_SIGNING_INPUT : string := "eyJhbGciOiJSUzI1NiJ9" +:+ "." +:+ "eyJpc3MiOiJqb2UiLA0KICJleHAiOjEzMDA4MTkzODAsDQogImh0dHA6Ly9leGFtcGxlLmNvbS9pc19yb290Ijp0cnVlfQ".
Definition A2_N : string := "ofgWCuLjybRlzo0tZWJjNiuSfb4p4fAkd_wWJcyQoTbji9k0l8W26mPddxHmfHQp-Vaw-4qPCJrcS2mJPMEzP1Pt0Bm4d4QlL-yRT-SFd2lZS-pCgNMsD1W_YpRPEwOWvG6b32690r2jZ47soMZo9wGzjb_7OMg0LOL-bSf63kpaSHSXndS5z5rexMdbBYUsLA9e-KXBdQOS-UTo7WTBEMa2R2CapHg665xsmtdVMTBQY4uDZlxvb3qCo5ZwKh9kG4LT6_I5IhlJH7aGhyxXFvUK-DWNmoudF8NAco9_h9iaGNj8q2ethFkMLs91kzk2PAcDTW9gb54h4FRWyuXpoQ".
Definition RSA_E : string := "AQAB".
Definition A2_SIGNATURE : string := "cC4hiUPoj9Eetdgtv3hF80EGrhuB__dzERat0XF9g2VtQgr9PJbu3XOiZj5RZmh7AAuHIm4Bh-0Qc_lF5YKt_O8W2Fp5jujGbds9uJdbF9CUAr7t1dnZcAcQjbKBYNX4BAynRFdiuB--f_nZLgrnbyTyWzO75vRK5h6xBArLIARNPvkSjtQBMHlb1L07Qe7K0GarZRmB_eSN9383LcOLn6_dO--xi12jzDwusC-eOkHWEsqtFZESc6BfI7noOPqvhJ1phCnvWh6IeYI2w9QOYEUipUTI8np6LbgGY9Fs98rqVt5AXLIhWkWywlVmtVrBp0igcN_IoypGlUPQGe77Rw".
Definition PS256_A2_SIGNATURE : string := "VPsxqpmiWCZjFcc9Oid-KEUsg3LR7ewNlohr2ZUUkpc63KZW4yJrYHZzSQn2jpMZRLrGB-A-SUU5R3_wzfH6upgpN3RorvmZc91E8aZWJqj0hu151XRTxvIO4Cnma8Qi1cFP6cftLOPs49aXP9OEzzZvmpBXWE0FTWIHLA0gKF9kZNX3xavVfR6owwN1-n6ZcC6SUwgthYdbTlME71p6IvtfBKS4JltoPYJKOQgEls44RomWn-RbpKEkD3Y1okxFZajveVNR7oXLQ_6WBPtY__L2Pfd365OVzcurpvXIcJs1EbeSorecaaIVHyeBBmWej2Gfi-2P-NNvCot3aUhdKA".
Definition OTHER_RSA_N : string := "4-QFArXj8EHf7YtUPQelHj3thYoTF0_9V1onh-E-UeHXjJoFS1Mfw_LKNhJD_lwHdefGCSdVuMGtFeXUNtN0XTA9_Z4Q2YSS0mVo_HM25e_phlKkk6Nxy7JfmSnto0O-enYCSIJx4MJ2NOqvpZrv0C8HRSilH5PJ9b82jnxV4n2153xQsTNBIVc5N9McB3TIF1zYh3O3h1fGfP3JsR6qLQerehoJc8FQ9bD_0y2CEpHLaeYn6qgv279-dQo-wuw3Xsj8loaqZW0WPyhjE9TZsaMM9SR3J7RBUf2fKvqki7tgIuiZQ7J0XeJ3rdsPsmF1hP7Muvre1MtPmeC_7VDlKQ".
Definition A4_SIGNING_INPUT : string := "eyJhbGciOiJFZERTQSJ9.RXhhbXBsZSBvZiBFZDI1NTE5IHNpZ25pbmc".
Definition A4_X : string := "11qYAYKxCrfVS_7TyWQHOg7hcvPapiMlrwIaaPcHURo".
Definition A4_SIGNATURE : string := "hgyY0il_MGCjP0JzlnLWG1PPOt7-09PGcvMg3AIbQR6dWbhijcNR4ki4iylGjg5BhVsPt9g7sVvpAr_MuM0KAg".
Definition OTHER_OKP_X : string := "PUAXw-hDiVqStwqnTRt-vJyYLM8uxJaMwM1V8Sr0Zgw".

(** ** Bytes *)
Definition slice_to (n : nat) (s : string) : option string := then_some (Nat.leb n (str_len s)) (take_str n s).
Definition slice_from (n : nat) (s : string) : option string := then_some (Nat.leb n (str_len s)) (drop_str n s).

(** [s[i] ^= 0x01] *)
Definition flip (i : nat) (s : string) : option string :=
  c ← bytes s !! i; Some (of_bytes (<[i := xor_byte c "001"%char]> (bytes s))).
(** [s[s.len() - 1] ^= 0x01] *)
Definition flip_last (s : string) : option string :=
  match str_len s with O => None | S last => flip last s end.

Fixpoint first_nonzero (l : list ascii) : option nat :=
  match l with
  | [] => None
  | b :: l => if negb (u8 b =? 0)%N then Some O else S <$> first_nonzero l
  end.

(** A length [as u8] *)
Definition len_u8 (n : nat) : string := byte (N.of_nat n mod 256).

Definition der_integer (value : string) : option string :=
  match str_len value with
  | O => None
  | S last =>
      let start := unwrap_or (first_nonzero (bytes value)) last in
      let body := drop_str start value in
      first ← bytes body !! 0%nat;
      let pad := negb (N.land (u8 first) 128 =? 0)%N in
      Some (byte 2 +:+ len_u8 (str_len body + if pad then 1 else 0)
            +:+ (if pad then byte 0 else "") +:+ body)
  end.
Definition der (fixed_width : string) : option string :=
  r ← slice_to 32 fixed_width; r ← der_integer r;
  s ← slice_from 32 fixed_width; s ← der_integer s;
  let body := r +:+ s in
  Some (byte 48 +:+ len_u8 (str_len body) +:+ body).

(** ** The host's objects *)
Record HostSigner (W : Type) : Type := {
  hs_alg : W -> JwsAlg * W;
  hs_public_jwk : W -> Jwk * W;
  hs_sign : string -> W -> option (result JwsSignature string) * W;
}.
Arguments hs_alg {W} _.
Arguments hs_public_jwk {W} _.
Arguments hs_sign {W} _.
Record HostVerifier (W : Type) : Type := { hv_verify : Jwk -> string -> string -> W -> option bool * W }.
Arguments hv_verify {W} _.

Record SignerConformance (W : Type) : Type := { sc_signer : HostSigner W; sc_verifier : HostVerifier W }.
Arguments sc_signer {W} _.
Arguments sc_verifier {W} _.
Definition signer_conformance_new {W} (signer : HostSigner W) (verifier : HostVerifier W) : SignerConformance W :=
  {| sc_signer := signer; sc_verifier := verifier |}.

(** The run so far: what the host's objects hold, and [out]. *)
Record bench (W : Type) : Type := Bench { be_host : W; be_out : list SignerViolation }.
Arguments Bench {W} be_host be_out.
Arguments be_host {W} _.
Arguments be_out {W} _.

Definition step (W A : Type) : Type := bench W -> option (A * bench W).
Definition done_ {W A} (a : A) : step W A := fun b => Some (a, b).
Definition next_ {W A B} (m : step W A) (f : A -> step W B) : step W B :=
  fun b => match m b with Some (a, b') => f a b' | None => None end.
Notation "'let!' x ':=' m 'in' k" := (next_ m (fun x => k))
  (at level 200, x binder, m at level 100, k at level 200).
Notation "m ;! k" := (next_ m (fun _ => k)) (at level 100, right associativity).
Definition expect {W A} (o : option A) : step W A :=
  fun b => match o with Some a => Some (a, b) | None => None end.
Definition push {W} (c d : string) : step W unit :=
  fun b => Some (tt, Bench (be_host b) (be_out b ++ [{| sv_check := c; sv_detail := d |}])).
Definition unless {W} (fine : bool) (m : step W unit) : step W unit := if fine then done_ tt else m.

Section suite.
Context `{Crypto, Debug} {W : Type} (self : SignerConformance W).

(** [jwk] and [decode], whose [expect] is the harness's own panic *)
Definition vector_jwk (x y : string) : step W Jwk :=
  expect (match jwk_from_coordinates x y with Ok k => Some k | Err _ => None end).
Definition vector_decode (b64 : string) : step W string := expect (b64url_decode b64).

Definition rsa_jwk (n : string) : Jwk := JwkRsa n RSA_E None.
Definition okp_jwk (x : string) : Jwk := JwkOkp Ed25519 x None.

Record AlgProfile : Type := {
  ap_signing_input : string; ap_vector_key : Jwk; ap_vector_signature : string; ap_foreign_key : Jwk }.

Definition alg_profile (alg : JwsAlg) : step W AlgProfile :=
  match alg with
  | Es256 =>
      let! k := vector_jwk A3_X A3_Y in
      let! s := vector_decode A3_SIGNATURE in
      let! f := vector_jwk OTHER_X OTHER_Y in
      done_ {| ap_signing_input := A3_SIGNING_INPUT; ap_vector_key := k; ap_vector_signature := s;
               ap_foreign_key := f |}
  | Rs256 =>
      let! s := vector_decode A2_SIGNATURE in
      done_ {| ap_signing_input := A2_SIGNING_INPUT; ap_vector_key := rsa_jwk A2_N;
               ap_vector_signature := s; ap_foreign_key := rsa_jwk OTHER_RSA_N |}
  | EdDsa =>
      let! s := vector_decode A4_SIGNATURE in
      done_ {| ap_signing_input := A4_SIGNING_INPUT; ap_vector_key := okp_jwk A4_X;
               ap_vector_signature := s; ap_foreign_key := okp_jwk OTHER_OKP_X |}
  | Ps256 =>
      let! s := vector_decode PS256_A2_SIGNATURE in
      done_ {| ap_signing_input := A2_SIGNING_INPUT; ap_vector_key := rsa_jwk A2_N;
               ap_vector_signature := s; ap_foreign_key := rsa_jwk OTHER_RSA_N |}
  end.

(** [self.signer.alg()] and [self.signer.public_jwk()] *)
Definition signer_alg : step W JwsAlg :=
  fun b => let (a, w) := hs_alg (sc_signer self) (be_host b) in Some (a, Bench w (be_out b)).
Definition signer_public_jwk : step W Jwk :=
  fun b => let (k, w) := hs_public_jwk (sc_signer self) (be_host b) in Some (k, Bench w (be_out b)).

Definition verifier_panicked (context signing_input signature : string) : string :=
  "the verifier PANICKED on " +:+ context +:+ " (" +:+ display (str_len signature) +:+ " signature bytes, "
  +:+ display (str_len signing_input) +:+ (" signing-input bytes). `signature` is the third segment of a JWS an unauthenticated "
    +:+ "client sent, base64url-decoded, and nothing checks its length before you see it: "
    +:+ "`signature[..64]` and `Signature::from_slice(&signature[..64])` both panic on the "
    +:+ "empty slice a token ending in a bare '.' produces. Test the length, or use "
    +:+ "`signature.try_into()` into a [u8; 64]. `key` is no safer: its coordinates are "
    +:+ "width-checked and NOT curve-checked, so "
    +:+ "`VerifyingKey::from_sec1_bytes(&sec1).unwrap()` panics on the jwk of a DPoP proof "
    +:+ "anyone can send. Every input must return false instead").

(** [SignerConformance::verify]: a panic is reported once and counts as a refusal. *)
Definition try_verify (context : string) (key : Jwk) (signing_input signature : string) : step W bool := fun b =>
  let (called, w) := hv_verify (sc_verifier self) key signing_input signature (be_host b) in
  match called with
  | Some verified => Some (verified, Bench w (be_out b))
  | None =>
      (unless (existsb (fun v => sv_check v == VERIFIER_DOES_NOT_PANIC) (be_out b))
         (push VERIFIER_DOES_NOT_PANIC (verifier_panicked context signing_input signature));!
       done_ false) (Bench w (be_out b))
  end.

Fixpoint wrong_length_cases (cases : list (string * Jwk * string * string)) : step W unit :=
  match cases with
  | [] => done_ tt
  | (description, case_key, case_input, wrong) :: cases =>
      let! verified := try_verify ("a wrong-length signature of " +:+ description) case_key case_input wrong in
      unless (negb verified) (push VERIFIER_REJECTS_A_WRONG_LENGTH_SIGNATURE
        ("a signature of " +:+ description +:+ (" VERIFIED. RFC 7518 s3.4 fixes the ES256 signature at exactly 64 bytes of "
    +:+ "fixed-width R || S, so anything else must be false. A verifier that pads a short "
    +:+ "input up to 64, or that reads a 64-byte prefix and ignores the rest, gives a valid "
    +:+ "signature many spellings and accepts values the signer never produced")));!
      wrong_length_cases cases
  end.

Definition check_wrong_length_signatures (key : Jwk) (signature : string) : step W unit :=
  let too_long := signature +:+ byte 0 in
  let! padding_key := vector_jwk LEADING_ZERO_X LEADING_ZERO_Y in
  let! leading_zero := vector_decode LEADING_ZERO_SIGNATURE in
  let a3 := A3_SIGNING_INPUT in
  let! one := expect (slice_to 1 signature) in
  let! half := expect (slice_to 32 signature) in
  let! short := expect (slice_to 63 signature) in
  let! unpadded := expect (slice_from 1 leading_zero) in
  wrong_length_cases [
    ("0 bytes (an empty third JWS segment)", key, a3, "");
    ("1 byte", key, a3, one);
    ("32 bytes (R alone, S missing)", key, a3, half);
    ("63 bytes (a valid signature, truncated by one)", key, a3, short);
    (("63 bytes (a valid signature with its LEADING ZERO byte removed, which a verifier "
    +:+ "that left-pads back up to 64 reconstructs exactly)"), padding_key, LEADING_ZERO_INPUT, unpadded);
    ("65 bytes (a valid signature plus a trailing zero)", key, a3, too_long)].

Definition check_verifier : step W unit :=
  let! key := vector_jwk A3_X A3_Y in
  let! signature := vector_decode A3_SIGNATURE in
  let! verified := try_verify "the RFC 7515 A.3 vector" key A3_SIGNING_INPUT signature in
  unless verified (push VERIFIER_RFC7515_A3 ("the RFC 7515 appendix A.3 ES256 vector did not verify. Either the verifier is not "
    +:+ "ES256 (ECDSA/P-256/SHA-256), or it expects a signature encoding other than the "
    +:+ "64-byte fixed-width R || S of RFC 7518 s3.4"));!
  let! foreign := vector_jwk OTHER_X OTHER_Y in
  let! verified := try_verify "the A.3 vector under a foreign key" foreign A3_SIGNING_INPUT signature in
  unless (negb verified) (push VERIFIER_REJECTS_A_FOREIGN_KEY ("a valid signature verified under a DIFFERENT public key. The verifier is not using "
    +:+ "the key it was given, so every signature verifies under every key and no token is "
    +:+ "bound to any issuer"));!
  let! tampered := expect (flip_last A3_SIGNING_INPUT) in
  let! verified := try_verify "a tampered signing input" key tampered signature in
  unless (negb verified) (push VERIFIER_REJECTS_A_TAMPERED_INPUT ("a signature verified over a signing input that was not the one signed. The verifier "
    +:+ "is not covering the whole message, so a token's claims can be edited without "
    +:+ "invalidating it"));!
  let! bad_signature := expect (flip 0 signature) in
  let! verified := try_verify "a byte-flipped signature" key A3_SIGNING_INPUT bad_signature in
  unless (negb verified) (push VERIFIER_REJECTS_A_TAMPERED_SIGNATURE ("a corrupted signature verified. The verifier is not checking the signature at all, "
    +:+ "which makes every unsigned token a valid one"));!
  let! as_der := expect (der signature) in
  let! verified := try_verify "the DER re-encoding of a valid signature" key A3_SIGNING_INPUT as_der in
  unless (negb verified) (push VERIFIER_REJECTS_DER ("the ASN.1 DER encoding of a valid signature verified. RFC 7518 s3.4 fixes ES256 as "
    +:+ "the 64-byte fixed-width R || S and admits no other encoding; accepting both gives "
    +:+ "one signature two forms"));!
  let! off_curve := vector_jwk OFF_CURVE_X OFF_CURVE_Y in
  let! verified := try_verify "an OFF-CURVE key of the correct coordinate width" off_curve A3_SIGNING_INPUT signature in
  unless (negb verified) (push VERIFIER_REJECTS_A_FOREIGN_KEY ("a signature verified under coordinates that are NOT a point on P-256. Jwk only "
    +:+ "width-checks the coordinates, so the curve check is the verifier's, and it is what "
    +:+ "an invalid-curve attack needs to find missing"));!
  let! verified := try_verify "an EMPTY signing input" key "" signature in
  unless (negb verified) (push VERIFIER_REJECTS_A_TAMPERED_INPUT ("a valid 64-byte signature verified over an EMPTY signing input. The verifier is not "
    +:+ "hashing the message it was handed, so a signature made over one token is good for "
    +:+ "every other"));!
  check_wrong_length_signatures key signature.

Fixpoint generic_length_cases (alg : string) (key : Jwk) (input : string) (cases : list (string * string))
    : step W unit :=
  match cases with
  | [] => done_ tt
  | (description, wrong) :: cases =>
      let! verified := try_verify ("a wrong-length signature: " +:+ description) key input wrong in
      unless (negb verified) (push VERIFIER_REJECTS_A_WRONG_LENGTH_SIGNATURE
        ("a signature of " +:+ description +:+ " VERIFIED. A " +:+ alg +:+ (" signature has one width (64 bytes for EdDSA; the RSA modulus length for RS256), so "
    +:+ "anything else must be false")));!
      generic_length_cases alg key input cases
  end.

Definition check_verifier_generic (profile : AlgProfile) : step W unit :=
  let key := ap_vector_key profile in
  let signature := ap_vector_signature profile in
  let input := ap_signing_input profile in
  let! a := signer_alg in
  let alg := jose_name a in
  let! verified := try_verify "the published RFC known-answer vector" key input signature in
  unless verified (push VERIFIER_RFC7515_A3
    ("the published " +:+ alg +:+ " RFC known-answer vector did not verify. Either the verifier is not " +:+ alg +:+ ", or it expects a signature encoding this crate does not produce"));!
  let! verified := try_verify "the vector under a foreign key" (ap_foreign_key profile) input signature in
  unless (negb verified) (push VERIFIER_REJECTS_A_FOREIGN_KEY ("a valid signature verified under a DIFFERENT public key of the same kind. The "
    +:+ "verifier is not using the key it was given, so no token is bound to any issuer"));!
  let! tampered := expect (flip_last input) in
  let! verified := try_verify "a tampered signing input" key tampered signature in
  unless (negb verified) (push VERIFIER_REJECTS_A_TAMPERED_INPUT ("a signature verified over a signing input that was not the one signed. The verifier "
    +:+ "is not covering the whole message, so a token's claims can be edited without "
    +:+ "invalidating it"));!
  let! bad_signature := expect (flip 0 signature) in
  let! verified := try_verify "a byte-flipped signature" key input bad_signature in
  unless (negb verified) (push VERIFIER_REJECTS_A_TAMPERED_SIGNATURE ("a corrupted signature verified. The verifier is not checking the signature at all, "
    +:+ "which makes every unsigned token a valid one"));!
  let! verified := try_verify "an EMPTY signing input" key "" signature in
  unless (negb verified) (push VERIFIER_REJECTS_A_TAMPERED_INPUT ("a valid signature verified over an EMPTY signing input. The verifier is not hashing "
    +:+ "the message it was handed, so a signature made over one token is good for every "
    +:+ "other"));!
  let too_long := signature +:+ byte 0 in
  let! truncated := expect (slice_to (str_len signature - 1) signature) in
  generic_length_cases alg key input [
    ("0 bytes (an empty third JWS segment)", "");
    ("the valid signature truncated by one byte", truncated);
    ("the valid signature with a trailing zero byte", too_long)].

(** [SignerConformance::sign], with [SignerError] as its message *)
Definition try_sign_with (context signing_input : string) : step W (result string string) := fun b =>
  let (signed, w) := hs_sign (sc_signer self) signing_input (be_host b) in
  match signed with
  | Some (Ok signature) => Some (Ok (signature_bytes signature), Bench w (be_out b))
  | Some (Err e) => Some (Err e, Bench w (be_out b))
  | None =>
      (push SIGNER_DOES_NOT_PANIC
         ("the signer PANICKED while signing " +:+ context +:+ " (" +:+ display (str_len signing_input)
          +:+ (" signing-input bytes). Every failure you can have (the KMS was unreachable, the key "
    +:+ "was disabled, the credential expired, the response was the wrong length or the "
    +:+ "wrong encoding) is an Err(SignerError), which this crate turns into an RFC 6749 "
    +:+ "s5.2 server_error. A panic instead unwinds into the host's token endpoint, and the "
    +:+ "deployment loses more than the one request"));!
       done_ (Err "the signer panicked")) (Bench w (be_out b))
  end.
Definition signer_error (e : string) : string := "signer error: " +:+ e.

Definition check_32_byte_coordinate (name value : string) : list string :=
  match b64url_decode value with
  | Some b =>
      if Nat.eqb (str_len b) 32 then []
      else [name +:+ " decodes to " +:+ display (str_len b) +:+ " bytes, must be exactly 32 with leading zeros kept"]
  | None => [name +:+ " is not unpadded base64url"]
  end.
Definition check_uint (name value : string) : list string :=
  match b64url_decode value with
  | Some b => if negb (str_is_empty b) then [] else [name +:+ " is not a non-empty base64urlUInt (RFC 7518 s6.3.1)"]
  | None => [name +:+ " is not a non-empty base64urlUInt (RFC 7518 s6.3.1)"]
  end.

Definition check_published_key (published : Jwk) : step W unit :=
  let! alg := signer_alg in
  let kind :=
    if jwk_key_kind published != alg_key_kind alg then
      ["public_jwk() is a " +:+ debug (jwk_key_kind published) +:+ " key but the signer's algorithm "
       +:+ jose_name alg +:+ " needs a " +:+ debug (alg_key_kind alg) +:+ " key"]
    else [] in
  let members :=
    match alg with
    | Es256 => check_32_byte_coordinate "x" (jwk_x published) ++ check_32_byte_coordinate "y" (jwk_y published)
    | EdDsa => check_32_byte_coordinate "x" (jwk_x published)
    | Rs256 | Ps256 =>
        match published with
        | JwkRsa n e _ => check_uint "n" n ++ check_uint "e" e
        | _ => []
        end
    end in
  let wrong := kind ++ members in
  unless (wrong == []) (push SIGNER_PUBLIC_JWK_IS_ES256
    ("public_jwk() is not a usable " +:+ jose_name alg +:+ " JWK: " +:+ String.concat "; " wrong)).

Definition published_example_key (alg : JwsAlg) (published : Jwk) : bool :=
  match alg with
  | Es256 => (jwk_x published == A3_X) && (jwk_y published == A3_Y)
  | Rs256 | Ps256 => match published with JwkRsa n e _ => (n == A2_N) && (e == RSA_E) | _ => false end
  | EdDsa => match published with JwkOkp _ x _ => x == A4_X | _ => false end
  end.

Definition at_byte (i : nat) (s : string) : N := match bytes s !! i with Some c => u8 c | None => 0 end.
Definition looks_like_der (signature : string) : bool :=
  Nat.leb 3 (str_len signature) && (at_byte 0 signature =? 48)%N && (at_byte 2 signature =? 2)%N
  && ((64 <=? at_byte 1 signature)%N && (at_byte 1 signature <=? 72)%N).

(** The part of [check_signer] after the first signature. *)
Definition check_signature (profile : AlgProfile) (published : Jwk) (signature : string) : step W unit :=
  let! alg := signer_alg in
  unless (negb ((alg == Es256) && looks_like_der signature)) (push SIGNER_IS_NOT_DER ("the signature looks like an ASN.1 DER SEQUENCE (it begins 0x30 with a consistent "
    +:+ "length byte). RFC 7518 s3.4 requires the 64-byte fixed-width R || S concatenation; "
    +:+ "most KMS APIs and OpenSSL return DER by default and it must be converted"));!
  let! verified := try_verify "the signer's own signature under its own JWK" published INPUT_A signature in
  unless verified (let! alg := signer_alg in push SIGNER_VERIFIES_UNDER_ITS_OWN_JWK
    (("the signature did not verify under the signer's OWN public_jwk(). Either "
    +:+ "public_jwk() is not the public half of the signing key, or the signature is not ") +:+ jose_name alg +:+ (" over the bytes it was handed. Every token this server issues would fail "
    +:+ "verification against its own published JWKS")));!
  let! verified := try_verify "the signer's own signature under a foreign key" (ap_foreign_key profile) INPUT_A signature in
  unless (negb verified) (push SIGNER_REJECTED_BY_ANOTHER_KEY ("the signature verified under a key that did not produce it. A signer that returns a "
    +:+ "constant, or a verifier that ignores its key, would both land here"));!
  let! signed_again := try_sign_with "the second input" INPUT_B in
  match signed_again with
  | Ok other =>
      let! covers_its_own := try_verify "the second input's signature over the second input" published INPUT_B other in
      let! one_way := try_verify "the second input's signature over the FIRST input" published INPUT_A other in
      let! other_way := try_verify "the first input's signature over the SECOND input" published INPUT_B signature in
      let crosses := one_way || other_way in
      unless (negb (negb covers_its_own || crosses)) (push SIGNER_BINDS_THE_SIGNING_INPUT ("a signature is not bound to the input it was made over: either a second input's "
    +:+ "signature did not cover that input, or one input's signature verified over the "
    +:+ "other's. The signer is not signing the bytes it was given (a fixed message, a "
    +:+ "double hash, or a constant), so the signature says nothing about the token that "
    +:+ "carries it"))
  | Err e => push SIGNER_SIGNS ("the signer signed once and then refused: " +:+ signer_error e)
  end.

Definition check_signer : step W unit :=
  let! alg := signer_alg in
  let! profile := alg_profile alg in
  let! published := signer_public_jwk in
  check_published_key published;!
  unless (negb (str_is_empty (unwrap_or (kid_of published) ""))) (push SIGNER_PUBLIC_JWK_HAS_A_KID ("public_jwk().kid is empty. Every token this server signs carries it (RFC 7515 "
    +:+ "s4.1.4), and key rotation selects on it"));!
  let! again := signer_public_jwk in
  unless (again == published) (push SIGNER_PUBLIC_JWK_IS_STABLE ("public_jwk() returned two different keys on two calls. It must return a value "
    +:+ "cached at construction: JwtConfig reads it once, so a key that changes afterwards "
    +:+ "is advertised nowhere"));!
  let! alg := signer_alg in
  unless (negb (published_example_key alg published)) (push SIGNER_IS_NOT_THE_PUBLISHED_EXAMPLE_KEY ("the signing key is the published RFC example key, whose private half is printed in "
    +:+ "the RFC. Anyone can forge every token this server issues"));!
  let! signed := try_sign_with "the first input" INPUT_A in
  match signed with
  | Ok signature => check_signature profile published signature
  | Err e => push SIGNER_SIGNS ("the signer refused to sign: " +:+ signer_error e)
  end.

Definition signer_suite : step W unit :=
  let! alg := signer_alg in
  match alg with
  | Es256 => check_verifier
  | Rs256 | EdDsa | Ps256 =>
      let! a := signer_alg in
      let! profile := alg_profile a in
      check_verifier_generic profile
  end;!
  check_signer.

(** [SignerConformance::run] on objects that start out holding [w] *)
Definition run_signer_suite (w : W) : option (list SignerViolation) :=
  match signer_suite (Bench w []) with Some (_, b) => Some (be_out b) | None => None end.
End suite.
