(* ===== verification/SignerFacts.v ===== *)
(** * What a clean report of the signer suite means

    The suite reports nothing exactly when the verifier accepts the published vector of the
    signer's algorithm and refuses every case listed for it, and the signer publishes one
    usable named key of its own and binds what it signs.  [der] is read back by a reader of
    the DER encoding. *)
From S2P Require Import Prelude Time Codec Scope Types Jws Keys Par Harness SignerSuite.
Local Open Scope Z_scope.

(** ** Runs that report nothing *)
Section silent.
Context {W : Type}.

Definition grows {A} (m : step W A) : Prop := forall b a b', m b = Some (a, b') -> be_out b `prefix_of` be_out b'.
Definition silent {A} (m : step W A) (w : W) (a : A) (w' : W) : Prop := m (Bench w []) = Some (a, Bench w' []).

Lemma grows_done {A} (a : A) : grows (done_ a).
Proof. by intros b a' b' [= <- <-]. Qed.
Lemma grows_next {A B} (m : step W A) (f : A -> step W B) :
  grows m -> (forall a, grows (f a)) -> grows (next_ m f).
Proof.
  intros Hm Hf b a b'. unfold next_. destruct (m b) as [[a1 b1]|] eqn:E; [|done]. intros Hr.
  etrans; [by eapply Hm|by eapply Hf].
Qed.
Lemma grows_expect {A} (o : option A) : grows (expect o).
Proof. intros b a b'. unfold expect. destruct o; [|done]. by intros [= <- <-]. Qed.
Lemma grows_push c d : grows (push c d).
Proof. intros b a b' [= <- <-]. cbn. by apply prefix_app_r. Qed.
Lemma grows_unless fine (m : step W unit) : grows m -> grows (unless fine m).
Proof. destruct fine; [intros _; apply grows_done|done]. Qed.

Lemma silent_done {A} (a a' : A) w w' : silent (done_ a) w a' w' <-> a' = a /\ w' = w.
Proof. unfold silent, done_. naive_solver. Qed.
Lemma silent_push c d w a w' : silent (push c d) w a w' <-> False.
Proof. unfold silent, push. naive_solver. Qed.
Lemma silent_unless fine m w a w' : (forall w a w', ~ silent m w a w') ->
  silent (unless fine m) w a w' <-> fine = true /\ w' = w.
Proof.
  intros Hm. destruct a, fine; cbn [unless]; [rewrite silent_done; naive_solver|].
  split; [intros Hs; destruct (Hm _ _ _ Hs)|naive_solver].
Qed.
Lemma silent_reports fine c d w a w' : silent (unless fine (push c d)) w a w' <-> fine = true /\ w' = w.
Proof. apply silent_unless. intros ??? Hs. by apply silent_push in Hs. Qed.
Lemma silent_expect {A} (o : option A) w a w' : silent (expect o) w a w' <-> o = Some a /\ w' = w.
Proof. unfold silent, expect. destruct o; naive_solver. Qed.
Lemma silent_next {A B} (m : step W A) (f : A -> step W B) w b w' : grows m -> (forall a, grows (f a)) ->
  silent (next_ m f) w b w' <-> exists a w1, silent m w a w1 /\ silent (f a) w1 b w'.
Proof.
  intros Hm Hf. unfold silent, next_. split.
  - destruct (m (Bench w [])) as [[a [w1 out]]|] eqn:E; [|done]. intros Hr.
    pose proof (Hf a _ _ _ Hr) as Hp. cbn in Hp. apply prefix_nil_inv in Hp as ->. eauto.
  - intros (a & w1 & -> & ?). done.
Qed.
End silent.
Create HintDb grows.
#[export] Hint Resolve grows_done grows_next grows_expect grows_push grows_unless : grows.

(** ** The suite's own steps *)
Section steps.
Context `{Crypto, Debug} {W : Type} (self : SignerConformance W).

Lemma grows_vector_jwk x y : grows (W := W) (vector_jwk x y).
Proof. apply grows_expect. Qed.
Lemma grows_vector_decode s : grows (W := W) (vector_decode s).
Proof. apply grows_expect. Qed.
Lemma grows_alg : grows (signer_alg self).
Proof. intros b a b'. unfold signer_alg. destruct (hs_alg _ _). by intros [= <- <-]. Qed.
Lemma grows_public_jwk : grows (signer_public_jwk self).
Proof. intros b a b'. unfold signer_public_jwk. destruct (hs_public_jwk _ _). by intros [= <- <-]. Qed.
Lemma grows_verify c k i s : grows (try_verify self c k i s).
Proof.
  intros b a b'. unfold try_verify. destruct (hv_verify _ _ _ _ _) as [[v|] w]; [by intros [= <- <-]|].
  intros Hr. refine (grows_next _ _ _ _ (Bench w (be_out b)) a b' Hr); auto with grows.
Qed.
Lemma grows_sign c i : grows (try_sign_with self c i).
Proof.
  intros b a b'. unfold try_sign_with. destruct (hs_sign _ _ _) as [[[s|e]|] w]; [by intros [= <- <-]..|].
  intros Hr. refine (grows_next _ _ _ _ (Bench w (be_out b)) a b' Hr); auto with grows.
Qed.
Lemma grows_profile a : grows (W := W) (alg_profile a).
Proof. destruct a; cbn; repeat (apply grows_next; [apply grows_expect|intros]); auto with grows. Qed.
#[local] Hint Resolve grows_vector_jwk grows_vector_decode grows_alg grows_public_jwk grows_verify grows_sign
  grows_profile : grows.
Ltac grow := repeat lazymatch goal with
  | |- grows (next_ _ _) => apply grows_next; [|intros ?]
  | |- grows (match ?r with Ok _ => _ | Err _ => _ end) => destruct r
  | _ => solve [auto with grows]
  end.

Lemma grows_cases cases : grows (wrong_length_cases self cases).
Proof. induction cases as [|[[[d k] i] s] cases IH]; cbn; grow. Qed.
Lemma grows_generic alg key input cases : grows (generic_length_cases self alg key input cases).
Proof. induction cases as [|[d s] cases IH]; cbn; grow. Qed.
#[local] Hint Resolve grows_cases grows_generic : grows.
Lemma grows_check_verifier : grows (check_verifier self).
Proof. unfold check_verifier, check_wrong_length_signatures. grow. Qed.
Lemma grows_check_generic profile : grows (check_verifier_generic self profile).
Proof. unfold check_verifier_generic. grow. Qed.
Lemma grows_published k : grows (check_published_key self k).
Proof. unfold check_published_key. grow. Qed.
Lemma grows_signature profile k s : grows (check_signature self profile k s).
Proof. unfold check_signature. grow. Qed.
#[local] Hint Resolve grows_check_verifier grows_check_generic grows_published grows_signature : grows.
Lemma grows_check_signer : grows (check_signer self).
Proof. unfold check_signer. grow. Qed.
End steps.
#[export] Hint Resolve grows_vector_jwk grows_vector_decode grows_alg grows_public_jwk grows_verify grows_sign
  grows_profile grows_cases grows_generic grows_check_verifier grows_check_generic grows_published
  grows_signature grows_check_signer : grows.
Ltac grow := repeat lazymatch goal with
  | |- grows (next_ _ _) => apply grows_next; [|intros ?]
  | |- grows (match ?r with Ok _ => _ | Err _ => _ end) => destruct r
  | _ => solve [auto with grows]
  end.

(** ** The contract *)
Section contract.
Context `{Crypto}.

(** A call of a verifier: the key, the signing input, the signature. *)
Definition call : Type := Jwk * string * string.

Definition vector_key (x y : string) : option Jwk :=
  match jwk_from_coordinates x y with Ok k => Some k | Err _ => None end.

Definition profile_of (alg : JwsAlg) : option AlgProfile :=
  match alg with
  | Es256 =>
      k ← vector_key A3_X A3_Y; s ← b64url_decode A3_SIGNATURE; f ← vector_key OTHER_X OTHER_Y;
      Some {| ap_signing_input := A3_SIGNING_INPUT; ap_vector_key := k; ap_vector_signature := s; ap_foreign_key := f |}
  | Rs256 =>
      s ← b64url_decode A2_SIGNATURE;
      Some {| ap_signing_input := A2_SIGNING_INPUT; ap_vector_key := rsa_jwk A2_N; ap_vector_signature := s;
              ap_foreign_key := rsa_jwk OTHER_RSA_N |}
  | EdDsa =>
      s ← b64url_decode A4_SIGNATURE;
      Some {| ap_signing_input := A4_SIGNING_INPUT; ap_vector_key := okp_jwk A4_X; ap_vector_signature := s;
              ap_foreign_key := okp_jwk OTHER_OKP_X |}
  | Ps256 =>
      s ← b64url_decode PS256_A2_SIGNATURE;
      Some {| ap_signing_input := A2_SIGNING_INPUT; ap_vector_key := rsa_jwk A2_N; ap_vector_signature := s;
              ap_foreign_key := rsa_jwk OTHER_RSA_N |}
  end.

(** What a verifier is asked: the call it must accept and those it must refuse. *)
Definition es256_calls : option (call * list call) :=
  key ← vector_key A3_X A3_Y; signature ← b64url_decode A3_SIGNATURE;
  foreign ← vector_key OTHER_X OTHER_Y;
  tampered ← flip_last A3_SIGNING_INPUT; flipped ← flip 0 signature; as_der ← der signature;
  off_curve ← vector_key OFF_CURVE_X OFF_CURVE_Y;
  padding_key ← vector_key LEADING_ZERO_X LEADING_ZERO_Y; leading_zero ← b64url_decode LEADING_ZERO_SIGNATURE;
  one ← slice_to 1 signature; half ← slice_to 32 signature; short ← slice_to 63 signature;
  unpadded ← slice_from 1 leading_zero;
  Some ((key, A3_SIGNING_INPUT, signature),
    [(foreign, A3_SIGNING_INPUT, signature); (key, tampered, signature); (key, A3_SIGNING_INPUT, flipped);
     (key, A3_SIGNING_INPUT, as_der); (off_curve, A3_SIGNING_INPUT, signature); (key, "", signature);
     (key, A3_SIGNING_INPUT, ""); (key, A3_SIGNING_INPUT, one); (key, A3_SIGNING_INPUT, half);
     (key, A3_SIGNING_INPUT, short); (padding_key, LEADING_ZERO_INPUT, unpadded);
     (key, A3_SIGNING_INPUT, signature +:+ byte 0)]).

Definition generic_calls (alg : JwsAlg) : option (call * list call) :=
  p ← profile_of alg;
  let key := ap_vector_key p in
  let input := ap_signing_input p in
  let signature := ap_vector_signature p in
  tampered ← flip_last input; flipped ← flip 0 signature; truncated ← slice_to (str_len signature - 1) signature;
  Some ((key, input, signature),
    [(ap_foreign_key p, input, signature); (key, tampered, signature); (key, input, flipped);
     (key, "", signature); (key, input, ""); (key, input, truncated); (key, input, signature +:+ byte 0)]).

Definition verifier_calls (alg : JwsAlg) : option (call * list call) :=
  match alg with Es256 => es256_calls | _ => generic_calls alg end.

Definition answers (verify : Jwk -> string -> string -> bool) (c : call) : bool :=
  verify (fst (fst c)) (snd (fst c)) (snd c).
Definition verifier_meets (verify : Jwk -> string -> string -> bool) (alg : JwsAlg) : Prop :=
  match verifier_calls alg with
  | Some (known, refused) => answers verify known = true /\ Forall (fun c => answers verify c = false) refused
  | None => False
  end.

(** A key of the algorithm's kind, its members as wide as they must be. *)
Definition wide (b64 : string) : bool := is_some_and (b64url_decode b64) (fun b => Nat.eqb (str_len b) 32).
Definition uint (b64 : string) : bool := is_some_and (b64url_decode b64) (fun b => negb (str_is_empty b)).
Definition usable_key (alg : JwsAlg) (k : Jwk) : bool :=
  match alg, k with
  | Es256, JwkEc P256 x y _ => wide x && wide y
  | EdDsa, JwkOkp Ed25519 x _ => wide x
  | (Rs256 | Ps256), JwkRsa n e _ => uint n && uint e
  | _, _ => false
  end.

(** What a signer must publish and sign, from the state [w] on. *)
Definition signer_meets {W} (alg : JwsAlg) (key : Jwk)
    (sign : string -> W -> option (result JwsSignature string) * W)
    (verify : Jwk -> string -> string -> bool) (w : W) : Prop :=
  exists p s1 w1 s2 w2,
    profile_of alg = Some p /\
    usable_key alg key = true /\ kid_of key <> None /\ kid_of key <> Some "" /\
    published_example_key alg key = false /\
    sign INPUT_A w = (Some (Ok s1), w1) /\ sign INPUT_B w1 = (Some (Ok s2), w2) /\
    (alg = Es256 -> looks_like_der (signature_bytes s1) = false) /\
    verify key INPUT_A (signature_bytes s1) = true /\ verify key INPUT_B (signature_bytes s2) = true /\
    verify (ap_foreign_key p) INPUT_A (signature_bytes s1) = false /\
    verify key INPUT_A (signature_bytes s2) = false /\ verify key INPUT_B (signature_bytes s1) = false.

(** A signer of one algorithm and one key, signing as it will, beside a verifier that
    answers by its arguments. *)
Definition steady {W} (alg : JwsAlg) (key : Jwk) (sign : string -> W -> option (result JwsSignature string) * W)
    (verify : Jwk -> string -> string -> bool) : SignerConformance W :=
  signer_conformance_new
    {| hs_alg := fun w => (alg, w); hs_public_jwk := fun w => (key, w); hs_sign := sign |}
    {| hv_verify := fun k i s w => (Some (verify k i s), w) |}.
End contract.

(** ** The suite checks the contract *)
Section exact.
Context `{Crypto, Debug} {W : Type} (alg : JwsAlg) (key : Jwk).
Context (sign : string -> W -> option (result JwsSignature string) * W) (verify : Jwk -> string -> string -> bool).
#[local] Abbreviation self := (steady alg key sign verify).

Lemma then_expect {A B} (o : option A) (f : A -> step W B) w b w' :
  silent (next_ (expect o) f) w b w' <-> match o with Some x => silent (f x) w b w' | None => False end.
Proof. unfold silent, next_, expect. destruct o; naive_solver. Qed.
Lemma then_jwk {B} x y (f : Jwk -> step W B) w b w' :
  silent (next_ (vector_jwk x y) f) w b w' <->
  match vector_key x y with Some k => silent (f k) w b w' | None => False end.
Proof. apply then_expect. Qed.
Lemma then_decode {B} s (f : string -> step W B) w b w' :
  silent (next_ (vector_decode s) f) w b w' <->
  match b64url_decode s with Some x => silent (f x) w b w' | None => False end.
Proof. apply then_expect. Qed.
Lemma then_profile {B} a (f : AlgProfile -> step W B) w b w' :
  silent (next_ (alg_profile a) f) w b w' <->
  match profile_of a with Some p => silent (f p) w b w' | None => False end.
Proof.
  unfold silent, next_. destruct a; cbn; unfold next_, vector_jwk, vector_decode, vector_key, expect, done_;
    repeat (case_match; simplify_eq/=; try done).
Qed.
Lemma then_verify {B} c k i s (f : bool -> step W B) w b w' :
  silent (next_ (try_verify self c k i s) f) w b w' <-> silent (f (verify k i s)) w b w'.
Proof. done. Qed.
Lemma then_alg {B} (f : JwsAlg -> step W B) w b w' :
  silent (next_ (signer_alg self) f) w b w' <-> silent (f alg) w b w'.
Proof. done. Qed.
Lemma then_public_jwk {B} (f : Jwk -> step W B) w b w' :
  silent (next_ (signer_public_jwk self) f) w b w' <-> silent (f key) w b w'.
Proof. done. Qed.
Lemma then_reports {B} fine c d (k : step W B) w b w' : grows k ->
  silent (unless fine (push c d);! k) w b w' <-> fine = true /\ silent k w b w'.
Proof.
  intros Hk. rewrite silent_next by auto with grows. setoid_rewrite silent_reports. split.
  - by intros ([] & ? & [-> ->] & ?).
  - intros [-> ?]. by exists tt, w.
Qed.
Lemma then_own {B} fine c d (k : step W B) w b w' : grows k ->
  silent (unless fine (let! a := signer_alg self in push c (d a));! k) w b w' <-> fine = true /\ silent k w b w'.
Proof.
  intros Hk. rewrite silent_next by grow. split.
  - intros (a & w1 & Hu & Hs). rewrite silent_unless in Hu; [by destruct Hu as [-> ->]|].
    intros ??? Hn. by rewrite then_alg, silent_push in Hn.
  - intros [-> ?]. by exists tt, w.
Qed.
Lemma then_sign {B} c i (f : result string string -> step W B) w b w' : (forall r, grows (f r)) ->
  silent (next_ (try_sign_with self c i) f) w b w' <->
  match sign i w with
  | (Some (Ok s), w1) => silent (f (Ok (signature_bytes s))) w1 b w'
  | (Some (Err e), w1) => silent (f (Err e)) w1 b w'
  | (None, _) => False
  end.
Proof.
  intros Hf. unfold silent at 1, next_, try_sign_with. cbn. destruct (sign i w) as [[[s|e]|] w1]; [done..|].
  split; [|done]. intros Hr. by apply Hf, prefix_nil_inv in Hr.
Qed.

(** One step of a run: the first thing it does. *)
Ltac walk1 := match goal with
  | |- context [silent (next_ ?m _) _ _ _] =>
      lazymatch m with
      | try_verify _ _ _ _ _ => rewrite then_verify
      | signer_alg _ => rewrite then_alg
      | signer_public_jwk _ => rewrite then_public_jwk
      | vector_jwk _ _ => rewrite then_jwk
      | vector_decode _ => rewrite then_decode
      | expect _ => rewrite then_expect
      | unless _ (push _ _) => rewrite then_reports by grow
      | unless _ _ => rewrite then_own by grow
      end
  | |- context [silent (unless _ _) _ _ _] => rewrite silent_reports
  | |- context [silent (done_ _) _ _ _] => rewrite silent_done
  end.
Ltac open_option := match goal with
  | |- context [match ?o with Some _ => silent _ _ _ _ | None => False end] => destruct o; cbn [mbind option_bind]; [|tauto]
  end.
Ltac descend := repeat first [walk1 | open_option].

Ltac judge := rewrite ?Forall_cons, ?Forall_nil, ?negb_true_iff; unfold answers; cbn; tauto.

Definition meets (calls : option (call * list call)) : Prop :=
  match calls with
  | Some (known, refused) => answers verify known = true /\ Forall (fun c => answers verify c = false) refused
  | None => False
  end.

Lemma check_verifier_silent w w' : silent (check_verifier self) w tt w' <-> meets es256_calls /\ w' = w.
Proof. unfold check_verifier, check_wrong_length_signatures, wrong_length_cases, es256_calls, meets. descend. judge. Qed.

Lemma check_generic_silent p w w' : profile_of alg = Some p ->
  silent (check_verifier_generic self p) w tt w' <-> meets (generic_calls alg) /\ w' = w.
Proof. intros Hp. unfold check_verifier_generic, generic_calls, meets. rewrite Hp.
  cbn [mbind option_bind]. unfold generic_length_cases. descend. judge. Qed.

Lemma coordinate_fine n v : check_32_byte_coordinate n v = [] <-> wide v = true.
Proof. unfold check_32_byte_coordinate, wide. destruct (b64url_decode v); cbn; [|done]. by case_match. Qed.
Lemma uint_fine n v : check_uint n v = [] <-> uint v = true.
Proof. unfold check_uint, uint. destruct (b64url_decode v); cbn; [|done]. by case_match. Qed.

Lemma published_silent w a w' : silent (check_published_key self key) w a w' <-> usable_key alg key = true /\ w' = w.
Proof.
  unfold check_published_key. descend. rewrite bool_decide_eq_true.
  assert (Hu : forall l m : list string, l ++ m = [] <-> l = [] /\ m = [])
    by (intros l m; split; [apply app_eq_nil|by intros [-> ->]]).
  destruct alg, key as [[] ? ? ?|? ? ?|[] ? ?]; cbn;
    rewrite ?Hu, ?coordinate_fine, ?uint_fine, ?andb_true_iff; try tauto; split; naive_solver.
Qed.

Lemma kid_named : str_is_empty (unwrap_or (kid_of key) "") = false <-> kid_of key <> None /\ kid_of key <> Some "".
Proof. destruct (kid_of key) as [[|c s]|]; cbn; naive_solver. Qed.

Lemma then_published {B} (k : step W B) w b w' : grows k ->
  silent (check_published_key self key;! k) w b w' <-> usable_key alg key = true /\ silent k w b w'.
Proof.
  intros Hk. rewrite silent_next by auto with grows. setoid_rewrite published_silent. split.
  - by intros ([] & ? & [-> ->] & ?).
  - intros [-> ?]. by exists tt, w.
Qed.

Lemma signature_silent p s w w' :
  silent (check_signature self p key s) w tt w' <->
  exists s2, sign INPUT_B w = (Some (Ok s2), w') /\
    (alg = Es256 -> looks_like_der s = false) /\
    verify key INPUT_A s = true /\ verify key INPUT_B (signature_bytes s2) = true /\
    verify (ap_foreign_key p) INPUT_A s = false /\
    verify key INPUT_A (signature_bytes s2) = false /\ verify key INPUT_B s = false.
Proof.
  assert (Hder : negb ((alg == Es256) && looks_like_der s) = true <-> (alg = Es256 -> looks_like_der s = false)).
  { rewrite negb_true_iff, andb_false_iff, bool_decide_eq_false.
    destruct (decide (alg = Es256)), (looks_like_der s); naive_solver. }
  unfold check_signature. descend. rewrite then_sign by (intros; grow).
  destruct (sign INPUT_B w) as [[[s2|e]|] w2]; [|rewrite silent_push; naive_solver|naive_solver].
  descend. rewrite Hder, !negb_true_iff, !orb_false_iff, negb_false_iff. naive_solver.
Qed.

Lemma check_signer_silent w w' :
  silent (check_signer self) w tt w' <->
  exists p s1 w1,
    profile_of alg = Some p /\ usable_key alg key = true /\ (kid_of key <> None /\ kid_of key <> Some "") /\
    published_example_key alg key = false /\ sign INPUT_A w = (Some (Ok s1), w1) /\
    silent (check_signature self p key (signature_bytes s1)) w1 tt w'.
Proof.
  unfold check_signer. descend. rewrite then_profile. destruct (profile_of alg) as [p|] eqn:Hp; [|naive_solver].
  descend. rewrite then_published by grow. descend. rewrite then_sign by (intros; grow).
  rewrite bool_decide_eq_true_2 by done. rewrite !negb_true_iff, kid_named.
  destruct (sign INPUT_A w) as [[[s1|e]|] w1] eqn:Hs; [|rewrite silent_push|]; naive_solver.
Qed.

Lemma signer_silent w : (exists w', silent (check_signer self) w tt w') <-> signer_meets alg key sign verify w.
Proof.
  unfold signer_meets. setoid_rewrite check_signer_silent. setoid_rewrite signature_silent. split.
  - intros (w' & p & s1 & w1 & Hp & Hu & [Hk1 Hk2] & He & H1 & s2 & Hs). exists p, s1, w1, s2, w'. tauto.
  - intros (p & s1 & w1 & s2 & w2 & Hs). exists w2, p, s1, w1. split_and!; try tauto. exists s2. tauto.
Qed.

Lemma verifier_silent w w' :
  silent (match alg with
          | Es256 => check_verifier self
          | _ => let! a := signer_alg self in let! profile := alg_profile a in check_verifier_generic self profile
          end) w tt w' <-> verifier_meets verify alg /\ w' = w.
Proof.
  unfold verifier_meets. destruct alg eqn:Ha; cbn [verifier_calls];
    [by rewrite <- Ha, check_verifier_silent|..]; rewrite <- Ha; descend; rewrite then_profile;
    (destruct (profile_of alg) as [p|] eqn:Hp;
     [by rewrite (check_generic_silent p) by done|unfold generic_calls; rewrite Hp; cbn; tauto]).
Qed.

Lemma grows_verifier : grows (match alg with
  | Es256 => check_verifier self
  | _ => let! a := signer_alg self in let! profile := alg_profile a in check_verifier_generic self profile
  end).
Proof. destruct alg; grow. Qed.

Lemma suite_silent w : run_signer_suite self w = Some [] <-> exists u w', silent (signer_suite self) w u w'.
Proof.
  unfold run_signer_suite, silent. destruct (signer_suite self (Bench w [])) as [[u [w' out]]|]; cbn.
  - split; [intros [= ->]; by exists u, w'|by intros (? & ? & [= _ _ ->])].
  - naive_solver.
Qed.

Lemma suite_meets w : run_signer_suite self w = Some [] <->
  verifier_meets verify alg /\ signer_meets alg key sign verify w.
Proof.
  rewrite suite_silent. unfold signer_suite. setoid_rewrite then_alg.
  setoid_rewrite silent_next; [|apply grows_verifier|intros; apply grows_check_signer].
  rewrite <- signer_silent. split.
  - intros ([] & w' & [] & w1 & [Hv ->]%verifier_silent & Hs). split; [done|]. by exists w'.
  - intros [Hv [w' Hs]]. exists tt, w', tt, w. split; [|done]. by apply verifier_silent.
Qed.
End exact.

(** C37. A clean report means the contract is met, and nothing less.  For a signer of one
    algorithm and key and any verifier that answers by its arguments, the suite ends with
    no violation exactly when the verifier accepts the RFC vector of that algorithm and
    refuses each altered form of it (another key, a point off the curve, an altered or empty
    input, an altered signature, its DER form, every wrong length), and the signer publishes a key of the
    algorithm's kind and width that has an identifier and is not the RFC's, signs both
    inputs, and each signature verifies under that key over its own input and no other. *)
Theorem signer_suite_exact `{Crypto, Debug} {W} alg key
    (sign : string -> W -> option (result JwsSignature string) * W) verify w :
  run_signer_suite (steady alg key sign verify) w = Some [] <->
  verifier_meets verify alg /\ signer_meets alg key sign verify w.
Proof. apply suite_meets. Qed.

(** ** [der] writes DER *)

(** Unsigned, most significant byte first. *)
Definition be_value (l : list ascii) : Z := fold_left (fun acc c => 256 * acc + Z.of_N (u8 c)) l 0.

(** X.690 section 8.3: an INTEGER that is not negative, in the fewest octets. *)
Definition minimal (content : list ascii) : bool :=
  match content with
  | [] => false
  | b :: rest =>
      (u8 b <? 128)%N && match rest with [] => true | c :: _ => negb ((u8 b =? 0)%N && (u8 c <? 128)%N) end
  end.
Definition read_integer (l : list ascii) : option (Z * list ascii) :=
  match l with
  | tag :: len :: rest =>
      let n := N.to_nat (u8 len) in
      if (u8 tag =? 2)%N && Nat.leb n (List.length rest) && minimal (take n rest)
      then Some (be_value (take n rest), drop n rest) else None
  | _ => None
  end.
Definition read_der (l : list ascii) : option (Z * Z) :=
  match l with
  | tag :: len :: body =>
      if (u8 tag =? 48)%N && Nat.eqb (N.to_nat (u8 len)) (List.length body) then
        '(r, rest) ← read_integer body; '(s, rest) ← read_integer rest;
        match rest with [] => Some (r, s) | _ => None end
      else None
  | _ => None
  end.

Lemma be_value_zeros n l : be_value (replicate n zero ++ l) = be_value l.
Proof. unfold be_value. rewrite fold_left_app. f_equal. induction n as [|n IH]; [done|]. cbn. exact IH. Qed.

Lemma high_bit c : negb (N.land (u8 c) 128 =? 0)%N = negb (u8 c <? 128)%N.
Proof. by destruct c as [[] [] [] [] [] [] [] []]. Qed.

Lemma first_nonzero_some l i : first_nonzero l = Some i ->
  exists c rest, l = replicate i zero ++ c :: rest /\ (u8 c <> 0)%N.
Proof.
  revert i. induction l as [|b l IH]; intros i; cbn; [done|].
  destruct (N.eqb_spec (u8 b) 0) as [Hb|Hb]; cbn; intros Hf.
  - apply fmap_Some in Hf as (j & Hj & ->). destruct (IH j Hj) as (c & rest & -> & Hc).
    assert (b = zero) as -> by (by apply u8_inj). by exists c, rest.
  - injection Hf as <-. by exists b, l.
Qed.
Lemma first_nonzero_none l : first_nonzero l = None -> l = replicate (List.length l) zero.
Proof.
  induction l as [|b l IH]; [done|]. cbn. destruct (N.eqb_spec (u8 b) 0) as [Hb|Hb]; cbn; [|done].
  intros Hf%fmap_None. assert (b = zero) as -> by (by apply u8_inj). f_equal. by apply IH.
Qed.

Lemma bytes_drop n s : bytes (drop_str n s) = drop n (bytes s).
Proof. revert s. induction n as [|n IH]; intros [|c s]; try done. apply IH. Qed.
Lemma bytes_take n s : bytes (take_str n s) = take n (bytes s).
Proof. revert s. induction n as [|n IH]; intros [|c s]; try done. cbn. f_equal. apply IH. Qed.

(** The octets left once the leading zeros are gone, one of them kept when there is no other. *)
Lemma stripped v last : str_len v = S last ->
  exists c rest, bytes (drop_str (unwrap_or (first_nonzero (bytes v)) last) v) = c :: rest /\
    (List.length rest <= last)%nat /\ (u8 c = 0%N -> rest = []) /\ be_value (c :: rest) = be_value (bytes v).
Proof.
  intros Hl. rewrite bytes_drop. rewrite <- bytes_length in Hl.
  destruct (first_nonzero (bytes v)) as [i|] eqn:Hf; cbn [unwrap_or].
  - apply first_nonzero_some in Hf as (c & rest & Hv & Hc). rewrite Hv in Hl |- *.
    rewrite length_app, length_replicate in Hl. cbn in Hl.
    rewrite drop_app_length' by (by rewrite length_replicate). exists c, rest.
    split_and!; [done|lia|done|by rewrite be_value_zeros].
  - apply first_nonzero_none in Hf. rewrite Hl in Hf. rewrite Hf, drop_replicate.
    replace (S last - last)%nat with 1%nat by lia. exists zero, []. split_and!; [done|cbn; lia|done|].
    rewrite <- (app_nil_r (replicate (S last) zero)), be_value_zeros. done.
Qed.

Lemma len_u8_reads n : (n < 256)%nat -> exists c, bytes (len_u8 n) = [c] /\ N.to_nat (u8 c) = n.
Proof.
  intros Hn. unfold len_u8, byte. eexists. split; [reflexivity|]. unfold u8.
  rewrite N.mod_small, N_ascii_embedding by lia. lia.
Qed.

Lemma der_integer_reads v : (0 < str_len v < 128)%nat -> exists d,
  der_integer v = Some d /\ (3 <= str_len d <= str_len v + 3)%nat /\ at_byte 0 d = 2%N /\
  forall tail, read_integer (bytes d ++ tail) = Some (be_value (bytes v), tail).
Proof.
  intros Hv. unfold der_integer. destruct (str_len v) as [|last] eqn:Hl; [lia|].
  destruct (stripped v last Hl) as (c & rest & Hb & Hr & Hz & Hval). rewrite Hb. cbn [lookup list_lookup mbind option_bind].
  rewrite high_bit. set (body := drop_str _ v) in *.
  assert (Hlen : str_len body = S (List.length rest)) by (by rewrite <- bytes_length, Hb).
  destruct (len_u8_reads (str_len body + if negb (u8 c <? 128)%N then 1 else 0)) as (n & Hn & Hnv);
    [case_match; lia|].
  eexists. split; [reflexivity|]. rewrite <- bytes_length. unfold at_byte. rewrite !bytes_app, Hn, Hb. cbn [bytes byte].
  change (bytes (byte 2)) with ["002"%char]. destruct (N.ltb_spec (u8 c) 128) as [Hc|Hc]; cbn [negb] in *; cbn.
  - split_and!; [lia|lia|done|]. intros tail. rewrite Hnv, Hlen.
    replace (S (List.length rest) + 0)%nat with (S (List.length rest)) by lia. cbn [take drop].
    rewrite length_app, take_app_length, drop_app_length.
    rewrite (proj2 (Nat.leb_le _ _)) by lia. cbn [andb].
    assert (minimal (c :: rest) = true) as ->; [|by rewrite Hval].
    cbn. rewrite (proj2 (N.ltb_lt _ _) Hc). destruct rest as [|b rest]; [done|].
    destruct (N.eqb_spec (u8 c) 0) as [H0|H0]; [by specialize (Hz H0)|done].
  - split_and!; [lia|lia|done|]. intros tail. rewrite Hnv, Hlen.
    replace (S (List.length rest) + 1)%nat with (S (S (List.length rest))) by lia. cbn [take drop].
    rewrite length_app, take_app_length, drop_app_length.
    rewrite (proj2 (Nat.leb_le _ _)) by lia. cbn [andb].
    assert (minimal (zero :: c :: rest) = true) as ->; [by cbn; rewrite (proj2 (N.ltb_ge _ _) Hc)|].
    rewrite <- Hval. by rewrite <- (be_value_zeros 1 (c :: rest)).
Qed.

(** The DER form of a signature is a SEQUENCE of the two integers it is made of. *)
Lemma der_reads signature : str_len signature = 64%nat -> exists d,
  der signature = Some d /\ (8 <= str_len d <= 72)%nat /\
  read_der (bytes d) = Some (be_value (take 32 (bytes signature)), be_value (drop 32 (bytes signature))).
Proof.
  intros Hl. unfold der, slice_to, slice_from. rewrite Hl. cbn [Nat.leb then_some mbind option_bind].
  assert (Hr : str_len (take_str 32 signature) = 32%nat) by (apply take_str_length; lia).
  assert (Hs : str_len (drop_str 32 signature) = 32%nat).
  { rewrite <- bytes_length, bytes_drop, length_drop, bytes_length. lia. }
  destruct (der_integer_reads (take_str 32 signature)) as (r & -> & Hrl & _ & Hrr); [lia|].
  destruct (der_integer_reads (drop_str 32 signature)) as (s & -> & Hsl & _ & Hsr); [lia|].
  cbn [mbind option_bind]. destruct (len_u8_reads (str_len (r +:+ s))) as (n & Hn & Hnv);
    [rewrite str_len_app; lia|].
  eexists. split; [reflexivity|]. rewrite <- bytes_length, !bytes_app, Hn.
  change (bytes (byte 48)) with ["0"%char]. cbn [app]. unfold read_der. cbn [List.length].
  rewrite Hnv, str_len_app, length_app, !bytes_length. split; [lia|].
  specialize (Hsr []). rewrite app_nil_r in Hsr. change (u8 "0" =? 48)%N with true.
  rewrite Nat.eqb_refl, Hrr. cbn [andb mbind option_bind]. rewrite Hsr. cbn [mbind option_bind].
  by rewrite bytes_take, bytes_drop.
Qed.
