(* ===== verification/SignerBundled.v ===== *)
(** * The bundled signers

    A signer built by any of the crate's constructors signs, in one width, what the crate's
    verifier of the same algorithm accepts under the key it publishes, exactly when the
    library takes that key. *)
From S2P Require Import Prelude Time Codec Scope Types Jws Keys Harness Signers.
Local Open Scope Z_scope.

(** ** What the libraries document *)

(** A number is read back from its bytes; a public key is its modulus and its exponent, and
    where the library takes two numbers for a key it is the key of these (it may refuse
    them: it has bounds of its own, on the size of the modulus among others); a signature
    is as wide as the modulus, is read back from its bytes and verifies under the public
    half of its key, whatever the salt. *)
Class RsaLaws `{RsaLib} : Prop := {
  big_roundtrip : forall n, big_from_bytes_be (big_to_bytes_be n) = n;
  big_not_empty : forall n, big_to_bytes_be n <> EmptyString;
  public_new_parts : forall n e p, rsa_public_new n e = Some p -> public_n p = n /\ public_e p = e;
  public_key_ext : forall p q, public_n p = public_n q -> public_e p = public_e q -> p = q;
  public_of_private : forall k, public_n (to_public_key k) = private_n k;
  pkcs1_width : forall k m s, pkcs1_try_sign k m = Some s ->
    Z.of_nat (str_len (pkcs1_to_bytes s)) = public_size (to_public_key k);
  pkcs1_roundtrip : forall s, pkcs1_try_from (pkcs1_to_bytes s) = Some s;
  pkcs1_correct : forall k m s, pkcs1_try_sign k m = Some s -> pkcs1_verify (to_public_key k) m s = true;
  pss_width : forall k salt m s, pss_try_sign_with_rng k salt m = Some s ->
    Z.of_nat (str_len (pss_to_bytes s)) = public_size (to_public_key k);
  pss_roundtrip : forall s, pss_try_from (pss_to_bytes s) = Some s;
  pss_correct : forall k salt m s, pss_try_sign_with_rng k salt m = Some s ->
    pss_verify (to_public_key k) m s = true;
}.

(** A public key has 32 bytes and is read back from them, a signature has 64 and verifies. *)
Class Ed25519Laws `{Ed25519Lib} : Prop := {
  ed_key_length : forall v, str_len (ed_to_bytes v) = 32%nat;
  ed_key_roundtrip : forall v, ed_key_from_bytes (ed_to_bytes v) = Some v;
  ed_sign_length : forall k m, str_len (ed_sign k m) = 64%nat;
  ed_correct : forall k m, ed_verify_strict (ed_verifying_key k) m (ed_sign k m) = true;
}.

(** ** The four backends as one *)
Section bundled.
Context `{Crypto, P256Lib, RsaLib, Ed25519Lib}.

Inductive Bundled : Type :=
| BundledEs256 (key : EcdsaP256Key)
| BundledRs256 (signer : RsaSigner)
| BundledPs256 (signer : Ps256Signer)
| BundledEdDsa (signer : Ed25519Signer).

(** The constructors a host calls. *)
Inductive Construction : Type :=
| Es256FromScalar (kid scalar : string)
| Es256FromPkcs8 (kid der : string)
| Rs256FromPrivate (kid : string) (key : RsaPrivateKey)
| Rs256FromPkcs8 (kid der : string)
| Rs256Generate (kid : string) (bits : Z) (rng : string)
| Ps256FromPrivate (kid : string) (key : RsaPrivateKey)
| Ps256FromPkcs8 (kid der : string)
| Ps256Generate (kid : string) (bits : Z) (rng : string)
| EdDsaFromSeed (kid seed : string)
| EdDsaFromPkcs8 (kid der : string).

Definition rmap {A B E} (f : A -> B) (r : result A E) : result B E := let? a := r in Ok (f a).
Definition construct (c : Construction) : result Bundled string :=
  match c with
  | Es256FromScalar kid scalar => rmap BundledEs256 (from_scalar_bytes kid scalar)
  | Es256FromPkcs8 kid der => rmap BundledEs256 (from_pkcs8_der kid der)
  | Rs256FromPrivate kid key => rmap BundledRs256 (rs256_from_private_key kid key)
  | Rs256FromPkcs8 kid der => rmap BundledRs256 (rs256_from_pkcs8_der kid der)
  | Rs256Generate kid bits rng => rmap BundledRs256 (rs256_generate kid bits rng)
  | Ps256FromPrivate kid key => rmap BundledPs256 (ps256_from_private_key kid key)
  | Ps256FromPkcs8 kid der => rmap BundledPs256 (ps256_from_pkcs8_der kid der)
  | Ps256Generate kid bits rng => rmap BundledPs256 (ps256_generate kid bits rng)
  | EdDsaFromSeed kid seed => rmap BundledEdDsa (ed25519_from_seed_bytes kid seed)
  | EdDsaFromPkcs8 kid der => rmap BundledEdDsa (ed25519_from_pkcs8_der kid der)
  end.

(** What it says about itself, how it signs (a PS256 signature takes a salt of the operating
    system's), and the verifier the crate installs for its algorithm. *)
Definition bundled_signer (b : Bundled) : JwsSigner :=
  match b with
  | BundledEs256 k => p256_signer k
  | BundledRs256 s => rs256_signer s
  | BundledPs256 s => ps256_signer s
  | BundledEdDsa s => ed25519_signer s
  end.
Definition bundled_sign (b : Bundled) (salt input : string) : result JwsSignature string :=
  match b with
  | BundledEs256 k => p256_sign k input
  | BundledRs256 s => rs256_sign s input
  | BundledPs256 s => ps256_sign s salt input
  | BundledEdDsa s => ed25519_sign s input
  end.
Definition bundled_verifier (a : JwsAlg) : JwsVerifier :=
  match a with Es256 => P256Verifier | Rs256 => RsaVerifier | EdDsa => Ed25519Verifier | Ps256 => Ps256Verifier end.

(** The library takes the modulus and the exponent that the signer publishes for a key.  The
    crate bounds the modulus from below only. *)
Definition key_accepted (b : Bundled) : Prop :=
  match b with
  | BundledRs256 s => is_Some (rsa_public_new (public_n (rs_public s)) (public_e (rs_public s)))
  | BundledPs256 s => is_Some (rsa_public_new (public_n (ps_public s)) (public_e (ps_public s)))
  | _ => True
  end.

Lemma rmap_ok {A B E} (f : A -> B) (r : result A E) b : rmap f r = Ok b <-> exists a, r = Ok a /\ b = f a.
Proof. unfold rmap. rewrite and_then_ok. naive_solver. Qed.

(** The modulus floor holds however the signer was built. *)
Lemma rs256_built kid key s : rs256_from_private_key kid key = Ok s ->
  s = {| rs_kid := kid; rs_signing := key; rs_public := to_public_key key |} /\
  MIN_RSA_MODULUS_BITS <= big_bits (private_n key).
Proof. unfold rs256_from_private_key. case_match eqn:Hb; [done|]. intros [= <-]. split; [done|lia]. Qed.
Lemma ps256_built kid key s : ps256_from_private_key kid key = Ok s ->
  s = {| ps_kid := kid; ps_signing := key; ps_public := to_public_key key |} /\
  MIN_RSA_MODULUS_BITS <= big_bits (private_n key).
Proof. unfold ps256_from_private_key. case_match eqn:Hb; [done|]. intros [= <-]. split; [done|lia]. Qed.

Definition well_built (b : Bundled) : Prop :=
  match b with
  | BundledRs256 s => rs_public s = to_public_key (rs_signing s) /\
      MIN_RSA_MODULUS_BITS <= big_bits (private_n (rs_signing s))
  | BundledPs256 s => ps_public s = to_public_key (ps_signing s) /\
      MIN_RSA_MODULUS_BITS <= big_bits (private_n (ps_signing s))
  | _ => True
  end.
Lemma construct_well_built c b : construct c = Ok b -> well_built b.
Proof.
  destruct c; cbn [construct]; rewrite rmap_ok; intros (s & Hs & ->); try exact I.
  - by destruct (rs256_built _ _ _ Hs) as [-> ?].
  - apply and_then_ok in Hs as (key & _ & Hs). by destruct (rs256_built _ _ _ Hs) as [-> ?].
  - unfold rs256_generate in Hs. case_match; [done|]. apply and_then_ok in Hs as (key & _ & Hs).
    by destruct (rs256_built _ _ _ Hs) as [-> ?].
  - by destruct (ps256_built _ _ _ Hs) as [-> ?].
  - apply and_then_ok in Hs as (key & _ & Hs). by destruct (ps256_built _ _ _ Hs) as [-> ?].
  - unfold ps256_generate in Hs. case_match; [done|]. apply and_then_ok in Hs as (key & _ & Hs).
    by destruct (ps256_built _ _ _ Hs) as [-> ?].
Qed.
End bundled.

(** ** Signed here, accepted here *)
Section accepted.
Context `{Crypto, !CryptoLaws _, P256Lib, !P256Laws, RsaLib, !RsaLaws, Ed25519Lib, !Ed25519Laws}.

Lemma big_bytes_not_empty n : str_is_empty (big_to_bytes_be n) = false.
Proof. pose proof (big_not_empty n). by destruct (big_to_bytes_be n). Qed.

(** Two numbers the library takes give the key they came from. *)
Lemma public_new_same p q : rsa_public_new (public_n p) (public_e p) = Some q -> q = p.
Proof. intros [Hn He]%public_new_parts. by apply public_key_ext. Qed.

(** What a verifier does with a key it has published. *)
Lemma verify_rs256_published p kid input sig :
  verify_rs256 (rsa_public_jwk p kid) input sig = true <->
  is_Some (rsa_public_new (public_n p) (public_e p)) /\
  MIN_RSA_MODULUS_BITS <= big_bits (public_n p) /\ Z.of_nat (str_len sig) = public_size p /\
  exists s, pkcs1_try_from sig = Some s /\ pkcs1_verify p input s = true.
Proof.
  cbn. rewrite !b64url_roundtrip, !big_bytes_not_empty, !big_roundtrip. cbn [orb].
  destruct (rsa_public_new _ _) as [q|] eqn:Hp; [apply public_new_same in Hp as ->|split; [done|by intros [[? ?] _]]].
  destruct (Z.ltb_spec (big_bits (public_n p)) MIN_RSA_MODULUS_BITS); [split; [done|lia]|].
  destruct (Z.eqb_spec (Z.of_nat (str_len sig)) (public_size p)); [|naive_solver].
  cbn. destruct (pkcs1_try_from sig); naive_solver.
Qed.
Lemma verify_ps256_published p kid input sig :
  verify_ps256 (rsa_public_jwk p kid) input sig = true <->
  is_Some (rsa_public_new (public_n p) (public_e p)) /\
  MIN_RSA_MODULUS_BITS <= big_bits (public_n p) /\ Z.of_nat (str_len sig) = public_size p /\
  exists s, pss_try_from sig = Some s /\ pss_verify p input s = true.
Proof.
  cbn. rewrite !b64url_roundtrip, !big_bytes_not_empty, !big_roundtrip. cbn [orb].
  destruct (rsa_public_new _ _) as [q|] eqn:Hp; [apply public_new_same in Hp as ->|split; [done|by intros [[? ?] _]]].
  destruct (Z.ltb_spec (big_bits (public_n p)) MIN_RSA_MODULUS_BITS); [split; [done|lia]|].
  destruct (Z.eqb_spec (Z.of_nat (str_len sig)) (public_size p)); [|naive_solver].
  cbn. destruct (pss_try_from sig); naive_solver.
Qed.
Lemma verify_eddsa_published s input sig :
  verify_eddsa (ed25519_public_jwk s) input sig = true <->
  str_len sig = 64%nat /\ ed_verify_strict (ed_verifying_key (ed_signing s)) input sig = true.
Proof.
  cbn. unfold verify_ed25519, ed25519_public_x, ED25519_SIG_LEN, ED25519_KEY_LEN.
  rewrite b64url_roundtrip, ed_key_length, ed_key_roundtrip. cbn.
  destruct (Nat.eqb_spec (str_len sig) 64); naive_solver.
Qed.

(** The width of the signatures under a bundled key. *)
Definition bundled_width (b : Bundled) : Z :=
  match b with
  | BundledRs256 s => public_size (rs_public s)
  | BundledPs256 s => public_size (ps_public s)
  | _ => 64
  end.
Abbreviation verifies b := (jv_verify (bundled_verifier (sg_alg (bundled_signer b))) (sg_public_jwk (bundled_signer b))).

(** The backend in hand. *)
Ltac open_backend := cbn [well_built key_accepted bundled_signer bundled_sign bundled_verifier bundled_width
  sg_alg sg_public_jwk jv_verify p256_signer rs256_signer ps256_signer ed25519_signer
  P256Verifier RsaVerifier Ps256Verifier Ed25519Verifier]; unfold rs256_public_jwk, ps256_public_jwk.

Lemma accepted_width b input sig : verifies b input sig = true -> Z.of_nat (str_len sig) = bundled_width b.
Proof.
  destruct b as [k|s|s|s]; open_backend.
  - cbn. destruct (Nat.eqb_spec (str_len sig) 64) as [Hl|]; cbn [negb]; intros Hv; [lia|discriminate Hv].
  - intros Hv. by apply verify_rs256_published in Hv as (_ & _ & ? & _).
  - intros Hv. by apply verify_ps256_published in Hv as (_ & _ & ? & _).
  - intros [-> _]%verify_eddsa_published. done.
Qed.

Lemma signed_width b salt input sig : well_built b -> bundled_sign b salt input = Ok sig ->
  Z.of_nat (str_len (signature_bytes sig)) = bundled_width b.
Proof.
  destruct b as [k|s|s|s]; open_backend; intros Hb.
  - intros (raw & Hs & [= <-])%and_then_ok. apply verify_own_signature in Hs.
    by apply (accepted_width (BundledEs256 k) input).
  - intros (raw & Hs & [= <-])%and_then_ok. apply and_then_ok in Hs as (g & Hg%ok_or_ok & [= <-]).
    destruct Hb as [-> _]. by eapply pkcs1_width.
  - intros (raw & Hs & [= <-])%and_then_ok. apply and_then_ok in Hs as (g & Hg%ok_or_ok & [= <-]).
    destruct Hb as [-> _]. by eapply pss_width.
  - intros [= <-]. exact (f_equal Z.of_nat (ed_sign_length _ _)).
Qed.

Lemma signed_accepted b salt input sig : well_built b -> bundled_sign b salt input = Ok sig ->
  signature_alg sig = sg_alg (bundled_signer b) /\
  (verifies b input (signature_bytes sig) = true <-> key_accepted b).
Proof.
  destruct b as [k|s|s|s]; open_backend; intros Hb.
  - intros (raw & Hs & [= <-])%and_then_ok. split; [done|]. apply verify_own_signature in Hs. by split.
  - intros (raw & Hs & [= <-])%and_then_ok. apply and_then_ok in Hs as (g & Hg%ok_or_ok & [= <-]). split; [done|].
    destruct Hb as [Hp Hb]. rewrite verify_rs256_published, Hp, public_of_private. cbn.
    split; [by intros [? _]|]. intros Ha.
    split_and!; [done|done|by eapply pkcs1_width|]. exists g. by split; [apply pkcs1_roundtrip|apply pkcs1_correct].
  - intros (raw & Hs & [= <-])%and_then_ok. apply and_then_ok in Hs as (g & Hg%ok_or_ok & [= <-]). split; [done|].
    destruct Hb as [Hp Hb]. rewrite verify_ps256_published, Hp, public_of_private. cbn.
    split; [by intros [? _]|]. intros Ha.
    split_and!; [done|done|by eapply pss_width|]. exists g. by split; [apply pss_roundtrip|eapply pss_correct].
  - intros [= <-]. split; [done|]. split; [done|]. intros _.
    apply verify_eddsa_published. split; [apply ed_sign_length|apply ed_correct].
Qed.

Lemma published_reads b : from_json (jwks_entry (sg_public_jwk (bundled_signer b))) = Ok (sg_public_jwk (bundled_signer b)).
Proof.
  destruct b as [k|s|s|s]; [apply public_jwk_reads|..]; rewrite (proj2 (from_json_written _)); cbn;
    unfold ed25519_public_x; rewrite ?b64url_roundtrip; cbn; by rewrite ?ed_key_length.
Qed.

(** C30. What a bundled signer signs, a bundled verifier accepts, as far as it accepts the key.
    However the host built the signer (ES256, RS256, PS256 or EdDSA; from a key, PKCS#8, a
    seed or freshly generated), each signature it makes has its algorithm's tag, the key it
    publishes is of that algorithm's kind and reads back from the key set it is served in,
    and the verifier installed for the algorithm accepts no signature of another width under
    that key.  It accepts this signature exactly when it can take the key: always for ES256
    and EdDSA, and for RS256 and PS256 if and only if the library's [RsaPublicKey::new]
    takes the published modulus and exponent, which the constructors do not check (they
    bound the modulus from below only). *)
Theorem bundled_signatures_verify c b salt input sig :
  construct c = Ok b -> bundled_sign b salt input = Ok sig ->
  let key := sg_public_jwk (bundled_signer b) in
  let verifier := bundled_verifier (sg_alg (bundled_signer b)) in
  signature_alg sig = jv_alg verifier /\ consistent (jv_alg verifier) key = true /\
  from_json (jwks_entry key) = Ok key /\
  (jv_verify verifier key input (signature_bytes sig) = true <-> key_accepted b) /\
  forall input' sig', jv_verify verifier key input' sig' = true -> str_len sig' = str_len (signature_bytes sig).
Proof.
  intros Hc%construct_well_built Hs. destruct (signed_accepted b salt input sig Hc Hs) as [Ha Hv]. cbn zeta.
  split_and!; [rewrite Ha; by destruct b|by destruct b|apply published_reads|done|].
  intros input' sig' Hv'. apply Nat2Z.inj.
  by rewrite (accepted_width b input' sig'), (signed_width b salt input sig).
Qed.
End accepted.

(** ** A witness *)
Section witnesses.
#[local] Existing Instance plain_crypto.

(** One key of each kind and one signature. *)
#[local] Existing Instances toy_p256 toy_p256_laws.
#[local] Instance toy_rsa : RsaLib := {|
  BigUint := unit; big_from_bytes_be _ := tt; big_to_bytes_be _ := byte 1; big_bits _ := 2048;
  RsaPrivateKey := unit; RsaPublicKey := unit;
  rsa_from_pkcs8_der _ := Some tt; rsa_private_new _ _ := Some tt; private_n _ := tt; to_public_key _ := tt;
  rsa_public_new _ _ := Some tt; public_n _ := tt; public_e _ := tt; public_size _ := 256;
  Pkcs1Signature := unit; pkcs1_try_sign _ _ := Some tt; pkcs1_to_bytes _ := word 256;
  pkcs1_try_from _ := Some tt; pkcs1_verify _ _ _ := true;
  PssSignature := unit; pss_try_sign_with_rng _ _ _ := Some tt; pss_to_bytes _ := word 256;
  pss_try_from _ := Some tt; pss_verify _ _ _ := true |}.
#[local] Instance toy_rsa_laws : RsaLaws.
Proof. split; intros; try done; by repeat match goal with x : _ |- _ => destruct x as [] end. Qed.
#[local] Instance toy_ed25519 : Ed25519Lib := {|
  EdSigningKey := unit; EdVerifyingKey := unit; ed_from_bytes _ := tt; ed_from_pkcs8_der _ := None;
  ed_verifying_key _ := tt; ed_to_bytes _ := word 32; ed_key_from_bytes _ := Some tt;
  ed_sign _ _ := word 64; ed_verify_strict _ _ _ := true |}.
#[local] Instance toy_ed25519_laws : Ed25519Laws.
Proof. split; intros; try done; by destruct v as []. Qed.

Definition demo_ps256 : Ps256Signer := {| ps_kid := "k1"; ps_signing := tt; ps_public := tt |}.

Lemma bundled_signatures_verify_witness :
  verify_ps256 (ps256_public_jwk demo_ps256) "message" (word 256) = true /\
  forall input' sig', verify_ps256 (ps256_public_jwk demo_ps256) input' sig' = true -> str_len sig' = 256%nat.
Proof.
  pose proof (bundled_signatures_verify (Ps256Generate "k1" 2048 "entropy")
    (BundledPs256 demo_ps256) "salt" "message" (SigPs256 (word 256))
    eq_refl eq_refl) as (_ & _ & _ & Hv & Hw).
  split; [apply Hv; exists tt; reflexivity|exact Hw].
Defined.
End witnesses.
