(* ===== verification/SignerFaults.v ===== *)
(** * What the signer suite rejects

    With base64url read as RFC 4648 has it: a signer and verifier of each algorithm that
    pass, and for every published check a pair that differs from the passing one in one
    respect and is reported under its name. *)
From S2P Require Import Prelude Time Codec Scope Types Jws Keys Par Harness SignerSuite SignerFacts.
Local Open Scope Z_scope.

(** ** base64url, RFC 4648 section 5, unpadded *)
Definition sextet (c : ascii) : option N :=
  let n := u8 c in
  if ((65 <=? n) && (n <=? 90))%N then Some (n - 65)%N
  else if ((97 <=? n) && (n <=? 122))%N then Some (n - 71)%N
  else if ((48 <=? n) && (n <=? 57))%N then Some (n + 4)%N
  else if (n =? 45)%N then Some 62%N
  else if (n =? 95)%N then Some 63%N
  else None.
Definition letter (n : N) : ascii :=
  ascii_of_N (if n <? 26 then n + 65 else if n <? 52 then n + 71 else if n <? 62 then n - 4
              else if n =? 62 then 45 else 95)%N.

Definition b1 (x y : N) : ascii := ascii_of_N (4 * x + y / 16)%N.
Definition b2 (y z : N) : ascii := ascii_of_N ((y mod 16) * 16 + z / 4)%N.
Definition b3 (z t : N) : ascii := ascii_of_N ((z mod 4) * 64 + t)%N.

(** The bits a last group leaves over are zero. *)
Fixpoint decode_groups (l : list ascii) : option (list ascii) :=
  match l with
  | [] => Some []
  | [_] => None
  | [a; b] => x ← sextet a; y ← sextet b; then_some (y mod 16 =? 0)%N [b1 x y]
  | [a; b; c] =>
      x ← sextet a; y ← sextet b; z ← sextet c; then_some (z mod 4 =? 0)%N [b1 x y; b2 y z]
  | a :: b :: c :: d :: l =>
      x ← sextet a; y ← sextet b; z ← sextet c; t ← sextet d;
      l ← decode_groups l; Some (b1 x y :: b2 y z :: b3 z t :: l)
  end.
Fixpoint encode_groups (l : list ascii) : list ascii :=
  match l with
  | [] => []
  | [a] => let a := u8 a in [letter (a / 4); letter (a mod 4 * 16)]%N
  | [a; b] =>
      let a := u8 a in let b := u8 b in
      [letter (a / 4); letter (a mod 4 * 16 + b / 16); letter (b mod 16 * 4)]%N
  | a :: b :: c :: l =>
      let a := u8 a in let b := u8 b in let c := u8 c in
      letter (a / 4)%N :: letter (a mod 4 * 16 + b / 16)%N :: letter (b mod 16 * 4 + c / 64)%N
      :: letter (c mod 64)%N :: encode_groups l
  end.
Definition rfc4648 : Crypto := {|
  sha256 := pad32; b64url_encode s := of_bytes (encode_groups (bytes s));
  b64url_decode s := of_bytes <$> decode_groups (bytes s) |}.

Section faults.
#[local] Existing Instance rfc4648.
Context `{Debug}.

(** ** A pair that passes *)

(** The key the signer publishes, of each kind. *)
Definition own_key (alg : JwsAlg) : Jwk :=
  match alg with
  | Es256 => JwkEc P256 LEADING_ZERO_X LEADING_ZERO_Y (Some "k1")
  | Rs256 | Ps256 => JwkRsa "AQAB" "AQAB" (Some "k1")
  | EdDsa => JwkOkp Ed25519 LEADING_ZERO_X (Some "k1")
  end.
Definition same_key (a b : Jwk) : bool := thumbprint_json a == thumbprint_json b.

(** Its signature of a message: the message, padded to 64 bytes. *)
Definition pad64 (m : string) : string := take_str 64 (m +:+ word 64).
Definition tag (alg : JwsAlg) (raw : string) : JwsSignature :=
  match alg with Es256 => SigEs256 raw | Rs256 => SigRs256 raw | EdDsa => SigEdDsa raw | Ps256 => SigPs256 raw end.
Definition padded (alg : JwsAlg) (input : string) (n : nat) : option (result JwsSignature string) * nat :=
  (Some (Ok (tag alg (pad64 input))), n).

(** The RFC's vector, and what the signer's key signed. *)
Definition known (alg : JwsAlg) (k : Jwk) (i s : string) : bool :=
  match profile_of alg with
  | Some p => same_key k (ap_vector_key p) && (i == ap_signing_input p) && (s == ap_vector_signature p)
  | None => false
  end.
Definition own (alg : JwsAlg) (k : Jwk) (i s : string) : bool := same_key k (own_key alg) && (s == pad64 i).
Definition sound (alg : JwsAlg) (k : Jwk) (i s : string) : bool := known alg k i s || own alg k i s.

Definition passing (alg : JwsAlg) : SignerConformance nat := steady alg (own_key alg) (padded alg) (sound alg).

(** ** One fault each, for ES256 *)
Definition a3_signature : string := unwrap_or (b64url_decode A3_SIGNATURE) "".
Definition a3_key : Jwk := JwkEc P256 A3_X A3_Y None.

Definition with_verify (verify : Jwk -> string -> string -> bool) : SignerConformance nat :=
  steady Es256 (own_key Es256) (padded Es256) (fun k i s => own Es256 k i s || verify k i s).
Definition with_sign (sign : string -> nat -> option (result JwsSignature string) * nat) : SignerConformance nat :=
  steady Es256 (own_key Es256) sign (sound Es256).
Definition with_key (key : Jwk) : SignerConformance nat := steady Es256 key (padded Es256) (sound Es256).

Definition refuses_all := with_verify (fun _ _ _ => false).
Definition ignores_key := with_verify (fun k i s => (i == A3_SIGNING_INPUT) && (s == a3_signature)).
Definition ignores_input := with_verify (fun k i s => same_key k a3_key && (s == a3_signature)).
Definition ignores_r := with_verify (fun k i s =>
  same_key k a3_key && (i == A3_SIGNING_INPUT) && Nat.eqb (str_len s) 64 && (drop_str 32 s == drop_str 32 a3_signature)).
Definition accepts_der := with_verify (fun k i s =>
  same_key k a3_key && (i == A3_SIGNING_INPUT) && ((s == a3_signature) || (Some s == der a3_signature))).
Definition reads_a_prefix := with_verify (fun k i s =>
  same_key k a3_key && (i == A3_SIGNING_INPUT) && (take_str 64 s == a3_signature)).
Definition slices_first : SignerConformance nat := signer_conformance_new (sc_signer (passing Es256))
  {| hv_verify := fun k i s n => (if Nat.ltb (str_len s) 64 then None else Some (sound Es256 k i s), n) |}.
Definition refuses_to_sign := with_sign (fun _ n => (Some (Err "the key is disabled"), n)).
Definition panics_when_signing := with_sign (fun _ n => (None, n)).
Definition signs_in_der := with_sign (fun _ n => (Some (Ok (SigEs256 (unwrap_or (der a3_signature) ""))), n)).
Definition signs_something_else := with_sign (fun i n => padded Es256 ("x" +:+ i) n).
Definition shares_a_key := steady Es256 (own_key Es256) (padded Es256)
  (fun k i s => known Es256 k i s || (s == pad64 i)).
Definition signs_a_constant := with_sign (fun _ n => padded Es256 INPUT_A n).
Definition changes_its_key : SignerConformance nat := signer_conformance_new
  {| hs_alg := fun n => (Es256, n); hs_sign := padded Es256;
     hs_public_jwk := fun n => (with_kid (own_key Es256) (nat_display n), S n) |} (sc_verifier (passing Es256)).
Definition publishes_rsa := with_key (own_key Rs256).
Definition publishes_no_kid := with_key (JwkEc P256 LEADING_ZERO_X LEADING_ZERO_Y None).
Definition publishes_the_example := with_key (JwkEc P256 A3_X A3_Y (Some "k1")).

Definition signer_faults : list (string * SignerConformance nat) := [
  (VERIFIER_RFC7515_A3, refuses_all);
  (VERIFIER_REJECTS_A_FOREIGN_KEY, ignores_key);
  (VERIFIER_REJECTS_A_TAMPERED_INPUT, ignores_input);
  (VERIFIER_REJECTS_A_TAMPERED_SIGNATURE, ignores_r);
  (VERIFIER_REJECTS_DER, accepts_der);
  (VERIFIER_REJECTS_A_WRONG_LENGTH_SIGNATURE, reads_a_prefix);
  (VERIFIER_DOES_NOT_PANIC, slices_first);
  (SIGNER_SIGNS, refuses_to_sign);
  (SIGNER_DOES_NOT_PANIC, panics_when_signing);
  (SIGNER_IS_NOT_DER, signs_in_der);
  (SIGNER_VERIFIES_UNDER_ITS_OWN_JWK, signs_something_else);
  (SIGNER_REJECTED_BY_ANOTHER_KEY, shares_a_key);
  (SIGNER_BINDS_THE_SIGNING_INPUT, signs_a_constant);
  (SIGNER_PUBLIC_JWK_IS_STABLE, changes_its_key);
  (SIGNER_PUBLIC_JWK_IS_ES256, publishes_rsa);
  (SIGNER_PUBLIC_JWK_HAS_A_KID, publishes_no_kid);
  (SIGNER_IS_NOT_THE_PUBLISHED_EXAMPLE_KEY, publishes_the_example) ].

Definition named_in_report (p : string * SignerConformance nat) : bool :=
  match run_signer_suite (snd p) 0%nat with
  | Some vs => existsb (fun v => sv_check v == fst p) vs
  | None => false
  end.

(** Every published signer check can fail, and a sound pair of each algorithm fails none.
    For each name in the suite's list there is a signer or verifier that errs in one
    respect, for which the suite ends and reports under that name; and for each of the four
    algorithms there is a pair for which it ends with an empty report. *)
Theorem every_signer_check_catches_a_fault :
  map fst signer_faults = SIGNER_CHECKS /\
  Forall (fun p => named_in_report p = true) signer_faults /\
  Forall (fun alg => run_signer_suite (passing alg) 0%nat = Some []) ALL.
Proof.
  split; [reflexivity|]. split; (apply Forall_forall; intros p Hp).
  - assert (forallb named_in_report signer_faults = true) as Hall by (vm_compute; reflexivity).
    rewrite forallb_forall in Hall. by apply Hall, list_elem_of_In.
  - destruct p; vm_compute; reflexivity.
Qed.
End faults.
