(* ===== verification/Shapes.v ===== *)
(** * The black-box validators (oauth-as-conformance) and what the server serves

    The crate oauth-as-conformance judges a running server by its answers alone: the shape
    of an error body, a token response, a device authorization response, the metadata
    document and an access token, and a signature against the published keys.  Here are its
    validators, the JSON the server's derived serializations produce, and what the one says
    of the other. *)
From S2P Require Import Prelude Time Codec Scope Types Effects Rar Jws Keys Credentials Config Metadata Harness.
Local Open Scope Z_scope.

(** The [url] crate's verdict, the messages of the decoders, and [jsonwebtoken]. *)
Class ShapeLib := {
  url_parses : string -> bool;
  base64_error : string -> string;
  json_error : string -> string;
  DecodingKey : Type;
  from_rsa_components : string -> string -> result DecodingKey string;
  from_ec_components : string -> string -> result DecodingKey string;
  jwt_decode : JwsAlg -> string -> DecodingKey -> result unit string;
}.

Definition TOKEN_ERROR_CODES : list string := [
  "invalid_request"; "invalid_client"; "invalid_grant"; "unauthorized_client"; "unsupported_grant_type";
  "invalid_scope"; "authorization_pending"; "slow_down"; "access_denied"; "expired_token"].

(** [Value::get], [is_object], [is_string], [is_number] *)
Definition value_get (v : Value) (key : string) : option Value :=
  match v with VObject m => map_get key m | _ => None end.
Definition is_object (v : Value) : bool := match v with VObject _ => true | _ => false end.
Definition is_string (v : Value) : bool := match v with VString _ => true | _ => false end.
Definition is_number (v : Value) : bool := match v with VNumber _ => true | _ => false end.

Section validators.
Context `{Crypto, Serde, ShapeLib}.

Definition quoted (s : string) : string := q +:+ s +:+ q.
#[local] Instance display_Value : Display Value := json_to_string.

Definition pkce_s256_challenge (verifier : string) : string := b64url_encode (sha256 verifier).

Definition require_string (obj : Value) (key cite : string) : list string :=
  match value_get obj key with
  | None => ["missing required member " +:+ quoted key +:+ " (" +:+ cite +:+ ")"]
  | Some (VString _) => []
  | Some other => ["member " +:+ quoted key +:+ " must be a JSON string, got " +:+ display other
                   +:+ " (" +:+ cite +:+ ")"]
  end.
Definition optional_string (obj : Value) (key cite : string) : list string :=
  match value_get obj key with
  | Some v => if negb (is_string v) then
      ["member " +:+ quoted key +:+ " must be a JSON string when present, got " +:+ display v
       +:+ " (" +:+ cite +:+ ")"] else []
  | None => []
  end.
Definition optional_number (obj : Value) (key cite : string) : list string :=
  match value_get obj key with
  | Some v => if negb (is_number v) then
      ["member " +:+ quoted key +:+ " must be a JSON number when present, got " +:+ display v
       +:+ " (" +:+ cite +:+ ")"] else []
  | None => []
  end.

(** RFC 6749 section 5.2: what an [error_description] must not hold *)
Definition outside_description (c : ascii) : bool :=
  negb (in_range 32 126 c) || (u8 c =? 34)%N || (u8 c =? 92)%N.

Definition validate_error_body (body : Value) : list string :=
  if negb (is_object body) then
    ["error body must be a JSON object (RFC 6749 s5.2), got " +:+ display body]
  else
    require_string body "error" "RFC 6749 s5.2"
    ++ match value_get body "error" with
       | Some (VString code) =>
           if negb (existsb (fun c => c == code) TOKEN_ERROR_CODES) then
             ["error code " +:+ quoted code +:+ " is not one of the RFC 6749 s5.2 / RFC 8628 s3.5 codes"]
           else []
       | _ => []
       end
    ++ optional_string body "error_description" "RFC 6749 s5.2"
    ++ optional_string body "error_uri" "RFC 6749 s5.2"
    ++ match value_get body "error_description" with
       | Some (VString d) =>
           if existsb outside_description (bytes d) then
             ["error_description contains characters outside %x20-21 / %x23-5B / %x5D-7E (RFC 6749 s5.2)"]
           else []
       | _ => []
       end.

Definition validate_token_response (body : Value) : list string :=
  if negb (is_object body) then
    ["token response must be a JSON object (RFC 6749 s5.1), got " +:+ display body]
  else
    require_string body "access_token" "RFC 6749 s5.1"
    ++ require_string body "token_type" "RFC 6749 s5.1"
    ++ match value_get body "token_type" with
       | Some (VString t) =>
           if negb (DpopProof.eq_ignore_ascii_case t "bearer") && negb (DpopProof.eq_ignore_ascii_case t "dpop") then
             ["token_type " +:+ quoted t +:+ " is neither Bearer (RFC 6750) nor DPoP (RFC 9449)"]
           else []
       | _ => []
       end
    ++ optional_number body "expires_in" "RFC 6749 s5.1"
    ++ optional_string body "refresh_token" "RFC 6749 s5.1"
    ++ optional_string body "scope" "RFC 6749 s5.1".

Definition validate_device_authorization_response (body : Value) : list string :=
  if negb (is_object body) then
    ["device authorization response must be a JSON object (RFC 8628 s3.2), got " +:+ display body]
  else
    require_string body "device_code" "RFC 8628 s3.2"
    ++ require_string body "user_code" "RFC 8628 s3.2"
    ++ require_string body "verification_uri" "RFC 8628 s3.2"
    ++ optional_string body "verification_uri_complete" "RFC 8628 s3.2"
    ++ match value_get body "expires_in" with
       | None => ["missing required member " +:+ quoted "expires_in" +:+ " (RFC 8628 s3.2)"]
       | Some x => if negb (is_number x) then
           ["member " +:+ quoted "expires_in" +:+ " must be a JSON number, got " +:+ display x
            +:+ " (RFC 8628 s3.2)"] else []
       end
    ++ optional_number body "interval" "RFC 8628 s3.2"
    ++ match value_get body "verification_uri" with
       | Some (VString u) => if negb (url_parses u) then
           ["verification_uri " +:+ quoted u +:+ " is not a valid URI (RFC 8628 s3.2)"] else []
       | _ => []
       end.

(** One member of the metadata that must be a list with [needed] in it. *)
Definition has_string (needed : string) (items : list Value) : bool := existsb (fun x => x == VString needed) items.

Definition metadata_issuer (body : Value) (expected_issuer : string) : list string :=
  require_string body "issuer" "RFC 8414 s2 (REQUIRED)"
  ++ match value_get body "issuer" with
     | Some (VString iss) =>
         (if trim_end_matches "/" iss != trim_end_matches "/" expected_issuer then
            ["issuer " +:+ quoted iss +:+ " does not match the URL the metadata was retrieved from "
             +:+ quoted expected_issuer +:+ " (RFC 8414 s3.3)"] else [])
         ++ (if contains_char "?" iss || contains_char "#" iss then
               ["issuer must have no query or fragment (RFC 8414 s2)"] else [])
     | _ => []
     end.
Definition metadata_lists (body : Value) : list string :=
  match value_get body "response_types_supported" with
  | None => ["missing required member " +:+ quoted "response_types_supported" +:+ " (RFC 8414 s2)"]
  | Some (VArray a) => if negb (has_string "code" a) then
      ["response_types_supported must include " +:+ quoted "code"
       +:+ " for an OAuth 2.1 AS (RFC 8414 s2; OAuth 2.1 removes the implicit grant)"] else []
  | Some other => ["response_types_supported must be a JSON array, got " +:+ display other +:+ " (RFC 8414 s2)"]
  end
  ++ match value_get body "grant_types_supported" with
     | Some (VArray a) =>
         flat_map (fun needed => if negb (has_string needed a) then
             ["grant_types_supported must include " +:+ quoted needed
              +:+ " (RFC 8414 s2; device grant per RFC 8628)"] else [])
           ["authorization_code"; "urn:ietf:params:oauth:grant-type:device_code"]
     | Some other => ["grant_types_supported must be a JSON array, got " +:+ display other +:+ " (RFC 8414 s2)"]
     | None => []
     end
  ++ match value_get body "code_challenge_methods_supported" with
     | None => ["missing code_challenge_methods_supported; OAuth 2.1 requires PKCE support and "
                +:+ "RFC 8414 s2 defines how it is advertised"]
     | Some (VArray a) => if negb (has_string "S256" a) then
         ["code_challenge_methods_supported must include " +:+ quoted "S256"
          +:+ " (RFC 7636 s4.2; OAuth 2.1 makes S256 the baseline)"] else []
     | Some other => ["code_challenge_methods_supported must be a JSON array, got " +:+ display other
                      +:+ " (RFC 8414 s2)"]
     end.

Definition METADATA_URLS : list string := [
  "authorization_endpoint"; "token_endpoint"; "device_authorization_endpoint"; "jwks_uri";
  "revocation_endpoint"; "introspection_endpoint"].
Definition metadata_url (body : Value) (key : string) : list string :=
  match value_get body key with
  | Some (VString u) => if negb (url_parses u) then
      [key +:+ " " +:+ quoted u +:+ " is not a valid URL (RFC 8414 s2)"] else []
  | _ => []
  end.

Definition validate_as_metadata (body : Value) (expected_issuer : string) : list string :=
  if negb (is_object body) then ["metadata must be a JSON object (RFC 8414 s2), got " +:+ display body]
  else
    metadata_issuer body expected_issuer
    ++ require_string body "authorization_endpoint" "RFC 8414 s2"
    ++ require_string body "token_endpoint" "RFC 8414 s2"
    ++ require_string body "device_authorization_endpoint" "RFC 8628 s4"
    ++ metadata_lists body
    ++ flat_map (metadata_url body) METADATA_URLS.

(** [b64url_decode] and [serde_json::from_slice], with their messages *)
Definition decode_part (part : string) : result string string := ok_or (b64url_decode part) (base64_error part).
Definition parse_part (what part : string) : result Value string :=
  let? raw := decode_part part in
  ok_or (json_from_slice raw) (what +:+ " is not valid JSON: " +:+ json_error raw).

Definition decode_jwt_unverified (token : string) : result (Value * Value) string :=
  match split_on "." token with
  | [header; payload; signature] =>
      let? header := parse_part "JWS protected header" header in
      let? payload := parse_part "JWS payload" payload in
      let? _ := decode_part signature in
      Ok (header, payload)
  | parts => Err ("JWT must have exactly 3 dot-separated parts (RFC 7515 s3.1), got "
                  +:+ display (List.length parts))
  end.

Definition access_token_header (header : Value) : list string :=
  match value_get header "typ" with
  | None => ["header missing " +:+ quoted "typ" +:+ "; RFC 9068 s2.1 REQUIRES typ at+jwt"]
  | Some (VString t) =>
      if negb (DpopProof.eq_ignore_ascii_case t "at+jwt") && negb (DpopProof.eq_ignore_ascii_case t "application/at+jwt")
      then ["header typ " +:+ quoted t +:+ " must be " +:+ quoted "at+jwt" +:+ " or "
            +:+ quoted "application/at+jwt" +:+ " (RFC 9068 s2.1)"] else []
  | Some other => ["header typ must be a string, got " +:+ display other +:+ " (RFC 9068 s2.1)"]
  end
  ++ match value_get header "alg" with
     | None => ["header missing " +:+ quoted "alg" +:+ " (RFC 7515 s4.1.1)"]
     | Some (VString a) => if DpopProof.eq_ignore_ascii_case a "none" then
         ["alg " +:+ quoted "none" +:+ " is forbidden for access tokens (RFC 9068 s2.1)"] else []
     | Some other => ["header alg must be a string, got " +:+ display other]
     end.

Inductive claim_kind : Type := KString | KNumber | KStringOrArray.
Definition kind_name (k : claim_kind) : string :=
  match k with KString => "string" | KNumber => "number" | KStringOrArray => "string-or-array" end.
Definition REQUIRED_CLAIMS : list (string * claim_kind) := [
  ("iss", KString); ("exp", KNumber); ("aud", KStringOrArray); ("sub", KString); ("client_id", KString);
  ("iat", KNumber); ("jti", KString)].
Definition claim_fits (v : option Value) (k : claim_kind) : bool :=
  match v, k with
  | Some (VString _), (KString | KStringOrArray) => true
  | Some (VArray a), KStringOrArray => forallb is_string a
  | Some (VNumber _), KNumber => true
  | _, _ => false
  end.

Definition validate_rfc9068_access_token (token : string) : list string :=
  match decode_jwt_unverified token with
  | Err e => [e]
  | Ok (header, claims) =>
      access_token_header header
      ++ flat_map (fun '(claim, kind) => if negb (claim_fits (value_get claims claim) kind) then
           ["claim " +:+ quoted claim +:+ " missing or wrong type (must be " +:+ kind_name kind
            +:+ "); RFC 9068 s2.2 REQUIRES iss, exp, aud, sub, client_id, iat, jti"] else []) REQUIRED_CLAIMS
  end.
End validators.

(** ** A signature against the published keys *)
Section keys.
Context `{Crypto, Serde, ShapeLib, Debug}.

Definition key_str (key : Value) (name : string) : string := unwrap_or (value_get key name ≫= as_str) "".
Definition decoding_key (alg : JwsAlg) (key : Value) : result DecodingKey string :=
  match alg with
  | Rs256 => from_rsa_components (key_str key "n") (key_str key "e")
  | _ => from_ec_components (key_str key "x") (key_str key "y")
  end.
Fixpoint try_keys (alg : JwsAlg) (token last_err : string) (candidates : list Value) : result unit string :=
  match candidates with
  | [] => Err ("signature did not verify against any advertised JWK: " +:+ last_err)
  | key :: candidates =>
      match decoding_key alg key with
      | Ok dk =>
          match jwt_decode alg token dk with
          | Ok _ => Ok tt
          | Err e => try_keys alg token e candidates
          end
      | Err e => try_keys alg token e candidates
      end
  end.
Definition kid_admits (kid : option string) (key : Value) : bool :=
  match kid, value_get key "kid" ≫= as_str with
  | Some want, Some have => want == have
  | _, _ => true
  end.

Definition verify_jwt_against_jwks (token : string) (jwks : Value) : result unit string :=
  let? decoded := decode_jwt_unverified token in
  let header := fst decoded in
  let? alg := ok_or (value_get header "alg" ≫= as_str) "missing alg header" in
  let kid := value_get header "kid" ≫= as_str in
  let? keys := ok_or (match value_get jwks "keys" with Some (VArray a) => Some a | _ => None end)
                 ("JWKS document has no " +:+ quoted "keys" +:+ " array (RFC 7517 s5)") in
  let candidates := List.filter (kid_admits kid) keys in
  if Nat.eqb (List.length candidates) 0 then Err ("no JWKS key matches kid " +:+ debug kid)
  else if alg == "RS256" then try_keys Rs256 token "no candidate key attempted" candidates
  else if alg == "ES256" then try_keys Es256 token "no candidate key attempted" candidates
  else Err ("unsupported alg " +:+ quoted alg +:+ " (harness verifies RS256/ES256)").
End keys.

(** ** What the derived [Serialize] of a reply writes *)

(** The members that are records of their own. *)
Class RecordJson := {
  details_json : AuthorizationDetails -> Value;
  confirmation_json : Confirmation -> Value;
  act_json : ActClaim -> Value;
}.

Definition u64_json (n : Z) : Value := VNumber (PosInt n).
Definition strings_json (l : list string) : Value := VArray (map VString l).
(** [skip_serializing_if = "Option::is_none"] *)
Definition member {A} (name : string) (f : A -> Value) (o : option A) : list (string * Value) :=
  match o with Some a => [(name, f a)] | None => [] end.

Section serialize.
Context `{RecordJson}.

(** [skip_serializing_if = "AuthorizationDetails::is_empty"] *)
Definition details_member (d : AuthorizationDetails) : list (string * Value) :=
  match d with [] => [] | _ => [("authorization_details", details_json d)] end.

Definition token_type_json (t : TokenType) : Value :=
  VString (match t with Bearer => "Bearer" | Dpop => "DPoP" end).
Definition token_response_json (r : TokenResponse) : Value :=
  VObject ([("access_token", VString (tr_access_token r)); ("token_type", token_type_json (tr_token_type r));
            ("expires_in", u64_json (tr_expires_in r))]
           ++ member "refresh_token" VString (tr_refresh_token r) ++ member "scope" VString (tr_scope r)
           ++ details_member (tr_authorization_details r)).

Definition device_response_json (r : DeviceAuthorizationResponse) : Value :=
  VObject ([("device_code", VString (dar_device_code r)); ("user_code", VString (dar_user_code r));
            ("verification_uri", VString (dar_verification_uri r))]
           ++ member "verification_uri_complete" VString (dar_verification_uri_complete r)
           ++ [("expires_in", u64_json (dar_expires_in r)); ("interval", u64_json (dar_interval r))]).

Definition error_response_json (e : ErrorResponse) : Value :=
  VObject ([("error", VString (error_as_str (error e)))]
           ++ member "error_description" VString (error_description e) ++ member "error_uri" VString (error_uri e)).

Definition metadata_json (m : AuthorizationServerMetadata) : Value :=
  VObject ([("issuer", VString (md_issuer m)); ("authorization_endpoint", VString (md_authorization_endpoint m));
            ("token_endpoint", VString (md_token_endpoint m));
            ("device_authorization_endpoint", VString (md_device_authorization_endpoint m))]
    ++ member "introspection_endpoint" VString (md_introspection_endpoint m)
    ++ member "revocation_endpoint" VString (md_revocation_endpoint m)
    ++ member "registration_endpoint" VString (md_registration_endpoint m)
    ++ member "jwks_uri" VString (md_jwks_uri m)
    ++ member "scopes_supported" strings_json (md_scopes_supported m)
    ++ member "pushed_authorization_request_endpoint" VString (md_pushed_authorization_request_endpoint m)
    ++ member "require_pushed_authorization_requests" VBool (md_require_pushed_authorization_requests m)
    ++ member "request_object_signing_alg_values_supported" strings_json (md_request_object_signing_alg_values_supported m)
    ++ member "require_signed_request_object" VBool (md_require_signed_request_object m)
    ++ [("response_types_supported", strings_json (md_response_types_supported m));
        ("response_modes_supported", strings_json (md_response_modes_supported m));
        ("grant_types_supported", strings_json (md_grant_types_supported m));
        ("token_endpoint_auth_methods_supported", strings_json (md_token_endpoint_auth_methods_supported m))]
    ++ member "token_endpoint_auth_signing_alg_values_supported" strings_json
         (md_token_endpoint_auth_signing_alg_values_supported m)
    ++ member "dpop_signing_alg_values_supported" strings_json (md_dpop_signing_alg_values_supported m)
    ++ [("code_challenge_methods_supported", strings_json (md_code_challenge_methods_supported m))]
    ++ member "service_documentation" VString (md_service_documentation m)
    ++ member "protected_resources" strings_json (md_protected_resources m)
    ++ member "authorization_details_types_supported" strings_json (md_authorization_details_types_supported m)
    ++ [("client_id_metadata_document_supported", VBool (md_client_id_metadata_document_supported m));
        ("authorization_response_iss_parameter_supported", VBool (md_authorization_response_iss_parameter_supported m));
        ("tls_client_certificate_bound_access_tokens", VBool (md_tls_client_certificate_bound_access_tokens m))]).

(** [#[serde(untagged)]] *)
Definition audience_json (a : Audience) : Value :=
  match a with AudOne s => VString s | AudMany l => strings_json l end.
Definition claims_json (c : AccessTokenClaims) : Value :=
  VObject ([("iss", VString (atc_iss c)); ("exp", u64_json (atc_exp c)); ("aud", audience_json (atc_aud c));
            ("sub", VString (atc_sub c)); ("client_id", VString (atc_client_id c)); ("iat", u64_json (atc_iat c));
            ("jti", VString (atc_jti c))]
           ++ member "scope" VString (atc_scope c) ++ details_member (atc_authorization_details c)
           ++ member "auth_time" u64_json (atc_auth_time c) ++ member "acr" VString (atc_acr c)
           ++ member "cnf" confirmation_json (atc_cnf c) ++ member "act" act_json (atc_act c)).
End serialize.

(** ** What the validators say of what the server serves *)
Lemma get_member_other {A} n (f : A -> Value) o k l : n <> k -> map_get k (member n f o ++ l) = map_get k l.
Proof. intros Hn. destruct o; [|done]. cbn. by rewrite bool_decide_eq_false_2. Qed.
Lemma get_member {A} n (f : A -> Value) o l :
  map_get n (member n f o ++ l) = match o with Some a => Some (f a) | None => map_get n l end.
Proof. destruct o; [|done]. cbn. by rewrite bool_decide_eq_true_2. Qed.
Lemma has_string_in x l : has_string x (map VString l) = true <-> x ∈ l.
Proof.
  unfold has_string. rewrite existsb_exists. setoid_rewrite bool_decide_eq_true. setoid_rewrite in_map_iff.
  rewrite list_elem_of_In. split; [by intros (v & (s & <- & ?) & [= ->])|eauto].
Qed.
Lemma unless_nil (b : bool) (s : string) : (if b then [s] else []) = [] <-> b = false.
Proof. by destruct b. Qed.
Lemma app_nil {A} (l m : list A) : l ++ m = [] <-> l = [] /\ m = [].
Proof. split; [apply app_eq_nil|by intros [-> ->]]. Qed.
Lemma get_cons_other n v k l : n <> k -> map_get k ((n, v) :: l) = map_get k l.
Proof. intros Hn. cbn. by rewrite bool_decide_eq_false_2. Qed.
Lemma get_cons n v l : map_get n ((n, v) :: l) = Some v.
Proof. cbn. by rewrite bool_decide_eq_true_2. Qed.
(** Look a name up past the members of other names. *)
Ltac find_member := cbn [value_get]; unfold metadata_json; cbn [value_get]; rewrite <- ?app_assoc; cbn [app];
  repeat first [rewrite get_member_other by discriminate | rewrite get_cons_other by discriminate
               | rewrite get_member | rewrite get_cons | progress cbn [app]].

Section conform.
Context `{Crypto, Serde, ShapeLib, RecordJson}.

Lemma token_conforms r : validate_token_response (token_response_json r) = [].
Proof. by destruct r as [a [] e [rt|] [sc|] [|d ds]]. Qed.

Lemma device_conforms r :
  validate_device_authorization_response (device_response_json r) = [] <-> url_parses (dar_verification_uri r) = true.
Proof.
  rewrite <- negb_false_iff, <- (unless_nil _ ("verification_uri " +:+ quoted (dar_verification_uri r)
    +:+ " is not a valid URI (RFC 8628 s3.2)")). by destruct r as [d u v [c|] e i].
Qed.

Lemma error_conforms e : validate_error_body (error_response_json e) = [] <->
  error_as_str (error e) ∈ TOKEN_ERROR_CODES /\
  forall d, error_description e = Some d -> existsb outside_description (bytes d) = false.
Proof.
  assert (Hc : (if negb (existsb (fun c => c == error_as_str (error e)) TOKEN_ERROR_CODES) then
     ["error code " +:+ quoted (error_as_str (error e)) +:+ " is not one of the RFC 6749 s5.2 / RFC 8628 s3.5 codes"]
     else []) = [] <-> error_as_str (error e) ∈ TOKEN_ERROR_CODES).
  { rewrite unless_nil, negb_false_iff, existsb_exists, list_elem_of_In. setoid_rewrite bool_decide_eq_true.
    split; [by intros (c & ? & <-)|eauto]. }
  rewrite <- Hc. transitivity ((if negb (existsb (fun c => c == error_as_str (error e)) TOKEN_ERROR_CODES) then
     ["error code " +:+ quoted (error_as_str (error e)) +:+ " is not one of the RFC 6749 s5.2 / RFC 8628 s3.5 codes"]
     else []) ++ match error_description e with
       | Some d => if existsb outside_description (bytes d) then
           ["error_description contains characters outside %x20-21 / %x23-5B / %x5D-7E (RFC 6749 s5.2)"] else []
       | None => [] end = []); [by destruct e as [c [d|] [u|]]|].
  rewrite app_nil. destruct (error_description e); rewrite ?unless_nil; naive_solver.
Qed.

(** Where the validator looks in the document. *)
Lemma metadata_members m :
  value_get (metadata_json m) "issuer" = Some (VString (md_issuer m)) /\
  value_get (metadata_json m) "authorization_endpoint" = Some (VString (md_authorization_endpoint m)) /\
  value_get (metadata_json m) "token_endpoint" = Some (VString (md_token_endpoint m)) /\
  value_get (metadata_json m) "device_authorization_endpoint" = Some (VString (md_device_authorization_endpoint m)) /\
  value_get (metadata_json m) "jwks_uri" = VString <$> md_jwks_uri m /\
  value_get (metadata_json m) "revocation_endpoint" = VString <$> md_revocation_endpoint m /\
  value_get (metadata_json m) "introspection_endpoint" = VString <$> md_introspection_endpoint m /\
  value_get (metadata_json m) "response_types_supported" = Some (strings_json (md_response_types_supported m)) /\
  value_get (metadata_json m) "grant_types_supported" = Some (strings_json (md_grant_types_supported m)) /\
  value_get (metadata_json m) "code_challenge_methods_supported" = Some (strings_json (md_code_challenge_methods_supported m)).
Proof.
  split_and!; try (by find_member); find_member; case_match; try done;
    repeat first [rewrite get_member_other by discriminate | rewrite get_cons_other by discriminate | progress cbn [app]];
    rewrite <- (app_nil_r [_; _; _]); by repeat rewrite get_cons_other by discriminate.
Qed.

Definition metadata_urls (m : AuthorizationServerMetadata) : list string :=
  [md_authorization_endpoint m; md_token_endpoint m; md_device_authorization_endpoint m]
  ++ option_list (md_jwks_uri m) ++ option_list (md_revocation_endpoint m) ++ option_list (md_introspection_endpoint m).

Lemma optional_url key (o : option string) :
  (match VString <$> o with
   | Some (VString u) => if negb (url_parses u) then
       [key +:+ " " +:+ quoted u +:+ " is not a valid URL (RFC 8414 s2)"] else []
   | _ => []
   end) = [] <-> Forall (fun u => url_parses u = true) (option_list o).
Proof. destruct o; cbn; [|naive_solver]. rewrite unless_nil, negb_false_iff, Forall_singleton. done. Qed.

Lemma document_conforms m expected : validate_as_metadata (metadata_json m) expected = [] <->
  (trim_end_matches "/" (md_issuer m) = trim_end_matches "/" expected /\
   contains_char "?" (md_issuer m) = false /\ contains_char "#" (md_issuer m) = false) /\
  ("code" ∈ md_response_types_supported m /\
   "authorization_code" ∈ md_grant_types_supported m /\
   "urn:ietf:params:oauth:grant-type:device_code" ∈ md_grant_types_supported m /\
   "S256" ∈ md_code_challenge_methods_supported m) /\
  Forall (fun u => url_parses u = true) (metadata_urls m).
Proof.
  destruct (metadata_members m) as (Hi & Ha & Ht & Hd & Hj & Hr & Hn & Hrt & Hg & Hc).
  unfold validate_as_metadata, metadata_issuer, metadata_lists, require_string, METADATA_URLS, metadata_url.
  cbn [flat_map is_object metadata_json negb]. rewrite Hi, Ha, Ht, Hd, Hj, Hr, Hn, Hrt, Hg, Hc.
  unfold strings_json, metadata_urls.
  rewrite ?app_nil, ?optional_url, ?unless_nil, ?negb_false_iff, ?has_string_in, ?orb_false_iff,
    ?bool_decide_eq_true, ?Forall_app, ?Forall_cons, ?Forall_nil. tauto.
Qed.

(** The verifiers a host installs change only the lists of algorithms. *)
Lemma metadata_field {A} `{Backends} self (f : AuthorizationServerMetadata -> A) :
  (forall m a, f (mark_alg_verifiable m a) = f m) -> f (metadata self) = f (from_config (sv_config self)).
Proof.
  intros Hf. unfold metadata. induction ALL as [|a l IH] using rev_ind; [done|]. rewrite foldl_snoc.
  case_match; [by rewrite Hf|done].
Qed.

Lemma server_metadata_conforms `{Backends} self expected :
  let issuer := trim_end_matches "/" (cfg_issuer (sv_config self)) in
  validate_as_metadata (metadata_json (metadata self)) expected = [] <->
  issuer = trim_end_matches "/" expected /\ contains_char "?" issuer = false /\ contains_char "#" issuer = false /\
  Forall (fun u => url_parses u = true) (metadata_urls (from_config (sv_config self))).
Proof.
  intros issuer. rewrite document_conforms.
  rewrite (metadata_field self md_issuer), (metadata_field self md_response_types_supported),
    (metadata_field self md_grant_types_supported), (metadata_field self md_code_challenge_methods_supported),
    (metadata_field self metadata_urls) by done.
  cbn [from_config md_issuer md_response_types_supported md_grant_types_supported md_code_challenge_methods_supported].
  fold issuer. unfold issuer at 1. rewrite trim_end_idem. fold issuer.
  assert ("authorization_code" ∈ ["authorization_code"] ++ (if cfg_issue_refresh_tokens (sv_config self) then ["refresh_token"] else [])
       ++ ["client_credentials"; grant_as_str DeviceCode; grant_as_str TokenExchange]) by set_solver.
  assert ("urn:ietf:params:oauth:grant-type:device_code" ∈ ["authorization_code"] ++ (if cfg_issue_refresh_tokens (sv_config self) then ["refresh_token"] else [])
       ++ ["client_credentials"; grant_as_str DeviceCode; grant_as_str TokenExchange])
    by (cbn; case_match; set_solver).
  split; [tauto|]. intros (? & ? & ? & ?). split_and!; try done; set_solver.
Qed.

Lemma audience_fits a : claim_fits (Some (audience_json a)) KStringOrArray = true.
Proof. destruct a as [s|l]; [done|]. cbn. by induction l. Qed.

(** A token reads back as the header and the claims it was written from. *)
Lemma decode_written `{!CryptoLaws _} header payload signature h c :
  json_from_slice header = Some h -> json_from_slice payload = Some c ->
  decode_jwt_unverified (b64url_encode header +:+ "." +:+ b64url_encode payload +:+ "." +:+ b64url_encode signature)
  = Ok (h, c).
Proof.
  intros Hh Hc. unfold decode_jwt_unverified. rewrite !str_app_cons, !str_app_nil_l.
  rewrite !ScopeSet.split_on_app_space by apply b64url_no_dot. rewrite ScopeSet.split_on_none by apply b64url_no_dot.
  unfold parse_part, decode_part. rewrite !b64url_roundtrip. cbn. by rewrite Hh, Hc.
Qed.

Lemma access_token_conforms `{!CryptoLaws _, Backends} s0 aud ops cfg claims payload compact signature :
  reads_headers -> key_ops ops (jwt_new s0 aud) = Ok cfg ->
  claims_to_vec claims = Some payload -> json_from_slice payload = Some (claims_json claims) ->
  signing_input cfg claims = Some compact ->
  validate_rfc9068_access_token (compact +:+ "." +:+ b64url_encode signature) = [].
Proof.
  intros Hreads Hcfg Hvec Hjson Hin. unfold signing_input in Hin. case_match; [done|]. rewrite Hvec in Hin.
  injection Hin as <-. rewrite (cw_header cfg) by (eapply key_ops_wf; [apply jwt_new_wf|exact Hcfg]).
  unfold encoded_jose_header. rewrite !str_app_assoc. unfold validate_rfc9068_access_token.
  erewrite decode_written; [|apply (Hreads (jc_alg cfg)), escape_kid_reads|exact Hjson].
  unfold REQUIRED_CLAIMS. cbn [flat_map].
  change (value_get (claims_json claims) "aud") with (Some (audience_json (atc_aud claims))).
  rewrite audience_fits. by destruct (jc_alg cfg).
Qed.
End conform.

(** C25. What the server serves passes the repository's own black-box validators.  A token
    response always does; a device authorization response does when the configured
    verification URI is a URI; the metadata document does exactly when the configured issuer
    is the one it is fetched from, has no query or fragment, and the advertised endpoints are
    URLs; an error does exactly when its code is among the ten the validator knows and its
    description keeps to the characters RFC 6749 allows; and an access token signed in
    any configuration of keys reached by rotation does, whatever the signature.  So no
    choice of grant, refresh token, scope, details, algorithms or optional endpoint makes the
    server leave the published formats. *)
Theorem served_documents_conform `{Crypto, !CryptoLaws _, Serde, ShapeLib, RecordJson, Backends} :
  (forall r, validate_token_response (token_response_json r) = []) /\
  (forall r, validate_device_authorization_response (device_response_json r) = [] <->
     url_parses (dar_verification_uri r) = true) /\
  (forall self expected, let issuer := trim_end_matches "/" (cfg_issuer (sv_config self)) in
     validate_as_metadata (metadata_json (metadata self)) expected = [] <->
     issuer = trim_end_matches "/" expected /\ contains_char "?" issuer = false /\ contains_char "#" issuer = false /\
     Forall (fun u => url_parses u = true) (metadata_urls (from_config (sv_config self)))) /\
  (forall e, validate_error_body (error_response_json e) = [] <->
     error_as_str (error e) ∈ TOKEN_ERROR_CODES /\
     forall d, error_description e = Some d -> existsb outside_description (bytes d) = false) /\
  (forall s0 aud ops cfg claims payload compact signature,
     reads_headers -> key_ops ops (jwt_new s0 aud) = Ok cfg ->
     claims_to_vec claims = Some payload -> json_from_slice payload = Some (claims_json claims) ->
     signing_input cfg claims = Some compact ->
     validate_rfc9068_access_token (compact +:+ "." +:+ b64url_encode signature) = []).
Proof.
  split_and!; [apply token_conforms|apply device_conforms|intros; apply server_metadata_conforms|
    apply error_conforms|intros; by eapply access_token_conforms].
Qed.

(** ** A witness *)
Section witnesses.
#[local] Existing Instance plain_crypto.
#[local] Instance plain_shapes : ShapeLib := {|
  url_parses u := is_some (strip_prefix "https://" u); base64_error _ := ""; json_error _ := ""; DecodingKey := unit;
  from_rsa_components _ _ := Err ""; from_ec_components _ _ := Err ""; jwt_decode _ _ _ := Err "" |}.
#[local] Instance plain_records : RecordJson := {|
  details_json _ := VArray []; confirmation_json _ := VObject []; act_json _ := VObject [] |}.

Definition demo_claims : AccessTokenClaims :=
  claims_new "https://as" 200 (AudMany ["https://rs-one"; "https://rs-two"]) "alice" "app" 100 "id-1".
#[local] Instance claims_backends : Backends :=
  {| claims_to_vec _ := Some "claims"; builtin_verifier _ := None |}.
#[local] Instance claims_serde : Serde := {|
  json_from_slice text := if text == "claims" then Some (claims_json demo_claims) else read_header text;
  details_from_str _ := None; json_to_string _ := "" |}.

Lemma claims_serde_reads : reads_headers.
Proof.
  intros alg text kid Hk. pose proof (header_serde_reads alg text kid Hk) as Hr. cbn in Hr |- *.
  rewrite bool_decide_eq_false_2 by done. exact Hr.
Qed.

Definition rotated : JwtConfig := rotate_to (other_signer "2025") (jwt_new (other_signer "2024") "https://rs").

Lemma served_documents_conform_witness :
  validate_rfc9068_access_token ((jc_encoded_header rotated +:+ "." +:+ b64url_encode "claims")
    +:+ "." +:+ b64url_encode "signature") = [].
Proof.
  destruct served_documents_conform as (_ & _ & _ & _ & Ht).
  apply (Ht (other_signer "2024") "https://rs" [RotateTo (other_signer "2025")] rotated demo_claims "claims"
    (jc_encoded_header rotated +:+ "." +:+ b64url_encode "claims") "signature" claims_serde_reads);
    vm_compute; reflexivity.
Defined.
End witnesses.
